(* ===== verification/_CoqProject ===== *)
-Q . S2P
Prelude.v
HevList.v
RBTree.v
RBTreeRep.v
RBTreeInsert.v
RBTreeErase.v
RBTreeIter.v
RBTreeProps.v
RBTreeSearch.v
TaskSystem.v
TaskSystemQueue.v
TaskSystemRun.v
TaskSystemProps.v
CString.v
RingBuffer.v
MappedDNS.v
MappedDNSCache.v
MappedDNSPacket.v
MappedDNSSafe.v
MappedDNSAnswer.v
MappedDNSLife.v
MappedDNSProps.v
Authenticator.v
AuthenticatorMap.v
AuthenticatorProps.v
SocksAddr.v
SocksAddrProps.v
SocksIO.v
SocksClient.v
SocksServer.v
SocksSegments.v
SocksHandshake.v
SocksSafety.v
Session.v
SocksUDP.v
SocksUDPProps.v
SessionTCP.v
SessionTCPProps.v
Config.v
ConfigProps.v
Tunnel.v
TunnelProps.v
TunnelLife.v
SessionUDP.v
SessionUDPProps.v
MappedDNSConnect.v
TaskIO.v
TaskIOProps.v
SocksFragment.v
Splicer.v
SplicerProps.v
TaskTimer.v
TaskTimerProps.v
TaskSync.v
TaskSyncProps.v
SliceAllocator.v
SliceAllocatorProps.v
Pbuf.v
PbufProps.v
PbufRefs.v
PbufShape.v
SessionPbuf.v
Chksum.v
ChksumProps.v
ChksumSeg.v
TcpIn.v
TcpInProps.v
TcpInRun.v
TcpStream.v
TcpSession.v
TcpOut.v
TcpOutProps.v
TcpOutAck.v
TcpOutWrite.v
TcpOutSend.v
TcpOutRun.v
TcpOutCases.v
TcpSendSession.v
TcpOpen.v
