(* ===== verification/Prelude.v ===== *)
(** * Verification of the tun2socks core of Ghostlane (hev-socks5-tunnel)

    ** The program

    The native part of the Android app is hev-socks5-tunnel (below
    src/androidApp/src/main/jni/hev-socks5-tunnel/src/, to which the file names
    in this development refer).  IP packets of a TUN device are given to lwIP,
    which ends the TCP connections and UDP flows of the phone's programs.  For
    each of them the tunnel makes a session: a SOCKS5 client that connects to the
    configured server, makes the handshake and forwards the data, in a task of
    its own.  A DNS server of its own hands out addresses for names and maps them
    back when a connection to such an address is made.  The SOCKS5 library below
    core/src/ has the client, and a server with an authenticator for users.

    ** Files and what they model

    Each file that is a model keeps the names of the code; the files of lemmas and
    theorems follow it.

    - [Prelude]: integers at their width, the state monad [stm] with undefined
      behaviour as [None] and its weakest preconditions, memory as lists of cells;
      [CString]: byte buffers and string functions.
    - [HevList]: misc/hev-list.[ch], the intrusive list, on a memory of nodes.
    - [RBTree] (core/src/hev-rbtree.[ch]): nodes on a memory, the colour in the
      low bit of the parent pointer as in the code.  [RBTreeRep], [RBTreeInsert],
      [RBTreeErase], [RBTreeIter], [RBTreeProps], [RBTreeSearch]: insertion and
      deletion keep the red-black invariants and the order, iteration is in order,
      searches agree with the order, all within logarithmic numbers of passes.
    - [TaskSystem] (third-part/hev-task-system/src: kern/core/hev-task-system-schedule.c,
      kern/task/hev-task.c, lib/rbtree/hev-rbtree-cached.c): the cooperative
      scheduler, its run queue in a red-black tree with a cached first node.
      [TaskSystemQueue], [TaskSystemRun]: the tree is a queue by keys;
      [TaskSystemProps]: the theorems.
    - [TaskTimer], [TaskTimerProps] (kern/time/hev-task-timer.c): the sleeping tasks
      in a red-black tree by their time; waiting is split where the task yields.
    - [TaskSync], [TaskSyncProps] (kern/sync): the mutex and the condition, as steps
      of tasks in any order.
    - [TaskIO], [TaskIOProps] (lib/io/basic, lib/io/socket): the operations on
      descriptors that wait, over a kernel that moves pieces of the data.
    - [Splicer], [SplicerProps] (task_io_splice in both forms, lib/io/buffer,
      core/src/hev-socks5-tcp.c): forwarding between two descriptors.
    - [SliceAllocator], [SliceAllocatorProps] (mem/slice, mem/api): the allocator
      with caches of slices.
    - [MappedDNS] (hev-mapped-dns.[ch]): the cache of names, a tree and a list in
      order of use over the same nodes.  [MappedDNSCache], [MappedDNSLife]: it
      implements an abstract LRU cache.  [MappedDNSPacket], [MappedDNSSafe],
      [MappedDNSAnswer]: the DNS server on arbitrary packets and on queries.
      [MappedDNSProps]: the theorems.
    - [RingBuffer] (misc/hev-ring-buffer.[ch]): a bounded queue.
    - [Authenticator], [AuthenticatorMap], [AuthenticatorProps]
      (core/src/hev-socks5-authenticator.c, hev-socks5-user.c): users in a
      red-black tree implement a finite map, with reference counts.
    - [SocksAddr], [SocksAddrProps] (core/src/hev-socks5-misc.c,
      misc/hev-utils.c): addresses, their encodings and round trips.
    - [SocksIO]: programs that send, receive and make system calls, as trees; two
      of them connected by streams run by interleaved steps; what a program does
      with descriptors.  [SocksClient] (core/src/hev-socks5-client*.c, hev-socks5.c)
      and [SocksServer] (core/src/hev-socks5-server.c) are such programs.
      [SocksSegments] states what the server needs of its store of users and of
      the resolver as classes, and what each part of a handshake does;
      [SocksHandshake] runs client and server against each other, [SocksFragment]
      does so over sockets that split the data as [TaskIO] allows; [SocksSafety]
      and [Session] (hev-socks5-session.c) run one of them against anything.
    - [SocksUDP], [SocksUDPProps] (core/src/hev-socks5-udp.c): datagrams over the
      TCP stream and as UDP, sent, received and forwarded.
    - [SessionTCP], [SessionTCPProps] (hev-socks5-session-tcp.c): both directions
      of a TCP session with the callbacks of lwIP in any order; the ring buffer is
      shared with lwIP, which keeps pointers into it.
    - [Config], [ConfigProps] (hev-config.c): the parsed YAML document becomes the
      static variables.
    - [Tunnel], [TunnelProps], [TunnelLife] (hev-socks5-tunnel.c): the set of
      sessions with its limit, the callbacks and tasks of lwIP, stopping; the
      reachable states of the running tunnel; start and end.
    - [SessionUDP], [SessionUDPProps] (hev-socks5-session-udp.c): the queue of
      frames and the two directions of a UDP session.
    - [Pbuf], [PbufProps], [PbufShape], [PbufRefs] (third-part/lwip/src: core/pbuf.c,
      core/memp.c): packet buffers on a memory of buffers and blocks, with reference
      counts and pools.  [SessionPbuf]: the queue of a TCP session as such a chain.
    - [Chksum], [ChksumProps], [ChksumSeg] (core/inet_chksum.c, core/tcp_out.c): the
      checksums of packets and of TCP segments.
    - [TcpIn] (core/tcp_in.c, core/tcp.c, include/lwip/priv/tcp_priv.h): what a
      connection of lwIP does with segments, from ESTABLISHED on: the queue of segments
      out of sequence, the window, the states, refused data.  [TcpInProps]: one segment
      of a stream, [TcpInRun]: one call of [tcp_input], [TcpStream]: whole connections.
      [TcpSession]: the connection and the TCP session as one system.
    - [TcpOut] (core/tcp_out.c, core/tcp_in.c, core/tcp.c): the queues of segments that
      are sent: writing, output, retransmission, splitting, probing, acknowledgements and
      the timers.  [TcpOutProps]: the queues as one chain, [TcpOutAck], [TcpOutWrite],
      [TcpOutSend]: the operations keep it, [TcpOutRun]: whole connections,
      [TcpOutCases]: runs outside the conditions of [TcpOutRun].  [TcpSendSession]: the
      connection and the TCP session as one system, in this direction.
    - [TcpOpen] (core/tcp_in.c, core/tcp.c, core/tcp_out.c): how a SYN of the peer opens
      a connection.
    - [MappedDNSConnect] (dns_recv_handler of hev-socks5-tunnel.c, misc/hev-utils.c):
      the mapped DNS, the addresses and the sessions together.

    ** What is shown

    - Data structures: red-black tree (insert, erase, iterate, replace), list,
      ring buffer, mapped DNS cache and authenticator implement sequences, a
      bounded queue, an LRU cache and a finite map, with memory and references
      accounted for; well-formedness is kept by every operation.
    - Formats: SOCKS5 addresses, datagrams over both transports and DNS answers
      are encoded and decoded faithfully; parsers stay inside their buffers.
    - Protocol: this client and this server always finish their handshake with the
      same result, in every interleaving and in both modes, and the server
      connects exactly when it may; against any peer both use and close only the
      descriptors they have opened, and keep their references.
    - Sessions: bytes are neither lost nor reordered in either direction, what
      lwIP points to is never overwritten, its buffers are never overrun, and a
      session ends when its connection is gone or closed; datagrams go out in
      order with their destinations and come back with their sources.
    - Task system: the tasks that can run are picked in the order of their keys, and
      none of them is starved, with an explicit bound on the turns of the others;
      timers expire in order and none is forgotten; a mutex has one holder, and a
      task that waits for a free one is awake; the allocator never hands out a
      block that is in use, and keeps a bounded number of free ones.
    - Descriptors: sending and receiving move a prefix in order, all of it unless
      the kernel or the yielder ends them, and vectors are as good as one buffer;
      forwarding loses nothing, shuts down after the last byte, ends, and never
      sleeps on a descriptor that is ready.  The handshake above also holds when
      sockets split the data in every possible way.
    - Tunnel: the limit on sessions stops the one that is idle for longest, the
      timers of lwIP go on while there are sessions, a stop reaches every session
      and all tasks end, and what is taken at the start is released.
    - Together: a name that was answered with an address of the mapped network is
      requested by name when a connection to that address is made.
    - lwIP: packet buffers are lists of bytes whose counts are the numbers of their
      holders, so that none is released while it is used and all are released in the
      end; checksums are those of RFC 1071 however the data is cut; a connection gives
      its application the stream of the peer in every order of arrival, and the session
      on top of it writes that stream to its socket; in the other direction only pieces of
      what was read from the socket are on the wire, at their places and within the window
      of the peer, as long as the queues are in order and lwIP takes what it is given.  The handshake
      that the peer begins leaves a connection both directions can start from.  A
      position in the stream is a number without bound: the comparison of sequence numbers is right because
      positions in question are near to each other.
    - Configuration: the limits other parts rely on hold after any document, in
      particular that the buffer of a TCP session fits the send buffer of lwIP.
    - A number of theorems show where the code does not do this: reads past a
      packet, truncated lengths, a double abort and a double removal of
      connections of lwIP, a limit, a segment and a timer that abort the process, a
      connection that is released while it is used, a stream that is corrupted, cut off or
      stalled by retransmission and splitting, leaks, unchecked settings.

    ** Bounds

    Recursion that follows pointers takes fuel: the size of the structure plus one
    (tree walks, list walks), or a number of passes that grows with the logarithm
    of the number of nodes (the two loops of the red-black tree).  The theorems say
    that the result is [Some], so the fuel is enough.  Loops of tasks, which run
    for as long as the system lets them, go along a list of what each turn meets;
    that they end is a theorem about the length of that list.  In the same way the
    kernel below [TaskIO] and [Splicer] is a list of answers (so many bytes at
    most, not ready, an error), which the theorems take as it comes.

    Tasks are cooperative: a function runs until it waits.  Where a function waits
    for the mutex of lwIP between two of its parts, the parts are taken together;
    what may run in between appends to the end of a queue, or releases at its
    front, and commutes with them.

    ** Not modelled

    Logging, the class tables, system calls beyond their results, the reactors,
    channels, stacks and context switches of the task system; of lwIP the opening
    of connections to a peer, headers and resets of TCP, IP and the interfaces, and of libyaml all beyond
    the functions named above; the platform code of the TUN device, the entry points
    (hev-main.c, hev-jni.c); the applications around this core, which are not
    written in C. *)

From stdpp Require Export prelude gmap list list_tactics fin_maps.
From Stdlib Require Export ZArith Lia.

Open Scope Z_scope.

(** ** Machine integers

    C integers are kept as [Z]; the conversions below are the wrap-around of
    the unsigned types and the two's complement reading of [int]. *)

Definition u8 (z : Z) : Z := z mod 2 ^ 8.
Definition u16 (z : Z) : Z := z mod 2 ^ 16.
Definition u32 (z : Z) : Z := z mod 2 ^ 32.
Definition u64 (z : Z) : Z := z mod 2 ^ 64.
Definition s32 (z : Z) : Z := (z + 2 ^ 31) mod 2 ^ 32 - 2 ^ 31.

Definition is_u8 (z : Z) : Prop := 0 ≤ z < 2 ^ 8.
Definition is_u16 (z : Z) : Prop := 0 ≤ z < 2 ^ 16.
Definition is_u32 (z : Z) : Prop := 0 ≤ z < 2 ^ 32.
Definition is_s32 (z : Z) : Prop := - 2 ^ 31 ≤ z < 2 ^ 31.

Lemma u8_small z : 0 ≤ z < 2 ^ 8 → u8 z = z.
Proof. intros H. unfold u8. by apply Z.mod_small. Qed.
Lemma u16_small z : 0 ≤ z < 2 ^ 16 → u16 z = z.
Proof. intros H. unfold u16. by apply Z.mod_small. Qed.
Lemma u32_small z : 0 ≤ z < 2 ^ 32 → u32 z = z.
Proof. intros H. unfold u32. by apply Z.mod_small. Qed.
Lemma u64_small z : 0 ≤ z < 2 ^ 64 → u64 z = z.
Proof. intros H. unfold u64. by apply Z.mod_small. Qed.

(** ** The state monad of the C code

    A C function is a value of [stm S A]: from a state it gives a result and
    a state, or [None].  [None] is undefined behaviour (a load or a store at
    an address that holds no object), or a loop that has run out of fuel; a
    theorem that a function gives [Some] excludes both. *)

Definition stm (S A : Type) : Type := S → option (A * S).

#[global] Instance stm_ret S : MRet (stm S) := λ A a s, Some (a, s).
#[global] Instance stm_bind S : MBind (stm S) := λ A B f c s,
  match c s with Some (a, s') => f a s' | None => None end.

Definition ub {S A} : stm S A := λ _, None.
Definition gets {S A} (f : S → A) : stm S A := λ s, Some (f s, s).
Definition modify {S} (f : S → S) : stm S unit := λ s, Some (tt, f s).

Lemma stm_bind_run {S A B} (c : stm S A) (f : A → stm S B) s a s' :
  c s = Some (a, s') → (c ≫= f) s = f a s'.
Proof. intros H. unfold mbind, stm_bind. by rewrite H. Qed.

(** Running a computation on a part of a larger state. *)
Definition zoom {S T A} (get : T → S) (set : S → T → T) (c : stm S A) : stm T A :=
  λ t, match c (get t) with Some (a, s) => Some (a, set s t) | None => None end.

(** Total weakest precondition: the computation is defined and its outcome
    satisfies [Q]. *)
Definition wp {S A} (c : stm S A) (s : S) (Q : A → S → Prop) : Prop :=
  match c s with Some (a, s') => Q a s' | None => False end.

Section wp_rules.
Context {S : Type}.

Lemma wp_ret {A} (a : A) (s : S) Q : Q a s → wp (mret a) s Q.
Proof. done. Qed.

Lemma wp_bind {A B} (c : stm S A) (f : A → stm S B) s Q :
  wp c s (λ a s', wp (f a) s' Q) → wp (c ≫= f) s Q.
Proof. unfold wp, mbind, stm_bind. by destruct (c s) as [[a s']|]. Qed.

Lemma wp_bind_inv {A B} (c : stm S A) (f : A → stm S B) s Q :
  wp (c ≫= f) s Q → wp c s (λ a s', wp (f a) s' Q).
Proof. unfold wp, mbind, stm_bind. by destruct (c s) as [[a s']|]. Qed.

Lemma wp_mono {A} (c : stm S A) s (Q Q' : A → S → Prop) :
  wp c s Q → (∀ a s', Q a s' → Q' a s') → wp c s Q'.
Proof. unfold wp. destruct (c s) as [[a s']|]; eauto. Qed.

Lemma wp_gets {A} (f : S → A) s Q : Q (f s) s → wp (gets f) s Q.
Proof. done. Qed.

Lemma wp_modify (f : S → S) s Q : Q tt (f s) → wp (modify f) s Q.
Proof. done. Qed.

Lemma wp_run {A} (c : stm S A) s Q :
  wp c s Q → ∃ a s', c s = Some (a, s') ∧ Q a s'.
Proof. unfold wp. destruct (c s) as [[a s']|]; [eauto|done]. Qed.

Lemma wp_of_run {A} (c : stm S A) s a s' (Q : A → S → Prop) :
  c s = Some (a, s') → Q a s' → wp c s Q.
Proof. unfold wp. by intros ->. Qed.

Lemma wp_zoom {T A} (get : T → S) (set : S → T → T) (c : stm S A) (t : T) Q :
  wp c (get t) (λ a s, Q a (set s t)) → wp (zoom get set c) t Q.
Proof. unfold wp, zoom. by destruct (c (get t)) as [[a s]|]. Qed.
End wp_rules.

(** ** Heaps as lists of cells

    [heap_is m L]: the memory [m] consists of the cells of [L], at pairwise
    distinct object addresses.  Addresses are [Z]; an object address is not
    NULL, fits in a [uintptr_t] and is 8-aligned.  [L] may be permuted freely,
    so [L] is read as a separating conjunction of cells: loads and stores name
    a cell by its position, and no proof below argues about two addresses
    being different. *)

Definition is_ptr (a : Z) : Prop := 0 < a < 2 ^ 64 ∧ a mod 8 = 0.

Definition heap_is {V} (m : gmap Z V) (L : list (Z * V)) : Prop :=
  NoDup L.*1 ∧ Forall is_ptr L.*1 ∧ m = list_to_map L.

Section heap.
Context {V : Type}.
Implicit Types (m : gmap Z V) (L : list (Z * V)).

#[global] Instance heap_is_proper m : Proper ((≡ₚ) ==> iff) (heap_is m).
Proof.
  assert (∀ L L', L ≡ₚ L' → heap_is m L → heap_is m L') as H.
  { intros L L' HL (Hnd & Hp & ->). assert (L.*1 ≡ₚ L'.*1) as H1 by by rewrite HL.
    split_and!; [by rewrite <-H1 | by rewrite <-H1 |].
    by apply list_to_map_proper. }
  intros L L' HL. split; eapply H; by rewrite HL.
Qed.

Lemma heap_perm m L L' : heap_is m L → L ≡ₚ L' → heap_is m L'.
Proof. by intros ? <-. Qed.

Lemma heap_lookup m L (i : nat) a v :
  heap_is m L → L !! i = Some (a, v) → m !! a = Some v.
Proof.
  intros (Hnd & _ & ->) Hi. apply elem_of_list_to_map_1; [done|].
  by eapply list_elem_of_lookup_2.
Qed.

Lemma heap_ptr m L (i : nat) a v : heap_is m L → L !! i = Some (a, v) → is_ptr a.
Proof.
  intros (_ & Hp & _) Hi. eapply Forall_forall; [done|].
  apply list_elem_of_fmap. exists (a, v). split; [done|]. by eapply list_elem_of_lookup_2.
Qed.

Lemma heap_store m L (i : nat) a v v' :
  heap_is m L → L !! i = Some (a, v) → heap_is (<[a:=v']> m) (<[i:=(a, v')]> L).
Proof.
  intros HL Hi. pose proof (delete_Permutation L i (a, v) Hi) as HP.
  rewrite HP in HL. destruct HL as (Hnd & Hp & ->).
  assert (<[i:=(a, v')]> L ≡ₚ (a, v') :: delete i L) as ->.
  { rewrite insert_take_drop by by eapply lookup_lt_Some.
    rewrite delete_take_drop. solve_Permutation. }
  split_and!; [done|done|]. simpl. by rewrite insert_insert_eq.
Qed.

Lemma heap_alloc m L a v :
  heap_is m L → is_ptr a → m !! a = None → heap_is (<[a:=v]> m) ((a, v) :: L).
Proof.
  intros (Hnd & Hp & ->) Ha Hn. split_and!; [|by constructor|done].
  simpl. constructor; [|done]. by apply not_elem_of_list_to_map_2 in Hn.
Qed.

Lemma heap_free m L a v : heap_is m ((a, v) :: L) → heap_is (delete a m) L.
Proof.
  intros (Hnd & Hp & ->). simpl in *.
  apply NoDup_cons in Hnd as [Hn Hnd]. apply Forall_cons in Hp as [_ Hp].
  split_and!; [done|done|]. rewrite delete_insert_id; [done|].
  by apply not_elem_of_list_to_map_1.
Qed.

(** Every memory whose addresses are object addresses is a list of cells. *)
Lemma heap_is_self m : (∀ a v, m !! a = Some v → is_ptr a) → heap_is m (map_to_list m).
Proof.
  intros Hp. split_and!; [apply NoDup_fst_map_to_list| |by rewrite list_to_map_to_list].
  apply Forall_forall. intros a ([a' v] & -> & Hin)%list_elem_of_fmap.
  apply elem_of_map_to_list in Hin. eauto.
Qed.

(** Two cells at different positions have different addresses. *)
Lemma heap_ne m L (L1 L2 : list Z) x y :
  heap_is m L → L.*1 ≡ₚ L1 ++ L2 → x ∈ L1 → y ∈ L2 → x ≠ y.
Proof.
  intros (Hnd & _ & _) HP Hx Hy ->. rewrite HP in Hnd.
  apply NoDup_app in Hnd as (_ & Hd & _). by eapply Hd.
Qed.

Lemma heap_notin m L a v : heap_is m ((a, v) :: L) → a ∉ L.*1.
Proof. intros (Hnd & _ & _). by apply NoDup_cons in Hnd as [? _]. Qed.

Lemma heap_all_ptr m L a : heap_is m L → a ∈ L.*1 → is_ptr a.
Proof. intros (_ & Hp & _) Ha. by eapply Forall_forall in Hp. Qed.
End heap.

(** A map from a list with distinct keys does not depend on where a key is. *)
Lemma list_to_map_middle {V} (L1 L2 : list (Z * V)) a v : NoDup (L1 ++ (a, v) :: L2).*1 →
  (list_to_map (L1 ++ (a, v) :: L2) : gmap Z V) = <[a := v]> (list_to_map (L1 ++ L2)).
Proof.
  intros H. change (<[a := v]> (list_to_map (L1 ++ L2))) with (list_to_map ((a, v) :: L1 ++ L2) : gmap Z V).
  apply list_to_map_proper; [done|solve_Permutation].
Qed.

Lemma size_list_to_map {V} (L : list (Z * V)) : NoDup L.*1 → size (list_to_map L : gmap Z V) = length L.
Proof.
  intros H. rewrite <-(length_fmap fst L), <-(size_list_to_set (C := gset Z)) by done.
  rewrite <-size_dom, dom_list_to_map_L. done.
Qed.

Lemma heap_size {V} (m : gmap Z V) L : heap_is m L → size m = length L.
Proof.
  intros (Hnd & _ & ->). rewrite map_size_list_to_map by done. done.
Qed.

Lemma filter_all {A} (P : A → Prop) `{!∀ x, Decision (P x)} (l : list A) : Forall P l → filter P l = l.
Proof. induction 1 as [|x l Hx _ IH]; [done|]. by rewrite filter_cons, decide_True, IH. Qed.

Lemma filter_none {A} (P : A → Prop) `{!∀ x, Decision (P x)} (l : list A) : Forall (λ x, ¬ P x) l → filter P l = [].
Proof. induction 1 as [|x l Hx _ IH]; [done|]. by rewrite filter_cons, decide_False, IH. Qed.

Lemma is_ptr_nonzero a : is_ptr a → a ≠ 0.
Proof. intros [? ?]. lia. Qed.

(** [hperm H L]: read the memory of [H] as the permuted list of cells [L]. *)
Ltac hperm H L := eapply (heap_perm _ _ L) in H; [|solve_Permutation].
