(* ===== verification/HevList.v ===== *)
(** * The intrusive doubly-linked list (src/misc/hev-list.c, hev-list.h)

    Nodes live in a memory of [HevListNode] cells addressed by the address of
    the node; a list header is a head and a tail pointer.  [list_is] relates
    the header and the memory to the sequence of node addresses it stands for,
    next to cells [F] that are not in the list.  The theorems show that every
    operation is the corresponding operation on sequences. *)

From S2P Require Import Prelude.

Record HevListNode := mk_lnode { ln_next : Z; ln_prev : Z }.
Record HevList := mk_hlist { hl_head : Z; hl_tail : Z; hl_mem : gmap Z HevListNode }.

(** ** Loads and stores *)

Definition ln_load (p : Z) : stm HevList HevListNode := λ s,
  match hl_mem s !! p with Some n => Some (n, s) | None => None end.

Definition ln_store (p : Z) (n : HevListNode) : stm HevList unit := λ s,
  match hl_mem s !! p with
  | Some _ => Some (tt, mk_hlist (hl_head s) (hl_tail s) (<[p:=n]> (hl_mem s)))
  | None => None
  end.

Definition ln_set_next (p v : Z) : stm HevList unit :=
  n ← ln_load p; ln_store p (mk_lnode v (ln_prev n)).
Definition ln_set_prev (p v : Z) : stm HevList unit :=
  n ← ln_load p; ln_store p (mk_lnode (ln_next n) v).
Definition hl_set_head (v : Z) : stm HevList unit :=
  modify (λ s, mk_hlist v (hl_tail s) (hl_mem s)).
Definition hl_set_tail (v : Z) : stm HevList unit :=
  modify (λ s, mk_hlist (hl_head s) v (hl_mem s)).

(** ** The operations of hev-list.h and hev-list.c *)

Definition hev_list_node_prev (node : Z) : stm HevList Z :=
  n ← ln_load node; mret (ln_prev n).
Definition hev_list_node_next (node : Z) : stm HevList Z :=
  n ← ln_load node; mret (ln_next n).
Definition hev_list_first : stm HevList Z := gets hl_head.
Definition hev_list_last : stm HevList Z := gets hl_tail.

Definition hev_list_add_tail (new_ : Z) : stm HevList unit :=
  tail ← gets hl_tail;
  ln_set_prev new_ tail;;
  ln_set_next new_ 0;;
  (if tail =? 0 then hl_set_head new_ else ln_set_next tail new_);;
  hl_set_tail new_.

Definition hev_list_del (node : Z) : stm HevList unit :=
  n ← ln_load node;
  (if ln_prev n =? 0 then hl_set_head (ln_next n)
   else ln_set_next (ln_prev n) (ln_next n));;
  n ← ln_load node;
  (if ln_next n =? 0 then hl_set_tail (ln_prev n)
   else ln_set_prev (ln_next n) (ln_prev n)).

(** ** Representation *)

Fixpoint lseg (prv : Z) (xs : list Z) (nxt : Z) : list (Z * HevListNode) :=
  match xs with
  | [] => []
  | x :: xs => (x, mk_lnode (hd nxt xs) prv) :: lseg x xs nxt
  end.

(** The last element, [d] for the empty sequence. *)
Fixpoint lastd (d : Z) (xs : list Z) : Z :=
  match xs with [] => d | x :: xs => lastd x xs end.

Record list_is (s : HevList) (xs : list Z) (F : list (Z * HevListNode)) : Prop := {
  li_heap : heap_is (hl_mem s) (lseg 0 xs 0 ++ F);
  li_head : hl_head s = hd 0 xs;
  li_tail : hl_tail s = lastd 0 xs;
}.

Lemma lseg_app prv xs ys nxt :
  lseg prv (xs ++ ys) nxt = lseg prv xs (hd nxt ys) ++ lseg (lastd prv xs) ys nxt.
Proof.
  revert prv. induction xs as [|x xs IH]; intros prv; [done|]. simpl.
  rewrite IH. by destruct xs.
Qed.

Lemma lastd_snoc d xs x : lastd d (xs ++ [x]) = x.
Proof. revert d. induction xs as [|y xs IH]; intros d; [done|]. apply IH. Qed.

Lemma lseg_fst prv xs nxt : (lseg prv xs nxt).*1 = xs.
Proof. revert prv. induction xs as [|x xs IH]; intros prv; [done|]. simpl. by rewrite IH. Qed.

Lemma list_is_ptr s xs F x : list_is s xs F → x ∈ xs → is_ptr x.
Proof.
  intros [Hh _ _] Hx. eapply heap_all_ptr; [done|].
  rewrite fmap_app, lseg_fst. set_solver.
Qed.

Lemma list_is_NoDup s xs F : list_is s xs F → NoDup xs.
Proof.
  intros [(Hnd & _) _ _]. rewrite fmap_app, lseg_fst in Hnd.
  by apply NoDup_app in Hnd as [? _].
Qed.

Lemma list_is_disjoint s xs F x : list_is s xs F → x ∈ xs → x ∉ F.*1.
Proof.
  intros [(Hnd & _) _ _]. rewrite fmap_app, lseg_fst in Hnd.
  apply NoDup_app in Hnd as (_ & H & _). apply H.
Qed.

(** ** Symbolic execution of loads and stores *)

Lemma wp_ln_load s L (i : nat) p n Q :
  heap_is (hl_mem s) L → L !! i = Some (p, n) → Q n s → wp (ln_load p) s Q.
Proof. intros HL Hi HQ. unfold wp, ln_load. by rewrite (heap_lookup _ _ _ _ _ HL Hi). Qed.

Lemma wp_ln_store s L (i : nat) p n n' Q :
  heap_is (hl_mem s) L → L !! i = Some (p, n) →
  (∀ m, heap_is m (<[i:=(p, n')]> L) → Q tt (mk_hlist (hl_head s) (hl_tail s) m)) →
  wp (ln_store p n') s Q.
Proof.
  intros HL Hi HQ. unfold wp, ln_store. rewrite (heap_lookup _ _ _ _ _ HL Hi).
  apply HQ. by eapply heap_store.
Qed.

Lemma wp_ln_set_next s L (i : nat) p n v Q :
  heap_is (hl_mem s) L → L !! i = Some (p, n) →
  (∀ m, heap_is m (<[i:=(p, mk_lnode v (ln_prev n))]> L) →
        Q tt (mk_hlist (hl_head s) (hl_tail s) m)) →
  wp (ln_set_next p v) s Q.
Proof.
  intros HL Hi HQ. apply wp_bind. eapply wp_ln_load; [done..|]. by eapply wp_ln_store.
Qed.

Lemma wp_ln_set_prev s L (i : nat) p n v Q :
  heap_is (hl_mem s) L → L !! i = Some (p, n) →
  (∀ m, heap_is m (<[i:=(p, mk_lnode (ln_next n) v)]> L) →
        Q tt (mk_hlist (hl_head s) (hl_tail s) m)) →
  wp (ln_set_prev p v) s Q.
Proof.
  intros HL Hi HQ. apply wp_bind. eapply wp_ln_load; [done..|]. by eapply wp_ln_store.
Qed.

Lemma hd_nonzero s xs F : list_is s xs F → xs ≠ [] → hd 0 xs ≠ 0.
Proof.
  intros Hl Hx. destruct xs as [|x xs]; [done|]. simpl.
  apply is_ptr_nonzero. eapply list_is_ptr; [done|]. set_solver.
Qed.

(** ** The operations implement the operations on sequences *)

Lemma wp_hev_list_first s xs F (Q : Z → HevList → Prop) :
  list_is s xs F → Q (hd 0 xs) s → wp hev_list_first s Q.
Proof. intros [_ Hh _] HQ. apply wp_gets. by rewrite Hh. Qed.

Lemma wp_hev_list_node_next s l1 x l2 F (Q : Z → HevList → Prop) :
  list_is s (l1 ++ x :: l2) F → Q (hd 0 l2) s → wp (hev_list_node_next x) s Q.
Proof.
  intros [Hh _ _] HQ. apply wp_bind. rewrite lseg_app in Hh. simpl in Hh.
  hperm Hh ((x, mk_lnode (hd 0 l2) (lastd 0 l1)) :: lseg 0 l1 x ++ lseg x l2 0 ++ F).
  eapply (wp_ln_load _ _ 0); [exact Hh|done|]. by apply wp_ret.
Qed.

(** [hev_list_add_tail] appends.  On a list that stands for [xs], with the
    cell of [new_] outside the list, it is defined and the list then stands
    for [xs ++ [new_]]; every other cell outside the list is untouched. *)
Lemma wp_hev_list_add_tail s xs new_ n F :
  list_is s xs ((new_, n) :: F) →
  wp (hev_list_add_tail new_) s (λ _ s', list_is s' (xs ++ [new_]) F).
Proof.
  intros Hl. destruct Hl as [Hh Hhd Htl].
  assert (hl_tail s = 0 ↔ xs = []) as Ht0.
  { rewrite Htl. destruct xs as [|x xs _] using rev_ind; [done|].
    rewrite lastd_snoc. split; [|by destruct xs].
    intros ->. exfalso. apply (is_ptr_nonzero 0); [|done].
    eapply heap_all_ptr; [exact Hh|]. rewrite fmap_app, lseg_fst. set_solver. }
  unfold hev_list_add_tail. apply wp_bind, wp_gets.
  hperm Hh ((new_, n) :: lseg 0 xs 0 ++ F).
  apply wp_bind. eapply (wp_ln_set_prev _ _ 0); [exact Hh|done|]. intros m1 H1. simpl in H1.
  apply wp_bind. eapply (wp_ln_set_next _ _ 0); [exact H1|done|]. intros m2 H2. simpl in H2.
  apply wp_bind. destruct (Z.eqb_spec (hl_tail s) 0) as [E|E].
  - apply Ht0 in E as ->. apply wp_modify. apply wp_modify. simpl. split; [|done..]. simpl.
    simpl in *. by rewrite Htl in H2.
  - destruct xs as [|x xs _] using rev_ind; [tauto|].
    rewrite lastd_snoc in Htl. rewrite Htl in *.
    rewrite lseg_app in H2. simpl in H2.
    hperm H2 ((x, mk_lnode 0 (lastd 0 xs)) :: (new_, mk_lnode 0 x) :: lseg 0 xs x ++ F).
    eapply (wp_ln_set_next _ _ 0); [exact H2|done|]. intros m3 H3. simpl in H3.
    apply wp_modify. split; simpl.
    + rewrite <-app_assoc, lseg_app. simpl. eapply heap_perm; [exact H3|]. solve_Permutation.
    + rewrite Hhd. by destruct xs.
    + by rewrite lastd_snoc.
Qed.

Lemma wp_hev_list_del s l1 x l2 F :
  list_is s (l1 ++ x :: l2) F →
  wp (hev_list_del x) s (λ _ s', ∃ n, list_is s' (l1 ++ l2) ((x, n) :: F)).
Proof.
  intros Hl. pose proof (list_is_ptr _ _ _ x Hl ltac:(set_solver)) as Hx.
  assert (∀ y, y ∈ l1 ++ x :: l2 → y ≠ 0) as Hp.
  { intros y Hy. eapply is_ptr_nonzero, list_is_ptr; done. }
  destruct Hl as [Hh Hhd Htl]. rewrite lseg_app in Hh. simpl in Hh.
  set (N := mk_lnode (hd 0 l2) (lastd 0 l1)) in *.
  hperm Hh ((x, N) :: lseg 0 l1 x ++ lseg x l2 0 ++ F).
  unfold hev_list_del. apply wp_bind. eapply (wp_ln_load _ _ 0); [exact Hh|done|].
  (* the predecessor, or the head *)
  apply wp_bind. apply (wp_mono _ _ (λ _ s1, hl_head s1 = hd 0 (l1 ++ l2) ∧
    hl_tail s1 = hl_tail s ∧
    heap_is (hl_mem s1) ((x, N) :: lseg 0 l1 (hd 0 l2) ++ lseg x l2 0 ++ F))).
  { destruct l1 as [|p l1 _] using rev_ind; simpl.
    - apply wp_modify. by destruct l2.
    - rewrite lastd_snoc. case_match eqn:E; [apply Z.eqb_eq in E; exfalso; eapply Hp; [|done]; set_solver|].
      rewrite lseg_app in Hh. simpl in Hh.
      hperm Hh ((p, mk_lnode x (lastd 0 l1)) :: (x, N) :: lseg 0 l1 p ++ lseg x l2 0 ++ F).
      eapply (wp_ln_set_next _ _ 0); [exact Hh|done|]. intros m Hm. simpl in *. split_and!; [|done|].
      + rewrite Hhd. by destruct l1.
      + rewrite lseg_app. simpl. eapply heap_perm; [exact Hm|]. solve_Permutation. }
  intros [] s1 (Hhd1 & Htl1 & Hh1).
  (* the successor, or the tail *)
  apply wp_bind. eapply (wp_ln_load _ _ 0); [exact Hh1|done|].
  destruct l2 as [|q l2]; simpl.
  - apply wp_modify. exists N. split; simpl.
    + rewrite app_nil_r. eapply heap_perm; [exact Hh1|]. simpl. solve_Permutation.
    + done.
    + by rewrite app_nil_r.
  - destruct (Z.eqb_spec q 0) as [->|_]; [exfalso; eapply Hp; [|done]; set_solver|].
    hperm Hh1 ((q, mk_lnode (hd 0 l2) x) :: (x, N) :: lseg 0 l1 q ++ lseg q l2 0 ++ F).
    eapply (wp_ln_set_prev _ _ 0); [exact Hh1|done|]. intros m Hm. exists N. split; simpl.
    + rewrite lseg_app. simpl in *. eapply heap_perm; [exact Hm|]. solve_Permutation.
    + done.
    + rewrite Htl1, Htl. clear. revert l1. generalize 0. 
      intros d l1. revert d. induction l1 as [|y l1 IH]; intros d; [done|]. simpl. apply IH.
Qed.

(** Moving a node to the end: the pair of calls by which the callers keep
    their lists in least-recently-used order. *)
Lemma wp_hev_list_touch s l1 x l2 F :
  list_is s (l1 ++ x :: l2) F →
  wp (hev_list_del x;; hev_list_add_tail x) s (λ _ s', list_is s' (l1 ++ l2 ++ [x]) F).
Proof.
  intros Hl. apply wp_bind. eapply wp_mono; [by apply wp_hev_list_del|].
  intros [] s1 [n H1]. eapply wp_mono; [by eapply wp_hev_list_add_tail|].
  intros [] s2 H2. by rewrite <-app_assoc in H2.
Qed.
