(* ===== verification/RBTree.v ===== *)
(** * The red-black tree (src/core/src/hev-rbtree.c, hev-rbtree.h): the model

    Nodes live in a memory of [HevRBTreeNode] cells addressed by the address of
    the node.  The parent pointer and the colour share the word
    [__parent_color], as in the code.  Every function is translated statement
    by statement; the two rebalancing loops take fuel. *)

From S2P Require Import Prelude.

Record HevRBTreeNode := mk_rbnode {
  rb_parent_color : Z;
  rb_right : Z;
  rb_left : Z;
}.

Record HevRBTree := mk_rbtree {
  rb_root : Z;
  rb_mem : gmap Z HevRBTreeNode;
}.

Inductive HevRBTreeColor := HEV_RBTREE_RED | HEV_RBTREE_BLACK.

Definition color_Z (c : HevRBTreeColor) : Z :=
  match c with HEV_RBTREE_RED => 0 | HEV_RBTREE_BLACK => 1 end.

#[global] Instance HevRBTreeColor_eq_dec : EqDecision HevRBTreeColor.
Proof. solve_decision. Defined.

(** ** Loads and stores *)

Definition rb_load (p : Z) : stm HevRBTree HevRBTreeNode := λ s,
  match rb_mem s !! p with Some n => Some (n, s) | None => None end.

Definition rb_store (p : Z) (n : HevRBTreeNode) : stm HevRBTree unit := λ s,
  match rb_mem s !! p with
  | Some _ => Some (tt, mk_rbtree (rb_root s) (<[p:=n]> (rb_mem s)))
  | None => None
  end.

Definition get_pc (p : Z) : stm HevRBTree Z := n ← rb_load p; mret (rb_parent_color n).
Definition get_left (p : Z) : stm HevRBTree Z := n ← rb_load p; mret (rb_left n).
Definition get_right (p : Z) : stm HevRBTree Z := n ← rb_load p; mret (rb_right n).
Definition set_pc (p v : Z) : stm HevRBTree unit :=
  n ← rb_load p; rb_store p (mk_rbnode v (rb_right n) (rb_left n)).
Definition set_left (p v : Z) : stm HevRBTree unit :=
  n ← rb_load p; rb_store p (mk_rbnode (rb_parent_color n) (rb_right n) v).
Definition set_right (p v : Z) : stm HevRBTree unit :=
  n ← rb_load p; rb_store p (mk_rbnode (rb_parent_color n) v (rb_left n)).
Definition set_root (v : Z) : stm HevRBTree unit :=
  modify (λ s, mk_rbtree v (rb_mem s)).

(** ** hev-rbtree.h *)

(** [~(uintptr_t)3] on 64 bits. *)
Definition not3 : Z := Z.ldiff (Z.ones 64) 3.

Definition hev_rbtree_node_empty (node : Z) : stm HevRBTree bool :=
  pc ← get_pc node; mret (pc =? node).

Definition hev_rbtree_node_parent (node : Z) : stm HevRBTree Z :=
  pc ← get_pc node; mret (Z.land pc not3).

(** The [HevRBTreeNode **link] argument: the address of the root pointer or of
    a child pointer of a node. *)
Inductive rb_link := LRoot | LLeft (p : Z) | LRight (p : Z).

Definition get_link (l : rb_link) : stm HevRBTree Z :=
  match l with LRoot => gets rb_root | LLeft p => get_left p | LRight p => get_right p end.
Definition set_link (l : rb_link) (v : Z) : stm HevRBTree unit :=
  match l with LRoot => set_root v | LLeft p => set_left p v | LRight p => set_right p v end.

Definition hev_rbtree_node_link (node parent : Z) (link : rb_link) : stm HevRBTree unit :=
  set_pc node parent;;
  set_right node 0;;
  set_left node 0;;
  set_link link node.

(** ** Colours and parents *)

Definition hev_rbtree_node_color (node : Z) : stm HevRBTree Z :=
  pc ← get_pc node; mret (Z.land pc 1).

Definition hev_rbtree_node_is_red (node : Z) : stm HevRBTree bool :=
  c ← hev_rbtree_node_color node;
  mret (Z.land c (color_Z HEV_RBTREE_BLACK) =? 0).

Definition hev_rbtree_node_is_black (node : Z) : stm HevRBTree bool :=
  c ← hev_rbtree_node_color node;
  mret (negb (Z.land c (color_Z HEV_RBTREE_BLACK) =? 0)).

Definition _hev_rbtree_node_is_black (pc : Z) : bool :=
  negb (Z.land pc (color_Z HEV_RBTREE_BLACK) =? 0).

Definition _hev_rbtree_node_parent (pc : Z) : Z := Z.land pc not3.

Definition hev_rbtree_node_red_parent (node : Z) : stm HevRBTree Z := get_pc node.

Definition hev_rbtree_node_set_black (node : Z) : stm HevRBTree unit :=
  pc ← get_pc node; set_pc node (Z.lor pc (color_Z HEV_RBTREE_BLACK)).

Definition hev_rbtree_node_set_parent (node parent : Z) : stm HevRBTree unit :=
  c ← hev_rbtree_node_color node; set_pc node (Z.lor c parent).

Definition hev_rbtree_node_set_parent_color (node parent : Z) (color : HevRBTreeColor) :
    stm HevRBTree unit :=
  set_pc node (Z.lor parent (color_Z color)).

Definition hev_rbtree_change_child (old new parent : Z) : stm HevRBTree unit :=
  if parent =? 0 then set_root new
  else
    l ← get_left parent;
    if l =? old then set_left parent new else set_right parent new.

Definition hev_rbtree_rotate_set_parents (old new : Z) (color : HevRBTreeColor) :
    stm HevRBTree unit :=
  parent ← hev_rbtree_node_parent old;
  pc ← get_pc old;
  set_pc new pc;;
  hev_rbtree_node_set_parent_color old new color;;
  hev_rbtree_change_child old new parent.

(** ** Iteration *)

(** [while (node->left) node = node->left;] and its mirror image. *)
Fixpoint leftmost (fuel : nat) (node : Z) : stm HevRBTree Z :=
  match fuel with
  | O => ub
  | S fuel => l ← get_left node; if l =? 0 then mret node else leftmost fuel l
  end.

Fixpoint rightmost (fuel : nat) (node : Z) : stm HevRBTree Z :=
  match fuel with
  | O => ub
  | S fuel => r ← get_right node; if r =? 0 then mret node else rightmost fuel r
  end.

(** [while ((parent = hev_rbtree_node_parent (node)) && node == parent->right)
    node = parent;] and its mirror image. *)
Fixpoint climb_right (fuel : nat) (node : Z) : stm HevRBTree Z :=
  match fuel with
  | O => ub
  | S fuel =>
      parent ← hev_rbtree_node_parent node;
      if parent =? 0 then mret parent
      else
        r ← get_right parent;
        if node =? r then climb_right fuel parent else mret parent
  end.

Fixpoint climb_left (fuel : nat) (node : Z) : stm HevRBTree Z :=
  match fuel with
  | O => ub
  | S fuel =>
      parent ← hev_rbtree_node_parent node;
      if parent =? 0 then mret parent
      else
        l ← get_left parent;
        if node =? l then climb_left fuel parent else mret parent
  end.

Definition hev_rbtree_node_prev (fuel : nat) (node : Z) : stm HevRBTree Z :=
  e ← hev_rbtree_node_empty node;
  if e : bool then mret 0
  else
    l ← get_left node;
    if negb (l =? 0) then rightmost fuel l else climb_left fuel node.

Definition hev_rbtree_node_next (fuel : nat) (node : Z) : stm HevRBTree Z :=
  e ← hev_rbtree_node_empty node;
  if e : bool then mret 0
  else
    r ← get_right node;
    if negb (r =? 0) then leftmost fuel r else climb_right fuel node.

Definition hev_rbtree_first (fuel : nat) : stm HevRBTree Z :=
  n ← gets rb_root;
  if n =? 0 then mret 0 else leftmost fuel n.

Definition hev_rbtree_last (fuel : nat) : stm HevRBTree Z :=
  n ← gets rb_root;
  if n =? 0 then mret 0 else rightmost fuel n.

(** ** Insertion *)

(** [tmp && hev_rbtree_node_is_red (tmp)] *)
Definition nonnull_is_red (tmp : Z) : stm HevRBTree bool :=
  if tmp =? 0 then mret false else hev_rbtree_node_is_red tmp.

(** [!tmp || hev_rbtree_node_is_black (tmp)] *)
Definition null_or_black (tmp : Z) : stm HevRBTree bool :=
  if tmp =? 0 then mret true else hev_rbtree_node_is_black tmp.

(** [if (tmp) hev_rbtree_node_set_parent_color (tmp, parent, color);] *)
Definition set_parent_color_nonnull (tmp parent : Z) (color : HevRBTreeColor) :
    stm HevRBTree unit :=
  if tmp =? 0 then mret tt else hev_rbtree_node_set_parent_color tmp parent color.

(** One pass of the loop of [hev_rbtree_insert_color]: [Some (node, parent)]
    is [continue], [None] is [break]. *)
Definition insert_color_step (node parent : Z) : stm HevRBTree (option (Z * Z)) :=
  if parent =? 0 then
    hev_rbtree_node_set_parent_color node 0 HEV_RBTREE_BLACK;; mret None
  else
    b ← hev_rbtree_node_is_black parent;
    if b : bool then mret None
    else
      gparent ← hev_rbtree_node_red_parent parent;
      tmp ← get_right gparent;
      if negb (parent =? tmp) then
        (* parent == gparent->left *)
        red ← nonnull_is_red tmp;
        if red : bool then
          (* case 1: colour flips *)
          hev_rbtree_node_set_parent_color tmp gparent HEV_RBTREE_BLACK;;
          hev_rbtree_node_set_parent_color parent gparent HEV_RBTREE_BLACK;;
          parent' ← hev_rbtree_node_parent gparent;
          hev_rbtree_node_set_parent_color gparent parent' HEV_RBTREE_RED;;
          mret (Some (gparent, parent'))
        else
          tmp ← get_right parent;
          pt ← (if node =? tmp then
            (* case 2: left rotate at parent *)
            tmp ← get_left node;
            set_right parent tmp;;
            set_left node parent;;
            set_parent_color_nonnull tmp parent HEV_RBTREE_BLACK;;
            hev_rbtree_node_set_parent_color parent node HEV_RBTREE_RED;;
            tmp ← get_right node;
            mret (node, tmp)
          else mret (parent, tmp));
          let '(parent, tmp) := pt : Z * Z in
          (* case 3: right rotate at gparent *)
          set_left gparent tmp;;
          set_right parent gparent;;
          set_parent_color_nonnull tmp gparent HEV_RBTREE_BLACK;;
          hev_rbtree_rotate_set_parents gparent parent HEV_RBTREE_RED;;
          mret None
      else
        tmp ← get_left gparent;
        red ← nonnull_is_red tmp;
        if red : bool then
          hev_rbtree_node_set_parent_color tmp gparent HEV_RBTREE_BLACK;;
          hev_rbtree_node_set_parent_color parent gparent HEV_RBTREE_BLACK;;
          parent' ← hev_rbtree_node_parent gparent;
          hev_rbtree_node_set_parent_color gparent parent' HEV_RBTREE_RED;;
          mret (Some (gparent, parent'))
        else
          tmp ← get_left parent;
          pt ← (if node =? tmp then
            (* case 2: right rotate at parent *)
            tmp ← get_right node;
            set_left parent tmp;;
            set_right node parent;;
            set_parent_color_nonnull tmp parent HEV_RBTREE_BLACK;;
            hev_rbtree_node_set_parent_color parent node HEV_RBTREE_RED;;
            tmp ← get_left node;
            mret (node, tmp)
          else mret (parent, tmp));
          let '(parent, tmp) := pt : Z * Z in
          (* case 3: left rotate at gparent *)
          set_right gparent tmp;;
          set_left parent gparent;;
          set_parent_color_nonnull tmp gparent HEV_RBTREE_BLACK;;
          hev_rbtree_rotate_set_parents gparent parent HEV_RBTREE_RED;;
          mret None.

Fixpoint insert_color_loop (fuel : nat) (node parent : Z) : stm HevRBTree unit :=
  match fuel with
  | O => ub
  | S fuel =>
      r ← insert_color_step node parent;
      match r with
      | Some (node', parent') => insert_color_loop fuel node' parent'
      | None => mret tt
      end
  end.

Definition hev_rbtree_insert_color (fuel : nat) (node : Z) : stm HevRBTree unit :=
  parent ← hev_rbtree_node_red_parent node;
  insert_color_loop fuel node parent.

(** ** Replacement *)

(** [if (tmp) hev_rbtree_node_set_parent (tmp, parent);] *)
Definition set_parent_nonnull (tmp parent : Z) : stm HevRBTree unit :=
  if tmp =? 0 then mret tt else hev_rbtree_node_set_parent tmp parent.

Definition hev_rbtree_replace (victim new : Z) : stm HevRBTree unit :=
  parent ← hev_rbtree_node_parent victim;
  v ← rb_load victim;
  rb_store new v;;
  l ← get_left victim;
  set_parent_nonnull l new;;
  r ← get_right victim;
  set_parent_nonnull r new;;
  hev_rbtree_change_child victim new parent.

(** ** Removal *)

(** The [do ... while (tmp)] descent to the successor: from [successor] with
    [tmp = successor->left] non-NULL to the pair (parent, successor). *)
Fixpoint erase_descend (fuel : nat) (successor tmp : Z) : stm HevRBTree (Z * Z) :=
  match fuel with
  | O => ub
  | S fuel =>
      tmp' ← get_left tmp;
      if tmp' =? 0 then mret (successor, tmp) else erase_descend fuel tmp tmp'
  end.

(** The successor of the node to erase, found below its right child [child] and
    detached: the triple (parent, successor, child2). *)
Definition erase_detach_successor (fuel : nat) (child : Z) : stm HevRBTree (Z * Z * Z) :=
  tmp ← get_left child;
  if tmp =? 0 then
    (* case 2: the successor is the right child *)
    child2 ← get_right child;
    mret (child, child, child2)
  else
    (* case 3: the successor is leftmost under the right child *)
    ps ← erase_descend fuel child tmp;
    let '(parent, successor) := ps : Z * Z in
    child2 ← get_right successor;
    set_left parent child2;;
    set_right successor child;;
    hev_rbtree_node_set_parent child successor;;
    mret (parent, successor, child2).

Definition _hev_rbtree_erase (fuel : nat) (node : Z) : stm HevRBTree Z :=
  child ← get_right node;
  tmp ← get_left node;
  if tmp =? 0 then
    (* case 1: no more than one child *)
    pc ← get_pc node;
    let parent := _hev_rbtree_node_parent pc in
    hev_rbtree_change_child node child parent;;
    (if negb (child =? 0) then set_pc child pc;; mret 0
     else mret (if _hev_rbtree_node_is_black pc then parent else 0))
  else if child =? 0 then
    (* still case 1, the child is node->left *)
    pc ← get_pc node;
    set_pc tmp pc;;
    let parent := _hev_rbtree_node_parent pc in
    hev_rbtree_change_child node tmp parent;;
    mret 0
  else
    psc ← erase_detach_successor fuel child;
    let '(parent, successor, child2) := psc : Z * Z * Z in
    tmp ← get_left node;
    set_left successor tmp;;
    hev_rbtree_node_set_parent tmp successor;;
    pc ← get_pc node;
    let tmp := _hev_rbtree_node_parent pc in
    hev_rbtree_change_child node successor tmp;;
    rebalance ← (if negb (child2 =? 0) then
        hev_rbtree_node_set_parent_color child2 parent HEV_RBTREE_BLACK;; mret 0
      else
        b ← hev_rbtree_node_is_black successor;
        mret (if b : bool then parent else 0));
    set_pc successor pc;;
    mret rebalance.

(** Case 2 of the loop of [_hev_rbtree_erase_color]: sibling colour flip, then
    continue at the parent, or break. *)
Definition erase_color_case2 (parent sibling : Z) : stm HevRBTree (option (Z * Z)) :=
  hev_rbtree_node_set_parent_color sibling parent HEV_RBTREE_RED;;
  red ← hev_rbtree_node_is_red parent;
  if red : bool then hev_rbtree_node_set_black parent;; mret None
  else
    parent' ← hev_rbtree_node_parent parent;
    mret (if parent' =? 0 then None else Some (parent, parent')).

(** Case 4 of the loop of [_hev_rbtree_erase_color]: rotate at the parent with
    colour flips, and break. *)
Definition erase_color_case4_left (parent sibling tmp1 : Z) :
    stm HevRBTree (option (Z * Z)) :=
  tmp2 ← get_left sibling;
  set_right parent tmp2;;
  set_left sibling parent;;
  hev_rbtree_node_set_parent_color tmp1 sibling HEV_RBTREE_BLACK;;
  set_parent_nonnull tmp2 parent;;
  hev_rbtree_rotate_set_parents parent sibling HEV_RBTREE_BLACK;;
  mret None.

Definition erase_color_case4_right (parent sibling tmp1 : Z) :
    stm HevRBTree (option (Z * Z)) :=
  tmp2 ← get_right sibling;
  set_left parent tmp2;;
  set_right sibling parent;;
  hev_rbtree_node_set_parent_color tmp1 sibling HEV_RBTREE_BLACK;;
  set_parent_nonnull tmp2 parent;;
  hev_rbtree_rotate_set_parents parent sibling HEV_RBTREE_BLACK;;
  mret None.

(** The second half of a pass of the loop of [_hev_rbtree_erase_color] (cases
    2 to 4), for a node that is a left child: from [parent] and its black
    [sibling]. *)
Definition erase_color_left (parent sibling : Z) : stm HevRBTree (option (Z * Z)) :=
  tmp1 ← get_right sibling;
  b1 ← null_or_black tmp1;
  if b1 : bool then
    tmp2 ← get_left sibling;
    b2 ← null_or_black tmp2;
    if b2 : bool then
      erase_color_case2 parent sibling
    else
      (* case 3: right rotate at sibling *)
      tmp1 ← get_right tmp2;
      set_left sibling tmp1;;
      set_right tmp2 sibling;;
      set_right parent tmp2;;
      set_parent_color_nonnull tmp1 sibling HEV_RBTREE_BLACK;;
      (* tmp1 = sibling; sibling = tmp2; *)
      erase_color_case4_left parent tmp2 sibling
  else erase_color_case4_left parent sibling tmp1.

Definition erase_color_right (parent sibling : Z) : stm HevRBTree (option (Z * Z)) :=
  tmp1 ← get_left sibling;
  b1 ← null_or_black tmp1;
  if b1 : bool then
    tmp2 ← get_right sibling;
    b2 ← null_or_black tmp2;
    if b2 : bool then
      erase_color_case2 parent sibling
    else
      (* case 3: left rotate at sibling *)
      tmp1 ← get_left tmp2;
      set_right sibling tmp1;;
      set_left tmp2 sibling;;
      set_left parent tmp2;;
      set_parent_color_nonnull tmp1 sibling HEV_RBTREE_BLACK;;
      (* tmp1 = sibling; sibling = tmp2; *)
      erase_color_case4_right parent tmp2 sibling
  else erase_color_case4_right parent sibling tmp1.

(** One pass of the loop of [_hev_rbtree_erase_color]. *)
Definition erase_color_step (node parent : Z) : stm HevRBTree (option (Z * Z)) :=
  sibling ← get_right parent;
  if negb (node =? sibling) then
    (* node == parent->left *)
    red ← hev_rbtree_node_is_red sibling;
    sibling ← (if red : bool then
      (* case 1: left rotate at parent *)
      tmp1 ← get_left sibling;
      set_right parent tmp1;;
      set_left sibling parent;;
      hev_rbtree_node_set_parent_color tmp1 parent HEV_RBTREE_BLACK;;
      hev_rbtree_rotate_set_parents parent sibling HEV_RBTREE_RED;;
      mret tmp1
    else mret sibling);
    erase_color_left parent sibling
  else
    sibling ← get_left parent;
    red ← hev_rbtree_node_is_red sibling;
    sibling ← (if red : bool then
      (* case 1: right rotate at parent *)
      tmp1 ← get_right sibling;
      set_left parent tmp1;;
      set_right sibling parent;;
      hev_rbtree_node_set_parent_color tmp1 parent HEV_RBTREE_BLACK;;
      hev_rbtree_rotate_set_parents parent sibling HEV_RBTREE_RED;;
      mret tmp1
    else mret sibling);
    erase_color_right parent sibling.

Fixpoint erase_color_loop (fuel : nat) (node parent : Z) : stm HevRBTree unit :=
  match fuel with
  | O => ub
  | S fuel =>
      r ← erase_color_step node parent;
      match r with
      | Some (node', parent') => erase_color_loop fuel node' parent'
      | None => mret tt
      end
  end.

Definition _hev_rbtree_erase_color (fuel : nat) (parent : Z) : stm HevRBTree unit :=
  erase_color_loop fuel 0 parent.

Definition hev_rbtree_erase (fuel : nat) (node : Z) : stm HevRBTree unit :=
  rebalance ← _hev_rbtree_erase fuel node;
  if negb (rebalance =? 0) then _hev_rbtree_erase_color fuel rebalance else mret tt.
