(* ===== verification/RBTreeRep.v ===== *)
(** * Red-black trees: trees of addresses, contexts, and the heap predicate

    [tree] is the shape of a tree in memory, with the address of every node;
    [ctx] is a tree with a hole (a zipper), innermost frame first.  [cells] and
    [ccells] list the memory cells of a tree and of a context; [rs s r L] says
    that the state [s] has root pointer [r] and exactly the cells [L].  The
    rules [wp_*] execute the primitives of RBTree.v symbolically on [rs].
    [rb] and [kok] are the red-black invariants of trees and of contexts. *)

From S2P Require Import Prelude RBTree.

Notation Red := HEV_RBTREE_RED.
Notation Black := HEV_RBTREE_BLACK.

(** ** Trees and contexts *)

Inductive tree := E | T (c : HevRBTreeColor) (l : tree) (a : Z) (r : tree).

Inductive frame :=
  | Lf (c : HevRBTreeColor) (a : Z) (r : tree)   (* the hole is the left child *)
  | Rf (c : HevRBTreeColor) (l : tree) (a : Z).  (* the hole is the right child *)

Notation ctx := (list frame).

Definition rootp (t : tree) : Z := match t with E => 0 | T _ _ a _ => a end.
Definition faddr (f : frame) : Z := match f with Lf _ a _ | Rf _ _ a => a end.
Definition fcol (f : frame) : HevRBTreeColor := match f with Lf c _ _ | Rf c _ _ => c end.
Definition cpar (k : ctx) : Z := match k with [] => 0 | f :: _ => faddr f end.

Definition plug1 (f : frame) (t : tree) : tree :=
  match f with Lf c a r => T c t a r | Rf c l a => T c l a t end.
Fixpoint plug (k : ctx) (t : tree) : tree :=
  match k with [] => t | f :: k => plug k (plug1 f t) end.

(** The root pointer of the whole tree when the hole holds a tree rooted at [p]. *)
Fixpoint croot (k : ctx) (p : Z) : Z :=
  match k with [] => p | f :: k => croot k (faddr f) end.

(** Addresses in order. *)
Fixpoint inorder (t : tree) : list Z :=
  match t with E => [] | T _ l a r => inorder l ++ a :: inorder r end.
Fixpoint kleft (k : ctx) : list Z :=
  match k with [] => [] | Lf _ _ _ :: k => kleft k | Rf _ l a :: k => kleft k ++ inorder l ++ [a] end.
Fixpoint kright (k : ctx) : list Z :=
  match k with [] => [] | Lf _ a r :: k => a :: inorder r ++ kright k | Rf _ _ _ :: k => kright k end.

Fixpoint tsize (t : tree) : nat :=
  match t with E => 0 | T _ l _ r => S (tsize l + tsize r) end.

(** ** Memory cells *)

Definition nd (par : Z) (c : HevRBTreeColor) (r l : Z) : HevRBTreeNode :=
  mk_rbnode (Z.lor par (color_Z c)) r l.

Fixpoint cells (par : Z) (t : tree) : list (Z * HevRBTreeNode) :=
  match t with
  | E => []
  | T c l a r => (a, nd par c (rootp r) (rootp l)) :: cells a l ++ cells a r
  end.

Definition fcell (par : Z) (f : frame) (p : Z) : Z * HevRBTreeNode :=
  match f with
  | Lf c a r => (a, nd par c (rootp r) p)
  | Rf c l a => (a, nd par c p (rootp l))
  end.
Definition fside (f : frame) : tree := match f with Lf _ _ t | Rf _ t _ => t end.

Fixpoint ccells (k : ctx) (p : Z) : list (Z * HevRBTreeNode) :=
  match k with
  | [] => []
  | f :: k => fcell (cpar k) f p :: cells (faddr f) (fside f) ++ ccells k (faddr f)
  end.

Record rs (s : HevRBTree) (r : Z) (L : list (Z * HevRBTreeNode)) : Prop := {
  rs_heap : heap_is (rb_mem s) L;
  rs_root : rb_root s = r;
}.

(** The state holds the tree [plug k t], focused on [t], and the cells [F]. *)
Definition rbrep (s : HevRBTree) (k : ctx) (t : tree) (F : list (Z * HevRBTreeNode)) : Prop :=
  rs s (croot k (rootp t)) (cells (cpar k) t ++ ccells k (rootp t) ++ F).

(** The state holds the tree [t] and the cells [F]. *)
Definition tree_is (s : HevRBTree) (t : tree) (F : list (Z * HevRBTreeNode)) : Prop :=
  rbrep s [] t F.

(** ** Red-black invariants *)

Inductive rb : tree → HevRBTreeColor → nat → Prop :=
  | rb_E : rb E Black 0
  | rb_R l a r n : rb l Black n → rb r Black n → rb (T Red l a r) Red n
  | rb_B l a r cl cr n : rb l cl n → rb r cr n → rb (T Black l a r) Black (S n).

(** [kok k c n]: filling the hole of [k] with a tree of root colour [c] and
    black height [n] gives a red-black tree with a black root. *)
Inductive kok : ctx → HevRBTreeColor → nat → Prop :=
  | kok_nil n : kok [] Black n
  | kok_R f k n :
      fcol f = Red →
      rb (fside f) Black n → kok k Red n → kok (f :: k) Black n
  | kok_B f k c cs n :
      fcol f = Black →
      rb (fside f) cs n → kok k Black (S n) → kok (f :: k) c n.

(** A red-black tree: black root, no red node with a red child, the same
    number of black nodes on every path. *)
Definition redblack (t : tree) : Prop := ∃ n, rb t Black n.

(** ** Elementary facts *)

Lemma inorder_plug1 f t :
  inorder (plug1 f t) = kleft [f] ++ inorder t ++ kright [f].
Proof. destruct f; simpl; [by rewrite app_nil_r|]. by rewrite <-app_assoc, app_nil_r. Qed.

Lemma inorder_plug k t : inorder (plug k t) = kleft k ++ inorder t ++ kright k.
Proof.
  revert t. induction k as [|f k IH]; intros t; simpl; [by rewrite app_nil_r|].
  rewrite IH. destruct f; simpl; rewrite <-?app_assoc; simpl; rewrite <-?app_assoc; done.
Qed.

Lemma inorder_plug_cong k t1 t2 :
  inorder t1 = inorder t2 → inorder (plug k t1) = inorder (plug k t2).
Proof. intros H. by rewrite !inorder_plug, H. Qed.

Lemma plug_app k1 k2 t : plug (k1 ++ k2) t = plug k2 (plug k1 t).
Proof. revert t. induction k1 as [|f k1 IH]; intros t; [done|]. apply IH. Qed.

Lemma rootp_plug1 f t : rootp (plug1 f t) = faddr f.
Proof. by destruct f. Qed.

Lemma rootp_plug k t : rootp (plug k t) = croot k (rootp t).
Proof. revert t. induction k as [|f k IH]; intros t; [done|]. simpl. by rewrite IH, rootp_plug1. Qed.

Lemma cells_fst par t : (cells par t).*1 ≡ₚ inorder t.
Proof.
  revert par. induction t as [|c l IHl a r IHr]; intros par; [done|]. simpl.
  rewrite fmap_app, IHl, IHr. solve_Permutation.
Qed.

Lemma cells_plug1 par f t :
  cells par (plug1 f t) ≡ₚ fcell par f (rootp t) :: cells (faddr f) t ++ cells (faddr f) (fside f).
Proof. destruct f; simpl; solve_Permutation. Qed.

Lemma cells_plug k t :
  cells 0 (plug k t) ≡ₚ cells (cpar k) t ++ ccells k (rootp t).
Proof.
  revert t. induction k as [|f k IH]; intros t; simpl; [by rewrite app_nil_r|].
  rewrite IH, cells_plug1, rootp_plug1. solve_Permutation.
Qed.

Lemma rs_perm s r L L' : rs s r L → L ≡ₚ L' → rs s r L'.
Proof. intros [Hh Hr] HP. split; [by eapply heap_perm|done]. Qed.

(** Moving the focus. *)
Lemma rbrep_plug s k t F : rbrep s k t F ↔ tree_is s (plug k t) F.
Proof.
  unfold tree_is, rbrep. simpl. rewrite rootp_plug.
  split; intros H; (eapply rs_perm; [exact H|]); rewrite cells_plug; solve_Permutation.
Qed.

Lemma rb_kok_plug k t c n : rb t c n → kok k c n → redblack (plug k t).
Proof.
  intros Ht Hk. revert t Ht. induction Hk as [n|f k n Hf Hs Hk IH|f k c cs n Hf Hs Hk IH];
    intros t Ht; simpl; [by exists n|..]; apply IH; destruct f; simpl in *; subst; econstructor; done.
Qed.

Lemma redblack_plug_inv k t : redblack (plug k t) → ∃ c n, rb t c n ∧ kok k c n.
Proof.
  revert t. induction k as [|f k IH]; intros t; simpl; [intros [n ?]; exists Black, n; eauto using kok_nil|].
  intros (c & n & Ht & Hk)%IH. destruct f; simpl in *; inversion Ht; subst.
  all: do 2 eexists; split; [done|]; first [by apply kok_R | by eapply kok_B].
Qed.

Lemma kok_B_any k n : kok k Red n → kok k Black n.
Proof. inversion 1; subst. by eapply kok_B. Qed.

(** ** The word [__parent_color] *)

Definition ptr_or_null (a : Z) : Prop := 0 ≤ a < 2 ^ 64 ∧ a mod 8 = 0.

Lemma ptr_or_null_0 : ptr_or_null 0.
Proof. done. Qed.
Lemma is_ptr_or_null a : is_ptr a → ptr_or_null a.
Proof. intros [? ?]. split; [lia|done]. Qed.

Lemma testbit_aligned a i : ptr_or_null a → 0 ≤ i < 3 → Z.testbit a i = false.
Proof.
  intros [_ Ha] Hi. rewrite <-(Z.mod_pow2_bits_low a 3 i) by lia.
  change (2 ^ 3) with 8. rewrite Ha. apply Z.bits_0.
Qed.

Lemma testbit_color c i : 1 ≤ i → Z.testbit (color_Z c) i = false.
Proof.
  intros Hi. destruct c; simpl; [apply Z.bits_0|].
  apply Z.bits_above_log2; [lia|]. simpl. lia.
Qed.

Lemma pc_color a c : ptr_or_null a → Z.land (Z.lor a (color_Z c)) 1 = color_Z c.
Proof.
  intros Ha. change 1 with (Z.ones 1). rewrite Z.land_ones by lia.
  apply Z.bits_inj'. intros i Hi. destruct (decide (i < 1)).
  - rewrite Z.mod_pow2_bits_low, Z.lor_spec by lia.
    by rewrite testbit_aligned by (done || lia).
  - rewrite Z.mod_pow2_bits_high by lia. by rewrite testbit_color by lia.
Qed.

Lemma pc_parent a c : ptr_or_null a → Z.land (Z.lor a (color_Z c)) not3 = a.
Proof.
  intros Ha. apply Z.bits_inj'. intros i Hi. unfold not3.
  rewrite Z.land_spec, Z.lor_spec, Z.ldiff_spec.
  destruct (decide (i < 2)) as [Hlt|Hge].
  - rewrite (testbit_aligned a) by (done || lia). replace (Z.testbit 3 i) with true.
    + by rewrite andb_false_r, andb_false_r.
    + assert (i = 0 ∨ i = 1) as [-> | ->] by lia; done.
  - rewrite testbit_color by lia. rewrite orb_false_r.
    replace (Z.testbit 3 i) with false.
    + rewrite andb_true_r. destruct (decide (i < 64)).
      * rewrite Z.ones_spec_low by lia. by rewrite andb_true_r.
      * destruct Ha as [Ha _]. rewrite <-(Z.mod_small a (2 ^ 64)) by done.
        by rewrite Z.mod_pow2_bits_high by lia.
    + symmetry. apply (Z.bits_above_log2 3); [lia|]. change (Z.log2 3) with 1. lia.
Qed.

Lemma pc_red a : Z.lor a (color_Z Red) = a.
Proof. apply Z.lor_0_r. Qed.

(** ** Symbolic execution of the primitives *)

Section prim.
Implicit Types (s : HevRBTree) (L : list (Z * HevRBTreeNode)).

Lemma rs_store s r L (i : nat) p n n' :
  rs s r L → L !! i = Some (p, n) →
  rs (mk_rbtree (rb_root s) (<[p:=n']> (rb_mem s))) r (<[i:=(p, n')]> L).
Proof. intros [Hh Hr] Hi. split; [by eapply heap_store|done]. Qed.

Lemma wp_rb_load s r L (i : nat) p n (Q : HevRBTreeNode → HevRBTree → Prop) :
  rs s r L → L !! i = Some (p, n) → Q n s → wp (rb_load p) s Q.
Proof.
  intros [Hh _] Hi HQ. unfold wp, rb_load. by rewrite (heap_lookup _ _ _ _ _ Hh Hi).
Qed.

Lemma wp_rb_store s r L (i : nat) p n n' (Q : unit → HevRBTree → Prop) :
  rs s r L → L !! i = Some (p, n) →
  (∀ s', rs s' r (<[i:=(p, n')]> L) → Q tt s') → wp (rb_store p n') s Q.
Proof.
  intros Hrs Hi HQ. unfold wp, rb_store.
  rewrite (heap_lookup _ _ _ _ _ (rs_heap _ _ _ Hrs) Hi). apply HQ. by eapply rs_store.
Qed.

Lemma wp_get_pc s r L (i : nat) p n (Q : Z → HevRBTree → Prop) :
  rs s r L → L !! i = Some (p, n) → Q (rb_parent_color n) s → wp (get_pc p) s Q.
Proof. intros. apply wp_bind. by eapply wp_rb_load. Qed.
Lemma wp_get_left s r L (i : nat) p n (Q : Z → HevRBTree → Prop) :
  rs s r L → L !! i = Some (p, n) → Q (rb_left n) s → wp (get_left p) s Q.
Proof. intros. apply wp_bind. by eapply wp_rb_load. Qed.
Lemma wp_get_right s r L (i : nat) p n (Q : Z → HevRBTree → Prop) :
  rs s r L → L !! i = Some (p, n) → Q (rb_right n) s → wp (get_right p) s Q.
Proof. intros. apply wp_bind. by eapply wp_rb_load. Qed.

Lemma wp_set_pc s r L (i : nat) p n v (Q : unit → HevRBTree → Prop) :
  rs s r L → L !! i = Some (p, n) →
  (∀ s', rs s' r (<[i:=(p, mk_rbnode v (rb_right n) (rb_left n))]> L) → Q tt s') →
  wp (set_pc p v) s Q.
Proof. intros. apply wp_bind. eapply wp_rb_load; [done..|]. by eapply wp_rb_store. Qed.
Lemma wp_set_left s r L (i : nat) p par c rr ll v (Q : unit → HevRBTree → Prop) :
  rs s r L → L !! i = Some (p, nd par c rr ll) →
  (∀ s', rs s' r (<[i:=(p, nd par c rr v)]> L) → Q tt s') → wp (set_left p v) s Q.
Proof. intros. apply wp_bind. eapply wp_rb_load; [done..|]. by eapply wp_rb_store. Qed.
Lemma wp_set_right s r L (i : nat) p par c rr ll v (Q : unit → HevRBTree → Prop) :
  rs s r L → L !! i = Some (p, nd par c rr ll) →
  (∀ s', rs s' r (<[i:=(p, nd par c v ll)]> L) → Q tt s') → wp (set_right p v) s Q.
Proof. intros. apply wp_bind. eapply wp_rb_load; [done..|]. by eapply wp_rb_store. Qed.

Lemma wp_set_root s r L v (Q : unit → HevRBTree → Prop) :
  rs s r L → (∀ s', rs s' v L → Q tt s') → wp (set_root v) s Q.
Proof. intros [Hh _] HQ. apply wp_modify, HQ. by split. Qed.

Lemma wp_node_parent s r L (i : nat) p par c rr ll (Q : Z → HevRBTree → Prop) :
  rs s r L → L !! i = Some (p, nd par c rr ll) → ptr_or_null par →
  Q par s → wp (hev_rbtree_node_parent p) s Q.
Proof.
  intros Hrs Hi Hp HQ. apply wp_bind. eapply wp_get_pc; [done..|]. apply wp_ret.
  simpl. by rewrite pc_parent.
Qed.

Lemma wp_node_color s r L (i : nat) p par c rr ll (Q : Z → HevRBTree → Prop) :
  rs s r L → L !! i = Some (p, nd par c rr ll) → ptr_or_null par →
  Q (color_Z c) s → wp (hev_rbtree_node_color p) s Q.
Proof.
  intros Hrs Hi Hp HQ. apply wp_bind. eapply wp_get_pc; [done..|]. apply wp_ret.
  simpl. by rewrite pc_color.
Qed.

Lemma wp_is_red s r L (i : nat) p par c rr ll (Q : bool → HevRBTree → Prop) :
  rs s r L → L !! i = Some (p, nd par c rr ll) → ptr_or_null par →
  Q (bool_decide (c = Red)) s → wp (hev_rbtree_node_is_red p) s Q.
Proof.
  intros Hrs Hi Hp HQ. apply wp_bind. eapply wp_node_color; [done..|]. apply wp_ret.
  by destruct c.
Qed.

Lemma wp_is_black s r L (i : nat) p par c rr ll (Q : bool → HevRBTree → Prop) :
  rs s r L → L !! i = Some (p, nd par c rr ll) → ptr_or_null par →
  Q (bool_decide (c = Black)) s → wp (hev_rbtree_node_is_black p) s Q.
Proof.
  intros Hrs Hi Hp HQ. apply wp_bind. eapply wp_node_color; [done..|]. apply wp_ret.
  by destruct c.
Qed.

Lemma wp_set_parent_color s r L (i : nat) p par c rr ll par' c' (Q : unit → HevRBTree → Prop) :
  rs s r L → L !! i = Some (p, nd par c rr ll) →
  (∀ s', rs s' r (<[i:=(p, nd par' c' rr ll)]> L) → Q tt s') →
  wp (hev_rbtree_node_set_parent_color p par' c') s Q.
Proof. intros. by eapply wp_set_pc. Qed.

Lemma wp_set_parent s r L (i : nat) p par c rr ll par' (Q : unit → HevRBTree → Prop) :
  rs s r L → L !! i = Some (p, nd par c rr ll) → ptr_or_null par →
  (∀ s', rs s' r (<[i:=(p, nd par' c rr ll)]> L) → Q tt s') →
  wp (hev_rbtree_node_set_parent p par') s Q.
Proof.
  intros Hrs Hi Hp HQ. apply wp_bind. eapply wp_node_color; [done..|].
  rewrite Z.lor_comm. by eapply wp_set_pc.
Qed.

Lemma wp_set_black s r L (i : nat) p par c rr ll (Q : unit → HevRBTree → Prop) :
  rs s r L → L !! i = Some (p, nd par c rr ll) →
  (∀ s', rs s' r (<[i:=(p, nd par Black rr ll)]> L) → Q tt s') →
  wp (hev_rbtree_node_set_black p) s Q.
Proof.
  intros Hrs Hi HQ. apply wp_bind. eapply wp_get_pc; [done..|]. eapply wp_set_pc; [done..|].
  intros s' Hs'. apply HQ. simpl in Hs'. by rewrite <-Z.lor_assoc in Hs'; destruct c.
Qed.
End prim.

(** [take_cell L p] splits the cell of [p] off the list expression [L], and
    [take_blk L X] the block [X]; [rb_at H p] and [rfocus H X] bring them to
    the front of the cells of [H]; [rb_exec H] runs one primitive on the state
    of [H]. *)
Ltac take_cell L p :=
  match L with
  | (p, ?n) :: ?R => constr:(((p, n), R))
  | ?x :: ?R =>
      let z := take_cell R p in
      lazymatch z with (?c, ?R') => constr:((c, x :: R')) end
  | ?A ++ ?R =>
      let z := take_cell R p in
      lazymatch z with (?c, ?R') => constr:((c, A ++ R')) end
  | ?A ++ ?R =>
      let z := take_cell A p in
      lazymatch z with (?c, ?A') => constr:((c, A' ++ R)) end
  end.

Ltac take_blk L X :=
  match L with
  | X => constr:(@nil (Z * HevRBTreeNode))
  | X ++ ?R => constr:(R)
  | ?x :: ?R => let R' := take_blk R X in constr:(x :: R')
  | ?A ++ ?R => let R' := take_blk R X in constr:(A ++ R')
  | ?A ++ ?R => let A' := take_blk A X in constr:(A' ++ R)
  end.

(** [rperm H L]: permute the cells of [H] to [L]. *)
Ltac rperm H L' := eapply (rs_perm _ _ _ L') in H; [|solve_Permutation].

Ltac rb_at H p :=
  lazymatch type of H with
  | rs _ _ ((p, _) :: _) => idtac
  | rs _ _ ?L =>
      let z := take_cell L p in
      lazymatch z with (?c, ?R) => rperm H (c :: R) end
  end.

Ltac rfocus H X :=
  lazymatch type of H with
  | rs _ _ ?L => let R := take_blk L X in rperm H (X ++ R)
  end.

Ltac rb_prim H p lem :=
  rb_at H p; eapply (lem _ _ _ 0%nat); [exact H|reflexivity|..].

Ltac rb_intro H :=
  let s' := fresh "s" in
  clear H; intros s' H; cbn [insert list_insert] in H.

Ltac rb_ptr := first [done | by apply is_ptr_or_null | apply ptr_or_null_0].

Ltac rb_exec H :=
  lazymatch goal with
  | |- wp (mbind _ _) _ _ => apply wp_bind; rb_exec H
  | |- wp (mret _) _ _ => apply wp_ret
  | |- wp (get_pc ?p) _ _ => rb_prim H p wp_get_pc; cbn [rb_parent_color nd]
  | |- wp (hev_rbtree_node_red_parent ?p) _ _ =>
      unfold hev_rbtree_node_red_parent; rb_prim H p wp_get_pc; cbn [rb_parent_color nd]
  | |- wp (get_left ?p) _ _ => rb_prim H p wp_get_left; cbn [rb_left nd]
  | |- wp (get_right ?p) _ _ => rb_prim H p wp_get_right; cbn [rb_right nd]
  | |- wp (set_left ?p _) _ _ => rb_prim H p wp_set_left; rb_intro H
  | |- wp (set_right ?p _) _ _ => rb_prim H p wp_set_right; rb_intro H
  | |- wp (hev_rbtree_node_parent ?p) _ _ => rb_prim H p wp_node_parent; [rb_ptr|]
  | |- wp (hev_rbtree_node_is_red ?p) _ _ => rb_prim H p wp_is_red; [rb_ptr|]
  | |- wp (hev_rbtree_node_is_black ?p) _ _ => rb_prim H p wp_is_black; [rb_ptr|]
  | |- wp (hev_rbtree_node_set_parent_color ?p _ _) _ _ =>
      rb_prim H p wp_set_parent_color; rb_intro H
  | |- wp (hev_rbtree_node_set_parent ?p _) _ _ =>
      rb_prim H p wp_set_parent; [rb_ptr|]; rb_intro H
  | |- wp (hev_rbtree_node_set_black ?p) _ _ => rb_prim H p wp_set_black; rb_intro H
  end.

(** ** Subtrees and contexts *)

Definition recolor (c : HevRBTreeColor) (t : tree) : tree :=
  match t with E => E | T _ l a r => T c l a r end.

Lemma recolor_rb t n : rb t Black n → recolor Black t = t.
Proof. by inversion 1. Qed.

Lemma rootp_recolor c t : rootp (recolor c t) = rootp t.
Proof. by destruct t. Qed.

Lemma inorder_recolor c t : inorder (recolor c t) = inorder t.
Proof. by destruct t. Qed.

Lemma rs_ptr s r L a : rs s r L → a ∈ L.*1 → is_ptr a.
Proof. intros [Hh _]. by eapply heap_all_ptr. Qed.

Lemma rs_fst_ptr s r L a n : rs s r L → (a, n) ∈ L → is_ptr a.
Proof. intros H Ha. eapply rs_ptr; [done|]. apply list_elem_of_fmap. by exists (a, n). Qed.

Lemma cpar_in k p : cpar k = 0 ∨ cpar k ∈ (ccells k p).*1.
Proof. destruct k as [|[] k]; [by left|right; set_solver..]. Qed.

Lemma rs_cpar s r k p L : rs s r (ccells k p ++ L) → ptr_or_null (cpar k).
Proof.
  intros H. destruct (cpar_in k p) as [->|Hk]; [apply ptr_or_null_0|].
  apply is_ptr_or_null. eapply rs_ptr; [done|]. rewrite fmap_app. set_solver.
Qed.

Lemma rbrep_cpar s k t F : rbrep s k t F → ptr_or_null (cpar k).
Proof.
  intros H. eapply (rs_cpar _ _ k (rootp t) (cells (cpar k) t ++ F)).
  eapply rs_perm; [exact H|]. solve_Permutation.
Qed.

Lemma rbrep_faddr s f k t F : rbrep s (f :: k) t F → is_ptr (faddr f).
Proof.
  intros H. eapply rs_ptr; [exact H|]. rewrite !fmap_app. simpl. destruct f; set_solver.
Qed.

Lemma rbrep_up s f k t F : rbrep s (f :: k) t F → rbrep s k (plug1 f t) F.
Proof. intros H. apply rbrep_plug. by apply rbrep_plug in H. Qed.

Lemma rbrep_tail_cpar s f k t F : rbrep s (f :: k) t F → ptr_or_null (cpar k).
Proof. intros H%rbrep_up. by eapply rbrep_cpar. Qed.

Lemma rootp_in par t : t ≠ E → rootp t ∈ (cells par t).*1.
Proof. destruct t; [done|]. set_solver. Qed.

Lemma rs_rootp s r par t L : rs s r (cells par t ++ L) → t ≠ E → is_ptr (rootp t).
Proof.
  intros H Ht. eapply rs_ptr; [done|]. rewrite fmap_app.
  pose proof (rootp_in par t Ht). set_solver.
Qed.

Lemma rs_rootp_null s r par t L : rs s r (cells par t ++ L) → rootp t = 0 ↔ t = E.
Proof.
  intros H. split; [|by intros ->]. intros Ht. destruct t as [|c l a rr]; [done|].
  destruct (rs_rootp _ _ _ _ _ H) as [? _]; [done|]. lia.
Qed.

(** Membership of an explicit cell. *)
Ltac in_cells := repeat rewrite ?fmap_app, ?fmap_cons; simpl; set_solver.

(** A node that is elsewhere is not the root of a subtree. *)
Lemma rs_rootp_ne s r par t L a : rs s r (cells par t ++ L) → a ∈ L.*1 → rootp t ≠ a.
Proof.
  intros H Ha Heq. destruct t as [|c l b rr].
  - simpl in Heq. subst. destruct (rs_ptr _ _ _ 0 H); [|lia]. rewrite fmap_app. set_solver.
  - eapply (heap_ne _ _ _ _ (rootp (T c l b rr)) a (rs_heap _ _ _ H)).
    + by rewrite fmap_app.
    + by apply rootp_in.
    + done.
    + done.
Qed.

Lemma wp_set_parent_color_nonnull s r par t par' L (Q : unit → HevRBTree → Prop) :
  rs s r (cells par t ++ L) →
  (∀ s', rs s' r (cells par' (recolor Black t) ++ L) → Q tt s') →
  wp (set_parent_color_nonnull (rootp t) par' Black) s Q.
Proof.
  intros H HQ. unfold set_parent_color_nonnull.
  destruct (Z.eqb_spec (rootp t) 0) as [Hz|Hz].
  - apply (rs_rootp_null _ _ _ _ _ H) in Hz as ->. by apply wp_ret, HQ.
  - destruct t as [|c l a rr]; [done|]. simpl in *.
    rb_exec H. by apply HQ.
Qed.

Lemma wp_set_parent_root s r par t par' L (Q : unit → HevRBTree → Prop) :
  rs s r (cells par t ++ L) → t ≠ E → ptr_or_null par →
  (∀ s', rs s' r (cells par' t ++ L) → Q tt s') →
  wp (hev_rbtree_node_set_parent (rootp t) par') s Q.
Proof.
  intros H Ht Hp HQ. destruct t as [|c l a rr]; [done|]. simpl in *. rb_exec H. by apply HQ.
Qed.

Lemma wp_set_parent_nonnull s r par t par' L (Q : unit → HevRBTree → Prop) :
  rs s r (cells par t ++ L) → ptr_or_null par →
  (∀ s', rs s' r (cells par' t ++ L) → Q tt s') →
  wp (set_parent_nonnull (rootp t) par') s Q.
Proof.
  intros H Hp HQ. unfold set_parent_nonnull.
  destruct (Z.eqb_spec (rootp t) 0) as [Hz|Hz].
  - apply (rs_rootp_null _ _ _ _ _ H) in Hz as ->. by apply wp_ret, HQ.
  - destruct t as [|c l a rr]; [done|]. simpl in *.
    rb_exec H. by apply HQ.
Qed.

Definition tcolor (t : tree) : HevRBTreeColor := match t with E => Black | T c _ _ _ => c end.

Lemma rb_tcolor t c n : rb t c n → tcolor t = c.
Proof. by inversion 1. Qed.

Lemma wp_nonnull_is_red s r par t L (Q : bool → HevRBTree → Prop) :
  rs s r (cells par t ++ L) → ptr_or_null par →
  Q (bool_decide (tcolor t = Red)) s → wp (nonnull_is_red (rootp t)) s Q.
Proof.
  intros H Hp HQ. unfold nonnull_is_red. destruct (Z.eqb_spec (rootp t) 0) as [Hz|Hz].
  - apply (rs_rootp_null _ _ _ _ _ H) in Hz as ->. by apply wp_ret.
  - destruct t as [|c l a rr]; [done|]. simpl in *. by rb_exec H.
Qed.

Lemma wp_null_or_black s r par t L (Q : bool → HevRBTree → Prop) :
  rs s r (cells par t ++ L) → ptr_or_null par →
  Q (bool_decide (tcolor t = Black)) s → wp (null_or_black (rootp t)) s Q.
Proof.
  intros H Hp HQ. unfold null_or_black. destruct (Z.eqb_spec (rootp t) 0) as [Hz|Hz].
  - apply (rs_rootp_null _ _ _ _ _ H) in Hz as ->. by apply wp_ret.
  - destruct t as [|c l a rr]; [done|]. simpl in *. by rb_exec H.
Qed.

Lemma wp_change_child s k old new L (Q : unit → HevRBTree → Prop) :
  rs s (croot k old) (ccells k old ++ L) → old ∈ L.*1 →
  (∀ s', rs s' (croot k new) (ccells k new ++ L) → Q tt s') →
  wp (hev_rbtree_change_child old new (cpar k)) s Q.
Proof.
  intros H Hold HQ. unfold hev_rbtree_change_child. destruct k as [|f k]; simpl in *.
  - eapply wp_set_root; [done|]. apply HQ.
  - assert (is_ptr (faddr f)) as Hf.
    { eapply rs_ptr; [exact H|]. destruct f; set_solver. }
    destruct (Z.eqb_spec (faddr f) 0) as [Hz|_]; [by apply is_ptr_nonzero in Hf|].
    destruct f as [c a r|c l a]; simpl in *.
    + rb_exec H. rewrite Z.eqb_refl. rb_exec H. by apply HQ.
    + rb_exec H. destruct (Z.eqb_spec (rootp l) old) as [He|_].
      * exfalso. rperm H (cells a l ++ (a, nd (cpar k) c old (rootp l)) :: ccells k a ++ L).
        eapply rs_rootp_ne in H; [done|]. rewrite fmap_cons, fmap_app. set_solver.
      * rb_exec H. by apply HQ.
Qed.

Lemma wp_rotate_set_parents s k old new co ro lo pn cn rn ln color L
    (Q : unit → HevRBTree → Prop) :
  rs s (croot k old)
    ((old, nd (cpar k) co ro lo) :: (new, nd pn cn rn ln) :: ccells k old ++ L) →
  (∀ s', rs s' (croot k new)
    ((old, nd new color ro lo) :: (new, nd (cpar k) co rn ln) :: ccells k new ++ L) →
    Q tt s') →
  wp (hev_rbtree_rotate_set_parents old new color) s Q.
Proof.
  intros H HQ. unfold hev_rbtree_rotate_set_parents.
  assert (ptr_or_null (cpar k)) as Hk.
  { eapply (rs_cpar _ _ _ old). eapply rs_perm; [exact H|].
    instantiate (1 := (old, _) :: (new, _) :: L). solve_Permutation. }
  rb_exec H. rb_exec H.
  apply wp_bind. eapply (wp_set_pc _ _ _ 1); [exact H|reflexivity|]. rb_intro H. cbn [rb_left rb_right nd] in H.
  change (mk_rbnode (Z.lor (cpar k) (color_Z co)) rn ln) with (nd (cpar k) co rn ln) in H.
  rb_exec H. eapply wp_change_child.
  - eapply rs_perm; [exact H|]. instantiate (1 := (old, _) :: (new, _) :: L). solve_Permutation.
  - set_solver.
  - intros s' H'. apply HQ. eapply rs_perm; [exact H'|]. solve_Permutation.
Qed.
