(* ===== verification/RBTreeInsert.v ===== *)
(** * Red-black trees: insertion

    [hev_rbtree_insert_color] restores the red-black invariants after a red
    node has been linked at a leaf.  The loop is verified by an invariant on
    the context of the current node: the current node is red, its subtrees
    and its context are red-black, and only the current node and its parent
    may both be red. *)

From S2P Require Import Prelude RBTree RBTreeRep.

(** The invariant of the loop: the node is [a], its parent the innermost frame
    of [k]. *)
Definition ins_inv (s : HevRBTree) (k : ctx) (l : tree) (a : Z) (r : tree)
    (F : list (Z * HevRBTreeNode)) : Prop :=
  rbrep s k (T Red l a r) F ∧ ∃ n, kok k Black n ∧ rb l Black n ∧ rb r Black n.

(** What a finished insertion or removal has achieved. *)
Definition rb_done (s : HevRBTree) (xs : list Z) (F : list (Z * HevRBTreeNode)) : Prop :=
  ∃ t, tree_is s t F ∧ redblack t ∧ inorder t = xs.

Lemma rb_done_plug s k t c n xs F :
  rbrep s k t F → rb t c n → kok k c n → kleft k ++ inorder t ++ kright k = xs →
  rb_done s xs F.
Proof.
  intros H Ht Hk <-. exists (plug k t). split_and!.
  - by apply (proj1 (rbrep_plug _ _ _ _)).
  - by eapply rb_kok_plug.
  - apply inorder_plug.
Qed.

(** Equalities between in-order sequences. *)
Ltac solve_inorder :=
  rewrite ?inorder_plug, ?inorder_recolor; simpl; rewrite ?inorder_recolor;
  repeat (rewrite <-?app_assoc, ?app_nil_r; simpl); done.

(** A red frame is below a black frame. *)
Lemma kok_red_inv f k n :
  kok (f :: k) Black n → fcol f = Red →
  rb (fside f) Black n ∧ ∃ g k' cs, k = g :: k' ∧
    fcol g = Black ∧
    rb (fside g) cs n ∧ kok k' Black (S n).
Proof.
  inversion 1; subst; intros Hc; [|congruence]. split; [done|].
  match goal with H : kok k Red n |- _ => inversion H; subst end.
  naive_solver.
Qed.

Lemma rb_recolor_black t n : rb t Red n → rb (recolor Black t) Black (S n).
Proof. inversion 1; subst. by econstructor. Qed.

(** ** One pass of the loop, case by case *)

Definition ins_post (k : ctx) (xs : list Z) (F : list (Z * HevRBTreeNode))
    (res : option (Z * Z)) (s' : HevRBTree) : Prop :=
  match res with
  | None => rb_done s' xs F
  | Some (node, parent) =>
      ∃ k' l r, ins_inv s' k' l node r F ∧ parent = cpar k' ∧
        length k' < length k ∧ inorder (plug k' (T Red l node r)) = xs
  end%nat.

Section step.
Context (s : HevRBTree) (k : ctx) (l r : tree) (a : Z) (F : list (Z * HevRBTreeNode)) (n : nat).

Lemma ins_step_root :
  rbrep s [] (T Red l a r) F → rb l Black n → rb r Black n →
  wp (insert_color_step a 0) s (ins_post [] (inorder (T Red l a r)) F).
Proof.
  intros H Hl Hr. unfold rbrep in H. simpl in H. unfold insert_color_step. simpl.
  rb_exec H. rb_exec H. simpl. eapply (rb_done_plug _ [] (T Black l a r)); [exact H| |apply kok_nil|].
  - by eapply rb_B.
  - solve_inorder.
Qed.

Lemma ins_step_black f :
  rbrep s (f :: k) (T Red l a r) F → kok (f :: k) Black n →
  fcol f = Black →
  rb l Black n → rb r Black n →
  wp (insert_color_step a (faddr f)) s (ins_post (f :: k) (inorder (plug (f :: k) (T Red l a r))) F).
Proof.
  intros H Hk Hf Hl Hr. unfold insert_color_step.
  pose proof (rbrep_faddr _ _ _ _ _ H) as Hp. pose proof (rbrep_tail_cpar _ _ _ _ _ H) as Hpk.
  destruct (Z.eqb_spec (faddr f) 0) as [Hz|_]; [by apply is_ptr_nonzero in Hp|].
  assert (kok (f :: k) Red n) as HkR.
  { inversion Hk; subst; [congruence|]. by eapply kok_B. }
  pose proof H as H0. unfold rbrep in H. simpl in H.
  rperm H (fcell (cpar k) f a :: (a, nd (faddr f) Red (rootp r) (rootp l)) ::
    cells a l ++ cells a r ++ cells (faddr f) (fside f) ++ ccells k (faddr f) ++ F).
  apply wp_bind. destruct f; simpl in Hf; subst c; simpl in *;
    (rb_exec H; rewrite bool_decide_true by done; apply wp_ret;
     eapply rb_done_plug; [exact H0|by constructor|done|by rewrite <-inorder_plug]).
Qed.

End step.

(** The parent [p] is red, a child of the black grandparent [g]; [u] is the
    uncle.  The scripts below are shared by the four mirror images: the start
    of the pass up to the test of the uncle, case 1, and cases 2 and 3. *)
Ltac ins_start H Hp Hg Hpk g p u :=
  pose proof (rbrep_faddr _ _ _ _ _ H) as Hp;
  pose proof (rbrep_faddr _ _ _ _ _ (rbrep_up _ _ _ _ _ H)) as Hg;
  pose proof (rbrep_tail_cpar _ _ _ _ _ (rbrep_up _ _ _ _ _ H)) as Hpk;
  unfold rbrep in H; simpl in Hp, Hg, H |- *; unfold insert_color_step;
  destruct (Z.eqb_spec p 0) as [Hz|_]; [by apply is_ptr_nonzero in Hp|];
  rfocus H (cells g u);
  let Hne := fresh "Hne" in
  pose proof (rs_rootp_ne _ _ _ _ _ p H ltac:(in_cells)) as Hne;
  rb_exec H; rewrite bool_decide_false by done;
  rb_exec H; rewrite pc_red; rb_exec H;
  first
    [ rewrite Z.eqb_refl; simpl; rb_exec H
    | destruct (Z.eqb_spec p (rootp u)) as [?|_]; [congruence|]; simpl ];
  apply wp_bind; rfocus H (cells g u);
  (eapply wp_nonnull_is_red; [exact H|by apply is_ptr_or_null|]).

Ltac ins_flip H k t1 t2 :=
  cbn [rootp cells] in H |- *; do 5 rb_exec H; simpl; exists k, t1, t2; split_and!; [split| | |];
  [ unfold rbrep; simpl; eapply rs_perm; [exact H|]; solve_Permutation
  | eexists; split_and!; [done| eapply rb_B; [done || by constructor..] ..]
  | done | simpl; lia | solve_inorder ].

Ltac ins_finish H k t :=
  apply wp_ret; eapply (rb_done_plug _ k t Black); [| |done|];
  [ unfold rbrep; simpl; eapply rs_perm; [exact H|]; solve_Permutation
  | eapply rb_B; by constructor | solve_inorder ].

Section red_parent.
Context (s : HevRBTree) (k : ctx) (l r t u : tree) (a p g : Z).
Context (F : list (Z * HevRBTreeNode)) (n : nat).
Context (Hl : rb l Black n) (Hr : rb r Black n) (Ht : rb t Black n).
Context (Hk : kok k Black (S n)).

Lemma ins_step_LL cu :
  rbrep s (Lf Red p t :: Lf Black g u :: k) (T Red l a r) F → rb u cu n →
  wp (insert_color_step a p) s
    (ins_post (Lf Red p t :: Lf Black g u :: k)
      (inorder (plug (Lf Red p t :: Lf Black g u :: k) (T Red l a r))) F).
Proof.
  intros H Hu. ins_start H Hp Hg Hpk g p u. case_bool_decide as Hc.
  - destruct u as [|? ul ua ur]; [done|]. simpl in Hc; subst. inversion Hu; subst.
    ins_flip H k (T Black (T Red l a r) p t) (T Black ul ua ur).
  - rb_exec H. rfocus H (cells p t).
    destruct (Z.eqb_spec a (rootp t)) as [He|_].
    { exfalso. eapply rs_rootp_ne in H; [by symmetry in He|]. in_cells. }
    apply wp_bind, wp_ret. rb_exec H. rb_exec H.
    apply wp_bind. rfocus H (cells p t).
    eapply wp_set_parent_color_nonnull; [exact H|]. rb_intro H.
    erewrite recolor_rb in H by exact Ht.
    rfocus H (ccells k g). rb_at H p. rb_at H g.
    apply wp_bind. eapply wp_rotate_set_parents; [exact H|]. rb_intro H.
    assert (cu = Black) as -> by (apply rb_tcolor in Hu; destruct (tcolor u); congruence).
    ins_finish H k (T Black (T Red l a r) p (T Red t g u)).
Qed.

Lemma ins_step_LR cu :
  rbrep s (Rf Red t p :: Lf Black g u :: k) (T Red l a r) F → rb u cu n →
  wp (insert_color_step a p) s
    (ins_post (Rf Red t p :: Lf Black g u :: k)
      (inorder (plug (Rf Red t p :: Lf Black g u :: k) (T Red l a r))) F).
Proof.
  intros H Hu. ins_start H Hp Hg Hpk g p u. case_bool_decide as Hc.
  - destruct u as [|? ul ua ur]; [done|]. simpl in Hc; subst. inversion Hu; subst.
    ins_flip H k (T Black t p (T Red l a r)) (T Black ul ua ur).
  - rb_exec H. rewrite Z.eqb_refl. apply wp_bind.
    do 3 rb_exec H. apply wp_bind. rfocus H (cells a l).
    eapply wp_set_parent_color_nonnull; [exact H|]. rb_intro H.
    erewrite recolor_rb in H by exact Hl.
    do 3 rb_exec H. do 2 rb_exec H. apply wp_bind. rfocus H (cells a r).
    eapply wp_set_parent_color_nonnull; [exact H|]. rb_intro H.
    erewrite recolor_rb in H by exact Hr.
    rfocus H (ccells k g). rb_at H a. rb_at H g.
    apply wp_bind. eapply wp_rotate_set_parents; [exact H|]. rb_intro H.
    assert (cu = Black) as -> by (apply rb_tcolor in Hu; destruct (tcolor u); congruence).
    ins_finish H k (T Black (T Red t p l) a (T Red r g u)).
Qed.

Lemma ins_step_RR cu :
  rbrep s (Rf Red t p :: Rf Black u g :: k) (T Red l a r) F → rb u cu n →
  wp (insert_color_step a p) s
    (ins_post (Rf Red t p :: Rf Black u g :: k)
      (inorder (plug (Rf Red t p :: Rf Black u g :: k) (T Red l a r))) F).
Proof.
  intros H Hu. ins_start H Hp Hg Hpk g p u. case_bool_decide as Hc.
  - destruct u as [|? ul ua ur]; [done|]. simpl in Hc; subst. inversion Hu; subst.
    ins_flip H k (T Black ul ua ur) (T Black t p (T Red l a r)).
  - rb_exec H. rfocus H (cells p t).
    destruct (Z.eqb_spec a (rootp t)) as [He|_].
    { exfalso. eapply rs_rootp_ne in H; [by symmetry in He|]. in_cells. }
    apply wp_bind, wp_ret. rb_exec H. rb_exec H.
    apply wp_bind. rfocus H (cells p t).
    eapply wp_set_parent_color_nonnull; [exact H|]. rb_intro H.
    erewrite recolor_rb in H by exact Ht.
    rfocus H (ccells k g). rb_at H p. rb_at H g.
    apply wp_bind. eapply wp_rotate_set_parents; [exact H|]. rb_intro H.
    assert (cu = Black) as -> by (apply rb_tcolor in Hu; destruct (tcolor u); congruence).
    ins_finish H k (T Black (T Red u g t) p (T Red l a r)).
Qed.

Lemma ins_step_RL cu :
  rbrep s (Lf Red p t :: Rf Black u g :: k) (T Red l a r) F → rb u cu n →
  wp (insert_color_step a p) s
    (ins_post (Lf Red p t :: Rf Black u g :: k)
      (inorder (plug (Lf Red p t :: Rf Black u g :: k) (T Red l a r))) F).
Proof.
  intros H Hu. ins_start H Hp Hg Hpk g p u. case_bool_decide as Hc.
  - destruct u as [|? ul ua ur]; [done|]. simpl in Hc; subst. inversion Hu; subst.
    ins_flip H k (T Black ul ua ur) (T Black (T Red l a r) p t).
  - rb_exec H. rewrite Z.eqb_refl. apply wp_bind.
    do 3 rb_exec H. apply wp_bind. rfocus H (cells a r).
    eapply wp_set_parent_color_nonnull; [exact H|]. rb_intro H.
    erewrite recolor_rb in H by exact Hr.
    do 3 rb_exec H. do 2 rb_exec H. apply wp_bind. rfocus H (cells a l).
    eapply wp_set_parent_color_nonnull; [exact H|]. rb_intro H.
    erewrite recolor_rb in H by exact Hl.
    rfocus H (ccells k g). rb_at H a. rb_at H g.
    apply wp_bind. eapply wp_rotate_set_parents; [exact H|]. rb_intro H.
    assert (cu = Black) as -> by (apply rb_tcolor in Hu; destruct (tcolor u); congruence).
    ins_finish H k (T Black (T Red u g l) a (T Red r p t)).
Qed.
End red_parent.

(** ** The loop *)

Lemma wp_insert_color_step s k l a r F xs :
  ins_inv s k l a r F → inorder (plug k (T Red l a r)) = xs →
  wp (insert_color_step a (cpar k)) s (ins_post k xs F).
Proof.
  intros [H (n & Hk & Hl & Hr)] <-. destruct k as [|f k].
  { by eapply ins_step_root. }
  destruct (fcol f) eqn:Hf.
  - destruct (kok_red_inv _ _ _ Hk Hf) as (Hs & g & k' & cs & -> & Hg & Hu & Hk').
    destruct f as [c p t|c t p], g as [c' g u|c' u g]; simpl in *; subst.
    + by eapply ins_step_LL.
    + by eapply ins_step_RL.
    + by eapply ins_step_LR.
    + by eapply ins_step_RR.
  - by eapply ins_step_black.
Qed.

Lemma wp_insert_color_loop fuel s k l a r F xs :
  ins_inv s k l a r F → inorder (plug k (T Red l a r)) = xs → (length k < fuel)%nat →
  wp (insert_color_loop fuel a (cpar k)) s (λ _ s', rb_done s' xs F).
Proof.
  revert s k l a r. induction fuel as [|fuel IH]; intros s k l a r H Hxs Hf; [lia|].
  simpl. apply wp_bind. eapply wp_mono; [by eapply wp_insert_color_step|].
  intros [[node parent]|] s'; simpl; [|by intros ?; apply wp_ret].
  intros (k' & l' & r' & H' & -> & Hlen & Hxs'). eapply IH; [exact H'|done|lia].
Qed.

(** The address of the pointer that holds the hole of a context. *)
Definition link_of (k : ctx) : rb_link :=
  match k with [] => LRoot | Lf _ p _ :: _ => LLeft p | Rf _ _ p :: _ => LRight p end.

Lemma wp_set_link s k v L (Q : unit → HevRBTree → Prop) :
  rs s (croot k 0) (ccells k 0 ++ L) →
  (∀ s', rs s' (croot k v) (ccells k v ++ L) → Q tt s') →
  wp (set_link (link_of k) v) s Q.
Proof.
  intros H HQ. destruct k as [|[c p t|c t p] k]; simpl in *.
  - by eapply wp_set_root.
  - rb_exec H. by apply HQ.
  - rb_exec H. by apply HQ.
Qed.

Lemma wp_node_link s k a nd0 F (Q : unit → HevRBTree → Prop) :
  rbrep s k E ((a, nd0) :: F) →
  (∀ s', rbrep s' k (T Red E a E) F → Q tt s') →
  wp (hev_rbtree_node_link a (cpar k) (link_of k)) s Q.
Proof.
  intros H HQ. unfold rbrep in H. simpl in H. destruct nd0 as [pc0 r0 l0].
  unfold hev_rbtree_node_link. apply wp_bind.
  rb_at H a. eapply (wp_set_pc _ _ _ 0); [exact H|reflexivity|]. rb_intro H.
  cbn [rb_left rb_right] in H. rewrite <-(pc_red (cpar k)) in H.
  change (mk_rbnode (Z.lor (cpar k) (color_Z Red)) r0 l0) with (nd (cpar k) Red r0 l0) in H.
  do 2 rb_exec H. rfocus H (ccells k 0). eapply wp_set_link; [exact H|].
  intros s' H'. apply HQ. unfold rbrep. simpl. eapply rs_perm; [exact H'|]. solve_Permutation.
Qed.

Lemma wp_insert_color fuel s k l a r F xs :
  ins_inv s k l a r F → inorder (plug k (T Red l a r)) = xs → (length k < fuel)%nat →
  wp (hev_rbtree_insert_color fuel a) s (λ _ s', rb_done s' xs F).
Proof.
  intros H Hxs Hf. unfold hev_rbtree_insert_color. destruct H as [H0 Hrb].
  pose proof H0 as H. unfold rbrep in H. simpl in H.
  rb_exec H. rewrite pc_red. eapply wp_insert_color_loop; [by split|done|done].
Qed.

(** Linking a node at the hole of a red-black context and rebalancing. *)
Lemma wp_rb_insert fuel s k a nd0 F :
  rbrep s k E ((a, nd0) :: F) → redblack (plug k E) → (length k < fuel)%nat →
  wp (hev_rbtree_node_link a (cpar k) (link_of k);; hev_rbtree_insert_color fuel a) s
    (λ _ s', rb_done s' (kleft k ++ a :: kright k) F).
Proof.
  intros H Hrb Hf. destruct (redblack_plug_inv _ _ Hrb) as (c & n & Ht & Hk).
  inversion Ht; subst.
  apply wp_bind. eapply wp_node_link; [exact H|]. intros s' H'.
  eapply (wp_insert_color _ _ k E a E); [|by rewrite inorder_plug|done].
  split; [done|]. exists 0%nat. split_and!; [done|constructor..].
Qed.
