(* ===== verification/RBTreeErase.v ===== *)
(** * Red-black trees: removal

    [_hev_rbtree_erase] unlinks a node; when that leaves one path short of a
    black node, [_hev_rbtree_erase_color] repairs it.  The loop invariant says
    that the current subtree is a red-black tree whose black height is one
    less than its context expects. *)

From S2P Require Import Prelude RBTree RBTreeRep RBTreeInsert.

(** The black height a context sees above a node of colour [c]. *)
Definition bump (c : HevRBTreeColor) (n : nat) : nat :=
  match c with Red => n | Black => S n end.

Lemma kok_cons_inv f k c n :
  kok (f :: k) c n →
  ∃ cs, rb (fside f) cs n ∧ (fcol f = Red → c = Black ∧ cs = Black) ∧
    kok k (fcol f) (bump (fcol f) n).
Proof.
  inversion 1 as [|? ? ? Hf|? ? ? cs ? Hf]; subst; rewrite Hf.
  - exists Black. naive_solver.
  - exists cs. naive_solver.
Qed.

Lemma kok_weaken k c n : kok k c n → kok k Black n.
Proof. destruct c; [apply kok_B_any|done]. Qed.

(** A rotated tree in the place of the parent. *)
Lemma rb_rotated cp x y a c1 c2 n :
  rb x c1 n → rb y c2 n → c1 = Black → c2 = Black → rb (T cp x a y) cp (bump cp n).
Proof. intros ?? -> ->. destruct cp; econstructor; done. Qed.

Definition del_inv (s : HevRBTree) (k : ctx) (t : tree) (F : list (Z * HevRBTreeNode)) : Prop :=
  rbrep s k t F ∧ k ≠ [] ∧ ∃ n, rb t Black n ∧ kok k Black (S n).

(** The outcome of a pass that started at the context [k]: done, or continue
    one frame up, which only happens below a black parent. *)
Definition del_post (k : ctx) (xs : list Z) (F : list (Z * HevRBTreeNode))
    (res : option (Z * Z)) (s' : HevRBTree) : Prop :=
  match res with
  | None => rb_done s' xs F
  | Some (node, parent) =>
      ∃ f k' t, k = f :: k' ∧ fcol f = Black ∧ del_inv s' k' t F ∧
        node = rootp t ∧ parent = cpar k' ∧ inorder (plug k' t) = xs
  end.

(** The facts every case starts from. *)
Ltac del_ptrs H Hp Hpk :=
  pose proof (rbrep_faddr _ _ _ _ _ H) as Hp;
  pose proof (rbrep_tail_cpar _ _ _ _ _ H) as Hpk;
  unfold rbrep in H; cbn [rootp cells ccells fcell faddr fside cpar croot] in Hp, H.

(** Fill the context with the rotated tree [t]. *)
Ltac del_finish H k t :=
  apply wp_ret; eapply (rb_done_plug _ k t);
  [ unfold rbrep; simpl; eapply rs_perm; [exact H|]; rewrite ?rootp_recolor; solve_Permutation
  | | eassumption | solve_inorder ].

(** Case 2, for either side: [f] is the frame of the parent, its other child
    the black sibling [sb] with black children. *)
Lemma wp_erase_color_case2 s f k t sl sr sb F n :
  rbrep s (f :: k) t F → fside f = T Black sl sb sr →
  rb t Black n → rb sl Black n → rb sr Black n → kok k (fcol f) (bump (fcol f) (S n)) →
  wp (erase_color_case2 (faddr f) sb) s (del_post (f :: k) (inorder (plug (f :: k) t)) F).
Proof.
  intros H Hf Ht Hsl Hsr Hk. del_ptrs H Hp Hpk. rewrite Hf in H. cbn [cells] in H.
  set (f' := match f with Lf _ a _ => Lf Black a (T Red sl sb sr)
                        | Rf _ _ a => Rf Black (T Red sl sb sr) a end).
  assert (rb (plug1 f' t) Black (S n)) as Hrb.
  { destruct f; simpl; eapply rb_B; first [done | by constructor]. }
  assert (inorder (plug1 f' t) = inorder (plug1 f t)) as Hin.
  { destruct f; simpl in *; by subst. }
  unfold erase_color_case2.
  destruct f as [cp p ?|cp ? p]; cbn [faddr fcol fside fcell] in *; subst; cbn [rootp] in H;
    rb_exec H; rb_exec H; case_bool_decide as Hcp.
  1, 3: subst cp; rb_exec H; apply wp_ret; apply kok_weaken in Hk;
    (eapply (rb_done_plug _ k (plug1 f' t)); [|done|done|by rewrite Hin, <-inorder_plug]);
    unfold rbrep; simpl; (eapply rs_perm; [exact H|solve_Permutation]).
  all: destruct cp; [done|]; rb_exec H; apply wp_ret.
  all: match type of H with rs ?s' _ _ => assert (rbrep s' k (plug1 f' t) F) as H' end.
  1, 3: unfold rbrep; simpl; (eapply rs_perm; [exact H|solve_Permutation]).
  all: destruct k as [|g k].
  1, 3: eapply (rb_done_plug _ [] (plug1 f' t)); [exact H'|done|apply kok_nil|];
    by rewrite Hin; simpl; rewrite app_nil_r.
  all: assert (is_ptr (faddr g)) as Hg by (eapply rs_ptr; [exact H'|destruct g; in_cells]).
  all: simpl; destruct (Z.eqb_spec (faddr g) 0) as [?|_]; [by apply is_ptr_nonzero in Hg|].
  all: eexists _, (g :: k), (plug1 f' t);
    split_and!; [done|done| |done|done|by apply (inorder_plug_cong (g :: k))].
  all: split_and!; [exact H'|done|]; exists (S n); done.
Qed.

(** Cases 3 and 4.  [case4] runs [erase_color_case4_left] or its mirror image
    on the parent [p] and the new top [x], whose child [m] moves under [p]. *)
Ltac case4 H k p x m :=
  unfold erase_color_case4_left, erase_color_case4_right; do 4 rb_exec H;
  apply wp_bind; rfocus H (cells x m);
  (eapply wp_set_parent_nonnull; [exact H|rb_ptr|]); rb_intro H;
  rfocus H (ccells k p); rb_at H x; rb_at H p;
  apply wp_bind; (eapply wp_rotate_set_parents; [exact H|]); rb_intro H.

Section second_half.
Context (s : HevRBTree) (k : ctx) (t sl sr : tree) (cp : HevRBTreeColor) (p sb : Z).
Context (F : list (Z * HevRBTreeNode)) (n : nat) (cl cr : HevRBTreeColor).
Context (Ht : rb t Black n) (Hsl : rb sl cl n) (Hsr : rb sr cr n).
Context (Hk : kok k cp (bump cp (S n))).

Lemma wp_erase_color_left :
  rbrep s (Lf cp p (T Black sl sb sr) :: k) t F →
  wp (erase_color_left p sb) s
    (del_post (Lf cp p (T Black sl sb sr) :: k)
      (inorder (plug (Lf cp p (T Black sl sb sr) :: k) t)) F).
Proof.
  intros H. pose proof H as H0. del_ptrs H Hp Hpk.
  assert (is_ptr sb) as Hsb by (eapply rs_ptr; [exact H|in_cells]).
  unfold erase_color_left. rb_exec H.
  apply wp_bind. rfocus H (cells sb sr). eapply wp_null_or_black; [exact H|rb_ptr|].
  erewrite rb_tcolor by done. case_bool_decide as Hcr; [subst cr|].
  - rb_exec H. apply wp_bind. rfocus H (cells sb sl).
    eapply wp_null_or_black; [exact H|rb_ptr|].
    erewrite rb_tcolor by done. case_bool_decide as Hcl; [subst cl|].
    + by eapply (wp_erase_color_case2 _ (Lf cp p (T Black sl sb sr))).
    + destruct cl; [|done]. inversion Hsl as [|a1 x b1| ]; subst. cbn [rootp cells] in H |- *.
      do 4 rb_exec H. apply wp_bind. rfocus H (cells x b1).
      eapply wp_set_parent_color_nonnull; [exact H|]. rb_intro H.
      erewrite recolor_rb in H by eassumption.
      assert (is_ptr x) as Hx by (eapply rs_ptr; [exact H|in_cells]).
      case4 H k p x a1.
      del_finish H k (T cp (T Black t p a1) x (T Black b1 sb sr)).
      eapply rb_rotated; [by eapply rb_B|by eapply rb_B|done|done].
  - destruct cr; [|done]. inversion Hsr as [|srl x srr| ]; subst. cbn [rootp cells] in H |- *.
    case4 H k p sb sl.
    del_finish H k (T cp (T Black t p sl) sb (T Black srl x srr)).
    eapply rb_rotated; [by eapply rb_B|by eapply rb_B|done|done].
Qed.

Lemma wp_erase_color_right :
  rbrep s (Rf cp (T Black sl sb sr) p :: k) t F →
  wp (erase_color_right p sb) s
    (del_post (Rf cp (T Black sl sb sr) p :: k)
      (inorder (plug (Rf cp (T Black sl sb sr) p :: k) t)) F).
Proof.
  intros H. pose proof H as H0. del_ptrs H Hp Hpk.
  assert (is_ptr sb) as Hsb by (eapply rs_ptr; [exact H|in_cells]).
  unfold erase_color_right. rb_exec H.
  apply wp_bind. rfocus H (cells sb sl). eapply wp_null_or_black; [exact H|rb_ptr|].
  erewrite rb_tcolor by done. case_bool_decide as Hcl; [subst cl|].
  - rb_exec H. apply wp_bind. rfocus H (cells sb sr).
    eapply wp_null_or_black; [exact H|rb_ptr|].
    erewrite rb_tcolor by done. case_bool_decide as Hcr; [subst cr|].
    + by eapply (wp_erase_color_case2 _ (Rf cp (T Black sl sb sr) p)).
    + destruct cr; [|done]. inversion Hsr as [|a1 x b1| ]; subst. cbn [rootp cells] in H |- *.
      do 4 rb_exec H. apply wp_bind. rfocus H (cells x a1).
      eapply wp_set_parent_color_nonnull; [exact H|]. rb_intro H.
      erewrite recolor_rb in H by eassumption.
      assert (is_ptr x) as Hx by (eapply rs_ptr; [exact H|in_cells]).
      case4 H k p x b1.
      del_finish H k (T cp (T Black sl sb a1) x (T Black b1 p t)).
      eapply rb_rotated; [by eapply rb_B|by eapply rb_B|done|done].
  - destruct cl; [|done]. inversion Hsl as [|sll x slr| ]; subst. cbn [rootp cells] in H |- *.
    case4 H k p sb sr.
    del_finish H k (T cp (T Black sll x slr) sb (T Black sr p t)).
    eapply rb_rotated; [by eapply rb_B|by eapply rb_B|done|done].
Qed.
End second_half.

(** ** The loop *)

(** A tree of positive black height has a root. *)
Lemma rb_S_inv t c n :
  rb t c (S n) →
  ∃ l a r, t = T c l a r ∧
    match c with
    | Red => rb l Black (S n) ∧ rb r Black (S n)
    | Black => ∃ cl cr, rb l cl n ∧ rb r cr n
    end.
Proof. inversion 1; subst; naive_solver. Qed.

Lemma del_post_red f k k' xs F res s :
  fcol f = Red → del_post (f :: k) xs F res s → del_post k' xs F res s.
Proof. intros Hf. destruct res as [[node parent]|]; simpl; [|done]. intros (g & ? & ? & [= -> ->] & ? & _). congruence. Qed.

(** Case 1: the sibling [sb] is red; after the rotation the parent is red and
    the new sibling, a child of [sb], is black. *)
Ltac case1 H k p sb :=
  apply wp_bind; do 4 rb_exec H;
  rfocus H (ccells k p); rb_at H sb; rb_at H p;
  apply wp_bind; (eapply wp_rotate_set_parents; [exact H|]); rb_intro H; apply wp_ret.

Lemma wp_erase_color_step_left s cp p sib k t F n :
  rbrep s (Lf cp p sib :: k) t F → rb t Black n → kok (Lf cp p sib :: k) Black (S n) →
  wp (erase_color_step (rootp t) p) s
    (del_post (Lf cp p sib :: k) (inorder (plug (Lf cp p sib :: k) t)) F).
Proof.
  intros H0 Ht Hk. destruct (kok_cons_inv _ _ _ _ Hk) as (cs & Hs & Hc & Hk').
  destruct (rb_S_inv _ _ _ Hs) as (sl & sb & sr & Hf & Hsub). cbn [fcol fside] in *. subst sib.
  pose proof H0 as H. del_ptrs H Hp Hpk. unfold erase_color_step.
  assert (is_ptr sb) as Hsb by (eapply rs_ptr; [exact H|in_cells]).
  rfocus H (cells p t).
  assert (rootp t ≠ sb) as Hts by (eapply rs_rootp_ne; [exact H|in_cells]).
  rb_exec H. destruct (Z.eqb_spec (rootp t) sb) as [?|_]; [done|]. simpl.
  rb_exec H. case_bool_decide as Hcs.
  - subst cs. destruct cp; [naive_solver|]. destruct Hsub as [Hsl Hsr].
    destruct (rb_S_inv _ _ _ Hsl) as (a1 & x & b1 & -> & c1 & c2 & Ha1 & Hb1).
    cbn [rootp cells] in H |- *. case1 H k p sb.
    eapply wp_mono; [eapply (wp_erase_color_left _ (Lf Black sb sr :: k) t a1 b1 Red p x F); [exact Ht|exact Ha1|exact Hb1|..]|].
    + eapply (kok_B _ _ Red Black); [reflexivity|exact Hsr|exact Hk'].
    + unfold rbrep. simpl. eapply rs_perm; [exact H|]. solve_Permutation.
    + intros res s' Hpost. eapply (del_post_red _ _ _ _ _ _ _ (eq_refl : fcol (Lf Red p _) = Red)).
      replace (inorder (plug k (T Black t p (T Red (T Black a1 x b1) sb sr)))) with
        (inorder (plug (Lf Red p (T Black a1 x b1) :: Lf Black sb sr :: k) t)); [exact Hpost|].
      apply (inorder_plug_cong k). solve_inorder.
  - apply wp_bind, wp_ret. destruct cs; [done|]. destruct Hsub as (cl & cr & Hsl & Hsr).
    by eapply wp_erase_color_left.
Qed.

Lemma wp_erase_color_step_right s cp p sib k t F n :
  rbrep s (Rf cp sib p :: k) t F → rb t Black n → kok (Rf cp sib p :: k) Black (S n) →
  wp (erase_color_step (rootp t) p) s
    (del_post (Rf cp sib p :: k) (inorder (plug (Rf cp sib p :: k) t)) F).
Proof.
  intros H0 Ht Hk. destruct (kok_cons_inv _ _ _ _ Hk) as (cs & Hs & Hc & Hk').
  destruct (rb_S_inv _ _ _ Hs) as (sl & sb & sr & Hf & Hsub). cbn [fcol fside] in *. subst sib.
  pose proof H0 as H. del_ptrs H Hp Hpk. unfold erase_color_step.
  assert (is_ptr sb) as Hsb by (eapply rs_ptr; [exact H|in_cells]).
  rb_exec H. rewrite Z.eqb_refl. simpl. do 2 rb_exec H. case_bool_decide as Hcs.
  - subst cs. destruct cp; [naive_solver|]. destruct Hsub as [Hsl Hsr].
    destruct (rb_S_inv _ _ _ Hsr) as (a1 & x & b1 & -> & c1 & c2 & Ha1 & Hb1).
    cbn [rootp cells] in H |- *. case1 H k p sb.
    eapply wp_mono; [eapply (wp_erase_color_right _ (Rf Black sl sb :: k) t a1 b1 Red p x F); [exact Ht|exact Ha1|exact Hb1|..]|].
    + eapply (kok_B _ _ Red Black); [reflexivity|exact Hsl|exact Hk'].
    + unfold rbrep. simpl. eapply rs_perm; [exact H|]. solve_Permutation.
    + intros res s' Hpost. eapply (del_post_red _ _ _ _ _ _ _ (eq_refl : fcol (Rf Red _ p) = Red)).
      replace (inorder (plug k (T Black (T Red sl sb (T Black a1 x b1)) p t))) with
        (inorder (plug (Rf Red (T Black a1 x b1) p :: Rf Black sl sb :: k) t)); [exact Hpost|].
      apply (inorder_plug_cong k). solve_inorder.
  - apply wp_bind, wp_ret. destruct cs; [done|]. destruct Hsub as (cl & cr & Hsl & Hsr).
    by eapply wp_erase_color_right.
Qed.

Lemma wp_erase_color_loop fuel s k t F xs :
  del_inv s k t F → inorder (plug k t) = xs → (length k ≤ fuel)%nat →
  wp (erase_color_loop fuel (rootp t) (cpar k)) s (λ _ s', rb_done s' xs F).
Proof.
  revert s k t. induction fuel as [|fuel IH]; intros s k t (H & Hne & n & Ht & Hk) Hxs Hf.
  { destruct k; [done|]. simpl in Hf. lia. }
  simpl. apply wp_bind. eapply (wp_mono _ _ (del_post k xs F)).
  - destruct k as [|[cp p sib|cp sib p] k]; [done|..]; rewrite <-Hxs.
    + by eapply wp_erase_color_step_left.
    + by eapply wp_erase_color_step_right.
  - intros [[node parent]|] s'; simpl; [|by intros ?; apply wp_ret].
    intros (f & k' & t' & -> & _ & Hinv & -> & -> & Hxs'). apply IH; [done|done|simpl in Hf; lia].
Qed.

(** ** Unlinking *)

(** The cells of a context segment [ks] above which the parent is [par0]. *)
Fixpoint sccells (par0 : Z) (ks : ctx) (p : Z) : list (Z * HevRBTreeNode) :=
  match ks with
  | [] => []
  | f :: ks =>
      fcell (match ks with [] => par0 | g :: _ => faddr g end) f p ::
      cells (faddr f) (fside f) ++ sccells par0 ks (faddr f)
  end.

Lemma ccells_app ks k p :
  ccells (ks ++ k) p = sccells (cpar k) ks p ++ ccells k (croot ks p).
Proof.
  revert p. induction ks as [|f ks IH]; intros p; [done|]. simpl. rewrite IH, <-app_assoc.
  f_equal. by destruct ks.
Qed.

Lemma croot_app ks k p : croot (ks ++ k) p = croot k (croot ks p).
Proof. revert p. induction ks as [|f ks IH]; intros p; [done|]. apply IH. Qed.

Lemma cpar_app ks k : cpar (ks ++ k) = match ks with [] => cpar k | f :: _ => faddr f end.
Proof. by destruct ks. Qed.

(** Redirecting the parent pointer at the top of a segment. *)
Lemma wp_set_parent_seg s r par0 ks p par' L (Q : unit → HevRBTree → Prop) :
  rs s r (sccells par0 ks p ++ L) → ks ≠ [] → ptr_or_null par0 →
  (∀ s', rs s' r (sccells par' ks p ++ L) → Q tt s') →
  wp (hev_rbtree_node_set_parent (croot ks p) par') s Q.
Proof.
  revert s p L. induction ks as [|f ks IH]; intros s p L H Hne Hp HQ; [done|].
  destruct ks as [|g ks].
  - simpl in *. destruct f; simpl in *; rb_exec H; by apply HQ.
  - cbn [croot]. cbn [sccells] in H, HQ.
    eapply (IH s (faddr f) (fcell (faddr g) f p :: cells (faddr f) (fside f) ++ L)); [|done|done|].
    + eapply rs_perm; [exact H|]. solve_Permutation.
    + intros s' H'. apply HQ. eapply rs_perm; [exact H'|]. solve_Permutation.
Qed.

Definition all_left (ks : ctx) : Prop := Forall (λ f, ∃ c a t, f = Lf c a t) ks.

Lemma all_left_kleft ks k : all_left ks → kleft (ks ++ k) = kleft k.
Proof. induction 1 as [|f ks (c & a & t & ->) _ IH]; [done|]. apply IH. Qed.

Lemma kright_app ks k : kright (ks ++ k) = kright ks ++ kright k.
Proof.
  induction ks as [|[c a r|c l a] ks IH]; simpl; [done|..]; rewrite IH; [|done].
  by rewrite <-app_assoc.
Qed.

(** The descent to the successor reads the tree and finds its leftmost node. *)
Lemma wp_erase_descend fuel s r0 par c l y r L (Q : Z * Z → HevRBTree → Prop) :
  rs s r0 (cells par (T c l y r) ++ L) → l ≠ E → (tsize l ≤ fuel)%nat →
  (∀ f ks cs b rr, T c l y r = plug (f :: ks) (T cs E b rr) → all_left (f :: ks) →
     Q (faddr f, b) s) →
  wp (erase_descend fuel y (rootp l)) s Q.
Proof.
  revert par c l y r L Q. induction fuel as [|fuel IH]; intros par c l y r L Q H Hl Hf HQ.
  { destruct l; [done|]. simpl in Hf. lia. }
  destruct l as [|c1 l1 x r1]; [done|]. cbn [rootp erase_descend cells] in *.
  rb_exec H. rfocus H (cells x l1). destruct (Z.eqb_spec (rootp l1) 0) as [Hz|Hz].
  - apply (rs_rootp_null _ _ _ _ _ H) in Hz as ->. apply wp_ret.
    apply (HQ (Lf c y r) [] c1 x r1); [done|]. repeat econstructor.
  - eapply (IH y c1 l1 x r1).
    + cbn [cells]. eapply rs_perm; [exact H|].
      instantiate (1 := (y, _) :: cells y r ++ L). solve_Permutation.
    + by intros ->.
    + simpl in Hf. lia.
    + intros f ks cs b rr Heq Hal.
      apply (HQ f (ks ++ [Lf c y r]) cs b rr).
      * change (f :: ks ++ [Lf c y r]) with ((f :: ks) ++ [Lf c y r]).
        by rewrite plug_app, <-Heq.
      * change (f :: ks ++ [Lf c y r]) with ((f :: ks) ++ [Lf c y r]).
        apply Forall_app. split; [done|]. repeat econstructor.
Qed.

(** The outcome of [_hev_rbtree_erase]: the node [a] is unlinked, the order of
    the others is [xs], and either the tree is red-black or it is short of one
    black node below the returned node. *)
Definition unlinked (a : Z) (xs : list Z) (F : list (Z * HevRBTreeNode))
    (reb : Z) (s' : HevRBTree) : Prop :=
  ∃ k t n0, rbrep s' k t ((a, n0) :: F) ∧ inorder (plug k t) = xs ∧
    ((reb = 0 ∧ redblack (plug k t)) ∨ (reb = cpar k ∧ k ≠ [] ∧ t = E ∧ kok k Black 1)).

Lemma rb_0_inv t c : rb t c 0 → (t = E ∧ c = Black) ∨ (∃ x, t = T Red E x E ∧ c = Red).
Proof.
  inversion 1 as [|l a r n Hl Hr|]; subst; [by left|]. right. exists a. split; [|done].
  by inversion Hl; inversion Hr; subst.
Qed.

(** A single child is a red leaf below a black node. *)
Lemma rb_single_l c l a cc n :
  rb (T c l a E) cc n → l ≠ E → ∃ x, l = T Red E x E ∧ c = Black ∧ cc = Black ∧ n = 1%nat.
Proof.
  inversion 1 as [|? ? ? ? Hl Hr|? ? ? ? ? ? Hl Hr]; subst; intros Hne; inversion Hr; subst;
    destruct (rb_0_inv _ _ Hl) as [[-> _]|(x & -> & ?)]; naive_solver.
Qed.

Lemma rb_single_r c r a cc n :
  rb (T c E a r) cc n → r ≠ E → ∃ x, r = T Red E x E ∧ c = Black ∧ cc = Black ∧ n = 1%nat.
Proof.
  inversion 1 as [|? ? ? ? Hl Hr|? ? ? ? ? ? Hl Hr]; subst; intros Hne; inversion Hl; subst;
    destruct (rb_0_inv _ _ Hr) as [[-> _]|(x & -> & ?)]; naive_solver.
Qed.

(** A node without children: the hole is left, short of a black node if the
    node was black. *)
Lemma unlinked_leaf s k c a n0 F xs :
  rbrep s k E ((a, n0) :: F) → kok k c (bump c 0) → kleft k ++ kright k = xs →
  unlinked a xs F (if decide (c = Black) then cpar k else 0) s.
Proof.
  intros H Hk Hxs. exists k, E, n0. split_and!; [done|by rewrite inorder_plug|].
  case_decide; [subst; destruct k as [|f k]|].
  - left. split; [done|]. exists 0%nat. constructor.
  - right. by split_and!.
  - left. split; [done|]. destruct c; [|done]. apply kok_B_any in Hk.
    eapply rb_kok_plug; [constructor|done].
Qed.

Lemma is_black_pc k c : ptr_or_null (cpar k) →
  _hev_rbtree_node_is_black (Z.lor (cpar k) (color_Z c)) = bool_decide (c = Black).
Proof.
  intros Hk. unfold _hev_rbtree_node_is_black. simpl (color_Z Black).
  rewrite pc_color by done. by destruct c.
Qed.

Lemma wp_erase_no_left fuel s k c a r F cc n :
  rbrep s k (T c E a r) F → rb (T c E a r) cc n → kok k cc n →
  wp (_hev_rbtree_erase fuel a) s (unlinked a (kleft k ++ inorder r ++ kright k) F).
Proof.
  intros H Ht Hk. pose proof (rbrep_cpar _ _ _ _ H) as Hpk.
  unfold rbrep in H. simpl in H. unfold _hev_rbtree_erase.
  do 2 rb_exec H. simpl. rb_exec H. unfold _hev_rbtree_node_parent. rewrite pc_parent by done.
  rfocus H (ccells k a). apply wp_bind. eapply wp_change_child; [exact H|in_cells|]. rb_intro H.
  rfocus H (cells a r). destruct (Z.eqb_spec (rootp r) 0) as [Hz|Hz]; simpl.
  - apply (rs_rootp_null _ _ _ _ _ H) in Hz as ->. apply wp_ret.
    rewrite is_black_pc by done.
    replace (if bool_decide (c = Black) then cpar k else 0)
      with (if decide (c = Black) then cpar k else 0) by (by repeat case_decide; case_bool_decide).
    eapply unlinked_leaf; [|inversion Ht as [|? ? ? ? Hl|? ? ? ? ? ? Hl]; subst; inversion Hl; by subst|done].
    unfold rbrep. simpl. eapply rs_perm; [exact H|]. solve_Permutation.
  - destruct (rb_single_r _ _ _ _ _ Ht) as (x & -> & -> & -> & ->); [by intros ->|].
    simpl in H |- *. apply wp_bind. rb_at H x.
    eapply (wp_set_pc _ _ _ 0); [exact H|reflexivity|]. rb_intro H. apply wp_ret.
    exists k, (T Black E x E), (nd (cpar k) Black x 0). split_and!.
    + unfold rbrep. simpl. eapply rs_perm; [exact H|]. solve_Permutation.
    + solve_inorder.
    + left. split; [done|]. eapply rb_kok_plug; [|done]. repeat econstructor.
Qed.

Lemma wp_erase_no_right fuel s k c l a F cc n :
  rbrep s k (T c l a E) F → l ≠ E → rb (T c l a E) cc n → kok k cc n →
  wp (_hev_rbtree_erase fuel a) s (unlinked a (kleft k ++ inorder l ++ kright k) F).
Proof.
  intros H Hl Ht Hk. pose proof (rbrep_cpar _ _ _ _ H) as Hpk.
  destruct (rb_single_l _ _ _ _ _ Ht Hl) as (x & -> & -> & -> & ->).
  unfold rbrep in H. simpl in H. unfold _hev_rbtree_erase.
  do 2 rb_exec H. assert (is_ptr x) as Hx by (eapply rs_ptr; [exact H|in_cells]).
  destruct (Z.eqb_spec x 0) as [?|_]; [by apply is_ptr_nonzero in Hx|]. simpl.
  rb_exec H. apply wp_bind. rb_at H x. eapply (wp_set_pc _ _ _ 0); [exact H|reflexivity|]. rb_intro H.
  unfold _hev_rbtree_node_parent. rewrite pc_parent by done.
  rfocus H (ccells k a). apply wp_bind. eapply wp_change_child; [exact H|in_cells|]. rb_intro H.
  apply wp_ret. exists k, (T Black E x E), (nd (cpar k) Black 0 x). split_and!.
  - unfold rbrep. simpl. eapply rs_perm; [exact H|]. solve_Permutation.
  - solve_inorder.
  - left. split; [done|]. eapply rb_kok_plug; [|done]. repeat econstructor.
Qed.

(** The memory after the successor [b] of [a] has been detached: [b] is off the
    spine [ks] below the right child of [a], with that child as its own. *)
Definition detached_cells (k : ctx) (c cs : HevRBTreeColor) (l rr : tree) (ks : ctx)
    (a b ra pb : Z) (F : list (Z * HevRBTreeNode)) : list (Z * HevRBTreeNode) :=
  (a, nd (cpar k) c ra (rootp l)) :: (b, nd pb cs (croot ks (rootp rr)) 0) ::
  cells a l ++ cells b rr ++ sccells b ks (rootp rr) ++ ccells k a ++ F.

Definition spine_parent (ks : ctx) (b : Z) : Z :=
  match ks with [] => b | f :: _ => faddr f end.

Lemma wp_erase_detach_successor fuel s k c l a r F (Q : Z * Z * Z → HevRBTree → Prop) :
  rbrep s k (T c l a r) F → r ≠ E → (tsize r ≤ fuel)%nat →
  (∀ s' ks cs b rr pb, r = plug ks (T cs E b rr) → all_left ks → ptr_or_null pb →
    rs s' (croot k a) (detached_cells k c cs l rr ks a b (rootp r) pb F) →
    Q (spine_parent ks b, b, rootp rr) s') →
  wp (erase_detach_successor fuel (rootp r)) s Q.
Proof.
  intros H Hr Hf HQ. destruct r as [|cy ly y ry]; [done|].
  unfold rbrep in H. cbn [rootp cells] in *. unfold erase_detach_successor.
  assert (is_ptr a) as Ha by (eapply rs_ptr; [exact H|in_cells]).
  rb_exec H. rfocus H (cells y ly). destruct (Z.eqb_spec (rootp ly) 0) as [Hz|Hz].
  - apply (rs_rootp_null _ _ _ _ _ H) in Hz as ->. do 2 rb_exec H.
    apply (HQ s [] cy y ry a); [done|constructor|rb_ptr|].
    unfold detached_cells. simpl in *. eapply rs_perm; [exact H|]. solve_Permutation.
  - assert (rs s (croot k a) (cells a (T cy ly y ry) ++ (a, nd (cpar k) c y (rootp l)) ::
      cells a l ++ ccells k a ++ F)) as Hd.
    { cbn [cells]. eapply rs_perm; [exact H|]. solve_Permutation. }
    apply wp_bind. eapply wp_erase_descend; [exact Hd|by intros ->|simpl in Hf; lia|].
    intros f ks cs b rr Heq Hal. clear H. rename Hd into H.
    assert (rbrep s ((f :: ks) ++ Rf c l a :: k) (T cs E b rr) F) as H'.
    { apply rbrep_plug. rewrite plug_app, <-Heq. apply (rbrep_plug _ (Rf c l a :: k)).
      unfold rbrep. cbn -[cells]. eapply rs_perm; [exact H|]. solve_Permutation. }
    clear H. unfold rbrep in H'. rewrite ccells_app, croot_app in H'.
    apply Forall_cons in Hal as Hal'. destruct Hal' as [(cf & af & tf & ->) _].
    cbn [rootp cells ccells fcell cpar faddr fside croot app] in H' |- *.
    assert (croot ks af = y) as Hy.
    { apply (f_equal rootp) in Heq. rewrite rootp_plug in Heq. by simpl in Heq. }
    assert (is_ptr af) as Haf by (eapply rs_ptr; [exact H'|in_cells]).
    cbn [sccells fcell faddr fside] in H'.
    rb_exec H'. rb_exec H'. rb_exec H'. apply wp_bind.
    set (sp := match ks with [] => a | g :: _ => faddr g end) in *.
    rewrite <-Hy.
    eapply (wp_set_parent_seg _ _ a (Lf cf af tf :: ks) (rootp rr)); [|done|rb_ptr|].
    { cbn [sccells fcell faddr fside]. eapply rs_perm; [exact H'|].
      instantiate (1 := (b, _) :: (a, _) :: cells b rr ++ cells a l ++ ccells k a ++ F).
      solve_Permutation. }
    clear H'. intros s' H. apply wp_ret.
    eapply (HQ s' (Lf cf af tf :: ks) cs b rr af); [done|done|rb_ptr|].
    unfold detached_cells. cbn [croot faddr rootp]. rewrite Hy in *.
    eapply rs_perm; [exact H|]. solve_Permutation.
Qed.

Lemma kok_addr ks c l a b k cc n :
  kok (ks ++ Rf c l a :: k) cc n → kok (ks ++ Rf c l b :: k) cc n.
Proof.
  revert cc n. induction ks as [|f ks IH]; intros cc n; simpl; inversion 1; subst;
    first [apply kok_R; by eauto | eapply kok_B; by eauto].
Qed.

(** Replacing [a] by its successor [b]: the order and the colours. *)
Section successor.
Context (k ks : ctx) (c cs : HevRBTreeColor) (l rr : tree) (a b : Z).
Context (Hal : all_left ks).

Lemma successor_inorder :
  inorder (plug (ks ++ Rf c l b :: k) rr) =
  kleft k ++ inorder l ++ inorder (plug ks (T cs E b rr)) ++ kright k.
Proof.
  rewrite !inorder_plug. simpl. rewrite all_left_kleft, kright_app by done. simpl.
  rewrite <-(app_nil_r ks), all_left_kleft by done. simpl. by rewrite <-?app_assoc.
Qed.

Lemma successor_rb :
  redblack (plug k (T c l a (plug ks (T cs E b rr)))) →
  ∃ n, rb (T cs E b rr) cs n ∧ kok (ks ++ Rf c l b :: k) cs n.
Proof.
  intros Hrb. change (T c l a (plug ks (T cs E b rr))) with
    (plug1 (Rf c l a) (plug ks (T cs E b rr))) in Hrb.
  assert (redblack (plug (ks ++ Rf c l a :: k) (T cs E b rr))) as Hrb' by (by rewrite plug_app).
  destruct (redblack_plug_inv _ _ Hrb') as (cc & n & Ht & Hk%(kok_addr _ _ _ _ b)).
  pose proof (rb_tcolor _ _ _ Ht) as Hcc. simpl in Hcc. subst cc. eauto.
Qed.
End successor.

(** The memory after the successor has taken the place of [a]. *)
Lemma rbrep_successor s k ks c l a b rr rr' n0 F :
  rs s (croot k b) ((b, nd (cpar k) c (croot ks (rootp rr)) (rootp l)) ::
    cells b l ++ cells (spine_parent ks b) rr' ++ sccells b ks (rootp rr) ++ ccells k b ++
    (a, n0) :: F) →
  rootp rr' = rootp rr → rbrep s (ks ++ Rf c l b :: k) rr' ((a, n0) :: F).
Proof.
  intros H Heq. unfold rbrep. rewrite cpar_app, ccells_app, croot_app, Heq.
  cbn [cpar faddr ccells fcell fside croot]. eapply rs_perm; [exact H|]. solve_Permutation.
Qed.

Lemma wp_erase_two fuel s k c l a r F :
  rbrep s k (T c l a r) F → l ≠ E → r ≠ E → (tsize r ≤ fuel)%nat →
  redblack (plug k (T c l a r)) →
  wp (_hev_rbtree_erase fuel a) s
    (unlinked a (kleft k ++ inorder l ++ inorder r ++ kright k) F).
Proof.
  intros H0 Hl Hr Hf Hrb. pose proof (rbrep_cpar _ _ _ _ H0) as Hpk.
  pose proof H0 as H. unfold rbrep in H. cbn [rootp cells] in H. unfold _hev_rbtree_erase.
  do 2 rb_exec H. rfocus H (cells a l).
  destruct (Z.eqb_spec (rootp l) 0) as [Hz|Hz]; [by apply (rs_rootp_null _ _ _ _ _ H) in Hz|].
  rfocus H (cells a r).
  destruct (Z.eqb_spec (rootp r) 0) as [Hz'|_]; [by apply (rs_rootp_null _ _ _ _ _ H) in Hz'|].
  clear H. apply wp_bind. eapply wp_erase_detach_successor; [exact H0|done|done|]. clear s H0.
  intros s ks cs b rr pb Heq Hal Hpb H. unfold detached_cells in H.
  assert (is_ptr a) as Ha by (eapply rs_ptr; [exact H|in_cells]).
  do 2 rb_exec H. apply wp_bind. rfocus H (cells a l).
  eapply wp_set_parent_root; [exact H|done|rb_ptr|]. rb_intro H.
  rb_exec H. unfold _hev_rbtree_node_parent. rewrite pc_parent by done.
  rfocus H (ccells k a). apply wp_bind. eapply wp_change_child; [exact H|in_cells|]. rb_intro H.
  rewrite Heq in Hrb. destruct (successor_rb _ _ _ _ _ _ _ _ Hrb) as (n & Ht & Hk).
  rewrite Heq, <-(successor_inorder k ks c cs l rr b Hal).
  rfocus H (cells b rr). destruct (Z.eqb_spec (rootp rr) 0) as [Hz0|Hz0]; simpl.
  - apply (rs_rootp_null _ _ _ _ _ H) in Hz0 as ->. apply wp_bind. rb_exec H. apply wp_ret.
    apply wp_bind. rb_at H b. eapply (wp_set_pc _ _ _ 0); [exact H|reflexivity|]. rb_intro H. apply wp_ret.
    replace (if bool_decide (cs = Black) then spine_parent ks b else 0)
      with (if decide (cs = Black) then cpar (ks ++ Rf c l b :: k) else 0)
      by (rewrite cpar_app; by destruct cs).
    eapply unlinked_leaf; [|inversion Ht as [|? ? ? ? Hx|? ? ? ? ? ? Hx]; subst; inversion Hx; by subst|by rewrite inorder_plug].
    eapply (rbrep_successor _ _ _ _ _ _ _ E E); [|done].
    simpl. eapply rs_perm; [exact H|]. solve_Permutation.
  - destruct (rb_single_r _ _ _ _ _ Ht) as (x & -> & -> & _ & ->); [by intros ->|].
    simpl in H |- *. apply wp_bind. rb_exec H. apply wp_ret.
    apply wp_bind. rb_at H b. eapply (wp_set_pc _ _ _ 0); [exact H|reflexivity|]. rb_intro H. apply wp_ret.
    eexists (ks ++ Rf c l b :: k), (T Black E x E), _. split_and!.
    + eapply (rbrep_successor _ _ _ _ _ _ _ (T Red E x E) (T Black E x E)); [|done].
      simpl. eapply rs_perm; [exact H|]. solve_Permutation.
    + by rewrite !inorder_plug.
    + left. split; [done|]. eapply rb_kok_plug; [|done]. repeat econstructor.
Qed.

(** ** Removal of a node of the tree *)

Lemma tsize_inorder t : tsize t = length (inorder t).
Proof. induction t as [|c l IHl a r IHr]; [done|]. simpl. rewrite length_app. simpl. lia. Qed.

Lemma ctx_length k : (length k ≤ length (kleft k) + length (kright k))%nat.
Proof.
  induction k as [|[c a t|c t a] k IH]; [done|..]; simpl; rewrite ?length_app; simpl;
    rewrite ?length_app; simpl; lia.
Qed.

Lemma wp_erase_unlink fuel s k c l a r F :
  rbrep s k (T c l a r) F → (tsize r ≤ fuel)%nat → redblack (plug k (T c l a r)) →
  wp (_hev_rbtree_erase fuel a) s (unlinked a (kleft k ++ inorder l ++ inorder r ++ kright k) F).
Proof.
  intros H Hf Hrb. destruct (redblack_plug_inv _ _ Hrb) as (cc & n & Ht & Hk).
  destruct l as [|c1 l1 a1 r1]; [by eapply wp_erase_no_left|].
  destruct r as [|c2 l2 a2 r2]; [by eapply wp_erase_no_right|].
  by apply (wp_erase_two _ _ _ c).
Qed.

Lemma wp_rb_erase_at fuel s k c l a r F xs :
  rbrep s k (T c l a r) F → redblack (plug k (T c l a r)) →
  xs = kleft k ++ inorder l ++ inorder r ++ kright k → (S (length xs) ≤ fuel)%nat →
  wp (hev_rbtree_erase fuel a) s (λ _ s', ∃ n0, rb_done s' xs ((a, n0) :: F)).
Proof.
  intros H Hrb -> Hf. unfold hev_rbtree_erase. apply wp_bind.
  eapply wp_mono; [eapply wp_erase_unlink; [exact H| |done]|].
  { rewrite tsize_inorder. rewrite !length_app in Hf. lia. }
  intros reb s' (k' & t & n0 & H' & Hxs & [[-> Hrb']|(-> & Hk' & -> & Hkok)]); simpl.
  - apply wp_ret. exists n0, (plug k' t). split_and!; [by apply (proj1 (rbrep_plug _ _ _ _))|done|done].
  - assert (is_ptr (cpar k')) as Hp%is_ptr_nonzero.
    { destruct k' as [|f k']; [done|]. exact (rbrep_faddr _ _ _ _ _ H'). }
    apply Z.eqb_neq in Hp as ->. simpl. eapply wp_mono.
    + eapply (wp_erase_color_loop fuel _ k' E); [|exact Hxs|].
      * split_and!; [exact H'|done|]. exists 0%nat. split; [constructor|done].
      * pose proof (ctx_length k'). rewrite <-Hxs, inorder_plug, length_app in Hf. simpl in Hf. lia.
    + intros [] s'' ?. by exists n0.
Qed.

(** Every node of a tree is the root of a subtree in a context. *)
Lemma kleft_snoc k f : kleft (k ++ [f]) = kleft [f] ++ kleft k.
Proof. induction k as [|[] k IH]; simpl; rewrite ?IH, ?app_nil_r, <-?app_assoc; done. Qed.

Lemma inorder_split t xs1 a xs2 :
  inorder t = xs1 ++ a :: xs2 →
  ∃ k c l r, t = plug k (T c l a r) ∧ kleft k ++ inorder l = xs1 ∧ inorder r ++ kright k = xs2.
Proof.
  revert xs1 xs2. induction t as [|c l IHl b r IHr]; simpl; intros xs1 xs2 Heq; [by destruct xs1|].
  apply app_eq_inv in Heq as [([|z ys] & Hl & Hr)|(ys & -> & Hr)]; simpl in *.
  - injection Hr as -> ->. exists [], c, l, r. simpl in *. rewrite !app_nil_r in *. by rewrite Hl.
  - injection Hr as <- ->. destruct (IHl _ _ Hl) as (k & c' & l' & r' & -> & <- & <-).
    exists (k ++ [Lf c b r]), c', l', r'. rewrite plug_app, kleft_snoc, kright_app. simpl.
    by rewrite app_nil_r, <-app_assoc.
  - destruct ys as [|z ys]; injection Hr as -> Hr.
    + subst. exists [], c, l, r. by rewrite !app_nil_r.
    + destruct (IHr _ _ Hr) as (k & c' & l' & r' & -> & <- & <-).
      exists (k ++ [Rf c l z]), c', l', r'. rewrite plug_app, kleft_snoc, kright_app. simpl.
      by rewrite app_nil_r, <-!app_assoc.
Qed.

Lemma wp_rb_erase fuel s xs1 a xs2 F :
  rb_done s (xs1 ++ a :: xs2) F → (length (xs1 ++ a :: xs2) ≤ fuel)%nat →
  wp (hev_rbtree_erase fuel a) s (λ _ s', ∃ n0, rb_done s' (xs1 ++ xs2) ((a, n0) :: F)).
Proof.
  intros (t & H & Hrb & Hxs) Hf.
  destruct (inorder_split _ _ _ _ Hxs) as (k & c & l & r & -> & <- & <-).
  eapply (wp_rb_erase_at _ _ k c l a r).
  - by apply (proj2 (rbrep_plug _ _ _ _)).
  - done.
  - by rewrite <-app_assoc.
  - rewrite !length_app in *. simpl in Hf. rewrite length_app in Hf. lia.
Qed.
