(* ===== verification/RBTreeIter.v ===== *)
(** * Red-black trees: iteration, replacement and height

    [hev_rbtree_first], [_last], [_node_next] and [_node_prev] walk the nodes in
    order without changing the tree; [hev_rbtree_replace] exchanges one node
    for another; the height of a red-black tree of [n] nodes is at most
    [2 * log2 (n + 1)]. *)

From S2P Require Import Prelude RBTree RBTreeRep RBTreeInsert RBTreeErase.

Lemma wp_leftmost fuel s k c l a r F :
  rbrep s k (T c l a r) F → (tsize l < fuel)%nat →
  wp (leftmost fuel a) s (λ x s', s' = s ∧ head (inorder (T c l a r)) = Some x).
Proof.
  revert k c l a r. induction fuel as [|fuel IH]; intros k c l a r H0 Hf; [lia|].
  pose proof H0 as H. unfold rbrep in H. simpl in H. simpl. rb_exec H. rfocus H (cells a l).
  destruct (Z.eqb_spec (rootp l) 0) as [Hz|Hz].
  - apply (rs_rootp_null _ _ _ _ _ H) in Hz as ->. by apply wp_ret.
  - destruct l as [|c' l' b r']; [done|]. simpl in Hf |- *.
    eapply wp_mono; [eapply (IH (Lf c a r :: k) c' l' b r'); [|lia]|].
    + by apply rbrep_plug, (rbrep_plug _ k), H0.
    + simpl. intros x s' [-> Hx]. split; [done|]. by destruct (inorder l').
Qed.

Lemma wp_rightmost fuel s k c l a r F :
  rbrep s k (T c l a r) F → (tsize r < fuel)%nat →
  wp (rightmost fuel a) s (λ x s', s' = s ∧ last (inorder (T c l a r)) = Some x).
Proof.
  revert k c l a r. induction fuel as [|fuel IH]; intros k c l a r H0 Hf; [lia|].
  pose proof H0 as H. unfold rbrep in H. simpl in H. simpl. rb_exec H. rfocus H (cells a r).
  destruct (Z.eqb_spec (rootp r) 0) as [Hz|Hz].
  - apply (rs_rootp_null _ _ _ _ _ H) in Hz as ->. apply wp_ret. split; [done|]. apply last_snoc.
  - destruct r as [|c' l' b r']; [done|]. simpl in Hf |- *.
    eapply wp_mono; [eapply (IH (Rf c l a :: k) c' l' b r'); [|lia]|].
    + by apply rbrep_plug, (rbrep_plug _ k), H0.
    + simpl. intros x s' [-> Hx]. split; [done|].
      by rewrite last_app_cons, last_cons, Hx.
Qed.

(** An address of the tree is not the child of another place of the tree. *)
Lemma rbrep_side_ne s f k t F : rbrep s (f :: k) t F → t ≠ E → rootp (fside f) ≠ rootp t.
Proof.
  intros H Ht. unfold rbrep in H. simpl in H. eapply (rs_rootp_ne _ _ (faddr f) (fside f)).
  - rfocus H (cells (faddr f) (fside f)). exact H.
  - pose proof (rootp_in (faddr f) t Ht). in_cells.
Qed.

Lemma wp_parent_of s k t F (Q : Z → HevRBTree → Prop) :
  rbrep s k t F → t ≠ E → Q (cpar k) s → wp (hev_rbtree_node_parent (rootp t)) s Q.
Proof.
  intros H Ht HQ. pose proof (rbrep_cpar _ _ _ _ H) as Hk. destruct t as [|c l a r]; [done|].
  unfold rbrep in H. simpl in H. simpl. by rb_exec H.
Qed.

Lemma wp_climb_right fuel s k t F :
  rbrep s k t F → t ≠ E → (length k < fuel)%nat →
  wp (climb_right fuel (rootp t)) s (λ x s', s' = s ∧ x = default 0 (head (kright k))).
Proof.
  revert k t. induction fuel as [|fuel IH]; intros k t H0 Ht Hf; [lia|]. simpl.
  apply wp_bind. eapply wp_parent_of; [done..|].
  destruct k as [|f k]; [by apply wp_ret|]. simpl in Hf |- *.
  pose proof (rbrep_faddr _ _ _ _ _ H0) as Hp. pose proof (rbrep_side_ne _ _ _ _ _ H0 Ht) as Hne.
  apply is_ptr_nonzero, Z.eqb_neq in Hp as ->.
  pose proof H0 as H. unfold rbrep in H. simpl in H. destruct f as [c a r|c l a]; simpl in *; rb_exec H.
  - destruct (Z.eqb_spec (rootp t) (rootp r)); [congruence|]. by apply wp_ret.
  - rewrite Z.eqb_refl. apply rbrep_up in H0. simpl in H0.
    eapply (IH k (T c l a t)); [done|done|lia].
Qed.

Lemma wp_climb_left fuel s k t F :
  rbrep s k t F → t ≠ E → (length k < fuel)%nat →
  wp (climb_left fuel (rootp t)) s (λ x s', s' = s ∧ x = default 0 (last (kleft k))).
Proof.
  revert k t. induction fuel as [|fuel IH]; intros k t H0 Ht Hf; [lia|]. simpl.
  apply wp_bind. eapply wp_parent_of; [done..|].
  destruct k as [|f k]; [by apply wp_ret|]. simpl in Hf |- *.
  pose proof (rbrep_faddr _ _ _ _ _ H0) as Hp. pose proof (rbrep_side_ne _ _ _ _ _ H0 Ht) as Hne.
  apply is_ptr_nonzero, Z.eqb_neq in Hp as ->.
  pose proof H0 as H. unfold rbrep in H. simpl in H. destruct f as [c a r|c l a]; simpl in *; rb_exec H.
  - rewrite Z.eqb_refl. apply rbrep_up in H0. simpl in H0.
    eapply (IH k (T c t a r)); [done|done|lia].
  - destruct (Z.eqb_spec (rootp t) (rootp l)); [congruence|]. apply wp_ret.
    split; [done|]. by rewrite app_assoc, last_snoc.
Qed.

Lemma lor_black_odd p : Z.odd (Z.lor p 1) = true.
Proof. by rewrite <-Z.bit0_odd, Z.lor_spec, orb_true_r. Qed.

Lemma wp_node_empty s k t F (Q : bool → HevRBTree → Prop) :
  rbrep s k t F → t ≠ E → Q false s → wp (hev_rbtree_node_empty (rootp t)) s Q.
Proof.
  intros H Ht HQ. pose proof (rbrep_cpar _ _ _ _ H) as Hk. destruct t as [|c l a r]; [done|].
  unfold rbrep in H. simpl in H. simpl.
  assert (is_ptr a) as [Ha Ham] by (eapply rs_ptr; [exact H|in_cells]).
  unfold hev_rbtree_node_empty. rb_exec H. apply wp_ret.
  destruct (Z.eqb_spec (Z.lor (cpar k) (color_Z c)) a) as [Heq|]; [exfalso|done].
  destruct c; simpl in Heq.
  - rewrite Z.lor_0_r in Heq. destruct (cpar_in k a) as [Hz|Hin]; [lia|].
    rewrite Heq in Hin. eapply (heap_notin _ _ _ _ (rs_heap _ _ _ H)).
    rewrite !fmap_app, !elem_of_app. by right; left.
  - pose proof (lor_black_odd (cpar k)) as Ho. rewrite Heq in Ho.
    apply Z.mod_divide in Ham as [q ->]; [|lia]. rewrite Z.odd_mul in Ho. simpl in Ho.
    by rewrite andb_false_r in Ho.
Qed.

(** ** The operations *)

Lemma wp_rb_first fuel s xs F :
  rb_done s xs F → (length xs ≤ fuel)%nat →
  wp (hev_rbtree_first fuel) s (λ x s', s' = s ∧ x = default 0 (head xs)).
Proof.
  intros (t & H0 & _ & <-) Hf. unfold hev_rbtree_first.
  apply wp_bind, wp_gets. pose proof H0 as [_ Hr]. simpl in Hr. rewrite Hr.
  destruct (Z.eqb_spec (rootp t) 0) as [Hz|Hz].
  - pose proof H0 as H. apply (rs_rootp_null _ _ _ _ _ H) in Hz as ->. by apply wp_ret.
  - destruct t as [|c l a r]; [done|]. rewrite <-tsize_inorder in Hf. simpl in Hf. simpl rootp.
    eapply wp_mono; [eapply wp_leftmost; [exact H0|lia]|]. intros x s' [-> Hx]. by rewrite Hx.
Qed.

Lemma wp_rb_last fuel s xs F :
  rb_done s xs F → (length xs ≤ fuel)%nat →
  wp (hev_rbtree_last fuel) s (λ x s', s' = s ∧ x = default 0 (last xs)).
Proof.
  intros (t & H0 & _ & <-) Hf. unfold hev_rbtree_last.
  apply wp_bind, wp_gets. pose proof H0 as [_ Hr]. simpl in Hr. rewrite Hr.
  destruct (Z.eqb_spec (rootp t) 0) as [Hz|Hz].
  - pose proof H0 as H. apply (rs_rootp_null _ _ _ _ _ H) in Hz as ->. by apply wp_ret.
  - destruct t as [|c l a r]; [done|]. rewrite <-tsize_inorder in Hf. simpl in Hf. simpl rootp.
    eapply wp_mono; [eapply wp_rightmost; [exact H0|lia]|]. intros x s' [-> Hx]. by rewrite Hx.
Qed.

(** The focus on a node given by its position. *)
Lemma rb_done_focus s xs1 a xs2 F :
  rb_done s (xs1 ++ a :: xs2) F →
  ∃ k c l r, rbrep s k (T c l a r) F ∧ redblack (plug k (T c l a r)) ∧
    kleft k ++ inorder l = xs1 ∧ inorder r ++ kright k = xs2.
Proof.
  intros (t & H & Hrb & Hxs).
  destruct (inorder_split _ _ _ _ Hxs) as (k & c & l & r & -> & ? & ?).
  exists k, c, l, r. split_and!; [by apply (proj2 (rbrep_plug _ _ _ _))|done..].
Qed.

Lemma wp_rb_next fuel s xs1 a xs2 F :
  rb_done s (xs1 ++ a :: xs2) F → (length (xs1 ++ a :: xs2) ≤ fuel)%nat →
  wp (hev_rbtree_node_next fuel a) s (λ x s', s' = s ∧ x = default 0 (head xs2)).
Proof.
  intros (k & c & l & r & H0 & _ & <- & <-)%rb_done_focus Hf. unfold hev_rbtree_node_next.
  rewrite !length_app in Hf. simpl in Hf. rewrite length_app, <-!tsize_inorder in Hf.
  apply wp_bind. eapply (wp_node_empty _ _ (T c l a r)); [done..|].
  pose proof H0 as H. unfold rbrep in H. simpl in H. rb_exec H. rfocus H (cells a r).
  destruct (Z.eqb_spec (rootp r) 0) as [Hz|Hz]; simpl.
  - apply (rs_rootp_null _ _ _ _ _ H) in Hz as ->.
    eapply (wp_climb_right _ _ _ (T c l a E)); [exact H0|done|].
    pose proof (ctx_length k). simpl in Hf. lia.
  - destruct r as [|c' l' b r']; [done|]. simpl in Hf |- *.
    eapply wp_mono; [eapply (wp_leftmost _ _ (Rf c l a :: k) c' l' b r'); [|lia]|].
    + by apply rbrep_plug, (rbrep_plug _ k), H0.
    + simpl. intros x s' [-> Hx]. split; [done|]. destruct (inorder l'); simplify_eq/=; done.
Qed.

Lemma wp_rb_prev fuel s xs1 a xs2 F :
  rb_done s (xs1 ++ a :: xs2) F → (length (xs1 ++ a :: xs2) ≤ fuel)%nat →
  wp (hev_rbtree_node_prev fuel a) s (λ x s', s' = s ∧ x = default 0 (last xs1)).
Proof.
  intros (k & c & l & r & H0 & _ & <- & <-)%rb_done_focus Hf. unfold hev_rbtree_node_prev.
  rewrite !length_app in Hf. simpl in Hf. rewrite length_app, <-!tsize_inorder in Hf.
  apply wp_bind. eapply (wp_node_empty _ _ (T c l a r)); [done..|].
  pose proof H0 as H. unfold rbrep in H. simpl in H. rb_exec H. rfocus H (cells a l).
  destruct (Z.eqb_spec (rootp l) 0) as [Hz|Hz]; simpl.
  - apply (rs_rootp_null _ _ _ _ _ H) in Hz as ->. simpl. rewrite app_nil_r.
    eapply (wp_climb_left _ _ _ (T c E a r)); [exact H0|done|].
    pose proof (ctx_length k). simpl in Hf. lia.
  - destruct l as [|c' l' b r']; [done|]. simpl in Hf |- *.
    eapply wp_mono; [eapply (wp_rightmost _ _ (Lf c a r :: k) c' l' b r'); [|lia]|].
    + by apply rbrep_plug, (rbrep_plug _ k), H0.
    + simpl. intros x s' [-> Hx]. split; [done|]. by rewrite app_assoc, last_app_cons in *; rewrite Hx.
Qed.

(** ** Replacement *)

Lemma wp_rb_replace s xs1 a xs2 b nb F :
  rb_done s (xs1 ++ a :: xs2) ((b, nb) :: F) →
  wp (hev_rbtree_replace a b) s (λ _ s', ∃ n0, rb_done s' (xs1 ++ b :: xs2) ((a, n0) :: F)).
Proof.
  intros (k & c & l & r & H0 & Hrb & <- & <-)%rb_done_focus.
  pose proof (rbrep_cpar _ _ _ _ H0) as Hk. pose proof H0 as H. unfold rbrep in H. simpl in H.
  assert (is_ptr a) as Ha by (eapply rs_ptr; [exact H|in_cells]).
  unfold hev_rbtree_replace. rb_exec H. apply wp_bind.
  eapply (wp_rb_load _ _ _ 0); [exact H|reflexivity|]. apply wp_bind. rb_at H b.
  eapply (wp_rb_store _ _ _ 0); [exact H|reflexivity|]. rb_intro H.
  rb_exec H. apply wp_bind. rfocus H (cells a l).
  eapply wp_set_parent_nonnull; [exact H|rb_ptr|]. rb_intro H.
  rb_exec H. apply wp_bind. rfocus H (cells a r).
  eapply wp_set_parent_nonnull; [exact H|rb_ptr|]. rb_intro H.
  rfocus H (ccells k a). eapply wp_change_child; [exact H|in_cells|]. rb_intro H.
  exists (nd (cpar k) c (rootp r) (rootp l)).
  destruct (redblack_plug_inv _ _ Hrb) as (cc & n & Ht & Hkok).
  eapply (rb_done_plug _ k (T c l b r) cc n).
  - unfold rbrep. simpl. eapply rs_perm; [exact H|]. solve_Permutation.
  - by inversion Ht; subst; econstructor.
  - done.
  - solve_inorder.
Qed.

(** ** Height *)

Fixpoint height (t : tree) : nat :=
  match t with E => 0 | T _ l _ r => S (Nat.max (height l) (height r)) end.

Lemma rb_height t c n :
  rb t c n → (height t ≤ 2 * n + (if decide (c = Red) then 1 else 0))%nat.
Proof. induction 1; simpl in *; repeat case_decide; simplify_eq; lia. Qed.

Lemma rb_size t c n : rb t c n → (2 ^ n ≤ S (tsize t))%nat.
Proof. induction 1; simpl in *; lia. Qed.

Lemma redblack_height t : redblack t → (height t ≤ 2 * Nat.log2 (S (tsize t)))%nat.
Proof.
  intros [n Hrb]. pose proof (rb_height _ _ _ Hrb) as Hh. pose proof (rb_size _ _ _ Hrb) as Hs.
  apply Nat.log2_le_mono in Hs. rewrite Nat.log2_pow2 in Hs by lia.
  case_decide; [done|]. lia.
Qed.

Lemma height_plug k t : (length k + height t ≤ height (plug k t))%nat.
Proof.
  revert t. induction k as [|f k IH]; intros t; simpl; [done|].
  specialize (IH (plug1 f t)). destruct f; simpl in *; lia.
Qed.

(** ** The empty tree and membership *)

Lemma rb_done_empty m F : heap_is m F → rb_done (mk_rbtree 0 m) [] F.
Proof.
  intros H. exists E. split_and!; [by split|exists 0%nat; constructor|done].
Qed.

Lemma rb_done_perm s xs F F' : rb_done s xs F → F ≡ₚ F' → rb_done s xs F'.
Proof.
  intros (t & H & ? & ?) HF. exists t. split_and!; [|done..].
  eapply rs_perm; [exact H|]. by rewrite HF.
Qed.

Lemma rb_done_fst s xs F :
  rb_done s xs F → ∃ L, heap_is (rb_mem s) (L ++ F) ∧ L.*1 ≡ₚ xs.
Proof.
  intros (t & [H _] & _ & <-). simpl in H. exists (cells 0 t). split; [done|apply cells_fst].
Qed.

Lemma rb_done_NoDup s xs F : rb_done s xs F → NoDup (xs ++ F.*1).
Proof.
  intros (L & (Hnd & _ & _) & HL)%rb_done_fst. by rewrite fmap_app, HL in Hnd.
Qed.

Lemma rb_done_ptr s xs F a : rb_done s xs F → a ∈ xs → is_ptr a.
Proof.
  intros (L & H & HL)%rb_done_fst Ha. eapply heap_all_ptr; [done|].
  rewrite fmap_app, HL. set_solver.
Qed.

Lemma rb_done_root s xs F : rb_done s xs F → rb_root s = 0 ↔ xs = [].
Proof.
  intros (t & H & _ & <-). rewrite (rs_root _ _ _ H). simpl.
  pose proof (rs_rootp_null _ _ _ _ _ H) as Hn. simpl in Hn. rewrite Hn.
  split; [by intros ->|]. destruct t as [|c l a r]; [done|]. simpl. by destruct (inorder l).
Qed.

(** Releasing and providing the cells beside the tree. *)
Lemma rb_done_alloc s xs F a n :
  rb_done s xs F → is_ptr a → rb_mem s !! a = None →
  rb_done (mk_rbtree (rb_root s) (<[a:=n]> (rb_mem s))) xs ((a, n) :: F).
Proof.
  intros (t & [Hh Hr] & Hrb & Hxs) Ha Hn. exists t. split_and!; [|done..]. split; [|done].
  simpl in *. eapply heap_perm; [by eapply (heap_alloc _ _ a n)|]. solve_Permutation.
Qed.

Lemma rb_done_free s xs F a n :
  rb_done s xs ((a, n) :: F) → rb_done (mk_rbtree (rb_root s) (delete a (rb_mem s))) xs F.
Proof.
  intros (t & [Hh Hr] & Hrb & Hxs). exists t. split_and!; [|done..]. split; [|done].
  simpl in *. eapply (heap_free _ _ a n), heap_perm; [done|]. solve_Permutation.
Qed.
