(* ===== verification/RBTreeProps.v ===== *)
(** * Red-black trees: the theorems

    What the operations of src/core/src/hev-rbtree.c promise their users, and
    a concrete tree for each. *)

From S2P Require Import Prelude RBTree RBTreeRep RBTreeInsert RBTreeErase RBTreeIter.

#[global] Instance is_ptr_dec a : Decision (is_ptr a).
Proof. unfold is_ptr. apply _. Defined.

(** The memory that holds the tree [t] and the cells [F]. *)
Definition tree_state (t : tree) (F : list (Z * HevRBTreeNode)) : HevRBTree :=
  mk_rbtree (rootp t) (list_to_map (cells 0 t ++ F)).

Lemma tree_state_is t F :
  bool_decide (NoDup (cells 0 t ++ F).*1 ∧ Forall is_ptr (cells 0 t ++ F).*1) = true →
  tree_is (tree_state t F) t F.
Proof. intros [? ?]%bool_decide_eq_true. by split. Qed.

(** A tree of two nodes, a black root with a red left child, and a tree of five
    nodes. *)
Definition tree2 : tree := T Black (T Red E 16 E) 8 E.
Definition tree5 : tree :=
  T Black (T Black (T Red E 16 E) 24 E) 32 (T Black E 40 (T Red E 48 E)).

Lemma tree2_redblack : redblack tree2.
Proof. exists 1%nat. repeat econstructor. Qed.
Lemma tree5_redblack : redblack tree5.
Proof. exists 2%nat. repeat econstructor. Qed.

Lemma tree5_done F :
  bool_decide (NoDup (cells 0 tree5 ++ F).*1 ∧ Forall is_ptr (cells 0 tree5 ++ F).*1) = true →
  rb_done (tree_state tree5 F) [16; 24; 32; 40; 48] F.
Proof. intros H. exists tree5. split_and!; [by apply tree_state_is|apply tree5_redblack|done]. Qed.

(** C13: linking a new node at a leaf of a red-black tree and rebalancing with
    [hev_rbtree_insert_color] is defined, ends within [2 * log2 (n + 1) + 1]
    passes of the loop for a tree of [n] nodes, and leaves a red-black tree in
    memory, whose sequence of nodes has the new node at the place of the leaf
    and is otherwise unchanged; no other cell is touched. *)
Theorem rbtree_insert_correct fuel s k a n F :
  tree_is s (plug k E) ((a, n) :: F) → redblack (plug k E) →
  (2 * Nat.log2 (S (length (inorder (plug k E)))) < fuel)%nat →
  ∃ s', (hev_rbtree_node_link a (cpar k) (link_of k);; hev_rbtree_insert_color fuel a) s
          = Some (tt, s') ∧
    rb_done s' (kleft k ++ a :: kright k) F.
Proof.
  intros H Hrb Hf. apply (rbrep_plug s k E) in H.
  pose proof (redblack_height _ Hrb) as Hh. pose proof (height_plug k E) as Hk.
  rewrite <-tsize_inorder in Hf.
  destruct (wp_run _ _ _ (wp_rb_insert fuel s k a n F H Hrb ltac:(lia))) as ([] & s' & ? & ?).
  by exists s'.
Qed.

Lemma rbtree_insert_correct_witness :
  ∃ s', (hev_rbtree_node_link 24 16 (LLeft 16);; hev_rbtree_insert_color 5 24)
          (tree_state tree2 [(24, mk_rbnode 0 0 0)]) = Some (tt, s') ∧
    rb_done s' [24; 16; 8] [].
Proof.
  apply (rbtree_insert_correct 5 _ [Lf Red 16 E; Lf Black 8 E] 24 (mk_rbnode 0 0 0) []).
  - apply tree_state_is. vm_compute. reflexivity.
  - apply tree2_redblack.
  - vm_compute. lia.
Defined.

(** C14: [hev_rbtree_erase] of a node of a red-black tree is defined for a fuel
    of the number of nodes and leaves a red-black tree of the other nodes in
    their order; the cell of the node is released and no other cell outside
    the tree is touched. *)
Theorem rbtree_erase_correct fuel s xs1 a xs2 F :
  rb_done s (xs1 ++ a :: xs2) F → (length (xs1 ++ a :: xs2) ≤ fuel)%nat →
  ∃ s' n0, hev_rbtree_erase fuel a s = Some (tt, s') ∧ rb_done s' (xs1 ++ xs2) ((a, n0) :: F).
Proof.
  intros H Hf. destruct (wp_run _ _ _ (wp_rb_erase fuel s xs1 a xs2 F H Hf)) as ([] & s' & ? & n0 & ?).
  by exists s', n0.
Qed.

Lemma rbtree_erase_correct_witness :
  ∃ s' n0, hev_rbtree_erase 5 32 (tree_state tree5 []) = Some (tt, s') ∧
    rb_done s' [16; 24; 40; 48] [(32, n0)].
Proof.
  apply (rbtree_erase_correct 5 _ [16; 24] 32 [40; 48] []).
  - apply tree5_done. vm_compute. reflexivity.
  - vm_compute. lia.
Defined.

(** Iteration.  [hev_rbtree_first] and [hev_rbtree_last] give the ends of
    the sequence of nodes, [hev_rbtree_node_next] and [hev_rbtree_node_prev]
    the neighbours of a node, NULL past the ends, and none of them changes the
    memory. *)
Theorem rbtree_iteration fuel s xs1 a xs2 F :
  rb_done s (xs1 ++ a :: xs2) F → (length (xs1 ++ a :: xs2) ≤ fuel)%nat →
  hev_rbtree_first fuel s = Some (default 0 (head (xs1 ++ a :: xs2)), s) ∧
  hev_rbtree_last fuel s = Some (default 0 (last (xs1 ++ a :: xs2)), s) ∧
  hev_rbtree_node_next fuel a s = Some (default 0 (head xs2), s) ∧
  hev_rbtree_node_prev fuel a s = Some (default 0 (last xs1), s).
Proof.
  intros H Hf. split_and!.
  - by destruct (wp_run _ _ _ (wp_rb_first fuel s _ F H Hf)) as (x & s' & ? & -> & ->).
  - by destruct (wp_run _ _ _ (wp_rb_last fuel s _ F H Hf)) as (x & s' & ? & -> & ->).
  - by destruct (wp_run _ _ _ (wp_rb_next fuel s _ _ _ F H Hf)) as (x & s' & ? & -> & ->).
  - by destruct (wp_run _ _ _ (wp_rb_prev fuel s _ _ _ F H Hf)) as (x & s' & ? & -> & ->).
Qed.

Lemma rbtree_iteration_witness :
  hev_rbtree_first 5 (tree_state tree5 []) = Some (16, tree_state tree5 []) ∧
  hev_rbtree_last 5 (tree_state tree5 []) = Some (48, tree_state tree5 []) ∧
  hev_rbtree_node_next 5 24 (tree_state tree5 []) = Some (32, tree_state tree5 []) ∧
  hev_rbtree_node_prev 5 24 (tree_state tree5 []) = Some (16, tree_state tree5 []).
Proof.
  apply (rbtree_iteration 5 _ [16] 24 [32; 40; 48] []).
  - apply tree5_done. vm_compute. reflexivity.
  - vm_compute. lia.
Defined.

(** [hev_rbtree_replace] puts the new node at the place of the victim: the
    tree stays red-black, the sequence of nodes has the new node instead of
    the victim, and the victim's cell is released. *)
Theorem rbtree_replace_correct s xs1 a xs2 b nb F :
  rb_done s (xs1 ++ a :: xs2) ((b, nb) :: F) →
  ∃ s' n0, hev_rbtree_replace a b s = Some (tt, s') ∧
    rb_done s' (xs1 ++ b :: xs2) ((a, n0) :: F).
Proof.
  intros H. destruct (wp_run _ _ _ (wp_rb_replace s xs1 a xs2 b nb F H)) as ([] & s' & ? & n0 & ?).
  by exists s', n0.
Qed.

Lemma rbtree_replace_correct_witness :
  ∃ s' n0, hev_rbtree_replace 32 64 (tree_state tree5 [(64, mk_rbnode 0 0 0)]) = Some (tt, s') ∧
    rb_done s' [16; 24; 64; 40; 48] [(32, n0)].
Proof.
  apply (rbtree_replace_correct _ [16; 24] 32 [40; 48] 64 (mk_rbnode 0 0 0) []).
  apply tree5_done. vm_compute. reflexivity.
Defined.
