(* ===== verification/RBTreeSearch.v ===== *)
(** * Red-black trees: searching by a comparison

    The users of the tree (the mapped DNS cache and the authenticator) descend
    from the root by the sign of a comparison: to the left when the node is
    less than the key, to the right when it is greater.  [locate] is that
    descent on trees; [Comparison] is what the users promise about their
    comparison functions. *)

From stdpp Require Import sorting.
From S2P Require Import Prelude RBTree RBTreeRep RBTreeInsert RBTreeErase RBTreeIter.

Lemma height_tsize t : (height t ≤ tsize t)%nat.
Proof. induction t; simpl; lia. Qed.

(** A C comparison function ([strcmp], [memcmp], ...): the sign of its result
    is a total order. *)
Class Comparison {K : Type} (cmp : K → K → Z) : Prop := {
  cmp_eq x y : cmp x y = 0 ↔ x = y;
  cmp_flip x y : cmp x y < 0 ↔ 0 < cmp y x;
  cmp_trans x y z : cmp x y < 0 → cmp y z < 0 → cmp x z < 0;
}.

(** The descent with the sign function [f]: the place where it stops. *)
Fixpoint locate (f : Z → Z) (k : ctx) (t : tree) : ctx * tree :=
  match t with
  | E => (k, E)
  | T c l a r =>
      if f a <? 0 then locate f (Lf c a r :: k) l
      else if 0 <? f a then locate f (Rf c l a :: k) r
      else (k, t)
  end.

(** Reading the link at which a descent has arrived. *)
Lemma wp_get_link s k t F (Q : Z → HevRBTree → Prop) :
  rbrep s k t F → Q (rootp t) s → wp (get_link (link_of k)) s Q.
Proof.
  intros H HQ. unfold rbrep in H. destruct k as [|[c a r|c l a] k]; simpl in *.
  - apply wp_gets. destruct H as [_ Hr]. by rewrite Hr.
  - by rb_exec H.
  - by rb_exec H.
Qed.

(** The order of the nodes, seen from the searched key: of two nodes the first
    is above the key or the second is below it. *)
Definition separates (f : Z → Z) (x y : Z) : Prop := f y < 0 ∨ 0 < f x.

Lemma locate_plug f k t : plug (locate f k t).1 (locate f k t).2 = plug k t.
Proof.
  revert k. induction t as [|c l IHl a r IHr]; intros k; simpl; [done|].
  repeat case_match; [apply IHl|apply IHr|done].
Qed.

Lemma locate_hit f k t c l a r : (locate f k t).2 = T c l a r → f a = 0.
Proof.
  revert k. induction t as [|c' l' IHl b r' IHr]; intros k; simpl; [done|].
  destruct (Z.ltb_spec (f b) 0); [apply IHl|]. destruct (Z.ltb_spec 0 (f b)); [apply IHr|].
  intros [= -> -> -> ->]. lia.
Qed.

Lemma locate_miss f k t :
  (locate f k t).2 = E → StronglySorted (separates f) (inorder t) →
  Forall (λ x, 0 < f x) (kleft k) → Forall (λ x, f x < 0) (kright k) →
  Forall (λ x, 0 < f x) (kleft (locate f k t).1) ∧ Forall (λ x, f x < 0) (kright (locate f k t).1).
Proof.
  revert k. induction t as [|c l IHl a r IHr]; intros k; simpl; [done|].
  intros Hm Hs Hkl Hkr. apply StronglySorted_app in Hs as (Hx & Hl & Hr).
  apply StronglySorted_cons in Hr as [Hra Hr].
  destruct (Z.ltb_spec (f a) 0) as [Ha|Ha].
  - apply IHl; [done..|]. simpl. constructor; [done|]. apply Forall_app. split; [|done].
    eapply Forall_impl; [exact Hra|]. intros y [?|?]; lia.
  - destruct (Z.ltb_spec 0 (f a)) as [Ha'|Ha']; [|done].
    apply IHr; [done..| |done]. simpl. apply Forall_app. split; [done|].
    apply Forall_app. split; [|by constructor].
    apply Forall_forall. intros x Hxl. destruct (Hx x a Hxl ltac:(set_solver)); lia.
Qed.

(** ** Trees ordered by the keys of their nodes *)

Section ordered.
Context {K : Type} (cmp : K → K → Z) `{!Comparison cmp}.

Lemma cmp_refl x : cmp x x = 0.
Proof. by apply cmp_eq. Qed.

Lemma cmp_ge_trans x y z : ¬ cmp y x < 0 → ¬ cmp z y < 0 → ¬ cmp z x < 0.
Proof.
  intros Hyx Hzy Hzx. destruct (decide (cmp y x = 0)) as [->%cmp_eq|Hxy]; [done|].
  apply Hzy. apply (cmp_trans z x y); [done|]. apply cmp_flip. lia.
Qed.

(** The keys decrease along the in-order sequence. *)
Definition descending (key : Z → K) : list Z → Prop :=
  StronglySorted (λ x y, cmp (key y) (key x) < 0).

Lemma descending_separates key xs n :
  descending key xs → StronglySorted (separates (λ x, cmp (key x) n)) xs.
Proof.
  unfold descending. induction 1 as [|x xs _ IH Hx]; constructor; [done|].
  eapply Forall_impl; [exact Hx|]. intros y Hxy. unfold separates.
  destruct (decide (cmp (key y) n < 0)) as [|Hy]; [by left|].
  destruct (decide (0 < cmp (key x) n)) as [|Hx']; [by right|].
  exfalso. eapply (cmp_ge_trans (key x) n (key y)); [|done|done].
  by rewrite cmp_flip.
Qed.

Lemma descending_ext key key' xs :
  (∀ x, x ∈ xs → key x = key' x) → descending key xs → descending key' xs.
Proof.
  unfold descending. induction xs as [|x xs IH]; intros He Hs; [constructor|].
  apply StronglySorted_cons in Hs as [Hx Hs]. constructor; [apply IH; set_solver|].
  apply Forall_forall. intros y Hy. rewrite <-!He by set_solver.
  by eapply Forall_forall in Hx.
Qed.

Lemma descending_insert key xs1 a xs2 :
  descending key (xs1 ++ xs2) →
  Forall (λ x, 0 < cmp (key x) (key a)) xs1 → Forall (λ x, cmp (key x) (key a) < 0) xs2 →
  descending key (xs1 ++ a :: xs2).
Proof.
  unfold descending. rewrite !StronglySorted_app. intros (Hx & H1 & H2) Ha1 Ha2.
  split_and!; [|done|by constructor].
  intros x y Hx1 [->|Hy]%elem_of_cons; [|by apply Hx].
  rewrite cmp_flip. by eapply Forall_forall in Ha1.
Qed.

Lemma descending_delete key xs1 a xs2 :
  descending key (xs1 ++ a :: xs2) → descending key (xs1 ++ xs2).
Proof.
  unfold descending. rewrite !StronglySorted_app. intros (Hx & H1 & H2).
  apply StronglySorted_cons in H2 as [_ H2]. split_and!; [|done|done].
  intros x y ? ?. apply Hx; set_solver.
Qed.

Lemma descending_inj key xs x y :
  descending key xs → x ∈ xs → y ∈ xs → key x = key y → x = y.
Proof.
  unfold descending. induction xs as [|z xs IH]; [set_solver|].
  intros [Hz Hs]%StronglySorted_cons Hx Hy He.
  apply elem_of_cons in Hx as [->|Hx], Hy as [->|Hy]; [done|..].
  - eapply Forall_forall in Hz; [|exact Hy]. simpl in Hz. rewrite He, cmp_refl in Hz. lia.
  - eapply Forall_forall in Hz; [|exact Hx]. simpl in Hz. rewrite He, cmp_refl in Hz. lia.
  - by apply IH.
Qed.

(** A miss says where the key belongs. *)
Lemma descending_locate key t n k :
  descending key (inorder t) → locate (λ x, cmp (key x) n) [] t = (k, E) →
  Forall (λ x, 0 < cmp (key x) n) (kleft k) ∧ Forall (λ x, cmp (key x) n < 0) (kright k).
Proof.
  intros Hs Hl. pose proof (locate_miss (λ x, cmp (key x) n) [] t) as Hm.
  rewrite Hl in Hm. apply Hm; [done| |constructor|constructor].
  by apply descending_separates.
Qed.
End ordered.
