(* ===== verification/TaskSystem.v ===== *)
(** * The scheduler of the task system

    third-part/hev-task-system/src: kern/core/hev-task-system-schedule.c,
    kern/task/hev-task.c and lib/rbtree/hev-rbtree-cached.[ch].  The tasks that can
    run are in a red-black tree by their keys (lib/rbtree/hev-rbtree.c is the file
    of the same name in core/src), with a pointer to the leftmost one; the
    scheduler picks that one.  A task is known by the address of its node in that
    tree, as the code finds it with [container_of].

    A turn of a task is what it does until it goes back to the kernel; the jumps
    between the contexts are the ends of the definitions. *)

From S2P Require Import Prelude RBTree.

(** ** Data *)

Inductive HevTaskState := HEV_TASK_STOPPED | HEV_TASK_RUNNING | HEV_TASK_WAITING.

#[global] Instance HevTaskState_eq_dec : EqDecision HevTaskState.
Proof. solve_decision. Defined.

(** The values with which a task returns to the kernel. *)
Inductive HevTaskSched := HEV_TASK_SCHED_SWITCH | HEV_TASK_SCHED_WAITIO | HEV_TASK_SCHED_REMOVE.

Definition HEV_TASK_PRIORITY_MIN : Z := 0.
Definition HEV_TASK_PRIORITY_MAX : Z := 15.
Definition HEV_TASK_PRIORITY_DEFAULT : Z := 8.

Record HevTask := mk_task {
  sched_key : Z;
  tk_joiner : Z;
  tk_ref : Z;
  priority : Z;
  next_priority : Z;
  tk_state : HevTaskState;
}.

Record HevRBTreeCached := mk_cached { rc_base : HevRBTree; leftmost : Z }.

Record HevTaskSystemContext := mk_ctx {
  total_task_count : Z;
  running_task_count : Z;
  current_task : Z;
  running_tasks : HevRBTreeCached;
  tk_tasks : gmap Z HevTask;
}.

Definition tk_set_key (k : Z) (t : HevTask) : HevTask :=
  mk_task k (tk_joiner t) (tk_ref t) (priority t) (next_priority t) (tk_state t).
Definition tk_set_priority (p : Z) (t : HevTask) : HevTask :=
  mk_task (sched_key t) (tk_joiner t) (tk_ref t) p (next_priority t) (tk_state t).
Definition tk_set_next_priority (p : Z) (t : HevTask) : HevTask :=
  mk_task (sched_key t) (tk_joiner t) (tk_ref t) (priority t) p (tk_state t).
Definition tk_set_state (st : HevTaskState) (t : HevTask) : HevTask :=
  mk_task (sched_key t) (tk_joiner t) (tk_ref t) (priority t) (next_priority t) st.
Definition tk_set_joiner (j : Z) (t : HevTask) : HevTask :=
  mk_task (sched_key t) j (tk_ref t) (priority t) (next_priority t) (tk_state t).
Definition tk_set_ref (n : Z) (t : HevTask) : HevTask :=
  mk_task (sched_key t) (tk_joiner t) n (priority t) (next_priority t) (tk_state t).

Definition cx_set_total (n : Z) (s : HevTaskSystemContext) : HevTaskSystemContext :=
  mk_ctx n (running_task_count s) (current_task s) (running_tasks s) (tk_tasks s).
Definition cx_set_running (n : Z) (s : HevTaskSystemContext) : HevTaskSystemContext :=
  mk_ctx (total_task_count s) n (current_task s) (running_tasks s) (tk_tasks s).
Definition cx_set_current (a : Z) (s : HevTaskSystemContext) : HevTaskSystemContext :=
  mk_ctx (total_task_count s) (running_task_count s) a (running_tasks s) (tk_tasks s).
Definition cx_set_tree (t : HevRBTreeCached) (s : HevTaskSystemContext) : HevTaskSystemContext :=
  mk_ctx (total_task_count s) (running_task_count s) (current_task s) t (tk_tasks s).
Definition cx_set_tasks (m : gmap Z HevTask) (s : HevTaskSystemContext) : HevTaskSystemContext :=
  mk_ctx (total_task_count s) (running_task_count s) (current_task s) (running_tasks s) m.

(** ** The tree with its first node *)

Definition in_base {A} : stm HevRBTree A → stm HevRBTreeCached A :=
  zoom rc_base (λ b c, mk_cached b (leftmost c)).

Definition hev_rbtree_cached_first (c : HevRBTreeCached) : Z := leftmost c.

Definition hev_rbtree_cached_insert_color (fuel : nat) (node : Z) (is_leftmost : bool) : stm HevRBTreeCached unit :=
  (if is_leftmost : bool then modify (λ c, mk_cached (rc_base c) node) else mret tt);;
  in_base (hev_rbtree_insert_color fuel node).

Definition hev_rbtree_cached_erase (fuel : nat) (node : Z) : stm HevRBTreeCached unit :=
  left ← gets leftmost;
  (if node =? left then
     next ← in_base (hev_rbtree_node_next fuel node);
     modify (λ c, mk_cached (rc_base c) next)
   else mret tt);;
  in_base (hev_rbtree_erase fuel node).

(** ** The tasks *)

Definition in_running {A} : stm HevRBTreeCached A → stm HevTaskSystemContext A := zoom running_tasks cx_set_tree.

Definition task_load (a : Z) : stm HevTaskSystemContext HevTask := λ s,
  match tk_tasks s !! a with Some t => Some (t, s) | None => None end.
Definition task_update (a : Z) (f : HevTask → HevTask) : stm HevTaskSystemContext unit := λ s,
  match tk_tasks s !! a with
  | Some t => Some (tt, cx_set_tasks (<[a := f t]> (tk_tasks s)) s)
  | None => None
  end.

(** Enough for the walks in the tree: the number of nodes. *)
Definition cx_fuel (s : HevTaskSystemContext) : nat :=
  S (size (rb_mem (rc_base (running_tasks s)))).

(** [hev_task_new] at [block], [None] when there is no memory. *)
Definition hev_task_new (block : option Z) : stm HevTaskSystemContext Z :=
  match block with
  | None => mret 0
  | Some self =>
      modify (λ s, cx_set_tasks (<[self := mk_task 0 0 1 0 HEV_TASK_PRIORITY_DEFAULT HEV_TASK_STOPPED]> (tk_tasks s)) s);;
      in_running (in_base (modify (λ t, mk_rbtree (rb_root t) (<[self := mk_rbnode 0 0 0]> (rb_mem t)))));;
      mret self
  end.

Definition hev_task_ref (self : Z) : stm HevTaskSystemContext Z :=
  task_update self (λ t, tk_set_ref (s32 (tk_ref t + 1)) t);; mret self.

Definition hev_task_unref (self : Z) : stm HevTaskSystemContext unit :=
  task_update self (λ t, tk_set_ref (s32 (tk_ref t - 1)) t);;
  t ← task_load self;
  if negb (tk_ref t =? 0) then mret tt
  else
    modify (λ s, cx_set_tasks (delete self (tk_tasks s)) s);;
    in_running (in_base (modify (λ t, mk_rbtree (rb_root t) (delete self (rb_mem t))))).

Definition hev_task_set_priority (self priority : Z) : stm HevTaskSystemContext unit :=
  let priority :=
    if priority <? HEV_TASK_PRIORITY_MIN then HEV_TASK_PRIORITY_MIN
    else if HEV_TASK_PRIORITY_MAX <? priority then HEV_TASK_PRIORITY_MAX
    else priority in
  task_update self (tk_set_next_priority priority).

(** ** The scheduler *)

(** The clock is [CLOCK_NONE]: each turn counts as one. *)
Definition hev_task_system_update_sched_key : stm HevTaskSystemContext unit :=
  curr ← gets current_task;
  task_update curr (λ t, tk_set_key (u64 (sched_key t + 1 * priority t)) t).

Definition hev_task_system_get_min_sched_key : stm HevTaskSystemContext Z :=
  sched_node ← gets (λ s, hev_rbtree_cached_first (running_tasks s));
  if sched_node =? 0 then mret 0
  else task ← task_load sched_node; mret (sched_key task).

(** The descent of [_hev_task_system_insert_task]. *)
Fixpoint insert_task_loop (fuel : nat) (key : Z) (new : rb_link) (parent : Z) (is_leftmost : bool) :
    stm HevTaskSystemContext (rb_link * Z * bool) :=
  match fuel with
  | O => ub
  | S fuel =>
      n ← in_running (in_base (get_link new));
      if n =? 0 then mret (new, parent, is_leftmost)
      else
        this ← task_load n;
        if key <? sched_key this then insert_task_loop fuel key (LLeft n) n is_leftmost
        else insert_task_loop fuel key (LRight n) n false
  end.

Definition _hev_task_system_insert_task (task : Z) : stm HevTaskSystemContext unit :=
  t ← task_load task;
  fuel ← gets cx_fuel;
  r ← insert_task_loop fuel (sched_key t) LRoot 0 true;
  in_running (in_base (hev_rbtree_node_link task r.1.2 r.1.1));;
  in_running (hev_rbtree_cached_insert_color fuel task r.2).

Definition hev_task_system_insert_task (task : Z) : stm HevTaskSystemContext unit :=
  task_update task (λ t, tk_set_priority (next_priority t) (tk_set_state HEV_TASK_RUNNING t));;
  _hev_task_system_insert_task task;;
  modify (λ s, cx_set_running (u32 (running_task_count s + 1)) s).

Definition hev_task_system_reinsert_current_task : stm HevTaskSystemContext unit :=
  task ← gets current_task;
  fuel ← gets cx_fuel;
  task_update task (λ t, tk_set_priority (next_priority t) t);;
  in_running (hev_rbtree_cached_erase fuel task);;
  _hev_task_system_insert_task task.

Definition hev_task_system_remove_current_task (st : HevTaskState) : stm HevTaskSystemContext unit :=
  task ← gets current_task;
  fuel ← gets cx_fuel;
  task_update task (tk_set_state st);;
  in_running (hev_rbtree_cached_erase fuel task);;
  modify (λ s, cx_set_running (u32 (running_task_count s - 1)) s);;
  match st with
  | HEV_TASK_STOPPED =>
      modify (λ s, cx_set_total (u32 (total_task_count s - 1)) s);;
      hev_task_unref task
  | _ => task_update task (λ t, tk_set_key (next_priority t) t)
  end.

(** [ub] is [abort]. *)
Definition hev_task_system_wakeup_task (task : Z) : stm HevTaskSystemContext unit :=
  t ← task_load task;
  match tk_state t with
  | HEV_TASK_RUNNING => mret tt
  | HEV_TASK_STOPPED => ub
  | HEV_TASK_WAITING =>
      min ← hev_task_system_get_min_sched_key;
      task_update task (λ t, tk_set_key (u64 (sched_key t + min)) t);;
      hev_task_system_insert_task task
  end.

(** [hev_task_run] with [hev_task_system_run_new_task]. *)
Definition hev_task_run (self : Z) : stm HevTaskSystemContext unit :=
  t ← task_load self;
  match tk_state t with
  | HEV_TASK_STOPPED =>
      task_update self (λ t, tk_set_key (next_priority t) (tk_set_priority (next_priority t) t));;
      curr ← gets current_task;
      (if curr =? 0 then mret tt
       else
         min ← hev_task_system_get_min_sched_key;
         task_update self (λ t, tk_set_key (u64 (sched_key t + min)) t));;
      hev_task_system_insert_task self;;
      modify (λ s, cx_set_total (u32 (total_task_count s + 1)) s)
  | _ => mret tt
  end.

(** [hev_task_system_io_poll]: the tasks of the events, and the one whose timer
    has expired, are woken up. *)
Fixpoint hev_task_system_io_poll (events : list Z) : stm HevTaskSystemContext unit :=
  match events with
  | [] => mret tt
  | task :: events => hev_task_system_wakeup_task task;; hev_task_system_io_poll events
  end.

(** The loop that waits for events; [polls] are the events of each wait.  When
    they are used up the system still waits. *)
Fixpoint pick_wait (polls : list (list Z)) : stm HevTaskSystemContext unit :=
  match polls with
  | [] => ub
  | events :: polls =>
      hev_task_system_io_poll events;;
      n ← gets running_task_count;
      if n =? 0 then pick_wait polls else mret tt
  end.

Definition hev_task_system_pick_current_task (polls : list (list Z)) : stm HevTaskSystemContext unit :=
  running ← gets running_task_count;
  total ← gets total_task_count;
  (if running <? total then
     if negb (running =? 0) then hev_task_system_io_poll (default [] (head polls)) else pick_wait polls
   else mret tt);;
  sched_node ← gets (λ s, hev_rbtree_cached_first (running_tasks s));
  modify (cx_set_current sched_node).

(** The part of [hev_task_system_schedule] that runs in the context of the kernel:
    [ty] is the value of the jump into it, [None] at the start.  The result tells
    whether the current task goes on; otherwise all tasks have ended. *)
Definition hev_task_system_schedule (ty : option HevTaskSched) (polls : list (list Z)) :
    stm HevTaskSystemContext bool :=
  match ty with
  | None => mret tt
  | Some HEV_TASK_SCHED_SWITCH => hev_task_system_update_sched_key;; hev_task_system_reinsert_current_task
  | Some HEV_TASK_SCHED_WAITIO =>
      hev_task_system_update_sched_key;; hev_task_system_remove_current_task HEV_TASK_WAITING
  | Some HEV_TASK_SCHED_REMOVE => hev_task_system_remove_current_task HEV_TASK_STOPPED
  end;;
  total ← gets total_task_count;
  if total =? 0 then modify (cx_set_current 0);; mret false
  else hev_task_system_pick_current_task polls;; mret true.

(** The end of [hev_task_executer], when the entry of the task has returned. *)
Definition hev_task_executer_end : stm HevTaskSystemContext unit :=
  task ← gets current_task;
  t ← task_load task;
  if tk_joiner t =? 0 then mret tt else hev_task_system_wakeup_task (tk_joiner t).
