(* ===== verification/TaskSystemQueue.v ===== *)
(** * The scheduler: its run queue

    The cached red-black tree of the tasks that can run is a queue in the order of
    their keys, first in, first out among equal keys. *)

From stdpp Require Import sorting.
From S2P Require Import Prelude RBTree RBTreeRep RBTreeInsert RBTreeErase RBTreeIter RBTreeSearch TaskSystem.

Definition tkey (m : gmap Z HevTask) (a : Z) : Z := default 0 (sched_key <$> m !! a).

(** The place of a task with key [k]: after those with the same key. *)
Definition queue_insert (m : gmap Z HevTask) (k a : Z) (ys : list Z) : list Z :=
  filter (λ x, tkey m x ≤ k) ys ++ a :: filter (λ x, k < tkey m x) ys.

Record queue_is (c : HevRBTreeCached) (m : gmap Z HevTask) (ys : list Z) (F : list (Z * HevRBTreeNode)) : Prop := {
  qi_tree : rb_done (rc_base c) ys F;
  qi_left : leftmost c = hd 0 ys;
  qi_tasks : ∀ x, x ∈ ys → is_Some (m !! x);
  qi_sorted : StronglySorted (λ x y, tkey m x ≤ tkey m y) ys;
}.

(** ** Sequences *)

Lemma sorted_ext m m' ys :
  (∀ x, x ∈ ys → tkey m' x = tkey m x) →
  StronglySorted (λ x y, tkey m x ≤ tkey m y) ys → StronglySorted (λ x y, tkey m' x ≤ tkey m' y) ys.
Proof.
  intros He. induction 1 as [|x ys _ IH Hx]; constructor; [apply IH; set_solver|].
  apply Forall_forall. intros y Hy. rewrite !He by set_solver. by eapply Forall_forall in Hx.
Qed.

Lemma sorted_insert m k a ys1 ys2 :
  StronglySorted (λ x y, tkey m x ≤ tkey m y) (ys1 ++ ys2) → tkey m a = k →
  Forall (λ x, tkey m x ≤ k) ys1 → Forall (λ x, k < tkey m x) ys2 →
  StronglySorted (λ x y, tkey m x ≤ tkey m y) (ys1 ++ a :: ys2).
Proof.
  rewrite !StronglySorted_app. intros (Hx & H1 & H2) <- Ha1 Ha2. split_and!; [|done|].
  - intros x y Hx1 [->|Hy]%elem_of_cons; [|by apply Hx]. by eapply Forall_forall in Ha1.
  - constructor; [done|]. eapply Forall_impl; [exact Ha2|]. simpl. lia.
Qed.

Lemma queue_insert_split m k a ys1 ys2 :
  Forall (λ x, tkey m x ≤ k) ys1 → Forall (λ x, k < tkey m x) ys2 → queue_insert m k a (ys1 ++ ys2) = ys1 ++ a :: ys2.
Proof.
  intros H1 H2. unfold queue_insert. rewrite !filter_app.
  rewrite (filter_all (λ x, tkey m x ≤ k) ys1), (filter_all (λ x, k < tkey m x) ys2) by done.
  rewrite (filter_none (λ x, tkey m x ≤ k) ys2), (filter_none (λ x, k < tkey m x) ys1).
  - by rewrite app_nil_r.
  - eapply Forall_impl; [exact H1|]. simpl. lia.
  - eapply Forall_impl; [exact H2|]. simpl. lia.
Qed.

Lemma queue_insert_elem m k a ys x : x ∈ queue_insert m k a ys ↔ x = a ∨ x ∈ ys.
Proof.
  unfold queue_insert. rewrite elem_of_app, elem_of_cons, !list_elem_of_filter.
  destruct (Z.le_gt_cases (tkey m x) k); naive_solver lia.
Qed.

Lemma queue_insert_length m k a ys : length (queue_insert m k a ys) = S (length ys).
Proof.
  unfold queue_insert. rewrite length_app. simpl. rewrite Nat.add_succ_r. f_equal.
  induction ys as [|y ys IH]; [done|]. rewrite !filter_cons. repeat case_decide; simpl; lia.
Qed.

(** The head stays in front of a task whose key is not less. *)
Lemma queue_insert_head m k a c ys : tkey m c ≤ k → ∃ ys', queue_insert m k a (c :: ys) = c :: ys'.
Proof. intros H. unfold queue_insert. rewrite (filter_cons _ c ys), decide_True by done. eexists. done. Qed.

(** ** The operations on the tree *)

Lemma wp_in_running {A} (c : stm HevRBTreeCached A) s Q :
  wp c (running_tasks s) (λ a t, Q a (cx_set_tree t s)) → wp (in_running c) s Q.
Proof. apply wp_zoom. Qed.

Lemma wp_in_base {A} (c : stm HevRBTree A) s Q :
  wp c (rc_base s) (λ a t, Q a (mk_cached t (leftmost s))) → wp (in_base c) s Q.
Proof. exact (wp_zoom rc_base (λ b c, mk_cached b (leftmost c)) c s Q). Qed.

Lemma wp_task_load s a t (Q : HevTask → HevTaskSystemContext → Prop) :
  tk_tasks s !! a = Some t → Q t s → wp (task_load a) s Q.
Proof. intros H HQ. unfold wp, task_load. by rewrite H. Qed.

Lemma wp_task_update s a f t (Q : unit → HevTaskSystemContext → Prop) :
  tk_tasks s !! a = Some t → Q tt (cx_set_tasks (<[a := f t]> (tk_tasks s)) s) → wp (task_update a f) s Q.
Proof. intros H HQ. unfold wp, task_update. by rewrite H. Qed.

Lemma cx_set_tree_id s : cx_set_tree (running_tasks s) s = s.
Proof. by destruct s. Qed.
Lemma mk_cached_id c : mk_cached (rc_base c) (leftmost c) = c.
Proof. by destruct c. Qed.

(** The descent as a sign function. *)
Definition descent (m : gmap Z HevTask) (k x : Z) : Z := if k <? tkey m x then -1 else 1.

Lemma descent_left m k x : (descent m k x <? 0) = (k <? tkey m x).
Proof. unfold descent. by destruct (k <? tkey m x). Qed.
Lemma descent_right m k x : (0 <? descent m k x) = negb (k <? tkey m x).
Proof. unfold descent. by destruct (k <? tkey m x). Qed.

Lemma locate_descent m key k t : (locate (descent m key) k t).2 = E.
Proof.
  revert k. induction t as [|c l IHl a r IHr]; intros k; simpl; [done|].
  rewrite descent_left, descent_right. by destruct (key <? tkey m a); simpl.
Qed.

Lemma sorted_separates m key ys :
  StronglySorted (λ x y, tkey m x ≤ tkey m y) ys → StronglySorted (separates (descent m key)) ys.
Proof.
  induction 1 as [|x xs _ IH Hx]; constructor; [done|]. eapply Forall_impl; [exact Hx|].
  intros y Hxy. unfold separates, descent. simpl in Hxy.
  destruct (Z.ltb_spec key (tkey m y)); [left; lia|]. destruct (Z.ltb_spec key (tkey m x)); [lia|right; lia].
Qed.

Lemma wp_insert_task_loop fuel s key k t F :
  rbrep (rc_base (running_tasks s)) k t F → (∀ x, x ∈ inorder (plug k t) → is_Some (tk_tasks s !! x)) →
  (height t < fuel)%nat →
  wp (insert_task_loop fuel key (link_of k) (cpar k) (bool_decide (kleft k = []))) s (λ r s', s' = s ∧
    let k' := (locate (descent (tk_tasks s) key) k t).1 in
    r = (link_of k', cpar k', bool_decide (kleft k' = []))).
Proof.
  revert k t. induction fuel as [|fuel IH]; intros k t Ht Hsub Hf; [lia|]. simpl.
  apply wp_bind, wp_in_running, wp_in_base. eapply wp_get_link; [exact Ht|].
  rewrite mk_cached_id, cx_set_tree_id. destruct t as [|c l a r]; [by apply wp_ret|]. simpl in *.
  assert (rbrep (rc_base (running_tasks s)) (Lf c a r :: k) l F) as Hl by (by apply rbrep_plug, (rbrep_plug _ k), Ht).
  pose proof (rbrep_faddr _ _ _ _ _ Hl) as Hp. simpl in Hp.
  apply is_ptr_nonzero, Z.eqb_neq in Hp as ->.
  destruct (Hsub a) as [ta Hta]; [rewrite inorder_plug; set_solver|].
  apply wp_bind. eapply wp_task_load; [exact Hta|]. rewrite descent_left, descent_right.
  assert (sched_key ta = tkey (tk_tasks s) a) as -> by (unfold tkey; by rewrite Hta).
  destruct (key <? tkey (tk_tasks s) a); simpl.
  - apply (IH (Lf c a r :: k) l); [done|done|lia].
  - replace false with (bool_decide (kleft (Rf c l a :: k) = []))
      by (apply bool_decide_eq_false; simpl; destruct (kleft k), (inorder l); done).
    apply (IH (Rf c l a :: k) r); [|done|lia]. by apply rbrep_plug, (rbrep_plug _ k), Ht.
Qed.

(** ** The tree with its first node *)

Definition cached_is (c : HevRBTreeCached) (ys : list Z) (F : list (Z * HevRBTreeNode)) : Prop :=
  rb_done (rc_base c) ys F ∧ leftmost c = hd 0 ys.

(** A node is linked in at the place where a descent has ended. *)
Lemma wp_cached_insert fuel c k a n F :
  rbrep (rc_base c) k E ((a, n) :: F) → redblack (plug k E) → (length k < fuel)%nat →
  leftmost c = hd 0 (kleft k ++ kright k) →
  wp (in_base (hev_rbtree_node_link a (cpar k) (link_of k))) c
    (λ _ c1, wp (hev_rbtree_cached_insert_color fuel a (bool_decide (kleft k = []))) c1
      (λ _ c', cached_is c' (kleft k ++ a :: kright k) F)).
Proof.
  intros Ht Hrb Hf Hleft. apply wp_in_base.
  eapply wp_mono; [exact (wp_bind_inv _ _ _ _ (wp_rb_insert fuel _ k a n F Ht Hrb Hf))|].
  intros [] t1 Hins. unfold hev_rbtree_cached_insert_color. apply wp_bind.
  set (left := if bool_decide (kleft k = []) then a else leftmost c).
  eapply (wp_of_run _ _ tt (mk_cached t1 left)); [subst left; by destruct (bool_decide _)|].
  apply wp_in_base. simpl. eapply wp_mono; [exact Hins|]. intros [] t2 Hdone. split; simpl; [done|].
  subst left. case_bool_decide as Hk; [by rewrite Hk|]. rewrite Hleft. by destruct (kleft k).
Qed.

Lemma wp_cached_erase_at fuel c a ys1 ys2 F :
  cached_is c (ys1 ++ a :: ys2) F → (length (ys1 ++ a :: ys2) ≤ fuel)%nat →
  wp (hev_rbtree_cached_erase fuel a) c (λ _ c', ∃ n, cached_is c' (ys1 ++ ys2) ((a, n) :: F)).
Proof.
  intros [Ht Hl] Hf. unfold hev_rbtree_cached_erase. apply wp_bind, wp_gets. rewrite Hl. apply wp_bind.
  destruct ys1 as [|y ys1]; simpl in *.
  - rewrite Z.eqb_refl. apply wp_bind, wp_in_base.
    eapply wp_mono; [apply (wp_rb_next fuel _ [] a ys2 F Ht); done|]. intros r t' [-> ->].
    apply wp_modify, wp_in_base. eapply wp_mono; [apply (wp_rb_erase fuel _ [] a ys2 F Ht); done|].
    intros [] t' [n Hd]. exists n. split; simpl; [done|by destruct ys2].
  - assert (a ≠ y) as Hne.
    { intros ->. apply rb_done_NoDup in Ht. simpl in Ht. apply NoDup_cons in Ht as [Hn _]. set_solver. }
    apply Z.eqb_neq in Hne as ->. apply wp_ret, wp_in_base.
    eapply wp_mono; [apply (wp_rb_erase fuel _ (y :: ys1) a ys2 F Ht); done|].
    intros [] t' [n Hd]. exists n. by split.
Qed.

Lemma wp_raw_insert s ys F a n t :
  queue_is (running_tasks s) (tk_tasks s) ys ((a, n) :: F) → tk_tasks s !! a = Some t →
  wp (_hev_task_system_insert_task a) s (λ _ s', ∃ c', s' = cx_set_tree c' s ∧
    queue_is c' (tk_tasks s) (queue_insert (tk_tasks s) (sched_key t) a ys) F).
Proof.
  intros [(tr & Ht & Hrb & Hin) Hleft Htasks Hsort] Hta. set (m := tk_tasks s) in *.
  apply wp_bind. eapply wp_task_load; [exact Hta|]. apply wp_bind, wp_gets, wp_bind.
  assert (tsize tr < cx_fuel s)%nat as Hf.
  { unfold cx_fuel. destruct Ht as [Hm _]. rewrite (heap_size _ _ Hm), length_app.
    rewrite tsize_inorder, <-(Permutation_length (cells_fst 0 tr)), length_fmap. simpl. lia. }
  pose proof (height_tsize tr) as Hh.
  eapply wp_mono; [eapply (wp_insert_task_loop _ s (sched_key t) [] tr); [exact Ht| |lia]|].
  { simpl. rewrite Hin. exact Htasks. }
  intros r s' [-> ->]. fold m. pose proof (locate_plug (descent m (sched_key t)) [] tr) as Hpl.
  pose proof (locate_descent m (sched_key t) [] tr) as HE.
  destruct (locate_miss (descent m (sched_key t)) [] tr HE) as [Hkl Hkr];
    [rewrite Hin; by apply sorted_separates|constructor|constructor|].
  destruct (locate _ [] tr) as [k e] eqn:Hloc. simpl in *. subst e tr. rewrite inorder_plug in Hin. simpl in Hin.
  apply (rbrep_plug _ k) in Ht. pose proof (ctx_length k) as Hck. rewrite <-length_app, Hin in Hck.
  rewrite tsize_inorder, inorder_plug, length_app in Hf. simpl in Hf. rewrite <-length_app, Hin in Hf.
  assert (Forall (λ x, tkey m x ≤ sched_key t) (kleft k)) as H1.
  { eapply Forall_impl; [exact Hkl|]. intros x. unfold descent. case_match; lia. }
  assert (Forall (λ x, sched_key t < tkey m x) (kright k)) as H2.
  { eapply Forall_impl; [exact Hkr|]. intros x. unfold descent. case_match; lia. }
  apply wp_bind, wp_in_running.
  eapply wp_mono; [apply (wp_cached_insert (cx_fuel s) _ k a n F Ht Hrb ltac:(lia)); by rewrite Hleft, <-Hin|].
  intros [] c1 Hins. apply wp_in_running. eapply wp_mono; [exact Hins|]. intros [] c2 [Hdone Hl2]. eexists. split; [done|].
  rewrite <-Hin, queue_insert_split by done. split; simpl; [done|done| |].
  - intros x. rewrite elem_of_app, elem_of_cons. intros [Hx|[-> | Hx]]; [|done|]; apply Htasks; set_solver.
  - eapply sorted_insert; [by rewrite Hin| |done|done]. unfold tkey. by rewrite Hta.
Qed.

Lemma wp_cached_erase fuel c m a ys F :
  queue_is c m (a :: ys) F → (length (a :: ys) ≤ fuel)%nat →
  wp (hev_rbtree_cached_erase fuel a) c (λ _ c', ∃ n, queue_is c' m ys ((a, n) :: F)).
Proof.
  intros [Ht Hl Hm Hs] Hf. eapply wp_mono; [apply (wp_cached_erase_at fuel c a [] ys F); done|].
  intros [] c' (n & Hd & Hl'). exists n. split; [done|done|set_solver|].
  by apply StronglySorted_cons in Hs as [_ ?].
Qed.
