(* ===== verification/TaskSystemRun.v ===== *)
(** * The scheduler: its operations on the run queue *)

From stdpp Require Import sorting.
From S2P Require Import Prelude RBTree RBTreeRep RBTreeInsert RBTreeErase RBTreeIter RBTreeSearch TaskSystem TaskSystemQueue.

(** ** The invariant *)

Definition min_key (m : gmap Z HevTask) (ys : list Z) : Z := match ys with [] => 0 | y :: _ => tkey m y end.

(** The tasks of the system: those that run or wait. *)
Definition n_active (m : gmap Z HevTask) : nat := size (filter (λ x, tk_state x.2 ≠ HEV_TASK_STOPPED) m).

(** A task whose key is at most [B]; a waiting task has the key it is woken up
    with, its priority. *)
Record task_ok (B : Z) (t : HevTask) : Prop := {
  to_key : 0 ≤ sched_key t ≤ B;
  to_ref : 1 ≤ tk_ref t < 2 ^ 31;
  to_priority : 0 ≤ priority t ≤ HEV_TASK_PRIORITY_MAX;
  to_next : 0 ≤ next_priority t ≤ HEV_TASK_PRIORITY_MAX;
  to_wait : tk_state t = HEV_TASK_WAITING → sched_key t ≤ HEV_TASK_PRIORITY_MAX;
}.

Record sched_is (B : Z) (s : HevTaskSystemContext) (ys : list Z) (F : list (Z * HevRBTreeNode)) : Prop := {
  sc_queue : queue_is (running_tasks s) (tk_tasks s) ys F;
  sc_dom : ∀ a, is_Some (tk_tasks s !! a) ↔ a ∈ ys ++ F.*1;
  sc_ok : ∀ a t, tk_tasks s !! a = Some t → task_ok B t ∧ (tk_state t = HEV_TASK_RUNNING ↔ a ∈ ys);
  sc_running : running_task_count s = Z.of_nat (length ys);
  sc_total : total_task_count s = Z.of_nat (n_active (tk_tasks s));
  sc_size : Z.of_nat (size (tk_tasks s)) < 2 ^ 32;
}.

(** ** Facts *)

Lemma tkey_insert m a t : tkey (<[a := t]> m) a = sched_key t.
Proof. unfold tkey. by rewrite lookup_insert_eq. Qed.
Lemma tkey_insert_ne m a b t : a ≠ b → tkey (<[a := t]> m) b = tkey m b.
Proof. intros H. unfold tkey. by rewrite lookup_insert_ne. Qed.
Lemma tkey_lookup m a t : m !! a = Some t → tkey m a = sched_key t.
Proof. intros H. unfold tkey. by rewrite H. Qed.

Lemma queue_insert_ext m m' k a ys :
  (∀ x, x ∈ ys → tkey m' x = tkey m x) → queue_insert m' k a ys = queue_insert m k a ys.
Proof.
  intros H. unfold queue_insert.
  f_equal; [|f_equal]; induction ys as [|y ys IH]; try done;
    rewrite !filter_cons, (H y) by set_solver; rewrite IH by set_solver; done.
Qed.

Lemma queue_is_ext c m m' ys F :
  (∀ x, x ∈ ys → tkey m' x = tkey m x) → (∀ x, x ∈ ys → is_Some (m' !! x)) → queue_is c m ys F → queue_is c m' ys F.
Proof. intros He Hd [Ht Hl _ Hs]. split; [done|done|done|]. by eapply sorted_ext. Qed.

Lemma queue_is_perm c m ys F F' : queue_is c m ys F → F ≡ₚ F' → queue_is c m ys F'.
Proof. intros [Ht Hl Hd Hs] HP. split; try done. by eapply rb_done_perm. Qed.

Lemma n_active_fresh (m : gmap Z HevTask) a (t : HevTask) : m !! a = None →
  n_active (<[a := t]> m) = (n_active m + (if decide (tk_state t ≠ HEV_TASK_STOPPED) then 1 else 0))%nat.
Proof.
  intros Ha. unfold n_active. rewrite map_filter_insert. simpl. case_decide as Ht.
  - rewrite map_size_insert_None; [lia|]. apply map_lookup_filter_None. by left.
  - rewrite delete_id by done. lia.
Qed.

(** Changing a task does not change the number of tasks that are active, unless
    it starts or stops. *)
Lemma n_active_insert (m : gmap Z HevTask) a (t t' : HevTask) : m !! a = Some t →
  (n_active (<[a := t']> m) + (if decide (tk_state t ≠ HEV_TASK_STOPPED) then 1 else 0))%nat =
  (n_active m + (if decide (tk_state t' ≠ HEV_TASK_STOPPED) then 1 else 0))%nat.
Proof.
  intros Ha. pose proof (n_active_fresh (delete a m) a) as Hf.
  rewrite <-(insert_delete_eq m a t'), (Hf t') by apply lookup_delete_eq.
  pose proof (Hf t (lookup_delete_eq _ _)) as Ht. rewrite insert_delete_id in Ht by done. lia.
Qed.

Lemma n_active_delete (m : gmap Z HevTask) a (t : HevTask) : m !! a = Some t → tk_state t = HEV_TASK_STOPPED →
  n_active (delete a m) = n_active m.
Proof.
  intros Ha Ht. pose proof (n_active_fresh (delete a m) a t (lookup_delete_eq _ _)) as Hf.
  rewrite insert_delete_id in Hf by done. rewrite decide_False in Hf by (by intros []). lia.
Qed.

Lemma n_active_size m : (n_active m ≤ size m)%nat.
Proof. apply map_size_filter. Qed.

Lemma sched_NoDup B s ys F : sched_is B s ys F → NoDup (ys ++ F.*1).
Proof. intros H. eapply rb_done_NoDup, (qi_tree _ _ _ _ (sc_queue _ _ _ _ H)). Qed.

Lemma sched_fuel B s ys F : sched_is B s ys F → (length ys ≤ cx_fuel s)%nat.
Proof.
  intros H. destruct (qi_tree _ _ _ _ (sc_queue _ _ _ _ H)) as (tr & Ht & _ & <-). destruct Ht as [Hm _].
  unfold cx_fuel. rewrite (heap_size _ _ Hm), length_app, <-(Permutation_length (cells_fst 0 tr)), length_fmap. simpl. lia.
Qed.

(** The queue is not longer than the tasks are many. *)
Lemma sched_length B s ys F : sched_is B s ys F → (length ys ≤ n_active (tk_tasks s))%nat.
Proof.
  intros H. pose proof (sched_NoDup _ _ _ _ H) as Hn. apply NoDup_app in Hn as (Hn & _ & _).
  rewrite <-(size_list_to_set (C := gset Z) ys) by done. unfold n_active. rewrite <-size_dom.
  apply subseteq_size. intros x Hx%elem_of_list_to_set. apply elem_of_dom.
  destruct (proj2 (sc_dom _ _ _ _ H x)) as [t Ht]; [set_solver|]. exists t.
  apply map_lookup_filter_Some. split; [done|]. simpl.
  apply (proj2 (sc_ok _ _ _ _ H x t Ht)) in Hx. by rewrite Hx.
Qed.

Lemma task_ok_mono B B' t : B ≤ B' → task_ok B t → task_ok B' t.
Proof. intros HB [? ? ? ? ?]. split; try done. lia. Qed.

(** A task outside the queue is in the memory of the tree. *)
Lemma sched_outside B s ys F a t : sched_is B s ys F → tk_tasks s !! a = Some t → a ∉ ys →
  ∃ n F', F ≡ₚ (a, n) :: F'.
Proof.
  intros H Ha Hn. assert (a ∈ F.*1) as Hin by (pose proof (proj1 (sc_dom _ _ _ _ H a) ltac:(by eexists)); set_solver).
  apply list_elem_of_fmap in Hin as ([b n] & -> & Hin). apply list_elem_of_split in Hin as (F1 & F2 & ->).
  exists n, (F1 ++ F2). simpl. solve_Permutation.
Qed.

(** ** The operations *)

Lemma wp_min_key s ys F (Q : Z → HevTaskSystemContext → Prop) :
  queue_is (running_tasks s) (tk_tasks s) ys F → Q (min_key (tk_tasks s) ys) s → wp hev_task_system_get_min_sched_key s Q.
Proof.
  intros [Ht Hl Hd _] HQ. unfold hev_task_system_get_min_sched_key, hev_rbtree_cached_first.
  apply wp_bind, wp_gets. rewrite Hl. destruct ys as [|y ys]; simpl; [by apply wp_ret|].
  pose proof (rb_done_ptr _ _ _ y Ht ltac:(set_solver)) as Hp. apply is_ptr_nonzero, Z.eqb_neq in Hp as ->.
  destruct (Hd y ltac:(set_solver)) as [t Hy]. apply wp_bind. eapply wp_task_load; [exact Hy|]. apply wp_ret.
  simpl in HQ. by rewrite (tkey_lookup _ _ _ Hy) in HQ.
Qed.

(** A task with its key becomes ready. *)
Definition ready (k : Z) (t : HevTask) : HevTask :=
  tk_set_priority (next_priority t) (tk_set_state HEV_TASK_RUNNING (tk_set_key k t)).

Lemma wp_sys_insert s ys F a n t :
  queue_is (running_tasks s) (tk_tasks s) ys ((a, n) :: F) → a ∉ ys → tk_tasks s !! a = Some t →
  wp (hev_task_system_insert_task a) s (λ _ s', ∃ c', let m := <[a := ready (sched_key t) t]> (tk_tasks s) in
    s' = mk_ctx (total_task_count s) (u32 (running_task_count s + 1)) (current_task s) c' m ∧
    queue_is c' m (queue_insert (tk_tasks s) (sched_key t) a ys) F).
Proof.
  intros Hq Ha Ht. unfold hev_task_system_insert_task. apply wp_bind. eapply wp_task_update; [exact Ht|].
  set (m := <[a := _]> (tk_tasks s)). apply wp_bind.
  assert (∀ x, x ∈ ys → tkey m x = tkey (tk_tasks s) x) as He.
  { intros x Hx. subst m. apply tkey_insert_ne. by intros ->. }
  eapply wp_mono; [eapply wp_raw_insert|].
  - simpl. eapply queue_is_ext; [exact He| |exact Hq]. intros x Hx. subst m.
    rewrite lookup_insert_ne by (by intros ->). by apply (qi_tasks _ _ _ _ Hq).
  - simpl. subst m. apply lookup_insert_eq.
  - intros [] s' (c' & -> & Hq'). apply wp_modify. exists c'. cbn zeta. split; [done|]. simpl in Hq'.
    rewrite (queue_insert_ext _ _ _ _ _ He) in Hq'. by destruct t.
Qed.

Lemma task_ok_ready B B' k t : task_ok B t → 0 ≤ k ≤ B' → task_ok B' (ready k t).
Proof. intros [? ? ? ? ?] Hk. split; simpl; try done. Qed.

(** The invariant when [a] has entered the queue. *)
Lemma sched_enter B B' s ys F F' a n t k total c' :
  sched_is B s ys F → tk_tasks s !! a = Some t → a ∉ ys → F ≡ₚ (a, n) :: F' → 0 ≤ k ≤ B' → B ≤ B' →
  let m := <[a := ready k t]> (tk_tasks s) in
  queue_is c' m (queue_insert (tk_tasks s) k a ys) F' → total = Z.of_nat (n_active m) →
  sched_is B' (mk_ctx total (u32 (running_task_count s + 1)) (current_task s) c' m)
    (queue_insert (tk_tasks s) k a ys) F'.
Proof.
  intros H Ht Ha HF Hk HB m Hq Htot. pose proof (sched_length _ _ _ _ H) as Hl. pose proof (n_active_size (tk_tasks s)).
  pose proof (sc_size _ _ _ _ H) as Hsz.
  assert (size m = size (tk_tasks s)) as Hm by (subst m; by apply map_size_insert_Some).
  assert (length (queue_insert (tk_tasks s) k a ys) ≤ size m)%nat as Hlen.
  { assert (NoDup (queue_insert (tk_tasks s) k a ys)) as Hnd
      by (pose proof (rb_done_NoDup _ _ _ (qi_tree _ _ _ _ Hq)) as Hnd; by apply NoDup_app in Hnd as (? & _ & _)).
    rewrite <-(size_list_to_set (C := gset Z)) by done. rewrite <-size_dom. apply subseteq_size.
    intros x Hx%elem_of_list_to_set. apply elem_of_dom. by apply (qi_tasks _ _ _ _ Hq). }
  rewrite queue_insert_length in Hlen. split; simpl; [done| | | |done|by rewrite Hm].
  - intros b. rewrite elem_of_app, queue_insert_elem. pose proof (sc_dom _ _ _ _ H b) as Hd. rewrite HF in Hd. simpl in Hd.
    rewrite elem_of_app, elem_of_cons in Hd. subst m. destruct (decide (a = b)) as [<-|Hne].
    + rewrite lookup_insert_eq. naive_solver.
    + rewrite lookup_insert_ne by done. naive_solver.
  - intros b tb. rewrite queue_insert_elem. subst m. destruct (decide (a = b)) as [<-|Hne].
    + rewrite lookup_insert_eq. intros [= <-]. split; [|naive_solver]. eapply task_ok_ready; [by eapply (sc_ok _ _ _ _ H)|done].
    + rewrite lookup_insert_ne by done. intros Hb. destruct (sc_ok _ _ _ _ H b tb Hb) as [Hok Hr].
      split; [by eapply task_ok_mono|naive_solver].
  - rewrite (sc_running _ _ _ _ H), u32_small by lia. rewrite queue_insert_length. lia.
Qed.

Lemma min_key_bound B s ys F : 0 ≤ B → sched_is B s ys F → 0 ≤ min_key (tk_tasks s) ys ≤ B.
Proof.
  intros HB H. destruct ys as [|y ys]; simpl; [lia|].
  destruct (qi_tasks _ _ _ _ (sc_queue _ _ _ _ H) y) as [t Ht]; [set_solver|]. rewrite (tkey_lookup _ _ _ Ht).
  by apply (sc_ok _ _ _ _ H y t).
Qed.

(** What [hev_task_wakeup] does to a task that waits. *)
Lemma wp_wakeup B s ys F a t :
  sched_is B s ys F → 0 ≤ B → B + 15 < 2 ^ 64 → tk_tasks s !! a = Some t → tk_state t = HEV_TASK_WAITING →
  let k := sched_key t + min_key (tk_tasks s) ys in
  wp (hev_task_system_wakeup_task a) s (λ _ s', ∃ F', sched_is (B + 15) s' (queue_insert (tk_tasks s) k a ys) F' ∧
    tk_tasks s' = <[a := ready k t]> (tk_tasks s) ∧ current_task s' = current_task s).
Proof.
  intros H HB0 HB Ht Hst k. destruct (sc_ok _ _ _ _ H a t Ht) as [Hok Hr].
  assert (a ∉ ys) as Ha by (rewrite <-Hr, Hst; done).
  destruct (sched_outside _ _ _ _ _ _ H Ht Ha) as (n & F' & HF).
  pose proof (min_key_bound _ _ _ _ HB0 H) as Hmin. pose proof (to_wait _ _ Hok Hst) as Hw.
  pose proof (to_key _ _ Hok) as Hk0. unfold HEV_TASK_PRIORITY_MAX in *.
  unfold hev_task_system_wakeup_task. apply wp_bind. eapply wp_task_load; [exact Ht|]. rewrite Hst.
  apply wp_bind. eapply wp_min_key; [exact (sc_queue _ _ _ _ H)|]. apply wp_bind. eapply wp_task_update; [exact Ht|].
  rewrite u64_small by lia. fold k. set (s1 := cx_set_tasks _ s).
  eapply wp_mono; [eapply (wp_sys_insert s1 ys F' a n (tk_set_key k t)); [|done|by apply lookup_insert_eq]|].
  - simpl. eapply queue_is_perm; [|exact HF]. eapply queue_is_ext; [| |exact (sc_queue _ _ _ _ H)].
    + intros x Hx. apply tkey_insert_ne. by intros ->.
    + intros x Hx. rewrite lookup_insert_ne by (by intros ->). by apply (qi_tasks _ _ _ _ (sc_queue _ _ _ _ H)).
  - intros [] s' (c' & -> & Hq). simpl in *. rewrite insert_insert_eq in *.
    change (ready k (tk_set_key k t)) with (ready k t) in *.
    rewrite (queue_insert_ext (tk_tasks s)) in Hq by (intros x Hx; apply tkey_insert_ne; by intros ->).
    exists F'. split_and!; [|done|done]. eapply sched_enter; try done; [lia|lia|].
    rewrite (sc_total _ _ _ _ H). pose proof (n_active_insert _ a t (ready k t) Ht) as Hn.
    rewrite Hst in Hn. simpl in Hn. lia.
Qed.

(** A new task, or one that has ended, is run. *)
Lemma wp_task_run B s ys F a t :
  sched_is B s ys F → 0 ≤ B → B + 15 < 2 ^ 64 → tk_tasks s !! a = Some t → tk_state t = HEV_TASK_STOPPED →
  let k := next_priority t + (if current_task s =? 0 then 0 else min_key (tk_tasks s) ys) in
  wp (hev_task_run a) s (λ _ s', ∃ F', sched_is (B + 15) s' (queue_insert (tk_tasks s) k a ys) F' ∧
    tk_tasks s' = <[a := ready k t]> (tk_tasks s) ∧ current_task s' = current_task s).
Proof.
  intros H HB0 HB Ht Hst k. destruct (sc_ok _ _ _ _ H a t Ht) as [Hok Hr].
  assert (a ∉ ys) as Ha by (rewrite <-Hr, Hst; done).
  destruct (sched_outside _ _ _ _ _ _ H Ht Ha) as (n & F' & HF).
  pose proof (min_key_bound _ _ _ _ HB0 H) as Hmin. pose proof (to_next _ _ Hok) as Hnp. unfold HEV_TASK_PRIORITY_MAX in *.
  assert (∀ m', (∀ x, x ≠ a → m' !! x = tk_tasks s !! x) → queue_is (running_tasks s) m' ys ((a, n) :: F')) as Hq.
  { intros m' He. eapply queue_is_perm; [|exact HF]. eapply queue_is_ext; [| |exact (sc_queue _ _ _ _ H)].
    - intros x Hx. unfold tkey. rewrite He; [done|by intros ->].
    - intros x Hx. rewrite He by (by intros ->). by apply (qi_tasks _ _ _ _ (sc_queue _ _ _ _ H)). }
  unfold hev_task_run. apply wp_bind. eapply wp_task_load; [exact Ht|]. rewrite Hst.
  apply wp_bind. eapply wp_task_update; [exact Ht|]. apply wp_bind, wp_gets, wp_bind.
  set (t1 := tk_set_key (next_priority t) _). set (s1 := cx_set_tasks _ s).
  apply (wp_mono _ _ (λ _ s', s' = cx_set_tasks (<[a := tk_set_key k t1]> (tk_tasks s)) s)).
  { simpl. subst k. destruct (current_task s =? 0).
    - apply wp_ret. subst s1 t1. by rewrite Z.add_0_r.
    - assert (min_key (tk_tasks s1) ys = min_key (tk_tasks s) ys) as Hmk.
      { destruct ys as [|y ys]; simpl; [done|]. apply tkey_insert_ne. set_solver. }
      apply wp_bind. eapply wp_min_key; [apply Hq; intros x Hx; by apply lookup_insert_ne|].
      rewrite Hmk. eapply wp_task_update; [apply lookup_insert_eq|]. subst s1. unfold cx_set_tasks at 1. simpl.
      rewrite insert_insert_eq, u64_small by lia. done. }
  intros [] s' ->. apply wp_bind.
  eapply wp_mono; [eapply (wp_sys_insert _ ys F' a n (tk_set_key k t1)); [|done|by apply lookup_insert_eq]|].
  { simpl. apply Hq. intros x Hx. by rewrite lookup_insert_ne. }
  intros [] s' (c' & -> & Hq'). apply wp_modify. simpl in *. rewrite insert_insert_eq in *.
  change (ready k (tk_set_key k t1)) with (ready k t) in *.
  rewrite (queue_insert_ext (tk_tasks s)) in Hq' by (intros x Hx; apply tkey_insert_ne; by intros ->).
  pose proof (n_active_insert _ a t (ready k t) Ht) as Hn. rewrite Hst in Hn. simpl in Hn.
  assert (size (<[a := ready k t]> (tk_tasks s)) = size (tk_tasks s)) as Hsz by (by apply map_size_insert_Some).
  pose proof (n_active_size (<[a := ready k t]> (tk_tasks s))) as Hna. pose proof (sc_size _ _ _ _ H).
  exists F'. split_and!; [|done|done]. unfold cx_set_total. simpl. eapply sched_enter; try done.
  - subst k. destruct (current_task s =? 0); lia.
  - lia.
  - rewrite (sc_total _ _ _ _ H), u32_small by lia. lia.
Qed.

(** The current task, the first of the queue, leaves it. *)
Lemma sched_leave B s c ys F n t t' total c' :
  sched_is B s (c :: ys) F → tk_tasks s !! c = Some t → task_ok B t' → tk_state t' ≠ HEV_TASK_RUNNING →
  queue_is c' (tk_tasks s) ys ((c, n) :: F) → let m := <[c := t']> (tk_tasks s) in total = Z.of_nat (n_active m) →
  sched_is B (mk_ctx total (u32 (running_task_count s - 1)) (current_task s) c' m) ys ((c, n) :: F).
Proof.
  intros H Ht Hok Hst Hq m Htot. pose proof (sched_length _ _ _ _ H) as Hl. pose proof (n_active_size (tk_tasks s)).
  pose proof (sc_size _ _ _ _ H) as Hsz. simpl in Hl.
  assert (size m = size (tk_tasks s)) as Hm by (subst m; by apply map_size_insert_Some).
  pose proof (sched_NoDup _ _ _ _ H) as Hnd. simpl in Hnd. apply NoDup_cons in Hnd as [Hc _].
  split; simpl; [| | | |done|by rewrite Hm].
  - eapply queue_is_ext; [| |exact Hq]; intros x Hx; subst m; assert (c ≠ x) by set_solver.
    + by apply tkey_insert_ne.
    + rewrite lookup_insert_ne by done. by apply (qi_tasks _ _ _ _ Hq).
  - intros b. pose proof (sc_dom _ _ _ _ H b) as Hd. simpl in Hd. subst m. destruct (decide (c = b)) as [<-|Hne].
    + rewrite lookup_insert_eq. set_solver.
    + rewrite lookup_insert_ne by done. rewrite Hd. set_solver.
  - intros b tb. subst m. destruct (decide (c = b)) as [<-|Hne].
    + rewrite lookup_insert_eq. intros [= <-]. split; [done|]. set_solver.
    + rewrite lookup_insert_ne by done. intros Hb. destruct (sc_ok _ _ _ _ H b tb Hb) as [Hb1 Hb2]. split; [done|]. set_solver.
  - rewrite (sc_running _ _ _ _ H). simpl. rewrite u32_small by lia. lia.
Qed.

(** The current task stays in the queue with another key. *)
Lemma sched_requeue B B' s c ys F t t' k c' :
  sched_is B s (c :: ys) F → tk_tasks s !! c = Some t → B ≤ B' → task_ok B' t' → tk_state t' = HEV_TASK_RUNNING →
  let m := <[c := t']> (tk_tasks s) in
  queue_is c' m (queue_insert (tk_tasks s) k c ys) F →
  sched_is B' (mk_ctx (total_task_count s) (running_task_count s) (current_task s) c' m)
    (queue_insert (tk_tasks s) k c ys) F.
Proof.
  intros H Ht HB Hok Hst m Hq. destruct (sc_ok _ _ _ _ H c t Ht) as [_ Hr].
  split; simpl; [done| | | | |].
  - intros b. rewrite elem_of_app, queue_insert_elem. pose proof (sc_dom _ _ _ _ H b) as Hd. simpl in Hd.
    subst m. destruct (decide (c = b)) as [<-|Hne].
    + rewrite lookup_insert_eq. naive_solver.
    + rewrite lookup_insert_ne by done. rewrite Hd. set_solver.
  - intros b tb. rewrite queue_insert_elem. subst m. destruct (decide (c = b)) as [<-|Hne].
    + rewrite lookup_insert_eq. intros [= <-]. split; [done|naive_solver].
    + rewrite lookup_insert_ne by done. intros Hb. destruct (sc_ok _ _ _ _ H b tb Hb) as [Hb1 Hb2].
      split; [by eapply task_ok_mono|set_solver].
  - rewrite (sc_running _ _ _ _ H). by rewrite queue_insert_length.
  - rewrite (sc_total _ _ _ _ H). pose proof (n_active_insert _ c t t' Ht) as Hn.
    rewrite Hst, (proj2 Hr) in Hn by set_solver. fold m in Hn. simpl in Hn. lia.
  - subst m. rewrite map_size_insert_Some by done. apply (sc_size _ _ _ _ H).
Qed.

(** ** The end of a turn *)

Definition waiting (t : HevTask) : HevTask := tk_set_key (next_priority t) (tk_set_state HEV_TASK_WAITING t).

Lemma wp_turn_wait B s c ys F t :
  sched_is B s (c :: ys) F → 15 ≤ B → current_task s = c → tk_tasks s !! c = Some t →
  wp (hev_task_system_update_sched_key;; hev_task_system_remove_current_task HEV_TASK_WAITING) s (λ _ s',
    ∃ F', sched_is B s' ys F' ∧ tk_tasks s' = <[c := waiting t]> (tk_tasks s)).
Proof.
  intros H HB Hc Ht. destruct (sc_ok _ _ _ _ H c t Ht) as [Hok Hr]. pose proof (sched_fuel _ _ _ _ H) as Hf.
  apply wp_bind. unfold hev_task_system_update_sched_key. apply wp_bind, wp_gets. rewrite Hc.
  eapply wp_task_update; [exact Ht|]. unfold hev_task_system_remove_current_task. apply wp_bind, wp_gets. simpl. rewrite Hc.
  apply wp_bind, wp_gets, wp_bind. eapply wp_task_update; [apply lookup_insert_eq|]. apply wp_bind, wp_in_running. simpl.
  eapply wp_mono; [eapply (wp_cached_erase _ _ (tk_tasks s)); [exact (sc_queue _ _ _ _ H)|exact Hf]|].
  intros [] c' [n Hq]. apply wp_bind, wp_modify. eapply wp_task_update; [apply lookup_insert_eq|]. simpl.
  rewrite !insert_insert_eq. exists ((c, n) :: F). split; [|by destruct t].
  destruct Hok as [? ? ? ? ?]. unfold HEV_TASK_PRIORITY_MAX in *.
  apply (sched_leave B s c ys F n t (waiting t) (total_task_count s) c'); try done; [split; simpl; intros; unfold HEV_TASK_PRIORITY_MAX; lia|].
  rewrite (sc_total _ _ _ _ H). simpl. pose proof (n_active_insert _ c t (waiting t) Ht) as Hn.
  rewrite (proj2 Hr) in Hn by set_solver. simpl in Hn. lia.
Qed.

(** The turn of a task that goes on: it is put behind the tasks with its new key. *)
Definition switched (t : HevTask) : HevTask :=
  tk_set_priority (next_priority t) (tk_set_key (sched_key t + priority t) t).

Lemma wp_turn_switch B s c ys F t :
  sched_is B s (c :: ys) F → B + 15 < 2 ^ 64 → current_task s = c → tk_tasks s !! c = Some t →
  wp (hev_task_system_update_sched_key;; hev_task_system_reinsert_current_task) s (λ _ s',
    ∃ F', sched_is (B + 15) s' (queue_insert (tk_tasks s) (sched_key t + priority t) c ys) F' ∧
      tk_tasks s' = <[c := switched t]> (tk_tasks s)).
Proof.
  intros H HB Hc Ht. destruct (sc_ok _ _ _ _ H c t Ht) as [Hok Hr]. pose proof (sched_fuel _ _ _ _ H) as Hf.
  pose proof (sched_NoDup _ _ _ _ H) as Hnd. simpl in Hnd. apply NoDup_cons in Hnd as [Hnc _].
  pose proof (to_key _ _ Hok). pose proof (to_priority _ _ Hok). unfold HEV_TASK_PRIORITY_MAX in *.
  apply wp_bind. unfold hev_task_system_update_sched_key. apply wp_bind, wp_gets. rewrite Hc.
  eapply wp_task_update; [exact Ht|]. rewrite Z.mul_1_l, u64_small by lia.
  unfold hev_task_system_reinsert_current_task. apply wp_bind, wp_gets. simpl. rewrite Hc.
  apply wp_bind, wp_gets, wp_bind. eapply wp_task_update; [apply lookup_insert_eq|]. apply wp_bind, wp_in_running. simpl.
  eapply wp_mono; [eapply (wp_cached_erase _ _ (tk_tasks s)); [exact (sc_queue _ _ _ _ H)|exact Hf]|].
  intros [] c' [n Hq]. rewrite insert_insert_eq.
  assert (∀ x, x ∈ ys → tkey (<[c := switched t]> (tk_tasks s)) x = tkey (tk_tasks s) x) as He.
  { intros x Hx. apply tkey_insert_ne. set_solver. }
  eapply wp_mono; [eapply (wp_raw_insert _ ys F c n (switched t)); simpl; [|by destruct t; apply lookup_insert_eq]|].
  - eapply queue_is_ext; [destruct t; exact He| |exact Hq]. intros x Hx. rewrite lookup_insert_ne by set_solver.
    by apply (qi_tasks _ _ _ _ Hq).
  - intros [] s' (c1 & -> & Hq'). simpl in *. exists F. split; [|by destruct t].
    replace (<[c:=tk_set_priority (next_priority t) (tk_set_key (sched_key t + priority t) t)]> (tk_tasks s))
      with (<[c := switched t]> (tk_tasks s)) in * by by destruct t.
    rewrite (queue_insert_ext _ _ _ _ _ He) in Hq'. change (sched_key (switched t)) with (sched_key t + priority t) in *.
    apply (sched_requeue B (B + 15) s c ys F t (switched t) (sched_key t + priority t) c1); try done; [lia| |by apply Hr, list_elem_of_here].
    destruct Hok as [? ? ? ? ?]. split; simpl; try done; [lia|]. rewrite (proj2 Hr) by apply list_elem_of_here. done.
Qed.

(** A task that has ended and that nobody else holds is released. *)
Lemma sched_free B s ys c n F t m' :
  sched_is B s ys ((c, n) :: F) → tk_tasks s !! c = Some t → tk_state t = HEV_TASK_STOPPED → m' = delete c (tk_tasks s) →
  let r := running_tasks s in
  sched_is B (mk_ctx (total_task_count s) (running_task_count s) (current_task s)
    (mk_cached (mk_rbtree (rb_root (rc_base r)) (delete c (rb_mem (rc_base r)))) (leftmost r)) m') ys F.
Proof.
  intros H Ht Hst -> r. pose proof (sched_NoDup _ _ _ _ H) as Hnd. simpl in Hnd.
  apply NoDup_app in Hnd as (_ & Hd & [Hc _]%NoDup_cons).
  assert (∀ x, x ∈ ys → c ≠ x) as Hne by set_solver.
  destruct (sc_queue _ _ _ _ H) as [Htr Hl Hm Hs]. split; simpl; [split; simpl| | | | |].
  - by eapply rb_done_free.
  - done.
  - intros x Hx. rewrite lookup_delete_ne by auto. by apply Hm.
  - eapply sorted_ext; [|exact Hs]. intros x Hx. unfold tkey. by rewrite lookup_delete_ne by auto.
  - intros a. pose proof (sc_dom _ _ _ _ H a) as Ha. simpl in Ha. destruct (decide (c = a)) as [<-|Hca].
    + rewrite lookup_delete_eq. split; [by intros []|]. set_solver.
    + rewrite lookup_delete_ne, Ha by done. set_solver.
  - intros a ta. destruct (decide (c = a)) as [<-|Hca]; [by rewrite lookup_delete_eq|]. rewrite lookup_delete_ne by done.
    apply (sc_ok _ _ _ _ H).
  - apply (sc_running _ _ _ _ H).
  - rewrite (sc_total _ _ _ _ H). by rewrite (n_active_delete _ c t).
  - rewrite map_size_delete, Ht. pose proof (sc_size _ _ _ _ H). lia.
Qed.

(** What is left of the tasks when [c] has ended. *)
Definition ended (c : Z) (t : HevTask) (m : gmap Z HevTask) : gmap Z HevTask :=
  if tk_ref t =? 1 then delete c m else <[c := tk_set_ref (tk_ref t - 1) (tk_set_state HEV_TASK_STOPPED t)]> m.

Lemma wp_turn_end B s c ys F t :
  sched_is B s (c :: ys) F → current_task s = c → tk_tasks s !! c = Some t →
  wp (hev_task_system_remove_current_task HEV_TASK_STOPPED) s (λ _ s',
    ∃ F', sched_is B s' ys F' ∧ tk_tasks s' = ended c t (tk_tasks s)).
Proof.
  intros H Hc Ht. destruct (sc_ok _ _ _ _ H c t Ht) as [Hok Hr]. pose proof (sched_fuel _ _ _ _ H) as Hf.
  pose proof (to_ref _ _ Hok) as Href. pose proof (sc_size _ _ _ _ H) as Hsz. pose proof (n_active_size (tk_tasks s)) as Hna.
  set (t1 := tk_set_ref (tk_ref t - 1) (tk_set_state HEV_TASK_STOPPED t)).
  pose proof (n_active_insert _ c t t1 Ht) as Hn. rewrite (proj2 Hr) in Hn by apply list_elem_of_here. simpl in Hn.
  unfold hev_task_system_remove_current_task. apply wp_bind, wp_gets. rewrite Hc.
  apply wp_bind, wp_gets, wp_bind. eapply wp_task_update; [exact Ht|]. apply wp_bind, wp_in_running. simpl.
  eapply wp_mono; [eapply (wp_cached_erase _ _ (tk_tasks s)); [exact (sc_queue _ _ _ _ H)|exact Hf]|].
  intros [] c' [n Hq]. apply wp_bind, wp_modify, wp_bind, wp_modify. unfold hev_task_unref.
  apply wp_bind. eapply wp_task_update; [apply lookup_insert_eq|]. apply wp_bind.
  eapply wp_task_load; [apply lookup_insert_eq|]. simpl. rewrite insert_insert_eq.
  assert (s32 (tk_ref t - 1) = tk_ref t - 1) as -> by (unfold s32; rewrite Z.mod_small; lia).
  unfold cx_set_tasks, cx_set_total, cx_set_running, cx_set_tree. simpl. change (mk_task _ _ _ _ _ _) with t1.
  set (m1 := <[c := t1]> (tk_tasks s)) in *.
  set (s1 := mk_ctx _ _ _ _ _).
  assert (total_task_count s - 1 = Z.of_nat (n_active m1)) as Htot by (rewrite (sc_total _ _ _ _ H); lia).
  unfold ended. destruct (Z.eqb_spec (tk_ref t) 1) as [He|He]; simpl.
  - destruct (Z.eqb_spec (tk_ref t - 1) 0); [|lia]. apply wp_bind, wp_modify, wp_in_running, wp_in_base, wp_modify.
    exists F. split; [|simpl; subst m1; by rewrite delete_insert_eq].
    set (t2 := tk_set_state HEV_TASK_STOPPED t).
    assert (n_active (<[c := t2]> (tk_tasks s)) = n_active m1) as Hn2.
    { pose proof (n_active_insert _ c t t2 Ht) as Hn2. rewrite (proj2 Hr) in Hn2 by apply list_elem_of_here. simpl in Hn2. lia. }
    eapply (sched_free B (mk_ctx (u32 (total_task_count s - 1)) (u32 (running_task_count s - 1)) (current_task s) c' (<[c := t2]> (tk_tasks s))) ys c n F t2 (delete c m1));
      [|apply lookup_insert_eq|done|simpl; subst m1; by rewrite !delete_insert_eq].
    apply (sched_leave B s c ys F n t t2); try done.
    + destruct Hok. split; simpl; try done.
    + rewrite Hn2, u32_small; lia.
  - destruct (Z.eqb_spec (tk_ref t - 1) 0); [lia|]. apply wp_ret. exists ((c, n) :: F). split; [|done].
    apply (sched_leave B s c ys F n t t1); try done.
    + destruct Hok. split; simpl; try done. lia.
    + fold m1. rewrite u32_small; lia.
Qed.
