(* ===== verification/TaskSystemProps.v ===== *)
(** * The scheduler: no task that can run is kept waiting for ever *)

From stdpp Require Import sorting.
From S2P Require Import Prelude RBTree RBTreeRep RBTreeInsert RBTreeErase RBTreeIter RBTreeProps TaskSystem TaskSystemQueue TaskSystemRun.

(** ** Turns *)

(** What a task does to others in its turn. *)
Inductive task_act := ActWake (a : Z) | ActRun (a : Z).

Definition act_do (x : task_act) : stm HevTaskSystemContext unit :=
  match x with ActWake a => hev_task_system_wakeup_task a | ActRun a => hev_task_run a end.

Fixpoint acts_do (xs : list task_act) : stm HevTaskSystemContext unit :=
  match xs with [] => mret tt | x :: xs => act_do x;; acts_do xs end.

(** A turn of the current task: what it does, how it ends, and the events the
    scheduler then finds. *)
Record turn := mk_turn { tu_acts : list task_act; tu_end : HevTaskSched; tu_polls : list (list Z) }.

Definition turn_do (x : turn) : stm HevTaskSystemContext bool :=
  acts_do (tu_acts x);; hev_task_system_schedule (Some (tu_end x)) (tu_polls x).

(** A run of turns in which task [a] does not get its turn. *)
Inductive waits (a : Z) : HevTaskSystemContext → list turn → HevTaskSystemContext → Prop :=
  | waits_nil s : waits a s [] s
  | waits_cons s x s1 xs s' : current_task s ≠ a → turn_do x s = Some (true, s1) → waits a s1 xs s' →
      waits a s (x :: xs) s'.

(** How often a key can have grown, by at most fifteen each time. *)
Definition turn_ops (x : turn) : nat := length (tu_acts x) + 1 + length (mjoin (tu_polls x)).

(** Priorities that are not real-time. *)
Record prio_ok (m : gmap Z HevTask) : Prop := {
  pr_next : ∀ a t, m !! a = Some t → 1 ≤ next_priority t;
  pr_run : ∀ a t, m !! a = Some t → tk_state t = HEV_TASK_RUNNING → 1 ≤ priority t;
  pr_wait : ∀ a t, m !! a = Some t → tk_state t = HEV_TASK_WAITING → 1 ≤ sched_key t;
}.

(** ** Progress *)

(** A lower bound on the key with which a task gets its next turn. *)
Definition next_key (m : gmap Z HevTask) (ys : list Z) (a : Z) : Z :=
  if decide (a ∈ ys) then tkey m a else min_key m ys + 1.

(** Nothing falls back, and [T] keeps its place. *)
Record advance (T : Z) (m : gmap Z HevTask) (ys : list Z) (m' : gmap Z HevTask) (ys' : list Z) : Prop := {
  ad_in : T ∈ ys';
  ad_key : tkey m' T = tkey m T;
  ad_dom : dom m' ⊆ dom m;
  ad_next : ∀ a, next_key m ys a ≤ next_key m' ys' a;
}.

Lemma advance_refl T m ys : T ∈ ys → advance T m ys m ys.
Proof. intros H. by split. Qed.

Lemma advance_trans T m1 ys1 m2 ys2 m3 ys3 :
  advance T m1 ys1 m2 ys2 → advance T m2 ys2 m3 ys3 → advance T m1 ys1 m3 ys3.
Proof.
  intros [_ K1 D1 N1] [I K2 D2 N2]. split; [done|congruence|set_solver|].
  intros a. specialize (N1 a). specialize (N2 a). lia.
Qed.

(** A task enters the queue. *)
Lemma advance_enter T m ys a t k :
  T ∈ ys → a ∉ ys → m !! a = Some t → min_key m ys + 1 ≤ k →
  advance T m ys (<[a := ready k t]> m) (queue_insert m k a ys) ∧
  min_key (<[a := ready k t]> m) (queue_insert m k a ys) = min_key m ys.
Proof.
  intros HT Ha Ht Hk. destruct ys as [|c ys]; [set_solver|]. simpl in Hk.
  assert (tkey (<[a := ready k t]> m) c = tkey m c) as Hc by (apply tkey_insert_ne; set_solver).
  destruct (queue_insert_head m k a c ys ltac:(lia)) as [ys' Hys'].
  assert (min_key (<[a := ready k t]> m) (queue_insert m k a (c :: ys)) = min_key m (c :: ys)) as Hmin by (by rewrite Hys').
  split; [|done]. split.
  - apply queue_insert_elem. by right.
  - apply tkey_insert_ne. by intros ->.
  - rewrite dom_insert_lookup_L by done. done.
  - intros b. unfold next_key. rewrite Hmin. pose proof (queue_insert_elem m k a (c :: ys) b) as Hb.
    destruct (decide (a = b)) as [<-|Hne].
    + rewrite decide_False by done. rewrite decide_True by (apply Hb; by left). rewrite tkey_insert. simpl. lia.
    + rewrite tkey_insert_ne by done. simpl. repeat case_decide; try lia; naive_solver.
Qed.

Lemma prio_ready m a t k : prio_ok m → m !! a = Some t → prio_ok (<[a := ready k t]> m).
Proof.
  intros [Hn Hr Hw] Ht. split; intros b tb; (destruct (decide (a = b)) as [<-|Hne];
    [rewrite lookup_insert_eq; intros [= <-]; simpl; try done; by eauto|rewrite lookup_insert_ne by done; by eauto]).
Qed.

Section run.
Context (T : Z).

(** The state during a turn and between turns. *)
Record turn_is (B : Z) (s : HevTaskSystemContext) (ys : list Z) (F : list (Z * HevRBTreeNode)) : Prop := {
  ti_sched : sched_is B s ys F;
  ti_bound : 15 ≤ B;
  ti_in : T ∈ ys;
  ti_prio : prio_ok (tk_tasks s);
}.

(** The step from [s] to [s'] of a running turn. *)
Definition progress (B' : Z) (s : HevTaskSystemContext) (ys : list Z) (s' : HevTaskSystemContext) : Prop :=
  ∃ ys' F', turn_is B' s' ys' F' ∧ advance T (tk_tasks s) ys (tk_tasks s') ys' ∧
    current_task s' = current_task s ∧ hd 0 ys' = hd 0 ys.

Lemma turn_is_mono B B' s ys F : B ≤ B' → turn_is B s ys F → turn_is B' s ys F.
Proof.
  intros HB [[Hq Hd Ho Hc1 Hc2 Hc3] HB0 HT Hp]. split; [|lia|done|done]. split; try done.
  intros b tb Hb. destruct (Ho b tb Hb). split; [|done]. by eapply task_ok_mono.
Qed.

Lemma progress_refl B B' s ys F : B ≤ B' → turn_is B s ys F → progress B' s ys s.
Proof.
  intros HB H. exists ys, F. split_and!; [by eapply turn_is_mono| |done|done]. apply advance_refl, (ti_in _ _ _ _ H).
Qed.

Lemma progress_enter B s ys F a t k s' :
  turn_is B s ys F → tk_tasks s !! a = Some t → tk_state t ≠ HEV_TASK_RUNNING → min_key (tk_tasks s) ys + 1 ≤ k →
  (∃ F', sched_is (B + 15) s' (queue_insert (tk_tasks s) k a ys) F' ∧
    tk_tasks s' = <[a := ready k t]> (tk_tasks s) ∧ current_task s' = current_task s) → progress (B + 15) s ys s'.
Proof.
  intros [Hs HB HT Hp] Ht Hst Hk (F' & Hs' & Hm & Hcur).
  assert (a ∉ ys) as Ha by (destruct (sc_ok _ _ _ _ Hs a t Ht) as [_ Hr]; by rewrite <-Hr).
  destruct (advance_enter T (tk_tasks s) ys a t k HT Ha Ht Hk) as [Hadv Hmin].
  eexists _, F'. split_and!; [|by rewrite Hm|done|].
  - split; [done|lia|by apply (ad_in _ _ _ _ _ Hadv)|]. rewrite Hm. by apply prio_ready.
  - destruct ys as [|c ys]; [set_solver|]. simpl in Hk.
    destruct (queue_insert_head (tk_tasks s) k a c ys) as [ys' ->]; [lia|done].
Qed.

Lemma wake_progress B s ys F a s' :
  turn_is B s ys F → B + 15 < 2 ^ 64 → hev_task_system_wakeup_task a s = Some (tt, s') → progress (B + 15) s ys s'.
Proof.
  intros H HB Hrun. pose proof H as [Hs HB0 HT Hp].
  destruct (tk_tasks s !! a) as [t|] eqn:Ht.
  2: { unfold hev_task_system_wakeup_task, mbind, stm_bind, task_load in Hrun. by rewrite Ht in Hrun. }
  destruct (tk_state t) eqn:Hst.
  1, 2: unfold hev_task_system_wakeup_task, mbind, stm_bind, task_load in Hrun; rewrite Ht, Hst in Hrun.
  - done.
  - injection Hrun as <-. eapply progress_refl; [|done]. lia.
  - destruct (wp_run _ _ _ (wp_wakeup B s ys F a t Hs ltac:(lia) HB Ht Hst)) as ([] & s1 & Hs1 & HF).
    rewrite Hs1 in Hrun. injection Hrun as <-. eapply progress_enter; [done|done|by rewrite Hst| |exact HF].
    pose proof (pr_wait _ Hp a t Ht Hst). lia.
Qed.

Lemma run_progress B s ys F a s' :
  turn_is B s ys F → current_task s ≠ 0 → B + 15 < 2 ^ 64 → hev_task_run a s = Some (tt, s') → progress (B + 15) s ys s'.
Proof.
  intros H Hc HB Hrun. pose proof H as [Hs HB0 HT Hp].
  destruct (tk_tasks s !! a) as [t|] eqn:Ht.
  2: { unfold hev_task_run, mbind, stm_bind, task_load in Hrun. by rewrite Ht in Hrun. }
  destruct (tk_state t) eqn:Hst.
  2, 3: unfold hev_task_run, mbind, stm_bind, task_load in Hrun; rewrite Ht, Hst in Hrun; injection Hrun as <-;
    eapply progress_refl; [|done]; lia.
  destruct (wp_run _ _ _ (wp_task_run B s ys F a t Hs ltac:(lia) HB Ht Hst)) as ([] & s1 & Hs1 & HF).
  rewrite Hs1 in Hrun. injection Hrun as <-. apply Z.eqb_neq in Hc. rewrite Hc in HF.
  eapply progress_enter; [done|done|by rewrite Hst| |exact HF]. pose proof (pr_next _ Hp a t Ht). lia.
Qed.

Lemma progress_trans B B' s ys s1 s' :
  progress B s ys s1 → (∀ ys1 F1, turn_is B s1 ys1 F1 → hd 0 ys1 = hd 0 ys → progress B' s1 ys1 s') → progress B' s ys s'.
Proof.
  intros (ys1 & F1 & H1 & A1 & C1 & D1) Hk. destruct (Hk ys1 F1 H1 D1) as (ys2 & F2 & H2 & A2 & C2 & D2).
  exists ys2, F2. split_and!; [done|by eapply advance_trans|congruence|congruence].
Qed.

Lemma stm_bind_inv {S A C} (c : stm S A) (f : A → stm S C) s r s' :
  (c ≫= f) s = Some (r, s') → ∃ a s1, c s = Some (a, s1) ∧ f a s1 = Some (r, s').
Proof. unfold mbind, stm_bind. destruct (c s) as [[a s1]|]; [eauto|done]. Qed.

Lemma acts_progress xs B s ys F s' :
  turn_is B s ys F → current_task s ≠ 0 → B + 15 * Z.of_nat (length xs) < 2 ^ 64 → acts_do xs s = Some (tt, s') →
  progress (B + 15 * Z.of_nat (length xs)) s ys s'.
Proof.
  revert B s ys F. induction xs as [|x xs IH]; intros B s ys F H Hc HB Hrun.
  - injection Hrun as <-. eapply progress_refl; [|done]. simpl. lia.
  - cbn [acts_do] in Hrun. apply stm_bind_inv in Hrun as ([] & s1 & Hx & Hrun). cbn [length] in *.
    assert (progress (B + 15) s ys s1) as H1.
    { destruct x; [eapply wake_progress|eapply run_progress]; try done; lia. }
    replace (B + 15 * Z.of_nat (S (length xs))) with (B + 15 + 15 * Z.of_nat (length xs)) in * by lia.
    destruct H1 as (ys1 & F1 & H1 & A1 & C1 & D1).
    destruct (IH _ _ _ _ H1 ltac:(congruence) HB Hrun) as (ys2 & F2 & H2 & A2 & C2 & D2).
    exists ys2, F2. split_and!; [done|by eapply advance_trans|congruence|congruence].
Qed.

Lemma poll_progress es B s ys F s' :
  turn_is B s ys F → B + 15 * Z.of_nat (length es) < 2 ^ 64 → hev_task_system_io_poll es s = Some (tt, s') →
  progress (B + 15 * Z.of_nat (length es)) s ys s'.
Proof.
  revert B s ys F. induction es as [|a es IH]; intros B s ys F H HB Hrun.
  - injection Hrun as <-. eapply progress_refl; [|done]. simpl. lia.
  - cbn [hev_task_system_io_poll] in Hrun. apply stm_bind_inv in Hrun as ([] & s1 & Hx & Hrun). cbn [length] in *.
    replace (B + 15 * Z.of_nat (S (length es))) with (B + 15 + 15 * Z.of_nat (length es)) in * by lia.
    eapply progress_trans; [eapply wake_progress; [done| |done]; lia|]. intros ys1 F1 H1 _. by eapply IH.
Qed.

(** ** The end of a turn *)

(** The current task leaves the head of the queue, for good or to a later place;
    whatever its next key is, it is larger than its last one. *)
Definition stepped (B : Z) (s : HevTaskSystemContext) (c : Z) (ys : list Z) (s' : HevTaskSystemContext) : Prop :=
  ∃ ys' F', turn_is B s' ys' F' ∧ advance T (tk_tasks s) (c :: ys) (tk_tasks s') ys' ∧
    tkey (tk_tasks s) c + 1 ≤ next_key (tk_tasks s') ys' c.

Lemma advance_leave m c ys m' : T ≠ c → T ∈ c :: ys → c ∉ ys → (∀ x, x ≠ c → m' !! x = m !! x) → dom m' ⊆ dom m →
  StronglySorted (λ x y, tkey m x ≤ tkey m y) (c :: ys) →
  advance T m (c :: ys) m' ys ∧ tkey m c + 1 ≤ next_key m' ys c.
Proof.
  intros HTc HT Hc Hm Hd Hs. assert (T ∈ ys) as HT' by set_solver.
  assert (∀ x, x ∈ ys → tkey m' x = tkey m x) as He by (intros x Hx; unfold tkey; rewrite Hm; [done|by intros ->]).
  assert (tkey m c ≤ min_key m' ys) as Hmin.
  { destruct ys as [|y ys]; [set_solver|]. simpl. rewrite He by set_solver.
    apply StronglySorted_cons in Hs as [Hs _]. by apply Forall_cons in Hs as [? _]. }
  assert (tkey m c + 1 ≤ next_key m' ys c) as Hnext by (unfold next_key; rewrite decide_False by done; lia).
  split; [|done]. split; [done|by apply He|done|]. intros a. destruct (decide (a = c)) as [->|Hne].
  - unfold next_key at 1. rewrite decide_True by set_solver. lia.
  - unfold next_key. simpl. destruct (decide (a ∈ ys)) as [Ha|Ha].
    + rewrite decide_True by set_solver. by rewrite He.
    + rewrite decide_False by set_solver. lia.
Qed.

Lemma advance_requeue m c ys t' k : T ≠ c → T ∈ c :: ys → c ∉ ys → is_Some (m !! c) → sched_key t' = k → tkey m c + 1 ≤ k →
  StronglySorted (λ x y, tkey m x ≤ tkey m y) (c :: ys) →
  let m' := <[c := t']> m in let ys' := queue_insert m k c ys in
  advance T m (c :: ys) m' ys' ∧ tkey m c + 1 ≤ next_key m' ys' c.
Proof.
  intros HTc HT Hc [t Ht] Hk Hlt Hs m' ys'. pose proof (queue_insert_elem m k c ys) as Hin. fold ys' in Hin.
  assert (∀ x, x ≠ c → tkey m' x = tkey m x) as He by (intros x Hx; by apply tkey_insert_ne).
  assert (tkey m' c = k) as Hc' by (subst m'; by rewrite tkey_insert).
  assert (tkey m c ≤ min_key m' ys') as Hmin.
  { destruct ys' as [|y ys2] eqn:Hy; [exfalso; assert (c ∈ []) by (apply Hin; by left); set_solver|]. simpl.
    destruct (decide (y = c)) as [->|Hne]; [lia|]. rewrite He by done.
    destruct (proj1 (Hin y) ltac:(set_solver)) as [->|Hyy]; [done|].
    apply StronglySorted_cons in Hs as [Hs _]. by eapply Forall_forall in Hs. }
  assert (tkey m c + 1 ≤ next_key m' ys' c) as Hnext.
  { unfold next_key. rewrite decide_True by (apply Hin; by left). lia. }
  split; [|done]. split; [apply Hin; set_solver|by apply He|subst m'; by rewrite dom_insert_lookup_L|].
  intros a. destruct (decide (a = c)) as [->|Hne].
  - unfold next_key at 1. rewrite decide_True by set_solver. lia.
  - unfold next_key. simpl. pose proof (Hin a). rewrite He by done.
    repeat case_decide; try lia; set_solver.
Qed.
Lemma prio_insert m c t' : prio_ok m → 1 ≤ next_priority t' →
  (tk_state t' = HEV_TASK_RUNNING → 1 ≤ priority t') → (tk_state t' = HEV_TASK_WAITING → 1 ≤ sched_key t') →
  prio_ok (<[c := t']> m).
Proof.
  intros [Hn Hr Hw] H1 H2 H3. split; intros b tb; (destruct (decide (c = b)) as [<-|Hne];
    [rewrite lookup_insert_eq; intros [= <-]; by eauto|rewrite lookup_insert_ne by done; by eauto]).
Qed.

Lemma end_stepped B s c ys F ty s' :
  turn_is B s (c :: ys) F → current_task s = c → T ≠ c → B + 15 < 2 ^ 64 →
  match ty with
  | HEV_TASK_SCHED_SWITCH => hev_task_system_update_sched_key;; hev_task_system_reinsert_current_task
  | HEV_TASK_SCHED_WAITIO =>
      hev_task_system_update_sched_key;; hev_task_system_remove_current_task HEV_TASK_WAITING
  | HEV_TASK_SCHED_REMOVE => hev_task_system_remove_current_task HEV_TASK_STOPPED
  end s = Some (tt, s') → stepped (B + 15) s c ys s'.
Proof.
  intros [Hs HB0 HT Hp] Hc HTc HB Hrun.
  destruct (qi_tasks _ _ _ _ (sc_queue _ _ _ _ Hs) c) as [t Ht]; [apply list_elem_of_here|].
  pose proof (sched_NoDup _ _ _ _ Hs) as Hnd. simpl in Hnd. apply NoDup_cons in Hnd as [Hcy _].
  assert (c ∉ ys) as Hcn by set_solver. pose proof (qi_sorted _ _ _ _ (sc_queue _ _ _ _ Hs)) as Hsort.
  pose proof (pr_next _ Hp c t Ht) as Hnp.
  assert (∀ ys' F', sched_is (B + 15) s' ys' F' → prio_ok (tk_tasks s') →
    advance T (tk_tasks s) (c :: ys) (tk_tasks s') ys' ∧ tkey (tk_tasks s) c + 1 ≤ next_key (tk_tasks s') ys' c →
    stepped (B + 15) s c ys s') as Hdone.
  { intros ys' F' H1 H2 [H3 H4]. exists ys', F'. split_and!; [|done|done]. split; [done|lia|by apply (ad_in _ _ _ _ _ H3)|done]. }
  assert (∀ ys' F', sched_is B s' ys' F' → sched_is (B + 15) s' ys' F') as Hmono.
  { intros ys' F' [Hq Hd Ho ? ? ?]. split; try done. intros b tb Hb. destruct (Ho b tb Hb). split; [|done].
    eapply task_ok_mono; [|done]. lia. }
  destruct ty.
  - destruct (wp_run _ _ _ (wp_turn_switch B s c ys F t Hs HB Hc Ht)) as ([] & s1 & Hs1 & F' & Hs' & Hm).
    rewrite Hs1 in Hrun. injection Hrun as <-. eapply Hdone; [done| |].
    + rewrite Hm. apply prio_insert; simpl; try done. intros Hst. destruct (sc_ok _ _ _ _ Hs c t Ht) as [_ Hr].
      rewrite (proj2 Hr) in Hst by apply list_elem_of_here. done.
    + rewrite Hm. apply advance_requeue; try done. rewrite (tkey_lookup _ _ _ Ht).
      destruct (sc_ok _ _ _ _ Hs c t Ht) as [_ Hr]. pose proof (pr_run _ Hp c t Ht (proj2 Hr (list_elem_of_here _ _))). lia.
  - destruct (wp_run _ _ _ (wp_turn_wait B s c ys F t Hs HB0 Hc Ht)) as ([] & s1 & Hs1 & F' & Hs' & Hm).
    rewrite Hs1 in Hrun. injection Hrun as <-. eapply Hdone; [by apply Hmono| |]; rewrite Hm.
    + by apply prio_insert.
    + apply advance_leave; try done; [intros x Hx; by apply lookup_insert_ne|by rewrite dom_insert_lookup_L].
  - destruct (wp_run _ _ _ (wp_turn_end B s c ys F t Hs Hc Ht)) as ([] & s1 & Hs1 & F' & Hs' & Hm).
    rewrite Hs1 in Hrun. injection Hrun as <-. eapply Hdone; [by apply Hmono| |]; rewrite Hm; unfold ended.
    + destruct (tk_ref t =? 1); [|by apply prio_insert]. destruct Hp as [Hn Hr Hw].
      split; intros b tb [_ Hb]%lookup_delete_Some; by eauto.
    + apply advance_leave; try done.
      * intros x Hx. destruct (tk_ref t =? 1); [by apply lookup_delete_ne|by apply lookup_insert_ne].
      * destruct (tk_ref t =? 1); [rewrite dom_delete_L; set_solver|by rewrite dom_insert_lookup_L].
Qed.

(** The next task is the first of the queue. *)
Lemma pick_progress B s ys F polls s' :
  turn_is B s ys F → let n := length (mjoin polls) in B + 15 * Z.of_nat n < 2 ^ 64 →
  hev_task_system_pick_current_task polls s = Some (tt, s') →
  ∃ ys' F', turn_is (B + 15 * Z.of_nat n) s' ys' F' ∧ advance T (tk_tasks s) ys (tk_tasks s') ys' ∧ current_task s' = hd 0 ys'.
Proof.
  intros H n HB Hrun. unfold hev_task_system_pick_current_task in Hrun.
  apply stm_bind_inv in Hrun as (running & s0 & [= <- <-] & Hrun).
  apply stm_bind_inv in Hrun as (total & s0 & [= <- <-] & Hrun). apply stm_bind_inv in Hrun as ([] & s1 & Hp & Hrun).
  apply stm_bind_inv in Hrun as (node & s0 & [= <- <-] & [= <-]).
  assert (progress (B + 15 * Z.of_nat n) s ys s1) as (ys' & F' & H' & A' & _ & _).
  { pose proof (ti_in _ _ _ _ H) as HT. rewrite (sc_running _ _ _ _ (ti_sched _ _ _ _ H)) in Hp.
    destruct (Z.eqb_spec (Z.of_nat (length ys)) 0) as [Hz|_]; [destruct ys; [set_solver|done]|]. simpl in Hp.
    destruct (Z.of_nat (length ys) <? total_task_count s).
    - assert (length (default [] (head polls)) ≤ n)%nat as Hn
        by (subst n; destruct polls; simpl; [lia|rewrite length_app; lia]).
      destruct (poll_progress (default [] (head polls)) B s ys F s1 H ltac:(lia) Hp) as (ys' & F' & H' & Hrest).
      exists ys', F'. split; [|done]. eapply turn_is_mono; [|exact H']. lia.
    - injection Hp as <-. eapply progress_refl; [|done]. lia. }
  exists ys', F'. split_and!; [|done|exact (qi_left _ _ _ _ (sc_queue _ _ _ _ (ti_sched _ _ _ _ H')))].
  destruct H' as [[Hq Hd Ho ? ? ?] ? ? ?]. by split; [split|..].
Qed.

Lemma turn_stepped B s c ys F x s' :
  turn_is B s (c :: ys) F → current_task s = c → T ≠ c → B + 15 * Z.of_nat (turn_ops x) < 2 ^ 64 →
  turn_do x s = Some (true, s') →
  ∃ ys' F', turn_is (B + 15 * Z.of_nat (turn_ops x)) s' ys' F' ∧ advance T (tk_tasks s) (c :: ys) (tk_tasks s') ys' ∧
    tkey (tk_tasks s) c + 1 ≤ next_key (tk_tasks s') ys' c ∧ current_task s' = hd 0 ys'.
Proof.
  intros H Hc HTc HB Hrun. unfold turn_ops in *. apply stm_bind_inv in Hrun as ([] & s1 & Hacts & Hrun).
  assert (c ≠ 0) as Hc0.
  { apply is_ptr_nonzero. eapply rb_done_ptr; [exact (qi_tree _ _ _ _ (sc_queue _ _ _ _ (ti_sched _ _ _ _ H)))|apply list_elem_of_here]. }
  destruct (acts_progress (tu_acts x) B s (c :: ys) F s1 H ltac:(congruence) ltac:(lia) Hacts) as (ys1 & F1 & H1 & A1 & C1 & D1).
  destruct ys1 as [|c1 ys1]; simpl in D1; [done|]. subst c1.
  unfold hev_task_system_schedule in Hrun. apply stm_bind_inv in Hrun as ([] & s2 & Hend & Hrun).
  assert (stepped (B + 15 * Z.of_nat (length (tu_acts x)) + 15) s1 c ys1 s2) as (ys2 & F2 & H2 & A2 & K2).
  { eapply (end_stepped _ _ _ _ _ (tu_end x)); [exact H1|congruence|done|lia|]. by destruct (tu_end x). }
  apply stm_bind_inv in Hrun as (total & s0 & [= <- <-] & Hrun). destruct (total_task_count s2 =? 0); [done|].
  apply stm_bind_inv in Hrun as ([] & s3 & Hpick & [= <-]).
  destruct (pick_progress _ s2 ys2 F2 (tu_polls x) s3 H2 ltac:(lia) Hpick) as (ys3 & F3 & H3 & A3 & C3).
  exists ys3, F3. split_and!; [|eapply advance_trans; [exact A1|by eapply advance_trans]| |done].
  - eapply turn_is_mono; [|exact H3]. lia.
  - pose proof (ad_next _ _ _ _ _ A3 c). pose proof (ad_next _ _ _ _ _ A1 c) as HA. unfold next_key in HA.
    rewrite !decide_True in HA by apply list_elem_of_here. lia.
Qed.
End run.

(** ** Counting *)

Lemma sum_list_le {A} (f g : A → nat) l : (∀ x, x ∈ l → f x ≤ g x)%nat → (sum_list_with f l ≤ sum_list_with g l)%nat.
Proof.
  induction l as [|x l IH]; intros H; simpl; [lia|]. pose proof (H x ltac:(set_solver)).
  specialize (IH ltac:(set_solver)). lia.
Qed.

Lemma sum_list_lt {A} (f g : A → nat) l c :
  (∀ x, x ∈ l → f x ≤ g x)%nat → c ∈ l → (f c < g c)%nat → (sum_list_with f l < sum_list_with g l)%nat.
Proof.
  intros H (l1 & l2 & ->)%list_elem_of_split Hc. rewrite !sum_list_with_app. simpl.
  pose proof (sum_list_le f g l1 ltac:(set_solver)). pose proof (sum_list_le f g l2 ltac:(set_solver)). lia.
Qed.

(** How many turns the tasks of [D] can still get before a task with key [k]. *)
Definition turns_left (D : gset Z) (k : Z) (m : gmap Z HevTask) (ys : list Z) : nat :=
  sum_list_with (λ a, Z.to_nat (k + 1 - next_key m ys a)) (elements D).

Lemma turns_left_bound D k m ys : StronglySorted (λ x y, tkey m x ≤ tkey m y) ys →
  (turns_left D k m ys ≤ size D * Z.to_nat (k + 1 - min_key m ys))%nat.
Proof.
  intros Hs. unfold turns_left, size, set_size. simpl. generalize (elements D). intros l.
  assert (∀ a, min_key m ys ≤ next_key m ys a) as Hmin.
  { intros a. unfold next_key. case_decide as Ha; [|lia]. destruct Hs as [|y ys Hs Hy]; [set_solver|]. simpl.
    apply elem_of_cons in Ha as [->|Ha]; [lia|]. by eapply Forall_forall in Hy. }
  induction l as [|a l IH]; simpl; [lia|]. specialize (Hmin a). lia.
Qed.

Lemma waits_bound T D xs : ∀ B s ys F s',
  turn_is T B s ys F → current_task s = hd 0 ys → dom (tk_tasks s) ⊆ D →
  B + 15 * Z.of_nat (sum_list_with turn_ops xs) < 2 ^ 64 → waits T s xs s' →
  (length xs ≤ turns_left D (tkey (tk_tasks s) T) (tk_tasks s) ys)%nat.
Proof.
  induction xs as [|x xs IH]; intros B s ys F s' H Hc HD HB Hw; [simpl; lia|].
  inversion Hw as [|? ? s1 ? ? Hne Hrun Hw']; subst. cbn [sum_list_with] in HB.
  pose proof (ti_in _ _ _ _ _ H) as HT. destruct ys as [|c ys]; [set_solver|]. simpl in Hc.
  destruct (turn_stepped T B s c ys F x s1 H Hc ltac:(congruence) ltac:(lia) Hrun) as (ys' & F' & H' & A & K & C').
  specialize (IH _ s1 ys' F' s' H' C' ltac:(etrans; [apply A|done]) ltac:(lia) Hw'). rewrite (ad_key _ _ _ _ _ A) in IH.
  assert (turns_left D (tkey (tk_tasks s) T) (tk_tasks s1) ys' < turns_left D (tkey (tk_tasks s) T) (tk_tasks s) (c :: ys))%nat; [|simpl; lia].
  unfold turns_left. apply (sum_list_lt _ _ _ c).
  - intros a _. pose proof (ad_next _ _ _ _ _ A a). lia.
  - apply elem_of_elements, HD, elem_of_dom. apply (qi_tasks _ _ _ _ (sc_queue _ _ _ _ (ti_sched _ _ _ _ _ H))), list_elem_of_here.
  - unfold next_key at 2. rewrite decide_True by apply list_elem_of_here.
    pose proof (qi_sorted _ _ _ _ (sc_queue _ _ _ _ (ti_sched _ _ _ _ _ H))) as Hs. apply StronglySorted_cons in Hs as [Hs _].
    assert (tkey (tk_tasks s) c ≤ tkey (tk_tasks s) T); [|lia].
    apply elem_of_cons in HT as [->|HT]; [congruence|]. by eapply Forall_forall in Hs.
Qed.

(** ** The theorems *)

Definition end_queue (m : gmap Z HevTask) (c : Z) (t : HevTask) (ys : list Z) (ty : HevTaskSched) : list Z :=
  match ty with HEV_TASK_SCHED_SWITCH => queue_insert m (sched_key t + priority t) c ys | _ => ys end.

Definition end_tasks (m : gmap Z HevTask) (c : Z) (t : HevTask) (ty : HevTaskSched) : gmap Z HevTask :=
  match ty with
  | HEV_TASK_SCHED_SWITCH => <[c := switched t]> m
  | HEV_TASK_SCHED_WAITIO => <[c := waiting t]> m
  | HEV_TASK_SCHED_REMOVE => ended c t m
  end.

Lemma schedule_end B s c ys F t ty :
  sched_is B s (c :: ys) F → 15 ≤ B → B + 15 < 2 ^ 64 → current_task s = c → tk_tasks s !! c = Some t →
  end_queue (tk_tasks s) c t ys ty ≠ [] →
  wp (hev_task_system_schedule (Some ty) [[]]) s (λ r s', r = true ∧ ∃ F',
    sched_is (B + 15) s' (end_queue (tk_tasks s) c t ys ty) F' ∧ tk_tasks s' = end_tasks (tk_tasks s) c t ty ∧
    current_task s' = hd 0 (end_queue (tk_tasks s) c t ys ty)).
Proof.
  intros Hs HB0 HB Hc Ht Hne. unfold hev_task_system_schedule. apply wp_bind.
  eapply (wp_mono _ _ (λ _ s', ∃ F', sched_is (B + 15) s' (end_queue (tk_tasks s) c t ys ty) F' ∧
    tk_tasks s' = end_tasks (tk_tasks s) c t ty)).
  - assert (∀ s' ys' F', sched_is B s' ys' F' → sched_is (B + 15) s' ys' F') as Hmono.
    { intros s' ys' F' [Hq Hd Ho ? ? ?]. split; try done. intros b tb Hb. destruct (Ho b tb Hb). split; [|done].
      eapply task_ok_mono; [|done]. lia. }
    destruct ty; [by eapply wp_turn_switch|eapply wp_mono; [by eapply wp_turn_wait|]|eapply wp_mono; [by eapply wp_turn_end|]];
      intros [] s' (F' & H' & Hm); eauto.
  - intros [] s1 (F' & H1 & Hm). pose proof (sched_length _ _ _ _ H1) as Hl.
    assert (0 < length (end_queue (tk_tasks s) c t ys ty))%nat as Hpos by (destruct (end_queue _ _ _ _ _); simpl; [done|lia]).
    apply wp_bind, wp_gets. rewrite (sc_total _ _ _ _ H1).
    destruct (Z.eqb_spec (Z.of_nat (n_active (tk_tasks s1))) 0); [lia|].
    apply wp_bind. unfold hev_task_system_pick_current_task. apply wp_bind, wp_gets, wp_bind, wp_gets, wp_bind.
    rewrite (sc_running _ _ _ _ H1). destruct (Z.eqb_spec (Z.of_nat (length (end_queue (tk_tasks s) c t ys ty))) 0); [lia|].
    eapply (wp_of_run _ _ tt s1); [by destruct (_ <? _)|]. apply wp_bind, wp_gets, wp_modify, wp_ret.
    split; [done|]. exists F'. split_and!; [|done|exact (qi_left _ _ _ _ (sc_queue _ _ _ _ H1))].
    by destruct H1 as [Hq Hd Ho ? ? ?].
Qed.

(** C18: the run queue.  The tree of the tasks that can run is a queue in the
    order of the keys, first in, first out among equal ones, and its cached first
    node is the next task.  [hev_task_wakeup] leaves a task that can run where it
    is, aborts for a task that was never run or has ended, and puts a waiting task
    behind those whose keys are not larger than the least key plus its own.  At
    the end of a turn the current task is put back with its key raised by its
    priority, or leaves the queue; then the first task of the queue is next.  The
    counters are the numbers of tasks, and the memory of the tasks is the tree and
    what is outside of it. *)
Theorem scheduler_refines B s ys F :
  sched_is B s ys F → 15 ≤ B → B + 15 < 2 ^ 64 →
  (∀ a t, tk_tasks s !! a = Some t →
    match tk_state t with
    | HEV_TASK_RUNNING => hev_task_system_wakeup_task a s = Some (tt, s)
    | HEV_TASK_STOPPED => hev_task_system_wakeup_task a s = None
    | HEV_TASK_WAITING => let k := sched_key t + min_key (tk_tasks s) ys in
        ∃ s' F', hev_task_system_wakeup_task a s = Some (tt, s') ∧
          sched_is (B + 15) s' (queue_insert (tk_tasks s) k a ys) F' ∧ tk_tasks s' = <[a := ready k t]> (tk_tasks s)
    end) ∧
  (∀ c ys0 t ty, ys = c :: ys0 → current_task s = c → tk_tasks s !! c = Some t →
    let q := end_queue (tk_tasks s) c t ys0 ty in q ≠ [] →
    ∃ s' F', hev_task_system_schedule (Some ty) [[]] s = Some (true, s') ∧
      sched_is (B + 15) s' q F' ∧ tk_tasks s' = end_tasks (tk_tasks s) c t ty ∧ current_task s' = hd 0 q).
Proof.
  intros Hs HB0 HB. split.
  - intros a t Ht. destruct (tk_state t) eqn:Hst.
    1, 2: unfold hev_task_system_wakeup_task, mbind, stm_bind, task_load; by rewrite Ht, Hst.
    destruct (wp_run _ _ _ (wp_wakeup B s ys F a t Hs ltac:(lia) HB Ht Hst)) as ([] & s' & Hrun & F' & H' & Hm & _). eauto.
  - intros c ys0 t ty -> Hc Ht q Hq.
    destruct (wp_run _ _ _ (schedule_end B s c ys0 F t ty Hs HB0 HB Hc Ht Hq)) as (r & s' & Hrun & -> & F' & H' & Hm & Hcur).
    by exists s', F'.
Qed.

(** Two tasks that can run, and one that waits. *)
Definition ex_task (key : Z) (st : HevTaskState) : HevTask := mk_task key 0 1 8 8 st.
Definition ex_ctx : HevTaskSystemContext :=
  mk_ctx 3 2 16 (mk_cached (tree_state tree2 [(24, mk_rbnode 0 0 0)]) 16)
    (list_to_map [(16, ex_task 8 HEV_TASK_RUNNING); (8, ex_task 9 HEV_TASK_RUNNING); (24, ex_task 8 HEV_TASK_WAITING)]).

Lemma ex_ctx_cases a t : tk_tasks ex_ctx !! a = Some t →
  (a = 16 ∧ t = ex_task 8 HEV_TASK_RUNNING) ∨ (a = 8 ∧ t = ex_task 9 HEV_TASK_RUNNING) ∨
  (a = 24 ∧ t = ex_task 8 HEV_TASK_WAITING).
Proof.
  intros H. apply elem_of_list_to_map_2 in H. rewrite !elem_of_cons in H.
  destruct H as [[= -> ->]|[[= -> ->]|[[= -> ->]|H]]]; [auto..|by apply not_elem_of_nil in H].
Qed.

Lemma ex_ctx_sched : sched_is 15 ex_ctx [16; 8] [(24, mk_rbnode 0 0 0)].
Proof.
  split; [split| | | | |].
  - exists tree2. split_and!; [apply tree_state_is; vm_compute; reflexivity|apply tree2_redblack|done].
  - done.
  - intros x [->|[->|[]%elem_of_nil]%elem_of_cons]%elem_of_cons; vm_compute; by eexists.
  - repeat constructor; vm_compute; done.
  - intros a. split.
    + intros [t Ht]. apply ex_ctx_cases in Ht as [[-> _]|[[-> _]|[-> _]]]; simpl; set_solver.
    + simpl. rewrite !elem_of_cons. intros [->|[->|[->|[]%elem_of_nil]]]; vm_compute; by eexists.
  - intros a t Ht. apply ex_ctx_cases in Ht as [[-> ->]|[[-> ->]|[-> ->]]]; (split;
      [split; vm_compute; done|simpl; set_solver]).
  - done.
  - vm_compute. done.
  - vm_compute. done.
Qed.

Lemma scheduler_refines_witness :
  ∃ s' F', hev_task_system_wakeup_task 24 ex_ctx = Some (tt, s') ∧ sched_is 30 s' [16; 8; 24] F' ∧
    tk_tasks s' = <[24 := ready 16 (ex_task 8 HEV_TASK_WAITING)]> (tk_tasks ex_ctx).
Proof.
  assert (15 + 15 < 2 ^ 64) as Hb by (vm_compute; done).
  exact (proj1 (scheduler_refines 15 ex_ctx [16; 8] [(24, mk_rbnode 0 0 0)] ex_ctx_sched ltac:(lia) Hb) 24 _ eq_refl).
Defined.

(** C19: no task is starved.  A task that can run, with key [k], gets its turn
    before the tasks of the system have had more than [k + 1 - min] turns each,
    where [min] is the least key: whatever the other tasks do in their turns (wake
    tasks up, run tasks that have stopped), however they end them and whatever
    events arrive in between, as long as no priority is the real-time priority
    zero and the keys do not overflow. *)
Theorem scheduler_fair B s ys F T xs s' :
  sched_is B s ys F → 15 ≤ B → current_task s = hd 0 ys → prio_ok (tk_tasks s) → T ∈ ys →
  B + 15 * Z.of_nat (sum_list_with turn_ops xs) < 2 ^ 64 → waits T s xs s' →
  (length xs ≤ size (tk_tasks s) * Z.to_nat (tkey (tk_tasks s) T + 1 - min_key (tk_tasks s) ys))%nat.
Proof.
  intros Hs HB Hc Hp HT Hb Hw.
  assert (turn_is T B s ys F) as Ht by (by split).
  pose proof (waits_bound T (dom (tk_tasks s)) xs B s ys F s' Ht Hc ltac:(done) Hb Hw).
  pose proof (turns_left_bound (dom (tk_tasks s)) (tkey (tk_tasks s) T) (tk_tasks s) ys (qi_sorted _ _ _ _ (sc_queue _ _ _ _ Hs))).
  rewrite size_dom in *. lia.
Qed.

(** Task 16 wakes up 24 and gives up its turn before 8 gets its own. *)
Lemma scheduler_fair_witness :
  ∃ s', waits 8 ex_ctx [mk_turn [ActWake 24] HEV_TASK_SCHED_SWITCH [[]]] s' ∧ (1 ≤ 6)%nat.
Proof.
  eexists. split; [eapply waits_cons; [vm_compute; done|vm_compute; reflexivity|apply waits_nil]|].
  eapply (scheduler_fair 15 ex_ctx [16; 8] [(24, mk_rbnode 0 0 0)] 8 [mk_turn [ActWake 24] HEV_TASK_SCHED_SWITCH [[]]]).
  - exact ex_ctx_sched.
  - lia.
  - reflexivity.
  - split; intros a t Ht; apply ex_ctx_cases in Ht as [[-> ->]|[[-> ->]|[-> ->]]]; vm_compute; done.
  - apply list_elem_of_further, list_elem_of_here.
  - vm_compute. done.
  - eapply waits_cons; [vm_compute; done|vm_compute; reflexivity|apply waits_nil].
Defined.
