(* ===== verification/CString.v ===== *)
(** * Byte buffers and the string functions of the C library

    A buffer is a [list Z] of bytes, an index an [int].  Reading or writing
    outside the buffer is undefined ([None]).  [strcmp] and [memcmp] return a
    number whose sign is the lexicographic order of unsigned bytes, which is
    all the C standard says about them and all the code uses. *)

From S2P Require Import Prelude RBTreeSearch.

(** ** Buffers *)

Definition buf_read (b : list Z) (i : Z) : option Z :=
  if 0 <=? i then b !! Z.to_nat i else None.

Definition buf_write (b : list Z) (i : Z) (v : Z) : option (list Z) :=
  if (0 <=? i) && (i <? Z.of_nat (length b)) then Some (<[Z.to_nat i := u8 v]> b) else None.

(** [b] with the bytes [bs] from index [i] on. *)
Fixpoint buf_writes (b : list Z) (i : Z) (bs : list Z) : option (list Z) :=
  match bs with
  | [] => Some b
  | v :: bs => b ← buf_write b i v; buf_writes b (i + 1) bs
  end.

(** The C string at the start of a buffer: the bytes before the first NUL; none
    when the buffer has no NUL. *)
Fixpoint cstr (b : list Z) : option (list Z) :=
  match b with
  | [] => None
  | c :: b => if c =? 0 then Some [] else s ← cstr b; Some (c :: s)
  end.

Definition is_bytes (b : list Z) : Prop := Forall is_u8 b.

(** ** Comparison *)

Fixpoint strcmp (x y : list Z) : Z :=
  match x, y with
  | [], [] => 0
  | [], _ => -1
  | _, [] => 1
  | a :: x, b :: y => if a =? b then strcmp x y else a - b
  end.

Fixpoint memcmp (x y : list Z) (n : nat) : Z :=
  match n, x, y with
  | S n, a :: x, b :: y => if a =? b then memcmp x y n else a - b
  | _, _, _ => 0
  end.

#[global] Instance strcmp_comparison : Comparison strcmp.
Proof.
  split.
  - intros x. induction x as [|a x IH]; intros [|b y]; simpl; try (split; congruence).
    destruct (Z.eqb_spec a b) as [->|Hne].
    + rewrite IH. naive_solver.
    + split; [lia|congruence].
  - intros x. induction x as [|a x IH]; intros [|b y]; simpl; [lia..|].
    rewrite (Z.eqb_sym b a). destruct (Z.eqb_spec a b); [apply IH|lia].
  - intros x. induction x as [|a x IH]; intros [|b y] [|c z]; simpl; [lia..|].
    destruct (Z.eqb_spec a b), (Z.eqb_spec b c), (Z.eqb_spec a c); subst; try lia. apply IH.
Qed.

(** [memcmp] on blocks of the same length. *)
Lemma memcmp_strcmp x y : length x = length y → memcmp x y (length x) = strcmp x y.
Proof.
  revert y. induction x as [|a x IH]; intros [|b y]; simpl; intros [=]; [done|].
  case_match; [by apply IH|done].
Qed.

Lemma memcmp_eq x y : length x = length y → memcmp x y (length x) = 0 ↔ x = y.
Proof. intros H. rewrite memcmp_strcmp by done. apply cmp_eq. Qed.

(** ** Buffer lemmas *)

Lemma buf_write_spec b i v :
  0 ≤ i < Z.of_nat (length b) → buf_write b i v = Some (<[Z.to_nat i := u8 v]> b).
Proof.
  intros [H1 H2]. unfold buf_write. apply Z.leb_le in H1 as ->. by apply Z.ltb_lt in H2 as ->.
Qed.

Lemma buf_read_spec b i v : buf_read b i = Some v ↔ 0 ≤ i ∧ b !! Z.to_nat i = Some v.
Proof. unfold buf_read. destruct (Z.leb_spec 0 i); naive_solver lia. Qed.

Lemma buf_read_some b i : 0 ≤ i < Z.of_nat (length b) → is_Some (buf_read b i).
Proof.
  intros [H1 H2]. unfold buf_read. destruct (Z.leb_spec 0 i); [|lia]. apply lookup_lt_is_Some. lia.
Qed.

Lemma buf_writes_spec b i bs :
  0 ≤ i → i + Z.of_nat (length bs) ≤ Z.of_nat (length b) →
  buf_writes b i bs =
    Some (take (Z.to_nat i) b ++ (u8 <$> bs) ++ drop (Z.to_nat i + length bs) b).
Proof.
  revert b i. induction bs as [|v bs IH]; intros b i Hi Hl; simpl in *.
  - by rewrite Nat.add_0_r, take_drop.
  - rewrite buf_write_spec by lia. simpl. rewrite IH; [|lia|rewrite length_insert; lia].
    f_equal. replace (Z.to_nat (i + 1)) with (S (Z.to_nat i)) by lia.
    rewrite (take_S_r _ _ (u8 v)) by (apply list_lookup_insert_eq; lia).
    rewrite take_insert_ge by lia. rewrite <-app_assoc. simpl.
    do 3 f_equal. rewrite drop_insert_lt by lia. f_equal. lia.
Qed.

Lemma u8_id v : is_u8 v → u8 v = v.
Proof. intros H. by apply Z.mod_small. Qed.

Lemma u8_bytes bs : is_bytes bs → u8 <$> bs = bs.
Proof. induction 1 as [|b bs Hb Hbs IH]; [done|]. rewrite fmap_cons. by rewrite IH, u8_id. Qed.

Lemma buf_writes_at pre old post bs i :
  i = Z.of_nat (length pre) → length old = length bs →
  buf_writes (pre ++ old ++ post) i bs = Some (pre ++ (u8 <$> bs) ++ post).
Proof.
  intros -> Hl. rewrite buf_writes_spec by (rewrite ?length_app; lia). f_equal.
  rewrite Nat2Z.id, take_app_length. do 2 f_equal.
  rewrite app_assoc, drop_app_length'; [done|]. rewrite length_app. lia.
Qed.

Lemma length_buf_writes b i bs b' : buf_writes b i bs = Some b' → length b' = length b.
Proof.
  revert b i. induction bs as [|v bs IH]; simpl; intros b i H; [by injection H as ->|].
  apply bind_Some in H as (b1 & H1 & H). apply IH in H as ->.
  unfold buf_write in H1. case_match; [|done]. injection H1 as <-. apply length_insert.
Qed.

Lemma cstr_app s b : Forall (λ c, c ≠ 0) s → cstr (s ++ 0 :: b) = Some s.
Proof.
  induction 1 as [|c s Hc Hs IH]; simpl; [done|]. apply Z.eqb_neq in Hc as ->. by rewrite IH.
Qed.

Lemma cstr_nonzero b s : cstr b = Some s → Forall (λ c, c ≠ 0) s.
Proof.
  revert s. induction b as [|c b IH]; simpl; intros s H; [done|].
  destruct (Z.eqb_spec c 0); [by injection H as <-; constructor|].
  apply bind_Some in H as (s' & H1 & [= <-]). constructor; eauto.
Qed.

Lemma cstr_some b (i : nat) : b !! i = Some 0 → is_Some (cstr b).
Proof.
  revert i. induction b as [|c b IH]; intros i; simpl; [done|].
  destruct (Z.eqb_spec c 0) as [->|Hc]; [done|]. destruct i as [|i]; simpl; [naive_solver|].
  intros Hi. destruct (IH i Hi) as [s ->]. done.
Qed.
