(* ===== verification/RingBuffer.v ===== *)
(** * The ring buffer (src/misc/hev-ring-buffer.c, hev-ring-buffer.h)

    The buffer of a TCP session for the data of its server: bytes are written
    from the socket, read when they are given to lwIP, which keeps pointers to
    them, and released when the peer has acknowledged them.  The positions and sizes are 64-bit [size_t]; the two
    functions that give access to the memory return vectors of (offset, length)
    pairs.  The abstract buffer is two sequences: the bytes that were read and
    not released, and the bytes that can be read. *)

From S2P Require Import Prelude CString.

Record HevRingBuffer := mk_ring {
  rp : Z;
  wp_ : Z;
  rda_size : Z;
  use_size : Z;
  max_size : Z;
  rdata : list Z;
}.

(** [struct iovec]: the base is an offset into [data]. *)
Record iovec := mk_iov { iov_base : Z; iov_len : Z }.

(** [hev_ring_buffer_alloca]: the memory is not initialised. *)
Definition hev_ring_buffer_alloca (s : Z) (memory : list Z) : HevRingBuffer :=
  mk_ring 0 0 0 0 s memory.

Definition hev_ring_buffer_get_max_size (self : HevRingBuffer) : Z := max_size self.
Definition hev_ring_buffer_get_use_size (self : HevRingBuffer) : Z := use_size self.

Definition hev_ring_buffer_reading (self : HevRingBuffer) : list iovec :=
  if 0 =? rda_size self then []
  else
    let upper_size := u64 (max_size self - rp self) in
    if rda_size self <=? upper_size then [mk_iov (rp self) (rda_size self)]
    else [mk_iov (rp self) upper_size; mk_iov 0 (u64 (rda_size self - upper_size))].

Definition hev_ring_buffer_read_finish (size : Z) (self : HevRingBuffer) : HevRingBuffer :=
  mk_ring (u64 (rp self + size) mod max_size self) (wp_ self) (u64 (rda_size self - size))
    (use_size self) (max_size self) (rdata self).

Definition hev_ring_buffer_read_release (size : Z) (self : HevRingBuffer) : HevRingBuffer :=
  let use := u64 (use_size self - size) in
  if use =? 0 then mk_ring 0 0 (rda_size self) use (max_size self) (rdata self)
  else mk_ring (rp self) (wp_ self) (rda_size self) use (max_size self) (rdata self).

Definition hev_ring_buffer_writing (self : HevRingBuffer) : list iovec :=
  if use_size self =? max_size self then []
  else
    let upper_size := u64 (max_size self - wp_ self) in
    let spc_size := u64 (max_size self - use_size self) in
    if spc_size <=? upper_size then [mk_iov (wp_ self) spc_size]
    else [mk_iov (wp_ self) upper_size; mk_iov 0 (u64 (spc_size - upper_size))].

Definition hev_ring_buffer_write_finish (size : Z) (self : HevRingBuffer) : HevRingBuffer :=
  mk_ring (rp self) (u64 (wp_ self + size) mod max_size self) (u64 (rda_size self + size))
    (u64 (use_size self + size)) (max_size self) (rdata self).

(** ** What the callers do with the vectors *)

Definition set_rdata (d : list Z) (self : HevRingBuffer) : HevRingBuffer :=
  mk_ring (rp self) (wp_ self) (rda_size self) (use_size self) (max_size self) d.

(** The bytes a vector covers ([writev]). *)
Definition iov_gather (d : list Z) (v : list iovec) : list Z :=
  concat ((λ x, take (Z.to_nat (iov_len x)) (drop (Z.to_nat (iov_base x)) d)) <$> v).

(** Filling a vector with bytes, in order ([readv], [memcpy]). *)
Fixpoint iov_scatter (d : list Z) (v : list iovec) (bs : list Z) : list Z :=
  match v with
  | [] => d
  | x :: v =>
      let n := Z.to_nat (iov_len x) in
      iov_scatter (list_inserts (Z.to_nat (iov_base x)) (take n bs) d) v (drop n bs)
  end.

Definition iov_total (v : list iovec) : Z := foldr (λ x n, iov_len x + n) 0 v.

(** Every part of the vector is inside the data. *)
Definition iov_inside (self : HevRingBuffer) (v : list iovec) : Prop :=
  Forall (λ x, 0 ≤ iov_base x ∧ 0 ≤ iov_len x ∧ iov_base x + iov_len x ≤ max_size self) v.

(** ** Representation *)

(** [sent]: read and not released; [ready]: not read. *)
Record ring_rep (self : HevRingBuffer) (sent ready : list Z) : Prop := {
  rr_max : 0 < max_size self < 2 ^ 63;
  rr_data : Z.of_nat (length (rdata self)) = max_size self;
  rr_rp : 0 ≤ rp self < max_size self;
  rr_rda : rda_size self = Z.of_nat (length ready);
  rr_use : use_size self = Z.of_nat (length sent + length ready);
  rr_fit : use_size self ≤ max_size self;
  rr_wp : wp_ self = (rp self + rda_size self) mod max_size self;
  rr_bytes : ∀ i : nat, (i < length sent + length ready)%nat →
    rdata self !! Z.to_nat ((rp self - Z.of_nat (length sent) + Z.of_nat i) mod max_size self)
      = (sent ++ ready) !! i;
}.

Lemma mod_wrap a m : m ≤ a < 2 * m → a mod m = a - m.
Proof. intros. symmetry. apply (Z.mod_unique a m 1); lia. Qed.

(** The position of a ready byte. *)
Lemma ring_ready self sent ready (i : nat) :
  ring_rep self sent ready → (i < length ready)%nat →
  rdata self !! Z.to_nat ((rp self + Z.of_nat i) mod max_size self) = ready !! i.
Proof.
  intros H Hi. pose proof (rr_bytes _ _ _ H (length sent + i)%nat) as Hb.
  rewrite lookup_app_r in Hb by lia. replace (length sent + i - length sent)%nat with i in Hb by lia.
  rewrite <-Hb by lia. do 2 f_equal. f_equal. lia.
Qed.

(** Reading gives exactly the ready bytes. *)
Lemma ring_reading self sent ready :
  ring_rep self sent ready →
  iov_gather (rdata self) (hev_ring_buffer_reading self) = ready ∧
  iov_inside self (hev_ring_buffer_reading self).
Proof.
  intros H. pose proof H as [Hm Hd Hrp Hrda Huse Hfit _ _]. unfold hev_ring_buffer_reading.
  destruct (Z.eqb_spec 0 (rda_size self)) as [Hz|Hz].
  { destruct ready; [|simpl in *; lia]. split; [done|constructor]. }
  rewrite (u64_small (max_size self - rp self)) by lia.
  destruct (Z.leb_spec (rda_size self) (max_size self - rp self)) as [Hle|Hgt]; unfold iov_gather; simpl;
    rewrite ?app_nil_r.
  - split; [|repeat constructor; simpl; lia]. apply list_eq. intros i.
    destruct (decide (i < length ready)%nat) as [Hi|Hi].
    + rewrite lookup_take_lt, lookup_drop by lia. rewrite <-(ring_ready _ _ _ _ H Hi).
      rewrite Z.mod_small by lia. f_equal. lia.
    + rewrite (lookup_ge_None_2 ready) by lia. apply lookup_ge_None_2. rewrite length_take. lia.
  - rewrite (u64_small (rda_size self - _)) by lia.
    split; [|repeat constructor; simpl; lia]. apply list_eq. intros i.
    assert (length (take (Z.to_nat (max_size self - rp self)) (drop (Z.to_nat (rp self)) (rdata self)))
      = Z.to_nat (max_size self - rp self)) as Hl by (rewrite length_take, length_drop; lia).
    destruct (decide (i < length ready)%nat) as [Hi|Hi].
    + rewrite <-(ring_ready _ _ _ _ H Hi).
      destruct (decide (Z.of_nat i < max_size self - rp self)).
      * rewrite lookup_app_l, lookup_take_lt, lookup_drop by lia. rewrite Z.mod_small by lia. f_equal. lia.
      * rewrite lookup_app_r, Hl, lookup_take_lt by lia. rewrite mod_wrap by lia. simpl. f_equal. lia.
    + rewrite (lookup_ge_None_2 ready) by lia. apply lookup_ge_None_2.
      rewrite length_app, Hl, length_take. simpl. lia.
Qed.

(** Writing covers exactly the free space. *)
Lemma ring_writing self sent ready :
  ring_rep self sent ready →
  iov_total (hev_ring_buffer_writing self) = max_size self - use_size self ∧
  iov_inside self (hev_ring_buffer_writing self).
Proof.
  intros [Hm Hd Hrp Hrda Huse Hfit Hwp _].
  assert (0 ≤ wp_ self < max_size self) by (rewrite Hwp; apply Z.mod_pos_bound; lia).
  unfold hev_ring_buffer_writing. destruct (Z.eqb_spec (use_size self) (max_size self)).
  { split; [simpl; lia|constructor]. }
  rewrite !(u64_small (max_size self - _)) by lia.
  destruct (Z.leb_spec (max_size self - use_size self) (max_size self - wp_ self)).
  - split; [simpl; lia|repeat constructor; simpl; lia].
  - rewrite u64_small by lia. split; [simpl; lia|repeat constructor; simpl; lia].
Qed.

Lemma length_iov_scatter d v bs : length (iov_scatter d v bs) = length d.
Proof. revert d bs. induction v as [|x v IH]; intros d bs; [done|]. simpl. by rewrite IH, length_inserts. Qed.

(** Where the bytes land: byte [j] at position [wp + j], modulo the size. *)
Lemma ring_scatter self sent ready bs (p : Z) :
  ring_rep self sent ready → Z.of_nat (length bs) ≤ max_size self - use_size self →
  0 ≤ p < max_size self →
  iov_scatter (rdata self) (hev_ring_buffer_writing self) bs !! Z.to_nat p =
    let j := (p - wp_ self) mod max_size self in
    if decide (j < Z.of_nat (length bs)) then bs !! Z.to_nat j else rdata self !! Z.to_nat p.
Proof.
  intros [Hm Hd Hrp Hrda Huse Hfit Hwp _] Hbs Hp.
  assert (0 ≤ wp_ self < max_size self) by (rewrite Hwp; apply Z.mod_pos_bound; lia).
  assert (∀ j, j = (p - wp_ self) mod max_size self →
    (wp_ self ≤ p ∧ j = p - wp_ self) ∨ (p < wp_ self ∧ j = p - wp_ self + max_size self)) as Hj.
  { intros j ->. destruct (decide (wp_ self ≤ p)); [left; by rewrite Z.mod_small by lia|right].
    split; [lia|]. symmetry. apply (Z.mod_unique _ _ (-1)); lia. }
  specialize (Hj _ eq_refl). simpl. set (j := (p - wp_ self) mod max_size self) in *. clearbody j.
  unfold hev_ring_buffer_writing. destruct (Z.eqb_spec (use_size self) (max_size self)).
  { rewrite decide_False by lia. done. }
  rewrite !(u64_small (max_size self - _)) by lia.
  destruct (Z.leb_spec (max_size self - use_size self) (max_size self - wp_ self)); simpl.
  - rewrite take_ge by lia. case_decide.
    + rewrite list_lookup_inserts by lia. f_equal. lia.
    + destruct (decide (p < wp_ self)); [by rewrite list_lookup_inserts_lt by lia|].
      by rewrite list_lookup_inserts_ge by lia.
  - rewrite u64_small by lia. set (up := Z.to_nat (max_size self - wp_ self)).
    rewrite (take_ge (drop up bs)) by (rewrite length_drop; lia).
    destruct (decide (p < wp_ self)).
    + case_decide.
      * rewrite list_lookup_inserts; [|rewrite length_drop; lia|rewrite length_inserts; lia].
        rewrite lookup_drop. f_equal. lia.
      * rewrite list_lookup_inserts_ge by (rewrite length_drop; lia).
        by rewrite list_lookup_inserts_lt by lia.
    + rewrite list_lookup_inserts_ge by (rewrite length_drop; lia). case_decide.
      * rewrite list_lookup_inserts; [|rewrite length_take; lia|lia].
        rewrite lookup_take_lt by lia. f_equal. lia.
      * by rewrite list_lookup_inserts_ge by (rewrite length_take; lia).
Qed.

(** Writing appends to the ready bytes. *)
Lemma ring_write self sent ready bs :
  ring_rep self sent ready → Z.of_nat (length bs) ≤ max_size self - use_size self →
  ring_rep (hev_ring_buffer_write_finish (Z.of_nat (length bs))
    (set_rdata (iov_scatter (rdata self) (hev_ring_buffer_writing self) bs) self)) sent (ready ++ bs).
Proof.
  intros H Hbs. pose proof H as [Hm Hd Hrp Hrda Huse Hfit Hwp Hb].
  assert (0 ≤ wp_ self < max_size self) by (rewrite Hwp; apply Z.mod_pos_bound; lia).
  split; simpl; rewrite ?length_app.
  - done.
  - by rewrite length_iov_scatter.
  - done.
  - rewrite u64_small by lia. lia.
  - rewrite u64_small by lia. lia.
  - rewrite u64_small by lia. lia.
  - rewrite !u64_small by lia. rewrite Hwp, Z.add_mod_idemp_l by lia. f_equal. lia.
  - intros i Hi. set (p := (rp self - Z.of_nat (length sent) + Z.of_nat i) mod max_size self).
    assert (0 ≤ p < max_size self) as Hp by (apply Z.mod_pos_bound; lia).
    rewrite (ring_scatter _ _ _ _ _ H Hbs Hp). cbn zeta.
    assert ((p - wp_ self) mod max_size self = (Z.of_nat i - use_size self) mod max_size self) as ->.
    { unfold p. rewrite Hwp, Zminus_mod_idemp_l, Zminus_mod_idemp_r. f_equal. lia. }
    destruct (decide (i < length sent + length ready)%nat) as [Hlt|Hge].
    + rewrite <-(Z.mod_unique (Z.of_nat i - use_size self) (max_size self) (-1) (Z.of_nat i - use_size self + max_size self)) by lia.
      rewrite decide_False by lia. unfold p. rewrite Hb by lia.
      rewrite app_assoc, (lookup_app_l (sent ++ ready)) by (rewrite length_app; lia). done.
    + rewrite Z.mod_small by lia. rewrite decide_True by lia.
      rewrite app_assoc, (lookup_app_r (sent ++ ready)) by (rewrite length_app; lia).
      f_equal. rewrite length_app. lia.
Qed.

(** Reading [n] bytes moves them from ready to sent. *)
Lemma ring_read_finish self sent ready (n : nat) :
  ring_rep self sent ready → (n ≤ length ready)%nat →
  ring_rep (hev_ring_buffer_read_finish (Z.of_nat n) self) (sent ++ take n ready) (drop n ready).
Proof.
  intros [Hm Hd Hrp Hrda Huse Hfit Hwp Hb] Hn.
  split; simpl; rewrite ?length_app, ?length_take, ?length_drop; try done.
  - apply Z.mod_pos_bound. lia.
  - rewrite u64_small by lia. lia.
  - lia.
  - rewrite !u64_small by lia. rewrite Z.add_mod_idemp_l by lia. rewrite Hwp. f_equal. lia.
  - intros i Hi. rewrite u64_small by lia. rewrite <-app_assoc, take_drop.
    rewrite <-Hb by lia. do 2 f_equal.
    rewrite <-!Z.add_sub_swap, Zminus_mod, Z.add_mod_idemp_l by lia.
    rewrite <-Zminus_mod. f_equal. lia.
Qed.

(** Releasing [n] bytes drops the oldest sent ones. *)
Lemma ring_read_release self sent ready (n : nat) :
  ring_rep self sent ready → (n ≤ length sent)%nat →
  ring_rep (hev_ring_buffer_read_release (Z.of_nat n) self) (drop n sent) ready.
Proof.
  intros [Hm Hd Hrp Hrda Huse Hfit Hwp Hb] Hn. unfold hev_ring_buffer_read_release.
  rewrite u64_small by lia. destruct (Z.eqb_spec (use_size self - Z.of_nat n) 0) as [Hz|Hz].
  - assert (length ready = 0%nat ∧ length (drop n sent) = 0%nat) as [Hr Hs] by (rewrite length_drop; lia).
    split; simpl; rewrite ?Hr, ?Hs; try done; try lia.
    rewrite Hrda, Hr. by rewrite Z.mod_0_l by lia.
  - split; simpl; rewrite ?length_drop; try done; try lia.
    intros i Hi. rewrite <-drop_app_le by lia. rewrite lookup_drop, <-Hb by lia.
    do 2 f_equal. f_equal. lia.
Qed.

(** ** Sequences of operations *)

Inductive ring_op :=
  | OpWrite (bs : list Z)     (* fill the vector of [writing], then [write_finish] *)
  | OpRead (n : nat)          (* take [n] bytes of the vector of [reading], then [read_finish] *)
  | OpRelease (n : nat).      (* [read_release] *)

(** An operation, and the bytes it takes out. *)
Definition ring_do (op : ring_op) (self : HevRingBuffer) : list Z * HevRingBuffer :=
  match op with
  | OpWrite bs =>
      ([], hev_ring_buffer_write_finish (Z.of_nat (length bs))
             (set_rdata (iov_scatter (rdata self) (hev_ring_buffer_writing self) bs) self))
  | OpRead n =>
      (take n (iov_gather (rdata self) (hev_ring_buffer_reading self)),
       hev_ring_buffer_read_finish (Z.of_nat n) self)
  | OpRelease n => ([], hev_ring_buffer_read_release (Z.of_nat n) self)
  end.

Fixpoint ring_run (ops : list ring_op) (self : HevRingBuffer) : list Z * HevRingBuffer :=
  match ops with
  | [] => ([], self)
  | op :: ops =>
      let '(o1, self) := ring_do op self in
      let '(o2, self) := ring_run ops self in (o1 ++ o2, self)
  end.

(** The same operations on the two sequences; [None] when an operation exceeds
    what its vector or the buffer has. *)
Definition fifo_do (max : nat) (op : ring_op) (q : list Z * list Z) : option (list Z * list Z) :=
  let '(sent, ready) := q in
  match op with
  | OpWrite bs =>
      if decide (length bs ≤ max - (length sent + length ready))%nat
      then Some (sent, ready ++ bs) else None
  | OpRead n =>
      if decide (n ≤ length ready)%nat
      then Some (sent ++ take n ready, drop n ready) else None
  | OpRelease n => if decide (n ≤ length sent)%nat then Some (drop n sent, ready) else None
  end.

Fixpoint fifo_run (max : nat) (ops : list ring_op) (q : list Z * list Z) : option (list Z * list Z) :=
  match ops with [] => Some q | op :: ops => q ← fifo_do max op q; fifo_run max ops q end.

Definition op_written (op : ring_op) : list Z := match op with OpWrite bs => bs | _ => [] end.

Lemma ring_do_spec self sent ready op sent' ready' :
  ring_rep self sent ready →
  fifo_do (Z.to_nat (max_size self)) op (sent, ready) = Some (sent', ready') →
  ring_rep (ring_do op self).2 sent' ready' ∧ max_size (ring_do op self).2 = max_size self ∧
  ready ++ op_written op = (ring_do op self).1 ++ ready'.
Proof.
  intros H Hdo. destruct op as [bs|n|n]; simpl in *; case_decide as Hg; simplify_eq.
  - split_and!; [|done|done]. apply ring_write; [done|].
    rewrite (rr_use _ _ _ H). pose proof (rr_fit _ _ _ H) as Hf. rewrite (rr_use _ _ _ H) in Hf. lia.
  - split_and!; [by apply ring_read_finish|done|].
    rewrite (proj1 (ring_reading _ _ _ H)), app_nil_r, take_drop. done.
  - split_and!; [by apply ring_read_release| |by rewrite app_nil_r].
    unfold hev_ring_buffer_read_release. by case_match.
Qed.

Lemma ring_run_spec ops self sent ready sent' ready' :
  ring_rep self sent ready →
  fifo_run (Z.to_nat (max_size self)) ops (sent, ready) = Some (sent', ready') →
  ring_rep (ring_run ops self).2 sent' ready' ∧ max_size (ring_run ops self).2 = max_size self ∧
  ready ++ concat (op_written <$> ops) = (ring_run ops self).1 ++ ready'.
Proof.
  revert self sent ready. induction ops as [|op ops IH]; intros self sent ready H Hrun.
  { simpl in *. simplify_eq. by rewrite app_nil_r. }
  cbn [fifo_run] in Hrun. apply bind_Some in Hrun as ([sent1 ready1] & Hdo & Hrun).
  destruct (ring_do_spec _ _ _ _ _ _ H Hdo) as (H1 & Hm & Hw).
  simpl. destruct (ring_do op self) as [o1 self1]. simpl in *.
  specialize (IH self1 sent1 ready1 H1). rewrite Hm in IH. destruct (IH Hrun) as (H2 & Hm2 & Hw2).
  destruct (ring_run ops self1) as [o2 self2]. simpl in *. split_and!; [done|congruence|].
  rewrite app_assoc, Hw, <-!app_assoc. by f_equal.
Qed.

Lemma ring_alloca_rep s memory :
  0 < s < 2 ^ 63 → Z.of_nat (length memory) = s → ring_rep (hev_ring_buffer_alloca s memory) [] [].
Proof. intros. split; simpl; try done; try lia. Qed.

(** C29: the ring buffer is a bounded queue.  For a new buffer of [s] bytes and
    any sequence of writes, reads and releases within the limits of the two
    vectors, the buffer represents the two sequences of the abstract queue; the
    bytes read, followed by the bytes that can still be read, are the bytes
    written, in order; the vector for reading holds exactly the ready bytes,
    the vector for writing exactly the free space, and both stay inside the
    memory of the buffer. *)
Theorem ring_buffer_fifo s memory ops sent ready :
  0 < s < 2 ^ 63 → Z.of_nat (length memory) = s →
  fifo_run (Z.to_nat s) ops ([], []) = Some (sent, ready) →
  let '(out, self) := ring_run ops (hev_ring_buffer_alloca s memory) in
  out ++ ready = concat (op_written <$> ops) ∧
  iov_gather (rdata self) (hev_ring_buffer_reading self) = ready ∧
  iov_total (hev_ring_buffer_writing self) = s - Z.of_nat (length sent + length ready) ∧
  hev_ring_buffer_get_use_size self = Z.of_nat (length sent + length ready) ∧
  iov_inside self (hev_ring_buffer_reading self) ∧ iov_inside self (hev_ring_buffer_writing self).
Proof.
  intros Hs Hl Hrun. pose proof (ring_alloca_rep s memory Hs Hl) as H0.
  destruct (ring_run_spec ops _ _ _ _ _ H0 Hrun) as (H & Hmax & Hw).
  destruct (ring_run ops (hev_ring_buffer_alloca s memory)) as [out self]. simpl in *.
  destruct (ring_reading _ _ _ H) as [Hr1 Hr2], (ring_writing _ _ _ H) as [Hw1 Hw2].
  rewrite (rr_use _ _ _ H) in Hw1. unfold hev_ring_buffer_get_use_size.
  rewrite (rr_use _ _ _ H). split_and!; [done|done|lia|done|done|done].
Qed.

(** Four bytes of memory; the last write wraps around. *)
Lemma ring_buffer_fifo_witness :
  let ops := [OpWrite [1; 2; 3]; OpRead 2; OpRelease 1; OpWrite [4; 5]] in
  let '(out, self) := ring_run ops (hev_ring_buffer_alloca 4 [0; 0; 0; 0]) in
  out ++ [3; 4; 5] = [1; 2; 3; 4; 5] ∧
  iov_gather (rdata self) (hev_ring_buffer_reading self) = [3; 4; 5] ∧
  iov_total (hev_ring_buffer_writing self) = 0 ∧
  hev_ring_buffer_get_use_size self = 4 ∧
  iov_inside self (hev_ring_buffer_reading self) ∧ iov_inside self (hev_ring_buffer_writing self).
Proof.
  exact (ring_buffer_fifo 4 [0; 0; 0; 0] [OpWrite [1; 2; 3]; OpRead 2; OpRelease 1; OpWrite [4; 5]]
    [2] [3; 4; 5] ltac:(lia) ltac:(reflexivity) ltac:(reflexivity)).
Defined.
