(* ===== verification/MappedDNS.v ===== *)
(** * The mapped DNS cache (src/hev-mapped-dns.c): the model

    The cache maps host names to addresses of a private network, and back.  A
    node carries a red-black tree node (at offset 0), a list node (at offset
    24, the size of the tree node), the name and the index.  The memory of the
    nodes is split by field: [dns_tree] holds the tree nodes at the node's
    address [a], [dns_list] the list nodes at [a + 24], [dns_nodes] the name and
    the index at [a]; [container_of] is the address arithmetic between them. *)

From S2P Require Import Prelude HevList RBTree RBTreeSearch CString.

Record HevMappedDNSNode := mk_dnode {
  dn_name : option (list Z);   (* [None]: a NULL pointer, [strdup] has failed *)
  dn_idx : Z;
}.

Record HevMappedDNS := mk_dns {
  dns_use : Z;
  dns_max : Z;
  dns_net : Z;
  dns_mask : Z;
  dns_list : HevList;
  dns_tree : HevRBTree;
  dns_nodes : gmap Z HevMappedDNSNode;
  dns_records : list Z;
}.

(** The C library's allocator: [malloc live] is the address of a new node when
    the nodes at the addresses [live] are in use, or [None] for NULL;
    [strdup_ok] tells whether [strdup] succeeds. *)
Class DnsAlloc := {
  malloc : gset Z → option Z;
  strdup_ok : gset Z → list Z → bool;
}.

(** What the code relies on: a block is aligned, not NULL, and not in use. *)
Class DnsAllocLaws `{DnsAlloc} : Prop := {
  malloc_fresh live a :
    malloc live = Some a → is_ptr a ∧ is_ptr (a + 24) ∧ a ∉ live;
}.

Definition list_off : Z := 24.

(** ** Running the operations of the list and of the tree *)

Definition set_dns_list (l : HevList) (s : HevMappedDNS) : HevMappedDNS :=
  mk_dns (dns_use s) (dns_max s) (dns_net s) (dns_mask s) l (dns_tree s) (dns_nodes s) (dns_records s).
Definition set_dns_tree (t : HevRBTree) (s : HevMappedDNS) : HevMappedDNS :=
  mk_dns (dns_use s) (dns_max s) (dns_net s) (dns_mask s) (dns_list s) t (dns_nodes s) (dns_records s).
Definition set_dns_nodes (m : gmap Z HevMappedDNSNode) (s : HevMappedDNS) : HevMappedDNS :=
  mk_dns (dns_use s) (dns_max s) (dns_net s) (dns_mask s) (dns_list s) (dns_tree s) m (dns_records s).
Definition set_dns_use (u : Z) (s : HevMappedDNS) : HevMappedDNS :=
  mk_dns u (dns_max s) (dns_net s) (dns_mask s) (dns_list s) (dns_tree s) (dns_nodes s) (dns_records s).
Definition set_dns_records (r : list Z) (s : HevMappedDNS) : HevMappedDNS :=
  mk_dns (dns_use s) (dns_max s) (dns_net s) (dns_mask s) (dns_list s) (dns_tree s) (dns_nodes s) r.

Definition in_list {A} : stm HevList A → stm HevMappedDNS A := zoom dns_list set_dns_list.
Definition in_tree {A} : stm HevRBTree A → stm HevMappedDNS A := zoom dns_tree set_dns_tree.

Definition dn_load (a : Z) : stm HevMappedDNS HevMappedDNSNode := λ s,
  match dns_nodes s !! a with Some n => Some (n, s) | None => None end.
Definition dn_set_idx (a idx : Z) : stm HevMappedDNS unit :=
  n ← dn_load a; modify (λ s, set_dns_nodes (<[a := mk_dnode (dn_name n) idx]> (dns_nodes s)) s).

(** [self->records[idx]] *)
Definition record_load (idx : Z) : stm HevMappedDNS Z := λ s,
  match buf_read (dns_records s) idx with Some a => Some (a, s) | None => None end.
Definition record_store (idx a : Z) : stm HevMappedDNS unit := λ s,
  if (0 <=? idx) && (idx <? Z.of_nat (length (dns_records s)))
  then Some (tt, set_dns_records (<[Z.to_nat idx := a]> (dns_records s)) s) else None.

(** A bound on the steps of a walk through the tree or the list. *)
Definition dns_fuel (s : HevMappedDNS) : nat := S (size (dns_nodes s)).

Section dns.
  Context `{DnsAlloc}.

(** ** Nodes *)

Definition hev_mapped_dns_node_alloc (name : list Z) : stm HevMappedDNS Z := λ s,
  match malloc (dom (dns_nodes s)) with
  | None => Some (0, s)
  | Some a =>
      let nm := if strdup_ok (dom (dns_nodes s)) name then Some name else None in
      Some (a,
        set_dns_list (mk_hlist (hl_head (dns_list s)) (hl_tail (dns_list s))
          (<[a + list_off := mk_lnode 0 0]> (hl_mem (dns_list s))))
        (set_dns_tree (mk_rbtree (rb_root (dns_tree s))
          (<[a := mk_rbnode 0 0 0]> (rb_mem (dns_tree s))))
        (set_dns_nodes (<[a := mk_dnode nm 0]> (dns_nodes s)) s)))
  end.

Definition hev_mapped_dns_node_free (a : Z) : stm HevMappedDNS unit :=
  _ ← dn_load a;
  modify (λ s,
    set_dns_list (mk_hlist (hl_head (dns_list s)) (hl_tail (dns_list s))
      (delete (a + list_off) (hl_mem (dns_list s))))
    (set_dns_tree (mk_rbtree (rb_root (dns_tree s)) (delete a (rb_mem (dns_tree s))))
    (set_dns_nodes (delete a (dns_nodes s)) s))).

(** ** Lookup by name *)

(** The descent of [hev_mapped_dns_find]: the node with the name, or the link
    and the parent for a new node. *)
Fixpoint dns_find_loop (fuel : nat) (new : rb_link) (parent : Z) (name : list Z) :
    stm HevMappedDNS (Z + rb_link * Z) :=
  match fuel with
  | O => ub
  | S fuel =>
      n ← in_tree (get_link new);
      if n =? 0 then mret (inr (new, parent))
      else
        node ← dn_load n;
        match dn_name node with
        | None => ub
        | Some nm =>
            let res := strcmp nm name in
            if res <? 0 then dns_find_loop fuel (LLeft n) n name
            else if 0 <? res then dns_find_loop fuel (LRight n) n name
            else mret (inl n)
        end
  end.

(** The node of the cache that is least recently used leaves; its index is free
    for the new node. *)
Definition dns_evict : stm HevMappedDNS Z :=
  nl ← in_list hev_list_first;
  let nf := nl - list_off in
  n ← dn_load nf;
  fuel ← gets dns_fuel;
  in_tree (hev_rbtree_erase fuel nf);;
  in_list (hev_list_del (nf + list_off));;
  hev_mapped_dns_node_free nf;;
  mret (dn_idx n).

Definition hev_mapped_dns_find (name : list Z) : stm HevMappedDNS Z :=
  use ← gets dns_use;
  fuel ← gets dns_fuel;
  r ← dns_find_loop fuel LRoot 0 name;
  match r with
  | inl node =>
      in_list (hev_list_del (node + list_off));;
      in_list (hev_list_add_tail (node + list_off));;
      n ← dn_load node;
      mret (dn_idx n)
  | inr (new, parent) =>
      node ← hev_mapped_dns_node_alloc name;
      if node =? 0 then mret (-1)
      else
        fuel ← gets dns_fuel;
        in_tree (hev_rbtree_node_link node parent new);;
        in_tree (hev_rbtree_insert_color fuel node);;
        in_list (hev_list_add_tail (node + list_off));;
        max ← gets dns_max;
        idx ← (if use <? max then modify (set_dns_use (use + 1));; mret use
               else dns_evict);
        record_store idx node;;
        dn_set_idx node idx;;
        mret idx
  end.

(** ** Lookup by address *)

Definition hev_mapped_dns_lookup (ip : Z) : stm HevMappedDNS (option (list Z)) :=
  mask ← gets dns_mask;
  max ← gets dns_max;
  let idx := Z.land ip (Z.lnot mask) in
  if max <=? idx then mret None
  else
    node ← record_load idx;
    if node =? 0 then mret None
    else
      in_list (hev_list_del (node + list_off));;
      in_list (hev_list_add_tail (node + list_off));;
      n ← dn_load node;
      mret (dn_name n).

(** ** Construction and destruction *)

(** [hev_mapped_dns_construct] on the zeroed object; [base] is the result of
    [hev_object_construct]. *)
Definition hev_mapped_dns_construct (base : Z) (net mask max : Z) :
    stm HevMappedDNS Z :=
  if base <? 0 then mret base
  else if Z.lnot mask <? max then mret (-1)
  else
    modify (λ s, mk_dns (dns_use s) max net mask (dns_list s) (dns_tree s) (dns_nodes s)
      (dns_records s));;
    mret 0.

(** The memory [hev_malloc0] gives for the object with [max] records. *)
Definition dns_zeroed (max : Z) : HevMappedDNS :=
  mk_dns 0 0 0 0 (mk_hlist 0 0 ∅) (mk_rbtree 0 ∅) ∅ (replicate (Z.to_nat max) 0).

Definition hev_mapped_dns_new (malloc_ok : bool) (base : Z) (net mask max : Z) :
    option HevMappedDNS :=
  if negb malloc_ok then None else
  match hev_mapped_dns_construct base net mask max (dns_zeroed max) with
  | Some (res, s) => if res <? 0 then None else Some s
  | None => None
  end.

Fixpoint dns_destruct_loop (fuel : nat) (n : Z) : stm HevMappedDNS unit :=
  if n =? 0 then mret tt
  else
    match fuel with
    | O => ub
    | S fuel =>
        let t := n - list_off in
        n' ← in_list (hev_list_node_next n);
        hev_mapped_dns_node_free t;;
        dns_destruct_loop fuel n'
    end.

Definition hev_mapped_dns_destruct : stm HevMappedDNS unit :=
  n ← in_list hev_list_first;
  fuel ← gets dns_fuel;
  dns_destruct_loop fuel n.
End dns.
