(* ===== verification/MappedDNSCache.v ===== *)
(** * The mapped DNS cache implements a least-recently-used cache

    The abstract cache is the sequence of its (name, index) pairs, the least
    recently used first.  [dns_rep s c] relates the memory of the C code to the
    cache [c]: the list, the tree, the names and the record array all hold the
    same nodes.  The lemmas show that [hev_mapped_dns_find] and
    [hev_mapped_dns_lookup] implement [cache_find] and [cache_lookup]. *)

From stdpp Require Import sorting.
From S2P Require Import Prelude HevList RBTree RBTreeRep RBTreeInsert RBTreeErase RBTreeIter RBTreeSearch CString MappedDNS.

(** ** The abstract cache *)

Notation entry := (list Z * Z)%type.
Notation cache := (list (list Z * Z)%type).

(** The entry at a position becomes the most recently used one. *)
Definition cache_touch (c : cache) (i : nat) : cache :=
  match c !! i with Some e => delete i c ++ [e] | None => c end.

Definition cache_find (max : Z) (c : cache) (name : list Z) : cache * Z :=
  match list_find (λ e : entry, e.1 = name) c with
  | Some (i, (_, idx)) => (cache_touch c i, idx)
  | None =>
      if Z.of_nat (length c) <? max then
        (c ++ [(name, Z.of_nat (length c))], Z.of_nat (length c))
      else
        match c with
        | [] => (c, -1)
        | (_, idx) :: c => (c ++ [(name, idx)], idx)
        end
  end.

Definition cache_lookup (c : cache) (idx : Z) : cache * option (list Z) :=
  match list_find (λ e : entry, e.2 = idx) c with
  | Some (i, (name, _)) => (cache_touch c i, Some name)
  | None => (c, None)
  end.

(** A cache of [max] entries: distinct names, and the indices in use are the
    first ones. *)
Record cache_ok (max : Z) (c : cache) : Prop := {
  co_len : Z.of_nat (length c) ≤ max;
  co_names : NoDup c.*1;
  co_idx : c.*2 ≡ₚ seqZ 0 (Z.of_nat (length c));
}.

(** ** Representation *)

Definition nkey (m : gmap Z HevMappedDNSNode) (a : Z) : list Z :=
  match m !! a with Some n => default [] (dn_name n) | None => [] end.

(** A node of the cache: its address and its entry. *)
Definition lcell (x : Z * entry) : Z := x.1 + list_off.
Definition ncell (x : Z * entry) : Z * HevMappedDNSNode := (x.1, mk_dnode (Some x.2.1) x.2.2).

(** The list, the tree and the names hold the nodes [L], the least recently
    used first. *)
Record dns_mid (s : HevMappedDNS) (L : list (Z * entry)) : Prop := {
  dm_list : list_is (dns_list s) (lcell <$> L) [];
  dm_tree : ∃ ys, rb_done (dns_tree s) ys [] ∧ ys ≡ₚ L.*1 ∧
              descending strcmp (nkey (dns_nodes s)) ys;
  dm_nodes : heap_is (dns_nodes s) (ncell <$> L);
}.

(** So does the record array, at the indices of the nodes. *)
Record dns_is (s : HevMappedDNS) (L : list (Z * entry)) : Prop := {
  di_mid : dns_mid s L;
  di_len : Z.of_nat (length (dns_records s)) = dns_max s;
  di_use : dns_use s = Z.of_nat (length L);
  di_rec : ∀ x, x ∈ L → buf_read (dns_records s) x.2.2 = Some x.1;
  di_null : ∀ i, dns_use s ≤ i < dns_max s → buf_read (dns_records s) i = Some 0;
  di_ok : cache_ok (dns_max s) L.*2;
}.

(** The fields the list, tree and node operations leave alone. *)
Definition same_rest (s s' : HevMappedDNS) : Prop :=
  dns_use s' = dns_use s ∧ dns_max s' = dns_max s ∧ dns_net s' = dns_net s ∧
  dns_mask s' = dns_mask s ∧ dns_records s' = dns_records s.

Definition dns_rep (s : HevMappedDNS) (c : cache) : Prop := ∃ L, dns_is s L ∧ c = L.*2.

(** ** Elementary facts *)

Lemma ncell_fst L : (ncell <$> L).*1 = L.*1.
Proof. rewrite <-list_fmap_compose. by apply list_fmap_ext. Qed.

Lemma nkey_cell m L a e : heap_is m (ncell <$> L) → (a, e) ∈ L → nkey m a = e.1.
Proof.
  intros Hm Ha. apply list_elem_of_lookup in Ha as [i Hi]. unfold nkey.
  erewrite (heap_lookup _ _ i a); [|exact Hm|by rewrite list_lookup_fmap, Hi]. done.
Qed.

Lemma dns_mid_fuel s L : dns_mid s L → dns_fuel s = S (length L).
Proof. intros H. unfold dns_fuel. by rewrite (heap_size _ _ (dm_nodes _ _ H)), length_fmap. Qed.

Lemma seqZ_lookup_idx L i e max : cache_ok max L → L !! i = Some e → 0 ≤ e.2 < Z.of_nat (length L).
Proof.
  intros Hok Hi. assert (e.2 ∈ L.*2) as He.
  { apply list_elem_of_fmap. exists e. split; [done|]. by eapply list_elem_of_lookup_2. }
  rewrite (co_idx _ _ Hok), elem_of_seqZ in He. lia.
Qed.

(** ** Symbolic execution on the parts *)

Lemma wp_in_list {A} (c : stm HevList A) s (Q : A → HevMappedDNS → Prop) :
  wp c (dns_list s) (λ a l, Q a (set_dns_list l s)) → wp (in_list c) s Q.
Proof. apply wp_zoom. Qed.

Lemma wp_in_tree {A} (c : stm HevRBTree A) s (Q : A → HevMappedDNS → Prop) :
  wp c (dns_tree s) (λ a t, Q a (set_dns_tree t s)) → wp (in_tree c) s Q.
Proof. apply wp_zoom. Qed.

Lemma wp_dn_load s L i a e (Q : HevMappedDNSNode → HevMappedDNS → Prop) :
  heap_is (dns_nodes s) (ncell <$> L) → L !! i = Some (a, e) →
  Q (mk_dnode (Some e.1) e.2) s → wp (dn_load a) s Q.
Proof.
  intros Hm Hi HQ. unfold wp, dn_load.
  by erewrite (heap_lookup _ _ i a); [|exact Hm|by rewrite list_lookup_fmap, Hi].
Qed.

(** The descent follows [locate]. *)
Definition found (p : ctx * tree) : Z + rb_link * Z :=
  match p.2 with E => inr (link_of p.1, cpar p.1) | T _ _ a _ => inl a end.

Lemma wp_dns_find_loop fuel s k t F L name :
  rbrep (dns_tree s) k t F → heap_is (dns_nodes s) (ncell <$> L) →
  inorder (plug k t) ⊆ L.*1 → (height t < fuel)%nat →
  wp (dns_find_loop fuel (link_of k) (cpar k) name) s
    (λ r s', s' = s ∧ r = found (locate (λ a, strcmp (nkey (dns_nodes s) a) name) k t)).
Proof.
  revert k t. induction fuel as [|fuel IH]; intros k t H Hm Hsub Hf; [lia|].
  simpl. apply wp_bind, wp_in_tree. eapply wp_get_link; [exact H|].
  replace (set_dns_tree (dns_tree s) s) with s by by destruct s.
  pose proof H as Hn. eapply (rs_rootp_null _ _ _ _ _) in Hn.
  destruct t as [|c l a r]; simpl in *.
  - by apply wp_ret.
  - destruct (Z.eqb_spec a 0) as [Ha|Ha]; [by apply Hn in Ha|].
    assert (a ∈ L.*1) as ([a' e] & Heq & Hin)%list_elem_of_fmap.
    { apply Hsub. rewrite inorder_plug. simpl. set_solver. }
    simpl in Heq. subst a'. pose proof (nkey_cell _ _ _ _ Hm Hin) as ->.
    apply list_elem_of_lookup in Hin as [i Hi].
    apply wp_bind. eapply wp_dn_load; [done..|]. simpl.
    repeat case_match.
    + eapply (IH (Lf c a r :: k) l); [|done|done|lia]. by apply rbrep_plug, (rbrep_plug _ k).
    + eapply (IH (Rf c l a :: k) r); [|done|done|lia]. by apply rbrep_plug, (rbrep_plug _ k).
    + by apply wp_ret.
Qed.

(** ** The operations on the nodes *)

Lemma cache_ok_perm max c c' : cache_ok max c → c ≡ₚ c' → cache_ok max c'.
Proof.
  intros [Hl Hn Hi] HP. assert (length c = length c') as He by by rewrite HP.
  split; [by rewrite <-He|by rewrite <-HP|by rewrite <-He, <-HP].
Qed.

Lemma dns_mid_perm s l L L' :
  dns_mid s L → L ≡ₚ L' → list_is l (lcell <$> L') [] → dns_mid (set_dns_list l s) L'.
Proof.
  intros [Hl (ys & Ht & HP & Hd) Hn] HL Hl'. split; simpl; [done| |by rewrite <-HL].
  exists ys. by rewrite <-HL.
Qed.

Lemma dns_is_perm s l L L' :
  dns_is s L → L ≡ₚ L' → list_is l (lcell <$> L') [] → dns_is (set_dns_list l s) L'.
Proof.
  intros [Hm Hlen Huse Hrec Hnull Hok] HL Hl'.
  split; simpl; [by eapply dns_mid_perm|done|by rewrite <-HL|by setoid_rewrite <-HL|done|].
  eapply cache_ok_perm; [done|]. by rewrite HL.
Qed.

(** The pair of list calls that makes a node the most recently used one. *)
Lemma wp_dns_touch {A} (k : stm HevMappedDNS A) s L1 x L2 Q :
  dns_is s (L1 ++ x :: L2) →
  (∀ l, dns_is (set_dns_list l s) (L1 ++ L2 ++ [x]) → wp k (set_dns_list l s) Q) →
  wp (in_list (hev_list_del (lcell x));; in_list (hev_list_add_tail (lcell x));; k) s Q.
Proof.
  intros H HQ. pose proof (dm_list _ _ (di_mid _ _ H)) as Hl.
  rewrite fmap_app in Hl. simpl in Hl.
  apply wp_bind, wp_in_list. eapply wp_mono; [by apply wp_hev_list_del|].
  intros [] l1 [n H1]. apply wp_bind, wp_in_list.
  eapply wp_mono; [by eapply wp_hev_list_add_tail|]. intros [] l2 H2. simpl in *.
  apply HQ. eapply dns_is_perm; [done|solve_Permutation|].
  by rewrite !fmap_app, app_assoc.
Qed.

Section alloc.
Context `{DnsAllocLaws}.

Lemma lcell_fresh s L a :
  dns_mid s L → a ∉ L.*1 → hl_mem (dns_list s) !! (a + list_off) = None.
Proof.
  intros [[(_ & _ & ->) _ _] _ _] Ha. apply not_elem_of_list_to_map.
  rewrite app_nil_r, lseg_fst. intros (x & Hx & Hin)%list_elem_of_fmap. apply Ha.
  unfold lcell in Hx. apply list_elem_of_fmap. exists x. split; [lia|done].
Qed.

Lemma tcell_fresh s L a : dns_mid s L → a ∉ L.*1 → rb_mem (dns_tree s) !! a = None.
Proof.
  intros [_ (ys & Ht & HP & _) _] Ha. destruct (rb_done_fst _ _ _ Ht) as (L' & (_ & _ & ->) & HL').
  apply not_elem_of_list_to_map. by rewrite app_nil_r, HL', HP.
Qed.

Lemma nkey_insert_ne m a n b : a ≠ b → nkey (<[a:=n]> m) b = nkey m b.
Proof. intros. unfold nkey. by rewrite lookup_insert_ne. Qed.

(** A new node in the three memories. *)
Definition dns_fresh (s : HevMappedDNS) (L : list (Z * entry)) (a : Z) (name : list Z)
    (s' : HevMappedDNS) : Prop :=
  same_rest s s' ∧ is_ptr a ∧ a ∉ L.*1 ∧
  (∃ n, list_is (dns_list s') (lcell <$> L) [(a + list_off, n)]) ∧
  rb_root (dns_tree s') = rb_root (dns_tree s) ∧
  (∃ n, rb_mem (dns_tree s') = <[a:=n]> (rb_mem (dns_tree s))) ∧
  heap_is (dns_nodes s') (ncell <$> ((a, (name, 0)) :: L)) ∧
  ∀ b, b ∈ L.*1 → nkey (dns_nodes s') b = nkey (dns_nodes s) b.

Lemma wp_node_alloc s L name (Q : Z → HevMappedDNS → Prop) :
  dns_mid s L → (∀ live, strdup_ok live name = true) →
  (malloc (dom (dns_nodes s)) = None → Q 0 s) →
  (∀ a s', dns_fresh s L a name s' → Q a s') →
  wp (hev_mapped_dns_node_alloc name) s Q.
Proof.
  intros H1 Hdup Q0 HQ. unfold wp, hev_mapped_dns_node_alloc.
  destruct (malloc _) as [a|] eqn:Hm; [|by apply Q0].
  destruct (malloc_fresh _ _ Hm) as (Ha & Ha' & Hf). rewrite Hdup. apply HQ.
  destruct (dm_nodes _ _ H1) as (Hnd & Hp & Heq). rewrite Heq, dom_list_to_map_L, elem_of_list_to_set, ncell_fst in Hf.
  split_and!; simpl; try done.
  - exists (mk_lnode 0 0). destruct (dm_list _ _ H1) as [Hh Hhd Htl]. split; [|done..]. simpl.
    eapply heap_perm; [eapply heap_alloc; [exact Hh|done|]|solve_Permutation].
    by eapply lcell_fresh.
  - by exists (mk_rbnode 0 0 0).
  - apply heap_alloc; [apply (dm_nodes _ _ H1)|done|].
    rewrite Heq. apply not_elem_of_list_to_map. by rewrite ncell_fst.
  - intros b Hb. apply nkey_insert_ne. by intros ->.
Qed.

Lemma dns_fresh_tree s L a name s' k :
  dns_fresh s L a name s' → rbrep (dns_tree s) k E [] → inorder (plug k E) ≡ₚ L.*1 →
  ∃ n, rbrep (dns_tree s') k E [(a, n)].
Proof.
  intros (_ & Ha & Hn & _ & Hr & (n & Hm) & _) [Hh Hroot] HP. exists n.
  split; [|by rewrite Hr]. rewrite Hm. simpl in *.
  eapply heap_perm; [eapply heap_alloc; [exact Hh|done|]|solve_Permutation].
  destruct Hh as (_ & _ & ->). apply not_elem_of_list_to_map.
  rewrite app_nil_r. change (ccells k 0) with (cells (cpar k) E ++ ccells k (rootp E)).
  by rewrite <-cells_plug, cells_fst, HP.
Qed.

Lemma wp_dns_insert {A} (K : stm HevMappedDNS A) s L a name s' k fuel Q :
  dns_fresh s L a name s' → rbrep (dns_tree s) k E [] → redblack (plug k E) →
  kleft k ++ kright k ≡ₚ L.*1 → descending strcmp (nkey (dns_nodes s)) (kleft k ++ kright k) →
  Forall (λ x, 0 < strcmp (nkey (dns_nodes s) x) name) (kleft k) →
  Forall (λ x, strcmp (nkey (dns_nodes s) x) name < 0) (kright k) →
  (length L < fuel)%nat →
  (∀ s'', same_rest s s'' → dns_mid s'' (L ++ [(a, (name, 0))]) → wp K s'' Q) →
  wp (in_tree (hev_rbtree_node_link a (cpar k) (link_of k));;
      in_tree (hev_rbtree_insert_color fuel a);;
      in_list (hev_list_add_tail (a + list_off));; K) s' Q.
Proof.
  intros Hfr Ht Hrb HP Hd Hl Hr Hf HQ.
  destruct (dns_fresh_tree _ _ _ _ _ _ Hfr Ht) as [n Ht']; [by rewrite inorder_plug|].
  destruct Hfr as (Hrest & Ha & Hn & (nl & Hlist) & _ & _ & Hnodes & Hkey).
  assert (length k < fuel)%nat as Hkf.
  { pose proof (ctx_length k). apply Permutation_length in HP.
    rewrite length_app, length_fmap in HP. lia. }
  apply wp_bind, wp_in_tree.
  eapply wp_mono; [exact (wp_bind_inv _ _ _ _ (wp_rb_insert fuel _ k a n [] Ht' Hrb Hkf))|].
  intros [] t1 Hins. apply wp_bind, wp_in_tree. simpl. eapply wp_mono; [exact Hins|].
  intros [] t2 Hdone. apply wp_bind, wp_in_list. simpl.
  eapply wp_mono; [by eapply wp_hev_list_add_tail|]. intros [] l2 Hl2. simpl. apply HQ; [done|].
  assert (nkey (dns_nodes s') a = name) as Hka by (apply (nkey_cell _ _ _ (name, 0) Hnodes); set_solver).
  assert (∀ x, x ∈ kleft k ++ kright k → nkey (dns_nodes s') x = nkey (dns_nodes s) x) as Hkx.
  { intros x Hx. apply Hkey. by rewrite <-HP. }
  split; simpl.
  - by rewrite fmap_app.
  - exists (kleft k ++ a :: kright k). split_and!; [done| |].
    + rewrite fmap_app. simpl. rewrite <-HP. solve_Permutation.
    + apply descending_insert; [apply _|..].
      * eapply (descending_ext strcmp); [|exact Hd]. intros x Hx. by rewrite Hkx.
      * rewrite Hka. apply Forall_forall. intros x Hx. rewrite Hkx by set_solver.
        by eapply Forall_forall in Hl.
      * rewrite Hka. apply Forall_forall. intros x Hx. rewrite Hkx by set_solver.
        by eapply Forall_forall in Hr.
  - eapply heap_perm; [exact Hnodes|]. rewrite fmap_app. simpl. solve_Permutation.
Qed.
End alloc.

(** ** Eviction *)

Lemma wp_node_free s L1 a e L2 n n' (Q : unit → HevMappedDNS → Prop) :
  list_is (dns_list s) (lcell <$> L1 ++ L2) [(a + list_off, n)] →
  (∃ ys, rb_done (dns_tree s) ys [(a, n')] ∧ ys ≡ₚ (L1 ++ L2).*1 ∧
    descending strcmp (nkey (dns_nodes s)) ys) →
  heap_is (dns_nodes s) (ncell <$> L1 ++ (a, e) :: L2) →
  (∀ s', same_rest s s' → dns_mid s' (L1 ++ L2) → Q tt s') →
  wp (hev_mapped_dns_node_free a) s Q.
Proof.
  intros [Hh Hhd Htl] (ys & Ht & HP & Hd) Hn HQ. unfold hev_mapped_dns_node_free.
  apply wp_bind. eapply (wp_dn_load _ _ (length L1)); [exact Hn|by rewrite list_lookup_middle|].
  apply wp_modify, HQ; [done|].
  rewrite fmap_app in Hn. simpl in Hn.
  hperm Hn ((a, mk_dnode (Some e.1) e.2) :: (ncell <$> L1) ++ (ncell <$> L2)).
  pose proof (heap_notin _ _ _ _ Hn) as Hna. apply heap_free in Hn. rewrite <-fmap_app in Hn.
  split; simpl.
  - split; [|done..]. simpl. rewrite app_nil_r.
    eapply (heap_free _ _ _ n), heap_perm; [exact Hh|]. solve_Permutation.
  - exists ys. split_and!; [by eapply rb_done_free|done|].
    eapply (descending_ext strcmp); [|exact Hd]. intros x Hx. unfold nkey. rewrite lookup_delete_ne; [done|].
    intros <-. apply Hna. rewrite <-fmap_app, ncell_fst. by rewrite <-HP.
  - done.
Qed.

Lemma wp_dns_evict s a e L (Q : Z → HevMappedDNS → Prop) :
  dns_mid s ((a, e) :: L) →
  (∀ s', same_rest s s' → dns_mid s' L → Q e.2 s') → wp dns_evict s Q.
Proof.
  intros Hm HQ. unfold dns_evict.
  apply wp_bind, wp_in_list. eapply wp_hev_list_first; [apply (dm_list _ _ Hm)|].
  replace (set_dns_list (dns_list s) s) with s by by destruct s. simpl.
  unfold lcell. simpl. replace (a + list_off - list_off) with a by lia.
  apply wp_bind. eapply (wp_dn_load _ _ 0); [apply (dm_nodes _ _ Hm)|done|].
  apply wp_bind, wp_gets. rewrite (dns_mid_fuel _ _ Hm).
  destruct Hm as [Hl (ys & Ht & HP & Hd) Hn].
  assert (a ∈ ys) as (ys1 & ys2 & ->)%list_elem_of_split by (rewrite HP; set_solver).
  apply wp_bind, wp_in_tree. eapply wp_mono.
  { eapply wp_rb_erase; [exact Ht|]. rewrite HP. simpl. rewrite length_fmap. lia. }
  intros [] t1 [n0 Ht1]. apply wp_bind, wp_in_list. simpl. eapply wp_mono.
  { eapply (wp_hev_list_del _ []). exact Hl. }
  intros [] l1 [n1 Hl1]. simpl in *. apply wp_bind.
  eapply (wp_node_free _ [] a e L n1 n0); simpl; [exact Hl1| |exact Hn|].
  - exists (ys1 ++ ys2). split_and!; [done| |by eapply (descending_delete strcmp)].
    apply (Permutation_cons_inv (a:=a)). by rewrite Permutation_middle.
  - intros s' Hs' Hm'. apply wp_ret. apply HQ; [|done]. exact Hs'.
Qed.

Lemma wp_dn_set_idx s L a nm i j (Q : unit → HevMappedDNS → Prop) :
  dns_mid s (L ++ [(a, (nm, i))]) →
  (∀ s', same_rest s s' → dns_mid s' (L ++ [(a, (nm, j))]) → Q tt s') →
  wp (dn_set_idx a j) s Q.
Proof.
  intros [Hl (ys & Ht & HP & Hd) Hn] HQ. apply wp_bind.
  assert (nkey (dns_nodes s) a = nm) as Hk by (apply (nkey_cell _ _ _ (nm, i) Hn); set_solver).
  eapply (wp_dn_load _ _ (length L)); [exact Hn|by rewrite list_lookup_middle|].
  apply wp_modify, HQ; [done|]. split; simpl.
  - rewrite fmap_app in *. exact Hl.
  - exists ys. rewrite fmap_app in *. split_and!; [done..|].
    eapply (descending_ext strcmp); [|exact Hd]. intros x Hx. unfold nkey.
    destruct (decide (x = a)) as [->|]; [|by rewrite lookup_insert_ne].
    rewrite lookup_insert_eq. exact Hk.
  - rewrite fmap_app in *. simpl in *.
    eapply (heap_store _ _ (length L)) in Hn; [|by rewrite list_lookup_middle by by rewrite length_fmap].
    rewrite insert_app_r_alt, length_fmap, Nat.sub_diag in Hn by by rewrite length_fmap.
    exact Hn.
Qed.

(** ** The abstract cache *)

Lemma cache_touch_mid c1 e c2 : cache_touch (c1 ++ e :: c2) (length c1) = c1 ++ c2 ++ [e].
Proof.
  unfold cache_touch. rewrite list_lookup_middle by done. by rewrite delete_middle, <-app_assoc.
Qed.

Lemma list_find_mid {A} (P : A → Prop) `{!∀ x, Decision (P x)} c1 e c2 :
  P e → (∀ x, x ∈ c1 → ¬ P x) → list_find P (c1 ++ e :: c2) = Some (length c1, e).
Proof.
  intros He Hc. apply list_find_Some. split_and!; [by rewrite list_lookup_middle|done|].
  intros j y Hy Hj. apply Hc. rewrite lookup_app_l in Hy by done. by eapply list_elem_of_lookup_2.
Qed.

Lemma cache_find_hit max c1 name idx c2 :
  cache_ok max (c1 ++ (name, idx) :: c2) →
  cache_find max (c1 ++ (name, idx) :: c2) name = (c1 ++ c2 ++ [(name, idx)], idx).
Proof.
  intros [_ Hn _]. unfold cache_find. rewrite list_find_mid; [by rewrite cache_touch_mid|done|].
  intros x Hx He. rewrite fmap_app in Hn. apply NoDup_app in Hn as (_ & Hd & _).
  eapply (Hd x.1); [set_solver|]. rewrite He. set_solver.
Qed.

Lemma cache_find_miss max c name :
  name ∉ c.*1 → cache_find max c name =
    if Z.of_nat (length c) <? max then
      (c ++ [(name, Z.of_nat (length c))], Z.of_nat (length c))
    else match c with [] => (c, -1) | (_, idx) :: c => (c ++ [(name, idx)], idx) end.
Proof.
  intros Hn. unfold cache_find. replace (list_find _ c) with (@None (nat * entry)); [done|].
  symmetry. apply list_find_None, Forall_forall. intros x Hx He. apply Hn. set_solver.
Qed.

Lemma cache_lookup_hit max c1 name idx c2 :
  cache_ok max (c1 ++ (name, idx) :: c2) →
  cache_lookup (c1 ++ (name, idx) :: c2) idx = (c1 ++ c2 ++ [(name, idx)], Some name).
Proof.
  intros [_ _ Hi]. unfold cache_lookup. rewrite list_find_mid; [by rewrite cache_touch_mid|done|].
  intros x Hx He. assert (NoDup (c1 ++ (name, idx) :: c2).*2) as Hd.
  { rewrite Hi. apply NoDup_seqZ. }
  rewrite fmap_app in Hd. apply NoDup_app in Hd as (_ & Hd & _).
  eapply (Hd x.2); [set_solver|]. rewrite He. set_solver.
Qed.

Lemma cache_ok_room max c name :
  cache_ok max c → name ∉ c.*1 → Z.of_nat (length c) < max →
  cache_ok max (c ++ [(name, Z.of_nat (length c))]).
Proof.
  intros [Hl Hn Hi] Hname Hm. split.
  - rewrite length_app. simpl. lia.
  - rewrite fmap_app. apply NoDup_app. split_and!; [done|set_solver|apply NoDup_singleton].
  - rewrite fmap_app, Hi, length_app. simpl.
    replace (Z.of_nat (length c + 1)) with (Z.of_nat (length c) + 1) by lia.
    rewrite seqZ_app by lia. by rewrite Z.add_0_l.
Qed.

Lemma cache_ok_evict max nm idx c name :
  cache_ok max ((nm, idx) :: c) → name ∉ nm :: c.*1 → cache_ok max (c ++ [(name, idx)]).
Proof.
  intros [Hl Hn Hi] Hname. simpl in *. apply NoDup_cons in Hn as [_ Hn]. split.
  - rewrite length_app. simpl. lia.
  - rewrite fmap_app. apply NoDup_app. split_and!; [done|set_solver|apply NoDup_singleton].
  - rewrite fmap_app, length_app, Nat.add_1_r, <-Hi. simpl. solve_Permutation.
Qed.

(** ** The record array *)

Lemma buf_read_insert (r : list Z) i j a :
  0 ≤ i < Z.of_nat (length r) →
  buf_read (<[Z.to_nat i := a]> r) j = if decide (j = i) then Some a else buf_read r j.
Proof.
  intros Hi. unfold buf_read. destruct (Z.leb_spec 0 j); [|case_decide; [lia|done]].
  case_decide; subst; [apply list_lookup_insert_eq; lia|].
  by apply list_lookup_insert_ne; lia.
Qed.

(** Storing the new node at its index completes the representation. *)
Lemma wp_dns_record s s0 L idx a name {A} (ret : A) (Q : A → HevMappedDNS → Prop) :
  dns_mid s (L ++ [(a, (name, 0))]) → dns_max s = dns_max s0 →
  dns_records s = dns_records s0 → Z.of_nat (length (dns_records s0)) = dns_max s0 →
  (∀ x, x ∈ L → buf_read (dns_records s0) x.2.2 = Some x.1) →
  cache_ok (dns_max s0) (L ++ [(a, (name, idx))]).*2 →
  dns_use s = Z.of_nat (length L + 1) →
  (∀ i, dns_use s ≤ i < dns_max s → buf_read (dns_records s0) i = Some 0) →
  (∀ s', dns_is s' (L ++ [(a, (name, idx))]) → dns_max s' = dns_max s →
     dns_net s' = dns_net s → dns_mask s' = dns_mask s → Q ret s') →
  wp (record_store idx a;; dn_set_idx a idx;; mret ret) s Q.
Proof.
  intros Hm Hmax Hr Hlen Hrec Hok Huse Hnull HQ.
  assert (0 ≤ idx < Z.of_nat (length L + 1)) as Hidx.
  { pose proof (seqZ_lookup_idx _ (length L) (name, idx) _ Hok) as Hidx.
    rewrite length_fmap, length_app in Hidx. apply Hidx.
    by rewrite list_lookup_fmap, list_lookup_middle. }
  assert (0 ≤ idx < Z.of_nat (length (dns_records s0))) as Hi.
  { pose proof (co_len _ _ Hok) as Hc. rewrite length_fmap, length_app in Hc. simpl in Hc. lia. }
  apply wp_bind. unfold wp at 1, record_store. rewrite Hr.
  pose proof Hi as [Hi1 Hi2]. apply Z.leb_le in Hi1 as ->. apply Z.ltb_lt in Hi2 as ->. simpl.
  apply wp_bind. eapply (wp_dn_set_idx _ L a name 0 idx).
  { destruct Hm as [Hl Ht Hn]. by split. }
  intros s' (Hu & Hx & Hn & Hmk & Hre) Hm'. simpl in *. apply wp_ret, HQ; [|done..].
  assert (NoDup (L ++ [(a, (name, idx))]).*2.*2) as Hnd.
  { rewrite (co_idx _ _ Hok). apply NoDup_seqZ. }
  split; rewrite ?Hre, ?Hu, ?Hx; [done|by rewrite length_insert, Hlen, Hmax|by rewrite length_app, Huse| | |by rewrite Hmax].
  - intros x Hin. apply elem_of_app in Hin as [Hin| ->%list_elem_of_singleton]; simpl.
    + rewrite buf_read_insert, decide_False; [by apply Hrec| |lia].
      intros He. rewrite !fmap_app in Hnd. apply NoDup_app in Hnd as (_ & Hd & _).
      eapply (Hd x.2.2); [|rewrite He; set_solver]. rewrite <-list_fmap_compose.
      apply list_elem_of_fmap. by exists x.
    + rewrite buf_read_insert by lia. by rewrite decide_True.
  - intros i Hi'. rewrite buf_read_insert, decide_False by lia. apply Hnull. lia.
Qed.

(** ** The operations *)

(** What an operation leaves: the representation of the next cache, in the same
    network. *)
Definition dns_next (s s' : HevMappedDNS) (L' : list (Z * entry)) : Prop :=
  dns_is s' L' ∧ dns_max s' = dns_max s ∧ dns_net s' = dns_net s ∧ dns_mask s' = dns_mask s.

Lemma dns_tree_split s L :
  dns_mid s L → ∃ t, tree_is (dns_tree s) t [] ∧ redblack t ∧ inorder t ≡ₚ L.*1 ∧
    descending strcmp (nkey (dns_nodes s)) (inorder t).
Proof. intros [_ (ys & (t & Ht & Hrb & <-) & HP & Hd) _]. by exists t. Qed.

Section find.
Context `{DnsAllocLaws} (name : list Z) (Hdup : ∀ live, strdup_ok live name = true).

(** A miss: every node of the cache has another name. *)
Lemma locate_miss_notin s L t k :
  heap_is (dns_nodes s) (ncell <$> L) → inorder t ≡ₚ L.*1 →
  descending strcmp (nkey (dns_nodes s)) (inorder t) →
  locate (λ a, strcmp (nkey (dns_nodes s) a) name) [] t = (k, E) → name ∉ L.*2.*1.
Proof.
  intros Hm HP Hd Hl (e & -> & (x & -> & Hx)%list_elem_of_fmap)%list_elem_of_fmap.
  destruct (descending_locate strcmp _ _ _ _ Hd Hl) as [H1 H2].
  pose proof (locate_plug (λ a, strcmp (nkey (dns_nodes s) a) x.2.1) [] t) as Hp.
  rewrite Hl in Hp. simpl in Hp. subst t. rewrite inorder_plug in HP. simpl in HP.
  assert (strcmp (nkey (dns_nodes s) x.1) x.2.1 = 0) as Hx0.
  { destruct x as [a e]. simpl. rewrite (nkey_cell _ _ _ _ Hm Hx). apply (cmp_refl strcmp). }
  assert (x.1 ∈ kleft k ++ kright k) as [Hi|Hi]%elem_of_app
    by (rewrite HP; apply list_elem_of_fmap; by exists x).
  - eapply Forall_forall in H1; [|exact Hi]. simpl in H1. lia.
  - eapply Forall_forall in H2; [|exact Hi]. simpl in H2. lia.
Qed.

(** The end of a miss: the index of the new node, and its record. *)
Lemma wp_find_index s L a s1 :
  dns_is s L → 1 ≤ dns_max s → name ∉ L.*2.*1 →
  same_rest s s1 → dns_mid s1 (L ++ [(a, (name, 0))]) →
  wp (max ← gets dns_max;
      idx ← (if dns_use s <? max then modify (set_dns_use (dns_use s + 1));; mret (dns_use s)
             else dns_evict);
      record_store idx a;; dn_set_idx a idx;; mret idx) s1
    (λ r s', ∃ L', dns_next s s' L' ∧ (L'.*2, r) = cache_find (dns_max s) L.*2 name).
Proof.
  intros [_ Hlen Huse Hrec Hnull Hok] Hmax Hn (Hu & Hx & Hnet & Hmask & Hr) Hm.
  apply wp_bind, wp_gets. rewrite Hx, (cache_find_miss _ _ _ Hn), length_fmap, <-Huse.
  destruct (Z.ltb_spec (dns_use s) (dns_max s)) as [Hlt|Hge].
  - apply wp_bind, wp_bind, wp_modify, wp_ret.
    eapply (wp_dns_record _ s L (dns_use s) a name); simpl; rewrite ?Hx; [|done..| |lia| |].
    + destruct Hm as [? ? ?]. by split.
    + rewrite fmap_app. simpl. replace (dns_use s) with (Z.of_nat (length L.*2)) by by rewrite length_fmap.
      apply cache_ok_room; [done..|]. rewrite length_fmap. lia.
    + intros i Hi. apply Hnull. lia.
    + intros s' Hs' Hx' Hn' Hk'. eexists. split; [split_and!; [exact Hs'|congruence..]|].
      by rewrite fmap_app.
  - destruct L as [|[a0 [nm0 idx0]] L]; [simpl in Huse; lia|]. simpl in *.
    pose proof (co_len _ _ Hok) as Hc. simpl in Hc. rewrite length_fmap in Hc.
    apply wp_bind. eapply (wp_dns_evict _ a0 (nm0, idx0)); [exact Hm|].
    intros s2 (Hu2 & Hx2 & Hnet2 & Hmask2 & Hr2) Hm2. simpl.
    eapply (wp_dns_record _ s L idx0 a name); rewrite ?Hx2, ?Hr2, ?Hu2, ?Hx, ?Hu; [done..| | | | |].
    + intros x Hin. apply Hrec. set_solver.
    + rewrite fmap_app. simpl. by eapply cache_ok_evict.
    + lia.
    + intros i Hi. lia.
    + intros s' Hs' Hx' Hn' Hk'. eexists. split; [split_and!; [exact Hs'|congruence..]|].
      by rewrite fmap_app.
Qed.

Lemma wp_dns_find s L :
  dns_is s L → 1 ≤ dns_max s →
  wp (hev_mapped_dns_find name) s (λ r s',
    (r = -1 ∧ s' = s ∧ name ∉ L.*2.*1 ∧ malloc (dom (dns_nodes s)) = None) ∨
    ∃ L', dns_next s s' L' ∧ (L'.*2, r) = cache_find (dns_max s) L.*2 name).
Proof.
  intros Hs Hmax. unfold hev_mapped_dns_find.
  apply wp_bind, wp_gets. apply wp_bind, wp_gets.
  pose proof (di_mid _ _ Hs) as Hm. rewrite (dns_mid_fuel _ _ Hm).
  destruct (dns_tree_split _ _ Hm) as (t & Ht & Hrb & HP & Hd).
  apply wp_bind. eapply wp_mono.
  { eapply (wp_dns_find_loop _ _ [] t [] L name); [exact Ht|apply (dm_nodes _ _ Hm)|by rewrite HP|].
    pose proof (height_tsize t). rewrite tsize_inorder, HP, length_fmap in *. lia. }
  intros r s' [-> ->]. pose proof (locate_plug (λ a, strcmp (nkey (dns_nodes s) a) name) [] t) as Hpl.
  destruct (locate _ [] t) as [k [|c l a rr]] eqn:Hloc; simpl in Hpl |- *.
  - pose proof (locate_miss_notin _ _ _ _ (dm_nodes _ _ Hm) HP Hd Hloc) as Hnotin.
    destruct (descending_locate strcmp _ _ _ _ Hd Hloc) as [Hkl Hkr]. subst t.
    pose proof HP as HP'. rewrite inorder_plug in HP', Hd. simpl in HP', Hd.
    apply wp_bind. eapply (wp_node_alloc _ L); [done|done|intros Hnull; left; by split_and!|].
    intros a s1 Hfr. pose proof Hfr as (_ & Ha & _ & _ & _ & _ & Hn1 & _).
    apply is_ptr_nonzero, Z.eqb_neq in Ha as ->.
    apply wp_bind, wp_gets. unfold dns_fuel. rewrite (heap_size _ _ Hn1). simpl. rewrite length_fmap.
    eapply wp_dns_insert; [exact Hfr|by apply (proj2 (rbrep_plug _ _ _ _))|done..|lia|].
    clear s1 Hfr Hn1. intros s1 Hsame Hm1.
    eapply wp_mono; [by eapply wp_find_index|]. intros; by right.
  - assert (nkey (dns_nodes s) a = name) as Hka.
    { apply (cmp_eq (cmp:=strcmp)). eapply (locate_hit (λ a, strcmp (nkey (dns_nodes s) a) name) [] t). by rewrite Hloc. }
    assert (a ∈ L.*1) as ([a' e] & Heq & Hin)%list_elem_of_fmap.
    { rewrite <-HP, <-Hpl, inorder_plug. simpl. set_solver. }
    simpl in Heq. subst a'. rewrite (nkey_cell _ _ _ _ (dm_nodes _ _ Hm) Hin) in Hka.
    destruct e as [nm idx]. simpl in Hka. subst nm.
    apply list_elem_of_split in Hin as (L1 & L2 & ->).
    eapply (wp_dns_touch _ _ L1 (a, (name, idx))); [exact Hs|]. intros l2 Hs2.
    apply wp_bind. eapply (wp_dn_load _ _ (length (L1 ++ L2))).
    { exact (dm_nodes _ _ (di_mid _ _ Hs2)). }
    { by rewrite app_assoc, list_lookup_middle. }
    apply wp_ret. right. eexists. split; [split_and!; [exact Hs2|done..]|].
    pose proof (di_ok _ _ Hs) as Hok. rewrite fmap_app in Hok. rewrite !fmap_app.
    symmetry. exact (cache_find_hit _ _ name idx L2.*2 Hok).
Qed.
End find.

(** Lookup by address: with a contiguous mask the index is in the array. *)
Lemma wp_dns_lookup s L ip :
  dns_is s L → 0 ≤ Z.lnot (dns_mask s) →
  wp (hev_mapped_dns_lookup ip) s (λ r s', ∃ L', dns_next s s' L' ∧
    (L'.*2, r) = cache_lookup L.*2 (Z.land ip (Z.lnot (dns_mask s)))).
Proof.
  intros Hs Hmask. unfold hev_mapped_dns_lookup. apply wp_bind, wp_gets, wp_bind, wp_gets.
  set (idx := Z.land ip (Z.lnot (dns_mask s))).
  assert (0 ≤ idx) as Hidx by (apply Z.land_nonneg; by right).
  assert (∀ c : cache, idx ∉ c.*2 → cache_lookup c idx = (c, None)) as Hmiss.
  { intros c Hc. unfold cache_lookup. replace (list_find _ c) with (@None (nat * entry)); [done|].
    symmetry. apply list_find_None, Forall_forall. intros x Hx He. apply Hc. set_solver. }
  assert (idx ∉ L.*2.*2 → ∃ L', dns_next s s L' ∧ (L'.*2, None) = cache_lookup L.*2 idx) as Hnone.
  { intros Hn. exists L. split; [by split_and!|]. by rewrite Hmiss. }
  pose proof (co_idx _ _ (di_ok _ _ Hs)) as Hseq. rewrite length_fmap, <-(di_use _ _ Hs) in Hseq.
  pose proof (co_len _ _ (di_ok _ _ Hs)) as Hcl. rewrite length_fmap, <-(di_use _ _ Hs) in Hcl.
  destruct (Z.leb_spec (dns_max s) idx) as [Hge|Hlt].
  { apply wp_ret, Hnone. rewrite Hseq, elem_of_seqZ. lia. }
  destruct (decide (idx < dns_use s)) as [Hu|Hu].
  - assert (idx ∈ L.*2.*2) as Hin by (rewrite Hseq, elem_of_seqZ; lia).
    apply list_elem_of_fmap in Hin as ([nm i] & Hi & ([a e] & He & Hin)%list_elem_of_fmap).
    simpl in *. subst i e. pose proof (di_rec _ _ Hs _ Hin) as Hrd. simpl in Hrd.
    apply wp_bind. unfold wp at 1, record_load. rewrite Hrd.
    assert (is_ptr a) as Ha.
    { eapply heap_all_ptr; [apply (dm_nodes _ _ (di_mid _ _ Hs))|]. rewrite ncell_fst.
      apply list_elem_of_fmap. by exists (a, (nm, idx)). }
    apply is_ptr_nonzero, Z.eqb_neq in Ha as ->.
    apply list_elem_of_split in Hin as (L1 & L2 & ->).
    eapply (wp_dns_touch _ _ L1 (a, (nm, idx))); [exact Hs|]. intros l2 Hs2.
    apply wp_bind. eapply (wp_dn_load _ _ (length (L1 ++ L2))).
    { exact (dm_nodes _ _ (di_mid _ _ Hs2)). }
    { by rewrite app_assoc, list_lookup_middle. }
    apply wp_ret. eexists. split; [split_and!; [exact Hs2|done..]|].
    pose proof (di_ok _ _ Hs) as Hok. rewrite fmap_app in Hok. rewrite !fmap_app.
    symmetry. exact (cache_lookup_hit _ _ nm idx L2.*2 Hok).
  - apply wp_bind. unfold wp at 1, record_load. rewrite (di_null _ _ Hs) by lia.
    apply wp_ret, Hnone. rewrite Hseq, elem_of_seqZ. lia.
Qed.
