(* ===== verification/MappedDNSPacket.v ===== *)
(** * The mapped DNS server (hev_mapped_dns_handle of src/hev-mapped-dns.c): the model

    The request and the response are two byte buffers; [qlen] and [slen] are
    the lengths the caller passes.  The buffers may be longer than these (a
    packet buffer), and an access outside a buffer is undefined.  The header
    fields are 16-bit loads and stores of a little-endian host. *)

From S2P Require Import Prelude HevList RBTree CString MappedDNS.

Record dns_io := mk_io {
  io_dns : HevMappedDNS;
  io_req : list Z;
  io_res : list Z;
}.

Definition in_dns {A} : stm HevMappedDNS A → stm dns_io A :=
  zoom io_dns (λ d s, mk_io d (io_req s) (io_res s)).

Definition rb_read (i : Z) : stm dns_io Z := λ s,
  match buf_read (io_req s) i with Some v => Some (v, s) | None => None end.
Definition rb_writes (i : Z) (bs : list Z) : stm dns_io unit := λ s,
  match buf_writes (io_req s) i bs with
  | Some b => Some (tt, mk_io (io_dns s) b (io_res s)) | None => None end.
Definition sb_read (i : Z) : stm dns_io Z := λ s,
  match buf_read (io_res s) i with Some v => Some (v, s) | None => None end.
Definition sb_writes (i : Z) (bs : list Z) : stm dns_io unit := λ s,
  match buf_writes (io_res s) i bs with
  | Some b => Some (tt, mk_io (io_dns s) (io_req s) b) | None => None end.

(** [(char * )&rb[i]] read as a string. *)
Definition rb_cstr (i : Z) : stm dns_io (list Z) := λ s,
  match cstr (drop (Z.to_nat i) (io_req s)) with Some n => Some (n, s) | None => None end.

(** 16-bit fields of a little-endian host. *)
Definition le16 (b0 b1 : Z) : Z := Z.lor b0 (Z.shiftl b1 8).
Definition le16_bytes (v : Z) : list Z := [v; Z.shiftr v 8].
Definition ntohs (v : Z) : Z := u16 (Z.lor (Z.shiftl v 8) (Z.shiftr v 8)).
Definition htons (v : Z) : Z := ntohs v.

Definition qhdr_get (i : Z) : stm dns_io Z :=
  b0 ← rb_read i; b1 ← rb_read (i + 1); mret (le16 b0 b1).
Definition qhdr_set (i v : Z) : stm dns_io unit := rb_writes i (le16_bytes v).
Definition shdr_get (i : Z) : stm dns_io Z :=
  b0 ← sb_read i; b1 ← sb_read (i + 1); mret (le16 b0 b1).
Definition shdr_set (i v : Z) : stm dns_io unit := sb_writes i (le16_bytes v).

(** Offsets of the fields of [DNSHdr]. *)
Definition hdr_fl : Z := 2.
Definition hdr_qd : Z := 4.
Definition hdr_an : Z := 6.
Definition hdr_ns : Z := 8.
Definition hdr_ar : Z := 10.

Definition read_u16 (i : Z) : stm dns_io Z :=
  b0 ← rb_read i; b1 ← rb_read (i + 1); mret (Z.lor (u16 (Z.shiftl b0 8)) b1).
Definition write_u16 (i v : Z) : stm dns_io unit := sb_writes i [Z.shiftr v 8; v].
Definition write_u32 (i v : Z) : stm dns_io unit :=
  sb_writes i [Z.shiftr v 24; Z.shiftr v 16; Z.shiftr v 8; v].

(** [memcpy (res, req, qlen)] *)
Definition io_memcpy (qlen : Z) : stm dns_io unit := λ s,
  if Z.of_nat (length (io_req s)) <? qlen then None
  else sb_writes 0 (take (Z.to_nat qlen) (io_req s)) s.

(** [while (rb[off]) ...]: the labels of a name become a dotted string in the
    request; [None] is [return -1]. *)
Fixpoint dns_labels (fuel : nat) (qlen off : Z) : stm dns_io (option Z) :=
  match fuel with
  | O => ub
  | S fuel =>
      b ← rb_read off;
      if b =? 0 then mret (Some off)
      else
        let poff := off in
        let off := off + (1 + b) in
        if qlen <=? off then mret None
        else rb_writes poff [46];; dns_labels fuel qlen off
  end.

Section handle.
  Context `{DnsAlloc}.

(** One question: the name from [off] on, its type and class.  The answer of a
    question for an IPv4 address is a pair of the offset of the name and the
    mapped address. *)
Definition dns_question (qlen off : Z) (ips : list (Z * Z)) :
    stm dns_io (option (Z * list (Z * Z))) :=
  let ipo := off in
  o ← dns_labels (S (Z.to_nat qlen)) qlen off;
  match o with
  | None => mret None
  | Some off =>
      let off := off + 1 in
      if qlen <=? off + 3 then mret None
      else
        t ← read_u16 (off + 0);
        c ← (if t =? 1 then read_u16 (off + 2) else mret 0);
        ips ← (if (t =? 1) && (c =? 1) then
            name ← rb_cstr (ipo + 1);
            idx ← in_dns (hev_mapped_dns_find name);
            if 0 <=? idx then
              net ← in_dns (gets dns_net);
              mret (ips ++ [(ipo, Z.lor net idx)])
            else mret ips
          else mret ips);
        mret (Some (off + 4, ips))
  end.

(** [for (i = 0; i < qhdr->qd; i++)] *)
Fixpoint dns_questions (n : nat) (qlen off : Z) (ips : list (Z * Z)) :
    stm dns_io (option (Z * list (Z * Z))) :=
  match n with
  | O => mret (Some (off, ips))
  | S n =>
      r ← dns_question qlen off ips;
      match r with
      | None => mret None
      | Some (off, ips) => dns_questions n qlen off ips
      end
  end.

(** [for (i = 0; i < ipn; i++)]: one answer record per address. *)
Fixpoint dns_answers (slen off : Z) (ips : list (Z * Z)) : stm dns_io (option Z) :=
  match ips with
  | [] => mret (Some off)
  | (ipo, ip) :: ips =>
      if slen <=? off + 15 then mret None
      else
        sb_writes (off + 0) [192];;
        sb_writes (off + 1) [ipo];;
        write_u16 (off + 2) 1;;
        write_u16 (off + 4) 1;;
        write_u32 (off + 6) 1;;
        write_u16 (off + 10) 4;;
        write_u32 (off + 12) ip;;
        dns_answers slen (off + 16) ips
  end.

Definition hev_mapped_dns_handle (qlen slen : Z) : stm dns_io Z :=
  if slen <? qlen then mret (-1)
  else
    io_memcpy qlen;;
    qd ← qhdr_get hdr_qd;
    qhdr_set hdr_qd (ntohs qd);;
    fl ← shdr_get hdr_fl;
    shdr_set hdr_fl (ntohs fl);;
    shdr_set hdr_ns 0;;
    shdr_set hdr_an 0;;
    shdr_set hdr_ar 0;;
    qd ← qhdr_get hdr_qd;
    if 32 <? qd then mret (-1)
    else
      r ← dns_questions (Z.to_nat qd) qlen 12 [];
      match r with
      | None => mret (-1)
      | Some (off, ips) =>
          o ← dns_answers slen off ips;
          match o with
          | None => mret (-1)
          | Some off =>
              fl ← shdr_get hdr_fl;
              shdr_set hdr_fl (htons (Z.lor (Z.lor fl 0x8000) (Z.shiftr (Z.land fl 0x100) 1)));;
              shdr_set hdr_an (htons (Z.of_nat (length ips)));;
              mret off
          end
      end.
End handle.
