(* ===== verification/MappedDNSSafe.v ===== *)
(** * The mapped DNS server on arbitrary packets

    Whatever bytes a request holds, [hev_mapped_dns_handle] stays inside its two
    buffers, keeps the cache well formed, and returns -1 or the length of a
    response that fits the response buffer, when one readable byte follows the
    request.  [io_inv] is the invariant of its loops. *)

From S2P Require Import Prelude HevList RBTree CString MappedDNS MappedDNSCache MappedDNSPacket.

(** The lengths of the two buffers, byte contents, and a well-formed cache. *)
Record io_inv (nq ns : Z) (s : dns_io) : Prop := {
  ii_req : Z.of_nat (length (io_req s)) = nq;
  ii_bytes : is_bytes (io_req s);
  ii_res : Z.of_nat (length (io_res s)) = ns;
  ii_dns : ∃ c, dns_rep (io_dns s) c;
  ii_max : 1 ≤ dns_max (io_dns s);
}.

Lemma u8_range v : is_u8 (u8 v).
Proof. unfold is_u8, u8. apply Z.mod_pos_bound. lia. Qed.

Lemma is_bytes_writes b i bs b' : is_bytes b → buf_writes b i bs = Some b' → is_bytes b'.
Proof.
  revert b i. induction bs as [|v bs IH]; simpl; intros b i Hb H; [by simplify_eq|].
  apply bind_Some in H as (b1 & H1 & H). eapply IH; [|exact H].
  unfold buf_write in H1. case_match; [|done]. simplify_eq.
  apply Forall_insert; [done|]. apply u8_range.
Qed.

Section inv.
Context (nq ns : Z).
Implicit Types s : dns_io.

Lemma wp_rb_read s i (Q : Z → dns_io → Prop) :
  io_inv nq ns s → 0 ≤ i < nq →
  (∀ v, is_u8 v → buf_read (io_req s) i = Some v → Q v s) → wp (rb_read i) s Q.
Proof.
  intros Hs Hi HQ. unfold wp, rb_read.
  destruct (buf_read_some (io_req s) i) as [v Hv]; [by rewrite (ii_req _ _ _ Hs)|].
  rewrite Hv. apply HQ; [|done]. apply buf_read_spec in Hv as [_ Hv].
  by eapply Forall_lookup_1 in Hv; [|apply (ii_bytes _ _ _ Hs)].
Qed.

Lemma wp_sb_read s i (Q : Z → dns_io → Prop) :
  io_inv nq ns s → 0 ≤ i < ns → (∀ v, Q v s) → wp (sb_read i) s Q.
Proof.
  intros Hs Hi HQ. unfold wp, sb_read.
  destruct (buf_read_some (io_res s) i) as [v ->]; [by rewrite (ii_res _ _ _ Hs)|]. apply HQ.
Qed.

Lemma wp_rb_writes s i bs (Q : unit → dns_io → Prop) :
  io_inv nq ns s → 0 ≤ i → i + Z.of_nat (length bs) ≤ nq →
  (∀ b, buf_writes (io_req s) i bs = Some b →
    io_inv nq ns (mk_io (io_dns s) b (io_res s)) → Q tt (mk_io (io_dns s) b (io_res s))) →
  wp (rb_writes i bs) s Q.
Proof.
  intros [Hq Hb Hr Hd Hm] Hi Hl HQ. unfold wp, rb_writes.
  destruct (buf_writes (io_req s) i bs) as [b|] eqn:Hw.
  - apply HQ; [done|]. split; simpl; try done.
    + by rewrite (length_buf_writes _ _ _ _ Hw).
    + by eapply is_bytes_writes.
  - rewrite buf_writes_spec in Hw by lia. done.
Qed.

Lemma wp_sb_writes s i bs (Q : unit → dns_io → Prop) :
  io_inv nq ns s → 0 ≤ i → i + Z.of_nat (length bs) ≤ ns →
  (∀ s', io_inv nq ns s' → io_dns s' = io_dns s → Q tt s') →
  wp (sb_writes i bs) s Q.
Proof.
  intros [Hq Hb Hr Hd Hm] Hi Hl HQ. unfold wp, sb_writes.
  destruct (buf_writes (io_res s) i bs) as [b|] eqn:Hw.
  - apply HQ; [|done]. split; simpl; try done. by rewrite (length_buf_writes _ _ _ _ Hw).
  - rewrite buf_writes_spec in Hw by lia. done.
Qed.

Lemma wp_shdr_set s i v (Q : unit → dns_io → Prop) :
  io_inv nq ns s → 0 ≤ i → i + 2 ≤ ns →
  (∀ s', io_inv nq ns s' → Q tt s') → wp (shdr_set i v) s Q.
Proof. intros. eapply wp_sb_writes; eauto. Qed.

Lemma wp_shdr_get s i (Q : Z → dns_io → Prop) :
  io_inv nq ns s → 0 ≤ i → i + 2 ≤ ns → (∀ v, Q v s) → wp (shdr_get i) s Q.
Proof.
  intros Hs ? ? HQ. apply wp_bind. eapply wp_sb_read; [done|lia|]. intros b0.
  apply wp_bind. eapply wp_sb_read; [done|lia|]. intros b1. by apply wp_ret.
Qed.

Lemma wp_qhdr_get s i (Q : Z → dns_io → Prop) :
  io_inv nq ns s → 0 ≤ i → i + 2 ≤ nq → (∀ v, Q v s) → wp (qhdr_get i) s Q.
Proof.
  intros Hs ? ? HQ. apply wp_bind. eapply wp_rb_read; [done|lia|]. intros b0 _ _.
  apply wp_bind. eapply wp_rb_read; [done|lia|]. intros b1 _ _. by apply wp_ret.
Qed.

Lemma wp_io_memcpy s qlen (Q : unit → dns_io → Prop) :
  io_inv nq ns s → 0 ≤ qlen → qlen ≤ nq → qlen ≤ ns →
  (∀ s', io_inv nq ns s' → Q tt s') → wp (io_memcpy qlen) s Q.
Proof.
  intros Hs ? ? ? HQ. unfold io_memcpy, wp.
  destruct (Z.ltb_spec (Z.of_nat (length (io_req s))) qlen) as [Hlt|_];
    [rewrite (ii_req _ _ _ Hs) in Hlt; lia|].
  eapply (wp_sb_writes _ 0 _ Q); [done|done| |eauto].
  rewrite length_take. lia.
Qed.

(** The labels of a name end at a NUL inside the buffer. *)
Lemma wp_dns_labels fuel qlen s off :
  io_inv nq ns s → 0 ≤ off < nq → qlen < nq → (Z.to_nat (qlen - off) < fuel)%nat →
  wp (dns_labels fuel qlen off) s (λ r s', io_inv nq ns s' ∧ io_dns s' = io_dns s ∧
    ∀ o, r = Some o → off ≤ o < nq ∧ buf_read (io_req s') o = Some 0).
Proof.
  revert s off. induction fuel as [|fuel IH]; intros s off Hs Ho Hq Hf; [lia|].
  simpl. apply wp_bind. eapply wp_rb_read; [done..|]. intros b Hb Hrd.
  destruct (Z.eqb_spec b 0) as [->|Hne].
  - apply wp_ret. split_and!; [done|done|]. intros o [= <-]. split; [lia|done].
  - unfold is_u8 in Hb. destruct (Z.leb_spec qlen (off + (1 + b))) as [|Hlt]; [by apply wp_ret|].
    apply wp_bind. eapply wp_rb_writes; [done|lia|simpl; lia|]. intros b' _ Hs'.
    eapply wp_mono; [apply IH; [exact Hs'|lia|done|lia]|].
    intros r s' (H1 & H2 & H3). split_and!; [done|done|]. intros o Hr.
    destruct (H3 _ Hr). split; [lia|done].
Qed.

Lemma wp_read_u16 s i (Q : Z → dns_io → Prop) :
  io_inv nq ns s → 0 ≤ i → i + 2 ≤ nq →
  (∀ b0 b1, is_u8 b0 → buf_read (io_req s) i = Some b0 → is_u8 b1 →
     Q (Z.lor (u16 (Z.shiftl b0 8)) b1) s) → wp (read_u16 i) s Q.
Proof.
  intros Hs ? ? HQ. apply wp_bind. eapply wp_rb_read; [done|lia|]. intros b0 Hb0 Hr0.
  apply wp_bind. eapply wp_rb_read; [done|lia|]. intros b1 Hb1 _. apply wp_ret. auto.
Qed.

Lemma u16_is_1 b0 b1 : is_u8 b0 → is_u8 b1 → Z.lor (u16 (Z.shiftl b0 8)) b1 = 1 → b0 = 0.
Proof.
  unfold is_u8, u16. intros Hb0 Hb1 H. rewrite Z.shiftl_mul_pow2, Z.mod_small in H by lia.
  assert (Z.shiftr (Z.lor (b0 * 2 ^ 8) b1) 8 = Z.shiftr 1 8) as He by by rewrite H.
  rewrite Z.shiftr_lor, !Z.shiftr_div_pow2, Z.div_mul, (Z.div_small b1) in He by lia.
  by rewrite Z.lor_0_r in He.
Qed.
End inv.

Section safe.
Context `{DnsAllocLaws} (Hdup : ∀ live name, strdup_ok live name = true).
Context (nq ns qlen : Z).
Hypothesis Hslack : 0 ≤ qlen < nq.

Lemma wp_find_io s name (Q : Z → dns_io → Prop) :
  io_inv nq ns s →
  (∀ r s', io_inv nq ns s' → io_req s' = io_req s → Q r s') →
  wp (in_dns (hev_mapped_dns_find name)) s Q.
Proof.
  intros [Hq Hb Hr (c & L & HL & ->) Hm] HQ. apply wp_zoom.
  eapply wp_mono; [apply wp_dns_find; [auto|exact HL|done]|].
  intros r d [(_ & -> & _)|(L' & (HL' & Hx & _) & _)]; apply HQ; try done.
  - split; simpl; try done. by exists L.*2, L.
  - split; simpl; try done; [by exists L'.*2, L'|lia].
Qed.

(** The name of a question is NUL-terminated inside the buffer. *)
Lemma wp_question_name s ipo o (Q : list Z → dns_io → Prop) :
  io_inv nq ns s → 0 ≤ ipo ≤ o → o < nq → buf_read (io_req s) o = Some 0 →
  (ipo = o → buf_read (io_req s) (o + 1) = Some 0) →
  (∀ name, Q name s) → wp (rb_cstr (ipo + 1)) s Q.
Proof.
  intros Hs Hi Ho Hz0 Hz1 HQ. unfold wp, rb_cstr.
  assert (∃ j, ipo + 1 ≤ j ∧ buf_read (io_req s) j = Some 0) as (j & Hj & Hz).
  { destruct (decide (ipo = o)); [exists (o + 1); split; [lia|auto]|exists o; split; [lia|done]]. }
  apply buf_read_spec in Hz as [_ Hz].
  destruct (cstr_some (drop (Z.to_nat (ipo + 1)) (io_req s)) (Z.to_nat j - Z.to_nat (ipo + 1))) as [nm ->].
  { rewrite lookup_drop. rewrite <-Hz. f_equal. lia. }
  apply HQ.
Qed.

Lemma wp_dns_question s off ips :
  io_inv nq ns s → 0 ≤ off < nq → off ≤ Z.max 12 qlen →
  wp (dns_question qlen off ips) s (λ r s', io_inv nq ns s' ∧
    ∀ o ips', r = Some (o, ips') → 0 ≤ off < o ∧ o ≤ qlen ∧
      (length ips' ≤ S (length ips))%nat).
Proof.
  intros Hs Ho Hoq. unfold dns_question. apply wp_bind.
  eapply wp_mono; [apply (wp_dns_labels nq ns); [exact Hs|lia|lia|lia]|].
  intros [o|] s1 (Hs1 & _ & Hr); [|by apply wp_ret].
  destruct (Hr o eq_refl) as [Hoo Hz]. clear Hr.
  destruct (Z.leb_spec qlen (o + 1 + 3)) as [|Hlt]; [by apply wp_ret|].
  apply wp_bind. eapply wp_read_u16; [exact Hs1|lia|lia|]. intros b0 b1 Hb0 Hr0 Hb1.
  replace (o + 1 + 0) with (o + 1) in * by lia.
  destruct (Z.eqb_spec (Z.lor (u16 (Z.shiftl b0 8)) b1) 1) as [Ht|Ht]; simpl.
  - apply wp_bind. eapply wp_read_u16; [exact Hs1|lia|lia|]. intros c0 c1 Hc0 _ Hc1.
    apply wp_bind. destruct (_ =? 1); simpl.
    + apply wp_bind. eapply (wp_question_name _ off o); [exact Hs1|lia|lia|done| |].
      { intros _. by rewrite Hr0, (u16_is_1 _ _ Hb0 Hb1 Ht). }
      intros name. apply wp_bind. eapply wp_find_io; [exact Hs1|]. intros r s2 Hs2 _.
      destruct (0 <=? r).
      * apply wp_bind, wp_zoom, wp_gets, wp_ret, wp_ret. destruct s2; simpl. split; [done|].
        intros o' ips' [= <- <-]. rewrite length_app. simpl. lia.
      * apply wp_ret, wp_ret. split; [done|]. intros o' ips' [= <- <-]. lia.
    + apply wp_ret, wp_ret. split; [done|]. intros o' ips' [= <- <-]. lia.
  - apply wp_bind, wp_ret. apply wp_bind, wp_ret, wp_ret. split; [done|].
    intros o' ips' [= <- <-]. lia.
Qed.

Lemma wp_dns_questions n s off ips :
  io_inv nq ns s → 12 < nq → 12 ≤ off ≤ Z.max 12 qlen →
  wp (dns_questions n qlen off ips) s (λ r s', io_inv nq ns s' ∧
    ∀ o ips', r = Some (o, ips') → 12 ≤ o ≤ Z.max 12 qlen ∧
      (length ips' ≤ n + length ips)%nat).
Proof.
  revert s off ips. induction n as [|n IH]; intros s off ips Hs Hnq Hoff; simpl.
  { apply wp_ret. split; [done|]. intros o ips' [= <- <-]. done. }
  apply wp_bind. eapply wp_mono; [apply (wp_dns_question s off ips); [done|lia|lia]|].
  intros [[o ips']|] s1 [Hs1 Hr]; [|by apply wp_ret].
  destruct (Hr _ _ eq_refl) as ((_ & Ho) & Hq & Hl).
  eapply wp_mono; [apply IH; [done|done|lia]|].
  intros r s2 [Hs2 Hr2]. split; [done|]. intros o2 ips2 He.
  destruct (Hr2 _ _ He). split; lia.
Qed.

Lemma wp_dns_answers s off ips :
  io_inv nq ns s → 12 ≤ off →
  wp (dns_answers ns off ips) s (λ r s', io_inv nq ns s' ∧
    ∀ o, r = Some o → o = off + 16 * Z.of_nat (length ips) ∧ (ips ≠ [] → o ≤ ns)).
Proof.
  revert s off. induction ips as [|[ipo ip] ips IH]; intros s off Hs Hoff; simpl.
  { apply wp_ret. split; [done|]. intros o [= <-]. split; [lia|done]. }
  destruct (Z.leb_spec ns (off + 15)) as [|Hlt]; [by apply wp_ret|].
  unfold write_u16, write_u32.
  do 7 (apply wp_bind; eapply wp_sb_writes; [eassumption|lia|simpl; lia|];
        let s' := fresh "s" in let Hs' := fresh "Hs" in intros s' Hs' _; clear s Hs; rename s' into s, Hs' into Hs).
  eapply wp_mono; [apply IH; [done|lia]|]. intros r s' [Hs' Hr]. split; [done|].
  intros o He. destruct (Hr o He) as [-> Hn]. split; [lia|]. intros _.
  destruct ips as [|x ips]; simpl in *; [lia|]. apply Hn. done.
Qed.

Lemma wp_dns_handle s :
  io_inv nq ns s → 12 < nq → 12 ≤ ns →
  wp (hev_mapped_dns_handle qlen ns) s (λ r s', io_inv nq ns s' ∧
    (r = -1 ∨ 12 ≤ r ≤ Z.max 12 ns)).
Proof.
  intros Hs Hnq Hns. unfold hev_mapped_dns_handle.
  destruct (Z.ltb_spec ns qlen) as [|Hle]; [apply wp_ret; by auto|].
  apply wp_bind. eapply wp_io_memcpy; [exact Hs|lia..|]. clear s Hs. intros s Hs.
  apply wp_bind. eapply wp_qhdr_get; [exact Hs|done|unfold hdr_qd; lia|]. intros qd0.
  apply wp_bind. eapply wp_rb_writes; [exact Hs|done|unfold hdr_qd; simpl; lia|].
  intros b _ Hs'. clear Hs. revert Hs'. generalize (mk_io (io_dns s) b (io_res s)). clear s b. intros s Hs.
  apply wp_bind. eapply wp_shdr_get; [exact Hs|done|unfold hdr_fl; lia|]. intros fl.
  do 4 (apply wp_bind; eapply wp_shdr_set; [exact Hs|done|unfold hdr_fl, hdr_ns, hdr_an, hdr_ar; lia|];
        clear s Hs; intros s Hs).
  apply wp_bind. eapply wp_qhdr_get; [exact Hs|done|unfold hdr_qd; lia|]. intros qd.
  destruct (32 <? qd); [apply wp_ret; by auto|].
  apply wp_bind. eapply wp_mono; [apply (wp_dns_questions _ s 12 []); [done|done|lia]|].
  intros [[off ips]|] s1 [Hs1 Hq]; [|apply wp_ret; by auto].
  destruct (Hq _ _ eq_refl) as [Hoff _].
  apply wp_bind. eapply wp_mono; [apply (wp_dns_answers s1 off ips); [done|lia]|].
  intros [o|] s2 [Hs2 Ha]; [|apply wp_ret; by auto].
  destruct (Ha o eq_refl) as [Ho Hn].
  apply wp_bind. eapply wp_shdr_get; [exact Hs2|done|unfold hdr_fl; lia|]. intros fl'.
  do 2 (apply wp_bind; eapply wp_shdr_set; [eassumption|done|unfold hdr_fl, hdr_an; lia|]; clear s2 Hs2;
        intros s2 Hs2).
  apply wp_ret. split; [done|]. right.
  destruct ips as [|x ips]; simpl in Ho; [lia|]. specialize (Hn ltac:(done)). lia.
Qed.
End safe.
