(* ===== verification/MappedDNSAnswer.v ===== *)
(** * The mapped DNS server on a query for an IPv4 address

    A well-formed query is a header with one question, the labels of a name,
    the type A and the class IN.  The response is the query with the response
    flags, one answer, and the answer record: a pointer to the name, type,
    class, a time to live of one second, and the address that the cache gives
    to the dotted name. *)

From S2P Require Import Prelude HevList RBTree CString MappedDNS MappedDNSCache MappedDNSPacket MappedDNSSafe.

(** ** Names *)

Definition label := list Z.
Definition enc_label (l : label) : list Z := Z.of_nat (length l) :: l.
Definition enc_name (ls : list label) : list Z := concat (enc_label <$> ls).
(** The labels, each after a dot. *)
Definition dot_name (ls : list label) : list Z := concat ((λ l, 46 :: l) <$> ls).
(** The dotted name. *)
Definition name_of (ls : list label) : list Z := tail (dot_name ls).

Definition label_ok (l : label) : Prop :=
  (0 < length l ≤ 255)%nat ∧ Forall (λ b, b ≠ 0 ∧ is_u8 b) l.

Lemma length_dot_name ls : length (dot_name ls) = length (enc_name ls).
Proof.
  unfold dot_name, enc_name. induction ls as [|l ls IH]; [done|]. simpl.
  rewrite !length_app. do 2 f_equal. exact IH.
Qed.

(** ** Exact reads and writes *)

Lemma buf_read_at pre v post i : i = Z.of_nat (length pre) → buf_read (pre ++ v :: post) i = Some v.
Proof.
  intros ->. apply buf_read_spec. split; [lia|]. rewrite Nat2Z.id. by rewrite list_lookup_middle.
Qed.

Section exact.
Context (d : HevMappedDNS).

Lemma wp_rb_read_at pre v post res i (Q : Z → dns_io → Prop) :
  i = Z.of_nat (length pre) → Q v (mk_io d (pre ++ v :: post) res) →
  wp (rb_read i) (mk_io d (pre ++ v :: post) res) Q.
Proof. intros Hi HQ. unfold wp, rb_read. simpl. by rewrite buf_read_at. Qed.

Lemma wp_sb_read_at req pre v post i (Q : Z → dns_io → Prop) :
  i = Z.of_nat (length pre) → Q v (mk_io d req (pre ++ v :: post)) →
  wp (sb_read i) (mk_io d req (pre ++ v :: post)) Q.
Proof. intros Hi HQ. unfold wp, sb_read. simpl. by rewrite buf_read_at. Qed.

Lemma wp_rb_writes_at pre old post res i bs (Q : unit → dns_io → Prop) :
  i = Z.of_nat (length pre) → length old = length bs →
  Q tt (mk_io d (pre ++ (u8 <$> bs) ++ post) res) →
  wp (rb_writes i bs) (mk_io d (pre ++ old ++ post) res) Q.
Proof. intros Hi Hl HQ. unfold wp, rb_writes. simpl. by rewrite buf_writes_at. Qed.

Lemma wp_sb_writes_at req pre old post i bs (Q : unit → dns_io → Prop) :
  i = Z.of_nat (length pre) → length old = length bs →
  Q tt (mk_io d req (pre ++ (u8 <$> bs) ++ post)) →
  wp (sb_writes i bs) (mk_io d req (pre ++ old ++ post)) Q.
Proof. intros Hi Hl HQ. unfold wp, sb_writes. simpl. by rewrite buf_writes_at. Qed.

(** The labels become dotted, up to the NUL that ends the name. *)
Lemma wp_labels_at fuel qlen pre ls post res off (Q : option Z → dns_io → Prop) :
  Forall label_ok ls → off = Z.of_nat (length pre) → (length ls < fuel)%nat →
  off + Z.of_nat (length (enc_name ls)) < qlen →
  Q (Some (off + Z.of_nat (length (enc_name ls)))) (mk_io d (pre ++ dot_name ls ++ 0 :: post) res) →
  wp (dns_labels fuel qlen off) (mk_io d (pre ++ enc_name ls ++ 0 :: post) res) Q.
Proof.
  intros Hok. revert fuel pre off. induction Hok as [|l ls [Hl Hb] Hls IH]; intros fuel pre off -> Hf Hq HQ;
    (destruct fuel as [|fuel]; [simpl in Hf; lia|]); simpl dns_labels; apply wp_bind.
  - apply wp_rb_read_at; [done|]. simpl in *. rewrite Z.add_0_r in HQ. by apply wp_ret.
  - change (enc_name (l :: ls)) with (Z.of_nat (length l) :: l ++ enc_name ls) in *.
    change (dot_name (l :: ls)) with ([46] ++ l ++ dot_name ls) in HQ.
    cbn [app] in *. rewrite <-app_assoc in *. apply wp_rb_read_at; [done|].
    destruct (Z.eqb_spec (Z.of_nat (length l)) 0); [lia|].
    cbn [length] in Hq, HQ. rewrite length_app in Hq, HQ.
    destruct (Z.leb_spec qlen (Z.of_nat (length pre) + (1 + Z.of_nat (length l)))); [lia|].
    apply wp_bind.
    change (Z.of_nat (length l) :: l ++ enc_name ls ++ 0 :: post)
      with ([Z.of_nat (length l)] ++ (l ++ enc_name ls ++ 0 :: post)).
    apply wp_rb_writes_at; [done|done|].
    assert (∀ X Y, pre ++ [46] ++ l ++ X ++ Y = (pre ++ 46 :: l) ++ X ++ Y) as Hassoc.
    { intros X Y. rewrite <-app_assoc. done. }
    change (u8 <$> [46]) with [46]. rewrite Hassoc.
    assert (length (pre ++ 46%Z :: l) = length pre + S (length l))%nat as Hlen by by rewrite length_app.
    apply IH; [lia|simpl in Hf; lia|lia|].
    rewrite <-Hassoc. cbn [app] in HQ |- *. rewrite <-?app_assoc in HQ.
    replace (Z.of_nat (length pre) + (1 + Z.of_nat (length l)) + Z.of_nat (length (enc_name ls)))
      with (Z.of_nat (length pre) + Z.of_nat (S (length l + length (enc_name ls)))) by lia.
    exact HQ.
Qed.
End exact.

(** ** The query and its response *)

Definition question (ls : list label) : list Z := enc_name ls ++ [0; 0; 1; 0; 1].

Definition query (h0 h1 h2 h3 h6 h7 h8 h9 h10 h11 : Z) (ls : list label) (rest : list Z) : list Z :=
  [h0; h1; h2; h3; 0; 1; h6; h7; h8; h9; h10; h11] ++ question ls ++ rest.

(** The header of the response: the identifier, the flags of the query with the
    response bit and, when recursion was desired, the recursion-available bit,
    one question, one answer. *)
Definition response_header (h0 h1 h2 h3 : Z) (an : Z) : list Z :=
  [h0; h1; Z.lor h2 128; Z.lor h3 (Z.shiftl (Z.land h2 1) 7); 0; 1; 0; an; 0; 0; 0; 0].

Definition answer (ip : Z) : list Z :=
  [192; 12; 0; 1; 0; 1; 0; 0; 0; 1; 0; 4;
   u8 (Z.shiftr ip 24); u8 (Z.shiftr ip 16); u8 (Z.shiftr ip 8); u8 ip].

(** The flag arithmetic, on all pairs of bytes. *)
Definition flags_check (h2 h3 : Z) : bool :=
  let f := ntohs (le16 h2 h3) in
  let g := le16 (u8 f) (u8 (Z.shiftr f 8)) in
  let v := htons (Z.lor (Z.lor g 0x8000) (Z.shiftr (Z.land g 0x100) 1)) in
  (u8 v =? Z.lor h2 128) && (u8 (Z.shiftr v 8) =? Z.lor h3 (Z.shiftl (Z.land h2 1) 7)).

Lemma flags_check_all :
  forallb (λ h2, forallb (flags_check h2) (seqZ 0 256)) (seqZ 0 256) = true.
Proof. vm_compute. reflexivity. Qed.

Lemma flags_bytes h2 h3 : is_u8 h2 → is_u8 h3 → flags_check h2 h3 = true.
Proof.
  unfold is_u8. intros H2 H3. pose proof flags_check_all as H. rewrite forallb_forall in H.
  assert (∀ x, 0 ≤ x < 256 → In x (seqZ 0 256)) as Hin.
  { intros x Hx. apply list_elem_of_In, elem_of_seqZ. lia. }
  specialize (H h2 (Hin h2 H2)). rewrite forallb_forall in H. by apply H, Hin.
Qed.

Section writes.
Context (d : HevMappedDNS).

Lemma wp_sb_writes_off req pre body i (k : nat) bs (Q : unit → dns_io → Prop) :
  i = Z.of_nat (length pre) + Z.of_nat k → (k + length bs ≤ length body)%nat →
  Q tt (mk_io d req (pre ++ take k body ++ (u8 <$> bs) ++ drop (k + length bs) body)) →
  wp (sb_writes i bs) (mk_io d req (pre ++ body)) Q.
Proof.
  intros -> Hl HQ. rewrite <-(take_drop k body), <-(take_drop (length bs) (drop k body)), app_assoc.
  apply wp_sb_writes_at; [rewrite length_app, length_take; lia|rewrite length_take, length_drop; lia|].
  by rewrite <-app_assoc, drop_drop.
Qed.

Lemma wp_rb_writes_off res body (k : nat) bs (Q : unit → dns_io → Prop) :
  (k + length bs ≤ length body)%nat →
  Q tt (mk_io d (take k body ++ (u8 <$> bs) ++ drop (k + length bs) body) res) →
  wp (rb_writes (Z.of_nat k) bs) (mk_io d body res) Q.
Proof.
  intros Hl HQ. rewrite <-(take_drop k body), <-(take_drop (length bs) (drop k body)).
  apply wp_rb_writes_at; [rewrite length_take; lia|rewrite length_take, length_drop; lia|].
  by rewrite drop_drop.
Qed.

(** The answer record after the question. *)
Lemma wp_answers_one req pre body slen ip (Q : option Z → dns_io → Prop) :
  (16 ≤ length body)%nat → slen = Z.of_nat (length pre + length body) →
  Q (Some (Z.of_nat (length pre) + 16)) (mk_io d req (pre ++ answer ip ++ drop 16 body)) →
  wp (dns_answers slen (Z.of_nat (length pre)) [(12, ip)]) (mk_io d req (pre ++ body)) Q.
Proof.
  intros Hb -> HQ. do 16 (destruct body as [|? body]; [simpl in Hb; lia|]).
  cbn [dns_answers]. case_match eqn:Hc; [apply Z.leb_le in Hc; cbn [length] in Hc; lia|]. clear Hc.
  unfold write_u16, write_u32.
  apply wp_bind. apply (wp_sb_writes_off _ _ _ _ 0); [lia|simpl; lia|].
  apply wp_bind. apply (wp_sb_writes_off _ _ _ _ 1); [lia|simpl; lia|].
  apply wp_bind. apply (wp_sb_writes_off _ _ _ _ 2); [lia|simpl; lia|].
  apply wp_bind. apply (wp_sb_writes_off _ _ _ _ 4); [lia|simpl; lia|].
  apply wp_bind. apply (wp_sb_writes_off _ _ _ _ 6); [lia|simpl; lia|].
  apply wp_bind. apply (wp_sb_writes_off _ _ _ _ 10); [lia|simpl; lia|].
  apply wp_bind. apply (wp_sb_writes_off _ _ _ _ 12); [lia|simpl; lia|].
  apply wp_ret. exact HQ.
Qed.
End writes.

Lemma dot_name_cons ls : ls ≠ [] → dot_name ls = 46 :: name_of ls.
Proof. by destruct ls. Qed.

Lemma name_of_nonzero ls : Forall label_ok ls → Forall (λ b, b ≠ 0) (name_of ls).
Proof.
  intros Hls. assert (Forall (λ b, b ≠ 0) (dot_name ls)) as Hd.
  { induction Hls as [|l ls [_ Hl] _ IH]; [constructor|].
    change (dot_name (l :: ls)) with (46 :: l ++ dot_name ls).
    constructor; [done|]. apply Forall_app. split; [|done].
    eapply Forall_impl; [exact Hl|]. naive_solver. }
  destruct ls as [|l ls]; [constructor|]. rewrite dot_name_cons in Hd by done. by inversion Hd.
Qed.

Lemma enc_name_length ls : (length ls ≤ length (enc_name ls))%nat.
Proof.
  induction ls as [|l ls IH]; [done|].
  change (enc_name (l :: ls)) with (Z.of_nat (length l) :: l ++ enc_name ls).
  simpl. rewrite length_app. lia.
Qed.

Section handle.
Context `{DnsAllocLaws} (Hdup : ∀ live name, strdup_ok live name = true).
Context (ls : list label) (rest : list Z) (d : HevMappedDNS) (L : list (Z * entry)).
Hypothesis Hls : Forall label_ok ls.
Hypothesis Hne : ls ≠ [].
Hypothesis HL : dns_is d L.
Hypothesis Hmax : 1 ≤ dns_max d.

(** What the cache gives for the name of the query. *)
Definition found_name (d' : HevMappedDNS) (idx : Z) : Prop :=
  ∃ L', dns_next d d' L' ∧ (L'.*2, idx) = cache_find (dns_max d) L.*2 (name_of ls).

Lemma found_name_idx d' idx : found_name d' idx → 0 ≤ idx.
Proof.
  intros (L' & (HL' & _) & Hc).
  assert (∃ n, (n, idx) ∈ L'.*2) as [n Hin].
  { destruct (decide (name_of ls ∈ L.*2.*1)) as [([n' i] & Heq & (d1 & d2 & He)%list_elem_of_split)%list_elem_of_fmap|Hn].
    - simpl in Heq. subst n'. pose proof (di_ok _ _ HL) as Hok. rewrite He in *.
      rewrite (cache_find_hit _ _ _ _ _ Hok) in Hc. injection Hc as -> ->. exists (name_of ls). set_solver.
    - rewrite cache_find_miss in Hc by done.
      destruct (Z.ltb_spec (Z.of_nat (length L.*2)) (dns_max d)).
      + injection Hc as -> ->. exists (name_of ls). set_solver.
      + destruct L.*2 as [|[n1 i1] c]; [simpl in *; lia|]. injection Hc as -> ->. exists (name_of ls). set_solver. }
  apply list_elem_of_lookup in Hin as [i Hi].
  apply (seqZ_lookup_idx _ _ _ _ (di_ok _ _ HL')) in Hi. simpl in Hi. lia.
Qed.

Lemma wp_question_at hdr qlen res (Q : option (Z * list (Z * Z)) → dns_io → Prop) :
  length hdr = 12%nat →
  Z.of_nat (12 + length (question ls)) ≤ qlen ≤ Z.of_nat (12 + length (question ls) + length rest) →
  (malloc (dom (dns_nodes d)) = None →
    ∀ req', Q (Some (Z.of_nat (12 + length (question ls)), [])) (mk_io d req' res)) →
  (∀ d' idx req', found_name d' idx → 0 ≤ idx →
    Q (Some (Z.of_nat (12 + length (question ls)), [(12, Z.lor (dns_net d) idx)])) (mk_io d' req' res)) →
  wp (dns_question qlen 12 []) (mk_io d (hdr ++ question ls ++ rest) res) Q.
Proof.
  intros Hh Hq Hfail HQ. unfold dns_question, question in *.
  rewrite <-!app_assoc in *. cbn [app] in *. rewrite !length_app in *. cbn [length] in *.
  pose proof (enc_name_length ls) as Hlen.
  apply wp_bind. eapply (wp_labels_at _ _ _ _ _ _ _ 12); [done|by rewrite Hh|lia|lia|].
  set (o := 12 + Z.of_nat (length (enc_name ls))).
  case_match eqn:Hc; [apply Z.leb_le in Hc; unfold o in Hc; lia|]. clear Hc.
  set (pre := hdr ++ dot_name ls).
  assert (length pre = 12 + length (enc_name ls))%nat as Hpre
    by (unfold pre; rewrite length_app, length_dot_name; lia).
  assert (∀ X, hdr ++ dot_name ls ++ X = pre ++ X) as Hassoc by (intros; unfold pre; by rewrite <-app_assoc).
  rewrite Hassoc.
  apply wp_bind. unfold read_u16. apply wp_bind.
  rewrite (cons_middle 0), app_assoc. apply wp_rb_read_at; [rewrite length_app; simpl; lia|].
  rewrite (cons_middle 0), app_assoc.
  apply wp_bind. apply wp_rb_read_at; [rewrite !length_app; simpl; lia|]. apply wp_ret. simpl.
  apply wp_bind. unfold read_u16. apply wp_bind.
  rewrite (cons_middle 1), app_assoc.
  apply wp_rb_read_at; [rewrite !length_app; simpl; lia|].
  rewrite (cons_middle 0), app_assoc.
  apply wp_bind. apply wp_rb_read_at; [rewrite !length_app; simpl; lia|]. apply wp_ret. simpl.
  rewrite <-!app_assoc. cbn [app].
  apply wp_bind, wp_bind. unfold wp at 1, rb_cstr. cbn [io_req].
  replace (drop (Z.to_nat (12 + 1)) (pre ++ 0 :: 0 :: 1 :: 0 :: 1 :: rest))
    with (name_of ls ++ 0 :: 0 :: 1 :: 0 :: 1 :: rest).
  2: { unfold pre. rewrite <-app_assoc, dot_name_cons by done. simpl.
       rewrite drop_app_ge by lia. by rewrite Hh. }
  rewrite cstr_app by by apply name_of_nonzero.
  apply wp_bind, wp_zoom. cbn [io_dns].
  eapply wp_mono; [apply wp_dns_find; [auto|exact HL|done]|].
  replace (o + 1 + 4) with (Z.of_nat (12 + (length (enc_name ls) + 5))) by (unfold o; lia).
  intros r d' [(-> & -> & _ & Hnull)|Hf]; simpl.
  - apply wp_ret, wp_ret. by apply Hfail.
  - pose proof (found_name_idx _ _ Hf) as Hr. apply Z.leb_le in Hr as Hrb. rewrite Hrb.
    apply wp_bind, wp_zoom, wp_gets, wp_ret, wp_ret. cbn [io_dns].
    destruct Hf as (L' & Hn & Hc). pose proof Hn as (_ & _ & -> & _). apply HQ; [|done]. by exists L'.
Qed.

Context (h0 h1 h2 h3 h6 h7 h8 h9 h10 h11 : Z) (res0 : list Z) (qlen slen : Z).
Notation req0 := (query h0 h1 h2 h3 h6 h7 h8 h9 h10 h11 ls rest).
Notation qend := (12 + length (question ls))%nat.
Hypothesis Hbytes : is_bytes req0.
Hypothesis Hqlen : Z.of_nat qend ≤ qlen ≤ Z.of_nat (qend + length rest).
Hypothesis Hres : Z.of_nat (length res0) = slen.
Hypothesis Hslen : Z.of_nat (qend + 16) ≤ slen.
Hypothesis Hfit : qlen ≤ slen.

(** The response buffer after the copy: the header, the question, the rest. *)
Lemma wp_memcpy_query (Q : unit → dns_io → Prop) :
  (∀ tl, Z.of_nat (qend + length tl) = slen →
    Q tt (mk_io d req0 ([h0; h1; h2; h3; 0; 1; h6; h7; h8; h9; h10; h11] ++ question ls ++ tl))) →
  wp (io_memcpy qlen) (mk_io d req0 res0) Q.
Proof.
  intros HQ. unfold io_memcpy, wp. cbn [io_req].
  assert (length req0 = qend + length rest)%nat as Hlen by (unfold query; rewrite !length_app; simpl; lia).
  rewrite Hlen. destruct (Z.ltb_spec (Z.of_nat (qend + length rest)) qlen); [lia|].
  unfold sb_writes. cbn [io_res io_dns io_req].
  rewrite buf_writes_spec by (rewrite ?length_take; lia).
  rewrite u8_bytes by by apply Forall_take. rewrite length_take. simpl (take (Z.to_nat 0) _). rewrite app_nil_l.
  replace (take (Z.to_nat qlen) req0) with
    ([h0; h1; h2; h3; 0; 1; h6; h7; h8; h9; h10; h11] ++ question ls ++ take (Z.to_nat qlen - qend) rest).
  2: { unfold query. rewrite (app_assoc _ (question ls) rest), take_app_ge by (rewrite length_app; simpl; lia).
       rewrite <-app_assoc. rewrite length_app. done. }
  rewrite <-!app_assoc. apply HQ. rewrite length_app, length_take, length_drop. lia.
Qed.

Definition answered (an : Z) (extra : list Z) (r : Z) (s' : dns_io) : Prop :=
  r = Z.of_nat (qend + length extra) ∧
  take (qend + length extra) (io_res s') = response_header h0 h1 h2 h3 an ++ question ls ++ extra.

(** The header fields at the end: flags and number of answers. *)
Lemma wp_final_header d' req' an extra tl :
  (an = 0 ∨ an = 1) →
  wp (fl ← shdr_get hdr_fl;
      shdr_set hdr_fl (htons (Z.lor (Z.lor fl 0x8000) (Z.shiftr (Z.land fl 0x100) 1)));;
      shdr_set hdr_an (htons an);;
      mret (Z.of_nat (qend + length extra)))
    (mk_io d' req' ([h0; h1; u8 (ntohs (le16 h2 h3)); u8 (Z.shiftr (ntohs (le16 h2 h3)) 8);
       0; 1; 0; 0; 0; 0; 0; 0] ++ question ls ++ extra ++ tl))
    (λ r s', answered an extra r s' ∧ io_dns s' = d').
Proof.
  intros Han. pose proof (Forall_lookup_1 _ _ 2 h2 Hbytes eq_refl) as Hb2.
  pose proof (Forall_lookup_1 _ _ 3 h3 Hbytes eq_refl) as Hb3.
  pose proof (flags_bytes h2 h3 Hb2 Hb3) as Hfl. unfold flags_check in Hfl.
  apply andb_true_iff in Hfl as [Hf1%Z.eqb_eq Hf2%Z.eqb_eq].
  set (f := ntohs (le16 h2 h3)) in *. set (g := le16 (u8 f) (u8 (Z.shiftr f 8))) in *.
  apply wp_bind, wp_bind. apply (wp_sb_read_at _ _ [h0; h1] (u8 f)); [done|].
  apply wp_bind. apply (wp_sb_read_at _ _ [h0; h1; u8 f] (u8 (Z.shiftr f 8))); [done|]. apply wp_ret.
  fold g. set (v := htons _) in *.
  apply wp_bind. apply (wp_sb_writes_off _ _ [] _ _ 2); [done|simpl; lia|].
  apply wp_bind. apply (wp_sb_writes_off _ _ [] _ _ 6); [done|simpl; lia|].
  apply wp_ret. split; [|done]. split; [done|]. simpl. rewrite Hf1, Hf2.
  rewrite app_assoc, take_app_length' by by rewrite length_app.
  destruct Han as [-> | ->]; done.
Qed.

Lemma wp_handle_query :
  wp (hev_mapped_dns_handle qlen slen) (mk_io d req0 res0) (λ r s',
    (answered 0 [] r s' ∧ io_dns s' = d ∧ malloc (dom (dns_nodes d)) = None) ∨
    (∃ idx, answered 1 (answer (Z.lor (dns_net d) idx)) r s' ∧ found_name (io_dns s') idx ∧ 0 ≤ idx)).
Proof.
  unfold hev_mapped_dns_handle. destruct (Z.ltb_spec slen qlen); [lia|].
  apply wp_bind, wp_memcpy_query. intros tl Htl. unfold query at 1.
  apply wp_bind, wp_bind. apply (wp_rb_read_at _ [h0; h1; h2; h3] 0); [done|].
  apply wp_bind. apply (wp_rb_read_at _ [h0; h1; h2; h3; 0] 1); [done|]. apply wp_ret.
  apply wp_bind. apply (wp_rb_writes_off _ _ _ 4); [simpl; lia|].
  apply wp_bind, wp_bind. apply (wp_sb_read_at _ _ [h0; h1] h2); [done|].
  apply wp_bind. apply (wp_sb_read_at _ _ [h0; h1; h2] h3); [done|]. apply wp_ret.
  apply wp_bind. apply (wp_sb_writes_off _ _ [] _ _ 2); [done|simpl; lia|].
  apply wp_bind. apply (wp_sb_writes_off _ _ [] _ _ 8); [done|simpl; lia|].
  apply wp_bind. apply (wp_sb_writes_off _ _ [] _ _ 6); [done|simpl; lia|].
  apply wp_bind. apply (wp_sb_writes_off _ _ [] _ _ 10); [done|simpl; lia|].
  apply wp_bind, wp_bind. apply (wp_rb_read_at _ [h0; h1; h2; h3] 1); [done|].
  apply wp_bind. apply (wp_rb_read_at _ [h0; h1; h2; h3; 1] 0); [done|]. apply wp_ret.
  change (32 <? le16 1 0) with false. change (Z.to_nat (le16 1 0)) with 1%nat. cbn iota.
  apply wp_bind. cbn [dns_questions]. apply wp_bind.
  apply (wp_question_at [h0; h1; h2; h3; 1; 0; h6; h7; h8; h9; h10; h11]); [done|done|..].
  - intros Hnull req'. apply wp_ret. apply wp_bind, wp_ret.
    pose proof (wp_final_header d req' 0 [] tl (or_introl eq_refl)) as Hw.
    rewrite Nat.add_0_r in Hw. eapply wp_mono; [exact Hw|]. intros r s' [Ha Hd]. by left.
  - intros d' idx req' Hf Hidx. apply wp_ret. apply wp_bind.
    set (hdr := [h0; h1; u8 (ntohs (le16 h2 h3)); u8 (Z.shiftr (ntohs (le16 h2 h3)) 8);
                 0; 1; 0; 0; 0; 0; 0; 0]).
    assert (Z.of_nat qend = Z.of_nat (length (hdr ++ question ls))) as -> by by rewrite length_app.
    match goal with |- wp _ ?s ?Q => change s with (mk_io d' req' (hdr ++ question ls ++ tl)) end.
    rewrite app_assoc.
    apply wp_answers_one; [lia|rewrite length_app; simpl; lia|].
    pose proof (wp_final_header d' req' 1 (answer (Z.lor (dns_net d) idx)) (drop 16 tl) (or_intror eq_refl)) as Hw.
    rewrite <-app_assoc. rewrite length_app.
    assert (Z.of_nat (length hdr + length (question ls)) + 16 =
      Z.of_nat (qend + length (answer (Z.lor (dns_net d) idx)))) as -> by (simpl; lia).
    eapply wp_mono; [exact Hw|]. intros r s' [Ha Hd]. right. exists idx. by rewrite Hd.
Qed.
End handle.
