(* ===== verification/MappedDNSLife.v ===== *)
(** * The mapped DNS cache: construction, destruction and retention *)

From stdpp Require Import sorting.
From S2P Require Import Prelude HevList RBTree RBTreeRep RBTreeInsert RBTreeErase RBTreeIter RBTreeSearch CString MappedDNS MappedDNSCache.

(** ** Construction *)

Lemma dns_new_spec ok base net mask max s :
  hev_mapped_dns_new ok base net mask max = Some s → 0 ≤ max →
  dns_is s [] ∧ dns_net s = net ∧ dns_mask s = mask ∧ dns_max s = max ∧ max ≤ Z.lnot mask.
Proof.
  unfold hev_mapped_dns_new, hev_mapped_dns_construct. intros Hn Hmax. destruct ok; [|done]. simpl in Hn.
  destruct (Z.ltb_spec base 0) as [Hb|Hb].
  { simpl in Hn. apply Z.ltb_lt in Hb. by rewrite Hb in Hn. }
  destruct (Z.ltb_spec (Z.lnot mask) max) as [|Hle]; [done|]. simpl in Hn. simplify_eq.
  assert (∀ V, heap_is (V:=V) ∅ []) as He by (intros V; split_and!; [constructor|constructor|done]).
  split_and!; try done. split; simpl.
  - split; simpl; [by split|exists []; split_and!; [by apply rb_done_empty|done|constructor]|done].
  - rewrite length_replicate. lia.
  - done.
  - intros x Hx. by apply not_elem_of_nil in Hx.
  - intros i Hi. apply buf_read_spec. split; [lia|]. apply lookup_replicate. split; [done|lia].
  - split; simpl; [done|constructor|done].
Qed.

(** ** Destruction *)

(** The part of the memory the loop of the destructor has not released yet. *)
Record dns_tail (s : HevMappedDNS) (prv : Z) (L : list (Z * entry)) : Prop := {
  dt_list : heap_is (hl_mem (dns_list s)) (lseg prv (lcell <$> L) 0);
  dt_tree : ∃ T, heap_is (rb_mem (dns_tree s)) T ∧ T.*1 ≡ₚ L.*1;
  dt_nodes : heap_is (dns_nodes s) (ncell <$> L);
}.

Lemma dns_is_tail s L : dns_mid s L → dns_tail s 0 L.
Proof.
  intros [[Hh _ _] (ys & Ht & HP & _) Hn]. rewrite app_nil_r in Hh. split; [done| |done].
  destruct (rb_done_fst _ _ _ Ht) as (T & HT & HTy). rewrite app_nil_r in HT.
  exists T. split; [done|]. by rewrite HTy.
Qed.

Lemma heap_free_key {V} (m : gmap Z V) T a xs :
  heap_is m T → T.*1 ≡ₚ a :: xs → ∃ T', heap_is (delete a m) T' ∧ T'.*1 ≡ₚ xs.
Proof.
  intros HT HP. assert (a ∈ T.*1) as ([a' v] & Ha & Hin)%list_elem_of_fmap by (rewrite HP; set_solver).
  simpl in Ha. subst a'. apply list_elem_of_split in Hin as (T1 & T2 & ->).
  exists (T1 ++ T2). split.
  - eapply (heap_free _ _ a v), heap_perm; [exact HT|]. solve_Permutation.
  - rewrite fmap_app in *. simpl in HP. apply (Permutation_cons_inv (a:=a)).
    rewrite <-HP. solve_Permutation.
Qed.

Lemma wp_destruct_loop fuel s prv L :
  dns_tail s prv L → (length L ≤ fuel)%nat →
  wp (dns_destruct_loop fuel (hd 0 (lcell <$> L))) s (λ _ s', dns_tail s' 0 []).
Proof.
  revert s prv L. induction fuel as [|fuel IH]; intros s prv L Ht Hf;
    (destruct L as [|[a e] L]; [apply wp_ret; destruct Ht as [H1 H2 H3]; split; [exact H1|exact H2|exact H3]|]); [simpl in Hf; lia|].
  destruct Ht as [Hl (T & HT & HP) Hn]. simpl in *. change (lcell (a, e)) with (a + list_off) at 1.
  assert (is_ptr (a + list_off)) as Hp by (eapply (heap_ptr _ _ 0); [exact Hl|done]).
  pose proof (is_ptr_nonzero _ Hp) as Hz. apply Z.eqb_neq in Hz as ->.
  apply wp_bind, wp_in_list, wp_bind. eapply (wp_ln_load _ _ 0); [exact Hl|done|]. apply wp_ret.
  replace (set_dns_list (dns_list s) s) with s by by destruct s.
  assert (lcell (a, e) - list_off = a) as Hsub by (unfold lcell; simpl; lia).
  change (a + list_off) with (lcell (a, e)). rewrite ?Hsub.
  apply wp_bind, wp_bind. eapply (wp_dn_load _ ((a, e) :: L) 0); [exact Hn|reflexivity|].
  apply wp_modify. eapply (IH _ (lcell (a, e))); [|lia]. split; simpl.
  - by eapply heap_free.
  - by eapply heap_free_key.
  - by eapply heap_free.
Qed.

Lemma wp_dns_destruct s L :
  dns_mid s L → wp hev_mapped_dns_destruct s (λ _ s',
    dns_nodes s' = ∅ ∧ rb_mem (dns_tree s') = ∅ ∧ hl_mem (dns_list s') = ∅).
Proof.
  intros H. unfold hev_mapped_dns_destruct. apply wp_bind, wp_in_list.
  eapply wp_hev_list_first; [apply (dm_list _ _ H)|].
  replace (set_dns_list (dns_list s) s) with s by by destruct s.
  apply wp_bind, wp_gets. rewrite (dns_mid_fuel _ _ H).
  eapply wp_mono; [eapply wp_destruct_loop; [by apply dns_is_tail|lia]|].
  intros [] s' [(_ & _ & Hl) (T & (_ & _ & HT) & HP) (_ & _ & Hn)].
  apply Permutation_nil_r, fmap_nil_inv in HP as ->. done.
Qed.

(** ** Retention *)

(** Resolving a sequence of names. *)
Fixpoint dns_find_all `{DnsAlloc} (names : list (list Z)) : stm HevMappedDNS unit :=
  match names with
  | [] => mret tt
  | n :: names => _ ← hev_mapped_dns_find n; dns_find_all names
  end.

(** The name is in the cache with the index, and every more recently used name
    is one of [S]. *)
Definition retained (name : list Z) (idx : Z) (S : gset (list Z)) (c : cache) : Prop :=
  ∃ c1 c2, c = c1 ++ (name, idx) :: c2 ∧ list_to_set c2.*1 ⊆ S.

Lemma NoDup_subset_size (l : list (list Z)) (S : gset (list Z)) :
  NoDup l → list_to_set l ⊆ S → (length l ≤ size S)%nat.
Proof. intros Hn Hs. apply subseteq_size in Hs. by rewrite size_list_to_set in Hs. Qed.

Lemma retained_hit max name idx S c1 c2 n :
  cache_ok max (c1 ++ (name, idx) :: c2) → list_to_set c2.*1 ⊆ S → n = name ∨ n ∈ S →
  n ∈ (c1 ++ (name, idx) :: c2).*1 →
  retained name idx S (cache_find max (c1 ++ (name, idx) :: c2) n).1.
Proof.
  intros Hok Hsub Hn Hin. rewrite fmap_app, fmap_cons, elem_of_app, elem_of_cons in Hin.
  destruct (decide (n = name)) as [->|Hne].
  - rewrite (cache_find_hit _ _ _ _ _ Hok). exists (c1 ++ c2), []. by rewrite <-app_assoc.
  - destruct Hn as [|Hn]; [done|].
    destruct Hin as [([n' i] & Heq & (d1 & d2 & ->)%list_elem_of_split)%list_elem_of_fmap|
                    [?|([n' i] & Heq & (d1 & d2 & ->)%list_elem_of_split)%list_elem_of_fmap]];
      [|done|]; simpl in Heq; subst n'.
    + rewrite <-app_assoc in *. simpl in *. rewrite (cache_find_hit _ _ _ _ _ Hok).
      exists (d1 ++ d2), (c2 ++ [(n, i)]). split; [by rewrite <-!app_assoc|].
      rewrite fmap_app. simpl. set_solver.
    + rewrite app_comm_cons, app_assoc in *. rewrite (cache_find_hit _ _ _ _ _ Hok).
      exists c1, (d1 ++ d2 ++ [(n, i)]). split; [by rewrite <-!app_assoc|].
      rewrite !fmap_app in *. simpl in *. set_solver.
Qed.

Lemma cache_find_retains max name idx S c n :
  cache_ok max c → 1 ≤ max → retained name idx S c → n = name ∨ n ∈ S →
  Z.of_nat (size (S ∖ {[name]})) < max → retained name idx S (cache_find max c n).1.
Proof.
  intros Hok Hmax (c1 & c2 & -> & Hsub) Hn Hsz.
  destruct (decide (n ∈ (c1 ++ (name, idx) :: c2).*1)) as [|Hnin]; [by apply retained_hit|].
  assert (n ≠ name ∧ n ∈ S) as [Hne HnS] by (rewrite fmap_app, fmap_cons in Hnin; set_solver).
  rewrite cache_find_miss by done. destruct (Z.ltb_spec (Z.of_nat (length (c1 ++ (name, idx) :: c2))) max) as [_|Hge].
  - exists c1, (c2 ++ [(n, Z.of_nat (length (c1 ++ (name, idx) :: c2)))]).
    split; [by rewrite <-app_assoc|]. rewrite fmap_app. simpl. set_solver.
  - destruct c1 as [|[n1 i1] c1]; simpl.
    + exfalso. destruct Hok as [_ Hnd _]. simpl in *. apply NoDup_cons in Hnd as [Hnn Hnd].
      assert (NoDup (n :: c2.*1)) as Hnd' by (constructor; [set_solver|done]).
      apply (NoDup_subset_size _ (S ∖ {[name]})) in Hnd'; [|set_solver].
      simpl in *. rewrite length_fmap in Hnd'. lia.
    + exists c1, (c2 ++ [(n, i1)]). split; [by rewrite <-app_assoc|]. rewrite fmap_app. simpl. set_solver.
Qed.

Lemma cache_ok_find max c n : cache_ok max c → 1 ≤ max → cache_ok max (cache_find max c n).1.
Proof.
  intros Hok Hmax. destruct (decide (n ∈ c.*1)) as [([n' i] & Heq & (d1 & d2 & ->)%list_elem_of_split)%list_elem_of_fmap|Hn].
  - simpl in Heq. subst n'. rewrite (cache_find_hit _ _ _ _ _ Hok). simpl.
    eapply cache_ok_perm; [done|]. solve_Permutation.
  - rewrite cache_find_miss by done. destruct (Z.ltb_spec (Z.of_nat (length c)) max).
    + by apply cache_ok_room.
    + destruct c as [|[n1 i1] c]; [simpl in *; lia|]. simpl. eapply cache_ok_evict; [done|]. set_solver.
Qed.

Lemma wp_find_all_retains `{DnsAllocLaws} name idx S names s :
  (∀ live n, strdup_ok live n = true) →
  (∃ c, dns_rep s c ∧ retained name idx S c) → 1 ≤ dns_max s →
  Forall (λ n, n = name ∨ n ∈ S) names → Z.of_nat (size (S ∖ {[name]})) < dns_max s →
  wp (dns_find_all names) s (λ _ s', (∃ c, dns_rep s' c ∧ retained name idx S c) ∧
    dns_max s' = dns_max s ∧ dns_net s' = dns_net s ∧ dns_mask s' = dns_mask s).
Proof.
  intros Hdup Hs Hmax Hns Hsz. revert s Hs Hmax Hsz.
  induction Hns as [|n names Hn Hns IH]; intros s (c & (L & HL & ->) & Hret) Hmax Hsz; simpl.
  { apply wp_ret. split_and!; try done. by exists L.*2; split; [exists L|]. }
  apply wp_bind. eapply wp_mono; [apply wp_dns_find; [auto|exact HL|done]|].
  intros r s' [(_ & -> & _)|(L' & (HL' & Hx & Hnet & Hmask) & Hc)].
  - apply IH; [by exists L.*2; split; [exists L|]|done..].
  - eapply wp_mono; [apply IH; rewrite ?Hx; try done|].
    + exists L'.*2. split; [by exists L'|].
      pose proof (cache_find_retains _ _ _ _ _ n (di_ok _ _ HL) Hmax Hret Hn Hsz) as Hr.
      by rewrite <-Hc in Hr.
    + intros [] s'' (? & ? & ? & ?). split_and!; congruence.
Qed.
