(* ===== verification/MappedDNSProps.v ===== *)
(** * The mapped DNS cache and server: the theorems

    The refinement of the cache, the round trip from names to addresses and
    back, how long a mapping lasts, and the two theorems on packets.  The
    witnesses run on a cache of two names in a network of six bits. *)

From stdpp Require Import sorting.
From S2P Require Import Prelude HevList RBTree RBTreeRep RBTreeInsert RBTreeErase RBTreeIter RBTreeProps RBTreeSearch CString MappedDNS MappedDNSCache MappedDNSPacket MappedDNSSafe MappedDNSAnswer MappedDNSLife.

(** ** A concrete cache *)

(** An allocator that takes the address after the highest one in use. *)
#[local] Instance bump_alloc : DnsAlloc := {|
  malloc live :=
    let a := set_fold Z.max 0 live + 64 in
    if bool_decide (is_ptr a ∧ is_ptr (a + 24) ∧ a ∉ live) then Some a else None;
  strdup_ok _ _ := true;
|}.

#[local] Instance bump_alloc_laws : DnsAllocLaws.
Proof.
  split. intros live a H. unfold malloc, bump_alloc in H. case_bool_decide as Hb; [|done].
  by injection H as <-.
Qed.

(** 10.0.0.0 with the mask 255.255.255.192, and two records. *)
Definition ex_net : Z := 0x0a000000.
Definition ex_mask : Z := -64.

(** The names "a" and "b", "a" the least recently used. *)
Definition ex_nodes : list (Z * entry) := [(64, ([97], 0)); (128, ([98], 1))].
Definition ex_tree : tree := T Black E 128 (T Red E 64 E).

Definition ex_dns : HevMappedDNS :=
  mk_dns 2 2 ex_net ex_mask
    (mk_hlist 88 152 (list_to_map (lseg 0 [88; 152] 0)))
    (tree_state ex_tree []) (list_to_map (ncell <$> ex_nodes)) [64; 128].

Lemma ex_dns_is : dns_is ex_dns ex_nodes.
Proof.
  split; try done.
  - split.
    + split; [|done..]. split_and!; [apply (bool_decide_unpack _); by vm_compute..|done].
    + exists [128; 64]. split_and!.
      * exists ex_tree. split_and!; [apply tree_state_is; by vm_compute|exists 1%nat; repeat econstructor|done].
      * solve_Permutation.
      * repeat constructor; by vm_compute.
    + split_and!; [apply (bool_decide_unpack _); by vm_compute..|done].
  - intros x [-> | [-> | []%not_elem_of_nil]%elem_of_cons]%elem_of_cons; done.
  - intros i Hi. simpl in Hi. lia.
  - split; [done|apply (bool_decide_unpack _); by vm_compute|done].
Qed.

Lemma ex_dns_rep : dns_rep ex_dns [([97], 0); ([98], 1)].
Proof. exists ex_nodes. split; [apply ex_dns_is|done]. Qed.

(** ** The cache *)



(** Refinement.  [hev_mapped_dns_lookup] of an address is defined for a
    network mask whose complement is not negative, and implements the lookup of
    the abstract cache by the host part of the address: the name with that
    index, moved to the end, or NULL for an index that is not in use. *)
Theorem dns_lookup_refines ip s c :
  dns_rep s c → 0 ≤ Z.lnot (dns_mask s) →
  ∃ s', hev_mapped_dns_lookup ip s =
      Some ((cache_lookup c (Z.land ip (Z.lnot (dns_mask s)))).2, s') ∧
    dns_rep s' (cache_lookup c (Z.land ip (Z.lnot (dns_mask s)))).1.
Proof.
  intros (L & HL & ->) Hmask.
  destruct (wp_run _ _ _ (wp_dns_lookup s L ip HL Hmask)) as (r & s' & Hrun & L' & (HL' & _) & Hc).
  exists s'. rewrite <-Hc. split; [done|by exists L'].
Qed.

Lemma dns_lookup_refines_witness :
  ∃ s', hev_mapped_dns_lookup 0x0a000000 ex_dns = Some (Some [97], s') ∧
    dns_rep s' [([98], 1); ([97], 0)].
Proof. apply (dns_lookup_refines 0x0a000000 ex_dns _ ex_dns_rep). by vm_compute. Defined.

(** A network: the mask is a prefix of the address bits, the network has no
    host bits, and the records fit, which is what [hev_mapped_dns_construct]
    checks. *)
Definition net_ok (net mask max : Z) : Prop :=
  (∃ k, 0 ≤ k ∧ Z.lnot mask = Z.ones k) ∧ Z.land net (Z.lnot mask) = 0 ∧ max ≤ Z.lnot mask.

Lemma net_host net mask max idx :
  net_ok net mask max → 0 ≤ idx < max → Z.land (Z.lor net idx) (Z.lnot mask) = idx.
Proof.
  intros ((k & Hk & He) & Hn & Hm) Hi. rewrite Z.land_lor_distr_l, Hn, Z.lor_0_l.
  rewrite He in *. rewrite Z.land_ones by done. apply Z.mod_small.
  rewrite Z.ones_equiv in Hm. lia.
Qed.

Lemma cache_find_last max c name :
  cache_ok max c → 1 ≤ max →
  ∃ c1, (cache_find max c name).1 = c1 ++ [(name, (cache_find max c name).2)].
Proof.
  intros Hok Hmax. destruct (decide (name ∈ c.*1)) as [([n i] & Heq & (d1 & d2 & ->)%list_elem_of_split)%list_elem_of_fmap|Hn].
  - simpl in Heq. subst n. rewrite (cache_find_hit _ _ _ _ _ Hok). exists (d1 ++ d2). by rewrite <-app_assoc.
  - rewrite cache_find_miss by done. destruct (Z.ltb_spec (Z.of_nat (length c)) max); [by eexists|].
    destruct c as [|[n1 i1] c]; [simpl in *; lia|]. by eexists.
Qed.

Lemma cache_lookup_entry max c name idx :
  cache_ok max c → (name, idx) ∈ c → (cache_lookup c idx).2 = Some name.
Proof.
  intros Hok (d1 & d2 & ->)%list_elem_of_split. by rewrite (cache_lookup_hit _ _ _ _ _ Hok).
Qed.

(** A name that was used last keeps its index while fewer distinct other names are
    asked for than there are records. *)
Lemma lookup_retained `{DnsAllocLaws} name names s c1 idx :
  (∀ live n, strdup_ok live n = true) → dns_rep s (c1 ++ [(name, idx)]) → 1 ≤ dns_max s →
  net_ok (dns_net s) (dns_mask s) (dns_max s) →
  Z.of_nat (size (list_to_set names ∖ {[name]} : gset (list Z))) < dns_max s → 0 ≤ idx →
  ∃ s2 s3, dns_find_all names s = Some (tt, s2) ∧
    hev_mapped_dns_lookup (Z.lor (dns_net s) idx) s2 = Some (Some name, s3).
Proof.
  intros Hdup Hrep Hmax Hnet Hsz Hidx.
  assert (0 ≤ Z.lnot (dns_mask s)) as Hmask by (destruct Hnet as (_ & _ & ?); lia).
  assert (Forall (λ n, n = name ∨ n ∈ (list_to_set names : gset (list Z))) names) as Hns.
  { apply Forall_forall. intros n Hin. right. by apply elem_of_list_to_set. }
  assert (∃ c, dns_rep s c ∧ retained name idx (list_to_set names) c) as Hret1.
  { eexists. split; [exact Hrep|]. exists c1, []. by split. }
  destruct (wp_run _ _ _ (wp_find_all_retains name idx (list_to_set names) names s Hdup Hret1 Hmax Hns Hsz))
    as ([] & s2 & Hall & (c2 & (L2 & HL2 & ->) & (d1 & d3 & Hc2 & _)) & Hx2 & Hn2 & Hm2).
  rewrite <-Hm2 in Hmask.
  destruct (wp_run _ _ _ (wp_dns_lookup s2 L2 (Z.lor (dns_net s) idx) HL2 Hmask))
    as (r & s3 & Hrl & L3 & _ & Hc3).
  exists s2, s3. split; [done|]. rewrite Hrl. do 2 f_equal.
  assert (idx < dns_max s) as Hlt.
  { pose proof (seqZ_lookup_idx _ (length d1) (name, idx) _ (di_ok _ _ HL2)) as Hs.
    rewrite Hc2, list_lookup_middle, <-Hc2 in Hs by done. specialize (Hs eq_refl). simpl in Hs.
    pose proof (co_len _ _ (di_ok _ _ HL2)). lia. }
  rewrite Hm2, (net_host _ _ _ _ Hnet) in Hc3 by lia.
  pose proof (cache_lookup_entry (dns_max s2) L2.*2 name idx (di_ok _ _ HL2)) as He.
  rewrite <-Hc3 in He. apply He. rewrite Hc2. set_solver.
Qed.


Lemma ex_net_ok : net_ok ex_net ex_mask 2.
Proof. split_and!; [exists 6; done|done|]. vm_compute. done. Qed.


(** Life cycle.  A new cache of at least one record is empty and well
    formed, and its construction has checked that the records fit the host part
    of the mask; destroying a well-formed cache is defined (every node is
    released once) and leaves no node, tree cell or list cell in memory. *)
Theorem dns_lifecycle :
  (∀ ok base net mask max s, hev_mapped_dns_new ok base net mask max = Some s → 0 ≤ max →
     dns_rep s [] ∧ dns_net s = net ∧ dns_mask s = mask ∧ dns_max s = max ∧ max ≤ Z.lnot mask) ∧
  (∀ s c, dns_rep s c → ∃ s', hev_mapped_dns_destruct s = Some (tt, s') ∧
     dns_nodes s' = ∅ ∧ rb_mem (dns_tree s') = ∅ ∧ hl_mem (dns_list s') = ∅).
Proof.
  split.
  - intros ok base net mask max s Hn Hm. destruct (dns_new_spec _ _ _ _ _ _ Hn Hm) as (Hs & ?).
    split; [by exists []|done].
  - intros s c (L & HL & _).
    destruct (wp_run _ _ _ (wp_dns_destruct s L (di_mid _ _ HL))) as ([] & s' & ? & ?). by exists s'.
Qed.

(** ** The server *)



(** Functional correctness of a response.  A query with one question of
    type A and class IN for labels [ls] (a header, the labels, and anything
    after the question) gets, when the response buffer has room for it, the
    response with the same identifier, the response flag, the
    recursion-available flag when recursion was desired, the same question, and
    one answer: a pointer to the name at offset 12, type A, class IN, a time to
    live of one second, and the address that the cache gives to the dotted
    name.  Only when the allocator returns NULL it has no answer. *)
Theorem dns_handle_answer `{DnsAllocLaws} ls rest d L h0 h1 h2 h3 h6 h7 h8 h9 h10 h11 res0 qlen :
  Forall label_ok ls → ls ≠ [] → dns_is d L → 1 ≤ dns_max d → (∀ live n, strdup_ok live n = true) →
  is_bytes (query h0 h1 h2 h3 h6 h7 h8 h9 h10 h11 ls rest) →
  Z.of_nat (12 + length (question ls)) ≤ qlen ≤ Z.of_nat (12 + length (question ls) + length rest) →
  Z.of_nat (12 + length (question ls) + 16) ≤ Z.of_nat (length res0) → qlen ≤ Z.of_nat (length res0) →
  ∃ r s', hev_mapped_dns_handle qlen (Z.of_nat (length res0))
      (mk_io d (query h0 h1 h2 h3 h6 h7 h8 h9 h10 h11 ls rest) res0) = Some (r, s') ∧
    ((malloc (dom (dns_nodes d)) = None ∧
      take (Z.to_nat r) (io_res s') = response_header h0 h1 h2 h3 0 ++ question ls) ∨
     (∃ c' idx, dns_rep (io_dns s') c' ∧ (c', idx) = cache_find (dns_max d) L.*2 (name_of ls) ∧
      0 ≤ idx ∧ take (Z.to_nat r) (io_res s') =
        response_header h0 h1 h2 h3 1 ++ question ls ++ answer (Z.lor (dns_net d) idx))).
Proof.
  intros Hls Hne HL Hmax Hdup Hb Hq Hs Hf.
  destruct (wp_run _ _ _ (wp_handle_query Hdup ls rest d L Hls Hne HL Hmax h0 h1 h2 h3 h6 h7 h8 h9 h10 h11
    res0 qlen (Z.of_nat (length res0)) Hb Hq eq_refl Hs Hf))
    as (r & s' & Hrun & [([-> Ht] & _ & Hnull)|(idx & [-> Ht] & (L' & (HL' & _) & Hc) & Hi)]);
    eexists _, s'; (split; [exact Hrun|]); rewrite Nat2Z.id.
  - left. split; [done|]. rewrite Ht, app_nil_r. done.
  - right. exists L'.*2, idx. split_and!; [by exists L'|done..].
Qed.

(** The query for "a.bc" with recursion desired. *)
Lemma dns_handle_answer_witness :
  ∃ r s', hev_mapped_dns_handle 22 64
      (mk_io ex_dns (query 18 52 1 0 0 0 0 0 0 0 [[97]; [98; 99]] []) (replicate 64 0)) = Some (r, s') ∧
    ((malloc (dom (dns_nodes ex_dns)) = None ∧
      take (Z.to_nat r) (io_res s') = response_header 18 52 1 0 0 ++ question [[97]; [98; 99]]) ∨
     (∃ c' idx, dns_rep (io_dns s') c' ∧ (c', idx) = cache_find 2 ex_nodes.*2 [97; 46; 98; 99] ∧
      0 ≤ idx ∧ take (Z.to_nat r) (io_res s') =
        response_header 18 52 1 0 1 ++ question [[97]; [98; 99]] ++ answer (Z.lor ex_net idx))).
Proof.
  apply (dns_handle_answer [[97]; [98; 99]] [] ex_dns ex_nodes 18 52 1 0 0 0 0 0 0 0 (replicate 64 0) 22).
  - repeat constructor; simpl; try done; lia.
  - done.
  - apply ex_dns_is.
  - done.
  - intros live n. reflexivity.
  - repeat constructor; done.
  - simpl. lia.
  - simpl. lia.
  - simpl. lia.
Defined.

(** A packet of exactly its buffer.  When no byte follows the request, a
    header that announces more questions than the packet holds makes the server
    read the byte after the buffer, which is undefined. *)
Theorem dns_handle_overread :
  hev_mapped_dns_handle 19 64
    (mk_io ex_dns [1; 2; 1; 0; 0; 2; 0; 0; 0; 0; 0; 0; 1; 97; 0; 0; 1; 0; 1] (replicate 64 0)) = None.
Proof. vm_compute. reflexivity. Qed.
