(* ===== verification/Authenticator.v ===== *)
(** * Users and the authenticator (src/core/src/hev-socks5-user.c,
      src/core/src/hev-socks5-authenticator.c): the model

    A user is a reference-counted object with a name and a password; the
    authenticator keeps users in a red-black tree ordered by the length of the
    name, then by its bytes.  The tree node of a user is at offset 16 of the
    object, after the object header.  The memory is split by field, as for the
    mapped DNS cache. *)

From S2P Require Import Prelude RBTree RBTreeSearch CString.

Record HevSocks5User := mk_user {
  u_ref : Z;                       (* base.ref_count *)
  u_name : list Z;
  u_pass : list Z;
  u_name_len : Z;
  u_pass_len : Z;
}.

Record HevSocks5Authenticator := mk_auth {
  au_tree : HevRBTree;             (* the tree nodes, at the user's address + 16 *)
  au_users : gmap Z HevSocks5User;
}.

Definition node_off : Z := 16.

Definition set_au_tree (t : HevRBTree) (s : HevSocks5Authenticator) : HevSocks5Authenticator :=
  mk_auth t (au_users s).
Definition set_au_users (m : gmap Z HevSocks5User) (s : HevSocks5Authenticator) :
    HevSocks5Authenticator :=
  mk_auth (au_tree s) m.

Definition au_in_tree {A} : stm HevRBTree A → stm HevSocks5Authenticator A := zoom au_tree set_au_tree.

Definition user_load (a : Z) : stm HevSocks5Authenticator HevSocks5User := λ s,
  match au_users s !! a with Some u => Some (u, s) | None => None end.

Definition au_fuel (s : HevSocks5Authenticator) : nat := S (size (au_users s)).

(** ** Users *)

(** A copy of [len] bytes into a block of [malloc (len)]: [ok] tells whether the
    allocation succeeds; a copy of at least one byte to NULL, or from a buffer
    that is too short, is undefined. *)
Definition dup_bytes (ok : bool) (bytes : list Z) (len : Z) : option (list Z) :=
  if Z.of_nat (length bytes) <? len then None
  else if (0 <? len) && negb ok then None
  else Some (take (Z.to_nat len) bytes).

(** [hev_socks5_user_construct] on the object at [self] that [calloc] has
    given; the base constructor sets the reference count to one. *)
Definition hev_socks5_user_construct (self : Z) (ok_name ok_pass : bool) (name : list Z) (name_len : Z)
    (pass : list Z) (pass_len : Z) : stm HevSocks5Authenticator Z := λ s,
  match dup_bytes ok_name name name_len, dup_bytes ok_pass pass pass_len with
  | Some n, Some p =>
      Some (0, set_au_users (<[self := mk_user 1 n p name_len pass_len]> (au_users s)) s)
  | _, _ => None
  end.

(** [hev_socks5_user_new]: [block] is the result of [calloc]. *)
Definition hev_socks5_user_new (block : option Z) (ok_name ok_pass : bool) (name : list Z) (name_len : Z)
    (pass : list Z) (pass_len : Z) : stm HevSocks5Authenticator Z :=
  match block with
  | None => mret 0
  | Some self =>
      modify (λ s, set_au_tree (mk_rbtree (rb_root (au_tree s))
        (<[self + node_off := mk_rbnode 0 0 0]> (rb_mem (au_tree s)))) s);;
      res ← hev_socks5_user_construct self ok_name ok_pass name name_len pass pass_len;
      if res <? 0 then mret 0 else mret self
  end.

(** [hev_socks5_user_check] calls the checker of the class. *)
Definition hev_socks5_user_checker (self : HevSocks5User) (pass : list Z) (pass_len : Z) : Z :=
  if negb (u_pass_len self =? pass_len) then -1
  else if negb (memcmp (u_pass self) pass (Z.to_nat pass_len) =? 0) then -1
  else 0.

Definition hev_socks5_user_check (self : HevSocks5User) (pass : list Z) (pass_len : Z) : Z :=
  hev_socks5_user_checker self pass pass_len.

(** [hev_socks5_user_destruct]: the name, the password and the object with its
    tree node are released. *)
Definition hev_socks5_user_destruct (self : Z) : stm HevSocks5Authenticator unit :=
  _ ← user_load self;
  modify (λ s, mk_auth
    (mk_rbtree (rb_root (au_tree s)) (delete (self + node_off) (rb_mem (au_tree s))))
    (delete self (au_users s))).

(** [hev_object_unref] of a user: the destructor runs when the last reference
    is dropped. *)
Definition user_unref (self : Z) : stm HevSocks5Authenticator unit :=
  u ← user_load self;
  if 1 <? u_ref u then
    modify (λ s, set_au_users (<[self := mk_user (u_ref u - 1) (u_name u) (u_pass u)
      (u_name_len u) (u_pass_len u)]> (au_users s)) s)
  else hev_socks5_user_destruct self.

(** ** The authenticator *)

(** The comparison of the loops: [this] against a name. *)
Definition user_compare (this : HevSocks5User) (name : list Z) (name_len : Z) : Z :=
  if u_name_len this <? name_len then -1
  else if name_len <? u_name_len this then 1
  else memcmp (u_name this) name (Z.to_nat name_len).

(** The descent of [hev_socks5_authenticator_add]: [None] is [return -1]. *)
Fixpoint auth_add_loop (fuel : nat) (new : rb_link) (parent : Z) (user : HevSocks5User) :
    stm HevSocks5Authenticator (option (rb_link * Z)) :=
  match fuel with
  | O => ub
  | S fuel =>
      n ← au_in_tree (get_link new);
      if n =? 0 then mret (Some (new, parent))
      else
        this ← user_load (n - node_off);
        let res := user_compare this (u_name user) (u_name_len user) in
        if res <? 0 then auth_add_loop fuel (LLeft n) n user
        else if 0 <? res then auth_add_loop fuel (LRight n) n user
        else mret None
  end.

Definition hev_socks5_authenticator_add (user : Z) : stm HevSocks5Authenticator Z :=
  u ← user_load user;
  fuel ← gets au_fuel;
  r ← auth_add_loop fuel LRoot 0 u;
  match r with
  | None => mret (-1)
  | Some (new, parent) =>
      au_in_tree (hev_rbtree_node_link (user + node_off) parent new);;
      au_in_tree (hev_rbtree_insert_color fuel (user + node_off));;
      mret 0
  end.

(** The loop that [hev_socks5_authenticator_del] and [_get] have in common: the
    tree node with the name, or NULL. *)
Fixpoint auth_walk (fuel : nat) (node : Z) (name : list Z) (name_len : Z) :
    stm HevSocks5Authenticator Z :=
  if node =? 0 then mret 0
  else
    match fuel with
    | O => ub
    | S fuel =>
        this ← user_load (node - node_off);
        let res := user_compare this name name_len in
        if res <? 0 then
          l ← au_in_tree (get_left node); auth_walk fuel l name name_len
        else if 0 <? res then
          r ← au_in_tree (get_right node); auth_walk fuel r name name_len
        else mret node
    end.

Definition hev_socks5_authenticator_del (name : list Z) (name_len : Z) : stm HevSocks5Authenticator Z :=
  root ← gets (λ s, rb_root (au_tree s));
  fuel ← gets au_fuel;
  node ← auth_walk fuel root name name_len;
  if node =? 0 then mret (-1)
  else
    au_in_tree (hev_rbtree_erase fuel node);;
    user_unref (node - node_off);;
    mret 0.

(** NULL is 0. *)
Definition hev_socks5_authenticator_get (name : list Z) (name_len : Z) : stm HevSocks5Authenticator Z :=
  root ← gets (λ s, rb_root (au_tree s));
  fuel ← gets au_fuel;
  node ← auth_walk fuel root name name_len;
  mret (if node =? 0 then 0 else node - node_off).

Fixpoint auth_clear_loop (fuel : nat) : stm HevSocks5Authenticator unit :=
  match fuel with
  | O => ub
  | S fuel' =>
      f ← gets au_fuel;
      n ← au_in_tree (hev_rbtree_first f);
      if n =? 0 then mret tt
      else
        au_in_tree (hev_rbtree_erase f n);;
        user_unref (n - node_off);;
        auth_clear_loop fuel'
  end.

Definition hev_socks5_authenticator_clear : stm HevSocks5Authenticator unit :=
  fuel ← gets au_fuel; auth_clear_loop fuel.
