(* ===== verification/AuthenticatorMap.v ===== *)
(** * The authenticator implements a finite map from names to users *)

From stdpp Require Import sorting.
From S2P Require Import Prelude RBTree RBTreeRep RBTreeInsert RBTreeErase RBTreeIter RBTreeSearch CString MappedDNSCache Authenticator.

(** ** The order of names: by length, then by bytes *)

Definition name_cmp (x y : list Z) : Z :=
  if (length x <? length y)%nat then -1
  else if (length y <? length x)%nat then 1
  else strcmp x y.

#[global] Instance name_cmp_comparison : Comparison name_cmp.
Proof.
  split; unfold name_cmp.
  - intros x y. destruct (Nat.ltb_spec (length x) (length y)), (Nat.ltb_spec (length y) (length x));
      rewrite ?cmp_eq; try (split; [lia|intros ->; lia]). done.
  - intros x y. destruct (Nat.ltb_spec (length x) (length y)), (Nat.ltb_spec (length y) (length x));
      try lia. apply cmp_flip.
  - intros x y z. destruct (Nat.ltb_spec (length x) (length y)), (Nat.ltb_spec (length y) (length x)),
      (Nat.ltb_spec (length y) (length z)), (Nat.ltb_spec (length z) (length y)),
      (Nat.ltb_spec (length x) (length z)), (Nat.ltb_spec (length z) (length x)); try lia.
    apply cmp_trans.
Qed.

(** A user whose lengths are those of its name and password. *)
Definition user_ok (u : HevSocks5User) : Prop :=
  u_name_len u = Z.of_nat (length (u_name u)) ∧ u_pass_len u = Z.of_nat (length (u_pass u)).

Lemma user_compare_spec u name :
  user_ok u → user_compare u name (Z.of_nat (length name)) = name_cmp (u_name u) name.
Proof.
  intros [Hn _]. unfold user_compare, name_cmp. rewrite Hn.
  destruct (Nat.ltb_spec (length (u_name u)) (length name)), (Nat.ltb_spec (length name) (length (u_name u)));
    destruct (Z.ltb_spec (Z.of_nat (length (u_name u))) (Z.of_nat (length name))),
      (Z.ltb_spec (Z.of_nat (length name)) (Z.of_nat (length (u_name u)))); try lia.
  rewrite Nat2Z.id. replace (length name) with (length (u_name u)) by lia. apply memcmp_strcmp. lia.
Qed.

(** ** Representation *)

Definition ukey (m : gmap Z HevSocks5User) (y : Z) : list Z :=
  match m !! (y - node_off) with Some u => u_name u | None => [] end.

Definition ucell (x : Z * HevSocks5User) : Z := x.1 + node_off.

(** [U]: the users in memory; [ys]: the tree nodes of those in the tree, in
    order; [F]: the tree nodes of the others. *)
Record auth_is (s : HevSocks5Authenticator) (ys : list Z) (F : list (Z * HevRBTreeNode))
    (U : list (Z * HevSocks5User)) : Prop := {
  ai_tree : rb_done (au_tree s) ys F;
  ai_users : heap_is (au_users s) U;
  ai_cells : ys ++ F.*1 ≡ₚ ucell <$> U;
  ai_ok : Forall (λ x, user_ok x.2) U;
  ai_desc : descending name_cmp (ukey (au_users s)) ys;
}.

(** The map the tree stands for: from names to users. *)
Definition auth_map (m : gmap Z HevSocks5User) (ys : list Z) : gmap (list Z) Z :=
  list_to_map ((λ y, (ukey m y, y - node_off)) <$> ys).

Definition auth_rep (s : HevSocks5Authenticator) (M : gmap (list Z) Z) : Prop :=
  ∃ ys F U, auth_is s ys F U ∧ M = auth_map (au_users s) ys.

(** ** The map *)

Lemma descending_keys m ys : descending name_cmp (ukey m) ys → NoDup (ukey m <$> ys).
Proof.
  intros Hd. induction ys as [|y ys IH]; simpl; [constructor|].
  pose proof Hd as [Hy Hs]%StronglySorted_cons. constructor; [|by apply IH].
  intros (z & Hz & Hin)%list_elem_of_fmap. eapply Forall_forall in Hy; [|exact Hin]. simpl in Hy.
  rewrite Hz, (cmp_refl name_cmp) in Hy. lia.
Qed.

Lemma auth_map_fst (m : gmap Z HevSocks5User) ys :
  ((λ y, (ukey m y, y - node_off)) <$> ys).*1 = ukey m <$> ys.
Proof. rewrite <-list_fmap_compose. by apply list_fmap_ext. Qed.

Lemma auth_map_lookup m ys name a :
  descending name_cmp (ukey m) ys →
  auth_map m ys !! name = Some a ↔ a + node_off ∈ ys ∧ ukey m (a + node_off) = name.
Proof.
  intros Hd. unfold auth_map. rewrite <-elem_of_list_to_map
    by (rewrite auth_map_fst; by apply descending_keys).
  rewrite list_elem_of_fmap. split.
  - intros (y & [= -> ->] & Hy). replace (y - node_off + node_off) with y by lia. done.
  - intros [Hy <-]. exists (a + node_off). split; [|done]. f_equal. lia.
Qed.

Lemma auth_map_None m ys name :
  auth_map m ys !! name = None ↔ ∀ y, y ∈ ys → ukey m y ≠ name.
Proof.
  unfold auth_map. rewrite <-not_elem_of_list_to_map, auth_map_fst, list_elem_of_fmap. set_solver.
Qed.

Lemma auth_map_perm m ys ys' :
  descending name_cmp (ukey m) ys → ys ≡ₚ ys' → auth_map m ys = auth_map m ys'.
Proof.
  intros Hd HP. apply list_to_map_proper; [rewrite auth_map_fst; by apply descending_keys|].
  by rewrite HP.
Qed.

Lemma auth_map_ext m m' ys :
  (∀ y, y ∈ ys → ukey m y = ukey m' y) → auth_map m ys = auth_map m' ys.
Proof.
  intros He. unfold auth_map. f_equal. apply list_fmap_ext. intros i y Hy.
  rewrite He; [done|]. by eapply list_elem_of_lookup_2.
Qed.

Lemma auth_map_insert m xs1 y xs2 :
  descending name_cmp (ukey m) (xs1 ++ y :: xs2) →
  auth_map m (xs1 ++ y :: xs2) = <[ukey m y := y - node_off]> (auth_map m (xs1 ++ xs2)).
Proof. intros Hd. by rewrite (auth_map_perm _ _ (y :: xs1 ++ xs2)) by (done || solve_Permutation). Qed.

Lemma auth_map_delete m xs1 y xs2 :
  descending name_cmp (ukey m) (xs1 ++ y :: xs2) →
  auth_map m (xs1 ++ xs2) = delete (ukey m y) (auth_map m (xs1 ++ y :: xs2)).
Proof.
  intros Hd. rewrite auth_map_insert by done. rewrite delete_insert_id; [done|].
  apply auth_map_None. intros z Hz He.
  assert (z = y) as ->.
  { eapply (descending_inj name_cmp); [exact Hd|set_solver|set_solver|done]. }
  apply descending_keys in Hd. rewrite fmap_app in Hd. simpl in Hd.
  apply NoDup_app in Hd as (_ & Hd1 & Hd2). apply NoDup_cons in Hd2 as [Hd2 _].
  apply elem_of_app in Hz as [Hz|Hz].
  - eapply Hd1; [|left]. apply list_elem_of_fmap. by exists y.
  - apply Hd2. apply list_elem_of_fmap. by exists y.
Qed.

(** ** Symbolic execution *)

Lemma auth_is_fuel s ys F U : auth_is s ys F U → (length ys ≤ length U)%nat ∧ au_fuel s = S (length U).
Proof.
  intros H. split.
  - pose proof (ai_cells _ _ _ _ H) as HP%Permutation_length. rewrite length_app, !length_fmap in HP. lia.
  - unfold au_fuel. by rewrite (heap_size _ _ (ai_users _ _ _ _ H)).
Qed.

Lemma wp_user_load s U (i : nat) a u (Q : HevSocks5User → HevSocks5Authenticator → Prop) :
  heap_is (au_users s) U → U !! i = Some (a, u) → Q u s → wp (user_load a) s Q.
Proof. intros Hm Hi HQ. unfold wp, user_load. by rewrite (heap_lookup _ _ _ _ _ Hm Hi). Qed.

(** The user of a tree node. *)
Lemma auth_is_user s ys F U y :
  auth_is s ys F U → y ∈ ys ++ F.*1 →
  ∃ (i : nat) u, U !! i = Some (y - node_off, u) ∧ au_users s !! (y - node_off) = Some u ∧
    user_ok u ∧ ukey (au_users s) y = u_name u.
Proof.
  intros H Hy. rewrite (ai_cells _ _ _ _ H) in Hy.
  apply list_elem_of_fmap in Hy as ([a u] & -> & (i & Hi)%list_elem_of_lookup). unfold ucell. simpl.
  replace (a + node_off - node_off) with a by lia.
  pose proof (heap_lookup _ _ _ _ _ (ai_users _ _ _ _ H) Hi) as Hu.
  exists i, u. split_and!; [done|done| |].
  - exact (Forall_lookup_1 _ _ _ _ (ai_ok _ _ _ _ H) Hi).
  - unfold ukey. replace (a + node_off - node_off) with a by lia. by rewrite Hu.
Qed.

Lemma wp_auth_walk fuel s ys F U k t name :
  auth_is s ys F U → rbrep (au_tree s) k t F → inorder (plug k t) ⊆ ys → (height t ≤ fuel)%nat →
  wp (auth_walk fuel (rootp t) name (Z.of_nat (length name))) s
    (λ r s', s' = s ∧ r = rootp (locate (λ y, name_cmp (ukey (au_users s) y) name) k t).2).
Proof.
  intros H. revert k t. induction fuel as [|fuel IH]; intros k t Ht Hsub Hf;
    (destruct t as [|c l a r]; [by apply wp_ret|]); simpl in Hf; [lia|].
  cbn [auth_walk rootp locate].
  assert (a ∈ ys) as Ha by (apply Hsub; rewrite inorder_plug; set_solver).
  pose proof (rb_done_ptr _ _ _ _ (ai_tree _ _ _ _ H) Ha) as Hp.
  apply is_ptr_nonzero, Z.eqb_neq in Hp as ->.
  destruct (auth_is_user _ _ _ _ a H) as (i & u & Hi & _ & Hok & Hk); [set_solver|].
  apply wp_bind. eapply wp_user_load; [apply (ai_users _ _ _ _ H)|exact Hi|].
  rewrite (user_compare_spec _ _ Hok), <-Hk.
  pose proof Ht as Hr. unfold rbrep in Hr. simpl in Hr.
  destruct (name_cmp (ukey (au_users s) a) name <? 0);
    [|destruct (0 <? name_cmp (ukey (au_users s) a) name)].
  - apply wp_bind, wp_zoom. rb_exec Hr. replace (set_au_tree (au_tree s) s) with s by by destruct s.
    eapply (IH (Lf c a r :: k) l); [|done|lia]. by apply rbrep_plug, (rbrep_plug _ k), Ht.
  - apply wp_bind, wp_zoom. rb_exec Hr. replace (set_au_tree (au_tree s) s) with s by by destruct s.
    eapply (IH (Rf c l a :: k) r); [|done|lia]. by apply rbrep_plug, (rbrep_plug _ k), Ht.
  - by apply wp_ret.
Qed.

Lemma wp_auth_add_loop fuel s ys F U k t u :
  auth_is s ys F U → user_ok u → rbrep (au_tree s) k t F → inorder (plug k t) ⊆ ys →
  (height t < fuel)%nat →
  wp (auth_add_loop fuel (link_of k) (cpar k) u) s (λ r s', s' = s ∧
    r = match locate (λ y, name_cmp (ukey (au_users s) y) (u_name u)) k t with
        | (k', E) => Some (link_of k', cpar k')
        | _ => None
        end).
Proof.
  intros H Hu. revert k t. induction fuel as [|fuel IH]; intros k t Ht Hsub Hf; [lia|].
  simpl. apply wp_bind, wp_zoom. eapply wp_get_link; [exact Ht|].
  replace (set_au_tree (au_tree s) s) with s by by destruct s.
  destruct t as [|c l a r]; [by apply wp_ret|]. simpl in *.
  assert (a ∈ ys) as Ha by (apply Hsub; rewrite inorder_plug; set_solver).
  pose proof (rb_done_ptr _ _ _ _ (ai_tree _ _ _ _ H) Ha) as Hp.
  apply is_ptr_nonzero, Z.eqb_neq in Hp as ->.
  destruct (auth_is_user _ _ _ _ a H) as (i & v & Hi & _ & Hok & Hk); [set_solver|].
  apply wp_bind. eapply wp_user_load; [apply (ai_users _ _ _ _ H)|exact Hi|].
  destruct Hu as [Hlen _]. rewrite Hlen, (user_compare_spec _ _ Hok), <-Hk.
  destruct (name_cmp (ukey (au_users s) a) (u_name u) <? 0);
    [|destruct (0 <? name_cmp (ukey (au_users s) a) (u_name u))].
  - eapply (IH (Lf c a r :: k) l); [|done|lia]. by apply rbrep_plug, (rbrep_plug _ k), Ht.
  - eapply (IH (Rf c l a :: k) r); [|done|lia]. by apply rbrep_plug, (rbrep_plug _ k), Ht.
  - by apply wp_ret.
Qed.

(** ** The operations *)

Section ops.
Context (s : HevSocks5Authenticator) (ys : list Z) (F : list (Z * HevRBTreeNode)) (U : list (Z * HevSocks5User)).
Hypothesis Hs : auth_is s ys F U.
Notation M := (auth_map (au_users s) ys).

Lemma auth_tree_height t : inorder t = ys → (height t ≤ length U)%nat.
Proof.
  intros He. pose proof (height_tsize t). rewrite tsize_inorder, He in *.
  destruct (auth_is_fuel _ _ _ _ Hs). lia.
Qed.

(** The search finds the node of the user that the map gives. *)
Lemma wp_auth_search name (Q : Z → HevSocks5Authenticator → Prop) :
  (M !! name = None → Q 0 s) →
  (∀ a, M !! name = Some a → Q (a + node_off) s) →
  wp (auth_walk (au_fuel s) (rb_root (au_tree s)) name (Z.of_nat (length name))) s Q.
Proof.
  intros HN HS. pose proof (ai_tree _ _ _ _ Hs) as (t & Ht & Hrb & Hin).
  destruct (auth_is_fuel _ _ _ _ Hs) as [Hlen ->].
  rewrite (rs_root _ _ _ Ht). cbn [croot]. pose proof (auth_tree_height t Hin) as Hh.
  eapply wp_mono; [eapply (wp_auth_walk _ _ _ _ _ [] t name Hs); [exact Ht|simpl; by rewrite Hin|lia]|].
  intros r s' [-> ->]. pose proof (locate_plug (λ y, name_cmp (ukey (au_users s) y) name) [] t) as Hpl.
  destruct (locate _ [] t) as [k [|c l a rr]] eqn:Hloc; simpl in *.
  - apply HN, auth_map_None. intros y Hy He. pose proof (ai_desc _ _ _ _ Hs) as Hd. rewrite <-Hin in Hd, Hy.
    destruct (descending_locate name_cmp _ _ _ _ Hd Hloc) as [H1 H2].
    rewrite <-Hpl, inorder_plug in Hy. simpl in Hy.
    assert (name_cmp (ukey (au_users s) y) name = 0) as H0 by by apply cmp_eq.
    apply elem_of_app in Hy as [Hy|Hy]; [eapply Forall_forall in H1|eapply Forall_forall in H2]; try done;
      simpl in *; lia.
  - replace a with (a - node_off + node_off) by lia. apply HS. apply auth_map_lookup; [apply (ai_desc _ _ _ _ Hs)|].
    replace (a - node_off + node_off) with a by lia. split.
    + rewrite <-Hin, <-Hpl, inorder_plug. simpl. set_solver.
    + apply (cmp_eq (cmp:=name_cmp)).
      eapply (locate_hit (λ y, name_cmp (ukey (au_users s) y) name) [] t). by rewrite Hloc.
Qed.

Lemma wp_auth_get name :
  wp (hev_socks5_authenticator_get name (Z.of_nat (length name))) s
    (λ r s', s' = s ∧ r = default 0 (M !! name)).
Proof.
  apply wp_bind, wp_gets, wp_bind, wp_gets, wp_bind. apply wp_auth_search.
  - intros ->. by apply wp_ret.
  - intros a Ha. rewrite Ha. apply wp_ret. split; [done|]. simpl.
    apply auth_map_lookup in Ha as [Ha _]; [|apply (ai_desc _ _ _ _ Hs)].
    pose proof (rb_done_ptr _ _ _ _ (ai_tree _ _ _ _ Hs) Ha) as Hp.
    apply is_ptr_nonzero, Z.eqb_neq in Hp as ->. lia.
Qed.

(** Adding a user that is in memory and not in the tree. *)
Lemma wp_auth_add user u n F' (i : nat) :
  U !! i = Some (user, u) → F ≡ₚ (user + node_off, n) :: F' →
  wp (hev_socks5_authenticator_add user) s (λ r s',
    (M !! u_name u ≠ None ∧ r = -1 ∧ s' = s) ∨
    (M !! u_name u = None ∧ r = 0 ∧ ∃ ys', auth_is s' ys' F' U ∧ au_users s' = au_users s ∧
      auth_map (au_users s') ys' = <[u_name u := user]> M)).
Proof.
  intros Hu HF. pose proof (ai_tree _ _ _ _ Hs) as (t & Ht & Hrb & Hin).
  assert (user_ok u) as Hok by exact (Forall_lookup_1 _ _ _ _ (ai_ok _ _ _ _ Hs) Hu).
  apply wp_bind. eapply wp_user_load; [apply (ai_users _ _ _ _ Hs)|exact Hu|].
  apply wp_bind, wp_gets. destruct (auth_is_fuel _ _ _ _ Hs) as [Hlen ->].
  pose proof (auth_tree_height t Hin) as Hh. apply wp_bind.
  eapply wp_mono; [eapply (wp_auth_add_loop _ _ _ _ _ [] t u Hs Hok); [exact Ht|simpl; by rewrite Hin|lia]|].
  intros r s' [-> ->]. pose proof (locate_plug (λ y, name_cmp (ukey (au_users s) y) (u_name u)) [] t) as Hpl.
  destruct (locate _ [] t) as [k [|c l a rr]] eqn:Hloc; simpl in Hpl; subst t.
  - destruct (descending_locate name_cmp _ _ _ _ ltac:(rewrite Hin; apply (ai_desc _ _ _ _ Hs)) Hloc) as [Hkl Hkr].
    rewrite inorder_plug in Hin. simpl in Hin.
    assert (ukey (au_users s) (user + node_off) = u_name u) as Hk.
    { unfold ukey. replace (user + node_off - node_off) with user by lia.
      by rewrite (heap_lookup _ _ _ _ _ (ai_users _ _ _ _ Hs) Hu). }
    apply (rbrep_plug _ k) in Ht. assert (rbrep (au_tree s) k E ((user + node_off, n) :: F')) as Ht'.
    { eapply rs_perm; [exact Ht|]. by rewrite HF. }
    pose proof (ctx_length k) as Hck. rewrite <-length_app, Hin in Hck.
    apply wp_bind, wp_zoom.
    eapply wp_mono; [exact (wp_bind_inv _ _ _ _ (wp_rb_insert (S (length U)) _ k _ n F' Ht' Hrb ltac:(lia)))|].
    intros [] t1 Hins. apply wp_bind, wp_zoom. simpl. eapply wp_mono; [exact Hins|].
    intros [] t2 Hdone. apply wp_ret. right.
    assert (descending name_cmp (ukey (au_users s)) (kleft k ++ (user + node_off) :: kright k)) as Hd.
    { apply (descending_insert name_cmp); [rewrite Hin; apply (ai_desc _ _ _ _ Hs)|by rewrite Hk..]. }
    split_and!; [|done|].
    + apply auth_map_None. rewrite <-Hin. intros y Hy He.
      assert (name_cmp (ukey (au_users s) y) (u_name u) = 0) by by apply cmp_eq.
      apply elem_of_app in Hy as [Hy|Hy]; [eapply Forall_forall in Hkl|eapply Forall_forall in Hkr];
        try done; simpl in *; lia.
    + exists (kleft k ++ (user + node_off) :: kright k). split_and!; [|done|].
      * split; simpl; [done|apply (ai_users _ _ _ _ Hs)| |apply (ai_ok _ _ _ _ Hs)|done].
        rewrite <-(ai_cells _ _ _ _ Hs), <-Hin, HF. simpl. solve_Permutation.
      * simpl. rewrite auth_map_insert, Hk, Hin by done. f_equal. lia.
  - apply wp_ret. left. split_and!; [|done|done]. rewrite auth_map_None. intros Hn.
    apply (Hn a); [rewrite <-Hin, inorder_plug; simpl; set_solver|].
    apply (cmp_eq (cmp:=name_cmp)).
    eapply (locate_hit (λ y, name_cmp (ukey (au_users s) y) (u_name u)) [] (plug k (T c l a rr))). by rewrite Hloc.
Qed.
End ops.

(** Dropping a reference to a user that is not in the tree: its memory goes with
    the last reference, the map stays. *)
Definition unref_users (a : Z) (u : HevSocks5User) (m : gmap Z HevSocks5User) : gmap Z HevSocks5User :=
  if 1 <? u_ref u then
    <[a := mk_user (u_ref u - 1) (u_name u) (u_pass u) (u_name_len u) (u_pass_len u)]> m
  else delete a m.

Lemma ukey_other (m : gmap Z HevSocks5User) a u y : y ≠ a + node_off → ukey (<[a := u]> m) y = ukey m y.
Proof. intros Hne. unfold ukey. rewrite lookup_insert_ne; [done|]. lia. Qed.
Lemma ukey_delete (m : gmap Z HevSocks5User) a y : y ≠ a + node_off → ukey (delete a m) y = ukey m y.
Proof. intros Hne. unfold ukey. rewrite lookup_delete_ne; [done|]. lia. Qed.

Lemma wp_user_unref s ys y n F U u :
  auth_is s ys ((y, n) :: F) U → au_users s !! (y - node_off) = Some u →
  wp (user_unref (y - node_off)) s (λ _ s', ∃ F' U', auth_is s' ys F' U' ∧
    au_users s' = unref_users (y - node_off) u (au_users s) ∧
    auth_map (au_users s') ys = auth_map (au_users s) ys ∧ (length U' ≤ length U)%nat).
Proof.
  intros H Hu. destruct (auth_is_user _ _ _ _ y H) as (i & u' & Hi & Hu' & Hok & Hk); [set_solver|].
  assert (u' = u) as -> by congruence.
  pose proof (rb_done_NoDup _ _ _ (ai_tree _ _ _ _ H)) as Hnd. simpl in Hnd.
  assert (∀ z, z ∈ ys → z ≠ y) as Hne.
  { intros z Hz ->. apply NoDup_app in Hnd as (_ & Hd & _). eapply Hd; [done|set_solver]. }
  assert (y = y - node_off + node_off) as Hy by lia.
  unfold user_unref, unref_users. apply wp_bind. eapply wp_user_load; [apply (ai_users _ _ _ _ H)|exact Hi|].
  destruct (1 <? u_ref u).
  - set (u1 := mk_user _ _ _ _ _).
    assert (∀ z, z ∈ ys → ukey (<[y - node_off := u1]> (au_users s)) z = ukey (au_users s) z) as Hke.
    { intros z Hz. apply ukey_other. rewrite <-Hy. by apply Hne. }
    apply wp_modify. exists ((y, n) :: F), (<[i := (y - node_off, u1)]> U).
    split_and!; simpl; [|done|by apply auth_map_ext|by rewrite length_insert].
    destruct H as [Ht Hus Hc Ho Hd]. split; simpl; [done|by eapply heap_store| | |].
    + rewrite list_fmap_insert. change (ucell (y - node_off, u1)) with (ucell (y - node_off, u)).
      rewrite <-list_fmap_insert, list_insert_id by done. exact Hc.
    + apply Forall_insert; [done|exact Hok].
    + eapply (descending_ext name_cmp); [|exact Hd]. intros z Hz. by rewrite Hke.
  - assert (∀ z, z ∈ ys → ukey (delete (y - node_off) (au_users s)) z = ukey (au_users s) z) as Hke.
    { intros z Hz. apply ukey_delete. rewrite <-Hy. by apply Hne. }
    apply wp_bind. eapply wp_user_load; [apply (ai_users _ _ _ _ H)|exact Hi|].
    apply wp_modify. exists F, (delete i U).
    pose proof (delete_Permutation _ _ _ Hi) as HU.
    split_and!; simpl; [|done|by apply auth_map_ext|apply Permutation_length in HU; simpl in HU; lia].
    destruct H as [Ht Hus Hc Ho Hd]. rewrite HU in Hus, Hc, Ho.
    split; simpl.
    + rewrite <-Hy. by eapply rb_done_free.
    + by eapply heap_free.
    + unfold ucell in Hc at 1. simpl in Hc. rewrite <-Hy in Hc.
      apply (Permutation_cons_inv (a:=y)). rewrite <-Hc. solve_Permutation.
    + by apply Forall_cons in Ho as [_ Ho].
    + eapply (descending_ext name_cmp); [|exact Hd]. intros z Hz. by rewrite Hke.
Qed.

(** Erasing a tree node and dropping the reference of the tree. *)
Lemma wp_auth_remove s xs1 y xs2 F U fuel :
  auth_is s (xs1 ++ y :: xs2) F U → (length U < fuel)%nat →
  wp (au_in_tree (hev_rbtree_erase fuel y);; user_unref (y - node_off)) s (λ _ s', ∃ F' U' u,
    auth_is s' (xs1 ++ xs2) F' U' ∧ au_users s !! (y - node_off) = Some u ∧
    au_users s' = unref_users (y - node_off) u (au_users s) ∧
    auth_map (au_users s') (xs1 ++ xs2) =
      delete (ukey (au_users s) y) (auth_map (au_users s) (xs1 ++ y :: xs2)) ∧
    (length U' ≤ length U)%nat).
Proof.
  intros H Hf. destruct (auth_is_fuel _ _ _ _ H) as [Hlen _].
  destruct (auth_is_user _ _ _ _ y H) as (i & u & Hi & Hu & Hok & Hk); [set_solver|].
  pose proof (ai_desc _ _ _ _ H) as Hd.
  apply wp_bind, wp_zoom. eapply wp_mono; [eapply wp_rb_erase; [apply (ai_tree _ _ _ _ H)|lia]|].
  intros [] t1 [n0 Ht1]. eapply wp_mono; [eapply (wp_user_unref _ (xs1 ++ xs2) y n0 F U u); [|done]|].
  - destruct H as [_ Hus Hc Ho _]. split; simpl; [done|done| |done|by eapply (descending_delete name_cmp)].
    rewrite <-Hc. solve_Permutation.
  - intros [] s' (F' & U' & H' & Hus & Hmap & Hl). exists F', U', u. split_and!; try done.
    rewrite Hmap. simpl. by rewrite (auth_map_delete _ xs1 y xs2).
Qed.

Lemma wp_auth_del s ys F U name :
  auth_is s ys F U →
  wp (hev_socks5_authenticator_del name (Z.of_nat (length name))) s (λ r s',
    match auth_map (au_users s) ys !! name with
    | None => r = -1 ∧ s' = s
    | Some a => r = 0 ∧ ∃ ys' F' U' u, auth_is s' ys' F' U' ∧ au_users s !! a = Some u ∧
        au_users s' = unref_users a u (au_users s) ∧
        auth_map (au_users s') ys' = delete name (auth_map (au_users s) ys)
    end).
Proof.
  intros H. unfold hev_socks5_authenticator_del. apply wp_bind, wp_gets, wp_bind, wp_gets, wp_bind.
  eapply wp_auth_search; [exact H|intros ->; by apply wp_ret|].
  intros a Ha. rewrite Ha. apply auth_map_lookup in Ha as [Hin Hk]; [|apply (ai_desc _ _ _ _ H)].
  pose proof (rb_done_ptr _ _ _ _ (ai_tree _ _ _ _ H) Hin) as Hp.
  apply is_ptr_nonzero, Z.eqb_neq in Hp as ->.
  apply list_elem_of_split in Hin as (xs1 & xs2 & ->).
  pose proof (wp_auth_remove _ _ _ _ _ _ (au_fuel s) H) as Hw.
  destruct (auth_is_fuel _ _ _ _ H) as [_ Hfuel]. rewrite Hfuel in *.
  apply wp_bind. eapply wp_mono; [exact (wp_bind_inv _ _ _ _ (Hw ltac:(lia)))|].
  intros [] s1 Hw1. apply wp_bind. eapply wp_mono; [exact Hw1|].
  intros [] s' (F' & U' & u & H' & Hu & Hus & Hm & _). apply wp_ret. split; [done|].
  replace (a + node_off - node_off) with a in * by lia.
  exists (xs1 ++ xs2), F', U', u. split_and!; try done. by rewrite Hm, Hk.
Qed.

Lemma wp_auth_clear_loop fuel s ys F U :
  auth_is s ys F U → (length ys < fuel)%nat →
  wp (auth_clear_loop fuel) s (λ _ s', ∃ F' U', auth_is s' [] F' U').
Proof.
  revert s ys F U. induction fuel as [|fuel IH]; intros s ys F U H Hf; [lia|].
  cbn [auth_clear_loop]. apply wp_bind, wp_gets. destruct (auth_is_fuel _ _ _ _ H) as [Hlen ->].
  apply wp_bind, wp_zoom. eapply wp_mono; [eapply wp_rb_first; [apply (ai_tree _ _ _ _ H)|lia]|].
  intros x t [-> ->]. replace (set_au_tree (au_tree s) s) with s by by destruct s.
  destruct ys as [|y ys]; simpl; [apply wp_ret; by exists F, U|].
  pose proof (rb_done_ptr _ _ _ y (ai_tree _ _ _ _ H) ltac:(set_solver)) as Hp.
  apply is_ptr_nonzero, Z.eqb_neq in Hp as ->.
  pose proof (wp_auth_remove s [] y ys F U (S (length U)) H ltac:(lia)) as Hw.
  apply wp_bind. eapply wp_mono; [exact (wp_bind_inv _ _ _ _ Hw)|].
  intros [] s1 Hw1. apply wp_bind. eapply wp_mono; [exact Hw1|].
  intros [] s' (F' & U' & u & H' & _). simpl in *. eapply IH; [exact H'|lia].
Qed.

Lemma wp_auth_clear s ys F U :
  auth_is s ys F U → wp hev_socks5_authenticator_clear s (λ _ s', ∃ F' U', auth_is s' [] F' U').
Proof.
  intros H. apply wp_bind, wp_gets. eapply wp_auth_clear_loop; [exact H|].
  destruct (auth_is_fuel _ _ _ _ H). lia.
Qed.
