(* ===== verification/AuthenticatorProps.v ===== *)
(** * Users and the authenticator: the theorems *)

From S2P Require Import Prelude RBTree RBTreeRep RBTreeInsert RBTreeErase RBTreeIter RBTreeProps RBTreeSearch CString MappedDNSCache Authenticator AuthenticatorMap.

(** A user in memory that the map does not mention is outside the tree. *)
Lemma auth_is_outside s ys F U user u :
  auth_is s ys F U → au_users s !! user = Some u →
  (∀ name, auth_map (au_users s) ys !! name ≠ Some user) →
  ∃ (i : nat) n F', U !! i = Some (user, u) ∧ F ≡ₚ (user + node_off, n) :: F'.
Proof.
  intros H Hu Hout. pose proof (ai_users _ _ _ _ H) as (Hnd & _ & Hm).
  rewrite Hm in Hu. apply elem_of_list_to_map_2 in Hu as Hin. pose proof Hin as [i Hi]%list_elem_of_lookup.
  assert (user + node_off ∈ ys ++ F.*1) as [Hy|Hy]%elem_of_app.
  { rewrite (ai_cells _ _ _ _ H). apply list_elem_of_fmap. by exists (user, u). }
  - exfalso. apply (Hout (ukey (au_users s) (user + node_off))).
    apply auth_map_lookup; [apply (ai_desc _ _ _ _ H)|done].
  - apply list_elem_of_fmap in Hy as ([y n] & Hy & (F1 & F2 & ->)%list_elem_of_split). simpl in Hy. subst y.
    exists i, n, (F1 ++ F2). split; [done|]. solve_Permutation.
Qed.

Definition ex_user : HevSocks5User := mk_user 1 [97; 98] [112] 2 1.
Definition ex_auth : HevSocks5Authenticator :=
  mk_auth (mk_rbtree 0 {[80 := mk_rbnode 0 0 0]}) {[64 := ex_user]}.

Lemma ex_auth_rep : auth_rep ex_auth ∅.
Proof.
  exists [], [(80, mk_rbnode 0 0 0)], [(64, ex_user)]. split; [|done]. split; simpl.
  - apply rb_done_empty. split_and!; [apply (bool_decide_unpack _); by vm_compute..|done].
  - split_and!; [apply (bool_decide_unpack _); by vm_compute..|done].
  - done.
  - repeat constructor.
  - constructor.
Qed.

(** C28: the authenticator is a finite map.  On an authenticator that stands for
    the map [M] from names to users, every operation is defined: [get] gives the
    user of a name, or NULL, and changes nothing; [add] of a user outside the
    map fails with -1 and changes nothing when the name is taken, and otherwise
    adds it; [del] fails with -1 for an unknown name, and otherwise removes the
    name and drops one reference of its user, releasing it with the last one;
    [clear] empties the map. *)
Theorem authenticator_refines s M :
  auth_rep s M →
  (∀ name, hev_socks5_authenticator_get name (Z.of_nat (length name)) s
     = Some (default 0 (M !! name), s)) ∧
  (∀ user u, au_users s !! user = Some u → (∀ name, M !! name ≠ Some user) →
     ∃ r s', hev_socks5_authenticator_add user s = Some (r, s') ∧
       ((M !! u_name u ≠ None ∧ r = -1 ∧ s' = s) ∨
        (M !! u_name u = None ∧ r = 0 ∧ auth_rep s' (<[u_name u := user]> M)))) ∧
  (∀ name, ∃ r s', hev_socks5_authenticator_del name (Z.of_nat (length name)) s = Some (r, s') ∧
     match M !! name with
     | None => r = -1 ∧ s' = s
     | Some a => r = 0 ∧ auth_rep s' (delete name M) ∧
         ∃ u, au_users s !! a = Some u ∧ au_users s' = unref_users a u (au_users s)
     end) ∧
  (∃ s', hev_socks5_authenticator_clear s = Some (tt, s') ∧ auth_rep s' ∅).
Proof.
  intros (ys & F & U & H & ->). split_and!.
  - intros name. by destruct (wp_run _ _ _ (wp_auth_get _ _ _ _ H name)) as (r & s' & ? & -> & ->).
  - intros user u Hu Hout. destruct (auth_is_outside _ _ _ _ _ _ H Hu Hout) as (i & n & F' & Hi & HF).
    destruct (wp_run _ _ _ (wp_auth_add _ _ _ _ H user u n F' i Hi HF)) as (r & s' & Hrun & Hpost).
    exists r, s'. split; [done|]. destruct Hpost as [?|(? & ? & ys' & H' & _ & Hm)]; [by left|right].
    split_and!; [done|done|]. by exists ys', F', U.
  - intros name. destruct (wp_run _ _ _ (wp_auth_del _ _ _ _ name H)) as (r & s' & Hrun & Hpost).
    exists r, s'. split; [done|]. case_match; [|done].
    destruct Hpost as (-> & ys' & F' & U' & u & H' & Hu & Hus & Hm).
    split_and!; [done|by exists ys', F', U'|by exists u].
  - destruct (wp_run _ _ _ (wp_auth_clear _ _ _ _ H)) as ([] & s' & Hrun & F' & U' & H').
    exists s'. split; [done|]. by exists [], F', U'.
Qed.

Lemma authenticator_refines_witness :
  hev_socks5_authenticator_get [97; 98] 2 ex_auth = Some (0, ex_auth) ∧
  ∃ r s', hev_socks5_authenticator_add 64 ex_auth = Some (r, s') ∧
    ((None ≠ @None Z ∧ r = -1 ∧ s' = ex_auth) ∨
     (@None Z = None ∧ r = 0 ∧ auth_rep s' {[[97; 98] := 64]})).
Proof.
  destruct (authenticator_refines ex_auth ∅ ex_auth_rep) as (Hget & Hadd & _ & _).
  split; [exact (Hget [97; 98])|]. apply (Hadd 64 ex_user); done.
Defined.

(** Users.  [hev_socks5_user_new] of a name and a password at a block the
    allocator gives is defined and adds a user with one reference that is not in
    the map, which stays; the checker accepts exactly the password the user was
    made with. *)
Theorem user_new_check s M a name pass :
  auth_rep s M → is_ptr a → is_ptr (a + node_off) → au_users s !! a = None →
  ∃ s' u, hev_socks5_user_new (Some a) true true name (Z.of_nat (length name))
      pass (Z.of_nat (length pass)) s = Some (a, s') ∧
    auth_rep s' M ∧ au_users s' !! a = Some u ∧ (∀ n, M !! n ≠ Some a) ∧
    u_name u = name ∧ u_ref u = 1 ∧
    ∀ p, hev_socks5_user_check u p (Z.of_nat (length p)) = 0 ↔ p = pass.
Proof.
  intros (ys & F & U & H & ->) Ha Ha' Hn.
  set (u := mk_user 1 name pass (Z.of_nat (length name)) (Z.of_nat (length pass))).
  assert (a + node_off ∉ ys ++ F.*1) as Hfresh.
  { rewrite (ai_cells _ _ _ _ H). intros ([b v] & Hb & Hin)%list_elem_of_fmap. unfold ucell in Hb. simpl in Hb.
    replace b with a in Hin by lia. destruct (ai_users _ _ _ _ H) as (Hnd & _ & Hm).
    rewrite Hm in Hn. apply not_elem_of_list_to_map in Hn. apply Hn, list_elem_of_fmap. by exists (a, v). }
  assert (∀ y, y ∈ ys → ukey (<[a := u]> (au_users s)) y = ukey (au_users s) y) as Hk.
  { intros y Hy. apply ukey_other. intros ->. apply Hfresh. set_solver. }
  destruct H as [Ht Hus Hc Ho Hd]. eexists _, u. split_and!.
  - unfold hev_socks5_user_new, mbind, stm_bind, modify. simpl.
    unfold hev_socks5_user_construct, dup_bytes. rewrite !Z.ltb_irrefl, !andb_false_r, !Nat2Z.id, !firstn_all.
    reflexivity.
  - exists ys, ((a + node_off, mk_rbnode 0 0 0) :: F), ((a, u) :: U). simpl. split; [|symmetry; by apply auth_map_ext].
    split; simpl.
    + apply rb_done_alloc; [done|done|].
      destruct (rb_done_fst _ _ _ Ht) as (L & (_ & _ & ->) & HL).
      apply not_elem_of_list_to_map. by rewrite fmap_app, HL.
    + by apply heap_alloc.
    + rewrite <-Hc. unfold ucell. simpl. solve_Permutation.
    + constructor; [done|exact Ho].
    + eapply (descending_ext name_cmp); [|exact Hd]. intros y Hy. by rewrite Hk.
  - simpl. apply lookup_insert_eq.
  - intros n Hl. apply auth_map_lookup in Hl as [Hl _]; [|exact Hd]. apply Hfresh. set_solver.
  - done.
  - done.
  - intros p. unfold hev_socks5_user_check, hev_socks5_user_checker. simpl.
    destruct (Z.eqb_spec (Z.of_nat (length pass)) (Z.of_nat (length p))) as [Hl|Hl]; simpl.
    + rewrite Nat2Z.id. replace (length p) with (length pass) by lia.
      destruct (Z.eqb_spec (memcmp pass p (length pass)) 0) as [He|He]; simpl;
        rewrite memcmp_eq in He by lia; split; congruence.
    + split; [done|]. intros ->. done.
Qed.

Lemma user_new_check_witness :
  ∃ s' u, hev_socks5_user_new (Some 128) true true [99] 1 [120; 121] 2 ex_auth = Some (128, s') ∧
    auth_rep s' ∅ ∧ au_users s' !! 128 = Some u ∧ (∀ n : list Z, (∅ : gmap (list Z) Z) !! n ≠ Some 128) ∧
    u_name u = [99] ∧ u_ref u = 1 ∧
    ∀ p, hev_socks5_user_check u p (Z.of_nat (length p)) = 0 ↔ p = [120; 121].
Proof.
  apply (user_new_check ex_auth ∅ 128 [99] [120; 121] ex_auth_rep);
    [apply (bool_decide_unpack _); by vm_compute..|reflexivity].
Defined.
