(* ===== verification/SocksAddr.v ===== *)
(** * SOCKS5 addresses (src/core/src/hev-socks5-misc.c, hev-socks5-proto.h,
      src/misc/hev-utils.c)

    [HevSocks5Addr] is a packed union; it is modelled by its bytes: the type at
    offset 0, an IPv4 or IPv6 address at offset 1 followed by the port, or a
    length at offset 1 followed by that many bytes of a name and the port.  Ports
    are 16-bit values of a little-endian host; [inet_pton] and the name service
    are parameters. *)

From S2P Require Import Prelude CString MappedDNSPacket MappedDNSAnswer.

Definition HEV_SOCKS5_ADDR_TYPE_IPV4 : Z := 1.
Definition HEV_SOCKS5_ADDR_TYPE_NAME : Z := 3.
Definition HEV_SOCKS5_ADDR_TYPE_IPV6 : Z := 4.

(** [AF_UNSPEC], [AF_INET] and [AF_INET6] of Linux. *)
Inductive HevSocks5AddrFamily :=
  | HEV_SOCKS5_ADDR_FAMILY_UNSPEC
  | HEV_SOCKS5_ADDR_FAMILY_IPV4
  | HEV_SOCKS5_ADDR_FAMILY_IPV6.

(** The bytes of [HevSocks5Addr], at most [sizeof (HevSocks5Addr)] of them. *)
Definition HevSocks5Addr : Type := list Z.
Definition sizeof_addr : nat := 260.

(** [struct sockaddr_in6], without the fields the code does not use; the port
    is the 16-bit value in memory, that is in network order. *)
Record sockaddr_in6 := mk_sin6 { sin6_port : Z; sin6_addr : list Z }.

(** [memcpy (dst + i, bytes)] *)
Definition put (b : list Z) (i : nat) (bs : list Z) : list Z := take i b ++ bs ++ drop (i + length bs) b.

Definition hev_socks5_addr_len (addr : HevSocks5Addr) : option Z :=
  atype ← addr !! 0%nat;
  if atype =? HEV_SOCKS5_ADDR_TYPE_IPV4 then Some 7
  else if atype =? HEV_SOCKS5_ADDR_TYPE_IPV6 then Some 19
  else if atype =? HEV_SOCKS5_ADDR_TYPE_NAME then len ← addr !! 1%nat; Some (4 + len)
  else Some (-1).

(** [strncpy (dst, name, n)]: the name, cut or padded with NULs to [n] bytes. *)
Definition strncpy (name : list Z) (n : nat) : list Z :=
  take n name ++ replicate (n - length name) 0.

(** On the memory [addr] of a [HevSocks5Addr]; [None] when [strlen] runs out of
    the object. *)
Definition hev_socks5_addr_from_name (addr : HevSocks5Addr) (name : list Z) (_port : Z) :
    option (Z * HevSocks5Addr) :=
  let port := u16 _port in
  let addr := put addr 0 [HEV_SOCKS5_ADDR_TYPE_NAME] in
  let addr := put addr 2 (strncpy name 256) in
  s ← cstr (drop 2 addr);
  let len := u8 (Z.of_nat (length s)) in
  let addr := put addr 1 [len] in
  let addr := put addr (2 + Z.to_nat len) (u8 <$> le16_bytes port) in
  Some (4 + len, addr).

Definition hev_socks5_addr_from_ipv4 (addr : HevSocks5Addr) (ipv4 : list Z) (port : Z) : Z * HevSocks5Addr :=
  let addr := put addr 0 [HEV_SOCKS5_ADDR_TYPE_IPV4] in
  let addr := put addr 1 (take 4 ipv4) in
  let addr := put addr 5 (u8 <$> le16_bytes (u16 port)) in
  (7, addr).

Definition hev_socks5_addr_from_ipv6 (addr : HevSocks5Addr) (ipv6 : list Z) (port : Z) : Z * HevSocks5Addr :=
  let addr := put addr 0 [HEV_SOCKS5_ADDR_TYPE_IPV6] in
  let addr := put addr 1 (take 16 ipv6) in
  let addr := put addr 17 (u8 <$> le16_bytes (u16 port)) in
  (19, addr).

(** [IN6_IS_ADDR_V4MAPPED] *)
Definition v4_prefix : list Z := replicate 10 0 ++ [255; 255].
Definition IN6_IS_ADDR_V4MAPPED (a : list Z) : bool := bool_decide (take 12 a = v4_prefix).

Definition hev_socks5_addr_from_sockaddr6 (addr : HevSocks5Addr) (saddr : sockaddr_in6) : Z * HevSocks5Addr :=
  if IN6_IS_ADDR_V4MAPPED (sin6_addr saddr) then
    let addr := put addr 0 [HEV_SOCKS5_ADDR_TYPE_IPV4] in
    let addr := put addr 5 (u8 <$> le16_bytes (sin6_port saddr)) in
    let addr := put addr 1 (take 4 (drop 12 (sin6_addr saddr))) in
    (7, addr)
  else
    let addr := put addr 0 [HEV_SOCKS5_ADDR_TYPE_IPV6] in
    let addr := put addr 17 (u8 <$> le16_bytes (sin6_port saddr)) in
    let addr := put addr 1 (take 16 (sin6_addr saddr)) in
    (19, addr).

(** A 16-bit load. *)
Definition get16 (b : list Z) (i : nat) : option Z :=
  b0 ← b !! i; b1 ← b !! S i; Some (le16 b0 b1).

(** [n] bytes at offset [i]. *)
Definition get_bytes (b : list Z) (i n : nat) : option (list Z) :=
  if decide (i + n ≤ length b)%nat then Some (take n (drop i b)) else None.

Definition hev_socks5_ipv4_into_sockaddr6 (addr : HevSocks5Addr) : option sockaddr_in6 :=
  port ← get16 addr 5; a ← get_bytes addr 1 4;
  Some (mk_sin6 port (replicate 10 0 ++ [255; 255] ++ a)).

Definition hev_socks5_ipv6_into_sockaddr6 (addr : HevSocks5Addr) : option sockaddr_in6 :=
  port ← get16 addr 17; a ← get_bytes addr 1 16; Some (mk_sin6 port a).

Section resolver.
Context (inet_pton4 inet_pton6 : list Z → option (list Z))
  (getaddrinfo : list Z → HevSocks5AddrFamily → option (HevSocks5AddrFamily * list Z)).

(** [None]: -1. *)
Definition hev_socks5_name_resolve_ipv4 (name : list Z) : option (list Z) :=
  a ← inet_pton4 name; Some (replicate 10 0 ++ [255; 255] ++ a).

Definition hev_socks5_name_resolve_ipv6 (name : list Z) : option (list Z) := inet_pton6 name.

Definition hev_socks5_name_resolve_name (name : list Z) (family : HevSocks5AddrFamily) :
    option (list Z * HevSocks5AddrFamily) :=
  match getaddrinfo name family with
  | Some (HEV_SOCKS5_ADDR_FAMILY_IPV4, a) =>
      Some (replicate 10 0 ++ [255; 255] ++ take 4 a, HEV_SOCKS5_ADDR_FAMILY_IPV4)
  | Some (HEV_SOCKS5_ADDR_FAMILY_IPV6, a) => Some (take 16 a, HEV_SOCKS5_ADDR_FAMILY_IPV6)
  | _ => None
  end.

(** The result, the address and the family; [port] is in host order.  On
    failure the family is unchanged. *)
Definition hev_socks5_name_into_sockaddr6 (name : list Z) (port : Z) (family : HevSocks5AddrFamily) :
    option (sockaddr_in6 * HevSocks5AddrFamily) :=
  match hev_socks5_name_resolve_ipv4 name with
  | Some a => Some (mk_sin6 (htons port) a, HEV_SOCKS5_ADDR_FAMILY_IPV4)
  | None =>
      match hev_socks5_name_resolve_ipv6 name with
      | Some a => Some (mk_sin6 (htons port) a, HEV_SOCKS5_ADDR_FAMILY_IPV6)
      | None =>
          match hev_socks5_name_resolve_name name family with
          | Some (a, family) => Some (mk_sin6 (htons port) a, family)
          | None => None
          end
      end
  end.

(** The outer [None] is a read outside the object, the inner one the result -1. *)
Definition hev_socks5_addr_into_sockaddr6 (addr : HevSocks5Addr) (family : HevSocks5AddrFamily) :
    option (option (sockaddr_in6 * HevSocks5AddrFamily)) :=
  atype ← addr !! 0%nat;
  if atype =? HEV_SOCKS5_ADDR_TYPE_IPV4 then
    sa ← hev_socks5_ipv4_into_sockaddr6 addr; Some (Some (sa, HEV_SOCKS5_ADDR_FAMILY_IPV4))
  else if atype =? HEV_SOCKS5_ADDR_TYPE_IPV6 then
    sa ← hev_socks5_ipv6_into_sockaddr6 addr; Some (Some (sa, HEV_SOCKS5_ADDR_FAMILY_IPV6))
  else if atype =? HEV_SOCKS5_ADDR_TYPE_NAME then
    len ← addr !! 1%nat;
    name ← get_bytes addr 2 (Z.to_nat len);
    port ← get16 addr (2 + Z.to_nat len);
    name ← cstr (name ++ [0]);
    Some (hev_socks5_name_into_sockaddr6 name (ntohs port) family)
  else Some None.
End resolver.

(** ** Addresses of lwIP *)

(** [ip_addr_t]: the bytes in network order. *)
Inductive ip_addr := IPADDR_TYPE_V4 (a : list Z) | IPADDR_TYPE_V6 (a : list Z).

(** [hev_socks5_addr_from_lwip]; [name] is what [hev_mapped_dns_lookup] gives
    for an IPv4 address, [None] without a mapped DNS. *)
Definition hev_socks5_addr_from_lwip (addr : HevSocks5Addr) (ip : ip_addr) (port : Z) (name : option (list Z)) :
    option HevSocks5Addr :=
  match ip with
  | IPADDR_TYPE_V4 a =>
      match name with
      | Some name => '(_, addr) ← hev_socks5_addr_from_name addr name (htons port); Some addr
      | None => Some (hev_socks5_addr_from_ipv4 addr a (htons port)).2
      end
  | IPADDR_TYPE_V6 a => Some (hev_socks5_addr_from_ipv6 addr a (htons port)).2
  end.

Definition hev_socks5_addr_into_lwip (addr : HevSocks5Addr) : option (option (ip_addr * Z)) :=
  atype ← addr !! 0%nat;
  if atype =? HEV_SOCKS5_ADDR_TYPE_IPV4 then
    a ← get_bytes addr 1 4; p ← get16 addr 5; Some (Some (IPADDR_TYPE_V4 a, ntohs p))
  else if atype =? HEV_SOCKS5_ADDR_TYPE_IPV6 then
    a ← get_bytes addr 1 16; p ← get16 addr 17; Some (Some (IPADDR_TYPE_V6 a, ntohs p))
  else Some None.
