(* ===== verification/SocksAddrProps.v ===== *)
(** * SOCKS5 addresses: encodings and round trips *)

From S2P Require Import Prelude CString MappedDNSPacket MappedDNSSafe MappedDNSAnswer SocksAddr.

(** ** Ports *)

Definition be16 (p : Z) : list Z := [p / 256; p mod 256].

Lemma le16_add b0 b1 : is_u8 b0 → le16 b0 b1 = b0 + 256 * b1.
Proof.
  unfold is_u8, le16. intros Hb. rewrite Z.shiftl_mul_pow2 by lia.
  enough (Z.land b0 (b1 * 2 ^ 8) = 0) as H by (pose proof (Z.add_lor_land b0 (b1 * 2 ^ 8)); lia).
  apply Z.bits_inj'. intros n Hn. rewrite Z.land_spec, Z.bits_0. destruct (decide (n < 8)).
  - by rewrite Z.mul_pow2_bits_low, andb_false_r by lia.
  - rewrite <-(Z.mod_small b0 (2 ^ 8)) by lia. by rewrite Z.mod_pow2_bits_high by lia.
Qed.

Lemma is_u8_div p : is_u16 p → is_u8 (p / 256) ∧ is_u8 (p mod 256).
Proof.
  unfold is_u16, is_u8. intros Hp. split.
  - split; [by apply Z.div_pos; lia|apply Z.div_lt_upper_bound; lia].
  - apply Z.mod_pos_bound. lia.
Qed.

(** Two bytes in the other order. *)
Lemma htons_swap p : is_u16 p → htons p = p / 256 + 256 * (p mod 256).
Proof.
  intros Hp. pose proof (is_u8_div p Hp) as [Hh Hl]. unfold htons, ntohs.
  rewrite Z.lor_comm, Z.shiftr_div_pow2 by lia. change (Z.lor _ _) with (le16 (p / 2 ^ 8) p).
  change (2 ^ 8) with 256. rewrite le16_add by done. unfold u16, is_u8 in *.
  rewrite (Z.div_mod p 256) at 2 by lia.
  replace (_ + 256 * _) with (p / 256 + 256 * (p mod 256) + (p / 256) * 2 ^ 16) by lia.
  rewrite Z.mod_add, Z.mod_small by lia. lia.
Qed.

Lemma port_facts p : is_u16 p →
  u8 <$> le16_bytes (htons p) = be16 p ∧ ntohs (htons p) = p ∧
  le16 (p / 256) (p mod 256) = htons p ∧ u16 (htons p) = htons p ∧
  le16 (u8 p) (u8 (Z.shiftr p 8)) = p.
Proof.
  intros Hp. pose proof (is_u8_div p Hp) as [Hh Hl]. pose proof (htons_swap p Hp) as Hs.
  assert (is_u16 (htons p)) as Hn by (unfold is_u16, is_u8 in *; lia).
  assert (htons p / 256 = p mod 256) as Hq
    by (rewrite Hs, (Z.mul_comm 256), Z.div_add, Z.div_small by (unfold is_u8 in *; lia); lia).
  assert (htons p mod 256 = p / 256) as Hr
    by (rewrite Hs, (Z.mul_comm 256), Z.mod_add, Z.mod_small by (unfold is_u8 in *; lia); lia).
  pose proof (Z.div_mod p 256 ltac:(lia)). split_and!.
  - unfold be16, le16_bytes. simpl. rewrite Z.shiftr_div_pow2 by lia. unfold u8. change (2 ^ 8) with 256.
    rewrite Hr, Hq. rewrite (Z.mod_small (p mod 256)) by (unfold is_u8 in *; lia). done.
  - change (ntohs (htons p)) with (htons (htons p)). rewrite (htons_swap _ Hn), Hq, Hr. lia.
  - rewrite le16_add by done. lia.
  - apply Z.mod_small. unfold is_u16 in Hn. lia.
  - rewrite Z.shiftr_div_pow2 by lia. unfold u8. change (2 ^ 8) with 256.
    rewrite (Z.mod_small (p / 256)) by (unfold is_u8 in *; lia). rewrite le16_add by done. lia.
Qed.

(** ** Destinations and their encodings *)

Inductive dest :=
  | D4 (a : list Z) (port : Z)
  | D6 (a : list Z) (port : Z)
  | DName (name : list Z) (port : Z).

Definition dest_port (d : dest) : Z := match d with D4 _ p | D6 _ p | DName _ p => p end.

(** The bytes of RFC 1928. *)
Definition enc_dest (d : dest) : list Z :=
  match d with
  | D4 a p => 1 :: a ++ be16 p
  | D6 a p => 4 :: a ++ be16 p
  | DName n p => 3 :: Z.of_nat (length n) :: n ++ be16 p
  end.

Definition dest_ok (d : dest) : Prop :=
  is_u16 (dest_port d) ∧
  match d with
  | D4 a _ => length a = 4%nat ∧ is_bytes a
  | D6 a _ => length a = 16%nat ∧ is_bytes a
  | DName n _ => (0 < length n ≤ 255)%nat ∧ Forall (λ b, b ≠ 0 ∧ is_u8 b) n
  end.

Lemma be16_bytes p : is_u16 p → is_bytes (be16 p).
Proof. intros [H1 H2]%is_u8_div. exact (Forall_cons_2 _ _ _ H1 (Forall_cons_2 _ _ _ H2 (Forall_nil_2 _))). Qed.

Lemma enc_dest_bytes d : dest_ok d → is_bytes (enc_dest d).
Proof.
  intros [Hp Hd]. apply be16_bytes in Hp. unfold is_bytes in *. destruct d as [a p|a p|n p]; simpl in *.
  - rewrite Forall_cons, Forall_app. by destruct Hd.
  - rewrite Forall_cons, Forall_app. by destruct Hd.
  - rewrite !Forall_cons, Forall_app. destruct Hd as [Hl Hn]. split_and!; [done|unfold is_u8; lia| |done].
    eapply Forall_impl; [exact Hn|]. naive_solver.
Qed.

Lemma length_enc_dest d : dest_ok d →
  Z.of_nat (length (enc_dest d)) = match d with D4 _ _ => 7 | D6 _ _ => 19 | DName n _ => 4 + Z.of_nat (length n) end.
Proof. intros [_ Hd]. destruct d; simpl in *; rewrite length_app; simpl; lia. Qed.

(** ** Writing addresses *)

Lemma put_app pre old post i bs :
  i = length pre → length old = length bs → put (pre ++ old ++ post) i bs = pre ++ bs ++ post.
Proof.
  intros -> Hl. unfold put. rewrite take_app_length. do 2 f_equal.
  rewrite app_assoc, drop_app_length'; [done|]. rewrite length_app. lia.
Qed.

Lemma length_put b i bs : (i + length bs ≤ length b)%nat → length (put b i bs) = length b.
Proof. intros H. unfold put. rewrite !length_app, length_take, length_drop. lia. Qed.

(** Splitting the memory of an address. *)
Lemma mem_split (m : list Z) (n : nat) : (n ≤ length m)%nat → ∃ a b, m = a ++ b ∧ length a = n.
Proof. intros H. exists (take n m), (drop n m). rewrite take_drop, length_take. split; [done|lia]. Qed.

Lemma from_ipv4_spec m a p :
  (7 ≤ length m)%nat → dest_ok (D4 a p) →
  ∃ post, hev_socks5_addr_from_ipv4 m a (htons p) = (7, enc_dest (D4 a p) ++ post) ∧ post = drop 7 m.
Proof.
  intros Hm (Hp & Ha & Hb). destruct (port_facts p Hp) as (Hbe & _ & _ & Hu & _).
  do 7 (destruct m as [|? m]; [simpl in Hm; lia|]). do 4 (destruct a as [|? a]; [done|]). destruct a; [|done].
  eexists. split; [|reflexivity]. unfold hev_socks5_addr_from_ipv4. rewrite Hu, Hbe. reflexivity.
Qed.

Lemma from_ipv6_spec m a p :
  (19 ≤ length m)%nat → dest_ok (D6 a p) →
  hev_socks5_addr_from_ipv6 m a (htons p) = (19, enc_dest (D6 a p) ++ drop 19 m).
Proof.
  intros Hm (Hp & Ha & Hb). destruct (port_facts p Hp) as (Hbe & _ & _ & Hu & _).
  do 19 (destruct m as [|? m]; [simpl in Hm; lia|]). do 16 (destruct a as [|? a]; [done|]). destruct a; [|done].
  unfold hev_socks5_addr_from_ipv6. rewrite Hu, Hbe. reflexivity.
Qed.

Lemma strncpy_cstr name post :
  (length name ≤ 255)%nat → Forall (λ b, b ≠ 0) name →
  cstr (strncpy name 256 ++ post) = Some name.
Proof.
  intros Hl Hn. unfold strncpy. rewrite take_ge by lia.
  replace (256 - length name)%nat with (S (255 - length name)) by lia. simpl.
  rewrite <-app_assoc. simpl. by apply cstr_app.
Qed.

Lemma from_name_spec m name p :
  length m = sizeof_addr → dest_ok (DName name p) →
  ∃ post, hev_socks5_addr_from_name m name (htons p) =
      Some (4 + Z.of_nat (length name), enc_dest (DName name p) ++ post) ∧
    (length (enc_dest (DName name p)) + length post)%nat = sizeof_addr.
Proof.
  intros Hm (Hp & Hl & Hn). simpl in Hp. destruct (port_facts p Hp) as (Hbe & _ & _ & Hu & _).
  assert (Forall (λ b, b ≠ 0) name) as Hnz by (eapply Forall_impl; [exact Hn|]; naive_solver).
  unfold hev_socks5_addr_from_name. rewrite Hu, Hbe.
  destruct m as [|b0 [|b1 m]]; [done..|].
  set (m2 := drop (length (strncpy name 256)) m). cbn zeta.
  change (put (put (b0 :: b1 :: m) 0 [HEV_SOCKS5_ADDR_TYPE_NAME]) 2 (strncpy name 256))
    with (3 :: b1 :: strncpy name 256 ++ m2).
  assert (length (strncpy name 256) = 256%nat) as Hs.
  { unfold strncpy. rewrite length_app, length_take, length_replicate. lia. }
  cbn [drop]. rewrite drop_0, strncpy_cstr by (done || lia). cbn [mbind option_bind].
  rewrite (u8_id (Z.of_nat (length name))) by (unfold is_u8; lia). rewrite Nat2Z.id.
  assert (∃ post, strncpy name 256 ++ m2 = name ++ post) as (post & He).
  { unfold strncpy. rewrite take_ge by lia. rewrite <-app_assoc. by eexists. }
  rewrite He. assert (length post = 258 - length name)%nat as Hpost.
  { apply (f_equal length) in He. rewrite !length_app, Hs in He. unfold m2 in He.
    rewrite length_drop, Hs in He. unfold sizeof_addr in Hm. simpl in Hm. lia. }
  destruct post as [|q0 [|q1 post]]; [simpl in Hpost; lia..|].
  exists post. split; [|unfold sizeof_addr; simpl; rewrite length_app; simpl in *; lia].
  change (put (3 :: b1 :: name ++ q0 :: q1 :: post) 1 [Z.of_nat (length name)])
    with (3 :: Z.of_nat (length name) :: name ++ q0 :: q1 :: post).
  change (3 :: Z.of_nat (length name) :: name ++ q0 :: q1 :: post)
    with ((3 :: Z.of_nat (length name) :: name) ++ [q0; q1] ++ post).
  rewrite put_app by done. do 2 f_equal. simpl. by rewrite <-app_assoc.
Qed.

(** ** Reading addresses *)

Lemma get_bytes_app pre bs post i n : i = length pre → n = length bs → get_bytes (pre ++ bs ++ post) i n = Some bs.
Proof.
  intros -> ->. unfold get_bytes. rewrite decide_True by (rewrite !length_app; lia).
  by rewrite drop_app_length, take_app_length.
Qed.

Lemma get16_be pre p post i :
  i = length pre → is_u16 p → get16 (pre ++ be16 p ++ post) i = Some (htons p).
Proof.
  intros -> Hp. destruct (port_facts p Hp) as (_ & _ & Hle & _). unfold get16.
  change (be16 p ++ post) with (p / 256 :: p mod 256 :: post).
  rewrite (list_lookup_middle _ _ _ (length pre)) by done. cbn [mbind option_bind].
  rewrite (cons_middle (p / 256)), app_assoc, list_lookup_middle by (rewrite length_app; simpl; lia).
  simpl. by rewrite Hle.
Qed.

Lemma addr_len_enc d post : dest_ok d →
  hev_socks5_addr_len (enc_dest d ++ post) = Some (Z.of_nat (length (enc_dest d))).
Proof. intros Hd. rewrite length_enc_dest by done. by destruct d. Qed.

Lemma into_sockaddr6_4 p4 p6 gai a p post fam : dest_ok (D4 a p) →
  hev_socks5_addr_into_sockaddr6 p4 p6 gai (enc_dest (D4 a p) ++ post) fam =
    Some (Some (mk_sin6 (htons p) (v4_prefix ++ a), HEV_SOCKS5_ADDR_FAMILY_IPV4)).
Proof.
  intros (Hp & Ha & _). simpl in *. unfold hev_socks5_addr_into_sockaddr6. simpl.
  unfold hev_socks5_ipv4_into_sockaddr6. rewrite <-app_assoc.
  change (1 :: a ++ be16 p ++ post) with ([1] ++ a ++ be16 p ++ post).
  rewrite (get_bytes_app [1] a) by done. rewrite app_assoc, get16_be by (simpl; done || lia). done.
Qed.

Lemma into_sockaddr6_6 p4 p6 gai a p post fam : dest_ok (D6 a p) →
  hev_socks5_addr_into_sockaddr6 p4 p6 gai (enc_dest (D6 a p) ++ post) fam =
    Some (Some (mk_sin6 (htons p) a, HEV_SOCKS5_ADDR_FAMILY_IPV6)).
Proof.
  intros (Hp & Ha & _). simpl in *. unfold hev_socks5_addr_into_sockaddr6. simpl.
  unfold hev_socks5_ipv6_into_sockaddr6. rewrite <-app_assoc.
  change (4 :: a ++ be16 p ++ post) with ([4] ++ a ++ be16 p ++ post).
  rewrite (get_bytes_app [4] a) by done. rewrite app_assoc, get16_be by (simpl; done || lia). done.
Qed.

Lemma into_sockaddr6_name p4 p6 gai n p post fam : dest_ok (DName n p) →
  hev_socks5_addr_into_sockaddr6 p4 p6 gai (enc_dest (DName n p) ++ post) fam =
    Some (hev_socks5_name_into_sockaddr6 p4 p6 gai n p fam).
Proof.
  intros (Hp & Hl & Hn). simpl in Hp. unfold hev_socks5_addr_into_sockaddr6. simpl. rewrite Nat2Z.id, <-app_assoc.
  change (3 :: Z.of_nat (length n) :: n ++ be16 p ++ post)
    with ([3; Z.of_nat (length n)] ++ n ++ be16 p ++ post).
  rewrite get_bytes_app by done. cbn [mbind option_bind].
  rewrite app_assoc, get16_be by (simpl; done || lia). cbn [mbind option_bind].
  rewrite cstr_app by (eapply Forall_impl; [exact Hn|]; naive_solver). cbn [mbind option_bind].
  by destruct (port_facts p Hp) as (_ & -> & _).
Qed.

Lemma into_lwip_4 a p post : dest_ok (D4 a p) →
  hev_socks5_addr_into_lwip (enc_dest (D4 a p) ++ post) = Some (Some (IPADDR_TYPE_V4 a, p)).
Proof.
  intros (Hp & Ha & _). simpl in *. unfold hev_socks5_addr_into_lwip. simpl. rewrite <-app_assoc.
  change (1 :: a ++ be16 p ++ post) with ([1] ++ a ++ be16 p ++ post).
  rewrite (get_bytes_app [1] a) by done. rewrite app_assoc, get16_be by (simpl; done || lia).
  cbn [mbind option_bind]. by destruct (port_facts p Hp) as (_ & -> & _).
Qed.

Lemma into_lwip_6 a p post : dest_ok (D6 a p) →
  hev_socks5_addr_into_lwip (enc_dest (D6 a p) ++ post) = Some (Some (IPADDR_TYPE_V6 a, p)).
Proof.
  intros (Hp & Ha & _). simpl in *. unfold hev_socks5_addr_into_lwip. simpl. rewrite <-app_assoc.
  change (4 :: a ++ be16 p ++ post) with ([4] ++ a ++ be16 p ++ post).
  rewrite (get_bytes_app [4] a) by done. rewrite app_assoc, get16_be by (simpl; done || lia).
  cbn [mbind option_bind]. by destruct (port_facts p Hp) as (_ & -> & _).
Qed.

(** What the tunnel connects to for an lwIP address, given the name of the
    mapped DNS. *)
Definition lwip_dest (ip : ip_addr) (port : Z) (name : option (list Z)) : dest :=
  match ip, name with
  | IPADDR_TYPE_V4 _, Some n => DName n port
  | IPADDR_TYPE_V4 a, None => D4 a port
  | IPADDR_TYPE_V6 a, _ => D6 a port
  end.

(** [hev_socks5_addr_from_lwip] fills the address object with the RFC 1928
    encoding of the destination: the mapped name when the mapped DNS knows the
    address, the address itself otherwise.  [hev_socks5_addr_len] is the length
    of that encoding, and for an address without a name
    [hev_socks5_addr_into_lwip] gives the address and the port back. *)
Theorem addr_from_lwip_encodes m ip port name :
  length m = sizeof_addr → dest_ok (lwip_dest ip port name) →
  ∃ addr post, hev_socks5_addr_from_lwip m ip port name = Some addr ∧
    addr = enc_dest (lwip_dest ip port name) ++ post ∧
    hev_socks5_addr_len addr = Some (Z.of_nat (length (enc_dest (lwip_dest ip port name)))) ∧
    (name = None → hev_socks5_addr_into_lwip addr = Some (Some (ip, port))).
Proof.
  intros Hm Hd. assert (19 ≤ length m)%nat as Hl by (rewrite Hm; unfold sizeof_addr; lia).
  destruct ip as [a|a]; [destruct name as [n|]|]; cbn [lwip_dest hev_socks5_addr_from_lwip] in *.
  - destruct (from_name_spec m n port Hm Hd) as (post & -> & _). eexists _, post.
    split_and!; [done|done|by apply (addr_len_enc (DName n port))|done].
  - destruct (from_ipv4_spec m a port ltac:(lia) Hd) as (post & -> & _). eexists _, post.
    split_and!; [done|done|by apply (addr_len_enc (D4 a port))|]. intros _. by apply into_lwip_4.
  - rewrite (from_ipv6_spec m a port Hl Hd). eexists _, (drop 19 m).
    split_and!; [done|done|by apply (addr_len_enc (D6 a port))|]. intros _. by apply into_lwip_6.
Qed.

Lemma addr_from_lwip_encodes_witness :
  ∃ addr post, hev_socks5_addr_from_lwip (replicate 260 0) (IPADDR_TYPE_V4 [10; 0; 0; 1]) 443 (Some [97; 46; 98])
      = Some addr ∧
    addr = [3; 3; 97; 46; 98; 1; 187] ++ post ∧ hev_socks5_addr_len addr = Some 7 ∧
    (Some [97; 46; 98] = None → hev_socks5_addr_into_lwip addr = Some (Some (IPADDR_TYPE_V4 [10; 0; 0; 1], 443))).
Proof.
  apply (addr_from_lwip_encodes (replicate 260 0) (IPADDR_TYPE_V4 [10; 0; 0; 1]) 443 (Some [97; 46; 98]));
    [reflexivity|]. split; [by vm_compute|]. split; [simpl; lia|]. repeat constructor; done.
Defined.

(** The form in which an address comes back: an IPv4-mapped IPv6 address as
    IPv4. *)
Definition canon (d : dest) : dest :=
  match d with
  | D6 a p => if IN6_IS_ADDR_V4MAPPED a then D4 (drop 12 a) p else d
  | _ => d
  end.

Lemma from_sockaddr6_spec m a p :
  (19 ≤ length m)%nat → is_u16 p → length a = 16%nat →
  hev_socks5_addr_from_sockaddr6 m (mk_sin6 (htons p) a) =
    (Z.of_nat (length (enc_dest (canon (D6 a p)))),
     enc_dest (canon (D6 a p)) ++ drop (length (enc_dest (canon (D6 a p)))) m).
Proof.
  intros Hm Hp Ha. destruct (port_facts p Hp) as (Hbe & _ & _ & Hu & _).
  do 19 (destruct m as [|? m]; [simpl in Hm; lia|]). do 16 (destruct a as [|? a]; [done|]). destruct a; [|done].
  unfold hev_socks5_addr_from_sockaddr6, canon. simpl sin6_addr. simpl sin6_port. rewrite Hbe.
  destruct (IN6_IS_ADDR_V4MAPPED _); reflexivity.
Qed.

(** Round trip through the socket address.  Turning an IPv4 or IPv6
    destination into a socket address and back gives the same encoding, except
    that an IPv4-mapped IPv6 address comes back as the IPv4 address it maps;
    nothing past the encoding is written. *)
Theorem sockaddr_roundtrip p4 p6 gai d post fam m :
  dest_ok d → (∀ n p, d ≠ DName n p) → (19 ≤ length m)%nat →
  ∃ sa fam', hev_socks5_addr_into_sockaddr6 p4 p6 gai (enc_dest d ++ post) fam = Some (Some (sa, fam')) ∧
    hev_socks5_addr_from_sockaddr6 m sa =
      (Z.of_nat (length (enc_dest (canon d))),
       enc_dest (canon d) ++ drop (length (enc_dest (canon d))) m).
Proof.
  intros Hd Hn Hm. destruct d as [a p|a p|n p]; [| |by destruct (Hn n p)].
  - rewrite into_sockaddr6_4 by done. eexists _, _. split; [done|].
    destruct Hd as (Hp & Ha & _). simpl in Hp. rewrite from_sockaddr6_spec by (simpl; done || lia).
    do 4 (destruct a as [|? a]; [done|]). by destruct a.
  - rewrite into_sockaddr6_6 by done. eexists _, _. split; [done|].
    destruct Hd as (Hp & Ha & _). simpl in Hp. by rewrite from_sockaddr6_spec.
Qed.

Lemma sockaddr_roundtrip_witness :
  ∃ sa fam', hev_socks5_addr_into_sockaddr6 (λ _, None) (λ _, None) (λ _ _, None)
      ([1; 127; 0; 0; 1; 31; 144] ++ []) HEV_SOCKS5_ADDR_FAMILY_UNSPEC = Some (Some (sa, fam')) ∧
    hev_socks5_addr_from_sockaddr6 (replicate 20 0) sa = (7, [1; 127; 0; 0; 1; 31; 144] ++ replicate 13 0).
Proof.
  apply (sockaddr_roundtrip (λ _, None) (λ _, None) (λ _ _, None) (D4 [127; 0; 0; 1] 8080) []
    HEV_SOCKS5_ADDR_FAMILY_UNSPEC (replicate 20 0)).
  - split; [by vm_compute|]. split; [done|]. repeat constructor; done.
  - intros n p. discriminate.
  - vm_compute. lia.
Defined.

(** A name of 256 bytes does not fit.  [hev_socks5_addr_from_name] copies
    256 bytes and keeps their number in one byte, so that the name becomes the
    empty name, and the encoding has four bytes. *)
Theorem addr_from_long_name :
  ∃ addr, hev_socks5_addr_from_name (replicate 260 0) (replicate 256 97) (htons 443) = Some (4, addr) ∧
    take 4 addr = [3; 0; 1; 187].
Proof. eexists. split; vm_compute; reflexivity. Qed.
