(* ===== verification/SocksIO.v ===== *)
(** * Programs that talk to a peer

    The SOCKS5 code runs in a task: it sends and receives on the connection to
    its peer and makes system calls.  A program is a tree of these actions; the
    C functions are written in the monad [M S], programs that also pass a state
    [S], the C object.  A send tells whether it succeeded ([MSG_WAITALL], result
    greater than zero), a receive of [n] bytes gives the bytes or fails (the
    result is not [n]).

    The second part composes two programs over two byte streams and shows that
    the order in which they take their steps does not matter. *)

From stdpp Require Import relations.
From S2P Require Import Prelude SocksAddr.

(** ** Programs *)

Inductive syscall :=
  | Sys_socket (type : Z)
  | Sys_setsockopt (fd opt : Z)
  | Sys_add_fd (fd : Z)                    (* hev_task_add_fd *)
  | Sys_mod_fd (fd : Z)                    (* hev_task_mod_fd *)
  | Sys_del_fd (fd : Z)                    (* hev_task_del_fd *)
  | Sys_close (fd : Z)
  | Sys_binder (fd : Z) (a : sockaddr_in6) (* the virtual method [binder] *)
  | Sys_bind (fd : Z) (a : sockaddr_in6)
  | Sys_connect (fd : Z) (a : sockaddr_in6)
  | Sys_getsockname (fd : Z)
  | Sys_malloc (size : Z).                 (* zero: NULL *)

(** The result of a system call, and the address [getsockname] fills in. *)
Definition reply : Type := Z * sockaddr_in6.

Inductive io (A : Type) : Type :=
  | Ret (a : A)
  | Ub
  | Send (bs : list Z) (k : bool → io A)
  | Recv (n : Z) (k : option (list Z) → io A)
  | Call (c : syscall) (k : reply → io A).
Arguments Ret {A} a.
Arguments Ub {A}.
Arguments Send {A} bs k.
Arguments Recv {A} n k.
Arguments Call {A} c k.

Fixpoint io_bind {A B} (f : A → io B) (t : io A) : io B :=
  match t with
  | Ret a => f a
  | Ub => Ub
  | Send bs k => Send bs (λ r, io_bind f (k r))
  | Recv n k => Recv n (λ r, io_bind f (k r))
  | Call c k => Call c (λ r, io_bind f (k r))
  end.

Definition M (S A : Type) : Type := S → io (A * S).

#[global] Instance M_ret S : MRet (M S) := λ A a s, Ret (a, s).
#[global] Instance M_bind S : MBind (M S) := λ A B f c s, io_bind (λ x, f x.1 x.2) (c s).

Definition m_send {S} (bs : list Z) : M S bool := λ s, Send bs (λ r, Ret (r, s)).
Definition m_recv {S} (n : Z) : M S (option (list Z)) := λ s, Recv n (λ r, Ret (r, s)).
Definition m_call {S} (c : syscall) : M S Z := λ s, Call c (λ r, Ret (r.1, s)).
Definition m_getsockname {S} (fd : Z) : M S reply := λ s, Call (Sys_getsockname fd) (λ r, Ret (r, s)).
Definition m_ub {S A} : M S A := λ _, Ub.
Definition m_get {S A} (f : S → A) : M S A := λ s, Ret (f s, s).
Definition m_set {S} (f : S → S) : M S unit := λ s, Ret (tt, f s).
(** A computation on memory; undefined where that is. *)
Definition m_stm {S A} (c : stm S A) : M S A := λ s,
  match c s with Some r => Ret r | None => Ub end.
Definition m_opt {S A} (o : option A) : M S A := match o with Some a => mret a | None => m_ub end.

(** The system calls made so far, with their answers. *)
Definition trace : Type := list (syscall * reply).

(** ** Two programs over two streams

    [envA] and [envB] answer the system calls of the two sides; an answer may
    depend on the calls before it. *)

Section duplex.
Context {A B : Type} (envA envB : trace → syscall → reply).

Record config := mk_config {
  cfA : io A;
  cfB : io B;
  ab : list Z;        (* sent by A, not received by B *)
  ba : list Z;
  trA : trace;
  trB : trace;
}.

Definition stepA (c : config) : option config :=
  match cfA c with
  | Ret _ | Ub => None
  | Send bs k => Some (mk_config (k true) (cfB c) (ab c ++ bs) (ba c) (trA c) (trB c))
  | Recv n k =>
      if decide (0 ≤ n ≤ Z.of_nat (length (ba c))) then
        Some (mk_config (k (Some (take (Z.to_nat n) (ba c)))) (cfB c) (ab c) (drop (Z.to_nat n) (ba c))
          (trA c) (trB c))
      else None
  | Call s k =>
      let r := envA (trA c) s in
      Some (mk_config (k r) (cfB c) (ab c) (ba c) (trA c ++ [(s, r)]) (trB c))
  end.

Definition stepB (c : config) : option config :=
  match cfB c with
  | Ret _ | Ub => None
  | Send bs k => Some (mk_config (cfA c) (k true) (ab c) (ba c ++ bs) (trA c) (trB c))
  | Recv n k =>
      if decide (0 ≤ n ≤ Z.of_nat (length (ab c))) then
        Some (mk_config (cfA c) (k (Some (take (Z.to_nat n) (ab c)))) (drop (Z.to_nat n) (ab c)) (ba c)
          (trA c) (trB c))
      else None
  | Call s k =>
      let r := envB (trB c) s in
      Some (mk_config (cfA c) (k r) (ab c) (ba c) (trA c) (trB c ++ [(s, r)]))
  end.

Inductive dstep : config → config → Prop :=
  | dstep_A c c' : stepA c = Some c' → dstep c c'
  | dstep_B c c' : stepB c = Some c' → dstep c c'.

(** The steps of the two sides commute. *)
Lemma dstep_commute c c1 c2 :
  stepA c = Some c1 → stepB c = Some c2 → ∃ c3, stepB c1 = Some c3 ∧ stepA c2 = Some c3.
Proof.
  destruct c as [tA tB xab xba ta tb]. unfold stepA, stepB. simpl.
  destruct tA as [|  |bs k|n k|s k], tB as [| |bs' k'|n' k'|s' k']; simpl; try done;
    intros H1 H2; repeat case_decide; simplify_eq; simpl; eauto.
  - rewrite decide_True by (rewrite length_app; lia).
    rewrite take_app_le, drop_app_le by lia. eauto.
  - rewrite decide_True by (rewrite length_app; lia).
    rewrite take_app_le, drop_app_le by lia. eauto.
  - rewrite !decide_True by lia. eauto.
  - rewrite decide_True by lia. eauto.
  - rewrite decide_True by lia. eauto.
Qed.

Definition dfinal (c : config) : Prop := ∀ c', ¬ dstep c c'.

(** From a configuration that can reach a final one in [n] steps, every step
    leads to one that can reach it in [n - 1]. *)
Lemma dstep_uniform n c f c' :
  nsteps dstep n c f → dfinal f → dstep c c' → ∃ m, n = S m ∧ nsteps dstep m c' f.
Proof.
  intros Hn Hf. revert c'. induction Hn as [c|n c c1 f H1 Hn IH]; intros c' H'; [by destruct (Hf _ H')|].
  exists n. split; [done|].
  assert (c1 = c' ∨ ∃ c3, dstep c1 c3 ∧ dstep c' c3) as [<-|(c3 & H13 & H23)]; [|done|].
  { destruct H1 as [c c1 H1|c c1 H1]; inversion H' as [? ? H2|? ? H2]; subst.
    - left. congruence.
    - right. destruct (dstep_commute _ _ _ H1 H2) as (c3 & ? & ?). exists c3. split; [by apply dstep_B|by apply dstep_A].
    - right. destruct (dstep_commute _ _ _ H2 H1) as (c3 & ? & ?). exists c3. split; [by apply dstep_A|by apply dstep_B].
    - left. congruence. }
  destruct (IH Hf c3 H13) as (m & -> & Hm). by econstructor.
Qed.

(** Every execution can be continued to the final configuration, and none is
    longer. *)
Lemma dstep_confluent n c f :
  nsteps dstep n c f → dfinal f →
  ∀ m c', nsteps dstep m c c' → (m ≤ n)%nat ∧ nsteps dstep (n - m) c' f.
Proof.
  intros Hn Hf m c' Hm. revert n Hn. induction Hm as [c|m c c1 c' H1 Hm IH]; intros n Hn.
  - rewrite Nat.sub_0_r. split; [lia|done].
  - destruct (dstep_uniform _ _ _ _ Hn Hf H1) as (n' & -> & Hn'). destruct (IH n' Hn'). split; [lia|done].
Qed.

(** All executions from [c] end in [f]. *)
Definition always_ends (c f : config) : Prop :=
  dfinal f ∧ ∃ n, ∀ m c', nsteps dstep m c c' → (m ≤ n)%nat ∧ nsteps dstep (n - m) c' f.

Lemma run_always_ends c f : rtc dstep c f → dfinal f → always_ends c f.
Proof.
  intros [n Hn]%rtc_nsteps Hf. split; [done|]. exists n. by apply dstep_confluent.
Qed.

Lemma dfinal_ret a b x y ta tb : dfinal (mk_config (Ret a) (Ret b) x y ta tb).
Proof. intros c'. inversion 1 as [? ? H1|? ? H1]; by unfold stepA, stepB in H1. Qed.
End duplex.

(** ** One side on its own

    [exec env t tr inp out]: the result of [t] when the peer has sent [inp] and
    sends nothing more; [tr] are the calls made and [out] the bytes sent before.
    It is undefined where [t] waits for more than [inp]. *)

Section exec.
Context (env : trace → syscall → reply).

Fixpoint exec {A} (t : io A) (tr : trace) (inp out : list Z) : option (A * trace * list Z * list Z) :=
  match t with
  | Ret a => Some (a, tr, inp, out)
  | Ub => None
  | Send bs k => exec (k true) tr inp (out ++ bs)
  | Recv n k =>
      if decide (0 ≤ n ≤ Z.of_nat (length inp)) then
        exec (k (Some (take (Z.to_nat n) inp))) tr (drop (Z.to_nat n) inp) out
      else None
  | Call s k => let r := env tr s in exec (k r) (tr ++ [(s, r)]) inp out
  end.

Lemma exec_bind {A B} (f : A → io B) (t : io A) tr inp out :
  exec (io_bind f t) tr inp out =
    match exec t tr inp out with
    | Some (a, tr', inp', out') => exec (f a) tr' inp' out'
    | None => None
    end.
Proof.
  revert tr inp out. induction t as [a| |bs k IH|n k IH|s k IH]; intros tr inp out; simpl; try done.
  by case_decide.
Qed.

Lemma exec_recv {A} n bs (k : option (list Z) → io A) tr inp out :
  n = Z.of_nat (length bs) → exec (Recv n k) tr (bs ++ inp) out = exec (k (Some bs)) tr inp out.
Proof.
  intros ->. simpl. rewrite decide_True by (rewrite length_app; lia).
  by rewrite Nat2Z.id, take_app_length, drop_app_length.
Qed.

Lemma exec_M_bind {S A B} (c : M S A) (f : A → M S B) s t i o a s' t' i' o' :
  exec (c s) t i o = Some ((a, s'), t', i', o') →
  exec ((c ≫= f) s) t i o = exec (f a s') t' i' o'.
Proof. intros H. unfold mbind, M_bind. by rewrite exec_bind, H. Qed.

Lemma exec_m_recv {S A} n bs (f : option (list Z) → M S A) s tr inp out :
  n = Z.of_nat (length bs) →
  exec ((m_recv n ≫= f) s) tr (bs ++ inp) out = exec (f (Some bs) s) tr inp out.
Proof. intros Hn. erewrite exec_M_bind; [reflexivity|]. unfold m_recv. by rewrite exec_recv. Qed.
End exec.

(** A side may run up to a point of its own choice while the other waits. *)
Section one_side.
Context {A B : Type} (envA envB : trace → syscall → reply).

Lemma run_A_exec {A'} (K : A' → io A) t a tB x y x' y' ta ta' tb (f : config (A := A) (B := B)) :
  exec envA t ta y x = Some (a, ta', y', x') →
  rtc (dstep envA envB) (mk_config (K a) tB x' y' ta' tb) f →
  rtc (dstep envA envB) (mk_config (io_bind K t) tB x y ta tb) f.
Proof.
  revert x y ta. induction t as [a0| |bs k IH|n k IH|s k IH]; intros x y ta H Hf; simpl in *; simplify_eq; [done|..].
  - eapply rtc_l; [by apply dstep_A|]. by eapply IH.
  - case_decide as Hd; [|done]. eapply rtc_l; [apply dstep_A; unfold stepA; simpl; by rewrite decide_True|]. by eapply IH.
  - eapply rtc_l; [by apply dstep_A|]. by eapply IH.
Qed.

Lemma run_B_exec {B'} (K : B' → io B) t b tA x y x' y' ta tb tb' (f : config (A := A) (B := B)) :
  exec envB t tb x y = Some (b, tb', x', y') →
  rtc (dstep envA envB) (mk_config tA (K b) x' y' ta tb') f →
  rtc (dstep envA envB) (mk_config tA (io_bind K t) x y ta tb) f.
Proof.
  revert x y tb. induction t as [a0| |bs k IH|n k IH|s k IH]; intros x y tb H Hf; simpl in *; simplify_eq; [done|..].
  - eapply rtc_l; [by apply dstep_B|]. by eapply IH.
  - case_decide as Hd; [|done]. eapply rtc_l; [apply dstep_B; unfold stepB; simpl; by rewrite decide_True|]. by eapply IH.
  - eapply rtc_l; [by apply dstep_B|]. by eapply IH.
Qed.

Lemma run_B_last t b tA x y x' y' ta tb tb' (f : config (A := A) (B := B)) :
  exec envB t tb x y = Some (b, tb', x', y') →
  rtc (dstep envA envB) (mk_config tA (Ret b) x' y' ta tb') f →
  rtc (dstep envA envB) (mk_config tA t x y ta tb) f.
Proof.
  revert x y tb. induction t as [a0| |bs k IH|n k IH|s k IH]; intros x y tb H Hf; simpl in *; simplify_eq; [done|..].
  - eapply rtc_l; [by apply dstep_B|]. by eapply IH.
  - case_decide as Hd; [|done]. eapply rtc_l; [apply dstep_B; unfold stepB; simpl; by rewrite decide_True|]. by eapply IH.
  - eapply rtc_l; [by apply dstep_B|]. by eapply IH.
Qed.

(** A run of the first program of a sequence, on either side. *)
Lemma run_A_bind {A'} (K : A' → io A) t t' tB tB' x y x' y' ta tb ta' tb' (f : config (A := A) (B := B)) :
  rtc (dstep envA envB) (mk_config t tB x y ta tb) (mk_config t' tB' x' y' ta' tb') →
  rtc (dstep envA envB) (mk_config (io_bind K t') tB' x' y' ta' tb') f →
  rtc (dstep envA envB) (mk_config (io_bind K t) tB x y ta tb) f.
Proof.
  intros H Hf. remember (mk_config t tB x y ta tb) as c eqn:Hc. remember (mk_config t' tB' x' y' ta' tb') as c' eqn:Hc'.
  revert t tB x y ta tb Hc. induction H as [c|c c1 c' H1 H IH]; intros t tB x y ta tb ->; [by simplify_eq|].
  inversion H1 as [? ? H2|? ? H2]; clear H1; subst; unfold stepA, stepB in H2; simpl in H2.
  - destruct c1 as [t1 tB1 x1 y1 ta1 tb1]. eapply rtc_l; [|by eapply IH].
    apply dstep_A. unfold stepA. simpl. destruct t; simplify_eq; simpl; try done.
    all: case_decide; by simplify_eq.
  - destruct c1 as [t1 tB1 x1 y1 ta1 tb1]. eapply rtc_l; [|by eapply IH].
    apply dstep_B. unfold stepB. simpl. destruct tB; simplify_eq; simpl; try done.
    all: case_decide; by simplify_eq.
Qed.

Lemma run_B_bind {B'} (K : B' → io B) t t' tA tA' x y x' y' ta tb ta' tb' (f : config (A := A) (B := B)) :
  rtc (dstep envA envB) (mk_config tA t x y ta tb) (mk_config tA' t' x' y' ta' tb') →
  rtc (dstep envA envB) (mk_config tA' (io_bind K t') x' y' ta' tb') f →
  rtc (dstep envA envB) (mk_config tA (io_bind K t) x y ta tb) f.
Proof.
  intros H Hf. remember (mk_config tA t x y ta tb) as c eqn:Hc. remember (mk_config tA' t' x' y' ta' tb') as c' eqn:Hc'.
  revert t tA x y ta tb Hc. induction H as [c|c c1 c' H1 H IH]; intros t tA x y ta tb ->; [by simplify_eq|].
  inversion H1 as [? ? H2|? ? H2]; clear H1; subst; unfold stepA, stepB in H2; simpl in H2.
  - destruct c1 as [t1 tB1 x1 y1 ta1 tb1]. eapply rtc_l; [|by eapply IH].
    apply dstep_A. unfold stepA. simpl. destruct tA; simplify_eq; simpl; try done.
    all: case_decide; by simplify_eq.
  - destruct c1 as [t1 tB1 x1 y1 ta1 tb1]. eapply rtc_l; [|by eapply IH].
    apply dstep_B. unfold stepB. simpl. destruct t; simplify_eq; simpl; try done.
    all: case_decide; by simplify_eq.
Qed.
End one_side.

(** The descriptors that are open after a trace, given those open before it. *)
Definition fd_effect (fds : gset Z) (e : syscall * reply) : gset Z :=
  match e.1 with
  | Sys_socket _ => if 0 <=? e.2.1 then {[e.2.1]} ∪ fds else fds
  | Sys_close fd => fds ∖ {[fd]}
  | _ => fds
  end.

Definition open_fds (fds : gset Z) (tr : trace) : gset Z := foldl fd_effect fds tr.

Lemma open_fds_app fds tr1 tr2 : open_fds fds (tr1 ++ tr2) = open_fds (open_fds fds tr1) tr2.
Proof. apply foldl_app. Qed.

(** ** One program against any peer

    [io_wp t X Q]: with the descriptors [X] open, and whatever the peer sends and
    the system calls answer, [t] is defined, uses and closes open descriptors
    only, and ends with a result and a set of open descriptors that satisfy [Q].
    Received data is of the length asked for and consists of bytes; a new socket
    gets a number that is not in use, and memory is available. *)

Definition call_pre (c : syscall) (X : gset Z) : Prop :=
  match c with
  | Sys_socket _ | Sys_malloc _ => True
  | Sys_setsockopt fd _ | Sys_add_fd fd | Sys_mod_fd fd | Sys_del_fd fd | Sys_close fd
  | Sys_binder fd _ | Sys_bind fd _ | Sys_connect fd _ | Sys_getsockname fd => fd ∈ X
  end.

Definition call_post (c : syscall) (X : gset Z) (r : reply) : Prop :=
  match c with
  | Sys_socket _ => r.1 ∉ X
  | Sys_malloc _ => r.1 ≠ 0
  | _ => True
  end.

Fixpoint io_wp {A} (t : io A) (X : gset Z) (Q : A → gset Z → Prop) : Prop :=
  match t with
  | Ret a => Q a X
  | Ub => False
  | Send bs k => ∀ r, io_wp (k r) X Q
  | Recv n k =>
      io_wp (k None) X Q ∧
      ∀ bs, Z.of_nat (length bs) = n → Forall is_u8 bs → io_wp (k (Some bs)) X Q
  | Call c k => call_pre c X ∧ ∀ r, call_post c X r → io_wp (k r) (fd_effect X (c, r)) Q
  end.

Lemma io_wp_bind {A B} (f : A → io B) (t : io A) X Q :
  io_wp t X (λ a X', io_wp (f a) X' Q) → io_wp (io_bind f t) X Q.
Proof. revert X. induction t as [a| |bs k IH|n k IH|c k IH]; simpl; intros X; naive_solver. Qed.

Lemma io_wp_mono {A} (t : io A) X (Q Q' : A → gset Z → Prop) :
  io_wp t X Q → (∀ a X', Q a X' → Q' a X') → io_wp t X Q'.
Proof. revert X. induction t as [a| |bs k IH|n k IH|c k IH]; simpl; intros X; naive_solver. Qed.

(** [mwp c s X Q]: the same for a function of the monad. *)
Definition mwp {S A} (c : M S A) (s : S) (X : gset Z) (Q : A → S → gset Z → Prop) : Prop :=
  io_wp (c s) X (λ x X', Q x.1 x.2 X').

Section mwp_rules.
Context {S : Type}.

Lemma mwp_ret {A} (a : A) (s : S) X (Q : A → S → gset Z → Prop) : Q a s X → mwp (mret a) s X Q.
Proof. done. Qed.
Lemma mwp_bind {A B} (c : M S A) (f : A → M S B) s X Q :
  mwp c s X (λ a s' X', mwp (f a) s' X' Q) → mwp (c ≫= f) s X Q.
Proof. intros H. apply io_wp_bind. exact H. Qed.
Lemma mwp_mono {A} (c : M S A) s X (Q Q' : A → S → gset Z → Prop) :
  mwp c s X Q → (∀ a s' X', Q a s' X' → Q' a s' X') → mwp c s X Q'.
Proof. intros H HQ. eapply io_wp_mono; [exact H|]. intros [a s'] X'. apply HQ. Qed.
Lemma mwp_get {A} (f : S → A) s X (Q : A → S → gset Z → Prop) : Q (f s) s X → mwp (m_get f) s X Q.
Proof. done. Qed.
Lemma mwp_set (f : S → S) s X (Q : unit → S → gset Z → Prop) : Q tt (f s) X → mwp (m_set f) s X Q.
Proof. done. Qed.
Lemma mwp_send bs (s : S) X (Q : bool → S → gset Z → Prop) : (∀ r, Q r s X) → mwp (m_send bs) s X Q.
Proof. done. Qed.
Lemma mwp_recv n (s : S) X (Q : option (list Z) → S → gset Z → Prop) :
  Q None s X → (∀ bs, Z.of_nat (length bs) = n → Forall is_u8 bs → Q (Some bs) s X) →
  mwp (m_recv n) s X Q.
Proof. done. Qed.
Lemma mwp_call c (s : S) X (Q : Z → S → gset Z → Prop) :
  call_pre c X → (∀ r, call_post c X r → Q r.1 s (fd_effect X (c, r))) → mwp (m_call c) s X Q.
Proof. done. Qed.
Lemma mwp_getsockname fd (s : S) X (Q : reply → S → gset Z → Prop) :
  fd ∈ X → (∀ r, Q r s X) → mwp (m_getsockname fd) s X Q.
Proof. intros Hfd HQ. split; [done|]. intros r _. apply HQ. Qed.
Lemma mwp_stm {A} (c : stm S A) s X (Q : A → S → gset Z → Prop) :
  wp c s (λ a s', Q a s' X) → mwp (m_stm c) s X Q.
Proof. unfold wp, mwp, m_stm. by destruct (c s) as [[a s']|]. Qed.
Lemma mwp_opt {A} (o : option A) a (s : S) X (Q : A → S → gset Z → Prop) :
  o = Some a → Q a s X → mwp (m_opt o) s X Q.
Proof. by intros ->. Qed.
End mwp_rules.

Create HintDb mwp.
#[export] Hint Resolve mwp_ret mwp_get mwp_set mwp_send : mwp.
