(* ===== verification/SocksClient.v ===== *)
(** * The SOCKS5 client (src/core/src/hev-socks5.c, hev-socks5-client.c,
      hev-socks5-client-tcp.c, hev-socks5-client-udp.c): the model

    One record holds the fields of the base object, of the client, and of its
    two subclasses; [cl_class] selects the virtual methods.  [cl_blocks] counts
    the heap blocks of addresses the client has allocated and not released. *)

From S2P Require Import Prelude CString SocksAddr SocksIO.

Inductive HevSocks5Type :=
  | HEV_SOCKS5_TYPE_NONE | HEV_SOCKS5_TYPE_TCP | HEV_SOCKS5_TYPE_UDP_IN_TCP | HEV_SOCKS5_TYPE_UDP_IN_UDP.

Record HevSocks5 := mk_socks5 {
  s5_fd : Z;
  s5_timeout : Z;
  s5_udp_associated : Z;
  s5_type : HevSocks5Type;
  s5_addr_family : HevSocks5AddrFamily;
}.

(** The static variables of hev-socks5-misc.c. *)
Record timeouts := mk_timeouts { connect_timeout : Z; tcp_timeout : Z; udp_timeout : Z }.

(** ** hev-socks5.c *)

Definition hev_socks5_construct (type : HevSocks5Type) : HevSocks5 :=
  mk_socks5 (-1) (-1) 0 type HEV_SOCKS5_ADDR_FAMILY_UNSPEC.
Definition hev_socks5_set_timeout (timeout : Z) (self : HevSocks5) : HevSocks5 :=
  mk_socks5 (s5_fd self) timeout (s5_udp_associated self) (s5_type self) (s5_addr_family self).
Definition hev_socks5_set_addr_family (family : HevSocks5AddrFamily) (self : HevSocks5) : HevSocks5 :=
  mk_socks5 (s5_fd self) (s5_timeout self) (s5_udp_associated self) (s5_type self) family.
Definition s5_set_fd (fd : Z) (self : HevSocks5) : HevSocks5 :=
  mk_socks5 fd (s5_timeout self) (s5_udp_associated self) (s5_type self) (s5_addr_family self).
Definition s5_set_type (type : HevSocks5Type) (self : HevSocks5) : HevSocks5 :=
  mk_socks5 (s5_fd self) (s5_timeout self) (s5_udp_associated self) type (s5_addr_family self).
Definition s5_set_associated (v : Z) (self : HevSocks5) : HevSocks5 :=
  mk_socks5 (s5_fd self) (s5_timeout self) v (s5_type self) (s5_addr_family self).

(** ** hev_socks5_socket of hev-socks5-misc.c *)

Definition SOCK_STREAM : Z := 1.
Definition SOCK_DGRAM : Z := 2.
Definition IPV6_V6ONLY : Z := 26.
Definition SO_RCVBUF : Z := 8.
Definition SO_REUSEADDR : Z := 2.

Definition hev_socks5_socket {S} (type : Z) : M S Z :=
  fd ← m_call (Sys_socket type);
  if fd <? 0 then mret (-1)
  else
    res ← m_call (Sys_setsockopt fd IPV6_V6ONLY);
    if res <? 0 then m_call (Sys_close fd);; mret (-1)
    else
      res ← m_call (Sys_add_fd fd);
      (if res <? 0 then _ ← m_call (Sys_mod_fd fd); mret tt else mret tt);;
      (if type =? SOCK_DGRAM then _ ← m_call (Sys_setsockopt fd SO_RCVBUF); mret tt else mret tt);;
      mret fd.

(** ** The client *)

Inductive client_class := HevSocks5ClientTCP | HevSocks5ClientUDP.

Record HevSocks5Client := mk_client {
  cl_base : HevSocks5;
  cl_user : option (list Z);
  cl_pass : option (list Z);
  cl_class : client_class;
  cl_addr : option HevSocks5Addr;   (* HevSocks5ClientTCP: addr *)
  cl_fd : Z;                        (* HevSocks5ClientUDP: fd *)
  cl_blocks : Z;
}.

Definition cl_set_base (f : HevSocks5 → HevSocks5) (c : HevSocks5Client) : HevSocks5Client :=
  mk_client (f (cl_base c)) (cl_user c) (cl_pass c) (cl_class c) (cl_addr c) (cl_fd c) (cl_blocks c).
Definition cl_set_addr (a : option HevSocks5Addr) (c : HevSocks5Client) : HevSocks5Client :=
  mk_client (cl_base c) (cl_user c) (cl_pass c) (cl_class c) a (cl_fd c) (cl_blocks c).
Definition cl_set_fd (fd : Z) (c : HevSocks5Client) : HevSocks5Client :=
  mk_client (cl_base c) (cl_user c) (cl_pass c) (cl_class c) (cl_addr c) fd (cl_blocks c).
Definition cl_add_blocks (n : Z) (c : HevSocks5Client) : HevSocks5Client :=
  mk_client (cl_base c) (cl_user c) (cl_pass c) (cl_class c) (cl_addr c) (cl_fd c) (cl_blocks c + n).

(** Credentials are given; strings are kept as the bytes before their NUL. *)
Definition has_auth (c : HevSocks5Client) : bool :=
  match cl_user c, cl_pass c with Some _, Some _ => true | _, _ => false end.

Definition hev_socks5_client_set_auth (user pass : option (list Z)) (c : HevSocks5Client) : HevSocks5Client :=
  mk_client (cl_base c) user pass (cl_class c) (cl_addr c) (cl_fd c) (cl_blocks c).

Definition hev_socks5_client_write_auth_methods : M HevSocks5Client Z :=
  auth ← m_get has_auth;
  res ← m_send [5; 1; if auth : bool then 2 else 0];
  if res : bool then mret 0 else mret (-1).

Definition hev_socks5_client_write_auth_creds : M HevSocks5Client Z :=
  user ← m_get cl_user;
  pass ← m_get cl_pass;
  match user, pass with
  | Some user, Some pass =>
      let ub1 := u8 (Z.of_nat (length user)) in
      let ub2 := u8 (Z.of_nat (length pass)) in
      res ← m_send ([1; ub1] ++ take (Z.to_nat ub1) user ++ [ub2] ++ take (Z.to_nat ub2) pass);
      if res : bool then mret 0 else mret (-1)
  | _, _ => mret 0
  end.

(** *** The virtual methods *)

Definition hev_socks5_client_tcp_get_upstream_addr : M HevSocks5Client (option HevSocks5Addr) :=
  addr ← m_get cl_addr;
  m_set (cl_set_addr None);;
  mret addr.

(** [hev_malloc0 (n)] with the type stored at the first byte. *)
Definition addr_malloc0 (n : nat) (atype : Z) : M HevSocks5Client (option HevSocks5Addr) :=
  r ← m_call (Sys_malloc (Z.of_nat n));
  if r =? 0 then mret None
  else m_set (cl_add_blocks 1);; mret (Some (atype :: replicate (n - 1) 0)).

Definition hev_socks5_client_udp_get_upstream_addr : M HevSocks5Client (option HevSocks5Addr) :=
  family ← m_get (λ c, s5_addr_family (cl_base c));
  match family with
  | HEV_SOCKS5_ADDR_FAMILY_IPV4 => addr_malloc0 7 HEV_SOCKS5_ADDR_TYPE_IPV4
  | HEV_SOCKS5_ADDR_FAMILY_IPV6 => addr_malloc0 19 HEV_SOCKS5_ADDR_TYPE_IPV6
  | HEV_SOCKS5_ADDR_FAMILY_UNSPEC => mret None
  end.

Definition get_upstream_addr : M HevSocks5Client (option HevSocks5Addr) :=
  klass ← m_get cl_class;
  match klass with
  | HevSocks5ClientTCP => hev_socks5_client_tcp_get_upstream_addr
  | HevSocks5ClientUDP => hev_socks5_client_udp_get_upstream_addr
  end.

Section client.
Context (T : timeouts) (inet_pton4 inet_pton6 : list Z → option (list Z))
  (getaddrinfo : list Z → HevSocks5AddrFamily → option (HevSocks5AddrFamily * list Z)).

(** A failed step closes the descriptor. *)
Definition close_fail {S} (fd : Z) : M S Z :=
  m_call (Sys_del_fd fd);; m_call (Sys_close fd);; mret (-1).

Definition hev_socks5_client_udp_set_upstream_addr (addr : HevSocks5Addr) : M HevSocks5Client Z :=
  type ← m_get (λ c, s5_type (cl_base c));
  match type with
  | HEV_SOCKS5_TYPE_UDP_IN_UDP =>
      family ← m_get (λ c, s5_addr_family (cl_base c));
      r ← m_opt (hev_socks5_addr_into_sockaddr6 inet_pton4 inet_pton6 getaddrinfo addr family);
      match r with
      | None => mret (-1)
      | Some (saddr, _) =>
          fd ← hev_socks5_socket SOCK_DGRAM;
          if fd <? 0 then mret (-1)
          else
            res ← m_call (Sys_binder fd saddr);
            if res <? 0 then close_fail fd
            else
              res ← m_call (Sys_connect fd saddr);
              if res <? 0 then close_fail fd
              else
                m_set (cl_set_base (s5_set_associated 1));;
                m_set (cl_set_fd fd);;
                mret 0
      end
  | _ => mret 0
  end.

Definition hev_socks5_client_tcp_set_upstream_addr (addr : HevSocks5Addr) : M HevSocks5Client Z := mret 0.

Definition set_upstream_addr (addr : HevSocks5Addr) : M HevSocks5Client Z :=
  klass ← m_get cl_class;
  match klass with
  | HevSocks5ClientTCP => hev_socks5_client_tcp_set_upstream_addr addr
  | HevSocks5ClientUDP => hev_socks5_client_udp_set_upstream_addr addr
  end.

(** *** Requests and responses *)

Definition type_cmd (type : HevSocks5Type) : option Z :=
  match type with
  | HEV_SOCKS5_TYPE_TCP => Some 1
  | HEV_SOCKS5_TYPE_UDP_IN_TCP => Some 5
  | HEV_SOCKS5_TYPE_UDP_IN_UDP => Some 3
  | HEV_SOCKS5_TYPE_NONE => None
  end.

Definition hev_socks5_client_write_request : M HevSocks5Client Z :=
  type ← m_get (λ c, s5_type (cl_base c));
  match type_cmd type with
  | None => mret (-1)
  | Some cmd =>
      addr ← get_upstream_addr;
      addr ← m_opt addr;                                 (* addr->atype *)
      addrlen ← m_opt (hev_socks5_addr_len addr);
      if addrlen <? 0 then mret (-1)
      else
        bytes ← m_opt (get_bytes addr 0 (Z.to_nat addrlen));
        ret ← m_send ([5; cmd; 0] ++ bytes);
        if negb ret then mret (-1)
        else m_set (cl_add_blocks (-1));; mret 0          (* hev_free (addr) *)
  end.

Definition hev_socks5_client_read_auth_method : M HevSocks5Client Z :=
  res ← m_recv 2;
  match res with
  | Some [ver; method] => if negb (ver =? 5) then mret (-1) else mret method
  | _ => mret (-1)
  end.

Definition hev_socks5_client_read_auth_creds : M HevSocks5Client Z :=
  res ← m_recv 2;
  match res with
  | Some [ver; rep] =>
      if negb (ver =? 1) then mret (-1)
      else if negb (rep =? 0) then mret (-1)
      else mret 0
  | _ => mret (-1)
  end.

Definition hev_socks5_client_read_response : M HevSocks5Client Z :=
  res ← m_recv 4;
  match res with
  | Some [ver; rep; rsv; atype] =>
      if negb (ver =? 5) then mret (-1)
      else if negb (rep =? 0) then mret (-1)
      else
        let read_addr (addrlen : Z) : M HevSocks5Client Z :=
          ret ← m_recv addrlen;
          match ret with
          | None => mret (-1)
          | Some bytes =>
              ret ← set_upstream_addr (atype :: bytes);
              if ret <? 0 then mret (-1) else mret 0
          end in
        if atype =? HEV_SOCKS5_ADDR_TYPE_IPV4 then read_addr 6
        else if atype =? HEV_SOCKS5_ADDR_TYPE_IPV6 then read_addr 18
        else mret (-1)
  | _ => mret (-1)
  end.

Definition hev_socks5_client_connect (addr : list Z) (port : Z) : M HevSocks5Client Z :=
  m_set (cl_set_base (hev_socks5_set_timeout (connect_timeout T)));;
  family ← m_get (λ c, s5_addr_family (cl_base c));
  match hev_socks5_name_into_sockaddr6 inet_pton4 inet_pton6 getaddrinfo addr port family with
  | None => mret (-1)
  | Some (saddr, family) =>
      fd ← hev_socks5_socket SOCK_STREAM;
      if fd <? 0 then mret (-1)
      else
        res ← m_call (Sys_binder fd saddr);
        if res <? 0 then close_fail fd
        else
          res ← m_call (Sys_connect fd saddr);
          if res <? 0 then close_fail fd
          else
            m_set (cl_set_base (s5_set_fd fd));;
            m_set (cl_set_base (hev_socks5_set_addr_family family));;
            mret 0
  end.

(** *** The handshake *)

Definition hev_socks5_client_handshake_standard : M HevSocks5Client Z :=
  res ← hev_socks5_client_write_auth_methods;
  if res <? 0 then mret (-1)
  else
    res ← hev_socks5_client_read_auth_method;
    if res <? 0 then mret (-1)
    else
      auth ← (if res =? 2 then
          res ← hev_socks5_client_write_auth_creds;
          if res <? 0 then mret (-1)
          else
            res ← hev_socks5_client_read_auth_creds;
            if res <? 0 then mret (-1) else mret 0
        else if negb (res =? 0) then mret (-1)
        else mret 0);
      if auth <? 0 then mret (-1)
      else
        res ← hev_socks5_client_write_request;
        if res <? 0 then mret (-1)
        else
          res ← hev_socks5_client_read_response;
          if res <? 0 then mret (-1) else mret 0.

Definition hev_socks5_client_handshake_pipeline : M HevSocks5Client Z :=
  res ← hev_socks5_client_write_auth_methods;
  if res <? 0 then mret (-1)
  else
    res ← hev_socks5_client_write_auth_creds;
    if res <? 0 then mret (-1)
    else
      res ← hev_socks5_client_write_request;
      if res <? 0 then mret (-1)
      else
        res ← hev_socks5_client_read_auth_method;
        if res <? 0 then mret (-1)
        else
          auth ← (if res =? 2 then
              res ← hev_socks5_client_read_auth_creds;
              if res <? 0 then mret (-1) else mret 0
            else if negb (res =? 0) then mret (-1)
            else mret 0);
          if auth <? 0 then mret (-1)
          else
            res ← hev_socks5_client_read_response;
            if res <? 0 then mret (-1) else mret 0.

Definition hev_socks5_client_handshake (pipeline : bool) : M HevSocks5Client Z :=
  m_set (cl_set_base (hev_socks5_set_timeout (tcp_timeout T)));;
  res ← (if pipeline then hev_socks5_client_handshake_pipeline
         else hev_socks5_client_handshake_standard);
  type ← m_get (λ c, s5_type (cl_base c));
  match type with
  | HEV_SOCKS5_TYPE_UDP_IN_TCP | HEV_SOCKS5_TYPE_UDP_IN_UDP =>
      m_set (cl_set_base (hev_socks5_set_timeout (udp_timeout T)));; mret res
  | _ => mret res
  end.

(** ** Construction and destruction *)

(** [hev_socks5_client_tcp_construct] on a zeroed object: a copy of the address
    is kept; [None] is a read outside the address. *)
Definition hev_socks5_client_tcp_construct (addr : HevSocks5Addr) (malloc_ok : bool) :
    option (Z * HevSocks5Client) :=
  let base := hev_socks5_construct HEV_SOCKS5_TYPE_TCP in
  res ← hev_socks5_addr_len addr;
  if negb malloc_ok then Some (-1, mk_client base None None HevSocks5ClientTCP None 0 0)
  else
    bytes ← (if res <? 0 then None else get_bytes addr 0 (Z.to_nat res));
    Some (0, mk_client base None None HevSocks5ClientTCP (Some bytes) 0 1).

Definition hev_socks5_client_udp_construct (type : HevSocks5Type) : HevSocks5Client :=
  mk_client (hev_socks5_construct type) None None HevSocks5ClientUDP None (-1) 0.

(** The end of the three functions that make a TCP client. *)
Definition tcp_new (addr : HevSocks5Addr) (addr_ok : bool) : option (option HevSocks5Client) :=
  '(res, c) ← hev_socks5_client_tcp_construct addr addr_ok;
  Some (if res <? 0 then None else Some c).

(** [hev_socks5_client_tcp_new_name] and the like: [mem] is the memory of the
    local variable [addr]; the inner [None] is NULL. *)
Definition hev_socks5_client_tcp_new_name (self_ok addr_ok : bool) (mem name : list Z) (port : Z) :
    option (option HevSocks5Client) :=
  if negb self_ok then Some None
  else '(_, addr) ← hev_socks5_addr_from_name mem name port; tcp_new addr addr_ok.

Definition hev_socks5_client_tcp_new_ipv4 (self_ok addr_ok : bool) (mem ipv4 : list Z) (port : Z) :
    option (option HevSocks5Client) :=
  if negb self_ok then Some None else tcp_new (hev_socks5_addr_from_ipv4 mem ipv4 port).2 addr_ok.

Definition hev_socks5_client_tcp_new_ipv6 (self_ok addr_ok : bool) (mem ipv6 : list Z) (port : Z) :
    option (option HevSocks5Client) :=
  if negb self_ok then Some None else tcp_new (hev_socks5_addr_from_ipv6 mem ipv6 port).2 addr_ok.

Definition hev_socks5_client_udp_new (self_ok : bool) (type : HevSocks5Type) : option HevSocks5Client :=
  if negb self_ok then None else Some (hev_socks5_client_udp_construct type).

Definition hev_socks5_client_udp_get_fd (c : HevSocks5Client) : Z :=
  match s5_type (cl_base c) with
  | HEV_SOCKS5_TYPE_UDP_IN_TCP => s5_fd (cl_base c)
  | HEV_SOCKS5_TYPE_UDP_IN_UDP => cl_fd c
  | _ => -1
  end.

(** [hev_socks5_destruct]: the connection is closed. *)
Definition hev_socks5_destruct : M HevSocks5Client unit :=
  fd ← m_get (λ c, s5_fd (cl_base c));
  if 0 <=? fd then m_call (Sys_del_fd fd);; m_call (Sys_close fd);; mret tt else mret tt.

Definition hev_socks5_client_tcp_destruct : M HevSocks5Client unit :=
  addr ← m_get cl_addr;
  match addr with Some _ => m_set (cl_add_blocks (-1)) | None => mret tt end;;
  hev_socks5_destruct.

Definition hev_socks5_client_udp_destruct : M HevSocks5Client unit :=
  fd ← m_get cl_fd;
  (if 0 <=? fd then m_call (Sys_del_fd fd);; m_call (Sys_close fd);; mret tt else mret tt);;
  hev_socks5_destruct.

(** The destructor of the class. *)
Definition hev_socks5_client_destruct : M HevSocks5Client unit :=
  klass ← m_get cl_class;
  match klass with
  | HevSocks5ClientTCP => hev_socks5_client_tcp_destruct
  | HevSocks5ClientUDP => hev_socks5_client_udp_destruct
  end.
End client.
