(* ===== verification/SocksServer.v ===== *)
(** * The SOCKS5 server (src/core/src/hev-socks5-server.c): the model

    The server reads the authentication methods, checks a user name and a
    password against the authenticator, reads the request, and answers it.  The
    field [obj] is a union: no object, the authenticator, or, after the
    authentication, the user.  The authenticator is the one of Authenticator.v;
    its own reference count is [sv_auth_ref]. *)

From S2P Require Import Prelude CString SocksAddr SocksIO SocksClient RBTree Authenticator.

Inductive server_obj := ObjNone | ObjAuth | ObjUser (user : Z).

Record HevSocks5Server := mk_server {
  sv_base : HevSocks5;
  sv_fds0 : Z;
  sv_fds1 : Z;
  sv_obj : server_obj;
  sv_auth : HevSocks5Authenticator;
  sv_auth_ref : Z;
}.

Definition sv_set_base (f : HevSocks5 → HevSocks5) (s : HevSocks5Server) : HevSocks5Server :=
  mk_server (f (sv_base s)) (sv_fds0 s) (sv_fds1 s) (sv_obj s) (sv_auth s) (sv_auth_ref s).
Definition sv_set_fds0 (fd : Z) (s : HevSocks5Server) : HevSocks5Server :=
  mk_server (sv_base s) fd (sv_fds1 s) (sv_obj s) (sv_auth s) (sv_auth_ref s).
Definition sv_set_fds1 (fd : Z) (s : HevSocks5Server) : HevSocks5Server :=
  mk_server (sv_base s) (sv_fds0 s) fd (sv_obj s) (sv_auth s) (sv_auth_ref s).
Definition sv_set_obj (o : server_obj) (s : HevSocks5Server) : HevSocks5Server :=
  mk_server (sv_base s) (sv_fds0 s) (sv_fds1 s) o (sv_auth s) (sv_auth_ref s).
Definition sv_set_auth (a : HevSocks5Authenticator) (s : HevSocks5Server) : HevSocks5Server :=
  mk_server (sv_base s) (sv_fds0 s) (sv_fds1 s) (sv_obj s) a (sv_auth_ref s).
Definition sv_set_auth_ref (n : Z) (s : HevSocks5Server) : HevSocks5Server :=
  mk_server (sv_base s) (sv_fds0 s) (sv_fds1 s) (sv_obj s) (sv_auth s) n.

Definition in_auth {A} (c : stm HevSocks5Authenticator A) : M HevSocks5Server A :=
  m_stm (zoom sv_auth sv_set_auth c).

(** [hev_object_ref] of a user. *)
Definition user_ref (a : Z) : stm HevSocks5Authenticator unit :=
  u ← user_load a;
  modify (λ s, set_au_users (<[a := mk_user (u_ref u + 1) (u_name u) (u_pass u)
    (u_name_len u) (u_pass_len u)]> (au_users s)) s).

Definition hev_socks5_server_construct (fd : Z) (auth : HevSocks5Authenticator) (auth_ref : Z) : HevSocks5Server :=
  mk_server (s5_set_fd fd (hev_socks5_construct HEV_SOCKS5_TYPE_NONE)) (-1) (-1) ObjNone auth auth_ref.

(** [hev_socks5_server_set_auth] on a server without an object. *)
Definition hev_socks5_server_set_auth (s : HevSocks5Server) : HevSocks5Server :=
  sv_set_obj ObjAuth (sv_set_auth_ref (sv_auth_ref s + 1) s).

(** [self->auth], as a truth value. *)
Definition sv_has_auth (s : HevSocks5Server) : bool :=
  match sv_obj s with ObjNone => false | _ => true end.

Definition hev_socks5_server_read_auth_method : M HevSocks5Server Z :=
  res ← m_recv 2;
  match res with
  | Some [ver; method_len] =>
      if negb (ver =? 5) then mret (-1)
      else
        res ← m_recv method_len;
        match res with
        | None => mret (-1)
        | Some methods =>
            auth ← m_get sv_has_auth;
            let method := if auth : bool then 2 else 0 in
            mret (if bool_decide (method ∈ methods) then method else -1)
        end
  | _ => mret (-1)
  end.

Definition hev_socks5_server_write_auth_method (auth_method : Z) : M HevSocks5Server Z :=
  res ← m_send [5; u8 auth_method];
  if res : bool then mret 0 else mret (-1).

Definition hev_socks5_server_read_auth_user : M HevSocks5Server Z :=
  res ← m_recv 2;
  match res with
  | Some [ver; nlen] =>
      if negb (ver =? 1) then mret (-1)
      else if nlen =? 0 then mret (-1)
      else
        res ← m_recv (nlen + 1);
        match res with
        | None => mret (-1)
        | Some name =>
            plen ← m_opt (name !! Z.to_nat nlen);
            if plen =? 0 then mret (-1)
            else
              res ← m_recv plen;
              match res with
              | None => mret (-1)
              | Some pass =>
                  user ← in_auth (hev_socks5_authenticator_get (take (Z.to_nat nlen) name) nlen);
                  if user =? 0 then mret (-1)
                  else
                    u ← in_auth (user_load user);
                    if hev_socks5_user_check u pass plen <? 0 then mret (-1)
                    else
                      in_auth (user_ref user);;
                      ref ← m_get sv_auth_ref;
                      m_set (sv_set_auth_ref (ref - 1));;
                      m_set (sv_set_obj (ObjUser user));;
                      mret 0
              end
        end
  | _ => mret (-1)
  end.

Definition hev_socks5_server_write_auth_user (auth_res : Z) : M HevSocks5Server Z :=
  res ← m_send [1; u8 auth_res];
  if res : bool then mret 0 else mret (-1).

Definition hev_socks5_server_auth : M HevSocks5Server Z :=
  method ← hev_socks5_server_read_auth_method;
  res ← hev_socks5_server_write_auth_method method;
  if res <? 0 then mret (-1)
  else if method =? 0 then mret 0
  else if method =? 2 then
    res ← hev_socks5_server_read_auth_user;
    res' ← hev_socks5_server_write_auth_user res;
    if Z.lor res res' <? 0 then mret (-1) else mret 0
  else mret (-1).

Section server.
Context (T : timeouts) (inet_pton4 inet_pton6 : list Z → option (list Z))
  (getaddrinfo : list Z → HevSocks5AddrFamily → option (HevSocks5AddrFamily * list Z)).

(** The outcome of reading a request: -1, a failure to report with [rep], or the
    command and the address. *)
Inductive request := ReqFail | ReqRep (rep : Z) | ReqCmd (cmd : Z) (addr : sockaddr_in6).

Definition hev_socks5_server_read_request : M HevSocks5Server request :=
  res ← m_recv 5;
  match res with
  | Some [ver; cmd; rsv; atype; b] =>
      if negb (ver =? 5) then mret (ReqRep 1)
      else
        let read_addr (addrlen : Z) : M HevSocks5Server request :=
          res ← m_recv addrlen;
          match res with
          | None => mret (ReqRep 8)
          | Some bytes =>
              family ← m_get (λ s, s5_addr_family (sv_base s));
              r ← m_opt (hev_socks5_addr_into_sockaddr6 inet_pton4 inet_pton6 getaddrinfo
                     (atype :: b :: bytes) family);
              match r with
              | None => mret (ReqRep 8)
              | Some (addr, family) =>
                  m_set (sv_set_base (hev_socks5_set_addr_family family));;
                  mret (ReqCmd cmd addr)
              end
          end in
        if atype =? HEV_SOCKS5_ADDR_TYPE_IPV4 then read_addr 5
        else if atype =? HEV_SOCKS5_ADDR_TYPE_IPV6 then read_addr 17
        else if atype =? HEV_SOCKS5_ADDR_TYPE_NAME then read_addr (2 + b)
        else mret (ReqRep 8)
  | _ => mret ReqFail
  end.

(** The response with an address; the memory of the response is on the stack,
    and only the bytes written are sent. *)
Definition hev_socks5_server_write_response (rep : Z) (addr : sockaddr_in6) : M HevSocks5Server Z :=
  let '(len, bytes) := hev_socks5_addr_from_sockaddr6 (replicate sizeof_addr 0) addr in
  ret ← m_send ([5; u8 rep; 0] ++ take (Z.to_nat len) bytes);
  if ret : bool then mret 0 else mret (-1).

Definition hev_socks5_server_connect (addr : sockaddr_in6) : M HevSocks5Server Z :=
  fd ← hev_socks5_socket SOCK_STREAM;
  if fd <? 0 then mret (-1)
  else
    res ← m_call (Sys_binder fd addr);
    if res <? 0 then close_fail fd
    else
      m_set (sv_set_base (hev_socks5_set_timeout (connect_timeout T)));;
      res ← m_call (Sys_connect fd addr);
      if res <? 0 then close_fail fd
      else
        m_set (sv_set_base (hev_socks5_set_timeout (tcp_timeout T)));;
        m_set (sv_set_fds0 fd);;
        mret 0.

(** [hev_socks5_server_udp_bind], the method [binder] of the server class: the
    result and the address the socket is bound to. *)
Definition hev_socks5_server_udp_bind (sock : Z) : M HevSocks5Server (Z * option sockaddr_in6) :=
  self ← m_get (λ s, s5_fd (sv_base s));
  r ← m_getsockname self;
  if r.1 <? 0 then mret (-1, None)
  else
    let src := mk_sin6 0 (sin6_addr r.2) in
    res ← m_call (Sys_bind sock src);
    if res <? 0 then mret (-1, Some src)
    else
      r ← m_getsockname sock;
      if r.1 <? 0 then mret (-1, Some src)
      else mret (0, Some r.2).

(** [hev_socks5_server_bind]: [udp] is whether the address pointer is given; the
    address after the call. *)
Definition hev_socks5_server_bind (udp : bool) (addr : sockaddr_in6) : M HevSocks5Server (Z * sockaddr_in6) :=
  fd ← hev_socks5_socket SOCK_DGRAM;
  if fd <? 0 then mret (-1, addr)
  else
    m_set (sv_set_fds0 fd);;
    if negb udp then mret (0, addr)
    else
      fd ← hev_socks5_socket SOCK_DGRAM;
      if fd <? 0 then mret (-1, addr)
      else
        res ← m_call (Sys_setsockopt fd SO_REUSEADDR);
        if res <? 0 then res ← close_fail fd; mret (res, addr)
        else
          r ← hev_socks5_server_udp_bind fd;
          let addr := default addr r.2 in
          if r.1 <? 0 then res ← close_fail fd; mret (res, addr)
          else m_set (sv_set_fds1 fd);; mret (0, addr).

(** The part of [hev_socks5_server_handshake] after the authentication;
    [garbage] is what the stack holds in [addr] before it is written. *)
Definition hev_socks5_server_handshake_request (garbage : sockaddr_in6) : M HevSocks5Server Z :=
  req ← hev_socks5_server_read_request;
  match req with
  | ReqFail => mret (-1)
  | ReqRep rep =>
      res ← hev_socks5_server_write_response rep garbage;
      mret (-1)
  | ReqCmd cmd addr =>
      ra ← (if cmd =? 1 then
          res ← hev_socks5_server_connect addr;
          m_set (sv_set_base (s5_set_type HEV_SOCKS5_TYPE_TCP));;
          mret (if res <? 0 then 4 else 0, addr)
        else if cmd =? 3 then
          r ← hev_socks5_server_bind true addr;
          m_set (sv_set_base (s5_set_type HEV_SOCKS5_TYPE_UDP_IN_UDP));;
          mret (if r.1 <? 0 then 1 else 0, r.2)
        else if cmd =? 5 then
          r ← hev_socks5_server_bind false addr;
          m_set (sv_set_base (s5_set_type HEV_SOCKS5_TYPE_UDP_IN_TCP));;
          mret (if r.1 <? 0 then 1 else 0, addr)
        else mret (7, addr));
      let '(rep, addr) := ra : Z * sockaddr_in6 in
      res ← hev_socks5_server_write_response rep addr;
      if (res <? 0) || negb (rep =? 0) then mret (-1) else mret 0
  end.

Definition hev_socks5_server_handshake (garbage : sockaddr_in6) : M HevSocks5Server Z :=
  m_set (sv_set_base (hev_socks5_set_timeout (tcp_timeout T)));;
  res ← hev_socks5_server_auth;
  if res <? 0 then mret (-1)
  else hev_socks5_server_handshake_request garbage.

(** What the server does after the handshake. *)
Inductive service := TcpSplice (fd : Z) | UdpSplice (fd : Z).

Definition hev_socks5_server_service : M HevSocks5Server (option service) :=
  type ← m_get (λ s, s5_type (sv_base s));
  fd ← m_get sv_fds0;
  match type with
  | HEV_SOCKS5_TYPE_TCP => mret (Some (TcpSplice fd))
  | HEV_SOCKS5_TYPE_UDP_IN_UDP | HEV_SOCKS5_TYPE_UDP_IN_TCP =>
      m_set (sv_set_base (hev_socks5_set_timeout (udp_timeout T)));;
      mret (Some (UdpSplice fd))
  | HEV_SOCKS5_TYPE_NONE => mret None
  end.

(** The splice that the run ends with, or [None] for the result -1. *)
Definition hev_socks5_server_run (garbage : sockaddr_in6) : M HevSocks5Server (option service) :=
  fd ← m_get (λ s, s5_fd (sv_base s));
  res ← m_call (Sys_add_fd fd);
  (if res <? 0 then _ ← m_call (Sys_mod_fd fd); mret tt else mret tt);;
  res ← hev_socks5_server_handshake garbage;
  if res <? 0 then mret None
  else hev_socks5_server_service.

Definition hev_socks5_server_get_fd (s : HevSocks5Server) : Z :=
  match s5_type (sv_base s) with
  | HEV_SOCKS5_TYPE_UDP_IN_TCP => s5_fd (sv_base s)
  | HEV_SOCKS5_TYPE_UDP_IN_UDP => sv_fds1 s
  | _ => -1
  end.

(** [if (fd >= 0) ...]: a descriptor is removed from the task and closed. *)
Definition close_nonneg (fd : Z) : M HevSocks5Server unit :=
  if 0 <=? fd then m_call (Sys_del_fd fd);; m_call (Sys_close fd);; mret tt else mret tt.

(** The destructor of the server and of its base. *)
Definition hev_socks5_server_destruct : M HevSocks5Server unit :=
  fd0 ← m_get sv_fds0; close_nonneg fd0;;
  fd1 ← m_get sv_fds1; close_nonneg fd1;;
  obj ← m_get sv_obj;
  match obj with
  | ObjNone => mret tt
  | ObjAuth => ref ← m_get sv_auth_ref; m_set (sv_set_auth_ref (ref - 1))
  | ObjUser user => in_auth (user_unref user)
  end;;
  fd ← m_get (λ s, s5_fd (sv_base s));
  close_nonneg fd.
End server.
