(* ===== verification/SocksSegments.v ===== *)
(** * The SOCKS5 handshake, step by step

    What each function of the client and of the server does when its input is
    there: the bytes it takes, the bytes it sends, its result and the object
    after it.  The server's use of the authenticator is through the interface
    [CredStore]. *)

From S2P Require Import Prelude CString MappedDNSPacket MappedDNSAnswer SocksAddr SocksAddrProps SocksIO SocksClient RBTree RBTreeRep RBTreeIter AuthenticatorMap Authenticator AuthenticatorProps SocksServer.

(** ** The authenticator as the server sees it

    The store holds the passwords [C] of the users: a search gives a user that
    accepts exactly the password of the name, or NULL. *)
Class CredStore (s : HevSocks5Authenticator) (C : gmap (list Z) (list Z)) : Prop := {
  cs_none name : C !! name = None →
    hev_socks5_authenticator_get name (Z.of_nat (length name)) s = Some (0, s);
  cs_some name pass : C !! name = Some pass →
    ∃ a u, a ≠ 0 ∧ hev_socks5_authenticator_get name (Z.of_nat (length name)) s = Some (a, s) ∧
      au_users s !! a = Some u ∧
      ∀ p, hev_socks5_user_check u p (Z.of_nat (length p)) = if decide (p = pass) then 0 else -1;
}.

Lemma user_check_spec u p : user_ok u →
  hev_socks5_user_check u p (Z.of_nat (length p)) = if decide (p = u_pass u) then 0 else -1.
Proof.
  intros [_ Hl]. unfold hev_socks5_user_check, hev_socks5_user_checker. rewrite Hl, Nat2Z.id.
  destruct (Z.eqb_spec (Z.of_nat (length (u_pass u))) (Z.of_nat (length p))) as [He|He]; simpl.
  - replace (length p) with (length (u_pass u)) by lia.
    destruct (Z.eqb_spec (memcmp (u_pass u) p (length (u_pass u))) 0) as [H|H]; simpl;
      rewrite memcmp_eq in H by lia; [by rewrite decide_True|rewrite decide_False; congruence].
  - rewrite decide_False; [done|]. by intros ->.
Qed.

(** The passwords of the users of the map. *)
Definition passwords (s : HevSocks5Authenticator) (M : gmap (list Z) Z) : gmap (list Z) (list Z) :=
  (λ a, match au_users s !! a with Some u => u_pass u | None => [] end) <$> M.

#[global] Instance auth_rep_store s M : auth_rep s M → CredStore s (passwords s M).
Proof.
  intros (ys & F & U & H & ->). split.
  - intros name Hn. unfold passwords in Hn. rewrite lookup_fmap, fmap_None in Hn.
    destruct (wp_run _ _ _ (wp_auth_get _ _ _ _ H name)) as (r & s' & -> & -> & ->). by rewrite Hn.
  - intros name pass Hn. unfold passwords in Hn. rewrite lookup_fmap in Hn.
    apply fmap_Some in Hn as (a & Ha & ->).
    destruct (wp_run _ _ _ (wp_auth_get _ _ _ _ H name)) as (r & s' & -> & -> & ->). rewrite Ha. simpl.
    apply auth_map_lookup in Ha as [Ha _]; [|apply (ai_desc _ _ _ _ H)].
    destruct (auth_is_user _ _ _ _ (a + node_off) H) as (i & u & Hi & Hu & Huo & _); [set_solver|].
    replace (a + node_off - node_off) with a in * by lia.
    exists a, u. split_and!; [|done|done|].
    + destruct (ai_users _ _ _ _ H) as (_ & Hp & _). rewrite Forall_forall in Hp.
      apply is_ptr_nonzero, Hp. apply list_elem_of_fmap. exists (a, u). split; [done|].
      by eapply list_elem_of_lookup_2.
    + intros p. rewrite Hu. by apply user_check_spec.
Qed.

(** ** Messages *)

(** What is sent of a string: its first [strlen mod 256] bytes. *)
Definition sent (x : list Z) : list Z := take (Z.to_nat (u8 (Z.of_nat (length x)))) x.
Definition blen (x : list Z) : Z := u8 (Z.of_nat (length x)).

Lemma length_sent x : Z.of_nat (length (sent x)) = blen x.
Proof.
  unfold sent, blen, u8. rewrite length_take. change (2 ^ 8) with 256.
  pose proof (Z.mod_pos_bound (Z.of_nat (length x)) 256 ltac:(lia)).
  pose proof (Z.mod_le (Z.of_nat (length x)) 256 ltac:(lia) ltac:(lia)). lia.
Qed.

Definition creds_msg (user pass : list Z) : list Z :=
  [1; blen user] ++ sent user ++ [blen pass] ++ sent pass.

(** The server's decision on the credentials it reads. *)
Definition creds_ok (C : gmap (list Z) (list Z)) (user pass : list Z) : bool :=
  bool_decide (sent user ≠ [] ∧ sent pass ≠ [] ∧ C !! sent user = Some (sent pass)).

(** The address a destination stands for. *)
Definition resolve (p4 p6 : list Z → option (list Z))
    (gai : list Z → HevSocks5AddrFamily → option (HevSocks5AddrFamily * list Z))
    (d : dest) (fam : HevSocks5AddrFamily) : option (sockaddr_in6 * HevSocks5AddrFamily) :=
  match d with
  | D4 a p => Some (mk_sin6 (htons p) (v4_prefix ++ a), HEV_SOCKS5_ADDR_FAMILY_IPV4)
  | D6 a p => Some (mk_sin6 (htons p) a, HEV_SOCKS5_ADDR_FAMILY_IPV6)
  | DName n p => hev_socks5_name_into_sockaddr6 p4 p6 gai n p fam
  end.

Lemma into_sockaddr6_resolve p4 p6 gai d fam : dest_ok d →
  hev_socks5_addr_into_sockaddr6 p4 p6 gai (enc_dest d) fam = Some (resolve p4 p6 gai d fam).
Proof.
  intros Hd. rewrite <-(app_nil_r (enc_dest d)).
  destruct d; [by rewrite into_sockaddr6_4|by rewrite into_sockaddr6_6|by rewrite into_sockaddr6_name].
Qed.

(** The name services give addresses of the right length. *)
Class Resolver (p4 p6 : list Z → option (list Z))
    (gai : list Z → HevSocks5AddrFamily → option (HevSocks5AddrFamily * list Z)) : Prop := {
  rs_p4 n a : p4 n = Some a → length a = 4%nat;
  rs_p6 n a : p6 n = Some a → length a = 16%nat;
  rs_gai n f f' a : gai n f = Some (f', a) →
    match f' with
    | HEV_SOCKS5_ADDR_FAMILY_IPV4 => length a = 4%nat
    | HEV_SOCKS5_ADDR_FAMILY_IPV6 => length a = 16%nat
    | HEV_SOCKS5_ADDR_FAMILY_UNSPEC => True
    end;
}.

Lemma resolve_sane p4 p6 gai `{!Resolver p4 p6 gai} d fam sa fam' :
  dest_ok d → resolve p4 p6 gai d fam = Some (sa, fam') →
  ∃ p, is_u16 p ∧ sin6_port sa = htons p ∧ length (sin6_addr sa) = 16%nat.
Proof.
  intros [Hp Hd] H. exists (dest_port d). split; [done|].
  destruct d as [a p|a p|n p]; cbn [resolve dest_port] in *; simplify_eq; cbn [sin6_port sin6_addr].
  - split; [done|]. destruct Hd as [Hl _]. by rewrite !length_app, Hl.
  - by destruct Hd.
  - unfold hev_socks5_name_into_sockaddr6, hev_socks5_name_resolve_ipv4, hev_socks5_name_resolve_ipv6,
      hev_socks5_name_resolve_name in H.
    destruct (p4 n) as [a|] eqn:H4; cbn [mbind option_bind] in H; simplify_eq; cbn [sin6_port sin6_addr].
    { split; [done|]. by rewrite !length_app, (rs_p4 _ _ H4). }
    destruct (p6 n) as [a|] eqn:H6; simplify_eq; cbn [sin6_port sin6_addr].
    { split; [done|]. by apply (rs_p6 _ _ H6). }
    destruct (gai n fam) as [[[] a]|] eqn:Hg; simplify_eq; cbn [sin6_port sin6_addr]; (split; [done|]);
      pose proof (rs_gai _ _ _ _ Hg) as Hl; simpl in Hl.
    + by rewrite !length_app, length_take, Hl.
    + by rewrite length_take, Hl.
Qed.

(** ** Sockets *)

Section sockets.
Context {S : Type} (env : trace → syscall → reply) (tr : trace).

(** A new socket is open, or none is left. *)
Lemma exec_socket type (s : S) x y :
  ∃ fd tr', exec env (hev_socks5_socket type s) tr x y = Some ((fd, s), tr ++ tr', x, y) ∧
    ((fd = -1 ∧ (∀ fd a r, last tr' ≠ Some (Sys_connect fd a, r)) ∧ ∀ fds, open_fds fds tr' ⊆ fds) ∨
     (0 ≤ fd ∧ ∀ fds, open_fds fds tr' = {[fd]} ∪ fds)).
Proof.
  unfold hev_socks5_socket. erewrite exec_M_bind by reflexivity.
  case_match eqn:H0.
  { eexists _, _. split; [reflexivity|]. left. split_and!; [done|done|intros fds].
    unfold open_fds, fd_effect. simpl. by rewrite (proj2 (Z.leb_gt _ _)) by lia. }
  apply Z.ltb_ge in H0. set (fd := (env tr (Sys_socket type)).1) in *.
  erewrite exec_M_bind by reflexivity. case_match.
  { erewrite exec_M_bind by reflexivity. rewrite <-!(assoc_L (++)). eexists _, _. split; [reflexivity|].
    left. split_and!; [done|done|intros fds].
    unfold open_fds, fd_effect. simpl. fold fd. rewrite (proj2 (Z.leb_le _ _)) by lia. set_solver. }
  erewrite exec_M_bind by reflexivity.
  assert (∀ fds, open_fds fds [(Sys_socket type, env tr (Sys_socket type))] = {[fd]} ∪ fds) as Ho.
  { intros fds. unfold open_fds, fd_effect. simpl. fold fd. by rewrite (proj2 (Z.leb_le _ _)) by lia. }
  destruct ((env _ (Sys_add_fd fd)).1 <? 0); erewrite exec_M_bind by reflexivity;
    destruct (type =? SOCK_DGRAM); erewrite exec_M_bind by reflexivity;
    rewrite <-!(assoc_L (++)); eexists _, _; (split; [reflexivity|]); right; (split; [done|]); intros fds;
    rewrite !open_fds_app, Ho; reflexivity.
Qed.

Lemma exec_close_fail fd (s : S) x y :
  exec env (close_fail fd s) tr x y =
    Some ((-1, s), tr ++ [(Sys_del_fd fd, env tr (Sys_del_fd fd));
      (Sys_close fd, env (tr ++ [(Sys_del_fd fd, env tr (Sys_del_fd fd))]) (Sys_close fd))], x, y).
Proof. unfold close_fail, mbind, M_bind, m_call. simpl. by rewrite <-(assoc_L (++)). Qed.
End sockets.

(** ** The client *)

Section client.
Context (env : trace → syscall → reply) (tr : trace) (T : timeouts)
  (p4 p6 : list Z → option (list Z)) (gai : list Z → HevSocks5AddrFamily → option (HevSocks5AddrFamily * list Z)).

Definition wanted_method (c : HevSocks5Client) : Z := if has_auth c then 2 else 0.

Lemma exec_write_methods c x y :
  exec env (hev_socks5_client_write_auth_methods c) tr y x =
    Some ((0, c), tr, y, x ++ [5; 1; wanted_method c]).
Proof. reflexivity. Qed.

Lemma exec_write_creds c u p x y :
  cl_user c = Some u → cl_pass c = Some p →
  exec env (hev_socks5_client_write_auth_creds c) tr y x = Some ((0, c), tr, y, x ++ creds_msg u p).
Proof.
  intros Hu Hp. unfold hev_socks5_client_write_auth_creds, mbind, M_bind, m_get. simpl.
  by rewrite Hu, Hp.
Qed.

Lemma exec_write_creds_none c x y :
  has_auth c = false → exec env (hev_socks5_client_write_auth_creds c) tr y x = Some ((0, c), tr, y, x).
Proof.
  unfold has_auth, hev_socks5_client_write_auth_creds, mbind, M_bind, m_get. simpl.
  by destruct (cl_user c), (cl_pass c).
Qed.

Lemma exec_read_method c m x y :
  exec env (hev_socks5_client_read_auth_method c) tr ([5; m] ++ y) x = Some ((m, c), tr, y, x).
Proof.
  unfold hev_socks5_client_read_auth_method, mbind, M_bind, m_recv. cbn [io_bind fst snd].
  by rewrite exec_recv.
Qed.

Lemma exec_read_creds c r x y :
  exec env (hev_socks5_client_read_auth_creds c) tr ([1; r] ++ y) x =
    Some ((if r =? 0 then 0 else -1, c), tr, y, x).
Proof.
  unfold hev_socks5_client_read_auth_creds, mbind, M_bind, m_recv. cbn [io_bind fst snd].
  rewrite exec_recv by done. simpl. by destruct (r =? 0).
Qed.

(** The client after it has sent its request. *)
Definition requested (c : HevSocks5Client) : HevSocks5Client := cl_add_blocks (-1) (cl_set_addr None c).

Lemma get_bytes_all b n : n = length b → get_bytes b 0 n = Some b.
Proof. intros ->. unfold get_bytes. rewrite decide_True by lia. by rewrite drop_0, firstn_all. Qed.

Lemma exec_write_request c d x y :
  cl_class c = HevSocks5ClientTCP → s5_type (cl_base c) = HEV_SOCKS5_TYPE_TCP →
  cl_addr c = Some (enc_dest d) → dest_ok d →
  exec env (hev_socks5_client_write_request c) tr y x =
    Some ((0, requested c), tr, y, x ++ [5; 1; 0] ++ enc_dest d).
Proof.
  intros Hc Ht Ha Hd. pose proof (addr_len_enc d [] Hd) as Hl. rewrite app_nil_r in Hl.
  unfold hev_socks5_client_write_request, mbind, M_bind, m_get. cbn [io_bind fst snd]. rewrite Ht. cbn [type_cmd].
  unfold get_upstream_addr, mbind, M_bind, m_get. cbn [io_bind fst snd]. rewrite Hc.
  unfold hev_socks5_client_tcp_get_upstream_addr, mbind, M_bind, m_get, m_set, mret, M_ret. cbn [io_bind fst snd].
  rewrite Ha. cbn [m_opt]. unfold mret, M_ret. cbn [io_bind fst snd]. rewrite Hl. cbn [m_opt].
  unfold mret, M_ret. cbn [io_bind fst snd]. destruct (Z.ltb_spec (Z.of_nat (length (enc_dest d))) 0); [lia|].
  rewrite get_bytes_all by lia. reflexivity.
Qed.

(** A successful response with an IPv4 or IPv6 address. *)
Definition is_ip (d : dest) : Prop :=
  match d with
  | D4 a _ => length a = 4%nat
  | D6 a _ => length a = 16%nat
  | DName _ _ => False
  end.

Lemma exec_read_response c d x y :
  cl_class c = HevSocks5ClientTCP → is_ip d →
  exec env (hev_socks5_client_read_response p4 p6 gai c) tr ([5; 0; 0] ++ enc_dest d ++ y) x = Some ((0, c), tr, y, x).
Proof.
  intros Hc Hd. unfold hev_socks5_client_read_response.
  destruct d as [a p|a p|n p]; simpl in Hd; [| |done].
  - change ([5; 0; 0] ++ enc_dest (D4 a p) ++ y) with ([5; 0; 0; 1] ++ (a ++ be16 p) ++ y).
    rewrite exec_m_recv by done. cbn -[exec mbind].
    rewrite exec_m_recv by (rewrite length_app, Hd; done).
    unfold set_upstream_addr, mbind, M_bind, m_get. cbn -[exec]. by rewrite Hc.
  - change ([5; 0; 0] ++ enc_dest (D6 a p) ++ y) with ([5; 0; 0; 4] ++ (a ++ be16 p) ++ y).
    rewrite exec_m_recv by done. cbn -[exec mbind].
    rewrite exec_m_recv by (rewrite length_app, Hd; done).
    unfold set_upstream_addr, mbind, M_bind, m_get. cbn -[exec]. by rewrite Hc.
Qed.

Lemma exec_read_response_fail c rep a x y :
  rep ≠ 0 →
  exec env (hev_socks5_client_read_response p4 p6 gai c) tr ([5; rep; 0; a] ++ y) x = Some ((-1, c), tr, y, x).
Proof.
  intros Hr%Z.eqb_neq. unfold hev_socks5_client_read_response, mbind, M_bind, m_recv. cbn [io_bind fst snd].
  rewrite exec_recv by done. cbn -[exec]. by rewrite Hr.
Qed.
End client.

(** ** The server *)

Section server.
Context (env : trace → syscall → reply) (tr : trace).

Definition server_method (s : HevSocks5Server) : Z := if sv_has_auth s then 2 else 0.

Lemma exec_server_read_method s m x y :
  exec env (hev_socks5_server_read_auth_method s) tr ([5; 1; m] ++ x) y =
    Some ((if m =? server_method s then m else -1, s), tr, x, y).
Proof.
  unfold hev_socks5_server_read_auth_method, mbind, M_bind, m_recv. cbn [io_bind fst snd].
  change ([5; 1; m] ++ x) with ([5; 1] ++ [m] ++ x). rewrite exec_recv by done. cbn -[exec].
  change (m :: x) with ([m] ++ x). rewrite exec_recv by done. cbn -[exec].
  change (if sv_has_auth s then 2 else 0) with (server_method s).
  destruct (Z.eqb_spec m (server_method s)) as [->|Hm].
  - rewrite bool_decide_eq_true_2 by set_solver. done.
  - rewrite bool_decide_eq_false_2 by set_solver. done.
Qed.

Lemma exec_server_write_method s m x y :
  exec env (hev_socks5_server_write_auth_method m s) tr x y = Some ((0, s), tr, x, y ++ [5; u8 m]).
Proof. reflexivity. Qed.

Lemma exec_server_write_user s r x y :
  exec env (hev_socks5_server_write_auth_user r s) tr x y = Some ((0, s), tr, x, y ++ [1; u8 r]).
Proof. reflexivity. Qed.

(** The server after it has taken the user at [a]. *)
Definition authenticated (s s' : HevSocks5Server) : Prop :=
  ∃ a u, a ≠ 0 ∧ au_users (sv_auth s) !! a = Some u ∧
    s' = sv_set_obj (ObjUser a) (sv_set_auth_ref (sv_auth_ref s - 1) (sv_set_auth
      (set_au_users (<[a := mk_user (u_ref u + 1) (u_name u) (u_pass u) (u_name_len u) (u_pass_len u)]>
         (au_users (sv_auth s))) (sv_auth s)) s)).

Lemma authenticated_base s s' : authenticated s s' →
  sv_base s' = sv_base s ∧ sv_fds0 s' = sv_fds0 s ∧ sv_fds1 s' = sv_fds1 s.
Proof. by intros (a & u & _ & _ & ->). Qed.

Lemma in_auth_run {A} (c : stm HevSocks5Authenticator A) s a s' x y :
  c (sv_auth s) = Some (a, s') →
  exec env (in_auth c s) tr x y = Some ((a, sv_set_auth s' s), tr, x, y).
Proof. intros H. unfold in_auth, m_stm, zoom. by rewrite H. Qed.

Lemma sv_set_auth_id s : sv_set_auth (sv_auth s) s = s.
Proof. by destruct s. Qed.

Lemma exec_server_read_user s C u p x y :
  CredStore (sv_auth s) C →
  ∃ s' x', exec env (hev_socks5_server_read_auth_user s) tr (creds_msg u p ++ x) y =
      Some ((if creds_ok C u p then 0 else -1, s'), tr, x', y) ∧
    if creds_ok C u p then authenticated s s' ∧ x' = x else s' = s.
Proof.
  intros HC. unfold creds_ok. pose proof (length_sent u) as Hu. pose proof (length_sent p) as Hp.
  unfold hev_socks5_server_read_auth_user.
  replace (creds_msg u p ++ x) with ([1; blen u] ++ (sent u ++ [blen p]) ++ sent p ++ x)
    by (unfold creds_msg; by rewrite <-!app_assoc).
  rewrite exec_m_recv by done. cbn -[exec mret mbind]. destruct (Z.eqb_spec (blen u) 0) as [H0|H0].
  { rewrite bool_decide_eq_false_2; [by eexists _, _|]. intros [Hn _]. destruct (sent u); simpl in *; [done|lia]. }
  rewrite exec_m_recv by (rewrite length_app; simpl; lia).
  rewrite list_lookup_middle by lia. erewrite exec_M_bind by reflexivity.
  destruct (Z.eqb_spec (blen p) 0) as [H1|H1].
  { rewrite bool_decide_eq_false_2; [by eexists _, _|]. intros (_ & Hn & _). destruct (sent p); simpl in *; [done|lia]. }
  rewrite exec_m_recv by lia.
  rewrite take_app_length' by lia. rewrite <-Hu, <-Hp.
  destruct (C !! sent u) as [pass|] eqn:HCu.
  - destruct (cs_some _ _ HCu) as (a & usr & Ha & Hget & Hl & Hck).
    erewrite exec_M_bind; [|by apply in_auth_run].
    rewrite sv_set_auth_id, (proj2 (Z.eqb_neq a 0) Ha).
    erewrite exec_M_bind; [|apply in_auth_run; unfold user_load; by rewrite Hl].
    rewrite sv_set_auth_id, Hck. case_decide as Hpass; simpl.
    + rewrite bool_decide_eq_true_2; [|split_and!; [intros He; rewrite He in Hu; simpl in Hu; lia|
        intros He; rewrite He in Hp; simpl in Hp; lia|by rewrite Hpass]].
      erewrite exec_M_bind; [|apply in_auth_run; unfold user_ref, mbind, stm_bind, user_load, modify; by rewrite Hl].
      eexists _, _. split; [reflexivity|]. split; [|done]. by exists a, usr.
    + rewrite bool_decide_eq_false_2; [by eexists _, _|]. intros (_ & _ & He). simplify_eq.
  - erewrite exec_M_bind; [|apply in_auth_run; by apply cs_none].
    rewrite sv_set_auth_id. simpl.
    rewrite bool_decide_eq_false_2; [by eexists _, _|]. by intros (_ & _ & ?).
Qed.

(** A connection to [sa]: it succeeds, the last call being a successful
    [connect] of the descriptor that the server keeps and that is open; or it
    fails, and leaves no descriptor open and the server's fields as they were. *)
Lemma exec_server_connect T s sa x y :
  ∃ res s' tr', exec env (hev_socks5_server_connect T sa s) tr x y = Some ((res, s'), tr ++ tr', x, y) ∧
    ((res = 0 ∧ ∃ fd r, last tr' = Some (Sys_connect fd sa, r) ∧ 0 ≤ r.1 ∧ 0 ≤ fd ∧
        s' = sv_set_fds0 fd (sv_set_base (hev_socks5_set_timeout (tcp_timeout T)) s) ∧
        ∀ fds, open_fds fds tr' = {[fd]} ∪ fds) ∨
     (res = -1 ∧ (∀ fd r, last tr' ≠ Some (Sys_connect fd sa, r)) ∧
        sv_fds0 s' = sv_fds0 s ∧ ∀ fds, open_fds fds tr' ⊆ fds)).
Proof.
  unfold hev_socks5_server_connect.
  destruct (exec_socket env tr SOCK_STREAM s x y) as (fd & t1 & Hrun & Hfd). erewrite exec_M_bind by exact Hrun.
  destruct (Z.ltb_spec fd 0) as [H0|H0].
  { destruct Hfd as [(-> & Hl & Ho)|[? _]]; [|lia]. eexists _, _, t1. split; [reflexivity|]. right. naive_solver. }
  destruct Hfd as [[-> _]|[_ Ho]]; [done|].
  erewrite exec_M_bind by reflexivity. destruct (Z.ltb_spec (env (tr ++ t1) (Sys_binder fd sa)).1 0) as [H1|H1].
  { rewrite exec_close_fail, <-!(assoc_L (++)). eexists _, _, _. split; [reflexivity|]. right.
    split_and!; [done|intros ??; by rewrite !last_app|done|intros fds].
    rewrite !open_fds_app, Ho. unfold open_fds, fd_effect. simpl. set_solver. }
  do 2 (erewrite exec_M_bind by reflexivity). case_match eqn:H2.
  { rewrite exec_close_fail, <-!(assoc_L (++)). eexists _, _, _. split; [reflexivity|]. right.
    split_and!; [done|intros ??; by rewrite !last_app|done|intros fds].
    rewrite !open_fds_app, Ho. unfold open_fds, fd_effect. simpl. set_solver. }
  apply Z.ltb_ge in H2. do 2 (erewrite exec_M_bind by reflexivity).
  rewrite <-!(assoc_L (++)) in H2. rewrite <-!(assoc_L (++)). eexists _, _, _. split; [reflexivity|]. left. split; [done|].
  eexists fd, _. split_and!; [by rewrite !last_app|done|done|done|intros fds].
  by rewrite !open_fds_app, Ho.
Qed.

Context (p4 p6 : list Z → option (list Z))
  (gai : list Z → HevSocks5AddrFamily → option (HevSocks5AddrFamily * list Z)).

Lemma exec_read_request s cmd d x y :
  dest_ok d →
  exec env (hev_socks5_server_read_request p4 p6 gai s) tr ([5; cmd; 0] ++ enc_dest d ++ x) y =
    Some (match resolve p4 p6 gai d (s5_addr_family (sv_base s)) with
          | None => (ReqRep 8, s)
          | Some (sa, fam) => (ReqCmd cmd sa, sv_set_base (hev_socks5_set_addr_family fam) s)
          end, tr, x, y).
Proof.
  intros Hd. pose proof (into_sockaddr6_resolve p4 p6 gai d (s5_addr_family (sv_base s)) Hd) as Hr.
  pose proof (length_enc_dest d Hd) as Hl. unfold hev_socks5_server_read_request.
  assert (∃ t b rest, enc_dest d = t :: b :: rest) as (t & b & rest & He).
  { destruct Hd as [_ Hd]. destruct d as [[|? a] p|[|? a] p|n p]; simpl in *; naive_solver. }
  rewrite He in *. change ([5; cmd; 0] ++ (t :: b :: rest) ++ x) with ([5; cmd; 0; t; b] ++ rest ++ x).
  rewrite exec_m_recv by done. cbn -[exec mbind]. simpl in Hl.
  assert (∀ n, n = Z.of_nat (length rest) →
    exec env ((m_recv n ≫= λ res,
       match res with
       | None => mret (ReqRep 8)
       | Some bytes =>
           family ← m_get (λ s, s5_addr_family (sv_base s));
           r ← m_opt (hev_socks5_addr_into_sockaddr6 p4 p6 gai (t :: b :: bytes) family);
           match r with
           | None => mret (ReqRep 8)
           | Some (addr, family) =>
               m_set (sv_set_base (hev_socks5_set_addr_family family));; mret (ReqCmd cmd addr)
           end
       end) s) tr (rest ++ x) y =
      Some (match resolve p4 p6 gai d (s5_addr_family (sv_base s)) with
          | None => (ReqRep 8, s)
          | Some (sa, fam) => (ReqCmd cmd sa, sv_set_base (hev_socks5_set_addr_family fam) s)
          end, tr, x, y)) as Hread.
  { intros n Hn. rewrite exec_m_recv by done. erewrite exec_M_bind by reflexivity. rewrite Hr.
    erewrite exec_M_bind by reflexivity. by destruct (resolve _ _ _ _ _) as [[sa fam]|]. }
  destruct d as [a p|a p|n p]; simpl in He; simplify_eq; simpl Z.eqb; cbn iota; apply Hread; simpl in *; lia.
Qed.

Lemma exec_write_response s rep sa x y p :
  is_u16 p → sin6_port sa = htons p → length (sin6_addr sa) = 16%nat →
  exec env (hev_socks5_server_write_response rep sa s) tr x y =
    Some ((0, s), tr, x, y ++ [5; u8 rep; 0] ++ enc_dest (canon (D6 (sin6_addr sa) p))).
Proof.
  intros Hp Hpo Ha. destruct sa as [po a]. simpl in *. subst po.
  unfold hev_socks5_server_write_response. rewrite (from_sockaddr6_spec _ a p) by (done || (simpl; lia)).
  erewrite exec_M_bind by reflexivity. by rewrite Nat2Z.id, take_app_length.
Qed.

(** Whatever the address is, a response has at least four bytes. *)
Lemma exec_write_response_any s rep sa x y :
  ∃ t rest, exec env (hev_socks5_server_write_response rep sa s) tr x y =
    Some ((0, s), tr, x, y ++ [5; u8 rep; 0; t] ++ rest).
Proof.
  unfold hev_socks5_server_write_response, hev_socks5_addr_from_sockaddr6.
  destruct (IN6_IS_ADDR_V4MAPPED (sin6_addr sa)); erewrite exec_M_bind by reflexivity; eexists _, _; reflexivity.
Qed.

End server.
