(* ===== verification/SocksHandshake.v ===== *)
(** * The SOCKS5 handshake between this client and this server *)

From stdpp Require Import relations.
From S2P Require Import Prelude CString MappedDNSPacket MappedDNSAnswer SocksAddr SocksAddrProps SocksIO SocksClient RBTree RBTreeRep RBTreeProps Authenticator AuthenticatorMap AuthenticatorProps SocksServer SocksSegments.

(** The server's store: none, or the passwords of its users. *)
Definition server_store (s : HevSocks5Server) (C : option (gmap (list Z) (list Z))) : Prop :=
  match C with
  | None => sv_obj s = ObjNone
  | Some C => sv_obj s = ObjAuth ∧ CredStore (sv_auth s) C
  end.

(** Whether the server lets the client in. *)
Definition accepts (C : option (gmap (list Z) (list Z))) (c : HevSocks5Client) : bool :=
  match C, cl_user c, cl_pass c with
  | None, Some _, Some _ => false
  | None, _, _ => true
  | Some C, Some u, Some p => creds_ok C u p
  | Some _, _, _ => false
  end.

(** A client that is ready to ask for a TCP connection to [d]. *)
Definition tcp_client (c : HevSocks5Client) (d : dest) : Prop :=
  cl_class c = HevSocks5ClientTCP ∧ s5_type (cl_base c) = HEV_SOCKS5_TYPE_TCP ∧
  cl_addr c = Some (enc_dest d) ∧ cl_blocks c = 1 ∧ dest_ok d.

(** The client owns the block of its address, if it still has one. *)
Definition blocks_ok (c : HevSocks5Client) : Prop :=
  cl_blocks c = match cl_addr c with Some _ => 1 | None => 0 end.

Section handshake.
Context (T : timeouts) (p4 p6 : list Z → option (list Z))
  (gai : list Z → HevSocks5AddrFamily → option (HevSocks5AddrFamily * list Z)).

(** After the calls [tr] the server is connected to the destination, and this
    connection is the one descriptor it has opened. *)
Definition connected (d : dest) (s s' : HevSocks5Server) (tr : trace) : Prop :=
  ∃ sa fam fd r, resolve p4 p6 gai d (s5_addr_family (sv_base s)) = Some (sa, fam) ∧
    last tr = Some (Sys_connect fd sa, r) ∧ 0 ≤ r.1 ∧ sv_fds0 s' = fd ∧
    s5_type (sv_base s') = HEV_SOCKS5_TYPE_TCP ∧ open_fds ∅ tr = {[fd]}.

(** The destination was not resolved or not reached, and nothing is left open. *)
Definition not_connected (d : dest) (s s' : HevSocks5Server) (tr : trace) : Prop :=
  sv_fds0 s' = sv_fds0 s ∧ open_fds ∅ tr = ∅ ∧
  ∀ sa fam fd r, resolve p4 p6 gai d (s5_addr_family (sv_base s)) = Some (sa, fam) →
    last tr ≠ Some (Sys_connect fd sa, r).

Lemma canon_is_ip a p : length a = 16%nat → is_ip (canon (D6 a p)).
Proof. intros Ha. simpl. case_match; simpl; [rewrite length_drop; lia|done]. Qed.

(** The request of a TCP connection, at the server. *)
Lemma exec_serve_connect `{!Resolver p4 p6 gai} env s d garbage x y :
  dest_ok d →
  ∃ rs s' tr' reply, exec env (hev_socks5_server_handshake_request T p4 p6 gai garbage s) []
      ([5; 1; 0] ++ enc_dest d ++ x) y = Some ((rs, s'), tr', x, y ++ reply) ∧
    ((rs = 0 ∧ connected d s s' tr' ∧ ∃ d', is_ip d' ∧ reply = [5; 0; 0] ++ enc_dest d') ∨
     (rs = -1 ∧ not_connected d s s' tr' ∧ ∃ rep t rest, rep ≠ 0 ∧ reply = [5; rep; 0; t] ++ rest)).
Proof.
  intros Hd. unfold hev_socks5_server_handshake_request, connected, not_connected.
  pose proof (exec_read_request env [] p4 p6 gai s 1 d x y Hd) as Hread.
  destruct (resolve p4 p6 gai d _) as [[sa fam]|] eqn:Hr; erewrite exec_M_bind by exact Hread.
  - set (s1 := sv_set_base _ s). destruct (resolve_sane _ _ _ _ _ _ _ Hd Hr) as (p & Hp & Hpo & Ha).
    destruct (exec_server_connect env [] T s1 sa x y) as (res & s2 & tr' & Hc & Hres).
    cbn beta iota. change (1 =? 1) with true. cbn iota.
    set (s3 := sv_set_base (s5_set_type HEV_SOCKS5_TYPE_TCP) s2).
    erewrite exec_M_bind; [|erewrite exec_M_bind by exact Hc; reflexivity].
        cbn [fst snd]. fold s3. cbn beta iota.
    erewrite exec_M_bind by (by apply (exec_write_response env _ s3 _ sa x y p)).
    destruct Hres as [(-> & fd & r & Hlast & Hr0 & Hfd & -> & Ho)|(-> & Hlast & Hf & Ho)].
    + eexists 0, s3, tr', _. split; [reflexivity|]. left. split_and!; [done| |].
      * exists sa, fam, fd, r. split_and!; try done. by rewrite Ho, (right_id_L ∅ (∪)).
      * eexists. split; [by apply canon_is_ip|reflexivity].
    + eexists (-1), s3, tr', _. split; [reflexivity|]. right. split_and!; [done|done| | |].
      * specialize (Ho ∅). set_solver.
      * intros ???? [= <- <-]. apply Hlast.
      * destruct (enc_dest (canon (D6 (sin6_addr sa) p))) as [|t rest] eqn:He; [by destruct (canon _)|].
        exists 4, t, rest. done.
  - destruct (exec_write_response_any env [] s 8 garbage x y) as (t & rest & Hw).
    erewrite exec_M_bind by exact Hw. eexists (-1), s, [], _. split; [reflexivity|]. right.
    split_and!; [done..|]. by exists 8, t, rest.
Qed.

Lemma exec_server_auth_reject env s m x y :
  m ≠ server_method s →
  exec env (hev_socks5_server_auth s) [] ([5; 1; m] ++ x) y = Some ((-1, s), [], x, y ++ [5; 255]).
Proof.
  intros Hm%Z.eqb_neq. unfold hev_socks5_server_auth.
  erewrite exec_M_bind; [|rewrite exec_server_read_method, Hm; reflexivity]. reflexivity.
Qed.

Lemma exec_server_auth_none env s x y :
  server_method s = 0 →
  exec env (hev_socks5_server_auth s) [] ([5; 1; 0] ++ x) y = Some ((0, s), [], x, y ++ [5; 0]).
Proof.
  intros Hm. unfold hev_socks5_server_auth.
  erewrite exec_M_bind; [|rewrite exec_server_read_method, Hm; reflexivity]. reflexivity.
Qed.

(** The two parts of the authentication with a password. *)
Lemma exec_server_auth_user env s C u p x y :
  server_method s = 2 → CredStore (sv_auth s) C →
  ∃ s' x', exec env (hev_socks5_server_auth s) [] ([5; 1; 2] ++ creds_msg u p ++ x) y =
      Some ((if creds_ok C u p then 0 else -1, s'), [], x',
        y ++ [5; 2] ++ [1; if creds_ok C u p then 0 else 255]) ∧
    if creds_ok C u p then authenticated s s' ∧ x' = x else s' = s.
Proof.
  intros Hm HC. unfold hev_socks5_server_auth.
  erewrite exec_M_bind; [|rewrite exec_server_read_method, Hm; reflexivity].
  erewrite exec_M_bind by reflexivity.
  destruct (exec_server_read_user env [] s C u p x (y ++ [5; 2]) HC) as (s' & x' & Hrun & Hpost).
  exists s', x'. split; [|done]. cbn -[exec mbind]. erewrite exec_M_bind by exact Hrun.
  erewrite exec_M_bind by apply exec_server_write_user. rewrite <-(assoc_L (++)).
  by destruct (creds_ok C u p).
Qed.

(** The credentials the client sends. *)
Definition creds_of (c : HevSocks5Client) : list Z :=
  match cl_user c, cl_pass c with Some u, Some p => creds_msg u p | _, _ => [] end.

Lemma exec_write_creds_of env tr c x y :
  exec env (hev_socks5_client_write_auth_creds c) tr y x = Some ((0, c), tr, y, x ++ creds_of c).
Proof.
  unfold creds_of. destruct (cl_user c) as [u|] eqn:Hu, (cl_pass c) as [p|] eqn:Hp;
    [by apply exec_write_creds|rewrite app_nil_r; apply exec_write_creds_none..];
    unfold has_auth; by rewrite Hu, ?Hp.
Qed.

(** The outcome of a request depends on these fields of the server only. *)
Lemma outcome_ext d s s1 s' tr :
  s5_addr_family (sv_base s1) = s5_addr_family (sv_base s) → sv_fds0 s1 = sv_fds0 s →
  (connected d s1 s' tr → connected d s s' tr) ∧ (not_connected d s1 s' tr → not_connected d s s' tr).
Proof. unfold connected, not_connected. by intros -> ->. Qed.

(** The answers to the request: of a server that is connected, or that has
    failed and left nothing open. *)
Definition served (d : dest) (s s' : HevSocks5Server) (tr : trace) (rs : Z) (reply : list Z) : Prop :=
  (rs = 0 ∧ connected d s s' tr ∧ ∃ d', is_ip d' ∧ reply = [5; 0; 0] ++ enc_dest d') ∨
  (rs = -1 ∧ not_connected d s s' tr ∧ ∃ rep t rest, rep ≠ 0 ∧ reply = [5; rep; 0; t] ++ rest).

Lemma server_method_store s C :
  server_store s C → server_method s = match C with Some _ => 2 | None => 0 end.
Proof. unfold server_store, server_method, sv_has_auth. destruct C; [intros [-> _]|intros ->]; done. Qed.

(** The server's authentication, then its answer to the request, for a client
    that it accepts. *)
Lemma exec_server_accept env s C c x y :
  server_store s C → accepts C c = true →
  ∃ s', exec env (hev_socks5_server_auth s) [] ([5; 1; wanted_method c] ++ creds_of c ++ x) y =
      Some ((0, s'), [], x, y ++ [5; wanted_method c] ++ if has_auth c then [1; 0] else []) ∧
    s5_addr_family (sv_base s') = s5_addr_family (sv_base s) ∧ sv_fds0 s' = sv_fds0 s.
Proof.
  intros Hs Ha. pose proof (server_method_store _ _ Hs) as Hm.
  unfold accepts, creds_of, wanted_method, has_auth in *. destruct C as [C|].
  - destruct (cl_user c) as [u|], (cl_pass c) as [p|]; try done. destruct Hs as [Ho HC].
    destruct (exec_server_auth_user env s C u p x y Hm HC) as (s' & x' & Hrun & Hpost).
    rewrite Ha in *. destruct Hpost as [(a & usr & _ & _ & ->) ->]. eexists. by split; [exact Hrun|].
  - assert ((match cl_user c, cl_pass c with Some _, Some _ => true | _, _ => false end) = false) as ->
      by by destruct (cl_user c), (cl_pass c).
    exists s. split; [|done].
    replace (match cl_user c, cl_pass c with Some u, Some p => creds_msg u p | _, _ => [] end) with (@nil Z)
      by by destruct (cl_user c), (cl_pass c).
    by rewrite app_nil_l, (exec_server_auth_none env s x y Hm), app_nil_r.
Qed.

(** ** The composition *)

Definition client_prog (pipeline : bool) (c : HevSocks5Client) : io (Z * HevSocks5Client) :=
  hev_socks5_client_handshake T p4 p6 gai pipeline c.
Definition server_prog (garbage : sockaddr_in6) (s : HevSocks5Server) : io (Z * HevSocks5Server) :=
  hev_socks5_server_handshake T p4 p6 gai garbage s.
Definition start (pipeline : bool) (garbage : sockaddr_in6) (c : HevSocks5Client) (s : HevSocks5Server) :
    config (A := Z * HevSocks5Client) (B := Z * HevSocks5Server) :=
  mk_config (client_prog pipeline c) (server_prog garbage s) [] [] [] [].

(** What the handshake comes to: a client that is let in ends as the server's
    connection does; for another one the server makes no system call. *)
Definition outcome (accepted : bool) (d : dest) (s s' : HevSocks5Server) (r : Z) (tb : trace) : Prop :=
  if accepted then (r = 0 ∧ connected d s s' tb) ∨ (r = -1 ∧ not_connected d s s' tb)
  else r = -1 ∧ tb = [] ∧ sv_obj s' = sv_obj s ∧ sv_fds0 s' = sv_fds0 s.

Definition ends (envA envB : trace → syscall → reply) (pipeline : bool) (garbage : sockaddr_in6)
    (c : HevSocks5Client) (s : HevSocks5Server) (accepted : bool) (d : dest) : Prop :=
  ∃ r c' s' x y tb, rtc (dstep envA envB) (start pipeline garbage c s)
      (mk_config (Ret (r, c')) (Ret (r, s')) x y [] tb) ∧
    blocks_ok c' ∧ outcome accepted d s s' r tb.

Ltac norm :=
  unfold mbind, M_bind, mret, M_ret, m_set, m_get; cbn [io_bind fst snd];
  rewrite ?Z.ltb_irrefl; change (-1 <? 0) with true; cbn iota beta; cbn [io_bind fst snd].
Ltac segA tac :=
  lazymatch goal with
  | |- rtc _ (mk_config (io_bind _ (io_bind _ _)) _ _ _ _ _) _ =>
      eapply run_A_bind; [segA tac; apply rtc_refl|]
  | |- rtc _ (mk_config (io_bind _ _) _ _ _ _ _) _ => eapply run_A_exec; [tac|]
  end; norm.
Ltac segB tac :=
  lazymatch goal with
  | |- rtc _ (mk_config _ (io_bind _ (io_bind _ _)) _ _ _ _) _ =>
      eapply run_B_bind; [segB tac; apply rtc_refl|]
  | |- rtc _ (mk_config _ (io_bind _ _) _ _ _ _) _ => eapply run_B_exec; [tac|]
  end; norm.

(** The client, at the end of its handshake. *)
Lemma exec_client_response env c d s s' tb rs reply x :
  cl_class c = HevSocks5ClientTCP → served d s s' tb rs reply →
  ∃ y, exec env (hev_socks5_client_read_response p4 p6 gai c) [] reply x = Some ((rs, c), [], y, x).
Proof.
  intros Hc [(-> & _ & d' & Hd' & ->)|(-> & _ & rep & t & rest & Hr & ->)].
  - exists []. rewrite <-(app_nil_r (enc_dest d')). by apply exec_read_response.
  - exists rest. by apply exec_read_response_fail.
Qed.

Lemma served_outcome d s s1 s' tb rs reply :
  s5_addr_family (sv_base s1) = s5_addr_family (sv_base s) → sv_fds0 s1 = sv_fds0 s →
  served d s1 s' tb rs reply → (rs = 0 ∧ connected d s s' tb) ∨ (rs = -1 ∧ not_connected d s s' tb).
Proof.
  intros Hf Hfd [(-> & H & _)|(-> & H & _)]; destruct (outcome_ext d s s1 s' tb Hf Hfd); [left|right]; auto.
Qed.

(** The result of the response is that of the handshake. *)
Ltac client_end :=
  lazymatch goal with
  | Hrs : ?rs = 0 ∨ ?rs = -1, Ht : s5_type (cl_base ?c) = _ |- _ =>
      destruct Hrs; subst; simpl; rewrite Ht; apply rtc_refl
  end.

Ltac programs :=
  unfold start, client_prog, server_prog, hev_socks5_client_handshake, hev_socks5_server_handshake; norm;
  unfold hev_socks5_client_handshake_pipeline, hev_socks5_client_handshake_standard; norm.

Section runs.
Context `{!Resolver p4 p6 gai} (envA envB : trace → syscall → reply) (garbage : sockaddr_in6)
  (c : HevSocks5Client) (s : HevSocks5Server) (C : option (gmap (list Z) (list Z))) (d : dest).
Hypothesis Hcd : tcp_client c d.
Hypothesis Hs : server_store s C.

Let ct := cl_set_base (hev_socks5_set_timeout (tcp_timeout T)) c.
Let st := sv_set_base (hev_socks5_set_timeout (tcp_timeout T)) s.

(** The pipelined handshake: the client sends everything, then the server runs. *)
Lemma pipeline_accept : accepts C c = true → ends envA envB true garbage c s true d.
Proof.
  intros Hacc. destruct Hcd as (Hc & Ht & Ha & Hb & Hd).
  destruct (exec_server_accept envB st C ct ([5; 1; 0] ++ enc_dest d ++ []) [] Hs Hacc) as (s1 & Hauth & Hf & Hfd).
  destruct (exec_serve_connect envB s1 d garbage [] ([5; wanted_method c] ++ if has_auth c then [1; 0] else []) Hd)
    as (rs & s' & tb & reply & Hreq & Hserved).
  destruct (exec_client_response envA (requested ct) d s1 s' tb rs reply [] Hc Hserved) as (y & Hresp).
  assert (rs = 0 ∨ rs = -1) as Hrs by (destruct Hserved; naive_solver).
  exists rs, (requested ct), s', [], y, tb. split_and!; [|unfold blocks_ok; simpl; lia|by eapply served_outcome].
  programs.
  segA ltac:(apply exec_write_methods).
  segA ltac:(apply exec_write_creds_of).
  segA ltac:(by apply exec_write_request).
  fold ct st. rewrite app_nil_l, <-!(assoc_L (++)). rewrite app_nil_r in Hauth. segB ltac:(exact Hauth).
  rewrite app_nil_r in Hreq. eapply run_B_last; [exact Hreq|]. rewrite <-(assoc_L (++)).
  segA ltac:(apply exec_read_method).
  unfold wanted_method at 1 2 3. destruct (has_auth c); cbn -[exec].
  - change (1 :: 0 :: reply) with ([1; 0] ++ reply).
    segA ltac:(apply exec_read_creds). segA ltac:(exact Hresp). client_end.
  - segA ltac:(exact Hresp). client_end.
Qed.

(** The standard handshake without authentication. *)
Lemma standard_none : has_auth c = false → C = None → ends envA envB false garbage c s true d.
Proof.
  intros Hh HC. destruct Hcd as (Hc & Ht & Ha & Hb & Hd).
  pose proof (server_method_store st C Hs) as Hm. rewrite HC in Hm.
  destruct (exec_serve_connect envB st d garbage [] [] Hd) as (rs & s' & tb & reply & Hreq & Hserved).
  destruct (exec_client_response envA (requested ct) d st s' tb rs reply [] Hc Hserved) as (y & Hresp).
  assert (rs = 0 ∨ rs = -1) as Hrs by (destruct Hserved; naive_solver).
  exists rs, (requested ct), s', [], y, tb. split_and!; [|unfold blocks_ok; simpl; lia|by eapply (served_outcome d s st)].
  programs.
  segA ltac:(apply exec_write_methods). fold ct st. rewrite app_nil_l.
  replace (wanted_method ct) with 0 by (unfold wanted_method; by rewrite (Hh : has_auth ct = false)).
  segB ltac:(exact (exec_server_auth_none envB st [] [] Hm)).
  segA ltac:(exact (exec_read_method envA [] ct 0 [] [])). cbn -[exec app].
  segA ltac:(by apply exec_write_request). rewrite app_nil_l.
  rewrite app_nil_r in Hreq. eapply run_B_last; [exact Hreq|]. rewrite app_nil_l.
  segA ltac:(exact Hresp). client_end.
Qed.

(** The standard handshake with a name and a password, up to the server's
    decision [ok] on them. *)
Ltac standard_creds Hw Hm Hauth ok :=
  programs; unfold hev_socks5_server_auth;
  segA ltac:(apply exec_write_methods); fold ct st; rewrite app_nil_l, Hw; norm;
  segB ltac:(exact (exec_server_read_method envB [] st 2 [] [])); rewrite Hm; norm;
  segB ltac:(apply exec_server_write_method); cbn -[exec app u8];
  segA ltac:(exact (exec_read_method envA [] ct 2 [] [])); cbn -[exec app u8];
  segA ltac:(by apply exec_write_creds);
  segB ltac:(exact Hauth); segB ltac:(apply exec_server_write_user);
  segA ltac:(exact (exec_read_creds envA [] ct (u8 ok) _ [])); cbn -[exec app].

Lemma standard_user U u p :
  C = Some U → cl_user c = Some u → cl_pass c = Some p →
  ends envA envB false garbage c s (creds_ok U u p) d.
Proof.
  intros HC Hu Hp. destruct Hcd as (Hc & Ht & Ha & Hb & Hd).
  pose proof (server_method_store st C Hs) as Hm. rewrite HC in Hm, Hs. destruct Hs as [_ Hst].
  assert (wanted_method ct = 2) as Hw by (unfold wanted_method, has_auth; simpl; by rewrite Hu, Hp).
  destruct (exec_server_read_user envB [] st U u p [] [] Hst) as (s1 & x' & Hauth & Hpost).
  rewrite app_nil_r in Hauth. destruct (creds_ok U u p).
  - destruct Hpost as [(a & usr & _ & _ & Hs1) ->].
    destruct (exec_serve_connect envB s1 d garbage [] [] Hd) as (rs & s' & tb & reply & Hreq & Hserved).
    destruct (exec_client_response envA (requested ct) d s1 s' tb rs reply [] Hc Hserved) as (y & Hresp).
    assert (rs = 0 ∨ rs = -1) as Hrs by (destruct Hserved; naive_solver).
    exists rs, (requested ct), s', [], y, tb.
    split_and!; [|unfold blocks_ok; simpl; lia|eapply (served_outcome d s s1); [by subst s1..|done]].
    standard_creds Hw Hm Hauth 0. segA ltac:(by apply exec_write_request). rewrite app_nil_l.
    rewrite app_nil_r in Hreq. eapply run_B_last; [exact Hreq|]. rewrite app_nil_l.
    segA ltac:(exact Hresp). client_end.
  - exists (-1), ct, s1, x', [], []. split_and!; [|unfold blocks_ok; simpl; by rewrite Ha|by rewrite Hpost].
    standard_creds Hw Hm Hauth (-1). change (u8 (-1)) with 255. cbn -[exec app]. rewrite Ht. apply rtc_refl.
Qed.

(** The methods do not agree. *)
Lemma method_reject pipeline : wanted_method c ≠ server_method s → ends envA envB pipeline garbage c s false d.
Proof.
  intros Hm. destruct Hcd as (Hc & Ht & Ha & Hb & Hd).
  pose proof (exec_server_auth_reject envB st (wanted_method ct)) as Hrej.
  destruct pipeline.
  - exists (-1), (requested ct), st, (creds_of ct ++ [5; 1; 0] ++ enc_dest d), [], [].
    split_and!; [|unfold blocks_ok; simpl; lia|done].
    programs.
    segA ltac:(apply exec_write_methods). segA ltac:(apply exec_write_creds_of).
    segA ltac:(by apply exec_write_request). fold ct st. rewrite app_nil_l, <-!(assoc_L (++)).
    segB ltac:(exact (Hrej _ [] Hm)).
    segA ltac:(exact (exec_read_method envA [] _ 255 _ [])). simpl. rewrite Ht. apply rtc_refl.
  - exists (-1), ct, st, [], [], []. split_and!; [|unfold blocks_ok; simpl; by rewrite Ha|done].
    programs. segA ltac:(apply exec_write_methods). fold ct st. rewrite app_nil_l.
    segB ltac:(exact (Hrej [] [] Hm)).
    segA ltac:(exact (exec_read_method envA [] _ 255 _ [])). simpl. rewrite Ht. apply rtc_refl.
Qed.

(** The pipelined handshake with credentials the server does not know. *)
Lemma pipeline_creds_reject U u p :
  C = Some U → cl_user c = Some u → cl_pass c = Some p → creds_ok U u p = false →
  ends envA envB true garbage c s false d.
Proof.
  intros HC Hu Hp Hno. destruct Hcd as (Hc & Ht & Ha & Hb & Hd).
  pose proof (server_method_store st C Hs) as Hm. rewrite HC in Hm, Hs. destruct Hs as [_ Hst].
  assert (wanted_method ct = 2) as Hw by (unfold wanted_method, has_auth; simpl; by rewrite Hu, Hp).
  assert (creds_of ct = creds_msg u p) as Hcr by (unfold creds_of; simpl; by rewrite Hu, Hp).
  destruct (exec_server_auth_user envB st U u p ([5; 1; 0] ++ enc_dest d) [] Hm Hst) as (s' & x' & Hauth & Hpost).
  rewrite Hno in Hauth, Hpost. subst s'.
  exists (-1), (requested ct), st, x', [], []. split_and!; [|unfold blocks_ok; simpl; lia|done].
  programs. segA ltac:(apply exec_write_methods). segA ltac:(apply exec_write_creds_of).
  segA ltac:(by apply exec_write_request). fold ct st. rewrite app_nil_l, <-!(assoc_L (++)), Hw, Hcr.
  segB ltac:(exact Hauth).
  segA ltac:(exact (exec_read_method envA [] _ 2 _ [1; 255])). cbn -[exec app].
  segA ltac:(exact (exec_read_creds envA [] _ 255 _ [])). simpl. rewrite Ht. apply rtc_refl.
Qed.

End runs.

Lemma handshake_ends `{!Resolver p4 p6 gai} envA envB garbage c s C d pipeline :
  tcp_client c d → server_store s C → ends envA envB pipeline garbage c s (accepts C c) d.
Proof.
  intros Hcd Hs. pose proof (server_method_store s C Hs) as Hm. unfold accepts.
  destruct C as [U|], (cl_user c) as [u|] eqn:Hu, (cl_pass c) as [p|] eqn:Hp.
  all: try (apply method_reject; [done|]; unfold wanted_method, has_auth; by rewrite Hu, ?Hp, Hm).
  - destruct pipeline; [|by eapply standard_user].
    destruct (creds_ok U u p) eqn:Hok; [|by eapply pipeline_creds_reject].
    eapply pipeline_accept; [done..|]. unfold accepts. by rewrite Hu, Hp.
  - destruct pipeline; [eapply pipeline_accept|eapply standard_none];
      try done; unfold accepts, has_auth; by rewrite Hu, ?Hp.
  - destruct pipeline; [eapply pipeline_accept|eapply standard_none];
      try done; unfold accepts, has_auth; by rewrite Hu, ?Hp.
  - destruct pipeline; [eapply pipeline_accept|eapply standard_none];
      try done; unfold accepts, has_auth; by rewrite Hu, ?Hp.
Qed.
End handshake.


(** A concrete pair: the server's user is [ab] with the password [p]; the
    client asks for port 80 of 10.0.0.1. *)
Definition ex_store : HevSocks5Authenticator :=
  mk_auth (tree_state (T Black E 80 E) []) {[64 := ex_user]}.
Definition ex_creds : gmap (list Z) (list Z) := {[[97; 98] := [112]]}.

Lemma ex_store_creds : CredStore ex_store ex_creds.
Proof.
  replace ex_creds with (passwords ex_store {[[97; 98] := 64]}) by (vm_compute; reflexivity).
  apply auth_rep_store. exists [80], [], [(64, ex_user)]. split; [|reflexivity]. split; simpl.
  - exists (T Black E 80 E). split_and!; [apply tree_state_is; by vm_compute|exists 1%nat; repeat econstructor|done].
  - split_and!; [apply (bool_decide_unpack _); by vm_compute..|done].
  - done.
  - repeat constructor.
  - repeat constructor.
Qed.

Definition no_resolver (n : list Z) : option (list Z) := None.
Definition no_gai (n : list Z) (f : HevSocks5AddrFamily) : option (HevSocks5AddrFamily * list Z) := None.
Lemma no_resolver_ok : Resolver no_resolver no_resolver no_gai.
Proof. by split. Qed.

Definition ex_timeouts : timeouts := mk_timeouts 10000 300000 60000.
Definition ex_env (tr : trace) (c : syscall) : reply :=
  (match c with Sys_socket _ => 7 | _ => 0 end, mk_sin6 0 []).
Definition ex_client : HevSocks5Client :=
  mk_client (hev_socks5_construct HEV_SOCKS5_TYPE_TCP) (Some [97; 98]) (Some [112])
    HevSocks5ClientTCP (Some [1; 10; 0; 0; 1; 0; 80]) 0 1.
Definition ex_server : HevSocks5Server :=
  hev_socks5_server_set_auth (hev_socks5_server_construct 5 ex_store 1).


(** The server of the example, run on what the client sends: it connects. *)
Example ex_server_connects :
  ∃ s' tb, exec ex_env (server_prog ex_timeouts no_resolver no_resolver no_gai (mk_sin6 0 []) ex_server) []
      ([5; 1; 2] ++ [1; 2; 97; 98; 1; 112] ++ [5; 1; 0; 1; 10; 0; 0; 1; 0; 80]) [] =
    Some ((0, s'), tb, [], [5; 2; 1; 0; 5; 0; 0; 1; 10; 0; 0; 1; 0; 80]) ∧ sv_fds0 s' = 7.
Proof. eexists _, _. split; vm_compute; reflexivity. Qed.
