(* ===== verification/SocksSafety.v ===== *)
(** * The SOCKS5 client and server against any peer

    Whatever the peer sends and however the system calls fail: the code is
    defined, uses and closes open descriptors only, and releases what it took. *)

From S2P Require Import Prelude CString MappedDNSPacket MappedDNSAnswer SocksAddr SocksAddrProps SocksIO SocksClient RBTree Authenticator AuthenticatorMap AuthenticatorProps SocksServer SocksSegments SocksHandshake.

Ltac mstep :=
  lazymatch goal with
  | |- mwp (_ ≫= _) _ _ _ => apply mwp_bind
  | |- mwp (mret _) _ _ _ => apply mwp_ret
  | |- mwp (m_get _) _ _ _ => apply mwp_get
  | |- mwp (m_set _) _ _ _ => apply mwp_set
  | |- mwp (m_send _) _ _ _ => apply mwp_send; intros ?
  | |- mwp (m_recv _) _ _ _ => apply mwp_recv; [|intros ???]
  | |- mwp (m_call _) _ _ _ => apply mwp_call; [simpl; try done; set_solver|intros ??; unfold fd_effect; cbn [fst snd call_post] in *]
  | |- mwp (if ?b then _ else _) _ _ _ => destruct b eqn:?
  end; cbn beta.
Ltac msteps := repeat mstep.

(** ** Sockets *)

Section sockets.
Context {S : Type}.

Lemma mwp_socket type (s : S) X (Q : Z → S → gset Z → Prop) :
  Q (-1) s X → (∀ fd, 0 ≤ fd → fd ∉ X → Q fd s ({[fd]} ∪ X)) → mwp (hev_socks5_socket type) s X Q.
Proof.
  intros H0 H1. unfold hev_socks5_socket. mstep. mstep.
  destruct (Z.ltb_spec r.1 0) as [Hr|Hr]; [by mstep; rewrite (proj2 (Z.leb_gt _ _)) by lia|].
  rewrite (proj2 (Z.leb_le _ _)) by lia. specialize (H1 r.1 Hr H).
  mstep. mstep. mstep.
  - do 3 mstep. by replace (({[r.1]} ∪ X) ∖ {[r.1]}) with X by set_solver.
  - do 2 mstep. do 2 mstep; [do 3 mstep|mstep]; (do 2 mstep; [do 3 mstep|mstep]); mstep; exact H1.
Qed.

Lemma mwp_close_fail fd (s : S) X (Q : Z → S → gset Z → Prop) :
  fd ∈ X → Q (-1) s (X ∖ {[fd]}) → mwp (close_fail fd) s X Q.
Proof. intros Hfd HQ. unfold close_fail. by msteps. Qed.
End sockets.

(** ** The server *)

(** What the server has open: the connection [fd] to its client, and up to two
    descriptors of its own, all distinct. *)
Inductive sv_fds_ok (fd : Z) (s : HevSocks5Server) : gset Z → Prop :=
  | fds_none : sv_fds0 s = -1 → sv_fds1 s = -1 → sv_fds_ok fd s {[fd]}
  | fds_one f : sv_fds0 s = f → sv_fds1 s = -1 → 0 ≤ f → f ≠ fd → sv_fds_ok fd s ({[f]} ∪ {[fd]})
  | fds_two f g : sv_fds0 s = f → sv_fds1 s = g → 0 ≤ f → 0 ≤ g → f ≠ fd → g ≠ f → g ≠ fd →
      sv_fds_ok fd s ({[g]} ∪ ({[f]} ∪ {[fd]})).

(** The server has its object, or has exchanged its authenticator for a user. *)
Definition sv_obj_ok (s0 s : HevSocks5Server) : Prop :=
  (sv_obj s = sv_obj s0 ∧ sv_auth s = sv_auth s0 ∧ sv_auth_ref s = sv_auth_ref s0) ∨
  (sv_obj s0 = ObjAuth ∧ sv_auth_ref s = sv_auth_ref s0 - 1 ∧
   ∃ a u, sv_obj s = ObjUser a ∧ au_users (sv_auth s0) !! a = Some u ∧
     sv_auth s = set_au_users (<[a := mk_user (u_ref u + 1) (u_name u) (u_pass u) (u_name_len u) (u_pass_len u)]>
       (au_users (sv_auth s0))) (sv_auth s0)).

Lemma cred_store_get s C name : CredStore s C →
  ∃ a, hev_socks5_authenticator_get name (Z.of_nat (length name)) s = Some (a, s) ∧
    (a ≠ 0 → ∃ u, au_users s !! a = Some u).
Proof.
  intros HC. destruct (C !! name) as [pass|] eqn:Hn.
  - destruct (cs_some _ _ Hn) as (a & u & Ha & Hg & Hu & _). eauto.
  - exists 0. split; [by apply (cs_none _ Hn)|done].
Qed.

Lemma mwp_in_auth {A} (c : stm HevSocks5Authenticator A) s X a s' (Q : A → HevSocks5Server → gset Z → Prop) :
  c (sv_auth s) = Some (a, s') → Q a (sv_set_auth s' s) X → mwp (in_auth c) s X Q.
Proof. intros H HQ. apply mwp_stm. unfold wp, zoom. by rewrite H. Qed.

Lemma mwp_read_auth_user s C X :
  CredStore (sv_auth s) C →
  mwp hev_socks5_server_read_auth_user s X (λ r s' X', X' = X ∧
    (r = -1 ∧ s' = s ∨ r = 0 ∧ authenticated s s')).
Proof.
  intros HC. unfold hev_socks5_server_read_auth_user. do 2 mstep; [mstep; by auto|].
  destruct bs as [|ver [|nlen []]]; try (mstep; by auto).
  mstep; [mstep; by auto|]. mstep; [mstep; by auto|].
  do 2 mstep; [mstep; by auto|].
  assert (is_u8 nlen) as Hn by (by rewrite !Forall_cons in H0; naive_solver). unfold is_u8 in Hn.
  destruct (lookup_lt_is_Some_2 bs (Z.to_nat nlen)) as [plen Hp]; [lia|].
  mstep. eapply mwp_opt; [exact Hp|]. mstep; [mstep; by auto|].
  do 2 mstep; [mstep; by auto|].
  set (name := take (Z.to_nat nlen) bs).
  assert (nlen = Z.of_nat (length name)) as Hlen by (unfold name; rewrite length_take; lia).
  destruct (cred_store_get _ _ name HC) as (a & Hget & Hu).
  mstep. eapply mwp_in_auth; [by rewrite Hlen at 1|]. rewrite sv_set_auth_id.
  mstep; [mstep; by auto|]. destruct (Hu ltac:(lia)) as [u Hu'].
  mstep. eapply mwp_in_auth; [unfold user_load; by rewrite Hu'|]. rewrite sv_set_auth_id.
  mstep; [mstep; by auto|].
  mstep. eapply mwp_in_auth; [unfold user_ref, mbind, stm_bind, user_load, modify; by rewrite Hu'|].
  msteps. split; [done|]. right. split; [done|]. exists a, u. split_and!; [lia|done|done].
Qed.

Lemma mwp_server_auth s C X :
  server_store s C →
  mwp hev_socks5_server_auth s X (λ r s' X', X' = X ∧ (s' = s ∨ sv_obj s = ObjAuth ∧ authenticated s s')).
Proof.
  intros Hs. unfold hev_socks5_server_auth. mstep.
  assert (mwp hev_socks5_server_read_auth_method s X (λ m s' X', X' = X ∧ s' = s ∧
    (m = 2 → sv_has_auth s = true))) as Hread.
  { unfold hev_socks5_server_read_auth_method. do 2 mstep; [mstep; by auto|].
    destruct bs as [|ver [|len []]]; try (mstep; by auto).
    mstep; [mstep; by auto|]. do 2 mstep; [mstep; by auto|]. do 3 mstep. split_and!; try done.
    destruct (sv_has_auth s); [done|]. by case_bool_decide. }
  eapply mwp_mono; [exact Hread|]. intros m s' X' (-> & -> & Hm). cbn beta.
  mstep. unfold hev_socks5_server_write_auth_method. do 2 mstep. destruct r; mstep; simpl; [|by mstep; auto].
  mstep; [mstep; by auto|]. mstep; [|mstep; by auto].
  destruct C as [C|]; [|simpl in Hs; unfold sv_has_auth in Hm; rewrite Hs in Hm; specialize (Hm ltac:(lia)); done].
  destruct Hs as [Ho HC]. mstep. eapply mwp_mono; [exact (mwp_read_auth_user _ _ _ HC)|].
  intros r s' X' [-> Hr]. mstep. unfold hev_socks5_server_write_auth_user. mstep. mstep.
  destruct r0; msteps; (split; [done|]); naive_solver.
Qed.

(** Apart from its descriptors and the base object, the server is as before. *)
Definition sv_same (s s' : HevSocks5Server) : Prop :=
  sv_obj s' = sv_obj s ∧ sv_auth s' = sv_auth s ∧ sv_auth_ref s' = sv_auth_ref s ∧
  s5_fd (sv_base s') = s5_fd (sv_base s).

Lemma into_sockaddr6_defined p4 p6 gai addr n fam :
  hev_socks5_addr_len addr = Some n → n ≤ Z.of_nat (length addr) → Forall is_u8 addr →
  ∃ r, hev_socks5_addr_into_sockaddr6 p4 p6 gai addr fam = Some r.
Proof.
  intros Hl Hn Hb. unfold hev_socks5_addr_len in Hl. unfold hev_socks5_addr_into_sockaddr6.
  assert (∀ i k, (i + k ≤ length addr)%nat → ∃ v, get_bytes addr i k = Some v) as Hbytes.
  { intros i k Hi. unfold get_bytes. rewrite decide_True by lia. eauto. }
  assert (∀ i, (i + 2 ≤ length addr)%nat → ∃ v, get16 addr i = Some v) as H16.
  { intros i Hi. unfold get16. destruct (lookup_lt_is_Some_2 addr i) as [? ->]; [lia|].
    destruct (lookup_lt_is_Some_2 addr (S i)) as [? ->]; [lia|]. simpl. eauto. }
  destruct (addr !! 0%nat) as [t|]; [|done]. cbn [mbind option_bind] in *.
  repeat case_match; simplify_eq.
  - unfold hev_socks5_ipv4_into_sockaddr6. destruct (H16 5%nat) as [? ->]; [lia|].
    destruct (Hbytes 1%nat 4%nat) as [? ->]; [lia|]. simpl. eauto.
  - unfold hev_socks5_ipv6_into_sockaddr6. destruct (H16 17%nat) as [? ->]; [lia|].
    destruct (Hbytes 1%nat 16%nat) as [? ->]; [lia|]. simpl. eauto.
  - destruct (addr !! 1%nat) as [len|] eqn:Hlen; [|done]. cbn [mbind option_bind] in *. simplify_eq.
    assert (is_u8 len) as Hu by by eapply Forall_lookup_1. unfold is_u8 in Hu.
    destruct (Hbytes 2%nat (Z.to_nat len)) as [name ->]; [lia|].
    destruct (H16 (2 + Z.to_nat len)%nat) as [? ->]; [lia|]. cbn [mbind option_bind].
    destruct (cstr_some (name ++ [0]) (length name)) as [nm ->]; [by apply list_lookup_middle|]. simpl. eauto.
  - eauto.
Qed.

Section server.
Context (T : timeouts) (p4 p6 : list Z → option (list Z))
  (gai : list Z → HevSocks5AddrFamily → option (HevSocks5AddrFamily * list Z)).

Lemma mwp_read_request s X :
  mwp (hev_socks5_server_read_request p4 p6 gai) s X (λ r s' X', X' = X ∧ sv_same s s' ∧
    sv_fds0 s' = sv_fds0 s ∧ sv_fds1 s' = sv_fds1 s).
Proof.
  assert (∀ n cmd atype b, hev_socks5_addr_len [atype; b] = Some n → 2 ≤ n → is_u8 atype → is_u8 b →
    mwp (m_recv (n - 2) ≫= λ res,
       match res with
       | None => mret (ReqRep 8)
       | Some bytes =>
           family ← m_get (λ s, s5_addr_family (sv_base s));
           r ← m_opt (hev_socks5_addr_into_sockaddr6 p4 p6 gai (atype :: b :: bytes) family);
           match r with
           | None => mret (ReqRep 8)
           | Some (addr, family) =>
               m_set (sv_set_base (hev_socks5_set_addr_family family));; mret (ReqCmd cmd addr)
           end
       end) s X (λ r s' X', X' = X ∧ sv_same s s' ∧ sv_fds0 s' = sv_fds0 s ∧ sv_fds1 s' = sv_fds1 s)) as Hread.
  { intros n cmd atype b Hlen Hn Ha Hb. do 2 mstep; [by mstep|]. do 3 mstep.
    destruct (into_sockaddr6_defined p4 p6 gai (atype :: b :: bs) n (s5_addr_family (sv_base s))) as [r Hr].
    - unfold hev_socks5_addr_len in *. simpl in *. done.
    - simpl. lia.
    - by rewrite !Forall_cons.
    - eapply mwp_opt; [exact Hr|]. destruct r as [[sa fam]|]; by msteps. }
  unfold hev_socks5_server_read_request. do 2 mstep; [by mstep|].
  destruct bs as [|ver [|cmd [|rsv [|atype [|b []]]]]]; try by mstep.
  rewrite !Forall_cons in H0. destruct H0 as (_ & _ & _ & Ha & Hb & _). mstep; [by mstep|]. cbn zeta.
  mstep; [by apply (Hread 7); [unfold hev_socks5_addr_len; simpl; by rewrite Heqb1|lia|..]|].
  mstep; [by apply (Hread 19); [unfold hev_socks5_addr_len; simpl; by rewrite Heqb1, Heqb2|lia|..]|].
  mstep; [|by mstep]. replace (2 + b) with (4 + b - 2) by lia.
  apply Hread; try done; [|unfold is_u8 in Hb; lia].
  unfold hev_socks5_addr_len. simpl. by rewrite Heqb1, Heqb2, Heqb3.
Qed.

Lemma mwp_write_response rep sa s X (Q : Z → HevSocks5Server → gset Z → Prop) :
  Q 0 s X → Q (-1) s X → mwp (hev_socks5_server_write_response rep sa) s X Q.
Proof.
  intros. unfold hev_socks5_server_write_response. destruct (hev_socks5_addr_from_sockaddr6 _ _).
  do 2 mstep. destruct r; by mstep.
Qed.

Lemma mwp_server_connect sa s :
  sv_fds0 s = -1 → sv_fds1 s = -1 →
  mwp (hev_socks5_server_connect T sa) s {[s5_fd (sv_base s)]} (λ r s' X', sv_same s s' ∧ sv_fds_ok (s5_fd (sv_base s)) s' X').
Proof.
  intros H0 H1. unfold hev_socks5_server_connect. mstep.
  apply mwp_socket; [change (-1 <? 0) with true; cbn iota; mstep; split; [done|by apply fds_none]|]. intros fd Hfd Hnew.
  destruct (Z.ltb_spec fd 0); [lia|]. do 2 mstep. cbn beta.
  assert (({[fd]} ∪ {[s5_fd (sv_base s)]}) ∖ {[fd]} = ({[s5_fd (sv_base s)]} : gset Z)) as Hback by set_solver.
  mstep; [apply mwp_close_fail; [set_solver|]; rewrite Hback; split; [done|by apply fds_none]|].
  do 4 mstep. mstep; [apply mwp_close_fail; [set_solver|]; rewrite Hback; split; [done|by apply fds_none]|].
  msteps. split; [done|]. apply (fds_one _ _ fd); try done. simpl. set_solver.
Qed.

Lemma mwp_udp_bind fd s X :
  fd ∈ X → s5_fd (sv_base s) ∈ X →
  mwp (hev_socks5_server_udp_bind fd) s X (λ r s' X', s' = s ∧ X' = X).
Proof.
  intros Hfd Hs. unfold hev_socks5_server_udp_bind. do 2 mstep. mstep. apply mwp_getsockname; [done|]. intros r.
  mstep; [by mstep|]. do 2 mstep. mstep; [by mstep|]. mstep. apply mwp_getsockname; [done|]. intros r1.
  by mstep; mstep.
Qed.

Lemma mwp_server_bind udp sa s :
  sv_fds0 s = -1 → sv_fds1 s = -1 →
  mwp (hev_socks5_server_bind udp sa) s {[s5_fd (sv_base s)]} (λ r s' X', sv_same s s' ∧ sv_fds_ok (s5_fd (sv_base s)) s' X').
Proof.
  intros H0 H1. unfold hev_socks5_server_bind. mstep.
  apply mwp_socket; [change (-1 <? 0) with true; cbn iota; mstep; split; [done|by apply fds_none]|]. intros f Hf Hnew.
  destruct (Z.ltb_spec f 0); [lia|]. do 2 mstep.
  assert (f ≠ s5_fd (sv_base s)) as Hne by set_solver.
  mstep; [mstep; split; [done|by apply (fds_one _ _ f)]|]. mstep.
  apply mwp_socket; [change (-1 <? 0) with true; cbn iota; mstep; split; [done|by apply (fds_one _ _ f)]|]. intros g Hg Hgnew.
  destruct (Z.ltb_spec g 0); [lia|]. do 2 mstep.
  assert (({[g]} ∪ ({[f]} ∪ {[s5_fd (sv_base s)]})) ∖ {[g]} = ({[f]} ∪ {[s5_fd (sv_base s)]} : gset Z)) as Hback
    by set_solver.
  mstep.
  { mstep. apply mwp_close_fail; [set_solver|]. mstep. rewrite Hback. split; [done|by apply (fds_one _ _ f)]. }
  mstep. eapply mwp_mono; [apply mwp_udp_bind; simpl; set_solver|]. intros r' s' X' [-> ->]. cbn beta zeta. mstep.
  { mstep. apply mwp_close_fail; [set_solver|]. mstep. rewrite Hback. split; [done|by apply (fds_one _ _ f)]. }
  msteps. split; [done|]. apply (fds_two _ _ f g); try done; simpl; set_solver.
Qed.

(** The invariant of the run: the object and the descriptors. *)
Definition sv_inv (s0 s : HevSocks5Server) (X : gset Z) : Prop :=
  sv_obj_ok s0 s ∧ s5_fd (sv_base s) = s5_fd (sv_base s0) ∧ sv_fds_ok (s5_fd (sv_base s0)) s X.

Lemma sv_obj_same s0 s s' : sv_obj_ok s0 s → sv_same s s' → sv_obj_ok s0 s'.
Proof. unfold sv_obj_ok, sv_same. by intros H (-> & -> & -> & _). Qed.

Lemma mwp_handshake_request garbage s0 s :
  sv_inv s0 s {[s5_fd (sv_base s0)]} → sv_fds0 s = -1 → sv_fds1 s = -1 →
  mwp (hev_socks5_server_handshake_request T p4 p6 gai garbage) s {[s5_fd (sv_base s0)]} (λ r, sv_inv s0).
Proof.
  intros (Ho & Hfd & Hok) H0 H1. unfold hev_socks5_server_handshake_request. mstep.
  eapply mwp_mono; [apply mwp_read_request|]. intros req s1 X1 (-> & Hsame & Hf0 & Hf1). cbn beta.
  assert (sv_inv s0 s1 {[s5_fd (sv_base s0)]}) as Hinv1.
  { split_and!; [by eapply sv_obj_same|destruct Hsame as (_ & _ & _ & ->); done|apply fds_none; congruence]. }
  destruct req as [|rep|cmd sa]; [by mstep|mstep; by apply mwp_write_response; mstep|].
  assert (s5_fd (sv_base s1) = s5_fd (sv_base s0)) as Hfd1 by apply Hinv1.
  assert (∀ s2 X2 f, sv_same s1 s2 → sv_fds_ok (s5_fd (sv_base s1)) s2 X2 →
    s5_fd (f (sv_base s2)) = s5_fd (sv_base s2) → sv_inv s0 (sv_set_base f s2) X2) as Hinv2.
  { intros s2 X2 f Hs2 Hok2 Hf. destruct Hinv1 as (Ho1 & _ & _). split_and!.
    - eapply sv_obj_same; [by eapply sv_obj_same|done].
    - simpl. rewrite Hf. destruct Hs2 as (_ & _ & _ & ->). done.
    - rewrite <-Hfd1. destruct Hok2; by econstructor. }
  mstep. apply (mwp_mono _ _ _ (λ r, sv_inv s0)).
  - rewrite <-Hfd1. mstep.
    + mstep. eapply mwp_mono; [apply mwp_server_connect; congruence|]. intros r s2 X2 [? ?]. msteps. by apply Hinv2.
    + mstep.
      * mstep. eapply mwp_mono; [apply mwp_server_bind; congruence|]. intros r s2 X2 [? ?]. msteps. by apply Hinv2.
      * mstep; [|mstep; by rewrite Hfd1].
        mstep. eapply mwp_mono; [apply mwp_server_bind; congruence|]. intros r s2 X2 [? ?]. msteps. by apply Hinv2.
  - intros [rep addr] s2 X2 Hs2. mstep. by apply mwp_write_response; mstep; mstep.
Qed.

Lemma mwp_server_handshake garbage s0 s C :
  server_store s C → sv_inv s0 s {[s5_fd (sv_base s0)]} → sv_same s0 s →
  sv_fds0 s = -1 → sv_fds1 s = -1 →
  mwp (hev_socks5_server_handshake T p4 p6 gai garbage) s {[s5_fd (sv_base s0)]} (λ r, sv_inv s0).
Proof.
  intros Hs (Ho & Hfd & Hok) Hsame H0 H1. unfold hev_socks5_server_handshake. do 3 mstep.
  eapply mwp_mono; [by eapply mwp_server_auth|]. intros r s1 X1 [-> Hs1]. cbn beta.
  assert (sv_inv s0 s1 {[s5_fd (sv_base s0)]} ∧ sv_fds0 s1 = -1 ∧ sv_fds1 s1 = -1) as (Hinv & ? & ?).
  { destruct Hs1 as [->|(HoA & a & u & Ha & Hu & ->)]; [split; [|done]; split_and!; [done|done|by apply fds_none]|].
    split; [|done]. split_and!; [|done|by apply fds_none]. right. destruct Hsame as (Hs1 & Hs2 & Hs3 & _).
    simpl in *. rewrite <-Hs1, <-Hs2, <-Hs3. split_and!; [done|done|]. by exists a, u. }
  mstep; [by mstep|]. by apply mwp_handshake_request.
Qed.
End server.

Lemma mwp_close_nonneg fd s X (Q : unit → HevSocks5Server → gset Z → Prop) :
  (0 ≤ fd → fd ∈ X) → Q tt s (if 0 <=? fd then X ∖ {[fd]} else X) → mwp (close_nonneg fd) s X Q.
Proof.
  intros Hfd HQ. unfold close_nonneg. destruct (Z.leb_spec 0 fd); [|by mstep].
  specialize (Hfd ltac:(done)). by msteps.
Qed.

(** The destructor closes everything and gives back the reference. *)
Lemma mwp_server_destruct s0 s X :
  0 ≤ s5_fd (sv_base s0) → sv_inv s0 s X → (sv_obj s0 = ObjNone ∨ sv_obj s0 = ObjAuth) →
  (∀ a u, au_users (sv_auth s0) !! a = Some u → 1 ≤ u_ref u) →
  mwp hev_socks5_server_destruct s X (λ _ s' X', X' = ∅ ∧ sv_auth s' = sv_auth s0 ∧
    sv_auth_ref s' = sv_auth_ref s0 - (if sv_has_auth s0 then 1 else 0)).
Proof.
  intros Hfd (Hobj & Hs5 & Hok) Hs0 Hrefs. unfold hev_socks5_server_destruct.
  assert (∀ X1, X1 = {[s5_fd (sv_base s0)]} →
    mwp (obj ← m_get sv_obj;
      match obj with
      | ObjNone => mret tt
      | ObjAuth => ref ← m_get sv_auth_ref; m_set (sv_set_auth_ref (ref - 1))
      | ObjUser user => in_auth (user_unref user)
      end;;
      fd ← m_get (λ s, s5_fd (sv_base s)); close_nonneg fd) s X1
      (λ _ s' X', X' = ∅ ∧ sv_auth s' = sv_auth s0 ∧
        sv_auth_ref s' = sv_auth_ref s0 - (if sv_has_auth s0 then 1 else 0))) as Hrest.
  { intros X1 ->. do 2 mstep. mstep.
    apply (mwp_mono _ _ _ (λ _ s' X', X' = {[s5_fd (sv_base s0)]} ∧ s5_fd (sv_base s') = s5_fd (sv_base s0) ∧
      sv_auth s' = sv_auth s0 ∧ sv_auth_ref s' = sv_auth_ref s0 - (if sv_has_auth s0 then 1 else 0))).
    - destruct Hobj as [(-> & Ha & Hr)|(HoA & Hr & a & u & -> & Hu & Ha)]; unfold sv_has_auth.
      + destruct Hs0 as [-> | ->]; msteps; (split_and!; simpl; [done|done|done|lia]).
      + rewrite HoA. specialize (Hrefs a u Hu). eapply mwp_in_auth.
        * unfold user_unref, mbind, stm_bind, user_load. rewrite Ha. simpl. rewrite lookup_insert_eq. simpl.
          rewrite (proj2 (Z.ltb_lt _ _)) by lia. reflexivity.
        * split_and!; simpl; [done|done| |lia].
          rewrite insert_insert_eq, Z.add_simpl_r. rewrite insert_id by by destruct u. by destruct (sv_auth s0).
    - intros _ s1 X1 (-> & Hf & Hau & Har). do 2 mstep. rewrite Hf.
      apply mwp_close_nonneg; [set_solver|]. rewrite (proj2 (Z.leb_le _ _)) by done. split; [set_solver|done]. }
  do 3 mstep. destruct Hok as [H0 H1|f H0 H1 Hf Hn|f g H0 H1 Hf Hg N1 N2 N3]; rewrite H0;
    (apply mwp_close_nonneg; [intros ?; lia || set_solver|]); do 3 mstep; rewrite H1;
    rewrite ?(proj2 (Z.leb_le 0 f)) by done; (apply mwp_close_nonneg; [intros ?; lia || set_solver|]).
  - by apply Hrest.
  - apply Hrest. simpl. set_solver.
  - rewrite (proj2 (Z.leb_le 0 g)) by done. apply Hrest. set_solver.
Qed.

(** C31: the server releases what it takes.  Against any client and whatever the
    system calls answer, a server that is made for the connection [fd], with or
    without an authenticator, runs its handshake and is then destroyed: this is
    defined, every descriptor that is used or closed is open, at the end none is
    open any more, every user has the references it had, and the authenticator
    has lost the reference of the server. *)
Theorem server_run_safe T p4 p6 gai garbage s C :
  server_store s C → 0 ≤ s5_fd (sv_base s) → sv_fds0 s = -1 → sv_fds1 s = -1 →
  (∀ a u, au_users (sv_auth s) !! a = Some u → 1 ≤ u_ref u) →
  mwp (hev_socks5_server_run T p4 p6 gai garbage ≫= λ _, hev_socks5_server_destruct) s {[s5_fd (sv_base s)]}
    (λ _ s' X', X' = ∅ ∧ sv_auth s' = sv_auth s ∧
      sv_auth_ref s' = sv_auth_ref s - (if sv_has_auth s then 1 else 0)).
Proof.
  intros Hs Hfd H0 H1 Hrefs. mstep.
  assert (sv_inv s s {[s5_fd (sv_base s)]}) as Hinv by (split_and!; [by left|done|by apply fds_none]).
  eapply (mwp_mono _ _ _ (λ _, sv_inv s)).
  - unfold hev_socks5_server_run. do 3 mstep. mstep. mstep.
    apply (mwp_mono _ _ _ (λ _ s' X', s' = s ∧ X' = {[s5_fd (sv_base s)]})); [by msteps|].
    intros _ ? ? [-> ->]. mstep. eapply mwp_mono; [by eapply mwp_server_handshake|].
    intros res s1 X1 Hs1. mstep; [by mstep|]. unfold hev_socks5_server_service. do 4 mstep.
    destruct (s5_type (sv_base s1)); msteps; try done.
    all: destruct Hs1 as (Ho & Hf & Hok); split_and!; [done|done|destruct Hok; by econstructor].
  - intros _ s1 X1 Hs1. apply mwp_server_destruct; try done.
    destruct C; simpl in Hs; [right; by destruct Hs|by left].
Qed.

Lemma server_run_safe_witness :
  mwp (hev_socks5_server_run ex_timeouts no_resolver no_resolver no_gai (mk_sin6 0 []) ≫=
       λ _, hev_socks5_server_destruct) ex_server {[5]}
    (λ _ s' X', X' = ∅ ∧ sv_auth s' = ex_store ∧ sv_auth_ref s' = 1).
Proof.
  apply (server_run_safe ex_timeouts no_resolver no_resolver no_gai (mk_sin6 0 []) ex_server (Some ex_creds)).
  - split; [reflexivity|exact ex_store_creds].
  - by vm_compute.
  - reflexivity.
  - reflexivity.
  - intros a u Ha. simpl in Ha. apply lookup_singleton_Some in Ha as [_ <-]. simpl. lia.
Defined.
