(* ===== verification/Session.v ===== *)
(** * Sessions (src/hev-socks5-session.c): the model, and its safety

    A session is a client that connects to the configured server, makes the
    handshake and then forwards data. *)

From S2P Require Import Prelude CString MappedDNSPacket MappedDNSAnswer SocksAddr SocksAddrProps SocksIO SocksClient SocksSegments SocksHandshake SocksSafety.

(** [HevConfigServer] of hev-config.h; the strings without their NUL. *)
Record HevConfigServer := mk_srv {
  srv_user : option (list Z);
  srv_pass : option (list Z);
  srv_mark : Z;
  srv_udp_in_udp : bool;
  srv_port : Z;
  srv_pipeline : bool;
  srv_udp_addr : list Z;
  srv_addr : list Z;
}.

Section session.
Context (T : timeouts) (p4 p6 : list Z → option (list Z))
  (gai : list Z → HevSocks5AddrFamily → option (HevSocks5AddrFamily * list Z)).

(** The result tells whether the session goes on to its splicer. *)
Definition hev_socks5_session_run (srv : HevConfigServer) : M HevSocks5Client bool :=
  res ← hev_socks5_client_connect T p4 p6 gai (srv_addr srv) (srv_port srv);
  if res <? 0 then mret false
  else
    match srv_user srv, srv_pass srv with
    | Some user, Some pass => m_set (hev_socks5_client_set_auth (Some user) (Some pass))
    | _, _ => mret tt
    end;;
    res ← hev_socks5_client_handshake T p4 p6 gai (srv_pipeline srv);
    if res <? 0 then mret false else mret true.

(** ** Safety *)

(** A client as its constructor leaves it. *)
Definition cl_fresh (c : HevSocks5Client) : Prop :=
  s5_fd (cl_base c) = -1 ∧
  match cl_class c with
  | HevSocks5ClientTCP => s5_type (cl_base c) = HEV_SOCKS5_TYPE_TCP ∧ cl_blocks c = 1 ∧
      ∃ d, cl_addr c = Some (enc_dest d) ∧ dest_ok d
  | HevSocks5ClientUDP => (s5_type (cl_base c) = HEV_SOCKS5_TYPE_UDP_IN_TCP ∨
        s5_type (cl_base c) = HEV_SOCKS5_TYPE_UDP_IN_UDP) ∧
      cl_blocks c = 0 ∧ cl_fd c = -1 ∧ cl_addr c = None
  end.

(** The descriptors of a client whose connection is [fd]; the second one only
    after the response ([assoc]). *)
Inductive cl_fds_ok (assoc : bool) (fd : Z) (c : HevSocks5Client) : gset Z → Prop :=
  | cfds_one : (cl_class c = HevSocks5ClientUDP → cl_fd c = -1) → cl_fds_ok assoc fd c {[fd]}
  | cfds_two g : assoc = true → cl_class c = HevSocks5ClientUDP → cl_fd c = g → 0 ≤ g → g ≠ fd →
      cl_fds_ok assoc fd c ({[g]} ∪ {[fd]}).

(** What a connected client keeps; [sent]: whether the request has been tried. *)
Definition cl_inv (sent assoc : bool) (c : HevSocks5Client) (X : gset Z) : Prop :=
  0 ≤ s5_fd (cl_base c) ∧ s5_addr_family (cl_base c) ≠ HEV_SOCKS5_ADDR_FAMILY_UNSPEC ∧
  cl_fds_ok assoc (s5_fd (cl_base c)) c X ∧
  match cl_class c with
  | HevSocks5ClientTCP => s5_type (cl_base c) = HEV_SOCKS5_TYPE_TCP ∧
      if sent then 0 ≤ cl_blocks c ≤ 1 ∧ (cl_addr c ≠ None → cl_blocks c = 1)
      else cl_blocks c = 1 ∧ ∃ d, cl_addr c = Some (enc_dest d) ∧ dest_ok d
  | HevSocks5ClientUDP => (s5_type (cl_base c) = HEV_SOCKS5_TYPE_UDP_IN_TCP ∨
        s5_type (cl_base c) = HEV_SOCKS5_TYPE_UDP_IN_UDP) ∧ cl_addr c = None ∧
      if sent then 0 ≤ cl_blocks c ≤ 1 else cl_blocks c = 0
  end.

Lemma name_into_family name port fam sa fam' :
  hev_socks5_name_into_sockaddr6 p4 p6 gai name port fam = Some (sa, fam') →
  fam' ≠ HEV_SOCKS5_ADDR_FAMILY_UNSPEC.
Proof.
  unfold hev_socks5_name_into_sockaddr6, hev_socks5_name_resolve_ipv4, hev_socks5_name_resolve_ipv6,
    hev_socks5_name_resolve_name. destruct (p4 name); simpl; [by intros [= _ <-]|].
  destruct (p6 name); [by intros [= _ <-]|]. destruct (gai name fam) as [[[] a]|]; naive_solver.
Qed.

Lemma mwp_client_connect addr port c :
  cl_fresh c →
  mwp (hev_socks5_client_connect T p4 p6 gai addr port) c ∅ (λ r c' X',
    (r = -1 ∧ X' = ∅ ∧ cl_fresh c') ∨ (r = 0 ∧ cl_inv false false c' X')).
Proof.
  intros Hc. unfold hev_socks5_client_connect. do 4 mstep.
  destruct (hev_socks5_name_into_sockaddr6 _ _ _ _ _ _) as [[sa fam]|] eqn:Hn; [|mstep; by left].
  mstep. apply mwp_socket; [change (-1 <? 0) with true; cbn iota; mstep; by left|]. intros fd Hfd Hnew.
  destruct (Z.ltb_spec fd 0); [lia|]. assert (({[fd]} ∪ ∅) ∖ {[fd]} = (∅ : gset Z)) as Hback by set_solver.
  do 2 mstep. mstep; [apply mwp_close_fail; [set_solver|]; rewrite Hback; by left|].
  do 2 mstep. mstep; [apply mwp_close_fail; [set_solver|]; rewrite Hback; by left|].
  msteps. right. split; [done|]. rewrite (right_id_L ∅ (∪)). destruct Hc as [_ Hc].
  split_and!; [done|by eapply name_into_family|apply cfds_one; simpl; intros Hk; rewrite Hk in Hc; by destruct Hc as (_ & _ & ? & _)|].
  simpl. destruct (cl_class c); naive_solver.
Qed.

(** Functions that leave the client alone. *)
Lemma mwp_write_methods c X :
  mwp hev_socks5_client_write_auth_methods c X (λ r c' X', c' = c ∧ X' = X).
Proof. unfold hev_socks5_client_write_auth_methods. do 4 mstep. destruct r; by mstep. Qed.

Lemma mwp_write_creds c X : mwp hev_socks5_client_write_auth_creds c X (λ r c' X', c' = c ∧ X' = X).
Proof.
  unfold hev_socks5_client_write_auth_creds. do 4 mstep. destruct (cl_user c), (cl_pass c); try by mstep.
  cbn zeta. do 2 mstep. destruct r; by mstep.
Qed.

Lemma mwp_read_method c X : mwp hev_socks5_client_read_auth_method c X (λ r c' X', c' = c ∧ X' = X).
Proof.
  unfold hev_socks5_client_read_auth_method. do 2 mstep; [by mstep|].
  destruct bs as [|? [|? []]]; try by mstep.
Qed.

Lemma mwp_read_creds c X : mwp hev_socks5_client_read_auth_creds c X (λ r c' X', c' = c ∧ X' = X).
Proof.
  unfold hev_socks5_client_read_auth_creds. do 2 mstep; [by mstep|].
  destruct bs as [|? [|? []]]; try by mstep. mstep; [by mstep|]. by mstep; mstep.
Qed.

(** Sending a request that is in memory. *)
Lemma mwp_send_addr (c : HevSocks5Client) d cmd X (Q : Z → HevSocks5Client → gset Z → Prop) :
  dest_ok d → Q (-1) c X → Q 0 (cl_add_blocks (-1) c) X →
  mwp (addr ← m_opt (Some (enc_dest d));
       addrlen ← m_opt (hev_socks5_addr_len addr);
       if addrlen <? 0 then mret (-1)
       else
         bytes ← m_opt (get_bytes addr 0 (Z.to_nat addrlen));
         ret ← m_send ([5; cmd; 0] ++ bytes);
         if negb ret then mret (-1) else m_set (cl_add_blocks (-1));; mret 0) c X Q.
Proof.
  intros Hd H1 H0. pose proof (addr_len_enc d [] Hd) as Hl. rewrite app_nil_r in Hl.
  mstep. eapply mwp_opt; [done|]. cbn beta. mstep. eapply mwp_opt; [exact Hl|].
  destruct (Z.ltb_spec (Z.of_nat (length (enc_dest d))) 0); [lia|].
  mstep. eapply mwp_opt; [apply get_bytes_all; lia|]. do 2 mstep. destruct r; by msteps.
Qed.

Lemma mwp_write_request c X :
  cl_inv false false c X →
  mwp hev_socks5_client_write_request c X (λ r c' X', cl_inv true false c' X').
Proof.
  intros (Hfd & Hfam & Hok & Hc). unfold hev_socks5_client_write_request. do 2 mstep.
  assert (∃ cmd, type_cmd (s5_type (cl_base c)) = Some cmd) as [cmd ->].
  { destruct (cl_class c); [destruct Hc as [-> _]; eauto|destruct Hc as [[-> | ->] _]; eauto]. }
  mstep. unfold get_upstream_addr. do 2 mstep. destruct (cl_class c) eqn:Hk.
  - unfold hev_socks5_client_tcp_get_upstream_addr. do 5 mstep. destruct Hc as (Ht & Hb & d & -> & Hd).
    apply mwp_send_addr; [done|..]; (split_and!; [done|done|destruct Hok; by econstructor|]); simpl; rewrite Hk; simpl;
      (split; [done|split; [lia|done]]).
  - destruct Hc as (Ht & Ha & Hb). unfold hev_socks5_client_udp_get_upstream_addr. do 2 mstep.
    destruct (s5_addr_family (cl_base c)) eqn:Hf; [done|..]; unfold addr_malloc0; (do 2 mstep);
      (destruct (Z.eqb_spec r.1 0); [done|]); (do 3 mstep).
    + apply (mwp_send_addr _ (D4 [0; 0; 0; 0] 0)); [|split_and!..].
      all: try done. all: try (simpl; congruence). all: try (destruct Hok; by econstructor).
      all: try (simpl; rewrite Hk; simpl; split_and!; [done|done|lia..]).
      split; [by vm_compute|]. split; [done|]. repeat constructor; by vm_compute.
    + apply (mwp_send_addr _ (D6 (replicate 16 0) 0)); [|split_and!..].
      all: try done. all: try (simpl; congruence). all: try (destruct Hok; by econstructor).
      all: try (simpl; rewrite Hk; simpl; split_and!; [done|done|lia..]).
      split; [by vm_compute|]. split; [done|]. repeat constructor; by vm_compute.
Qed.

Lemma cl_inv_sent assoc c X : cl_inv false assoc c X → cl_inv true assoc c X.
Proof.
  intros (Hfd & Hfam & Hok & Hc). split_and!; [done..|]. destruct (cl_class c).
  - destruct Hc as (? & Hb & ?). split; [done|]. split; [lia|done].
  - destruct Hc as (? & ? & Hb). split_and!; [done|done|lia..].
Qed.

Lemma cl_inv_assoc sent c X : cl_inv sent false c X → cl_inv sent true c X.
Proof. intros (Hfd & Hfam & Hok & Hc). split_and!; [done..| |done]. destruct Hok; [by constructor|done]. Qed.

(** A change of the timeout, and of the credentials. *)
Lemma cl_inv_timeout sent assoc c X t :
  cl_inv sent assoc c X → cl_inv sent assoc (cl_set_base (hev_socks5_set_timeout t) c) X.
Proof. intros (Hfd & Hfam & Hok & Hc). split_and!; [done..| |done]. destruct Hok; by econstructor. Qed.
Lemma cl_inv_auth sent assoc c X u p :
  cl_inv sent assoc c X → cl_inv sent assoc (hev_socks5_client_set_auth u p c) X.
Proof. intros (Hfd & Hfam & Hok & Hc). split_and!; [done..| |done]. destruct Hok; by econstructor. Qed.

Lemma mwp_set_upstream addr n c X :
  cl_inv true false c X → hev_socks5_addr_len addr = Some n → n ≤ Z.of_nat (length addr) → Forall is_u8 addr →
  mwp (set_upstream_addr p4 p6 gai addr) c X (λ r c' X', cl_inv true true c' X').
Proof.
  intros Hinv Hl Hn Hb. pose proof (cl_inv_assoc _ _ _ Hinv) as Hinv'. unfold set_upstream_addr. do 2 mstep.
  destruct (cl_class c) eqn:Hk; [unfold hev_socks5_client_tcp_set_upstream_addr; by mstep|]. unfold hev_socks5_client_udp_set_upstream_addr. do 2 mstep.
  destruct (s5_type (cl_base c)) eqn:Ht; try by mstep. do 3 mstep.
  destruct (into_sockaddr6_defined p4 p6 gai addr n (s5_addr_family (cl_base c)) Hl Hn Hb) as [r Hr].
  eapply mwp_opt; [exact Hr|]. destruct r as [[sa fam]|]; [|by mstep].
  mstep. apply mwp_socket; [change (-1 <? 0) with true; cbn iota; by mstep|]. intros fd Hfd Hnew.
  destruct (Z.ltb_spec fd 0); [lia|]. assert (({[fd]} ∪ X) ∖ {[fd]} = X) as Hback by set_solver.
  do 2 mstep. mstep; [apply mwp_close_fail; [set_solver|]; by rewrite Hback|].
  do 2 mstep. mstep; [apply mwp_close_fail; [set_solver|]; by rewrite Hback|].
  msteps. destruct Hinv as (Hf & Hfam & Hok & Hc). destruct Hok as [Hone|g Hg]; [|done].
  split_and!; [done|done|apply (cfds_two _ _ _ fd); try done; simpl; set_solver|].
  simpl. rewrite Hk in *. simpl in *. done.
Qed.

Lemma mwp_read_response c X :
  cl_inv true false c X →
  mwp (hev_socks5_client_read_response p4 p6 gai) c X (λ r c' X', cl_inv true true c' X').
Proof.
  intros Hinv. pose proof (cl_inv_assoc _ _ _ Hinv) as Hinv'.
  unfold hev_socks5_client_read_response. do 2 mstep; [by mstep|].
  destruct bs as [|ver [|rep [|rsv [|atype []]]]]; try by mstep.
  rewrite !Forall_cons in H0. destruct H0 as (_ & _ & _ & Ha & _).
  mstep; [by mstep|]. mstep; [by mstep|]. cbn zeta. mstep; [|mstep; [|by mstep]].
  - do 2 mstep; [by mstep|]. mstep. apply Z.eqb_eq in Heqb1 as ->.
    eapply mwp_mono; [eapply (mwp_set_upstream _ 7); [done|done|simpl; lia|by constructor]|].
    intros r c' X' H'. by mstep; mstep.
  - do 2 mstep; [by mstep|]. mstep. apply Z.eqb_eq in Heqb2 as ->.
    eapply mwp_mono; [eapply (mwp_set_upstream _ 19); [done|done|simpl; lia|by constructor]|].
    intros r c' X' H'. by mstep; mstep.
Qed.

(** The rest of both handshakes. *)
Lemma mwp_response_tail c X :
  cl_inv true false c X →
  mwp (hev_socks5_client_read_response p4 p6 gai ≫= λ res, if res <? 0 then mret (-1) else mret 0) c X
    (λ r c' X', cl_inv true true c' X').
Proof.
  intros H. mstep. eapply mwp_mono; [by apply mwp_read_response|]. intros r c' X' H'. by mstep; mstep.
Qed.

Ltac unchanged L :=
  mstep; eapply mwp_mono; [apply L|]; intros ? ? ? [-> ->]; cbn beta.

Lemma mwp_handshake_standard c X :
  cl_inv false false c X →
  mwp (hev_socks5_client_handshake_standard p4 p6 gai) c X (λ r c' X', cl_inv true true c' X').
Proof.
  intros H. pose proof (cl_inv_assoc _ _ _ (cl_inv_sent _ _ _ H)) as Hend.
  unfold hev_socks5_client_handshake_standard.
  unchanged mwp_write_methods. mstep; [by mstep|]. unchanged mwp_read_method. mstep; [by mstep|].
  mstep. apply (mwp_mono _ _ _ (λ _ c' X', c' = c ∧ X' = X)).
  - mstep; [|by mstep; mstep]. unchanged mwp_write_creds. mstep; [by mstep|].
    unchanged mwp_read_creds. by mstep; mstep.
  - intros ? ? ? [-> ->]. mstep; [by mstep|]. mstep. eapply mwp_mono; [by apply mwp_write_request|].
    intros r c' X' Hc'. mstep; [mstep; by apply cl_inv_assoc|]. by apply mwp_response_tail.
Qed.

Lemma mwp_handshake_pipeline c X :
  cl_inv false false c X →
  mwp (hev_socks5_client_handshake_pipeline p4 p6 gai) c X (λ r c' X', cl_inv true true c' X').
Proof.
  intros H. pose proof (cl_inv_assoc _ _ _ (cl_inv_sent _ _ _ H)) as Hend.
  unfold hev_socks5_client_handshake_pipeline.
  unchanged mwp_write_methods. mstep; [by mstep|]. unchanged mwp_write_creds. mstep; [by mstep|].
  mstep. eapply mwp_mono; [by apply mwp_write_request|]. intros r c1 X1 H1. cbn beta.
  pose proof (cl_inv_assoc _ _ _ H1) as Hend1. mstep; [by mstep|].
  unchanged mwp_read_method. mstep; [by mstep|].
  mstep. apply (mwp_mono _ _ _ (λ _ c' X', c' = c1 ∧ X' = X1)).
  - mstep; [|by mstep; mstep]. unchanged mwp_read_creds. by mstep; mstep.
  - intros ? ? ? [-> ->]. mstep; [by mstep|]. by apply mwp_response_tail.
Qed.

Lemma mwp_client_handshake pipeline c X :
  cl_inv false false c X →
  mwp (hev_socks5_client_handshake T p4 p6 gai pipeline) c X (λ r c' X', cl_inv true true c' X').
Proof.
  intros H. unfold hev_socks5_client_handshake. do 2 mstep. mstep.
  apply (mwp_mono _ _ _ (λ _, cl_inv true true)).
  - apply (cl_inv_timeout _ _ _ _ (tcp_timeout T)) in H.
    destruct pipeline; [by apply mwp_handshake_pipeline|by apply mwp_handshake_standard].
  - intros r c' X' H'. do 2 mstep. destruct (s5_type (cl_base c')); msteps; by try apply cl_inv_timeout.
Qed.

(** The destructor closes the descriptors that are open. *)
Lemma mwp_base_destruct c X (Q : unit → HevSocks5Client → gset Z → Prop) :
  (0 ≤ s5_fd (cl_base c) → s5_fd (cl_base c) ∈ X) →
  Q tt c (if 0 <=? s5_fd (cl_base c) then X ∖ {[s5_fd (cl_base c)]} else X) → mwp hev_socks5_destruct c X Q.
Proof.
  intros Hfd HQ. unfold hev_socks5_destruct. do 2 mstep.
  destruct (Z.leb_spec 0 (s5_fd (cl_base c))) as [H|H]; [|by mstep]. specialize (Hfd H). by msteps.
Qed.

Lemma mwp_client_destruct_fresh c :
  cl_fresh c → mwp hev_socks5_client_destruct c ∅ (λ _ c' X', X' = ∅ ∧ cl_blocks c' = 0).
Proof.
  intros [Hfd Hc]. unfold hev_socks5_client_destruct, hev_socks5_client_tcp_destruct, hev_socks5_client_udp_destruct.
  do 2 mstep. destruct (cl_class c).
  - destruct Hc as (_ & Hb & d & Ha & _). do 2 mstep. rewrite Ha. do 2 mstep.
    apply mwp_base_destruct; simpl; rewrite Hfd; [lia|]. split; [done|]. simpl. lia.
  - destruct Hc as (_ & Hb & Hf & _). do 3 mstep. rewrite Hf. cbn iota beta. simpl. mstep.
    apply mwp_base_destruct; rewrite Hfd; [lia|]. by split.
Qed.

Lemma mwp_client_destruct c X :
  cl_inv true true c X →
  mwp hev_socks5_client_destruct c X (λ _ c' X', X' = ∅ ∧ 0 ≤ cl_blocks c' ≤ 1).
Proof.
  intros (Hfd & _ & Hok & Hc). unfold hev_socks5_client_destruct, hev_socks5_client_tcp_destruct,
    hev_socks5_client_udp_destruct. do 2 mstep. destruct (cl_class c) eqn:Hk.
  - destruct Hc as (_ & Hb & Ha). do 2 mstep. destruct Hok as [_|g ? ? ? ? ?]; [|congruence].
    destruct (cl_addr c) as [a|]; do 2 mstep;
      (apply mwp_base_destruct; simpl; [set_solver|]); rewrite (proj2 (Z.leb_le _ _)) by done;
      (split; [set_solver|]); simpl; [|lia]. specialize (Ha ltac:(done)). lia.
  - destruct Hc as (_ & _ & Hb). do 3 mstep. destruct Hok as [Hone|g ? ? Hg ? ?].
    + rewrite Hone by done. simpl. mstep. apply mwp_base_destruct; [set_solver|].
      rewrite (proj2 (Z.leb_le _ _)) by done. split; [set_solver|lia].
    + rewrite Hg, (proj2 (Z.leb_le 0 g)) by done. msteps. apply mwp_base_destruct; [set_solver|].
      rewrite (proj2 (Z.leb_le _ _)) by done. split; [set_solver|lia].
Qed.
End session.


Definition ex_srv : HevConfigServer :=
  mk_srv (Some [97; 98]) (Some [112]) 0 true 1080 true [] [49; 46; 50; 46; 51; 46; 52].


(** The bound on memory of a session is met.  When the request cannot be
    sent, the address is neither released by [hev_socks5_client_write_request]
    nor kept in the client, so that its destructor leaves one block behind. *)
Theorem client_request_leak :
  ∃ bs k c', hev_socks5_client_write_request ex_client = Send bs k ∧
    io_bind (λ x, hev_socks5_client_destruct x.2) (k false) = Ret (tt, c') ∧ cl_blocks c' = 1.
Proof. do 3 eexists. split; [reflexivity|]. split; reflexivity. Qed.

(** ** Making clients *)

Lemma tcp_construct_spec d post :
  dest_ok d → ∃ c, hev_socks5_client_tcp_construct (enc_dest d ++ post) true = Some (0, c) ∧
    cl_fresh c ∧ tcp_client c d.
Proof.
  intros Hd. unfold hev_socks5_client_tcp_construct. rewrite addr_len_enc by done. cbn [mbind option_bind negb].
  destruct (Z.ltb_spec (Z.of_nat (length (enc_dest d))) 0); [lia|].
  rewrite (get_bytes_app [] (enc_dest d) post) by (done || lia). cbn [mbind option_bind].
  eexists. split; [reflexivity|]. split; [split; [done|]; split_and!; [done|done|by exists d]|by split_and!].
Qed.


