(* ===== verification/SocksUDP.v ===== *)
(** * UDP over SOCKS5 (src/core/src/hev-socks5-udp.c): the model

    Datagrams travel with an address in front: on the TCP connection each with a
    header that gives the lengths, or as UDP datagrams with three reserved
    bytes.  The TCP stream is given by the pieces in which its bytes arrive, and
    by the result of a read when there are no more ([us_tail]: 0 at the end of
    the stream, negative for an error or a timeout); a call with [MSG_WAITALL]
    reads on until it has all it asked for, or gives what it has. *)

From S2P Require Import Prelude CString MappedDNSPacket MappedDNSAnswer SocksAddr SocksClient.

Definition UDP_BUF_SIZE : Z := 1500.

(** Sockets of the forwarder: the stream, the datagram socket to the client or
    to the server of the association, and the one to the world. *)
Record usock := mk_usock {
  us_self : HevSocks5;
  us_chunks : list (list Z);                      (* the stream, to be read *)
  us_tail : Z;
  us_out : list Z;                                (* the stream, written *)
  us_send : bool;                                 (* whether sends succeed *)
  us_connect : bool;                              (* and [connect] *)
  us_dgrams : list (list Z);                      (* datagrams of the peer *)
  us_dgrams_out : list (list Z);
  us_world : list (list Z * sockaddr_in6);        (* datagrams from the world *)
  us_world_out : list (list Z * sockaddr_in6);
  us_bound : option sockaddr_in6;                 (* the method [binder] was called with *)
}.

Definition us_set_chunks (x : list (list Z)) (s : usock) : usock :=
  mk_usock (us_self s) x (us_tail s) (us_out s) (us_send s) (us_connect s) (us_dgrams s) (us_dgrams_out s)
    (us_world s) (us_world_out s) (us_bound s).
Definition us_add_out (x : list Z) (s : usock) : usock :=
  mk_usock (us_self s) (us_chunks s) (us_tail s) (us_out s ++ x) (us_send s) (us_connect s) (us_dgrams s) (us_dgrams_out s)
    (us_world s) (us_world_out s) (us_bound s).
Definition us_set_dgrams (x : list (list Z)) (s : usock) : usock :=
  mk_usock (us_self s) (us_chunks s) (us_tail s) (us_out s) (us_send s) (us_connect s) x (us_dgrams_out s)
    (us_world s) (us_world_out s) (us_bound s).
Definition us_add_dgrams_out (x : list (list Z)) (s : usock) : usock :=
  mk_usock (us_self s) (us_chunks s) (us_tail s) (us_out s) (us_send s) (us_connect s) (us_dgrams s) (us_dgrams_out s ++ x)
    (us_world s) (us_world_out s) (us_bound s).
Definition us_set_world (x : list (list Z * sockaddr_in6)) (s : usock) : usock :=
  mk_usock (us_self s) (us_chunks s) (us_tail s) (us_out s) (us_send s) (us_connect s) (us_dgrams s) (us_dgrams_out s)
    x (us_world_out s) (us_bound s).
Definition us_add_world_out (x : list (list Z * sockaddr_in6)) (s : usock) : usock :=
  mk_usock (us_self s) (us_chunks s) (us_tail s) (us_out s) (us_send s) (us_connect s) (us_dgrams s) (us_dgrams_out s)
    (us_world s) (us_world_out s ++ x) (us_bound s).
Definition us_set_bound (a : sockaddr_in6) (s : usock) : usock :=
  mk_usock (us_self s) (us_chunks s) (us_tail s) (us_out s) (us_send s) (us_connect s) (us_dgrams s) (us_dgrams_out s)
    (us_world s) (us_world_out s) (Some a).
Definition us_set_self (f : HevSocks5 → HevSocks5) (s : usock) : usock :=
  mk_usock (f (us_self s)) (us_chunks s) (us_tail s) (us_out s) (us_send s) (us_connect s) (us_dgrams s) (us_dgrams_out s)
    (us_world s) (us_world_out s) (us_bound s).

(** ** Reads from the stream *)

(** What is left of a piece. *)
Definition cons_chunk (c : list Z) (cs : list (list Z)) : list (list Z) :=
  match c with [] => cs | _ => c :: cs end.

(** One [recv]: bytes of the first piece, or the result of a read at the end. *)
Definition stream_recv (n : nat) : stm usock (Z * list Z) := λ s,
  match us_chunks s with
  | [] => Some ((us_tail s, []), s)
  | c :: cs =>
      let bs := take n c in
      Some ((Z.of_nat (length bs), bs), us_set_chunks (cons_chunk (drop n c) cs) s)
  end.

(** The loop of [MSG_WAITALL]: the bytes it gets, and the pieces that remain. *)
Fixpoint recv_all (cs : list (list Z)) (n : nat) : list Z * list (list Z) :=
  match cs with
  | [] => ([], [])
  | c :: cs =>
      if decide (n ≤ length c)%nat then (take n c, cons_chunk (drop n c) cs)
      else let r := recv_all cs (n - length c) in (c ++ r.1, r.2)
  end.

Definition stream_recv_all (n : nat) : stm usock (Z * list Z) := λ s,
  let r := recv_all (us_chunks s) n in
  Some ((match n, r.1 with
         | O, _ => 0
         | _, [] => us_tail s
         | _, bs => Z.of_nat (length bs)
         end, r.1), us_set_chunks r.2 s).

(** ** Messages *)

(** The pointer [addr] of a message: as it was, NULL, or into the buffer. *)
Inductive addr_ptr := AddrUninit | AddrNull | AddrAt (off : nat).

(** [HevSocks5UDPMsg] with the memory of its buffer; [ms_buf] is the offset of
    the pointer [buf] in it. *)
Record HevSocks5UDPMsg := mk_msg {
  ms_mem : list Z;
  ms_addr : addr_ptr;
  ms_buf : nat;
  ms_len : Z;
}.

(** A message to send: an address and the data. *)
Definition out_msg : Type := HevSocks5Addr * list Z.

(** The address of a message that has been received: [None] outside memory. *)
Definition msg_addr (m : HevSocks5UDPMsg) : option (list Z) :=
  match ms_addr m with AddrAt off => Some (drop off (ms_mem m)) | _ => None end.
Definition msg_data (m : HevSocks5UDPMsg) : option (list Z) := get_bytes (ms_mem m) (ms_buf m) (Z.to_nat (ms_len m)).

(** ** Sending *)

(** The outer [None] is a read outside the address, the inner one the result -1. *)
Definition udp_frame_tcp (m : out_msg) : option (option (list Z)) :=
  addrlen ← hev_socks5_addr_len m.1;
  if addrlen <=? 0 then Some None
  else
    addr ← get_bytes m.1 0 (Z.to_nat addrlen);
    Some (Some ((u8 <$> le16_bytes (htons (u16 (Z.of_nat (length m.2))))) ++ [u8 (3 + addrlen)] ++ addr ++ m.2)).

Definition udp_frame_udp (m : out_msg) : option (option (list Z)) :=
  addrlen ← hev_socks5_addr_len m.1;
  if addrlen <=? 0 then Some None
  else
    addr ← get_bytes m.1 0 (Z.to_nat addrlen);
    Some (Some ([0; 0; 0] ++ addr ++ m.2)).

(** The loops of the two functions: all frames, or -1. *)
Fixpoint udp_frames (frame : out_msg → option (option (list Z))) (ms : list out_msg) :
    option (option (list (list Z))) :=
  match ms with
  | [] => Some (Some [])
  | m :: ms =>
      f ← frame m;
      match f with
      | None => Some None
      | Some f =>
          fs ← udp_frames frame ms;
          Some (fs ← fs; Some (f :: fs))
      end
  end.

Definition hev_socks5_udp_sendmmsg_tcp (ms : list out_msg) : stm usock Z := λ s,
  match udp_frames udp_frame_tcp ms with
  | None => None
  | Some None => Some (-1, s)
  | Some (Some fs) =>
      if negb (us_send s) then Some (-1, s)
      else Some (Z.of_nat (length ms), us_add_out (mjoin fs) s)
  end.

Definition hev_socks5_udp_sendmmsg_udp (ms : list out_msg) : stm usock Z := λ s,
  match udp_frames udp_frame_udp ms with
  | None => None
  | Some None => Some (-1, s)
  | Some (Some fs) =>
      if negb (us_send s) then Some (-1, s)
      else Some (Z.of_nat (length fs), us_add_dgrams_out fs s)
  end.

Definition hev_socks5_udp_sendmmsg (ms : list out_msg) : stm usock Z :=
  type ← gets (λ s, s5_type (us_self s));
  match type with
  | HEV_SOCKS5_TYPE_UDP_IN_TCP => hev_socks5_udp_sendmmsg_tcp ms
  | HEV_SOCKS5_TYPE_UDP_IN_UDP => hev_socks5_udp_sendmmsg_udp ms
  | _ => mret (-1)
  end.

(** ** Receiving on the stream *)

(** The bytes that fit are stored; a store outside the buffer is undefined. *)
Definition store (mem : list Z) (i : nat) (bs : list Z) : option (list Z) :=
  if decide (i + length bs ≤ length mem)%nat then Some (put mem i bs) else None.

(** The header, five bytes of it. *)
Definition recv_head : stm usock (Z * list Z) :=
  r ← stream_recv 5;
  if (0 <? r.1) && (r.1 <? 5) then
    r' ← stream_recv_all (5 - Z.to_nat r.1);
    mret (r.1 + r'.1, r.2 ++ r'.2)
  else mret r.

(** The loop of [hev_socks5_udp_recvmmsg_tcp] over the messages that are left;
    the result is that of the function, with the messages after it. *)
Fixpoint recv_tcp_loop (msgv done : list HevSocks5UDPMsg) (rlen : Z) : stm usock (Z * list HevSocks5UDPMsg) :=
  match msgv with
  | [] => mret (rlen, done)
  | m :: msgv =>
      r ← recv_head;
      if negb (r.1 =? 5) then
        mret (if 0 <? rlen then rlen else r.1, done ++ m :: msgv)
      else
        match r.2 with
        | [d0; d1; hdrlen; atype; len] =>
            if hdrlen <? 5 then mret (-1, done ++ m :: msgv)
            else
              let addrlen := hdrlen - 3 in
              let datlen := ntohs (le16 d0 d1) in
              if u64 (ms_len m - addrlen) <? datlen then mret (-1, done ++ m :: msgv)
              else
                r ← stream_recv_all (Z.to_nat (addrlen - 2 + datlen));
                mem ← (λ s, match store (ms_mem m) (ms_buf m + 2) (take (Z.to_nat (addrlen - 2)) r.2) ≫= λ mem,
                               store mem (ms_buf m + Z.to_nat addrlen) (drop (Z.to_nat (addrlen - 2)) r.2) with
                            | Some mem => Some (mem, s) | None => None end);
                if negb (r.1 =? addrlen - 2 + datlen) then
                  mret (r.1, done ++ mk_msg mem (ms_addr m) (ms_buf m) (ms_len m) :: msgv)
                else
                  let m' := mk_msg (put mem (ms_buf m) [atype; len]) (AddrAt (ms_buf m))
                              (ms_buf m + Z.to_nat addrlen) datlen in
                  recv_tcp_loop msgv (done ++ [m']) (rlen + 1)
        | _ => ub
        end
  end.

Definition hev_socks5_udp_recvmmsg_tcp (msgv : list HevSocks5UDPMsg) : stm usock (Z * list HevSocks5UDPMsg) :=
  recv_tcp_loop msgv [] 0.

(** ** Receiving datagrams *)

(** The kernel fills the buffers: the messages with what [mvec[i].msg_len] is. *)
Fixpoint fill_dgrams (msgv : list HevSocks5UDPMsg) (ds : list (list Z)) : option (list (HevSocks5UDPMsg * Z)) :=
  match msgv, ds with
  | m :: msgv, d :: ds =>
      let bs := take (Z.to_nat (ms_len m)) d in
      mem ← store (ms_mem m) (ms_buf m) bs;
      ms ← fill_dgrams msgv ds;
      Some ((mk_msg mem (ms_addr m) (ms_buf m) (ms_len m), Z.of_nat (length bs)) :: ms)
  | _, _ => Some []
  end.

(** The loop over the datagrams that have come: whether it went through, and
    the messages.  [None] is a read outside the buffer. *)
Fixpoint parse_dgrams (ms : list (HevSocks5UDPMsg * Z)) : option (bool * list HevSocks5UDPMsg) :=
  match ms with
  | [] => Some (true, [])
  | (m, msg_len) :: ms =>
      addrlen ← hev_socks5_addr_len (drop (ms_buf m + 3) (ms_mem m));
      if msg_len <? 4 then
        '(ok, r) ← parse_dgrams ms;
        Some (ok, mk_msg (ms_mem m) AddrNull (ms_buf m) 0 :: r)
      else if addrlen <=? 0 then Some (false, mk_msg (ms_mem m) (ms_addr m) (ms_buf m) msg_len :: ms.*1)
      else
        let doff := 3 + addrlen in
        if msg_len <? doff then Some (false, mk_msg (ms_mem m) (ms_addr m) (ms_buf m) msg_len :: ms.*1)
        else
          '(ok, r) ← parse_dgrams ms;
          Some (ok, mk_msg (ms_mem m) (AddrAt (ms_buf m + 3)) (ms_buf m + Z.to_nat doff) (msg_len - doff) :: r)
  end.

Definition hev_socks5_udp_recvmmsg_udp (msgv : list HevSocks5UDPMsg) : stm usock (Z * list HevSocks5UDPMsg) := λ s,
  let ds := take (length msgv) (us_dgrams s) in
  let res := Z.of_nat (length ds) in
  if res <=? 0 then Some ((us_tail s, msgv), s)
  else
    ms ← fill_dgrams msgv ds;
    let s := us_set_dgrams (drop (length msgv) (us_dgrams s)) s in
    let rest := drop (length ds) msgv in
    if (s5_udp_associated (us_self s) =? 0) && negb (us_connect s) then Some ((-1, ms.*1 ++ rest), s)
    else
      let s := if s5_udp_associated (us_self s) =? 0 then us_set_self (s5_set_associated 1) s else s in
      '(ok, ms) ← parse_dgrams ms;
      Some ((if ok : bool then res else -1, ms ++ rest), s).

Definition hev_socks5_udp_recvmmsg (msgv : list HevSocks5UDPMsg) : stm usock (Z * list HevSocks5UDPMsg) :=
  type ← gets (λ s, s5_type (us_self s));
  match type with
  | HEV_SOCKS5_TYPE_UDP_IN_TCP => hev_socks5_udp_recvmmsg_tcp msgv
  | HEV_SOCKS5_TYPE_UDP_IN_UDP => hev_socks5_udp_recvmmsg_udp msgv
  | _ => mret (-1, msgv)
  end.

(** ** Forwarding *)

(** A result of 0 or less: whether it is -1 with [EAGAIN]. *)
Definition fwd_fail (again : bool) (res : Z) : Z := if (res =? -1) && again then 0 else -1.

Section forward.
Context (inet_pton4 inet_pton6 : list Z → option (list Z))
  (getaddrinfo : list Z → HevSocks5AddrFamily → option (HevSocks5AddrFamily * list Z))
  (stale : list Z)                      (* what a buffer holds before a round *)
  (again : bool)                        (* errno is EAGAIN after a failure *)
  (binder_ok : bool).                   (* the method [binder] succeeds *)

(** The loop of [hev_socks5_udp_fwd_f] over the [n] messages received: [None] is
    undefined (an address that was never set, or a message past the end of the
    vector), [Some None] the result -1. *)
Fixpoint fwd_f_loop (n : nat) (svec : list HevSocks5UDPMsg) (family : HevSocks5AddrFamily) :
    option (option (list (list Z * sockaddr_in6))) :=
  match n with
  | O => Some (Some [])
  | S n =>
      match svec with
      | [] => None
      | m :: svec =>
          if ms_len m =? 0 then Some None
          else
            match ms_addr m with
            | AddrUninit => None
            | AddrNull => Some None
            | AddrAt off =>
                r ← hev_socks5_addr_into_sockaddr6 inet_pton4 inet_pton6 getaddrinfo (drop off (ms_mem m)) family;
                match r with
                | None => Some None
                | Some (addr, _) =>
                    data ← msg_data m;
                    rest ← fwd_f_loop n svec family;
                    Some (rest ← rest; Some ((data, addr) :: rest))
                end
            end
      end
  end.

(** [hev_socks5_udp_fwd_f] with [num] buffers; [bind] before and after. *)
Definition hev_socks5_udp_fwd_f (num : nat) (bind : bool) : stm usock (Z * bool) :=
  let svec := replicate num (mk_msg stale AddrUninit 0 UDP_BUF_SIZE) in
  r ← hev_socks5_udp_recvmmsg svec;
  if 0 <? r.1 then
    family ← gets (λ s, s5_addr_family (us_self s));
    match fwd_f_loop (Z.to_nat r.1) r.2 family with
    | None => ub
    | Some None => mret (-1, bind)
    | Some (Some dvec) =>
        if negb bind && negb binder_ok then mret (-1, bind)
        else
          (if bind : bool then mret tt
           else match dvec with (_, a) :: _ => modify (us_set_bound a) | [] => ub end);;
          ok ← gets us_send;
          if ok : bool then modify (us_add_world_out dvec);; mret (1, true)
          else mret (fwd_fail again (-1), true)
    end
  else mret (fwd_fail again r.1, bind).

(** [hev_socks5_udp_fwd_b]; each datagram from the world gets the address it came
    from, in memory of 19 bytes. *)
Definition hev_socks5_udp_fwd_b (num : nat) : stm usock Z := λ s,
  let ds := take num (us_world s) in
  let s := us_set_world (drop num (us_world s)) s in
  match ds with
  | [] => Some (fwd_fail again (-1), s)
  | _ =>
      let dvec := (λ d : list Z * sockaddr_in6,
        ((hev_socks5_addr_from_sockaddr6 (replicate 19 0) d.2).2, take (Z.to_nat UDP_BUF_SIZE) d.1)) <$> ds in
      '(res, s) ← hev_socks5_udp_sendmmsg dvec s;
      Some (if 0 <? res then 1 else fwd_fail again res, s)
  end.

(** What the splicer does after a round: [HEV_TASK_YIELD], [HEV_TASK_WAITIO], or
    [break]. *)
Inductive yield := HEV_TASK_YIELD | HEV_TASK_WAITIO | Break.
Definition splice_type (res_f res_b : Z) : yield :=
  if (0 <? res_f) || (0 <? res_b) then HEV_TASK_YIELD
  else if Z.land res_f res_b =? 0 then HEV_TASK_WAITIO
  else Break.

(** One round of [hev_socks5_udp_splicer]: a direction that has failed is not
    tried again. *)
Definition splice_round (num : nat) (st : Z * Z * bool) : stm usock (Z * Z * bool) :=
  let '(res_f, res_b, bind) := st in
  rf ← (if 0 <=? res_f then hev_socks5_udp_fwd_f num bind else mret (res_f, bind));
  rb ← (if 0 <=? res_b then hev_socks5_udp_fwd_b num else mret res_b);
  mret (rf.1, rb, rf.2).

(** The loop: [yields] are the results of the yielder, in which new data may have
    arrived ([arrive]); it ends when they do. *)
Fixpoint splice_loop (num : nat) (arrive : list (usock → usock)) (st : Z * Z * bool) : stm usock (Z * Z * bool) :=
  st ← splice_round num st;
  let '(res_f, res_b, bind) := st in
  match splice_type res_f res_b, arrive with
  | Break, _ | _, [] => mret st
  | _, f :: arrive => modify f;; splice_loop num arrive st
  end.

Definition hev_socks5_udp_splicer (num : nat) (malloc_ok : bool) (arrive : list (usock → usock)) : stm usock Z :=
  if negb malloc_ok then mret (-1)
  else splice_loop num arrive (1, 1, false);; mret 0.
End forward.
