(* ===== verification/SocksUDPProps.v ===== *)
(** * UDP over SOCKS5: the theorems *)

From S2P Require Import Prelude CString MappedDNSPacket MappedDNSAnswer SocksAddr SocksAddrProps SocksClient SocksSegments SocksUDP.

(** ** The stream *)

Definition chunks_ok (cs : list (list Z)) : Prop := Forall (λ c, c ≠ []) cs.

Lemma cons_chunk_ok c cs : chunks_ok cs → chunks_ok (cons_chunk c cs).
Proof. destruct c; [done|]. by constructor. Qed.
Lemma join_cons_chunk c cs : mjoin (cons_chunk c cs) = c ++ mjoin cs.
Proof. by destruct c. Qed.

Lemma recv_all_spec cs n :
  (recv_all cs n).1 = take n (mjoin cs) ∧ mjoin (recv_all cs n).2 = drop n (mjoin cs) ∧
  (chunks_ok cs → chunks_ok (recv_all cs n).2).
Proof.
  revert n. induction cs as [|c cs IH]; intros n; simpl.
  - rewrite take_nil, drop_nil. done.
  - case_decide as Hn; simpl.
    + rewrite join_cons_chunk, take_app_le, drop_app_le by lia. split_and!; [done..|].
      intros [_ ?]%Forall_cons. by apply cons_chunk_ok.
    + destruct (IH (n - length c)%nat) as (-> & -> & Hok). rewrite take_app_ge, drop_app_ge by lia.
      split_and!; [done..|]. intros [_ ?]%Forall_cons. auto.
Qed.

(** A read of [bs], which is at the front of the stream. *)
Lemma stream_recv_all_spec s n bs rest :
  mjoin (us_chunks s) = bs ++ rest → n = length bs → chunks_ok (us_chunks s) →
  ∃ cs, stream_recv_all n s = Some ((Z.of_nat n, bs), us_set_chunks cs s) ∧ mjoin cs = rest ∧ chunks_ok cs.
Proof.
  intros Hj -> Hok. unfold stream_recv_all. destruct (recv_all_spec (us_chunks s) (length bs)) as (H1 & H2 & H3).
  rewrite Hj, take_app_length in H1. rewrite Hj, drop_app_length in H2.
  exists (recv_all (us_chunks s) (length bs)).2. rewrite H1. split_and!; [|done|auto].
  by destruct bs.
Qed.

Lemma recv_head_spec s bs rest :
  mjoin (us_chunks s) = bs ++ rest → length bs = 5%nat → chunks_ok (us_chunks s) →
  ∃ cs, recv_head s = Some ((5, bs), us_set_chunks cs s) ∧ mjoin cs = rest ∧ chunks_ok cs.
Proof.
  intros Hj Hl Hok. unfold recv_head, mbind at 1, stm_bind, stream_recv.
  destruct (us_chunks s) as [|c cs] eqn:Hc; [by destruct bs|]. pose proof Hok as [Hne Hok']%Forall_cons. simpl in Hj.
  destruct (decide (length c < 5)%nat) as [Hlt|Hge].
  - rewrite take_ge, drop_ge by lia. cbn [fst snd cons_chunk]. destruct c as [|c0 c]; [done|].
    destruct (Z.ltb_spec 0 (Z.of_nat (length (c0 :: c)))); [|simpl in *; lia].
    destruct (Z.ltb_spec (Z.of_nat (length (c0 :: c))) 5); [|lia]. cbn [andb].
    assert (bs = (c0 :: c) ++ drop (length (c0 :: c)) bs) as Hbs.
    { apply (f_equal (take (length bs))) in Hj. rewrite take_app_length, take_app_ge in Hj by lia.
      rewrite <-Hj at 2. by rewrite drop_app_length. }
    rewrite Hbs in Hj. rewrite <-app_assoc in Hj. apply app_inv_head in Hj.
    destruct (stream_recv_all_spec (us_set_chunks cs s) (5 - length (c0 :: c)) (drop (length (c0 :: c)) bs) rest)
      as (cs' & Hr & Hj' & Hok''); [done|rewrite length_drop; lia|done|].
    unfold mbind, stm_bind. rewrite Nat2Z.id, Hr. exists cs'. split_and!; [|done|done].
    cbn [fst snd]. rewrite <-Hbs. unfold mret, stm_ret. do 3 f_equal. rewrite <-Nat2Z.inj_add. lia.
  - assert (take 5 c = bs) as Ht.
    { apply (f_equal (take 5)) in Hj. by rewrite take_app_le, (take_app_length' bs) in Hj by lia. }
    rewrite Ht, Hl. exists (cons_chunk (drop 5 c) cs). split_and!; [done| |by apply cons_chunk_ok].
    rewrite join_cons_chunk. apply (f_equal (drop 5)) in Hj.
    by rewrite drop_app_le, (drop_app_length' bs) in Hj by lia.
Qed.

(** No more data: the result of a read at the end. *)
Lemma recv_head_end s : us_chunks s = [] → us_tail s ≤ 0 → recv_head s = Some ((us_tail s, []), s).
Proof.
  intros Hc Ht. unfold recv_head, mbind, stm_bind, stream_recv. rewrite Hc. cbn [fst].
  by destruct (Z.ltb_spec 0 (us_tail s)); [lia|].
Qed.

(** ** Frames *)

(** A datagram that the stream can carry: the header length is one byte. *)
Definition udp_ok (x : dest * list Z) : Prop :=
  dest_ok x.1 ∧ (length (enc_dest x.1) ≤ 252)%nat ∧ Z.of_nat (length x.2) < 65536.

Definition alen (x : dest * list Z) : nat := length (enc_dest x.1).

Definition tcp_frame (x : dest * list Z) : list Z :=
  be16 (Z.of_nat (length x.2)) ++ [3 + Z.of_nat (alen x)] ++ enc_dest x.1 ++ x.2.
Definition udp_frame (x : dest * list Z) : list Z := [0; 0; 0] ++ enc_dest x.1 ++ x.2.

(** An address of a message: the destination, and what follows it in memory. *)
Definition msg_of (x : dest * list Z) (post : list Z) : out_msg := (enc_dest x.1 ++ post, x.2).

Lemma alen_pos x : udp_ok x → (0 < alen x ≤ 252)%nat.
Proof.
  intros (Hd & Hl & _). split; [|done]. unfold alen. pose proof (length_enc_dest _ Hd) as H.
  destruct Hd as [_ Hd]. destruct (x.1); simpl in *; lia.
Qed.

Lemma get_bytes_prefix (a b : list Z) n : n = length a → get_bytes (a ++ b) 0 n = Some a.
Proof. intros ->. by apply (get_bytes_app [] a b). Qed.

Lemma udp_frame_tcp_spec x post : udp_ok x → udp_frame_tcp (msg_of x post) = Some (Some (tcp_frame x)).
Proof.
  intros Hx. pose proof (alen_pos _ Hx) as Ha. destruct Hx as (Hd & Hl & Hlen). unfold udp_frame_tcp, msg_of. simpl.
  rewrite addr_len_enc by done. simpl. fold (alen x). destruct (Z.leb_spec (Z.of_nat (alen x)) 0); [lia|].
  rewrite get_bytes_prefix by (unfold alen; lia). simpl. unfold tcp_frame.
  assert (is_u16 (Z.of_nat (length x.2))) as Hu by (unfold is_u16; lia).
  destruct (port_facts _ Hu) as (Hb & _). unfold u16. rewrite Z.mod_small by (unfold is_u16 in Hu; lia).
  rewrite <-Hb. unfold u8 at 3. rewrite Z.mod_small by (change (2 ^ 8) with 256; lia). done.
Qed.

Lemma udp_frame_udp_spec x post : udp_ok x → udp_frame_udp (msg_of x post) = Some (Some (udp_frame x)).
Proof.
  intros Hx. pose proof (alen_pos _ Hx) as Ha. destruct Hx as (Hd & Hl & Hlen). unfold udp_frame_udp, msg_of. simpl.
  rewrite addr_len_enc by done. simpl. fold (alen x). destruct (Z.leb_spec (Z.of_nat (alen x)) 0); [lia|].
  by rewrite get_bytes_prefix by (unfold alen; lia).
Qed.

Lemma udp_frames_spec frame (spec : dest * list Z → list Z) xs ms :
  (∀ x post, udp_ok x → frame (msg_of x post) = Some (Some (spec x))) →
  Forall udp_ok xs → Forall2 (λ x m, ∃ post, m = msg_of x post) xs ms →
  udp_frames frame ms = Some (Some (spec <$> xs)).
Proof.
  intros Hf Hok H. induction H as [|x m xs ms (post & ->) H IH]; [done|].
  apply Forall_cons in Hok as [Hx Hok]. simpl. rewrite Hf by done. simpl. by rewrite IH.
Qed.

(** ** Receiving *)

(** A buffer of the forwarder, large enough for the datagram. *)
Definition buf_ok (m : HevSocks5UDPMsg) : Prop :=
  ms_buf m = 0%nat ∧ ms_len m = Z.of_nat (length (ms_mem m)) ∧ ms_len m ≤ 65536.
Definition buf_fits (x : dest * list Z) (m : HevSocks5UDPMsg) : Prop :=
  buf_ok m ∧ (3 + alen x + length x.2 ≤ length (ms_mem m))%nat.

(** A message holds the datagram. *)
Definition holds (x : dest * list Z) (m : HevSocks5UDPMsg) : Prop :=
  (∃ post, msg_addr m = Some (enc_dest x.1 ++ post)) ∧ msg_data m = Some x.2 ∧
  ms_len m = Z.of_nat (length x.2).

(** The header of a frame. *)
Lemma tcp_frame_head x : udp_ok x →
  ∃ atype len rest, enc_dest x.1 = [atype; len] ++ rest ∧
    tcp_frame x = (be16 (Z.of_nat (length x.2)) ++ [3 + Z.of_nat (alen x); atype; len]) ++ rest ++ x.2.
Proof.
  intros ((Hp & Hd) & _). unfold tcp_frame. destruct x as [[[|? a] p|[|? a] p|n p] data]; simpl in *;
    try naive_solver; by eexists _, _, _.
Qed.

Lemma store_app pre old post i bs :
  i = length pre → length old = length bs → store (pre ++ old ++ post) i bs = Some (pre ++ bs ++ post).
Proof.
  intros -> Hl. unfold store. rewrite decide_True by (rewrite !length_app; lia). f_equal. by apply put_app.
Qed.

Lemma recv_tcp_one x m msgv done rlen s rest :
  udp_ok x → buf_fits x m → mjoin (us_chunks s) = tcp_frame x ++ rest → chunks_ok (us_chunks s) →
  ∃ m' cs, recv_tcp_loop (m :: msgv) done rlen s =
      recv_tcp_loop msgv (done ++ [m']) (rlen + 1) (us_set_chunks cs s) ∧
    holds x m' ∧ mjoin cs = rest ∧ chunks_ok cs.
Proof.
  intros Hx ((Hb & Hml & Hmax) & Hfit) Hj Hok. pose proof (alen_pos _ Hx) as Ha.
  destruct (tcp_frame_head x Hx) as (atype & len & rest' & He & Hframe). rewrite Hframe, <-app_assoc in Hj.
  destruct (recv_head_spec s _ _ Hj eq_refl Hok) as (cs1 & Hh & Hj1 & Hok1).
  assert (is_u16 (Z.of_nat (length x.2))) as Hu by (destruct Hx as (_ & _ & ?); unfold is_u16; lia).
  destruct (port_facts _ Hu) as (_ & Hnt & Hle & _).
  assert (alen x = S (S (length rest'))) as Hal by (unfold alen; rewrite He; done).
  rewrite <-app_assoc in Hj1. set (n := (length rest' + length x.2)%nat).
  destruct (stream_recv_all_spec (us_set_chunks cs1 s) n (rest' ++ x.2) rest) as (cs2 & Hr & Hj2 & Hok2);
    [by rewrite <-app_assoc|rewrite length_app; done|done|].
  destruct (mem_split (ms_mem m) 2) as (o0 & m1 & Hm0 & Hl0); [lia|].
  destruct (mem_split m1 (length rest')) as (o1 & m2 & -> & Hl1); [rewrite Hm0, length_app in Hfit; lia|].
  destruct (mem_split m2 (length x.2)) as (o2 & m3 & -> & Hl2); [rewrite Hm0, !length_app in Hfit; lia|].
  simpl recv_tcp_loop. rewrite (stm_bind_run _ _ _ _ _ Hh). cbn [fst snd]. change (negb (5 =? 5)) with false. cbn iota.
  change (be16 _ ++ [_; atype; len]) with
    [Z.of_nat (length x.2) / 256; Z.of_nat (length x.2) mod 256; 3 + Z.of_nat (alen x); atype; len].
  cbn iota. destruct (Z.ltb_spec (3 + Z.of_nat (alen x)) 5); [lia|]. cbn zeta. rewrite Hle, Hnt.
  replace (3 + Z.of_nat (alen x) - 3) with (Z.of_nat (alen x)) by lia.
  assert (u64 (ms_len m - Z.of_nat (alen x)) = ms_len m - Z.of_nat (alen x)) as ->.
  { unfold u64. apply Z.mod_small. change (2 ^ 64) with 18446744073709551616. lia. }
  destruct (Z.ltb_spec (ms_len m - Z.of_nat (alen x)) (Z.of_nat (length x.2))); [lia|].
  replace (Z.to_nat (Z.of_nat (alen x) - 2 + Z.of_nat (length x.2))) with n by lia.
  rewrite (stm_bind_run _ _ _ _ _ Hr). cbn [fst snd].
  replace (Z.to_nat (Z.of_nat (alen x) - 2)) with (length rest') by lia.
  rewrite take_app_length, drop_app_length, Hb, Hm0, Nat2Z.id.
  rewrite (store_app o0 o1 (o2 ++ m3)) by lia. cbn [mbind option_bind].
  replace (o0 ++ rest' ++ o2 ++ m3) with ((o0 ++ rest') ++ o2 ++ m3) by by rewrite <-app_assoc.
  rewrite (store_app (o0 ++ rest') o2 m3) by (rewrite ?length_app; lia).
  erewrite stm_bind_run by reflexivity.
  destruct (Z.eqb_spec (Z.of_nat n) (Z.of_nat (alen x) - 2 + Z.of_nat (length x.2))); [|lia]. simpl negb. cbn iota.
  replace ((o0 ++ rest') ++ x.2 ++ m3) with ([] ++ o0 ++ rest' ++ x.2 ++ m3) by by rewrite <-app_assoc.
  rewrite (put_app [] o0) by done. eexists _, cs2. split; [reflexivity|]. split_and!; [|done|done].
  split_and!; simpl.
  - exists (x.2 ++ m3). by rewrite He, <-app_assoc.
  - unfold msg_data. simpl. rewrite Nat2Z.id.
    replace (atype :: len :: rest' ++ x.2 ++ m3) with (([atype; len] ++ rest') ++ x.2 ++ m3) by by rewrite <-app_assoc.
    apply get_bytes_app; [by rewrite <-He|done].
  - done.
Qed.

Lemma us_set_chunks_set cs cs' s : us_set_chunks cs (us_set_chunks cs' s) = us_set_chunks cs s.
Proof. done. Qed.

Lemma recv_tcp_many xs bufs more done rlen s rest :
  Forall udp_ok xs → Forall2 buf_fits xs bufs →
  mjoin (us_chunks s) = mjoin (tcp_frame <$> xs) ++ rest → chunks_ok (us_chunks s) →
  ∃ ms cs, recv_tcp_loop (bufs ++ more) done rlen s =
      recv_tcp_loop more (done ++ ms) (rlen + Z.of_nat (length xs)) (us_set_chunks cs s) ∧
    Forall2 holds xs ms ∧ mjoin cs = rest ∧ chunks_ok cs.
Proof.
  intros Hxs HF. revert done rlen s rest Hxs. induction HF as [|x m xs bufs Hm HF IH]; intros done rlen s rest Hxs Hj Hok.
  - exists [], (us_chunks s). rewrite app_nil_r, Z.add_0_r. split_and!; [by destruct s|constructor|done|done].
  - apply Forall_cons in Hxs as [Hx Hxs]. simpl in Hj. rewrite <-app_assoc in Hj.
    destruct (recv_tcp_one x m (bufs ++ more) done rlen s _ Hx Hm Hj Hok) as (m' & cs1 & Hrun & Hh & Hj1 & Hok1).
    destruct (IH (done ++ [m']) (rlen + 1) (us_set_chunks cs1 s) rest Hxs Hj1 Hok1) as (ms & cs2 & Hrun2 & Hh2 & ? & ?).
    exists (m' :: ms), cs2. cbn [app]. rewrite Hrun, Hrun2, us_set_chunks_set, <-app_assoc. simpl.
    split_and!; [f_equal; lia|by constructor|done|done].
Qed.

Lemma chunks_empty cs : chunks_ok cs → mjoin cs = [] → cs = [].
Proof. destruct cs as [|[|] cs]; [done| |done]. intros [? _]%Forall_cons. done. Qed.

(** At the end of the data, the loop gives what it has. *)
Lemma recv_tcp_end more done rlen s :
  us_chunks s = [] → us_tail s ≤ 0 → 0 < rlen →
  recv_tcp_loop more done rlen s = Some ((rlen, done ++ more), s).
Proof.
  intros Hc Ht Hr. destruct more as [|m more]; simpl; [by rewrite app_nil_r|].
  rewrite (stm_bind_run _ _ _ _ _ (recv_head_end s Hc Ht)). cbn [fst snd].
  destruct (Z.eqb_spec (us_tail s) 5); [lia|]. simpl. by destruct (Z.ltb_spec 0 rlen); [|lia].
Qed.

Lemma recvmmsg_tcp_spec xs bufs more s :
  xs ≠ [] → Forall udp_ok xs → Forall2 buf_fits xs bufs →
  mjoin (us_chunks s) = mjoin (tcp_frame <$> xs) → chunks_ok (us_chunks s) → us_tail s ≤ 0 →
  ∃ ms, hev_socks5_udp_recvmmsg_tcp (bufs ++ more) s =
      Some ((Z.of_nat (length xs), ms ++ more), us_set_chunks [] s) ∧ Forall2 holds xs ms.
Proof.
  intros Hne Hxs HF Hj Hok Ht. rewrite <-(app_nil_r (mjoin (tcp_frame <$> xs))) in Hj.
  destruct (recv_tcp_many xs bufs more [] 0 s [] Hxs HF Hj Hok) as (ms & cs & Hrun & Hh & Hjc & Hokc).
  apply chunks_empty in Hjc as ->; [|done]. exists ms. split; [|done].
  unfold hev_socks5_udp_recvmmsg_tcp. rewrite Hrun. apply recv_tcp_end; [done|done|].
  destruct xs; [done|]. simpl. lia.
Qed.

(** ** Datagrams *)

Lemma fill_dgrams_spec xs bufs more :
  Forall2 buf_fits xs bufs →
  ∃ ms, fill_dgrams (bufs ++ more) (udp_frame <$> xs) = Some ms ∧
    Forall2 (λ x m, ∃ post, m.1 = mk_msg (udp_frame x ++ post) (ms_addr m.1) 0 (ms_len m.1) ∧
      m.2 = Z.of_nat (length (udp_frame x))) xs ms.
Proof.
  intros HF. induction HF as [|x m xs bufs ((Hb & Hl & _) & Hfit) HF (ms & IH & Hms)].
  - exists []. split; [by destruct more|constructor].
  - assert (length (udp_frame x) = (3 + alen x + length x.2)%nat) as Hlen
      by (unfold udp_frame, alen; rewrite !length_app; simpl; lia).
    destruct (mem_split (ms_mem m) (length (udp_frame x))) as (old & post & Hmem & Hold); [lia|].
    cbn [app fmap list_fmap fill_dgrams]. rewrite take_ge by lia. rewrite Hb, Hmem.
    rewrite (store_app [] old post) by done. cbn [mbind option_bind]. rewrite IH. cbn [mbind option_bind].
    eexists. split; [reflexivity|]. constructor; [|done]. exists post. done.
Qed.

Lemma parse_dgrams_spec xs ms :
  Forall udp_ok xs →
  Forall2 (λ x m, ∃ post, m.1 = mk_msg (udp_frame x ++ post) (ms_addr m.1) 0 (ms_len m.1) ∧
      m.2 = Z.of_nat (length (udp_frame x))) xs ms →
  ∃ r, parse_dgrams ms = Some (true, r) ∧ Forall2 holds xs r.
Proof.
  intros Hxs HF. induction HF as [|x [m ml] xs ms (post & Hm & Hml) HF IH]; [by exists []|].
  apply Forall_cons in Hxs as [Hx Hxs]. destruct (IH Hxs) as (r & Hr & Hh). pose proof (alen_pos _ Hx) as Ha.
  cbn [fst snd] in Hm, Hml. rewrite Hm, Hml. cbn [parse_dgrams ms_buf ms_mem Nat.add].
  replace (udp_frame x ++ post) with ([0; 0; 0] ++ enc_dest x.1 ++ x.2 ++ post)
    by (unfold udp_frame; by rewrite <-!app_assoc).
  change (drop 3 ([0; 0; 0] ++ enc_dest x.1 ++ x.2 ++ post)) with (enc_dest x.1 ++ x.2 ++ post).
  destruct Hx as (Hd & Hl & Hlen). rewrite addr_len_enc by done. cbn [mbind option_bind]. fold (alen x).
  assert (length (udp_frame x) = (3 + alen x + length x.2)%nat) as Hlf
    by (unfold udp_frame, alen; rewrite !length_app; simpl; lia).
  rewrite Hlf. destruct (Z.ltb_spec (Z.of_nat (3 + alen x + length x.2)) 4); [lia|].
  destruct (Z.leb_spec (Z.of_nat (alen x)) 0); [lia|]. cbn zeta.
  destruct (Z.ltb_spec (Z.of_nat (3 + alen x + length x.2)) (3 + Z.of_nat (alen x))); [lia|].
  rewrite Hr. cbn [mbind option_bind]. eexists. split; [reflexivity|]. constructor; [|done].
  split_and!.
  - by exists (x.2 ++ post).
  - unfold msg_data. cbn [ms_mem ms_buf ms_len].
    replace ([0; 0; 0] ++ enc_dest x.1 ++ x.2 ++ post) with (([0; 0; 0] ++ enc_dest x.1) ++ x.2 ++ post)
      by by rewrite <-app_assoc.
    apply get_bytes_app; [rewrite length_app; unfold alen; simpl; lia|lia].
  - cbn [ms_len]. lia.
Qed.

Lemma recvmmsg_udp_spec xs bufs more s :
  xs ≠ [] → Forall udp_ok xs → Forall2 buf_fits xs bufs → us_dgrams s = udp_frame <$> xs → us_connect s = true →
  ∃ ms s', hev_socks5_udp_recvmmsg_udp (bufs ++ more) s = Some ((Z.of_nat (length xs), ms ++ more), s') ∧
    Forall2 holds xs ms ∧ s5_addr_family (us_self s') = s5_addr_family (us_self s) ∧ us_send s' = us_send s ∧
    us_world_out s' = us_world_out s ∧ us_bound s' = us_bound s.
Proof.
  intros Hne Hxs HF Hd Hc. unfold hev_socks5_udp_recvmmsg_udp.
  pose proof (Forall2_length _ _ _ HF) as Hlen.
  rewrite Hd, take_ge, length_fmap by (rewrite length_fmap, length_app; lia).
  destruct (Z.leb_spec (Z.of_nat (length xs)) 0); [destruct xs; simpl in *; [done|lia]|]. cbn zeta.
  destruct (fill_dgrams_spec xs bufs more HF) as (ms & -> & Hms). cbn [mbind option_bind].
  destruct (parse_dgrams_spec xs ms Hxs Hms) as (r & Hr & Hh).
  change (us_connect (us_set_dgrams _ s)) with (us_connect s). rewrite Hc, andb_false_r, Hr. cbn [mbind option_bind].
  rewrite Hlen, drop_app_length. exists r. eexists. split; [reflexivity|]. split; [done|].
  by case_match.
Qed.

(** ** Round trip *)

(** What the sender [s] has sent, to reach the state [s'], is what there is to
    read at [r]. *)
Definition delivered (s s' r : usock) : Prop :=
  s5_type (us_self r) = s5_type (us_self s) ∧
  match s5_type (us_self s) with
  | HEV_SOCKS5_TYPE_UDP_IN_TCP => chunks_ok (us_chunks r) ∧ us_tail r ≤ 0 ∧
      us_out s' = us_out s ++ mjoin (us_chunks r)
  | HEV_SOCKS5_TYPE_UDP_IN_UDP => us_connect r = true ∧ us_dgrams_out s' = us_dgrams_out s ++ us_dgrams r
  | _ => False
  end.

Definition is_udp (type : HevSocks5Type) : Prop :=
  type = HEV_SOCKS5_TYPE_UDP_IN_TCP ∨ type = HEV_SOCKS5_TYPE_UDP_IN_UDP.

Lemma sendmmsg_spec xs ms s :
  is_udp (s5_type (us_self s)) → us_send s = true → Forall udp_ok xs →
  Forall2 (λ x m, ∃ post, m = msg_of x post) xs ms →
  ∃ s', hev_socks5_udp_sendmmsg ms s = Some (Z.of_nat (length xs), s') ∧ us_world s' = us_world s ∧
    match s5_type (us_self s) with
    | HEV_SOCKS5_TYPE_UDP_IN_TCP => us_out s' = us_out s ++ mjoin (tcp_frame <$> xs)
    | _ => us_dgrams_out s' = us_dgrams_out s ++ (udp_frame <$> xs)
    end.
Proof.
  intros Ht Hs Hxs HF. pose proof (Forall2_length _ _ _ HF) as Hlen.
  unfold hev_socks5_udp_sendmmsg. erewrite stm_bind_run by reflexivity.
  destruct Ht as [-> | ->].
  - unfold hev_socks5_udp_sendmmsg_tcp. rewrite (udp_frames_spec _ tcp_frame xs) by (done || apply udp_frame_tcp_spec).
    rewrite Hs. simpl. rewrite Hlen. eexists. by split.
  - unfold hev_socks5_udp_sendmmsg_udp. rewrite (udp_frames_spec _ udp_frame xs) by (done || apply udp_frame_udp_spec).
    rewrite Hs. simpl. rewrite length_fmap. eexists. by split.
Qed.

Lemma recvmmsg_spec xs ms s s' r bufs more :
  is_udp (s5_type (us_self s)) → us_send s = true → xs ≠ [] → Forall udp_ok xs →
  Forall2 (λ x m, ∃ post, m = msg_of x post) xs ms →
  hev_socks5_udp_sendmmsg ms s = Some (Z.of_nat (length xs), s') → delivered s s' r → Forall2 buf_fits xs bufs →
  ∃ rs r', hev_socks5_udp_recvmmsg (bufs ++ more) r = Some ((Z.of_nat (length xs), rs ++ more), r') ∧
    Forall2 holds xs rs ∧ s5_addr_family (us_self r') = s5_addr_family (us_self r) ∧ us_send r' = us_send r ∧
    us_world_out r' = us_world_out r ∧ us_bound r' = us_bound r.
Proof.
  intros Ht Hs Hne Hxs HF Hsend [Htr Hdel] Hb.
  destruct (sendmmsg_spec xs ms s Ht Hs Hxs HF) as (s1 & Hsend1 & _ & Hout). rewrite Hsend1 in Hsend. simplify_eq.
  unfold hev_socks5_udp_recvmmsg. erewrite stm_bind_run by reflexivity. rewrite Htr.
  destruct Ht as [Ht|Ht]; rewrite Ht in *.
  - destruct Hdel as (Hok & Htl & Hj). rewrite Hout in Hj. apply app_inv_head in Hj.
    destruct (recvmmsg_tcp_spec xs bufs more r Hne Hxs Hb (eq_sym Hj) Hok Htl) as (rs & Hrun & Hh).
    eexists rs, _. split; [exact Hrun|]. done.
  - destruct Hdel as (Hc & Hj). rewrite Hout in Hj. apply app_inv_head in Hj.
    destruct (recvmmsg_udp_spec xs bufs more r Hne Hxs Hb (eq_sym Hj) Hc) as (rs & r' & Hrun & Hh & Hrest).
    eexists rs, _. split; [exact Hrun|]. done.
Qed.


Definition ex_dgrams : list (dest * list Z) :=
  [(D4 [10; 0; 0; 1] 53, [1; 2; 3]); (DName [97; 46; 98] 443, [4])].
Definition ex_usock (type : HevSocks5Type) (cs : list (list Z)) : usock :=
  mk_usock (s5_set_type type (hev_socks5_construct type)) cs (-1) [] true true [] [] [] [] None.
Definition ex_buf : HevSocks5UDPMsg := mk_msg (replicate (Z.to_nat UDP_BUF_SIZE) 7) AddrUninit 0 UDP_BUF_SIZE.

Lemma ex_dgrams_ok : Forall udp_ok ex_dgrams.
Proof.
  repeat constructor; try (by vm_compute); try (simpl; lia); repeat constructor; try (by vm_compute); simpl; lia.
Qed.


(** ** Forwarding *)

Section forward.
Context (p4 p6 : list Z → option (list Z)) (gai : list Z → HevSocks5AddrFamily → option (HevSocks5AddrFamily * list Z)).

(** A datagram that the forwarder can pass on: it fits in a buffer, is not
    empty, and its destination has an address. *)
Definition forwards (fam : HevSocks5AddrFamily) (x : dest * list Z) (y : list Z * sockaddr_in6) : Prop :=
  Z.of_nat (3 + alen x + length x.2) ≤ UDP_BUF_SIZE ∧ x.2 ≠ [] ∧ y.1 = x.2 ∧
  ∃ fam', resolve p4 p6 gai x.1 fam = Some (y.2, fam').

Lemma into_sockaddr6_resolve_post d fam post : dest_ok d →
  hev_socks5_addr_into_sockaddr6 p4 p6 gai (enc_dest d ++ post) fam = Some (resolve p4 p6 gai d fam).
Proof.
  intros Hd. destruct d; [by rewrite into_sockaddr6_4|by rewrite into_sockaddr6_6|by rewrite into_sockaddr6_name].
Qed.

Lemma fwd_f_loop_spec fam xs ys ms more :
  Forall udp_ok xs → Forall2 (forwards fam) xs ys → Forall2 holds xs ms →
  fwd_f_loop p4 p6 gai (length xs) (ms ++ more) fam = Some (Some ys).
Proof.
  intros Hxs HF. revert ms Hxs. induction HF as [|x y xs ys (Hfit & Hne & Hy & fam' & Hr) HF IH];
    intros ms Hxs HH; [done|].
  apply Forall_cons in Hxs as [(Hd & _) Hxs]. inversion HH as [|? m ? ms' ((post & Hma) & Hmd & Hml) HH']; subst.
  cbn [length app fwd_f_loop]. destruct (Z.eqb_spec (ms_len m) 0); [destruct (x.2); simpl in *; [done|lia]|].
  unfold msg_addr in Hma. destruct (ms_addr m) as [| |off]; [done|done|]. simplify_eq. rewrite Hma.
  rewrite into_sockaddr6_resolve_post by done. rewrite Hr, Hmd. cbn [mbind option_bind].
  rewrite (IH ms' Hxs HH'). cbn [mbind option_bind]. by destruct y; simpl in *; subst.
Qed.

Lemma stale_fits fam xs ys stale n :
  length stale = Z.to_nat UDP_BUF_SIZE → Forall2 (forwards fam) xs ys → n = length xs →
  Forall2 buf_fits xs (replicate n (mk_msg stale AddrUninit 0 UDP_BUF_SIZE)).
Proof.
  intros Hst HF ->. induction HF as [|x y xs ys (Hfit & _) HF IH]; simpl; [constructor|].
  constructor; [|done]. unfold UDP_BUF_SIZE in *. split; [split_and!|]; simpl; lia.
Qed.

(** The forwarder delivers.  A round of [hev_socks5_udp_fwd_f], with buffers
    enough and whatever they held, on what [hev_socks5_udp_sendmmsg] has sent
    gives 1; the datagrams that leave are the ones sent, in order, each to the
    address of its destination, and at the first round the socket is bound for
    the first of them. *)
Theorem udp_forward stale again binder_ok xs ys ms s r num (bind : bool) :
  length stale = Z.to_nat UDP_BUF_SIZE → is_udp (s5_type (us_self s)) → us_send s = true → us_send r = true →
  binder_ok = true → xs ≠ [] → (length xs ≤ num)%nat → Forall udp_ok xs →
  Forall2 (forwards (s5_addr_family (us_self r))) xs ys →
  Forall2 (λ x m, ∃ post, m = msg_of x post) xs ms →
  ∃ s', hev_socks5_udp_sendmmsg ms s = Some (Z.of_nat (length xs), s') ∧
    (delivered s s' r →
     ∃ r', hev_socks5_udp_fwd_f p4 p6 gai stale again binder_ok num bind r = Some ((1, true), r') ∧
       us_world_out r' = us_world_out r ++ ys ∧
       us_bound r' = if bind then us_bound r else snd <$> head ys).
Proof.
  intros Hst Ht Hs Hr -> Hne Hnum Hxs HF HM.
  destruct (sendmmsg_spec xs ms s Ht Hs Hxs HM) as (s' & Hsend & _). exists s'. split; [done|]. intros Hdel.
  unfold hev_socks5_udp_fwd_f. set (b := mk_msg stale AddrUninit 0 UDP_BUF_SIZE).
  replace num with (length xs + (num - length xs))%nat by lia. rewrite replicate_add.
  pose proof (stale_fits _ _ _ _ _ Hst HF eq_refl) as Hb. fold b in Hb.
  destruct (recvmmsg_spec xs ms s s' r _ (replicate (num - length xs) b) Ht Hs Hne Hxs HM Hsend Hdel Hb)
    as (rs & r1 & Hrun & Hh & Hfam & Hsd & Hw & Hbd).
  erewrite stm_bind_run by exact Hrun. cbn [fst snd].
  destruct (Z.ltb_spec 0 (Z.of_nat (length xs))); [|destruct xs; simpl in *; [done|lia]].
  erewrite stm_bind_run by reflexivity. rewrite Nat2Z.id, Hfam, (fwd_f_loop_spec _ xs ys) by done.
  rewrite andb_false_r. destruct HF as [|x y xs ys Hxy HF]; [done|]. destruct y as [yd ya].
  destruct bind; (erewrite stm_bind_run by reflexivity); (erewrite stm_bind_run by reflexivity);
    (change (us_send (us_set_bound ya r1)) with (us_send r1)); rewrite Hsd, Hr;
    (eexists; split; [reflexivity|]); simpl; by rewrite Hw, ?Hbd.
Qed.
End forward.

Definition ex_pton4 (n : list Z) : option (list Z) := Some [1; 2; 3; 4].
Definition no_pton (n : list Z) : option (list Z) := None.
Definition no_name (n : list Z) (f : HevSocks5AddrFamily) : option (HevSocks5AddrFamily * list Z) := None.
Definition ex_world : list (list Z * sockaddr_in6) :=
  [([1; 2; 3], mk_sin6 (htons 53) (v4_prefix ++ [10; 0; 0; 1])); ([4], mk_sin6 (htons 443) (v4_prefix ++ [1; 2; 3; 4]))].
Definition ex_stream : list (list Z) := [[0; 3; 10]; [1; 10; 0; 0; 1; 0; 53; 1; 2; 3; 0; 1; 10; 3]; [3; 97; 46; 98; 1; 187; 4]].

Lemma udp_forward_witness :
  ∃ s', hev_socks5_udp_sendmmsg ((λ x, msg_of x []) <$> ex_dgrams) (ex_usock HEV_SOCKS5_TYPE_UDP_IN_TCP []) =
      Some (2, s') ∧
    (delivered (ex_usock HEV_SOCKS5_TYPE_UDP_IN_TCP []) s' (ex_usock HEV_SOCKS5_TYPE_UDP_IN_TCP ex_stream) →
     ∃ r', hev_socks5_udp_fwd_f ex_pton4 no_pton no_name (replicate 1500 7) true true 10 false
         (ex_usock HEV_SOCKS5_TYPE_UDP_IN_TCP ex_stream) = Some ((1, true), r') ∧
       us_world_out r' = ex_world ∧ us_bound r' = Some (mk_sin6 (htons 53) (v4_prefix ++ [10; 0; 0; 1]))).
Proof.
  refine (udp_forward ex_pton4 no_pton no_name (replicate 1500 7) true true ex_dgrams ex_world
    ((λ x, msg_of x []) <$> ex_dgrams) (ex_usock HEV_SOCKS5_TYPE_UDP_IN_TCP [])
    (ex_usock HEV_SOCKS5_TYPE_UDP_IN_TCP ex_stream) 10 false _ _ _ _ _ _ _ _ _ _).
  - reflexivity.
  - by left.
  - reflexivity.
  - reflexivity.
  - reflexivity.
  - done.
  - simpl. lia.
  - exact ex_dgrams_ok.
  - repeat constructor; try (by vm_compute); by eexists.
  - repeat constructor; by eexists.
Defined.

(** The pieces of the witness are what is sent. *)
Example ex_stream_delivered :
  ∃ s', hev_socks5_udp_sendmmsg ((λ x, msg_of x []) <$> ex_dgrams) (ex_usock HEV_SOCKS5_TYPE_UDP_IN_TCP []) =
      Some (2, s') ∧
    delivered (ex_usock HEV_SOCKS5_TYPE_UDP_IN_TCP []) s' (ex_usock HEV_SOCKS5_TYPE_UDP_IN_TCP ex_stream).
Proof. eexists. split; [vm_compute; reflexivity|]. split; [done|]. split; [repeat constructor; done|]. by vm_compute. Qed.

(** The way back: a datagram from the world as the client sees it. *)
Definition from_world (y : list Z * sockaddr_in6) (x : dest * list Z) : Prop :=
  ∃ p, is_u16 p ∧ sin6_port y.2 = htons p ∧ length (sin6_addr y.2) = 16%nat ∧ is_bytes (sin6_addr y.2) ∧
    Z.of_nat (length y.1) ≤ UDP_BUF_SIZE ∧ x = (canon (D6 (sin6_addr y.2) p), y.1).

Lemma canon_ok a p : is_u16 p → length a = 16%nat → is_bytes a → dest_ok (canon (D6 a p)).
Proof.
  intros Hp Ha Hb. unfold canon. destruct (IN6_IS_ADDR_V4MAPPED a); split; try done; simpl.
  split; [rewrite length_drop; lia|]. by apply Forall_drop.
Qed.

Lemma from_world_ok y x : from_world y x →
  udp_ok x ∧ ∃ post, ((hev_socks5_addr_from_sockaddr6 (replicate 19 0) y.2).2, take (Z.to_nat UDP_BUF_SIZE) y.1)
    = msg_of x post.
Proof.
  intros (p & Hp & Hpo & Ha & Hb & Hl & ->). destruct y as [data [po a]]. simpl in *. subst po.
  pose proof (canon_ok a p Hp Ha Hb) as Hd. split.
  - split_and!; [done| |unfold UDP_BUF_SIZE in Hl; simpl; lia]. pose proof (length_enc_dest _ Hd) as Hlen. simpl in *.
    destruct (IN6_IS_ADDR_V4MAPPED a); simpl in *; lia.
  - rewrite from_sockaddr6_spec by (done || (rewrite length_replicate; lia)). rewrite take_ge by lia.
    by eexists.
Qed.

(** The way back.  A round of [hev_socks5_udp_fwd_b] takes the datagrams
    from the world, as many as there are buffers, and gives 1; the client that
    receives what was sent gets, in order, each datagram with the address it
    came from, an IPv4 address when it is IPv4-mapped. *)
Theorem udp_backward again num ys xs s :
  is_udp (s5_type (us_self s)) → us_send s = true → us_world s = ys → ys ≠ [] → (length ys ≤ num)%nat →
  Forall2 from_world ys xs →
  ∃ s', hev_socks5_udp_fwd_b again num s = Some (1, s') ∧ us_world s' = [] ∧
    ∀ r bufs more, delivered s s' r → Forall2 buf_fits xs bufs →
      ∃ rs r', hev_socks5_udp_recvmmsg (bufs ++ more) r = Some ((Z.of_nat (length xs), rs ++ more), r') ∧
        Forall2 holds xs rs.
Proof.
  intros Ht Hs Hw Hne Hnum HF. set (s1 := us_set_world [] s).
  set (ms := (λ d : list Z * sockaddr_in6, ((hev_socks5_addr_from_sockaddr6 (replicate 19 0) d.2).2,
    take (Z.to_nat UDP_BUF_SIZE) d.1)) <$> ys).
  assert (Forall udp_ok xs) as Hxs.
  { clear -HF. induction HF as [|y x ys xs H HF IH]; constructor; [by apply from_world_ok in H as [? _]|done]. }
  assert (Forall2 (λ x m, ∃ post, m = msg_of x post) xs ms) as HM.
  { subst ms. clear -HF. induction HF as [|y x ys xs H HF IH]; constructor; [by apply from_world_ok in H as [_ ?]|done]. }
  assert (xs ≠ []) as Hxne by (by destruct HF).
  destruct (sendmmsg_spec xs ms s1 Ht Hs Hxs HM) as (s' & Hsend & Hws & _).
  exists s'. split_and!; [|done|].
  - unfold hev_socks5_udp_fwd_b. rewrite Hw, take_ge, drop_ge by lia. fold s1.
    destruct ys as [|y ys]; [done|]. fold ms. rewrite Hsend. cbn [mbind option_bind].
    by destruct (Z.ltb_spec 0 (Z.of_nat (length xs))); [|destruct xs; simpl in *; [done|lia]].
  - intros r bufs more Hdel Hb.
    destruct (recvmmsg_spec xs ms s1 s' r bufs more Ht Hs Hxne Hxs HM Hsend Hdel Hb) as (rs & r' & ? & ? & _). eauto.
Qed.

Lemma udp_backward_witness :
  ∃ s', hev_socks5_udp_fwd_b true 10 (us_set_world ex_world (ex_usock HEV_SOCKS5_TYPE_UDP_IN_UDP [])) = Some (1, s') ∧
    us_world s' = [] ∧
    ∀ r bufs more, delivered (us_set_world ex_world (ex_usock HEV_SOCKS5_TYPE_UDP_IN_UDP [])) s' r →
      Forall2 buf_fits [(D4 [10; 0; 0; 1] 53, [1; 2; 3]); (D4 [1; 2; 3; 4] 443, [4])] bufs →
      ∃ rs r', hev_socks5_udp_recvmmsg (bufs ++ more) r = Some ((2, rs ++ more), r') ∧
        Forall2 holds [(D4 [10; 0; 0; 1] 53, [1; 2; 3]); (D4 [1; 2; 3; 4] 443, [4])] rs.
Proof.
  apply (udp_backward true 10 ex_world [(D4 [10; 0; 0; 1] 53, [1; 2; 3]); (D4 [1; 2; 3; 4] 443, [4])]
    (us_set_world ex_world (ex_usock HEV_SOCKS5_TYPE_UDP_IN_UDP []))).
  - by right.
  - reflexivity.
  - reflexivity.
  - done.
  - simpl. lia.
  - repeat constructor; [exists 53|exists 443]; split_and!; try (by vm_compute); apply (bool_decide_unpack _); by vm_compute.
Defined.

(** A datagram that is cut off.  When the stream ends inside a datagram,
    [hev_socks5_udp_recvmmsg_tcp] returns the number of bytes it has read, which
    its caller takes for a number of messages: with one buffer, and three of the
    nine bytes that the header announces, it returns 3, and the forwarder goes on
    to use an address that was never set. *)
Theorem udp_truncated :
  (∃ ms s', hev_socks5_udp_recvmmsg [ex_buf]
      (ex_usock HEV_SOCKS5_TYPE_UDP_IN_TCP [[0; 4; 10; 1; 10; 0; 0; 1]]) = Some ((3, ms), s')) ∧
  hev_socks5_udp_fwd_f no_pton no_pton no_name (replicate 1500 7) true true 1 false
    (ex_usock HEV_SOCKS5_TYPE_UDP_IN_TCP [[0; 4; 10; 1; 10; 0; 0; 1]]) = None.
Proof. split; [eexists _, _|]; vm_compute; reflexivity. Qed.

(** The header length is one byte.  For a name of 249 bytes it is sent as
    0, and the receiver gives up on the stream with -1. *)
Theorem udp_long_name :
  ∃ f, udp_frame_tcp (msg_of (DName (replicate 249 97) 53, [1]) []) = Some (Some f) ∧ f !! 2%nat = Some 0 ∧
    ∃ ms s', hev_socks5_udp_recvmmsg [ex_buf] (ex_usock HEV_SOCKS5_TYPE_UDP_IN_TCP [f]) = Some ((-1, ms), s').
Proof. eexists. split; [vm_compute; reflexivity|]. split; [reflexivity|]. eexists _, _. vm_compute. reflexivity. Qed.
