(* ===== verification/SessionTCP.v ===== *)
(** * TCP sessions (src/hev-socks5-session-tcp.c): the model

    A session moves data between a connection of lwIP ([pcb]) and the socket to
    the SOCKS5 server.  Data of lwIP comes as chains of buffers that are queued
    and written to the socket; data of the socket goes to a ring buffer, of which
    lwIP keeps pointers until the data is acknowledged.  The results of the
    system calls and of lwIP are arguments. *)

From S2P Require Import Prelude RingBuffer SocksAddr SocksClient SocksUDP.

(** The sizes of the configuration of lwIP (lwipopts.h). *)
Definition TCP_MSS : Z := 8191.
Definition TCP_WND : Z := 8 * TCP_MSS.
Definition TCP_SND_BUF : Z := 8 * TCP_MSS.

(** What the session uses of a connection of lwIP: the data given to
    [tcp_write] and not acknowledged, as pointers into the ring buffer; the
    space for more; the bytes [tcp_recved] was called for. *)
Record tcp_pcb := mk_pcb {
  pc_refs : list iovec;
  pc_snd_buf : Z;
  pc_recved : Z;
  pc_shutdown : bool;
}.

(** [st_out] and [st_shut_wr] are the socket: the bytes written, and whether its
    writing side is shut down; [st_timeout] is that of the base object. *)
Record HevSocks5SessionTCP := mk_stcp {
  st_queue : list (list Z);
  st_pcb : option tcp_pcb;
  st_buffer : HevRingBuffer;
  st_pcb_eof : bool;
  st_timeout : Z;
  st_out : list Z;
  st_shut_wr : bool;
}.

Definition st_set_queue (q : list (list Z)) (s : HevSocks5SessionTCP) : HevSocks5SessionTCP :=
  mk_stcp q (st_pcb s) (st_buffer s) (st_pcb_eof s) (st_timeout s) (st_out s) (st_shut_wr s).
Definition st_set_pcb (p : option tcp_pcb) (s : HevSocks5SessionTCP) : HevSocks5SessionTCP :=
  mk_stcp (st_queue s) p (st_buffer s) (st_pcb_eof s) (st_timeout s) (st_out s) (st_shut_wr s).
Definition st_set_buffer (b : HevRingBuffer) (s : HevSocks5SessionTCP) : HevSocks5SessionTCP :=
  mk_stcp (st_queue s) (st_pcb s) b (st_pcb_eof s) (st_timeout s) (st_out s) (st_shut_wr s).
Definition st_set_eof (s : HevSocks5SessionTCP) : HevSocks5SessionTCP :=
  mk_stcp (st_queue s) (st_pcb s) (st_buffer s) true (st_timeout s) (st_out s) (st_shut_wr s).
Definition st_set_timeout (t : Z) (s : HevSocks5SessionTCP) : HevSocks5SessionTCP :=
  mk_stcp (st_queue s) (st_pcb s) (st_buffer s) (st_pcb_eof s) t (st_out s) (st_shut_wr s).
Definition st_add_out (bs : list Z) (s : HevSocks5SessionTCP) : HevSocks5SessionTCP :=
  mk_stcp (st_queue s) (st_pcb s) (st_buffer s) (st_pcb_eof s) (st_timeout s) (st_out s ++ bs) (st_shut_wr s).
Definition st_set_shut_wr (s : HevSocks5SessionTCP) : HevSocks5SessionTCP :=
  mk_stcp (st_queue s) (st_pcb s) (st_buffer s) (st_pcb_eof s) (st_timeout s) (st_out s) true.

(** ** lwIP *)

(** [pbuf_free_header]: the first [n] bytes of a chain are released. *)
Fixpoint pbuf_free_header (q : list (list Z)) (n : nat) : list (list Z) :=
  match q with
  | [] => []
  | p :: q' =>
      if decide (n = 0%nat) then q
      else if decide (length p ≤ n)%nat then pbuf_free_header q' (n - length p)
      else drop n p :: q'
  end.

Definition tcp_recved (n : Z) (p : tcp_pcb) : tcp_pcb :=
  mk_pcb (pc_refs p) (pc_snd_buf p) (pc_recved p + u16 n) (pc_shutdown p).

(** [tcp_write] without copying: whether it succeeds; [ok] is false when lwIP
    fails for another reason than the length. *)
Definition tcp_write (ok : bool) (x : iovec) (p : tcp_pcb) : bool * tcp_pcb :=
  let len := u16 (iov_len x) in
  if (pc_snd_buf p <? len) || negb ok then (false, p)
  else (true, mk_pcb (pc_refs p ++ [mk_iov (iov_base x) len]) (pc_snd_buf p - len) (pc_recved p) (pc_shutdown p)).

Definition tcp_shutdown_tx (p : tcp_pcb) : tcp_pcb :=
  mk_pcb (pc_refs p) (pc_snd_buf p) (pc_recved p) true.

(** ** The two directions *)

(** [tcp_splice_f]; [s] is the result of [writev], [again] whether it failed
    with EAGAIN. *)
Definition tcp_splice_f (s : Z) (again : bool) (self : HevSocks5SessionTCP) : Z * HevSocks5SessionTCP :=
  match st_queue self with
  | [] => if st_pcb_eof self then (-1, st_set_shut_wr self) else (0, self)
  | queue =>
      let iov := mjoin (take 64 queue) in
      if s <=? 0 then (if (s <? 0) && again then 0 else -1, self)
      else
        let self := st_add_out (take (Z.to_nat s) iov) self in
        let self := st_set_queue (pbuf_free_header queue (Z.to_nat (u16 s))) self in
        (1, st_set_pcb (tcp_recved s <$> st_pcb self) self)
  end.

(** The loop over the parts of the vector: no error, the bytes, and the [pcb]. *)
Fixpoint tcp_write_all (ok : bool) (v : list iovec) (p : tcp_pcb) : bool * Z * tcp_pcb :=
  match v with
  | [] => (true, 0, p)
  | x :: v =>
      let '(e1, p1) := tcp_write ok x p in
      let '(e2, s, p2) := tcp_write_all ok v p1 in
      (e1 && e2, iov_len x + s, p2)
  end.

(** [tcp_splice_b]; [r] is the result of [readv], with the bytes [bs] if it is
    positive; [wok] and [ook] are what [tcp_write] and [tcp_output] answer. *)
Definition tcp_splice_b (r : Z) (again : bool) (bs : list Z) (wok ook : bool) (self : HevSocks5SessionTCP) :
    Z * HevSocks5SessionTCP :=
  let iov := hev_ring_buffer_writing (st_buffer self) in
  let '(res, self) :=
    match iov with
    | [] => (0, self)
    | _ =>
        if r <=? 0 then (if (r <? 0) && again then 0 else -1, self)
        else
          let b := st_buffer self in
          (1, st_set_buffer (hev_ring_buffer_write_finish r (set_rdata (iov_scatter (rdata b) iov bs) b)) self)
    end in
  match st_pcb self with
  | None => (-1, self)
  | Some pcb =>
      match hev_ring_buffer_reading (st_buffer self) with
      | [] =>
          if res <? 0 then (res, st_set_pcb (Some (tcp_shutdown_tx pcb)) self) else (res, self)
      | v =>
          let '(err, s, pcb) := tcp_write_all wok v pcb in
          let self := st_set_buffer (hev_ring_buffer_read_finish s (st_buffer self)) self in
          let self := st_set_pcb (Some pcb) self in
          (if err && ook then 1 else -1, self)
      end
  end.

(** ** The callbacks of lwIP *)

(** [p] is the chain, [None] for NULL; the result tells [ERR_OK]. *)
Definition tcp_recv_handler (p : option (list (list Z))) (self : HevSocks5SessionTCP) : bool * HevSocks5SessionTCP :=
  match p with
  | Some p =>
      match st_queue self with
      | [] => (true, st_set_queue p self)
      | queue =>
          if TCP_WND <? u16 (Z.of_nat (length (mjoin queue))) then (false, self)
          else (true, st_set_queue (queue ++ p) self)
      end
  | None => (true, st_set_eof self)
  end.

(** The [len] bytes that are acknowledged are dropped from the pointers. *)
Fixpoint iov_drop (n : Z) (v : list iovec) : list iovec :=
  match v with
  | [] => []
  | x :: v =>
      if iov_len x <=? n then iov_drop (n - iov_len x) v
      else mk_iov (iov_base x + n) (iov_len x - n) :: v
  end.

Definition pcb_acked (len : Z) (p : tcp_pcb) : tcp_pcb :=
  mk_pcb (iov_drop len (pc_refs p)) (pc_snd_buf p + len) (pc_recved p) (pc_shutdown p).

Definition tcp_sent_handler (len : Z) (self : HevSocks5SessionTCP) : HevSocks5SessionTCP :=
  st_set_buffer (hev_ring_buffer_read_release len (st_buffer self)) self.

Definition tcp_err_handler (self : HevSocks5SessionTCP) : HevSocks5SessionTCP :=
  st_set_timeout 0 (st_set_pcb None self).

Inductive tcp_callback :=
  | CbRecv (p : list (list Z))
  | CbEof
  | CbSent (len : Z)
  | CbErr.

(** A callback, after what lwIP does to the connection. *)
Definition tcp_callback_do (c : tcp_callback) (self : HevSocks5SessionTCP) : HevSocks5SessionTCP :=
  match c with
  | CbRecv p => (tcp_recv_handler (Some p) self).2
  | CbEof => (tcp_recv_handler None self).2
  | CbSent len => tcp_sent_handler len (st_set_pcb (pcb_acked len <$> st_pcb self) self)
  | CbErr => tcp_err_handler self
  end.

(** What happens in a session: a round of one direction with the answers of the
    system, or a callback; lwIP takes the data that fits its buffer. *)
Inductive tcp_event :=
  | EvF (s : Z) (again : bool)
  | EvB (r : Z) (again : bool) (bs : list Z) (ook : bool)
  | EvCb (c : tcp_callback).

Definition tcp_event_do (e : tcp_event) (self : HevSocks5SessionTCP) : HevSocks5SessionTCP :=
  match e with
  | EvF s again => (tcp_splice_f s again self).2
  | EvB r again bs ook => (tcp_splice_b r again bs true ook self).2
  | EvCb c => tcp_callback_do c self
  end.

(** ** The splicer *)

(** What a turn of the task meets: the answers to the calls of the two
    directions, the callbacks that run while the task is waiting, and the time
    that was left when it was woken up. *)
Record turn := mk_turn {
  tu_f : Z * bool;
  tu_b : Z * bool * list Z * bool * bool;
  tu_cb : list tcp_callback;
  tu_left : Z;
}.

(** [hev_task_sleep] returns at once for zero. *)
Definition hev_task_sleep (milliseconds left : Z) : Z := if milliseconds =? 0 then 0 else left.

(** [hev_socks5_task_io_yielder] of the object with this timeout. *)
Definition hev_socks5_task_io_yielder (type : yield) (timeout left : Z) : Z :=
  match type with
  | HEV_TASK_YIELD => 0
  | _ =>
      if timeout <? 0 then 0
      else if hev_task_sleep (u32 timeout) left <=? 0 then -1 else 0
  end.

(** [task_io_yielder]; the place of the session among the others is not part of
    this state. *)
Definition tcp_task_io_yielder (type : yield) (t : turn) (self : HevSocks5SessionTCP) : Z * HevSocks5SessionTCP :=
  (hev_socks5_task_io_yielder type (st_timeout self) (tu_left t),
   foldl (λ self c, tcp_callback_do c self) self (tu_cb t)).

(** [hev_socks5_session_tcp_splice] at its start. *)
Definition tcp_splice_init (buffer_size : Z) (memory : list Z) (self : HevSocks5SessionTCP) : HevSocks5SessionTCP :=
  st_set_buffer (hev_ring_buffer_alloca buffer_size memory) self.

(** One round of its loop, with what comes next. *)
Definition tcp_splice_round (f : Z * bool) (b : Z * bool * list Z * bool * bool) (st : Z * Z)
    (self : HevSocks5SessionTCP) : yield * (Z * Z) * HevSocks5SessionTCP :=
  let '(res_f, self) := if 0 <=? st.1 then tcp_splice_f f.1 f.2 self else (st.1, self) in
  let '(r, again, bs, wok, ook) := b in
  let '(res_b, self) := if 0 <=? st.2 then tcp_splice_b r again bs wok ook self else (st.2, self) in
  (splice_type res_f res_b, (res_f, res_b), self).

(** The loops, along the turns of the task; [None] when the turns are used up
    and the loop still runs. *)
Fixpoint tcp_splice_loop (ts : list turn) (st : Z * Z) (self : HevSocks5SessionTCP) :
    option (list turn * HevSocks5SessionTCP) :=
  match ts with
  | [] => None
  | t :: ts =>
      let '(type, st, self) := tcp_splice_round (tu_f t) (tu_b t) st self in
      match type with
      | Break => Some (ts, self)
      | _ =>
          let '(res, self) := tcp_task_io_yielder type t self in
          if res <? 0 then Some (ts, self) else tcp_splice_loop ts st self
      end
  end.

(** The condition of the last loop: data is not acknowledged yet. *)
Definition tcp_splice_drain (self : HevSocks5SessionTCP) : bool :=
  match st_pcb self with
  | None => false
  | Some _ => negb (hev_ring_buffer_get_use_size (st_buffer self) =? 0)
  end.

Fixpoint tcp_drain_loop (ts : list turn) (self : HevSocks5SessionTCP) : option HevSocks5SessionTCP :=
  if tcp_splice_drain self then
    match ts with
    | [] => None
    | t :: ts =>
        let '(res, self) := tcp_task_io_yielder HEV_TASK_WAITIO t self in
        if res <? 0 then Some self else tcp_drain_loop ts self
    end
  else Some self.

Definition hev_socks5_session_tcp_splice (tcp_buffer_size : Z) (memory : list Z) (ts : list turn)
    (self : HevSocks5SessionTCP) : option HevSocks5SessionTCP :=
  match st_pcb self with
  | None => Some self
  | Some _ =>
      '(ts, self) ← tcp_splice_loop ts (1, 1) (tcp_splice_init tcp_buffer_size memory self);
      tcp_drain_loop ts self
  end.

(** [hev_socks5_session_tcp_bind] with the mark of the configuration and the
    result of [set_sock_mark]. *)
Definition hev_socks5_session_tcp_bind (mark mark_res : Z) : Z :=
  if mark =? 0 then 0 else if mark_res <? 0 then -1 else 0.

(** [hev_socks5_session_tcp_destruct]: lwIP forgets its callbacks and aborts the
    connection, and the queue is released; what is left of the session. *)
Definition hev_socks5_session_tcp_destruct (self : HevSocks5SessionTCP) : HevSocks5SessionTCP :=
  st_set_queue [] (st_set_pcb None self).

(** [hev_socks5_session_tcp_construct] on the memory [mem] of the address, with
    the local end of the connection and what the mapped DNS knows of it: the base
    object and the session, none when it fails. *)
Definition hev_socks5_session_tcp_construct (mem : HevSocks5Addr) (ip : ip_addr) (port : Z) (name : option (list Z))
    (malloc_ok : bool) (pcb : tcp_pcb) : option (option (HevSocks5Client * HevSocks5SessionTCP)) :=
  addr ← hev_socks5_addr_from_lwip mem ip port name;
  '(res, c) ← hev_socks5_client_tcp_construct addr malloc_ok;
  Some (if res <? 0 then None
        else Some (c, mk_stcp [] (Some pcb) (mk_ring 0 0 0 0 0 []) false (s5_timeout (cl_base c)) [] false)).

Definition hev_socks5_session_tcp_new (self_ok : bool) (mem : HevSocks5Addr) (ip : ip_addr) (port : Z)
    (name : option (list Z)) (malloc_ok : bool) (pcb : tcp_pcb) :
    option (option (HevSocks5Client * HevSocks5SessionTCP)) :=
  if self_ok then hev_socks5_session_tcp_construct mem ip port name malloc_ok pcb else Some None.
