(* ===== verification/SessionTCPProps.v ===== *)
(** * TCP sessions: the data of both directions *)

From S2P Require Import Prelude RingBuffer SocksUDP SessionTCP.

(** ** Positions in the ring buffer *)

(** The positions a vector covers. *)
Definition iov_pos (v : list iovec) : list Z := mjoin ((λ x, seqZ (iov_base x) (iov_len x)) <$> v).

Definition bytes_at (d : list Z) (ps : list Z) : list Z := omap (λ p, d !! Z.to_nat p) ps.

Lemma bytes_at_app d ps1 ps2 : bytes_at d (ps1 ++ ps2) = bytes_at d ps1 ++ bytes_at d ps2.
Proof. apply omap_app. Qed.

Lemma bytes_at_cons d p ps :
  bytes_at d (p :: ps) = match d !! Z.to_nat p with Some x => x :: bytes_at d ps | None => bytes_at d ps end.
Proof. done. Qed.

Lemma bytes_at_seqZ d b n : 0 ≤ b → bytes_at d (seqZ b n) = take (Z.to_nat n) (drop (Z.to_nat b) d).
Proof.
  remember (Z.to_nat n) as k eqn:Hk. revert b n Hk. induction k as [|k IH]; intros b n Hk Hb.
  - by rewrite seqZ_nil by lia.
  - rewrite seqZ_cons by lia. rewrite bytes_at_cons, IH by lia. rewrite Z2Nat.inj_succ by done.
    destruct (d !! Z.to_nat b) as [x|] eqn:Hx.
    + by rewrite (drop_S d x (Z.to_nat b) Hx).
    + apply lookup_ge_None in Hx. by rewrite !drop_ge, !take_nil by lia.
Qed.

Lemma iov_gather_pos d v : Forall (λ x, 0 ≤ iov_base x) v → iov_gather d v = bytes_at d (iov_pos v).
Proof.
  induction 1 as [|x v Hx Hv IH]; [done|].
  change (iov_gather d (x :: v)) with (take (Z.to_nat (iov_len x)) (drop (Z.to_nat (iov_base x)) d) ++ iov_gather d v).
  change (iov_pos (x :: v)) with (seqZ (iov_base x) (iov_len x) ++ iov_pos v).
  by rewrite bytes_at_app, bytes_at_seqZ, IH.
Qed.

(** Positions relative to the read pointer. *)
Definition ring_pos (self : HevRingBuffer) (k n : Z) : list Z :=
  (λ i, (rp self + i) mod max_size self) <$> seqZ k n.

Lemma ring_pos_app self k n1 n2 : 0 ≤ n1 → 0 ≤ n2 →
  ring_pos self k (n1 + n2) = ring_pos self k n1 ++ ring_pos self (k + n1) n2.
Proof. intros. unfold ring_pos. by rewrite seqZ_app, fmap_app by lia. Qed.

(** A range without a wrap-around. *)
Lemma ring_pos_seqZ self k n c : (∀ i, k ≤ i < k + n → (rp self + i) mod max_size self = c + i) →
  ring_pos self k n = seqZ (c + k) n.
Proof.
  intros H. unfold ring_pos. rewrite <-(fmap_add_seqZ c k n). apply list_fmap_ext. intros j i Hi.
  apply lookup_seqZ in Hi. apply H. lia.
Qed.

Lemma reading_pos self sent ready :
  ring_rep self sent ready →
  iov_pos (hev_ring_buffer_reading self) = ring_pos self 0 (Z.of_nat (length ready)).
Proof.
  intros [Hm Hd Hrp Hrda Huse Hfit _ _]. unfold hev_ring_buffer_reading, iov_pos.
  destruct (Z.eqb_spec 0 (rda_size self)) as [Hz|Hz]; [by rewrite <-Hrda, <-Hz|].
  rewrite (u64_small (max_size self - rp self)) by lia.
  destruct (Z.leb_spec (rda_size self) (max_size self - rp self)); simpl; rewrite app_nil_r, <-?Hrda.
  - rewrite (ring_pos_seqZ self 0 _ (rp self)), Z.add_0_r; [done|]. intros i Hi. apply Z.mod_small. lia.
  - rewrite (u64_small (rda_size self - _)) by lia.
    replace (rda_size self) with ((max_size self - rp self) + (rda_size self - (max_size self - rp self))) at 2 by lia.
    rewrite ring_pos_app by lia. f_equal.
    + rewrite (ring_pos_seqZ self 0 _ (rp self)), Z.add_0_r; [done|]. intros i Hi. apply Z.mod_small. lia.
    + rewrite (ring_pos_seqZ self _ _ (rp self - max_size self)); [f_equal; lia|].
      intros i Hi. rewrite mod_wrap by lia. lia.
Qed.

Lemma omap_of_fmap {A B C} (f : B → option C) (g : A → B) (l : list A) : omap f (g <$> l) = omap (f ∘ g) l.
Proof. induction l as [|x l IH]; [done|]. csimpl. by rewrite IH. Qed.

Lemma omap_seq (h : nat → option Z) l : (∀ i, (i < length l)%nat → h i = l !! i) → omap h (seq 0 (length l)) = l.
Proof.
  revert h. induction l as [|x l IH]; intros h Hh; [done|]. simpl. rewrite (Hh 0%nat) by (simpl; lia). simpl. f_equal.
  rewrite <-fmap_S_seq, omap_of_fmap. apply IH. intros i Hi. apply (Hh (S i)). simpl. lia.
Qed.

(** The bytes that were sent are where they were. *)
Lemma sent_bytes self sent ready :
  ring_rep self sent ready →
  bytes_at (rdata self) (ring_pos self (- Z.of_nat (length sent)) (Z.of_nat (length sent))) = sent.
Proof.
  intros H. unfold bytes_at, ring_pos, seqZ. rewrite Nat2Z.id, !omap_of_fmap. apply omap_seq. intros i Hi.
  rewrite <-(lookup_app_l sent ready) by done. rewrite <-(rr_bytes _ _ _ H i) by lia. simpl. do 2 f_equal. f_equal. lia.
Qed.

Lemma ring_pos_shift self self' k n m :
  max_size self' = max_size self → rp self' = (rp self + m) mod max_size self →
  ring_pos self' k n = ring_pos self (k + m) n.
Proof.
  intros Hm Hr. unfold ring_pos. rewrite Hm, Hr, (Z.add_comm k m), <-(fmap_add_seqZ m k n), <-list_fmap_compose.
  apply list_fmap_ext. intros j i _. simpl. rewrite Zplus_mod_idemp_l. f_equal. lia.
Qed.

Lemma length_ring_pos self k n : length (ring_pos self k n) = Z.to_nat n.
Proof. unfold ring_pos. by rewrite length_fmap, length_seqZ. Qed.

Lemma iov_pos_app v1 v2 : iov_pos (v1 ++ v2) = iov_pos v1 ++ iov_pos v2.
Proof. unfold iov_pos. by rewrite fmap_app, join_app. Qed.

Lemma length_iov_pos v : Forall (λ x, 0 ≤ iov_len x) v → Z.of_nat (length (iov_pos v)) = iov_total v.
Proof.
  induction 1 as [|x v Hx Hv IH]; [done|]. change (iov_pos (x :: v)) with (seqZ (iov_base x) (iov_len x) ++ iov_pos v).
  rewrite length_app, length_seqZ. simpl. lia.
Qed.

Lemma drop_seqZ b n (k : nat) : Z.of_nat k ≤ n → drop k (seqZ b n) = seqZ (b + Z.of_nat k) (n - Z.of_nat k).
Proof.
  intros. replace n with (Z.of_nat k + (n - Z.of_nat k)) at 1 by lia.
  rewrite seqZ_app, drop_app_length' by (rewrite ?length_seqZ; lia). done.
Qed.

(** An acknowledgement takes positions from the front. *)
Lemma iov_pos_drop (n : nat) v :
  Forall (λ x, 0 ≤ iov_len x) v → iov_pos (iov_drop (Z.of_nat n) v) = drop n (iov_pos v) ∧
  Forall (λ x, 0 ≤ iov_len x) (iov_drop (Z.of_nat n) v).
Proof.
  intros Hv. revert n. induction Hv as [|x v Hx Hv IH]; intros n; [split; [by destruct n|constructor]|].
  change (iov_pos (x :: v)) with (seqZ (iov_base x) (iov_len x) ++ iov_pos v). simpl iov_drop.
  destruct (Z.leb_spec (iov_len x) (Z.of_nat n)).
  - replace (Z.of_nat n - iov_len x) with (Z.of_nat (n - Z.to_nat (iov_len x))) by lia.
    rewrite drop_app_ge, length_seqZ by (rewrite length_seqZ; lia). apply IH.
  - split; [|constructor; simpl; [lia|done]].
    rewrite drop_app_le, drop_seqZ by (rewrite ?length_seqZ; lia). done.
Qed.

(** ** lwIP takes a vector that fits *)

Lemma tcp_write_all_spec v p :
  Forall (λ x, 0 ≤ iov_len x < 2 ^ 16) v → iov_total v ≤ pc_snd_buf p →
  tcp_write_all true v p =
    (true, iov_total v, mk_pcb (pc_refs p ++ v) (pc_snd_buf p - iov_total v) (pc_recved p) (pc_shutdown p)).
Proof.
  intros Hv. revert p. induction Hv as [|x v Hx Hv IH]; intros p Hp; simpl in *.
  - rewrite app_nil_r, Z.sub_0_r. by destruct p.
  - assert (0 ≤ iov_total v) by (clear -Hv; induction Hv; simpl; lia).
    unfold tcp_write, u16. rewrite Z.mod_small by lia.
    destruct (Z.ltb_spec (pc_snd_buf p) (iov_len x)); [lia|]. simpl.
    rewrite IH by (simpl; lia). simpl. rewrite <-app_assoc. destruct x as [b n]. simpl in *. by rewrite Z.sub_add_distr.
Qed.

(** ** Releasing the front of a chain *)

Lemma pbuf_free_header_drop q n : mjoin (pbuf_free_header q n) = drop n (mjoin q).
Proof.
  revert n. induction q as [|p q IH]; intros n; [by destruct n|]. simpl.
  case_decide; [by subst|]. case_decide as Hl.
  - by rewrite IH, drop_app_ge.
  - simpl. rewrite drop_app_le by lia. done.
Qed.

(** ** Events and what they carry *)

(** What the system and lwIP can answer in a state: [writev] does not write more
    than it is given and [readv] not more than there is space for; lwIP delivers
    only inside the receive window, which [tcp_recved] opens, and acknowledges
    only what was written. *)
Definition ev_ok (e : tcp_event) (self : HevSocks5SessionTCP) : Prop :=
  match e with
  | EvF s again => s ≤ Z.of_nat (length (mjoin (take 64 (st_queue self))))
  | EvB r again bs ook =>
      0 < r → Z.of_nat (length bs) = r ∧ r ≤ iov_total (hev_ring_buffer_writing (st_buffer self))
  | EvCb (CbRecv p) => ∃ pc, st_pcb self = Some pc ∧
      Z.of_nat (length (st_out self ++ mjoin (st_queue self ++ p))) - pc_recved pc ≤ TCP_WND
  | EvCb CbEof => st_pcb self ≠ None
  | EvCb (CbSent len) => ∃ pc, st_pcb self = Some pc ∧ 0 ≤ len ≤ iov_total (pc_refs pc)
  | EvCb CbErr => True
  end.

Inductive tcp_run : HevSocks5SessionTCP → list tcp_event → HevSocks5SessionTCP → Prop :=
  | run_nil self : tcp_run self [] self
  | run_snoc self es self1 e : tcp_run self es self1 → ev_ok e self1 → tcp_run self (es ++ [e]) (tcp_event_do e self1).

(** The bytes from lwIP, the bytes from the socket, and the number of
    acknowledged bytes. *)
Definition ev_received (e : tcp_event) : list Z := match e with EvCb (CbRecv p) => mjoin p | _ => [] end.
Definition ev_fetched (e : tcp_event) : list Z :=
  match e with EvB r _ bs _ => if 0 <? r then bs else [] | _ => [] end.
Definition ev_acked (e : tcp_event) : nat := match e with EvCb (CbSent len) => Z.to_nat len | _ => 0%nat end.

Definition received (es : list tcp_event) : list Z := mjoin (ev_received <$> es).
Definition fetched (es : list tcp_event) : list Z := mjoin (ev_fetched <$> es).
Definition acked (es : list tcp_event) : nat := foldr (λ e n, (ev_acked e + n)%nat) 0%nat es.

Lemma received_snoc es e : received (es ++ [e]) = received es ++ ev_received e.
Proof. unfold received. rewrite fmap_app, join_app. simpl. by rewrite app_nil_r. Qed.
Lemma fetched_snoc es e : fetched (es ++ [e]) = fetched es ++ ev_fetched e.
Proof. unfold fetched. rewrite fmap_app, join_app. simpl. by rewrite app_nil_r. Qed.
Lemma acked_snoc es e : acked (es ++ [e]) = (acked es + ev_acked e)%nat.
Proof. induction es as [|x es IH]; simpl; [lia|]. unfold acked in *. simpl. rewrite IH. lia. Qed.

(** ** The invariant *)

(** The connection while it lives: all data is with lwIP, at the positions of
    the ring buffer that hold it. *)
Definition pcb_inv (b : HevRingBuffer) (out sent ready : list Z) (pc : tcp_pcb) : Prop :=
  ready = [] ∧ Forall (λ x, 0 ≤ iov_len x) (pc_refs pc) ∧
  iov_pos (pc_refs pc) = ring_pos b (- Z.of_nat (length sent)) (Z.of_nat (length sent)) ∧
  pc_snd_buf pc = TCP_SND_BUF - Z.of_nat (length sent) ∧
  pc_recved pc = Z.of_nat (length out).

Definition stcp_inv (es : list tcp_event) (sent ready : list Z) (self : HevSocks5SessionTCP) : Prop :=
  st_out self ++ mjoin (st_queue self) = received es ∧
  Z.of_nat (length (mjoin (st_queue self))) ≤ TCP_WND ∧
  (acked es ≤ length (fetched es))%nat ∧ drop (acked es) (fetched es) = sent ++ ready ∧
  ring_rep (st_buffer self) sent ready ∧ max_size (st_buffer self) ≤ TCP_SND_BUF ∧
  match st_pcb self with Some pc => pcb_inv (st_buffer self) (st_out self) sent ready pc | None => True end.

Lemma pcb_refs_total b out sent ready pc :
  pcb_inv b out sent ready pc → iov_total (pc_refs pc) = Z.of_nat (length sent).
Proof. intros (_ & Hf & Hp & _). rewrite <-length_iov_pos by done. rewrite Hp, length_ring_pos. lia. Qed.

Lemma take_join_prefix (q : list (list Z)) n (s : nat) :
  (s ≤ length (mjoin (take n q)))%nat → take s (mjoin (take n q)) = take s (mjoin q).
Proof.
  intros Hs. rewrite <-(take_drop n q) at 2. rewrite join_app, take_app_le by done. done.
Qed.

Lemma length_join_take (q : list (list Z)) n : (length (mjoin (take n q)) ≤ length (mjoin q))%nat.
Proof. rewrite <-(take_drop n q) at 2. rewrite join_app, length_app. lia. Qed.

Lemma inv_splice_f es sent ready self s again :
  stcp_inv es sent ready self → ev_ok (EvF s again) self →
  stcp_inv (es ++ [EvF s again]) sent ready (tcp_splice_f s again self).2.
Proof.
  intros (Hrx & Hw & Ha & Hsx & Hrep & Hmax & Hpcb) Hok. simpl in Hok.
  unfold stcp_inv. rewrite received_snoc, fetched_snoc, acked_snoc. simpl. rewrite !app_nil_r, Nat.add_0_r.
  unfold tcp_splice_f. destruct (st_queue self) as [|p q] eqn:Hq.
  { destruct (st_pcb_eof self); simpl; rewrite Hq; by split_and!. }
  rewrite <-Hq in *. destruct (Z.leb_spec s 0); simpl; [by split_and!|].
  pose proof (length_join_take (st_queue self) 64).
  assert (u16 s = s) as Hu by (apply Z.mod_small; unfold TCP_WND, TCP_MSS in Hw; lia).
  rewrite Hu, pbuf_free_header_drop, take_join_prefix by lia.
  split_and!; try done.
  - by rewrite <-app_assoc, take_drop.
  - rewrite length_drop. lia.
  - destruct (st_pcb self) as [pc|]; [|done]. simpl. destruct Hpcb as (Hr & Hf & Hp & Hs & Hrec). split_and!; try done.
    simpl. rewrite Hu, Hrec, length_app, length_take. lia.
Qed.

(** Reading from the socket into the ring buffer. *)
Lemma ring_fetch b sent ready r bs :
  ring_rep b sent ready → (0 < r → Z.of_nat (length bs) = r ∧ r ≤ iov_total (hev_ring_buffer_writing b)) →
  let b' := match hev_ring_buffer_writing b with
    | [] => b
    | iov => if r <=? 0 then b else hev_ring_buffer_write_finish r (set_rdata (iov_scatter (rdata b) iov bs) b)
    end in
  ring_rep b' sent (ready ++ if 0 <? r then bs else []) ∧ max_size b' = max_size b ∧ rp b' = rp b.
Proof.
  intros Hrep Hok. destruct (ring_writing b sent ready Hrep) as [Htot _]. cbn zeta.
  destruct (hev_ring_buffer_writing b) as [|x v] eqn:Hv.
  - destruct (Z.ltb_spec 0 r); [|by rewrite app_nil_r]. destruct (Hok ltac:(done)) as [_ Hr]. simpl in Hr. lia.
  - destruct (Z.leb_spec r 0), (Z.ltb_spec 0 r); try lia; [by rewrite app_nil_r|]. destruct (Hok ltac:(done)) as [<- Hr].
    rewrite <-Hv. split_and!; [|done|done]. apply ring_write; [done|]. lia.
Qed.

(** The first half of [tcp_splice_b]. *)
Definition fetch (r : Z) (bs : list Z) (self : HevSocks5SessionTCP) : HevSocks5SessionTCP :=
  st_set_buffer match hev_ring_buffer_writing (st_buffer self) with
    | [] => st_buffer self
    | iov => if r <=? 0 then st_buffer self
        else hev_ring_buffer_write_finish r (set_rdata (iov_scatter (rdata (st_buffer self)) iov bs) (st_buffer self))
    end self.

Lemma splice_b_unfold r again bs wok ook self :
  ∃ res, (0 < r → hev_ring_buffer_writing (st_buffer self) ≠ [] → res = 1) ∧
  tcp_splice_b r again bs wok ook self =
    let self := fetch r bs self in
    match st_pcb self with
    | None => (-1, self)
    | Some pcb =>
        match hev_ring_buffer_reading (st_buffer self) with
        | [] => if res <? 0 then (res, st_set_pcb (Some (tcp_shutdown_tx pcb)) self) else (res, self)
        | v =>
            let '(err, s, pcb) := tcp_write_all wok v pcb in
            let self := st_set_buffer (hev_ring_buffer_read_finish s (st_buffer self)) self in
            (if err && ook then 1 else -1, st_set_pcb (Some pcb) self)
        end
    end.
Proof.
  unfold tcp_splice_b, fetch. destruct self as [q pcb b eof t out shut]. simpl.
  destruct (hev_ring_buffer_writing b) as [|x v]; [exists 0; split; done|].
  destruct (Z.leb_spec r 0).
  - eexists. split; [|reflexivity]. lia.
  - by exists 1.
Qed.

Lemma reading_total b sent ready : ring_rep b sent ready →
  iov_total (hev_ring_buffer_reading b) = Z.of_nat (length ready) ∧
  (hev_ring_buffer_reading b = [] ↔ ready = []).
Proof.
  intros [Hm Hd Hrp Hrda Huse Hfit _ _]. unfold hev_ring_buffer_reading.
  destruct (Z.eqb_spec 0 (rda_size b)) as [Hz|Hz].
  { destruct ready; simpl in *; [done|lia]. }
  rewrite (u64_small (max_size b - rp b)) by lia. assert (ready ≠ []) by (intros ->; simpl in *; lia).
  destruct (Z.leb_spec (rda_size b) (max_size b - rp b)); simpl; [split; [lia|done]|].
  rewrite u64_small by lia. split; [lia|done].
Qed.

(** Giving the ready data to lwIP. *)
Lemma pcb_push b out sent ready pc :
  ring_rep b sent ready → max_size b ≤ TCP_SND_BUF → pcb_inv b out sent [] pc →
  let b' := hev_ring_buffer_read_finish (Z.of_nat (length ready)) b in
  ring_rep b' (sent ++ ready) [] ∧ max_size b' = max_size b ∧
  ∃ pc', tcp_write_all true (hev_ring_buffer_reading b) pc = (true, Z.of_nat (length ready), pc') ∧
    pcb_inv b' out (sent ++ ready) [] pc'.
Proof.
  intros Hrep Hmax (_ & Hf & Hp & Hs & Hr). cbn zeta.
  destruct (reading_total b sent ready Hrep) as [Htot _]. destruct (ring_reading b sent ready Hrep) as [_ Hin].
  pose proof (ring_read_finish b sent ready (length ready) Hrep ltac:(lia)) as Hrep'.
  rewrite take_ge, drop_ge in Hrep' by lia. split_and!; [done|done|].
  pose proof (rr_use _ _ _ Hrep). pose proof (rr_fit _ _ _ Hrep). pose proof (rr_rp _ _ _ Hrep). pose proof (rr_max _ _ _ Hrep).
  assert (Forall (λ x, 0 ≤ iov_len x < 2 ^ 16) (hev_ring_buffer_reading b)) as Hlen.
  { eapply Forall_impl; [exact Hin|]. simpl. unfold TCP_SND_BUF, TCP_MSS in Hmax. lia. }
  rewrite tcp_write_all_spec by (done || lia). rewrite Htot. eexists. split; [done|]. split_and!; simpl; [done| | | |done].
  - apply Forall_app. split; [done|]. eapply Forall_impl; [exact Hlen|]. simpl. lia.
  - rewrite iov_pos_app, Hp, (reading_pos b sent ready Hrep), length_app.
    rewrite (ring_pos_shift b (hev_ring_buffer_read_finish (Z.of_nat (length ready)) b) _ _ (Z.of_nat (length ready)));
      [|done|cbn [rp hev_ring_buffer_read_finish]; rewrite u64_small by lia; done].
    rewrite Nat2Z.inj_add, ring_pos_app by lia.
    f_equal; f_equal; lia.
  - rewrite Hs, length_app. lia.
Qed.

Lemma inv_splice_b es sent ready self r again bs ook :
  stcp_inv es sent ready self → ev_ok (EvB r again bs ook) self →
  (∃ sent' ready', stcp_inv (es ++ [EvB r again bs ook]) sent' ready' (tcp_splice_b r again bs true ook self).2) ∧
  (st_pcb self ≠ None → 0 < r → (tcp_splice_b r again bs true ook self).1 = if ook then 1 else -1).
Proof.
  intros (Hrx & Hw & Ha & Hsx & Hrep & Hmax & Hpcb) Hok. simpl in Hok.
  unfold stcp_inv. rewrite received_snoc, fetched_snoc, acked_snoc. simpl. rewrite !app_nil_r, Nat.add_0_r.
  destruct (splice_b_unfold r again bs true ook self) as (res & Hres & ->). cbn zeta.
  destruct (ring_fetch _ _ _ _ _ Hrep Hok) as (Hrep1 & Hmax1 & Hrp1).
  assert (drop (acked es) (fetched es ++ if 0 <? r then bs else []) = sent ++ ready ++ if 0 <? r then bs else []) as Hd.
  { by rewrite drop_app_le, Hsx, app_assoc by done. }
  set (x := if 0 <? r then bs else []) in *. set (b1 := st_buffer (fetch r bs self)).
  change (match hev_ring_buffer_writing (st_buffer self) with [] => _ | _ => _ end) with b1 in *.
  assert (acked es ≤ length (fetched es ++ x))%nat as Ha' by (rewrite length_app; lia).
  change (st_pcb (fetch r bs self)) with (st_pcb self).
  destruct (st_pcb self) as [pc|] eqn:Hpc.
  2: { split; [|done]. exists sent, (ready ++ x). cbn [snd].
    change (st_pcb (fetch r bs self)) with (st_pcb self). rewrite Hpc. split_and!; try done. by rewrite <-Hmax1 in Hmax. }
  destruct Hpcb as (-> & Hpcb). assert (pcb_inv b1 (st_out self) sent [] pc) as Hinv.
  { destruct Hpcb as (Hf & Hp & Hs & Hr). split_and!; try done. rewrite Hp. symmetry.
    rewrite <-(Z.add_0_r (- _)) at 2. apply ring_pos_shift; [done|]. rewrite Hrp1, Z.add_0_r.
    symmetry. apply Z.mod_small. apply (rr_rp _ _ _ Hrep). }
  destruct (reading_total _ _ _ Hrep1) as [_ Hnil]. simpl in Hnil.
  destruct (pcb_push b1 (st_out self) sent x pc Hrep1 ltac:(lia) Hinv) as (Hrep2 & Hmax2 & pc' & Hwr & Hpc').
  destruct (hev_ring_buffer_reading b1) as [|v0 v] eqn:Hv.
  - assert (x = []) as Hx by (by apply Hnil). rewrite Hx, app_nil_r in *. split.
    + exists sent, []. rewrite <-Hmax1 in Hmax.
      destruct (res <? 0); cbn [snd]; rewrite ?Hpc; (split_and!; [done..|]); [done|].
      change (st_pcb (fetch r bs self)) with (st_pcb self). by rewrite Hpc.
    + intros _ Hr. exfalso. destruct (Hok Hr) as [Hl _]. subst x. destruct (Z.ltb_spec 0 r); [|lia]. subst bs.
      simpl in Hl. lia.
  - rewrite Hwr. simpl. split; [|done]. exists (sent ++ x), []. rewrite app_nil_r. rewrite <-Hmax1 in Hmax. by split_and!.
Qed.

Lemma inv_recv es sent ready self p :
  stcp_inv es sent ready self → ev_ok (EvCb (CbRecv p)) self →
  stcp_inv (es ++ [EvCb (CbRecv p)]) sent ready (tcp_recv_handler (Some p) self).2 ∧
  (tcp_recv_handler (Some p) self).1 = true.
Proof.
  intros (Hrx & Hw & Ha & Hsx & Hrep & Hmax & Hpcb) (pc & Hpc & Hwin). rewrite Hpc in Hpcb.
  unfold stcp_inv. rewrite received_snoc, fetched_snoc, acked_snoc. simpl. rewrite !app_nil_r, Nat.add_0_r.
  pose proof Hpcb as (_ & _ & _ & _ & Hrec). rewrite Hrec, length_app in Hwin.
  assert ((tcp_recv_handler (Some p) self) = (true, st_set_queue (st_queue self ++ p) self)) as Heq.
  { unfold tcp_recv_handler. destruct (st_queue self) as [|c q] eqn:Hq; [done|].
    destruct (Z.ltb_spec TCP_WND (u16 (Z.of_nat (length (mjoin (c :: q)))))) as [Hlt|]; [|done].
    unfold u16 in Hlt. rewrite Z.mod_small in Hlt by (unfold TCP_WND, TCP_MSS in Hw; lia). lia. }
  simpl in Heq. rewrite Heq. simpl. rewrite Hpc. split; [|done]. split_and!; try done; [|lia].
  rewrite join_app, app_assoc. by rewrite Hrx.
Qed.

Lemma inv_sent es sent ready self len :
  stcp_inv es sent ready self → ev_ok (EvCb (CbSent len)) self →
  stcp_inv (es ++ [EvCb (CbSent len)]) (drop (Z.to_nat len) sent) ready (tcp_event_do (EvCb (CbSent len)) self).
Proof.
  intros (Hrx & Hw & Ha & Hsx & Hrep & Hmax & Hpcb) (pc & Hpc & Hlen). rewrite Hpc in Hpcb.
  pose proof (pcb_refs_total _ _ _ _ _ Hpcb) as Htot. destruct Hpcb as (-> & Hf & Hp & Hs & Hr).
  unfold stcp_inv. rewrite received_snoc, fetched_snoc, acked_snoc. simpl. rewrite !app_nil_r in *.
  set (n := Z.to_nat len). replace len with (Z.of_nat n) in * by lia.
  pose proof (ring_read_release _ _ _ n Hrep ltac:(lia)) as Hrep'.
  assert (length sent = length (fetched es) - acked es)%nat as Hl by (by rewrite <-Hsx, length_drop).
  assert (∀ s m, max_size (hev_ring_buffer_read_release m s) = max_size s) as Hmx.
  { intros. unfold hev_ring_buffer_read_release. by destruct (_ =? 0). }
  split_and!; try done; [lia|by rewrite <-Hsx, drop_drop|by rewrite Hmx|].
  unfold tcp_sent_handler. simpl. rewrite Hpc. simpl. destruct (iov_pos_drop n _ Hf) as [Hd Hf'].
  split_and!; simpl; try done.
  - rewrite Hd, Hp, length_drop. destruct (decide (n = length sent)) as [->|Hn].
    { rewrite drop_ge by (rewrite length_ring_pos; lia). by rewrite Nat.sub_diag. }
    rewrite (ring_pos_shift (st_buffer self) (hev_ring_buffer_read_release (Z.of_nat n) (st_buffer self)) _ _ 0).
    + unfold ring_pos. rewrite <-fmap_drop, drop_seqZ by lia. f_equal; f_equal; lia.
    + apply Hmx.
    + unfold hev_ring_buffer_read_release. pose proof (rr_use _ _ _ Hrep) as Hu. simpl in Hu.
      pose proof (rr_max _ _ _ Hrep). pose proof (rr_fit _ _ _ Hrep).
      rewrite u64_small by lia. destruct (Z.eqb_spec (use_size (st_buffer self) - Z.of_nat n) 0); [lia|].
      simpl. rewrite Z.add_0_r, Z.mod_small; [done|]. apply (rr_rp _ _ _ Hrep).
  - rewrite Hs, length_drop. lia.
Qed.

Lemma inv_event es sent ready self e :
  stcp_inv es sent ready self → ev_ok e self →
  ∃ sent' ready', stcp_inv (es ++ [e]) sent' ready' (tcp_event_do e self).
Proof.
  intros H Hok. destruct e as [s again|r again bs ook|[p| |len|]].
  - exists sent, ready. by apply inv_splice_f.
  - by apply (inv_splice_b es sent ready self r again bs ook).
  - exists sent, ready. by apply (inv_recv es sent ready self p).
  - exists sent, ready. unfold stcp_inv. rewrite received_snoc, fetched_snoc, acked_snoc. simpl.
    rewrite !app_nil_r, Nat.add_0_r. exact H.
  - exists (drop (Z.to_nat len) sent), ready. by apply inv_sent.
  - exists sent, ready. unfold stcp_inv. rewrite received_snoc, fetched_snoc, acked_snoc. simpl.
    rewrite !app_nil_r, Nat.add_0_r. destruct H as (? & ? & ? & ? & ? & ? & _). by split_and!.
Qed.

(** The state in which the splicer starts: a connection of lwIP with nothing
    written, and a queue that is inside the window. *)
Definition tcp_start (self : HevSocks5SessionTCP) : Prop :=
  st_pcb self = Some (mk_pcb [] TCP_SND_BUF 0 false) ∧ st_queue self = [] ∧ st_out self = [].

Lemma inv_run self es self' size memory :
  tcp_start self → 0 < size ≤ TCP_SND_BUF → Z.of_nat (length memory) = size →
  tcp_run (tcp_splice_init size memory self) es self' → ∃ sent ready, stcp_inv es sent ready self'.
Proof.
  intros (Hp & Hq & Ho) Hs Hm Hrun. remember (tcp_splice_init size memory self) as self0 eqn:H0.
  induction Hrun as [self0|self0 es self1 e Hrun IH Hok].
  - subst self0. exists [], []. split_and!; simpl; try done; [by rewrite Hq, Ho|by rewrite Hq| |lia|].
    + apply ring_alloca_rep; [unfold TCP_SND_BUF, TCP_MSS in Hs; lia|done].
    + rewrite Hp. by split_and!; simpl; rewrite ?Ho.
  - destruct (IH H0) as (sent & ready & Hinv). by eapply inv_event.
Qed.


(** A session that receives two bytes, fetches four in a buffer of eight, and
    writes one. *)
Definition ex_session : HevSocks5SessionTCP :=
  mk_stcp [] (Some (mk_pcb [] TCP_SND_BUF 0 false)) (mk_ring 0 0 0 0 0 []) false 300000 [] false.

Definition ex_events : list tcp_event :=
  [EvCb (CbRecv [[1; 2]]); EvB 4 false [5; 6; 7; 8] true; EvF 1 false; EvCb (CbSent 3)].


(** LwIP is never overrun.  At any point of such a session, while the
    connection lives: data that is read from the socket is taken by lwIP in full,
    so that the round succeeds as soon as [tcp_output] does, and data that lwIP
    delivers within its window is never refused. *)
Theorem session_tcp_accepts self es self' size memory :
  tcp_start self → 0 < size ≤ TCP_SND_BUF → Z.of_nat (length memory) = size →
  tcp_run (tcp_splice_init size memory self) es self' →
  (∀ r again bs, ev_ok (EvB r again bs true) self' → st_pcb self' ≠ None → 0 < r →
    (tcp_splice_b r again bs true true self').1 = 1) ∧
  (∀ p, ev_ok (EvCb (CbRecv p)) self' → (tcp_recv_handler (Some p) self').1 = true).
Proof.
  intros Hst Hs Hm Hrun. destruct (inv_run self es self' size memory Hst Hs Hm Hrun) as (sent & ready & Hinv).
  split.
  - intros r again bs Hok Hpcb Hr. by apply (inv_splice_b es sent ready self' r again bs true Hinv Hok).
  - intros p Hok. by apply (inv_recv es sent ready self' p Hinv Hok).
Qed.

Lemma session_tcp_accepts_witness :
  (∀ r again bs, ev_ok (EvB r again bs true) (tcp_splice_init 8 (replicate 8 0) ex_session) →
    st_pcb (tcp_splice_init 8 (replicate 8 0) ex_session) ≠ None → 0 < r →
    (tcp_splice_b r again bs true true (tcp_splice_init 8 (replicate 8 0) ex_session)).1 = 1) ∧
  (∀ p, ev_ok (EvCb (CbRecv p)) (tcp_splice_init 8 (replicate 8 0) ex_session) →
    (tcp_recv_handler (Some p) (tcp_splice_init 8 (replicate 8 0) ex_session)).1 = true).
Proof.
  apply (session_tcp_accepts ex_session [] _ 8 (replicate 8 0)); [by split_and!|split; vm_compute; done|done|apply run_nil].
Defined.

(** ** The end of a session *)

Definition queue_size (self : HevSocks5SessionTCP) : nat :=
  length (mjoin (st_queue self)) + (if decide (st_queue self = []) then 0 else 1).

Lemma pbuf_free_header_nil q n : (0 < n)%nat → mjoin q = [] → pbuf_free_header q n = [].
Proof.
  intros Hn. induction q as [|p q IH]; intros Hq; [done|]. simpl in *. apply app_eq_nil in Hq as [-> Hq].
  case_decide; [lia|]. case_decide; [|simpl in *; lia]. simpl. rewrite Nat.sub_0_r. by apply IH.
Qed.

Lemma queue_size_free self n : st_queue self ≠ [] → (0 < n)%nat →
  (queue_size (st_set_queue (pbuf_free_header (st_queue self) n) self) < queue_size self)%nat.
Proof.
  intros Hq Hn. unfold queue_size. simpl. rewrite pbuf_free_header_drop, length_drop.
  rewrite (decide_False (P := st_queue self = [])) by done.
  destruct (decide (mjoin (st_queue self) = [])) as [Hj|Hj].
  - rewrite pbuf_free_header_nil, decide_True, Hj by done. simpl. lia.
  - assert (0 < length (mjoin (st_queue self)))%nat by (destruct (mjoin (st_queue self)); [done|simpl; lia]).
    case_decide; lia.
Qed.

(** A round of the forward direction makes progress, waits, or fails. *)
Lemma splice_f_cases s again self :
  s < 2 ^ 16 →
  let '(res, self') := tcp_splice_f s again self in
  st_pcb self' = tcp_recved s <$> st_pcb self ∧ st_timeout self' = st_timeout self ∧
  (queue_size self' < queue_size self)%nat ∧ res = 1 ∨
  st_pcb self' = st_pcb self ∧ st_timeout self' = st_timeout self ∧ queue_size self' = queue_size self ∧ (res = 0 ∨ res = -1).
Proof.
  intros Hs. unfold tcp_splice_f. destruct (st_queue self) as [|p q] eqn:Hq.
  { destruct (st_pcb_eof self); right; split_and!; auto. }
  rewrite <-Hq. destruct (Z.leb_spec s 0).
  - right. split_and!; try done. destruct ((s <? 0) && again); auto.
  - left. split_and!; try done. simpl.
    assert (u16 s = s) as -> by (apply Z.mod_small; lia).
    apply (queue_size_free (st_add_out _ self)); simpl; [by rewrite Hq|lia].
Qed.

Lemma splice_type_neg a b : a < 0 → b < 0 → splice_type a b = Break.
Proof.
  intros Ha Hb. unfold splice_type. destruct (Z.ltb_spec 0 a), (Z.ltb_spec 0 b); try lia. simpl.
  destruct (Z.eqb_spec (Z.land a b) 0) as [Hl|]; [|done].
  assert (Z.land a b < 0) by (by apply Z.land_neg). lia.
Qed.

(** The answers to [writev] are below the limit of a chain, and no callback runs. *)
Definition quiet (t : turn) : Prop := (tu_f t).1 < 2 ^ 16 ∧ tu_cb t = [].

Lemma splice_b_gone r again bs wok ook self : st_pcb self = None →
  (tcp_splice_b r again bs wok ook self).1 = -1 ∧
  let self' := (tcp_splice_b r again bs wok ook self).2 in
  st_pcb self' = None ∧ st_timeout self' = st_timeout self ∧ queue_size self' = queue_size self.
Proof.
  intros Hp. destruct (splice_b_unfold r again bs wok ook self) as (res & _ & ->). simpl. by rewrite Hp.
Qed.

Lemma gone_ends ts st self :
  st_pcb self = None → st_timeout self = 0 → Forall quiet ts → (queue_size self < length ts)%nat →
  ∃ ts' self', tcp_splice_loop ts st self = Some (ts', self') ∧ st_pcb self' = None.
Proof.
  intros Hp Ht Hts. revert st self Hp Ht. induction Hts as [|t ts [Hs Hcb] Hts IH]; intros st self Hp Ht Hl; simpl in Hl; [lia|].
  simpl. unfold tcp_splice_round. destruct (tu_b t) as [[[[r again] bs] wok] ook].
  set (f := if 0 <=? st.1 then _ else (st.1, self)).
  assert (st_pcb f.2 = None ∧ st_timeout f.2 = 0 ∧
    ((queue_size f.2 < queue_size self)%nat ∧ f.1 = 1 ∨ queue_size f.2 = queue_size self ∧ (f.1 = 0 ∨ f.1 < 0)))
    as (Hp1 & Ht1 & Hq1).
  { subst f. destruct (Z.leb_spec 0 st.1); [|split_and!; auto].
    pose proof (splice_f_cases (tu_f t).1 (tu_f t).2 self Hs) as Hf.
    destruct (tcp_splice_f (tu_f t).1 (tu_f t).2 self) as [res self1]. simpl.
    destruct Hf as [(-> & -> & ? & ->)|(-> & -> & ? & [-> | ->])]; rewrite Hp; split_and!; auto; right; lia. }
  destruct f as [res_f self1]. simpl in *.
  destruct (splice_b_gone r again bs wok ook self1 Hp1) as (Hr & Hp2 & Ht2 & Hq2).
  set (b := if 0 <=? st.2 then _ else (st.2, self1)).
  assert (b.1 < 0 ∧ st_pcb b.2 = None ∧ st_timeout b.2 = 0 ∧ queue_size b.2 = queue_size self1) as (Hrb & Hp3 & Ht3 & Hq3).
  { subst b. destruct (Z.leb_spec 0 st.2); split_and!; try done; [lia|congruence]. }
  destruct b as [res_b self2]. simpl in *.
  destruct Hq1 as [[Hlt ->]|[Heq [-> | Hneg]]].
  - replace (splice_type 1 res_b) with HEV_TASK_YIELD by done. simpl. rewrite Hcb. simpl.
    apply IH; [done|done|lia].
  - assert (splice_type 0 res_b = HEV_TASK_WAITIO) as ->.
    { unfold splice_type. destruct (Z.ltb_spec 0 res_b); [lia|]. by rewrite Z.land_0_l. }
    unfold tcp_task_io_yielder. simpl. rewrite Ht3, Hcb. simpl. eauto.
  - rewrite splice_type_neg by done. eauto.
Qed.

(** A session ends when lwIP has given its connection up.  After
    [tcp_err_handler], from any point of the loop, the splicer returns within as
    many turns as there are bytes left to write, plus two, whatever [writev] and
    [readv] answer; it does not wait for acknowledgements. *)
Theorem session_tcp_err_ends ts st self :
  Forall quiet ts → (length (mjoin (st_queue self)) + 1 < length ts)%nat →
  ∃ ts' self', tcp_splice_loop ts st (tcp_err_handler self) = Some (ts', self') ∧
    tcp_drain_loop ts' self' = Some self'.
Proof.
  intros Hts Hl. destruct (gone_ends ts st (tcp_err_handler self)) as (ts' & self' & Hrun & Hp); try done.
  - unfold queue_size. simpl. case_decide; lia.
  - exists ts', self'. split; [done|]. destruct ts'; simpl; unfold tcp_splice_drain; by rewrite Hp.
Qed.

Definition ex_turn (s : Z) : turn := mk_turn (s, false) (0, false, [], true, true) [] 100.

Lemma session_tcp_err_ends_witness :
  ∃ ts' self', tcp_splice_loop [ex_turn 1; ex_turn 1; ex_turn 1; ex_turn 1] (1, 1)
      (tcp_err_handler (st_set_queue [[1; 2]] ex_session)) = Some (ts', self') ∧
    tcp_drain_loop ts' self' = Some self'.
Proof.
  apply (session_tcp_err_ends [ex_turn 1; ex_turn 1; ex_turn 1; ex_turn 1] (1, 1) (st_set_queue [[1; 2]] ex_session)).
  - repeat constructor.
  - simpl. lia.
Defined.

(** ** Closing *)

(** The turns of a session that is being closed: [w] is what [writev] does with
    the bytes it is given, and [readv] reports the end of the stream. *)
Fixpoint closing_turns (w : list Z → Z) (n : nat) (q : list (list Z)) : list turn :=
  match n with
  | 0%nat => []
  | S n =>
      let s := w (mjoin (take 64 q)) in
      mk_turn (s, false) (0, false, [], true, true) [] 1 :: closing_turns w n (pbuf_free_header q (Z.to_nat s))
  end.

Definition writes (w : list Z → Z) : Prop := ∀ bs, bs ≠ [] → 0 < w bs ≤ Z.of_nat (length bs).

Definition queue_ok (self : HevSocks5SessionTCP) : Prop :=
  Forall (.≠ []) (st_queue self) ∧ Z.of_nat (length (mjoin (st_queue self))) ≤ TCP_WND.

Lemma pbuf_free_header_nonempty q n : Forall (.≠ []) q → Forall (.≠ []) (pbuf_free_header q n).
Proof.
  intros Hq. revert n. induction Hq as [|p q Hp Hq IH]; intros n; simpl; [done|].
  case_decide; [by constructor|]. case_decide; [done|]. constructor; [|done].
  intros Hd. apply (f_equal length) in Hd. rewrite length_drop in Hd. simpl in Hd. lia.
Qed.

(** A forward round that has data. *)
Lemma closing_f w self : writes w → queue_ok self → st_queue self ≠ [] →
  let r := tcp_splice_f (w (mjoin (take 64 (st_queue self)))) false self in
  r.1 = 1 ∧ st_out r.2 ++ mjoin (st_queue r.2) = st_out self ++ mjoin (st_queue self) ∧ queue_ok r.2 ∧
  (length (mjoin (st_queue r.2)) < length (mjoin (st_queue self)))%nat ∧
  st_pcb_eof r.2 = st_pcb_eof self ∧ st_buffer r.2 = st_buffer self ∧
  st_queue r.2 = pbuf_free_header (st_queue self) (Z.to_nat (w (mjoin (take 64 (st_queue self))))) ∧
  pc_shutdown <$> st_pcb r.2 = pc_shutdown <$> st_pcb self.
Proof.
  intros Hw [Hq Hl] Hne. cbn zeta. unfold tcp_splice_f. destruct (st_queue self) as [|p q] eqn:Hqe; [done|].
  rewrite <-Hqe in *. set (iov := mjoin (take 64 (st_queue self))).
  assert (iov ≠ []) as Hiov.
  { subst iov. rewrite Hqe in *. inversion_clear Hq as [|?? Hp _]. simpl. by destruct p. }
  pose proof (Hw iov Hiov) as Hs. destruct (Z.leb_spec (w iov) 0); [lia|]. simpl.
  pose proof (length_join_take (st_queue self) 64) as Hjl. fold iov in Hjl.
  assert (u16 (w iov) = w iov) as -> by (apply Z.mod_small; unfold TCP_WND, TCP_MSS in Hl; lia).
  unfold queue_ok. simpl. rewrite pbuf_free_header_drop, length_drop. split_and!; try done; try lia.
  - assert (take (Z.to_nat (w iov)) iov = take (Z.to_nat (w iov)) (mjoin (st_queue self))) as ->
      by (apply take_join_prefix; fold iov; lia). by rewrite <-app_assoc, take_drop.
  - by apply pbuf_free_header_nonempty.
  - by destruct (st_pcb self).
Qed.

(** A backward round at the end of the stream, when all is acknowledged. *)
Lemma closing_b self pc : st_pcb self = Some pc → ring_rep (st_buffer self) [] [] →
  tcp_splice_b 0 false [] true true self = (-1, st_set_pcb (Some (tcp_shutdown_tx pc)) self).
Proof.
  intros Hp Hrep. unfold tcp_splice_b. destruct (ring_writing _ _ _ Hrep) as [Htot _].
  pose proof (rr_use _ _ _ Hrep) as Hu. pose proof (rr_max _ _ _ Hrep). simpl in Hu.
  destruct (hev_ring_buffer_writing (st_buffer self)) as [|x v]; [simpl in Htot; lia|]. simpl. rewrite Hp.
  destruct (reading_total _ _ _ Hrep) as [_ Hn]. by rewrite (proj2 Hn eq_refl).
Qed.

(** All data is written and both sides know the end of the stream. *)
Definition closed (self self' : HevSocks5SessionTCP) : Prop :=
  st_out self' = st_out self ++ mjoin (st_queue self) ∧ st_queue self' = [] ∧ st_shut_wr self' = true ∧
  pc_shutdown <$> st_pcb self' = Some true ∧ st_buffer self' = st_buffer self.

(** The state of the loop: the backward direction is still to be tried, or it has
    reported the end. *)
Definition closing (st : Z * Z) (self : HevSocks5SessionTCP) : Prop :=
  st.1 = 1 ∧ st_pcb_eof self = true ∧ queue_ok self ∧ ring_rep (st_buffer self) [] [] ∧
  (st.2 = 1 ∧ st_pcb self ≠ None ∨ st.2 = -1 ∧ pc_shutdown <$> st_pcb self = Some true).

(** The backward direction of a round, whether it is tried or not. *)
Lemma closing_round_b (res_b : Z) self : ring_rep (st_buffer self) [] [] →
  res_b = 1 ∧ st_pcb self ≠ None ∨ res_b = -1 ∧ pc_shutdown <$> st_pcb self = Some true →
  ∃ p, (if 0 <=? res_b then tcp_splice_b 0 false [] true true self else (res_b, self)) = (-1, st_set_pcb p self) ∧
    pc_shutdown <$> p = Some true.
Proof.
  intros Hrep [[-> Hp]|[-> Hp]]; simpl.
  - destruct (st_pcb self) as [pc|] eqn:Hpc; [|done]. by rewrite (closing_b self pc Hpc Hrep); eexists.
  - exists (st_pcb self). by destruct self.
Qed.

Lemma closing_loop w n st self :
  writes w → closing st self → (length (mjoin (st_queue self)) < n)%nat →
  ∃ ts' self', tcp_splice_loop (closing_turns w n (st_queue self)) st self = Some (ts', self') ∧ closed self self'.
Proof.
  intros Hw. revert st self. induction n as [|n IH]; intros st self (Hst & He & Hq & Hrep & Hb) Hl; [lia|].
  cbn [closing_turns tcp_splice_loop]. unfold tcp_splice_round. cbn [tu_f tu_b]. rewrite Hst.
  change (0 <=? 1) with true. cbn iota beta. cbn [fst snd]. destruct (decide (st_queue self = [])) as [Hnil|Hne].
  - unfold tcp_splice_f at 1. rewrite Hnil, He. destruct (closing_round_b st.2 (st_set_shut_wr self)) as (p & -> & Hp); [done|done|].
    cbn. eexists _, _. split; [done|]. unfold closed. simpl. rewrite Hnil. simpl. by rewrite app_nil_r.
  - destruct (closing_f w self Hw Hq Hne) as (Hr & Hout & Hq' & Hlt & He' & Hbuf & Hqe & Hsd).
    destruct (tcp_splice_f _ false self) as [res self1]. simpl in *. subst res.
    destruct (closing_round_b st.2 self1) as (p & -> & Hp).
    { by rewrite Hbuf. }
    { destruct Hb as [[-> Hp]|[-> Hp]]; [left|right; by rewrite Hsd]. split; [done|].
      destruct (st_pcb self1); [done|]. by destruct (st_pcb self). }
    cbn. rewrite <-Hqe. destruct (IH (1, -1) (st_set_pcb p self1)) as (ts' & self' & Hrun & Hc).
    + split_and!; simpl; [done|by rewrite He'|done|by rewrite Hbuf|by right].
    + simpl. lia.
    + exists ts', self'. split; [exact Hrun|]. destruct Hc as (Ho & ? & ? & ? & ?). unfold closed. simpl in *.
      rewrite Ho, Hout, <-Hbuf. by split_and!.
Qed.

(** C38: a session that is closed delivers everything.  When lwIP has reported the
    end of its data, all of the other direction is acknowledged and the socket is
    at its end, the splicer returns within as many turns as there are bytes to
    write, plus one, however many bytes [writev] takes at a time: every byte of
    the queue is written, in order, the writing side of the socket and the
    connection of lwIP are shut down, and nothing is left to wait for. *)
Theorem session_tcp_closes w n self pc :
  writes w → st_pcb self = Some pc → st_pcb_eof self = true → queue_ok self → ring_rep (st_buffer self) [] [] →
  (length (mjoin (st_queue self)) < n)%nat →
  ∃ ts' self', tcp_splice_loop (closing_turns w n (st_queue self)) (1, 1) self = Some (ts', self') ∧
    tcp_drain_loop ts' self' = Some self' ∧ closed self self'.
Proof.
  intros Hw Hp He Hq Hrep Hn. destruct (closing_loop w n (1, 1) self Hw) as (ts' & self' & Hrun & Hc); [|done|].
  { split_and!; [done|done|done|done|]. left. by rewrite Hp. }
  exists ts', self'. split_and!; try done. destruct Hc as (_ & _ & _ & Hsd & Hb).
  assert (tcp_splice_drain self' = false) as Hd.
  { unfold tcp_splice_drain, hev_ring_buffer_get_use_size. destruct (st_pcb self'); [|done].
    rewrite Hb, (rr_use _ _ _ Hrep). done. }
  destruct ts'; simpl; by rewrite Hd.
Qed.

Definition ex_closing : HevSocks5SessionTCP := st_set_eof (st_set_queue [[1; 2]; [3]] (tcp_splice_init 8 (replicate 8 0) ex_session)).

Lemma session_tcp_closes_witness :
  ∃ ts' self', tcp_splice_loop (closing_turns (λ _, 1) 4 [[1; 2]; [3]]) (1, 1) ex_closing = Some (ts', self') ∧
    tcp_drain_loop ts' self' = Some self' ∧ closed ex_closing self'.
Proof.
  apply (session_tcp_closes (λ _, 1) 4 ex_closing (mk_pcb [] TCP_SND_BUF 0 false)); try done.
  - intros [|b bs] Hbs; [done|]. simpl. lia.
  - split; [repeat constructor; discriminate|]. vm_compute. discriminate.
  - apply ring_alloca_rep; done.
  - simpl. lia.
Defined.
