(* ===== verification/Config.v ===== *)
(** * The configuration (src/hev-config.c): the model

    The file keeps its settings in static variables and fills them from a YAML
    document.  The variables are named by two enumerations, numbers and character
    arrays; a state gives each its value.  The document is what libyaml has
    parsed, a table of nodes that refer to each other by index. *)

From stdpp Require Import strings.
From S2P Require Import Prelude CString MappedDNSPacket SocksAddr SocksUDP Session SessionTCP.

(** ** Strings *)

(** The bytes of a literal. *)
Definition str (s : string) : list Z := (λ c, Z.of_N (Ascii.N_of_ascii c)) <$> String.list_ascii_of_string s.

Definition tolower (c : Z) : Z := if (65 <=? c) && (c <=? 90) then c + 32 else c.
Definition strcasecmp (x y : list Z) : Z := strcmp (tolower <$> x) (tolower <$> y).

Definition isspace (c : Z) : bool := (c =? 32) || ((9 <=? c) && (c <=? 13)).

(** The value of a digit in a base. *)
Definition digit (base c : Z) : option Z :=
  let d := if (48 <=? c) && (c <=? 57) then c - 48
    else if (97 <=? tolower c) && (tolower c <=? 122) then tolower c - 87 else base in
  if d <? base then Some d else None.

Fixpoint digits (base : Z) (s : list Z) (acc : Z) : Z :=
  match s with
  | c :: s => match digit base c with Some d => digits base s (base * acc + d) | None => acc end
  | [] => acc
  end.

Fixpoint skip_space (s : list Z) : list Z :=
  match s with c :: s' => if isspace c then skip_space s' else s | [] => [] end.

(** The sign and the number, of unlimited size, that [strtoul] and [strtol] read;
    base 0 takes the base from the prefix. *)
Definition strto (base : Z) (s : list Z) : bool * Z :=
  let s := skip_space s in
  let '(neg, s) := match s with 45 :: s => (true, s) | 43 :: s => (false, s) | _ => (false, s) end in
  if base =? 0 then
    match s with
    | 48 :: x :: d :: s' =>
        if (tolower x =? 120) && bool_decide (is_Some (digit 16 d)) then (neg, digits 16 (d :: s') 0)
        else (neg, digits 8 s 0)
    | 48 :: _ => (neg, digits 8 s 0)
    | _ => (neg, digits 10 s 0)
    end
  else (neg, digits base s 0).

Definition ULONG_MAX : Z := 2 ^ 64 - 1.
Definition strtoul (s : list Z) (base : Z) : Z :=
  let '(neg, v) := strto base s in
  if ULONG_MAX <? v then ULONG_MAX else if neg then u64 (- v) else v.

Definition strtol (s : list Z) (base : Z) : Z :=
  let '(neg, v) := strto base s in
  Z.max (- 2 ^ 63) (Z.min (2 ^ 63 - 1) (if neg then - v else v)).

(** ** The document *)

Inductive yaml_node :=
  | YAML_SCALAR_NODE (value : list Z)
  | YAML_SEQUENCE_NODE
  | YAML_MAPPING_NODE (pairs : list (Z * Z)).

Definition yaml_document : Type := list yaml_node.

Definition yaml_document_get_node (doc : yaml_document) (index : Z) : option yaml_node :=
  if 0 <? index then doc !! Z.to_nat (index - 1) else None.

Definition yaml_document_get_root_node (doc : yaml_document) : option yaml_node := head doc.

(** A node that is a scalar. *)
Definition yaml_scalar (doc : yaml_document) (index : Z) : option (list Z) :=
  match yaml_document_get_node doc index with Some (YAML_SCALAR_NODE v) => Some v | _ => None end.

(** ** The static variables *)

Inductive int_var :=
  | tun_mtu | multi_queue
  | srv_mark_ | srv_udp_in_udp_ | srv_port_ | srv_pipeline_
  | mapdns_address | mapdns_port | mapdns_network | mapdns_netmask | mapdns_cache_size
  | max_session_count | task_stack_size | tcp_buffer_size | udp_recv_buffer_size | udp_copy_buffer_nums
  | connect_timeout_ | tcp_read_write_timeout | udp_read_write_timeout | limit_nofile | log_level.

Inductive buf_var :=
  | tun_name | tun_ipv4_address | tun_ipv6_address | tun_post_up_script | tun_pre_down_script
  | srv_addr_ | srv_udp_addr_ | user_ | pass_ | log_file | pid_file.

#[global] Instance int_var_eq_dec : EqDecision int_var.
Proof. solve_decision. Defined.
#[global] Instance buf_var_eq_dec : EqDecision buf_var.
Proof. solve_decision. Defined.

(** [cf_user] tells whether the pointers [srv.user] and [srv.pass] are set. *)
Record config_vars := mk_config_vars {
  cf_int : int_var → Z;
  cf_buf : buf_var → list Z;
  cf_user : bool;
}.

Definition buf_size (b : buf_var) : nat :=
  match b with
  | tun_name => 64 | tun_ipv4_address => 16 | tun_ipv6_address => 64
  | tun_post_up_script | tun_pre_down_script | log_file | pid_file => 1024
  | srv_addr_ | srv_udp_addr_ | user_ | pass_ => 256
  end.

Definition HEV_LOGGER_DEBUG : Z := 0.
Definition HEV_LOGGER_INFO : Z := 1.
Definition HEV_LOGGER_WARN : Z := 2.
Definition HEV_LOGGER_ERROR : Z := 3.
Definition TASK_STACK_SIZE : Z := 20480.

(** The values at the start of the program. *)
Definition config_init : config_vars :=
  mk_config_vars
    (λ v, match v with
      | tun_mtu => 8500 | task_stack_size => 86016 | tcp_buffer_size => 65536
      | udp_recv_buffer_size => 524288 | udp_copy_buffer_nums => 10 | connect_timeout_ => 10000
      | tcp_read_write_timeout => 300000 | udp_read_write_timeout => 60000 | limit_nofile => 65535
      | log_level => HEV_LOGGER_WARN | _ => 0
      end)
    (λ b, replicate (buf_size b) 0) false.

Definition set_int (v : int_var) (z : Z) (c : config_vars) : config_vars :=
  mk_config_vars (λ w, if decide (w = v) then z else cf_int c w) (cf_buf c) (cf_user c).
Definition set_buf (b : buf_var) (s : list Z) (c : config_vars) : config_vars :=
  mk_config_vars (cf_int c) (λ w, if decide (w = b) then s else cf_buf c w) (cf_user c).
Definition set_user (c : config_vars) : config_vars := mk_config_vars (cf_int c) (cf_buf c) true.

(** [strncpy (b, value, n - 1)] *)
Definition set_str (b : buf_var) (n : nat) (value : list Z) (c : config_vars) : config_vars :=
  set_buf b (put (cf_buf c b) 0 (strncpy value (n - 1))) c.

(** ** Parsing *)

Section parse.
Context (inet_pton4 : list Z → option (list Z)) (doc : yaml_document).

(** The loop over the pairs of a mapping of scalars. *)
Fixpoint for_scalars {A} (f : list Z → list Z → A → A) (pairs : list (Z * Z)) (a : A) : A :=
  match pairs with
  | [] => a
  | (k, v) :: pairs =>
      if (k =? 0) || (v =? 0) then a
      else match yaml_scalar doc k, yaml_scalar doc v with
        | Some key, Some value => for_scalars f pairs (f key value a)
        | _, _ => a
        end
  end.

Definition hev_config_parse_tunnel_ipv4 (base : option yaml_node) (c : config_vars) : Z * config_vars :=
  match base with
  | Some (YAML_MAPPING_NODE pairs) =>
      (0, for_scalars (λ key value c,
        if strcmp key (str "address") =? 0 then set_str tun_ipv4_address 16 value c else c) pairs c)
  | _ => (-1, c)
  end.

Definition hev_config_parse_tunnel_ipv6 (base : option yaml_node) (c : config_vars) : Z * config_vars :=
  match base with
  | Some (YAML_MAPPING_NODE pairs) =>
      (0, for_scalars (λ key value c,
        if strcmp key (str "address") =? 0 then set_str tun_ipv6_address 64 value c else c) pairs c)
  | _ => (-1, c)
  end.

Definition tunnel_scalar (key value : list Z) (c : config_vars) : config_vars :=
  if strcmp key (str "name") =? 0 then set_str tun_name 64 value c
  else if strcmp key (str "mtu") =? 0 then set_int tun_mtu (u32 (strtoul value 10)) c
  else if strcmp key (str "multi-queue") =? 0 then set_int multi_queue (strcasecmp value (str "false")) c
  else if strcmp key (str "ipv4") =? 0 then set_str tun_ipv4_address 16 value c
  else if strcmp key (str "ipv6") =? 0 then set_str tun_ipv6_address 64 value c
  else if strcmp key (str "post-up-script") =? 0 then set_str tun_post_up_script 64 value c
  else if strcmp key (str "pre-down-script") =? 0 then set_str tun_pre_down_script 64 value c
  else c.

Fixpoint tunnel_loop (pairs : list (Z * Z)) (c : config_vars) : config_vars :=
  match pairs with
  | [] => c
  | (k, v) :: pairs =>
      if (k =? 0) || (v =? 0) then c
      else match yaml_scalar doc k, yaml_document_get_node doc v with
        | Some key, Some (YAML_SCALAR_NODE value) => tunnel_loop pairs (tunnel_scalar key value c)
        | Some key, Some node =>
            tunnel_loop pairs
              (if strcmp key (str "ipv4") =? 0 then (hev_config_parse_tunnel_ipv4 (Some node) c).2
               else if strcmp key (str "ipv6") =? 0 then (hev_config_parse_tunnel_ipv6 (Some node) c).2
               else c)
        | _, _ => c
        end
  end.

Definition hev_config_parse_tunnel (base : option yaml_node) (c : config_vars) : Z * config_vars :=
  match base with
  | Some (YAML_MAPPING_NODE pairs) => (0, tunnel_loop pairs c)
  | _ => (-1, c)
  end.

(** The pointers of [hev_config_parse_socks5]. *)
Record socks5_keys := mk_keys {
  k_addr : option (list Z); k_port : option (list Z); k_udpm : option (list Z); k_udpa : option (list Z);
  k_user : option (list Z); k_pass : option (list Z); k_mark : option (list Z); k_pipe : option (list Z);
}.

Definition socks5_scalar (key value : list Z) (k : socks5_keys) : socks5_keys :=
  let '(mk_keys addr port udpm udpa user pass mark pipe) := k in
  if strcmp key (str "port") =? 0 then mk_keys addr (Some value) udpm udpa user pass mark pipe
  else if strcmp key (str "address") =? 0 then mk_keys (Some value) port udpm udpa user pass mark pipe
  else if strcmp key (str "udp") =? 0 then mk_keys addr port (Some value) udpa user pass mark pipe
  else if strcmp key (str "udp-address") =? 0 then mk_keys addr port udpm (Some value) user pass mark pipe
  else if strcmp key (str "pipeline") =? 0 then mk_keys addr port udpm udpa user pass mark (Some value)
  else if strcmp key (str "username") =? 0 then mk_keys addr port udpm udpa (Some value) pass mark pipe
  else if strcmp key (str "password") =? 0 then mk_keys addr port udpm udpa user (Some value) mark pipe
  else if strcmp key (str "mark") =? 0 then mk_keys addr port udpm udpa user pass (Some value) pipe
  else k.

(** The assignments after the loop and its checks. *)
Definition socks5_store (addr port : list Z) (k : socks5_keys) (c : config_vars) : config_vars :=
  let c := set_str srv_addr_ 256 addr c in
  let c := set_int srv_port_ (u16 (strtoul port 10)) c in
  let c := match k_pipe k with
    | Some v => if strcasecmp v (str "true") =? 0 then set_int srv_pipeline_ 1 c else c
    | None => c end in
  let c := match k_udpm k with
    | Some v => if strcasecmp v (str "udp") =? 0 then set_int srv_udp_in_udp_ 1 c else c
    | None => c end in
  let c := match k_udpa k with Some v => set_str srv_udp_addr_ 256 v c | None => c end in
  let c := match k_user k, k_pass k with
    | Some user, Some pass => set_user (set_str pass_ 256 pass (set_str user_ 256 user c))
    | _, _ => c end in
  match k_mark k with Some v => set_int srv_mark_ (u32 (strtoul v 0)) c | None => c end.

Definition hev_config_parse_socks5 (base : option yaml_node) (c : config_vars) : Z * config_vars :=
  match base with
  | Some (YAML_MAPPING_NODE pairs) =>
      let k := for_scalars socks5_scalar pairs (mk_keys None None None None None None None None) in
      match k_port k, k_addr k with
      | Some port, Some addr =>
          match k_user k, k_pass k with
          | Some _, None | None, Some _ => (-1, c)
          | _, _ => (0, socks5_store addr port k c)
          end
      | _, _ => (-1, c)
      end
  | _ => (-1, c)
  end.

(** Four bytes as an [int] in the order of the memory, and with them reversed. *)
Definition int_of_bytes (a : list Z) : Z := s32 (foldr (λ b n, b + 256 * n) 0 a).
Definition int_ntohl (z : Z) : Z :=
  let u := u32 z in
  int_of_bytes [Z.shiftr u 24; u8 (Z.shiftr u 16); u8 (Z.shiftr u 8); u8 u].

Definition set_inet (v : int_var) (value : list Z) (c : config_vars) : config_vars :=
  match inet_pton4 value with Some a => set_int v (int_of_bytes a) c | None => c end.

Definition mapdns_scalar (key value : list Z) (c : config_vars) : config_vars :=
  if strcmp key (str "address") =? 0 then set_inet mapdns_address value c
  else if strcmp key (str "port") =? 0 then set_int mapdns_port (s32 (strtoul value 10)) c
  else if strcmp key (str "network") =? 0 then set_inet mapdns_network value c
  else if strcmp key (str "netmask") =? 0 then set_inet mapdns_netmask value c
  else if strcmp key (str "cache-size") =? 0 then set_int mapdns_cache_size (s32 (strtoul value 10)) c
  else c.

Definition hev_config_parse_mapdns (base : option yaml_node) (c : config_vars) : Z * config_vars :=
  match base with
  | Some (YAML_MAPPING_NODE pairs) =>
      let c := for_scalars mapdns_scalar pairs c in
      let c := set_int mapdns_network (int_ntohl (cf_int c mapdns_network)) c in
      (0, set_int mapdns_netmask (int_ntohl (cf_int c mapdns_netmask)) c)
  | _ => (-1, c)
  end.

Definition hev_config_parse_log_level (value : list Z) : Z :=
  if strcmp value (str "debug") =? 0 then HEV_LOGGER_DEBUG
  else if strcmp value (str "info") =? 0 then HEV_LOGGER_INFO
  else if strcmp value (str "error") =? 0 then HEV_LOGGER_ERROR
  else HEV_LOGGER_WARN.

(** The timeouts [tcp_rw_timeout], [udp_rw_timeout] and [rw_timeout] are local. *)
Definition misc_scalar (key value : list Z) (s : Z * Z * Z * config_vars) : Z * Z * Z * config_vars :=
  let '(tcp_rw, udp_rw, rw, c) := s in
  let num := s32 (strtoul value 10) in
  if strcmp key (str "task-stack-size") =? 0 then (tcp_rw, udp_rw, rw, set_int task_stack_size num c)
  else if strcmp key (str "tcp-buffer-size") =? 0 then (tcp_rw, udp_rw, rw, set_int tcp_buffer_size num c)
  else if strcmp key (str "udp-recv-buffer-size") =? 0 then (tcp_rw, udp_rw, rw, set_int udp_recv_buffer_size num c)
  else if strcmp key (str "udp-copy-buffer-nums") =? 0 then (tcp_rw, udp_rw, rw, set_int udp_copy_buffer_nums num c)
  else if strcmp key (str "max-session-count") =? 0 then (tcp_rw, udp_rw, rw, set_int max_session_count num c)
  else if strcmp key (str "connect-timeout") =? 0 then (tcp_rw, udp_rw, rw, set_int connect_timeout_ num c)
  else if strcmp key (str "read-write-timeout") =? 0 then (tcp_rw, udp_rw, num, c)
  else if strcmp key (str "tcp-read-write-timeout") =? 0 then (num, udp_rw, rw, c)
  else if strcmp key (str "udp-read-write-timeout") =? 0 then (tcp_rw, num, rw, c)
  else if strcmp key (str "pid-file") =? 0 then (tcp_rw, udp_rw, rw, set_str pid_file 1024 value c)
  else if strcmp key (str "log-file") =? 0 then (tcp_rw, udp_rw, rw, set_str log_file 1024 value c)
  else if strcmp key (str "log-level") =? 0 then
    (tcp_rw, udp_rw, rw, set_int log_level (hev_config_parse_log_level value) c)
  else if strcmp key (str "limit-nofile") =? 0 then
    (tcp_rw, udp_rw, rw, set_int limit_nofile (s32 (strtol value 10)) c)
  else s.

Definition hev_config_parse_misc (base : option yaml_node) (c : config_vars) : Z * config_vars :=
  match base with
  | Some (YAML_MAPPING_NODE pairs) =>
      let '(tcp_rw, udp_rw, rw, c) := for_scalars misc_scalar pairs (-1, -1, -1, c) in
      let tcp_rw := if tcp_rw <=? 0 then rw else tcp_rw in
      let udp_rw := if udp_rw <=? 0 then rw else udp_rw in
      let c := if 0 <? tcp_rw then set_int tcp_read_write_timeout tcp_rw c else c in
      (0, if 0 <? udp_rw then set_int udp_read_write_timeout udp_rw c else c)
  | _ => (-1, c)
  end.

Definition doc_section (key : list Z) (node : option yaml_node) (c : config_vars) : Z * config_vars :=
  if strcmp key (str "tunnel") =? 0 then hev_config_parse_tunnel node c
  else if strcmp key (str "socks5") =? 0 then hev_config_parse_socks5 node c
  else if strcmp key (str "mapdns") =? 0 then hev_config_parse_mapdns node c
  else if strcmp key (str "misc") =? 0 then hev_config_parse_misc node c
  else (0, c).

Fixpoint doc_loop (pairs : list (Z * Z)) (c : config_vars) : Z * config_vars :=
  match pairs with
  | [] => (0, c)
  | (k, v) :: pairs =>
      if (k =? 0) || (v =? 0) then (0, c)
      else match yaml_scalar doc k with
        | None => (0, c)
        | Some key =>
            let '(res, c) := doc_section key (yaml_document_get_node doc v) c in
            if res <? 0 then (-1, c) else doc_loop pairs c
        end
  end.

(** An [int] expression: undefined when it overflows. *)
Definition int_expr (z : Z) : option Z := if (- 2 ^ 31 <=? z) && (z <? 2 ^ 31) then Some z else None.

(** The limits, after the loop. *)
Definition config_limits (c : config_vars) : option config_vars :=
  let c := if TCP_SND_BUF <? cf_int c tcp_buffer_size then set_int tcp_buffer_size TCP_SND_BUF c else c in
  udp_buffer_size ← int_expr (UDP_BUF_SIZE * cf_int c udp_copy_buffer_nums);
  min_task_stack_size ← int_expr
    (TASK_STACK_SIZE + (if udp_buffer_size <? cf_int c tcp_buffer_size then cf_int c tcp_buffer_size else udp_buffer_size));
  Some (if cf_int c task_stack_size <? min_task_stack_size then set_int task_stack_size min_task_stack_size c else c).

(** [None]: an overflow of [int]. *)
Definition hev_config_parse_doc (c : config_vars) : option (Z * config_vars) :=
  match yaml_document_get_root_node doc with
  | Some (YAML_MAPPING_NODE pairs) =>
      let '(res, c) := doc_loop pairs c in
      if res <? 0 then Some (-1, c) else c ← config_limits c; Some (0, c)
  | _ => Some (-1, c)
  end.
End parse.

(** [hev_config_init_from_str] and [hev_config_init_from_file], with what libyaml
    makes of the text: [None] when it cannot be parsed. *)
Definition hev_config_init (inet_pton4 : list Z → option (list Z)) (loaded : option yaml_document) (c : config_vars) :
    option (Z * config_vars) :=
  match loaded with None => Some (-1, c) | Some doc => hev_config_parse_doc inet_pton4 doc c end.

(** ** Getters *)

(** A string of the configuration; NULL when it is empty. *)
Definition get_str (b : buf_var) (c : config_vars) : option (option (list Z)) :=
  s ← cstr (cf_buf c b); Some (match s with [] => None | _ => Some s end).

Definition hev_config_get_tunnel_name : config_vars → option (option (list Z)) := get_str tun_name.
Definition hev_config_get_tunnel_ipv4_address : config_vars → option (option (list Z)) := get_str tun_ipv4_address.
Definition hev_config_get_tunnel_ipv6_address : config_vars → option (option (list Z)) := get_str tun_ipv6_address.
Definition hev_config_get_tunnel_post_up_script : config_vars → option (option (list Z)) := get_str tun_post_up_script.
Definition hev_config_get_tunnel_pre_down_script : config_vars → option (option (list Z)) := get_str tun_pre_down_script.
Definition hev_config_get_misc_pid_file : config_vars → option (option (list Z)) := get_str pid_file.

Definition hev_config_get_misc_log_file (c : config_vars) : option (list Z) :=
  s ← get_str log_file c; Some (default (str "stderr") s).

(** [hev_config_get_socks5_server], with the strings its pointers lead to. *)
Definition hev_config_get_socks5_server (c : config_vars) : option HevConfigServer :=
  user ← cstr (cf_buf c user_);
  pass ← cstr (cf_buf c pass_);
  udp_addr ← cstr (cf_buf c srv_udp_addr_);
  addr ← cstr (cf_buf c srv_addr_);
  Some (mk_srv (if cf_user c then Some user else None) (if cf_user c then Some pass else None)
    (cf_int c srv_mark_) (negb (cf_int c srv_udp_in_udp_ =? 0)) (cf_int c srv_port_)
    (negb (cf_int c srv_pipeline_ =? 0)) udp_addr addr).
