(* ===== verification/ConfigProps.v ===== *)
(** * The configuration: limits, strings, and the section of the server *)

From stdpp Require Import strings.
From S2P Require Import Prelude CString RBTreeSearch MappedDNSPacket SocksAddr SocksUDP Session SessionTCP Config.

(** ** The invariant *)

(** Every array keeps its size and the NUL in its last byte, and the timeouts of
    the sessions are positive. *)
Definition cfg_ok (c : config_vars) : Prop :=
  (∀ b, length (cf_buf c b) = buf_size b ∧ cf_buf c b !! (buf_size b - 1)%nat = Some 0) ∧
  0 < cf_int c tcp_read_write_timeout ∧ 0 < cf_int c udp_read_write_timeout.

Lemma buf_size_pos b : (0 < buf_size b)%nat.
Proof. destruct b; simpl; lia. Qed.

Lemma cfg_ok_init : cfg_ok config_init.
Proof.
  split_and!; [|done|done]. intros b. pose proof (buf_size_pos b). simpl. rewrite length_replicate. split; [done|].
  apply lookup_replicate_2. lia.
Qed.

Lemma length_strncpy v n : length (strncpy v n) = n.
Proof. unfold strncpy. rewrite length_app, length_take, length_replicate. lia. Qed.

Lemma put_str_ok buf v n : (0 < n ≤ length buf)%nat → buf !! (length buf - 1)%nat = Some 0 →
  length (put buf 0 (strncpy v (n - 1))) = length buf ∧
  put buf 0 (strncpy v (n - 1)) !! (length buf - 1)%nat = Some 0.
Proof.
  intros Hn Hl. unfold put. rewrite length_strncpy. simpl. split.
  - rewrite length_app, length_strncpy, length_drop. lia.
  - rewrite lookup_app_r by (rewrite length_strncpy; lia). rewrite length_strncpy, lookup_drop.
    rewrite <-Hl. f_equal. lia.
Qed.

Lemma cfg_ok_str b n v c : cfg_ok c → (0 < n ≤ buf_size b)%nat → cfg_ok (set_str b n v c).
Proof.
  intros (Hb & Ht & Hu) Hn. split_and!; [|done|done]. intros b'. simpl. case_decide as Hd; [|apply Hb]. subst b'.
  destruct (Hb b) as [Hl H0]. rewrite <-Hl in *. by apply put_str_ok.
Qed.

Lemma cfg_ok_int v z c : cfg_ok c → v ≠ tcp_read_write_timeout → v ≠ udp_read_write_timeout → cfg_ok (set_int v z c).
Proof. intros (Hb & Ht & Hu) H1 H2. split_and!; [done|simpl; by rewrite decide_False..]. Qed.

Lemma cfg_ok_timeout v z c : cfg_ok c → 0 < z → cfg_ok (set_int v z c).
Proof. intros (Hb & Ht & Hu) Hz. split_and!; [done|simpl; by case_decide..]. Qed.

Lemma cfg_ok_user c : cfg_ok c → cfg_ok (set_user c).
Proof. done. Qed.

Create HintDb cfg.
#[export] Hint Resolve cfg_ok_user : cfg.
#[export] Hint Extern 1 (cfg_ok (set_str _ _ _ _)) => apply cfg_ok_str; [|simpl; lia] : cfg.
#[export] Hint Extern 1 (cfg_ok (set_int _ _ _)) => apply cfg_ok_int; [|discriminate|discriminate] : cfg.

(** Walks through the branches of an assignment. *)
Ltac cfg_step := repeat (case_match || (progress simpl)); eauto 10 with cfg.

(** ** Every section keeps it *)

Lemma for_scalars_inv {A} doc (P : A → Prop) (f : list Z → list Z → A → A) pairs a :
  (∀ k v a, P a → P (f k v a)) → P a → P (for_scalars doc f pairs a).
Proof.
  intros Hf. revert a. induction pairs as [|[k v] pairs IH]; intros a Ha; simpl; [done|].
  repeat case_match; auto.
Qed.

Lemma ok_tunnel_ip doc base c :
  cfg_ok c → cfg_ok (hev_config_parse_tunnel_ipv4 doc base c).2 ∧ cfg_ok (hev_config_parse_tunnel_ipv6 doc base c).2.
Proof.
  intros Hc. destruct base as [[?| |pairs]|]; try done. split; simpl.
  - apply (for_scalars_inv doc cfg_ok); [|done]. intros k v c' Hc'. cfg_step.
  - apply (for_scalars_inv doc cfg_ok); [|done]. intros k v c' Hc'. cfg_step.
Qed.

Lemma ok_tunnel doc base c : cfg_ok c → cfg_ok (hev_config_parse_tunnel doc base c).2.
Proof.
  destruct base as [[?| |pairs]|]; try done. simpl. revert c.
  induction pairs as [|[k v] pairs IH]; intros c Hc; [done|]. cbn [tunnel_loop].
  case_match; [done|]. destruct (yaml_scalar doc k) as [key|]; [|done].
  destruct (yaml_document_get_node doc v) as [node|]; [|done].
  destruct (ok_tunnel_ip doc (Some node) c Hc) as [H4 H6].
  destruct node; apply IH; [unfold tunnel_scalar; cfg_step|repeat case_match; done..].
Qed.

Lemma ok_socks5 doc base c : cfg_ok c → cfg_ok (hev_config_parse_socks5 doc base c).2.
Proof.
  intros Hc. unfold hev_config_parse_socks5, socks5_store. destruct base as [[?| |pairs]|]; try done.
  set (k := for_scalars _ _ _ _). destruct k as [a p um ua u w mk pi]; simpl.
  destruct p as [p|]; [|done]. destruct a as [a|]; [|done].
  destruct u, w, mk, ua, um, pi; cbn [snd]; try done; cfg_step.
Qed.

Lemma ok_mapdns p4 doc base c : cfg_ok c → cfg_ok (hev_config_parse_mapdns p4 doc base c).2.
Proof.
  intros Hc. destruct base as [[?| |pairs]|]; try done. simpl.
  do 2 (apply cfg_ok_int; [|discriminate|discriminate]).
  apply (for_scalars_inv doc cfg_ok); [|done]. intros k v c' Hc'. unfold mapdns_scalar, set_inet. cfg_step.
Qed.

Lemma ok_misc doc base c : cfg_ok c → cfg_ok (hev_config_parse_misc doc base c).2.
Proof.
  intros Hc. destruct base as [[?| |pairs]|]; try done. simpl.
  assert (cfg_ok (for_scalars doc misc_scalar pairs (-1, -1, -1, c)).2) as H.
  { apply (for_scalars_inv doc (λ s, cfg_ok s.2)); [|done]. intros k v [[[t u] r] c'] Hc'.
    unfold misc_scalar. simpl in *. cfg_step. }
  destruct (for_scalars doc misc_scalar pairs (-1, -1, -1, c)) as [[[t u] r] c']. simpl in *.
  set (t' := if t <=? 0 then r else t). set (u' := if u <=? 0 then r else u).
  destruct (Z.ltb_spec 0 t'), (Z.ltb_spec 0 u'); by repeat apply cfg_ok_timeout.
Qed.

Lemma ok_doc_loop p4 doc pairs c : cfg_ok c → cfg_ok (doc_loop p4 doc pairs c).2.
Proof.
  revert c. induction pairs as [|[k v] pairs IH]; intros c Hc; simpl; [done|].
  case_match; [done|]. case_match; [|done].
  assert (cfg_ok (doc_section p4 doc l (yaml_document_get_node doc v) c).2) as Hs.
  { unfold doc_section. repeat case_match; [by apply ok_tunnel|by apply ok_socks5|by apply ok_mapdns|by apply ok_misc|done]. }
  destruct (doc_section _ _ _ _ _) as [res c']. case_match; [done|]. by apply IH.
Qed.

Lemma int_expr_inv z y : int_expr z = Some y → y = z.
Proof. unfold int_expr. case_match; congruence. Qed.

Lemma ok_limits c c' : config_limits c = Some c' → cfg_ok c → cfg_ok c' ∧
  cf_int c' tcp_buffer_size ≤ TCP_SND_BUF ∧
  TASK_STACK_SIZE + cf_int c' tcp_buffer_size ≤ cf_int c' task_stack_size ∧
  TASK_STACK_SIZE + UDP_BUF_SIZE * cf_int c' udp_copy_buffer_nums ≤ cf_int c' task_stack_size.
Proof.
  intros H Hc. unfold config_limits in H. set (c1 := if TCP_SND_BUF <? _ then _ else c) in H.
  assert (cfg_ok c1 ∧ cf_int c1 tcp_buffer_size ≤ TCP_SND_BUF) as [Hc1 Ht].
  { subst c1. destruct (Z.ltb_spec TCP_SND_BUF (cf_int c tcp_buffer_size)); split; auto with cfg. simpl. lia. }
  clearbody c1. cbn zeta in H. apply bind_Some in H as (u & Hu & H). apply bind_Some in H as (m & Hm & [= <-]).
  apply int_expr_inv in Hu as ->. apply int_expr_inv in Hm as ->.
  set (m := TASK_STACK_SIZE + _) in *.
  assert (TASK_STACK_SIZE + cf_int c1 tcp_buffer_size ≤ m ∧ TASK_STACK_SIZE + UDP_BUF_SIZE * cf_int c1 udp_copy_buffer_nums ≤ m).
  { subst m. destruct (Z.ltb_spec (UDP_BUF_SIZE * cf_int c1 udp_copy_buffer_nums) (cf_int c1 tcp_buffer_size)); lia. }
  destruct (Z.ltb_spec (cf_int c1 task_stack_size) m); split_and!; auto with cfg; simpl; lia.
Qed.

(** ** Strings *)

Lemma cstr_put buf v n : Forall (λ b, b ≠ 0) v → (0 < n ≤ length buf)%nat → buf !! (length buf - 1)%nat = Some 0 →
  n = length buf ∨ (length v < n - 1)%nat → cstr (put buf 0 (strncpy v (n - 1))) = Some (take (n - 1) v).
Proof.
  intros Hv Hn Hl Hor. unfold put, strncpy. rewrite length_app, length_take, length_replicate. simpl.
  destruct (decide (length v < n - 1)%nat) as [Hlt|Hge].
  - rewrite take_ge by lia. replace (n - 1 - length v)%nat with (S (n - 2 - length v)) by lia. simpl.
    rewrite <-app_assoc. simpl. by apply cstr_app.
  - destruct Hor as [->|]; [|lia]. replace (length buf - 1 - length v)%nat with 0%nat by lia. simpl.
    rewrite app_nil_r. replace (drop _ buf) with [0]; [apply cstr_app; by apply Forall_take|].
    replace (min (length buf - 1) (length v) + 0)%nat with (length buf - 1)%nat by lia.
    rewrite (drop_S buf 0) by done. rewrite drop_ge by lia. done.
Qed.

Lemma get_str_ok b c : cfg_ok c → is_Some (get_str b c).
Proof.
  intros (Hb & _ & _). unfold get_str. destruct (Hb b) as [_ H0]. apply cstr_some in H0 as [s ->]. done.
Qed.


(** A document with a [misc] section that asks for more than there is. *)
Definition ex_doc : yaml_document :=
  [YAML_MAPPING_NODE [(2, 3)]; YAML_SCALAR_NODE (str "misc"); YAML_MAPPING_NODE [(4, 5); (6, 7)];
   YAML_SCALAR_NODE (str "tcp-buffer-size"); YAML_SCALAR_NODE (str "100000");
   YAML_SCALAR_NODE (str "task-stack-size"); YAML_SCALAR_NODE (str "1000")].


(** ** The section of the server *)

(** The pairs that the loop over a mapping gets to. *)
Fixpoint scalar_pairs (doc : yaml_document) (pairs : list (Z * Z)) : list (list Z * list Z) :=
  match pairs with
  | (k, v) :: pairs =>
      if (k =? 0) || (v =? 0) then []
      else match yaml_scalar doc k, yaml_scalar doc v with
        | Some key, Some value => (key, value) :: scalar_pairs doc pairs
        | _, _ => []
        end
  | [] => []
  end.

Lemma for_scalars_foldl {A} doc (f : list Z → list Z → A → A) pairs a :
  for_scalars doc f pairs a = foldl (λ a kv, f kv.1 kv.2 a) a (scalar_pairs doc pairs).
Proof.
  revert a. induction pairs as [|[k v] pairs IH]; intros a; [done|]. simpl.
  case_match; [done|]. destruct (yaml_scalar doc k), (yaml_scalar doc v); simpl; done.
Qed.

(** The last value of a key. *)
Definition key_last (name : string) (kvs : list (list Z * list Z)) : option (list Z) :=
  foldl (λ r kv, if decide (kv.1 = str name) then Some kv.2 else r) None kvs.

Lemma key_last_field (get : socks5_keys → option (list Z)) name kvs :
  get (mk_keys None None None None None None None None) = None →
  (∀ key v k, get (socks5_scalar key v k) = if decide (key = str name) then Some v else get k) →
  get (foldl (λ k kv, socks5_scalar kv.1 kv.2 k) (mk_keys None None None None None None None None) kvs) = key_last name kvs.
Proof.
  intros H0 Hs. enough (∀ k, get (foldl (λ k kv, socks5_scalar kv.1 kv.2 k) k kvs) =
    foldl (λ r kv, if decide (kv.1 = str name) then Some kv.2 else r) (get k) kvs) as H by (by rewrite H, H0).
  induction kvs as [|[k v] kvs IH]; intros r; [done|]. simpl. by rewrite IH, Hs.
Qed.

Lemma strcmp_decide x y : (strcmp x y =? 0) = bool_decide (x = y).
Proof.
  destruct (Z.eqb_spec (strcmp x y) 0) as [H|H].
  - apply cmp_eq in H. by rewrite bool_decide_eq_true_2.
  - rewrite bool_decide_eq_false_2; [done|]. intros Hxy. by apply H, cmp_eq.
Qed.

Ltac key_field :=
  apply key_last_field; [done|]; intros key v [????????]; unfold socks5_scalar; rewrite !strcmp_decide;
  repeat (case_bool_decide || case_decide); subst; simpl; congruence || (vm_compute in *; congruence).

(** What the section says, from its last values: the server that is used, given
    the one before; nothing when the section is refused. *)
Definition socks5_section (kvs : list (list Z * list Z)) (srv : HevConfigServer) : option HevConfigServer :=
  port ← key_last "port" kvs;
  addr ← key_last "address" kvs;
  let user := key_last "username" kvs in
  let pass := key_last "password" kvs in
  let asks name value := match key_last name kvs with Some v => strcasecmp v (str value) =? 0 | None => false end in
  if bool_decide (is_Some user ↔ is_Some pass) then
    Some (mk_srv (match user with Some u => Some (take 255 u) | None => srv_user srv end)
      (match pass with Some p => Some (take 255 p) | None => srv_pass srv end)
      (match key_last "mark" kvs with Some m => u32 (strtoul m 0) | None => srv_mark srv end)
      (srv_udp_in_udp srv || asks "udp" "udp")
      (u16 (strtoul port 10))
      (srv_pipeline srv || asks "pipeline" "true")
      (match key_last "udp-address" kvs with Some a => take 255 a | None => srv_udp_addr srv end)
      (take 255 addr))
  else None.

Lemma socks5_keys_last kvs :
  foldl (λ k kv, socks5_scalar kv.1 kv.2 k) (mk_keys None None None None None None None None) kvs =
  mk_keys (key_last "address" kvs) (key_last "port" kvs) (key_last "udp" kvs) (key_last "udp-address" kvs)
    (key_last "username" kvs) (key_last "password" kvs) (key_last "mark" kvs) (key_last "pipeline" kvs).
Proof.
  assert (∀ k, k = mk_keys (k_addr k) (k_port k) (k_udpm k) (k_udpa k) (k_user k) (k_pass k) (k_mark k) (k_pipe k)) as Heta
    by by intros [].
  rewrite (Heta (foldl _ _ _)). f_equal; key_field.
Qed.

Lemma key_last_Forall (P : list Z → Prop) name kvs v :
  Forall (λ kv, P kv.2) kvs → key_last name kvs = Some v → P v.
Proof.
  intros Hk. unfold key_last. enough (∀ r, (∀ v, r = Some v → P v) → ∀ v,
    foldl (λ r kv, if decide (kv.1 = str name) then Some kv.2 else r) r kvs = Some v → P v) as H by (by apply H).
  induction Hk as [|[k w] kvs Hw Hk IH]; intros r Hr; simpl; [exact Hr|]. apply IH. intros v'. case_decide; [naive_solver|apply Hr].
Qed.

(** What the getter reads after a string was stored. *)
Lemma cstr_set_str b v c b' : cfg_ok c → Forall (λ x, x ≠ 0) v →
  cstr (cf_buf (set_str b (buf_size b) v c) b') = if decide (b' = b) then Some (take (buf_size b - 1) v) else cstr (cf_buf c b').
Proof.
  intros (Hb & _ & _) Hv. simpl. case_decide; [|done]. destruct (Hb b) as [Hl H0]. pose proof (buf_size_pos b).
  rewrite <-Hl in *. apply cstr_put; auto.
Qed.

Definition srv_fields (c : config_vars) (user pass udp_addr addr : list Z) : Prop :=
  cstr (cf_buf c user_) = Some user ∧ cstr (cf_buf c pass_) = Some pass ∧
  cstr (cf_buf c srv_udp_addr_) = Some udp_addr ∧ cstr (cf_buf c srv_addr_) = Some addr.

Definition srv_of (c : config_vars) (user pass udp_addr addr : list Z) : HevConfigServer :=
  mk_srv (if cf_user c then Some user else None) (if cf_user c then Some pass else None)
    (cf_int c srv_mark_) (negb (cf_int c srv_udp_in_udp_ =? 0)) (cf_int c srv_port_)
    (negb (cf_int c srv_pipeline_ =? 0)) udp_addr addr.

Lemma get_server c srv : hev_config_get_socks5_server c = Some srv ↔
  ∃ user pass udp_addr addr, srv_fields c user pass udp_addr addr ∧ srv = srv_of c user pass udp_addr addr.
Proof.
  unfold hev_config_get_socks5_server. split.
  - intros H. apply bind_Some in H as (u & Hu & H). apply bind_Some in H as (p & Hp & H).
    apply bind_Some in H as (a & Ha & H). apply bind_Some in H as (d & Hd & [= <-]). by exists u, p, a, d.
  - intros (u & p & a & d & (-> & -> & -> & ->) & ->). done.
Qed.

Local Arguments put : simpl never.
Local Arguments strncpy : simpl never.
Local Arguments take : simpl never.
Local Arguments strtoul : simpl never.
Local Arguments strcasecmp : simpl never.

Lemma socks5_store_spec addr port k c user pass udp_addr old :
  cfg_ok c → srv_fields c user pass udp_addr old → Forall (λ x, x ≠ 0) addr →
  (∀ v, k_udpa k = Some v ∨ k_user k = Some v ∨ k_pass k = Some v → Forall (λ x, x ≠ 0) v) →
  (is_Some (k_user k) ↔ is_Some (k_pass k)) →
  let c' := socks5_store addr port k c in
  let asks key value := match key with Some v => strcasecmp v (str value) =? 0 | None => false end in
  srv_fields c' (from_option (take 255) user (k_user k)) (from_option (take 255) pass (k_pass k))
    (from_option (take 255) udp_addr (k_udpa k)) (take 255 addr) ∧
  cf_user c' = cf_user c || bool_decide (is_Some (k_user k)) ∧
  cf_int c' srv_mark_ = from_option (λ m, u32 (strtoul m 0)) (cf_int c srv_mark_) (k_mark k) ∧
  cf_int c' srv_port_ = u16 (strtoul port 10) ∧
  cf_int c' srv_udp_in_udp_ = (if asks (k_udpm k) "udp" then 1 else cf_int c srv_udp_in_udp_) ∧
  cf_int c' srv_pipeline_ = (if asks (k_pipe k) "true" then 1 else cf_int c srv_pipeline_).
Proof.
  intros Hc (Hu & Hp & Ha & Ho) Hv Hk Hboth. destruct k as [ka kp kum kua ku kw km kpi].
  assert (∀ b v, buf_size b = 256%nat → Forall (λ x, x ≠ 0) v →
    cstr (put (cf_buf c b) 0 (strncpy v 255)) = Some (take 255 v)) as Hput.
  { intros b v Hb Hv'. pose proof (cstr_set_str b v c b Hc Hv') as H. rewrite Hb, decide_True in H by done.
    simpl in H. by rewrite decide_True in H. }
  cbn [k_addr k_port k_udpm k_udpa k_user k_pass k_mark k_pipe] in *. cbn zeta.
  destruct ku as [ku|], kw as [kw|]; [| |by destruct Hboth as [_ []]|];
    [|by destruct Hboth as [[] _]|].
  all: destruct kpi as [kpi|]; [destruct (strcasecmp kpi (str "true") =? 0) eqn:Epi|].
  all: destruct kum as [kum|]; [destruct (strcasecmp kum (str "udp") =? 0) eqn:Eum|].
  all: destruct kua as [kua|], km as [km|]; unfold socks5_store;
    cbn [k_pipe k_udpm k_udpa k_user k_pass k_mark]; rewrite ?Epi, ?Eum; unfold srv_fields; simpl;
    rewrite ?Hput by eauto; rewrite ?orb_true_r, ?orb_false_r; split_and!; done.
Qed.

(** C35: the section of the server is read as it is written.
    [hev_config_parse_socks5] on a mapping does what [socks5_section] says of the
    last values of its keys: if the port or the address is missing, or only one
    of user name and password is there, it fails and changes nothing; otherwise
    the server is the one of the section, with strings cut to 255 bytes and the
    port to 16 bits, and with the settings it does not name as they were. *)
Theorem socks5_section_parsed doc pairs c srv :
  cfg_ok c → hev_config_get_socks5_server c = Some srv →
  Forall (λ kv, Forall (λ x, x ≠ 0) kv.2) (scalar_pairs doc pairs) →
  match socks5_section (scalar_pairs doc pairs) srv with
  | Some srv' => ∃ c', hev_config_parse_socks5 doc (Some (YAML_MAPPING_NODE pairs)) c = (0, c') ∧
      hev_config_get_socks5_server c' = Some srv'
  | None => hev_config_parse_socks5 doc (Some (YAML_MAPPING_NODE pairs)) c = (-1, c)
  end.
Proof.
  intros Hc (user & pass & ua & old & Hf & ->)%get_server Hkv.
  unfold hev_config_parse_socks5, socks5_section. rewrite for_scalars_foldl, socks5_keys_last.
  set (kvs := scalar_pairs doc pairs) in *. cbn [k_port k_addr k_user k_pass].
  destruct (key_last "port" kvs) as [port|]; [|done]. cbn [mbind option_bind].
  destruct (key_last "address" kvs) as [addr|] eqn:Haddr; [|done]. cbn [mbind option_bind].
  set (k := mk_keys _ _ _ _ _ _ _ _).
  assert (∀ n v, key_last n kvs = Some v → Forall (λ x, x ≠ 0) v) as Hnz by (intros n v; by apply key_last_Forall).
  case_bool_decide as Hboth.
  - destruct (socks5_store_spec addr port k c user pass ua old Hc Hf) as (Hf' & Hu & Hm & Hp & Hi & Hpi); [by eapply Hnz| |done|].
    { intros v [H|[H|H]]; unfold k in H; cbn [k_udpa k_user k_pass] in H; by eapply Hnz. }
    exists (socks5_store addr port k c). split.
    { destruct (key_last "username" kvs), (key_last "password" kvs); try done; destruct Hboth as [H1 H2]; [by destruct H1|by destruct H2]. }
    apply get_server. do 4 eexists. split; [exact Hf'|]. unfold srv_of. rewrite Hu, Hm, Hp, Hi, Hpi. unfold k.
    cbn [k_udpm k_udpa k_user k_pass k_mark k_pipe srv_user srv_pass srv_mark srv_udp_in_udp srv_pipeline srv_udp_addr].
    f_equal.
    + destruct (key_last "username" kvs); simpl; by rewrite ?orb_true_r, ?orb_false_r.
    + destruct (key_last "username" kvs), (key_last "password" kvs); simpl; rewrite ?orb_true_r, ?orb_false_r; try done;
        destruct Hboth as [H1 H2]; [by destruct H1|by destruct H2].
    + destruct (key_last "udp" kvs) as [v|]; [destruct (strcasecmp v _ =? 0)|]; by rewrite ?orb_true_r, ?orb_false_r.
    + destruct (key_last "pipeline" kvs) as [v|]; [destruct (strcasecmp v _ =? 0)|]; by rewrite ?orb_true_r, ?orb_false_r.
  - destruct (key_last "username" kvs), (key_last "password" kvs); try done; destruct Hboth; split; by intros [].
Qed.

Definition ex_socks5 : yaml_document :=
  [YAML_SCALAR_NODE (str "port"); YAML_SCALAR_NODE (str "1080"); YAML_SCALAR_NODE (str "address");
   YAML_SCALAR_NODE (str "::1"); YAML_SCALAR_NODE (str "pipeline"); YAML_SCALAR_NODE (str "TRUE")].

Lemma socks5_section_parsed_witness :
  match socks5_section (scalar_pairs ex_socks5 [(1, 2); (3, 4); (5, 6)])
      (mk_srv None None 0 false 0 false [] []) with
  | Some srv' => ∃ c', hev_config_parse_socks5 ex_socks5 (Some (YAML_MAPPING_NODE [(1, 2); (3, 4); (5, 6)])) config_init = (0, c') ∧
      hev_config_get_socks5_server c' = Some srv'
  | None => hev_config_parse_socks5 ex_socks5 (Some (YAML_MAPPING_NODE [(1, 2); (3, 4); (5, 6)])) config_init = (-1, config_init)
  end.
Proof.
  apply (socks5_section_parsed ex_socks5 [(1, 2); (3, 4); (5, 6)] config_init (mk_srv None None 0 false 0 false [] [])).
  - exact cfg_ok_init.
  - reflexivity.
  - repeat constructor; vm_compute; discriminate.
Defined.

Example ex_socks5_section :
  socks5_section (scalar_pairs ex_socks5 [(1, 2); (3, 4); (5, 6)]) (mk_srv None None 0 false 0 false [] []) =
  Some (mk_srv None None 0 false 1080 true [] (str "::1")).
Proof. vm_compute. reflexivity. Qed.

(** The size of the TCP buffer has no lower limit.  A number that does not
    fit an [int] becomes negative, and the limits let it pass. *)
Theorem config_negative_buffer :
  ∃ c', hev_config_parse_doc (λ _, None)
      [YAML_MAPPING_NODE [(2, 3)]; YAML_SCALAR_NODE (str "misc"); YAML_MAPPING_NODE [(4, 5)];
       YAML_SCALAR_NODE (str "tcp-buffer-size"); YAML_SCALAR_NODE (str "4294963200")] config_init = Some (0, c') ∧
    cf_int c' tcp_buffer_size = -4096.
Proof. eexists. split; vm_compute; reflexivity. Qed.

(** Scripts are cut.  The array of the post-up script has 1024 bytes, but a
    path of 64 bytes already loses its last one. *)
Theorem config_script_cut :
  ∃ c', hev_config_parse_tunnel
      [YAML_SCALAR_NODE (str "post-up-script"); YAML_SCALAR_NODE (replicate 64 97)]
      (Some (YAML_MAPPING_NODE [(1, 2)])) config_init = (0, c') ∧
    get_str tun_post_up_script c' = Some (Some (replicate 63 97)) ∧ buf_size tun_post_up_script = 1024%nat.
Proof. eexists. split; [vm_compute; reflexivity|]. split; vm_compute; reflexivity. Qed.
