(* ===== verification/Tunnel.v ===== *)
(** * The tunnel (src/hev-socks5-tunnel.c): its sessions

    The tunnel keeps its sessions in an intrusive list, the least recently active
    one first, and counts them.  A session is known by the address of its list
    node, as the code finds it with [container_of].  The callbacks by which lwIP
    announces connections make sessions; the task of a session removes it; the
    event task stops all of them. *)

From S2P Require Import Prelude HevList TaskSystem.

(** ** State *)

(** What the tunnel does to a session: its timeout, and the state of its task. *)
Record tsession := mk_tsession { ts_timeout : Z; ts_task : HevTaskState }.

(** The counters of packets and bytes ([size_t]). *)
Record stats := mk_stats { stat_tx_packets : Z; stat_tx_bytes : Z; stat_rx_packets : Z; stat_rx_bytes : Z }.

(** [tn_timer] is the state of [task_lwip_timer], [tn_sleeps] whether it waits for
    a time or for ever. *)
Record tunnel := mk_tunnel {
  tn_run : bool;
  session_count : Z;
  session_set : HevList;
  tn_sessions : gmap Z tsession;
  tn_timer : HevTaskState;
  tn_sleeps : bool;
  tn_stats : stats;
}.

Definition tn_set_run (r : bool) (s : tunnel) : tunnel :=
  mk_tunnel r (session_count s) (session_set s) (tn_sessions s) (tn_timer s) (tn_sleeps s) (tn_stats s).
Definition tn_set_count (n : Z) (s : tunnel) : tunnel :=
  mk_tunnel (tn_run s) n (session_set s) (tn_sessions s) (tn_timer s) (tn_sleeps s) (tn_stats s).
Definition tn_set_list (l : HevList) (s : tunnel) : tunnel :=
  mk_tunnel (tn_run s) (session_count s) l (tn_sessions s) (tn_timer s) (tn_sleeps s) (tn_stats s).
Definition tn_set_sessions (m : gmap Z tsession) (s : tunnel) : tunnel :=
  mk_tunnel (tn_run s) (session_count s) (session_set s) m (tn_timer s) (tn_sleeps s) (tn_stats s).
Definition tn_set_timer (t : HevTaskState) (sleeps : bool) (s : tunnel) : tunnel :=
  mk_tunnel (tn_run s) (session_count s) (session_set s) (tn_sessions s) t sleeps (tn_stats s).
Definition tn_set_stats (st : stats) (s : tunnel) : tunnel :=
  mk_tunnel (tn_run s) (session_count s) (session_set s) (tn_sessions s) (tn_timer s) (tn_sleeps s) st.

Definition in_list {A} : stm HevList A → stm tunnel A := zoom session_set tn_set_list.

(** ** Sessions *)

(** A new session: its object is zeroed, the constructor leaves no timeout; the
    task it gets is new. *)
Definition session_alloc (a : Z) : stm tunnel unit := λ s,
  match hl_mem (session_set s) !! a, tn_sessions s !! a with
  | None, None =>
      let l := session_set s in
      Some (tt, tn_set_sessions (<[a := mk_tsession (-1) HEV_TASK_STOPPED]> (tn_sessions s))
        (tn_set_list (mk_hlist (hl_head l) (hl_tail l) (<[a := mk_lnode 0 0]> (hl_mem l))) s))
  | _, _ => None
  end.

(** The last reference is dropped. *)
Definition session_unref (a : Z) : stm tunnel unit := λ s,
  match hl_mem (session_set s) !! a, tn_sessions s !! a with
  | Some _, Some _ =>
      let l := session_set s in
      Some (tt, tn_set_sessions (delete a (tn_sessions s))
        (tn_set_list (mk_hlist (hl_head l) (hl_tail l) (delete a (hl_mem l))) s))
  | _, _ => None
  end.

(** [hev_task_wakeup]; [None] is [abort], see [hev_task_system_wakeup_task]. *)
Definition wake_state (st : HevTaskState) : option HevTaskState :=
  match st with HEV_TASK_STOPPED => None | _ => Some HEV_TASK_RUNNING end.

Definition hev_socks5_session_terminate (a : Z) : stm tunnel unit := λ s,
  match tn_sessions s !! a with
  | Some t =>
      match wake_state (ts_task t) with
      | Some st => Some (tt, tn_set_sessions (<[a := mk_tsession 0 st]> (tn_sessions s)) s)
      | None => None
      end
  | None => None
  end.

(** The task of a session is run, and changes its state when it waits and when it
    is woken up. *)
Definition session_task (a : Z) (st : HevTaskState) : stm tunnel unit := λ s,
  match tn_sessions s !! a with
  | Some t => Some (tt, tn_set_sessions (<[a := mk_tsession (ts_timeout t) st]> (tn_sessions s)) s)
  | None => None
  end.

(** [hev_task_wakeup (task_lwip_timer)]. *)
Definition timer_wakeup : stm tunnel unit := λ s,
  match wake_state (tn_timer s) with
  | Some st => Some (tt, tn_set_timer st false s)
  | None => None
  end.

(** ** The set of sessions *)

Definition hev_socks5_tunnel_insert_session (max_session_count node : Z) : stm tunnel unit :=
  in_list (hev_list_add_tail node);;
  modify (λ s, tn_set_count (s32 (session_count s + 1)) s);;
  count ← gets session_count;
  if (max_session_count =? 0) || (count <? max_session_count) then mret tt
  else
    node ← in_list hev_list_first;
    hev_socks5_session_terminate node.

Definition hev_socks5_tunnel_delete_session (node : Z) : stm tunnel unit :=
  in_list (hev_list_del node);;
  modify (λ s, tn_set_count (s32 (session_count s - 1)) s).

Definition hev_socks5_tunnel_update_session (max_session_count node : Z) : stm tunnel unit :=
  if max_session_count =? 0 then mret tt
  else in_list (hev_list_del node;; hev_list_add_tail node).

(** [hev_socks5_session_task_entry] after the session has run. *)
Definition hev_socks5_session_task_entry (node : Z) : stm tunnel unit :=
  hev_socks5_tunnel_delete_session node;;
  session_unref node.

(** ** The callbacks of lwIP *)

Definition ERR_OK : Z := 0.
Definition ERR_MEM : Z := -1.
Definition ERR_WOULDBLOCK : Z := -7.
Definition ERR_IF : Z := -12.
Definition ERR_ABRT : Z := -13.
Definition ERR_RST : Z := -14.

(** [block] is where the session is made, [None] when that fails; [task_ok]
    whether there is a task for it.  Besides the error, the result tells whether
    the connection was aborted, which the destructor of the session does. *)
Definition tcp_accept_handler (max_session_count : Z) (block : option Z) (task_ok : bool) (err : Z) :
    stm tunnel (Z * bool) :=
  if negb (err =? ERR_OK) then mret (err, false)
  else
    run ← gets tn_run;
    if negb run then mret (ERR_RST, false)
    else
      match block with
      | None => mret (ERR_MEM, false)
      | Some tcp =>
          session_alloc tcp;;
          if negb task_ok then session_unref tcp;; mret (ERR_MEM, true)
          else
            hev_socks5_tunnel_insert_session max_session_count tcp;;
            session_task tcp HEV_TASK_RUNNING;;
            timer_wakeup;;
            mret (ERR_OK, false)
      end.

(** What happens to the new connection of a datagram. *)
Inductive udp_flow := FlowRemoved | FlowDns | FlowSession.

(** The mapped DNS server: whether there is one, and its address and port as
    configured. *)
Record mapdns := mk_mapdns { md_on : bool; md_address : Z; md_port : Z }.

(** The address of the datagram when it is of IPv4.  [hev_config_get_mapdns_address]
    is an [int] and is compared with a [u32_t]. *)
Definition udp_is_dns (md : mapdns) (addr : option Z) (port : Z) : bool :=
  match addr with
  | Some addr => md_on md && (md_port md =? port) && (u32 (md_address md) =? addr)
  | None => false
  end.

Definition udp_recv_handler (max_session_count : Z) (md : mapdns) (addr : option Z) (port : Z)
    (block : option Z) (task_ok : bool) : stm tunnel udp_flow :=
  run ← gets tn_run;
  if negb run then mret FlowRemoved
  else if udp_is_dns md addr port then mret FlowDns
  else
    match block with
    | None => mret FlowRemoved
    | Some udp =>
        session_alloc udp;;
        if negb task_ok then session_unref udp;; mret FlowRemoved
        else
          hev_socks5_tunnel_insert_session max_session_count udp;;
          session_task udp HEV_TASK_RUNNING;;
          timer_wakeup;;
          mret FlowSession
    end.

(** [s] is what [hev_tunnel_write] gives, [again] whether [errno] is [EAGAIN]. *)
Definition netif_output_handler (s : Z) (again : bool) : stm tunnel Z :=
  if s <=? 0 then mret (if again then ERR_WOULDBLOCK else ERR_IF)
  else
    modify (λ tn, let st := tn_stats tn in
      tn_set_stats (mk_stats (stat_tx_packets st) (stat_tx_bytes st) (u64 (stat_rx_packets st + 1)) (u64 (stat_rx_bytes st + s))) tn);;
    mret ERR_OK.

(** ** The tasks of lwIP *)

(** What a pass of the loop of [lwip_io_task_entry] did with its packet. *)
Inductive io_pass := IoEnded | IoNothing | IoTaken | IoFreed.

(** [buf] is the length of the packet that [hev_tunnel_read] gives, with the
    result of [netif.input]. *)
Definition lwip_io_round (buf : option (Z * Z)) : stm tunnel io_pass :=
  run ← gets tn_run;
  if negb run then mret IoEnded
  else
    match buf with
    | None => mret IoNothing
    | Some (tot_len, err) =>
        modify (λ tn, let st := tn_stats tn in
          tn_set_stats (mk_stats (u64 (stat_tx_packets st + 1)) (u64 (stat_tx_bytes st + tot_len)) (stat_rx_packets st) (stat_rx_bytes st)) tn);;
        mret (if err =? ERR_OK then IoTaken else IoFreed)
    end.

Inductive lwip_tmr := tcp_tmr | ip_reass_tmr | nd6_tmr | ip6_reass_tmr.

(** Pass [i] of the loop of [lwip_timer_task_entry]: the timers it calls; [None]
    when the loop ends, and with it the task. *)
Definition lwip_timer_round (i : Z) : stm tunnel (option (list lwip_tmr)) :=
  run ← gets tn_run;
  if negb run then modify (tn_set_timer HEV_TASK_STOPPED false);; mret None
  else
    let calls := tcp_tmr :: (if Z.land i 3 =? 0 then [ip_reass_tmr; nd6_tmr; ip6_reass_tmr] else []) in
    node ← in_list hev_list_first;
    modify (tn_set_timer HEV_TASK_WAITING (negb (node =? 0)));;
    mret (Some calls).

(** The tasks are run. *)
Definition hev_socks5_tunnel_run : stm tunnel unit :=
  modify (tn_set_timer HEV_TASK_RUNNING false);;
  modify (tn_set_run true).

(** ** Stopping *)

(** The loop of [event_task_entry]. *)
Fixpoint terminate_loop (fuel : nat) (node : Z) : stm tunnel unit :=
  match fuel with
  | 0%nat => ub
  | S fuel =>
      if node =? 0 then mret tt
      else
        hev_socks5_session_terminate node;;
        node ← in_list (hev_list_node_next node);
        terminate_loop fuel node
  end.

(** [event_task_entry] after an event has come; every node is a session, so that
    their number bounds the loop. *)
Definition event_task_entry : stm tunnel unit :=
  modify (tn_set_run false);;
  node ← in_list hev_list_first;
  fuel ← gets (λ s, S (size (tn_sessions s)));
  terminate_loop fuel node.

(** A pass of the loop of [hev_task_join] for [task_lwip_timer]: whether it has
    ended. *)
Definition timer_join : stm tunnel bool :=
  t ← gets tn_timer;
  match t with HEV_TASK_STOPPED => mret true | _ => timer_wakeup;; mret false end.
