(* ===== verification/TunnelProps.v ===== *)
(** * The tunnel: the set of sessions is a sequence *)

From S2P Require Import Prelude HevList TaskSystem Tunnel.

(** A session whose task has not been run, one that runs, and one that was told to
    stop. *)
Definition fresh_session : tsession := mk_tsession (-1) HEV_TASK_STOPPED.
Definition new_session : tsession := mk_tsession (-1) HEV_TASK_RUNNING.
Definition stopped : tsession := mk_tsession 0 HEV_TASK_RUNNING.

(** ** The abstract set: a sequence of sessions, the least recently active one
    first *)

Definition stop_first (L : list (Z * tsession)) : list (Z * tsession) :=
  match L with [] => [] | x :: L => (x.1, stopped) :: L end.

Definition spec_insert (max a : Z) (L : list (Z * tsession)) : list (Z * tsession) :=
  (if (max =? 0) || (Z.of_nat (S (length L)) <? max) then L else stop_first L) ++ [(a, new_session)].

(** The limits with which the new session is not stopped itself. *)
Definition limit_ok (max : Z) (L : list (Z * tsession)) : Prop := max = 0 ∨ 1 < max ∨ L ≠ [].

Definition spec_delete (a : Z) (L : list (Z * tsession)) : list (Z * tsession) := filter (λ x, x.1 ≠ a) L.

Definition spec_update (max a : Z) (L : list (Z * tsession)) : list (Z * tsession) :=
  if max =? 0 then L else filter (λ x, x.1 ≠ a) L ++ filter (λ x, x.1 = a) L.

Definition spec_stop (L : list (Z * tsession)) : list (Z * tsession) := (λ x, (x.1, stopped)) <$> L.

(** ** Representation *)

Record tn_rep (s : tunnel) (L : list (Z * tsession)) : Prop := {
  tr_list : list_is (session_set s) L.*1 [];
  tr_count : session_count s = Z.of_nat (length L);
  tr_sessions : tn_sessions s = list_to_map L;
  tr_tasks : Forall (λ x, ts_task x.2 ≠ HEV_TASK_STOPPED) L;
  tr_timer : tn_run s = true → tn_timer s ≠ HEV_TASK_STOPPED;
}.

(** What the operations on the set leave alone. *)
Definition same_tasks (s s' : tunnel) : Prop :=
  tn_run s' = tn_run s ∧ tn_timer s' = tn_timer s ∧ tn_sleeps s' = tn_sleeps s.

Lemma wp_in_sessions {A} (c : stm HevList A) s Q :
  wp c (session_set s) (λ a l, Q a (tn_set_list l s)) → wp (in_list c) s Q.
Proof. apply wp_zoom. Qed.

Lemma rep_NoDup s L : tn_rep s L → NoDup L.*1.
Proof. intros H. by eapply list_is_NoDup, (tr_list _ _ H). Qed.

(** Sequences with distinct addresses. *)
Lemma filter_ne_split (L1 L2 : list (Z * tsession)) a v : NoDup (L1 ++ (a, v) :: L2).*1 →
  filter (λ x, x.1 ≠ a) (L1 ++ (a, v) :: L2) = L1 ++ L2 ∧ filter (λ x, x.1 = a) (L1 ++ (a, v) :: L2) = [(a, v)].
Proof.
  rewrite fmap_app. intros (Hn1 & Hd & Hn2)%NoDup_app. simpl in *. apply NoDup_cons in Hn2 as [Hn Hn2].
  assert (∀ L : list (Z * tsession), a ∉ L.*1 → filter (λ x, x.1 ≠ a) L = L ∧ filter (λ x, x.1 = a) L = []) as Hf.
  { clear. induction L as [|[b w] L IH]; intros Ha; [done|]. csimpl in Ha. apply not_elem_of_cons in Ha as [Hb Ha].
    destruct (IH Ha) as [H1 H2]. rewrite !filter_cons. simpl. rewrite decide_True, decide_False by congruence. by rewrite H1, H2. }
  assert (a ∉ L1.*1) as H1 by (intros H; by apply (Hd a H), list_elem_of_here).
  destruct (Hf L1 H1) as [E1 E2]. destruct (Hf L2 Hn) as [E3 E4].
  rewrite !filter_app, !filter_cons. simpl. rewrite decide_False, decide_True by naive_solver. by rewrite E1, E2, E3, E4.
Qed.

Lemma rep_split s L a : tn_rep s L → a ∈ L.*1 → ∃ L1 v L2, L = L1 ++ (a, v) :: L2.
Proof.
  intros _ Ha. apply list_elem_of_fmap in Ha as ([b v] & -> & Hin). apply list_elem_of_split in Hin as (L1 & L2 & ->).
  by exists L1, v, L2.
Qed.

(** ** The operations *)

Lemma wp_terminate s a v Q : tn_sessions s !! a = Some v → ts_task v ≠ HEV_TASK_STOPPED →
  Q tt (tn_set_sessions (<[a := stopped]> (tn_sessions s)) s) → wp (hev_socks5_session_terminate a) s Q.
Proof. intros H Hv HQ. unfold wp, hev_socks5_session_terminate. rewrite H. by destruct (ts_task v). Qed.

(** A session is made: its node is outside the list. *)
Lemma wp_session_alloc s L a :
  tn_rep s L → is_ptr a → a ∉ L.*1 →
  wp (session_alloc a) s (λ _ s', ∃ n, list_is (session_set s') L.*1 [(a, n)] ∧
    session_count s' = session_count s ∧ tn_sessions s' = <[a := fresh_session]> (list_to_map L) ∧ same_tasks s s').
Proof.
  intros [Hl Hc Hs _ _] Ha Hn. unfold wp, session_alloc. destruct Hl as [Hh Hhd Htl]. rewrite app_nil_r in Hh.
  assert (hl_mem (session_set s) !! a = None) as ->.
  { destruct Hh as (_ & _ & ->). apply not_elem_of_list_to_map_1. by rewrite lseg_fst. }
  rewrite Hs. rewrite (not_elem_of_list_to_map_1 L a) by done. exists (mk_lnode 0 0). simpl. split_and!; [|done|done|done].
  split; simpl; [|done|done]. eapply heap_perm; [|apply Permutation_app_comm]. simpl. apply heap_alloc; [done|done|].
  destruct Hh as (_ & _ & ->). apply not_elem_of_list_to_map_1. by rewrite lseg_fst.
Qed.

Lemma stop_first_fst L : (stop_first L).*1 = L.*1.
Proof. by destruct L. Qed.

Lemma wp_insert s L a max n :
  list_is (session_set s) L.*1 [(a, n)] → session_count s = Z.of_nat (length L) →
  tn_sessions s = <[a := fresh_session]> (list_to_map L) → Z.of_nat (length L) < 2 ^ 31 - 1 →
  Forall (λ x, ts_task x.2 ≠ HEV_TASK_STOPPED) L → limit_ok max L →
  wp (hev_socks5_tunnel_insert_session max a) s (λ _ s', list_is (session_set s') (L.*1 ++ [a]) [] ∧
    session_count s' = Z.of_nat (S (length L)) ∧ same_tasks s s' ∧ tn_sessions s' = <[a := fresh_session]>
      (list_to_map (if (max =? 0) || (Z.of_nat (S (length L)) <? max) then L else stop_first L))).
Proof.
  intros Hl Hc Hs Hb Ht Hok. pose proof (list_is_disjoint _ _ _ a Hl) as Hdis.
  assert (a ∉ L.*1) as Ha by (intros H; apply (Hdis H); simpl; by apply list_elem_of_here). clear Hdis.
  unfold hev_socks5_tunnel_insert_session. apply wp_bind, wp_in_sessions.
  eapply wp_mono; [by eapply wp_hev_list_add_tail|]. intros [] l Hl'. cbn beta.
  apply wp_bind, wp_modify. apply wp_bind, wp_gets. cbn [session_count tn_set_count tn_set_list].
  assert (s32 (session_count s + 1) = Z.of_nat (S (length L))) as ->.
  { rewrite Hc. unfold s32. rewrite Z.mod_small by lia. lia. }
  destruct ((max =? 0) || (Z.of_nat (S (length L)) <? max)) eqn:Hm.
  - by apply wp_ret.
  - destruct L as [|[b v] L2].
    { exfalso. apply orb_false_iff in Hm as [H1%Z.eqb_neq H2%Z.ltb_ge]. simpl in H2. destruct Hok as [?|[?|?]]; [lia|lia|done]. }
    apply wp_bind, wp_in_sessions. eapply wp_hev_list_first; [exact Hl'|]. simpl.
    assert (a ≠ b) as Hab by (csimpl in Ha; set_solver). apply Forall_cons in Ht as [Hv _].
    eapply wp_terminate; simpl; [rewrite Hs; rewrite lookup_insert_ne by done; apply lookup_insert_eq|done|].
    split_and!; [done|done|done|]. rewrite Hs. simpl. rewrite (insert_insert_ne _ b a) by done. by rewrite insert_insert_eq.
Qed.

Lemma insert_last (L : list (Z * tsession)) a v :
  a ∉ L.*1 → <[a := v]> (list_to_map L : gmap Z tsession) = list_to_map (L ++ [(a, v)]).
Proof.
  intros Ha. rewrite list_to_map_app. simpl. rewrite insert_empty. apply map_eq. intros b. rewrite lookup_union.
  destruct (decide (a = b)) as [<-|Hne].
  - rewrite lookup_insert_eq, (not_elem_of_list_to_map_1 L a) by done. by rewrite lookup_singleton_eq.
  - rewrite lookup_insert_ne, lookup_singleton_ne by done. by rewrite (right_id_L None (∪)).
Qed.

Lemma wp_tunnel_update s L a max :
  tn_rep s L → a ∈ L.*1 →
  wp (hev_socks5_tunnel_update_session max a) s (λ _ s', tn_rep s' (spec_update max a L) ∧ same_tasks s s').
Proof.
  intros Hr Ha. pose proof (rep_NoDup s L Hr) as Hnd. destruct (rep_split s L a Hr Ha) as (L1 & v & L2 & ->).
  unfold hev_socks5_tunnel_update_session, spec_update. destruct (max =? 0); [by apply wp_ret|].
  destruct (filter_ne_split L1 L2 a v Hnd) as [-> ->]. destruct Hr as [Hl Hc Hs Ht Hti]. rewrite fmap_app in Hl. simpl in Hl.
  apply wp_in_sessions. eapply wp_mono; [by apply wp_hev_list_touch|]. intros [] l Hl'. split; [|done]. split; simpl.
  - rewrite !fmap_app. simpl. by rewrite <-app_assoc.
  - rewrite Hc, !length_app. simpl. lia.
  - rewrite Hs. apply list_to_map_proper; [done|]. solve_Permutation.
  - apply Forall_app in Ht as [Ht1 [Hv Ht2]%Forall_cons]. rewrite !Forall_app. split_and!; [done|done|by constructor].
  - done.
Qed.

Lemma wp_tunnel_done s L a :
  tn_rep s L → a ∈ L.*1 → Z.of_nat (length L) < 2 ^ 31 →
  wp (hev_socks5_session_task_entry a) s (λ _ s', tn_rep s' (spec_delete a L) ∧ same_tasks s s').
Proof.
  intros Hr Ha Hb. pose proof (rep_NoDup s L Hr) as Hnd. destruct (rep_split s L a Hr Ha) as (L1 & v & L2 & ->).
  unfold spec_delete. destruct (filter_ne_split L1 L2 a v Hnd) as [-> _]. destruct Hr as [Hl Hc Hs Ht Hti].
  rewrite fmap_app in Hl, Hnd. simpl in Hl, Hnd.
  apply wp_bind. unfold hev_socks5_tunnel_delete_session. apply wp_bind, wp_in_sessions.
  eapply wp_mono; [by apply wp_hev_list_del|]. intros [] l [n Hl']. apply wp_modify.
  unfold wp, session_unref. simpl. destruct Hl' as [Hh Hhd Htl].
  hperm Hh ((a, n) :: lseg 0 (L1.*1 ++ L2.*1) 0).
  rewrite (heap_lookup _ _ 0 a n Hh eq_refl). rewrite Hs, list_to_map_app. simpl.
  assert ((list_to_map L1 : gmap Z tsession) !! a = None) as H1.
  { apply not_elem_of_list_to_map_1. intros H. apply NoDup_app in Hnd as (_ & Hd & _). apply (Hd a H). by apply list_elem_of_here. }
  assert ((list_to_map L2 : gmap Z tsession) !! a = None) as H2.
  { apply not_elem_of_list_to_map_1. intros H. apply NoDup_app in Hnd as (_ & _ & Hd). by apply NoDup_cons in Hd as [? _]. }
  rewrite lookup_union_r, lookup_insert_eq by done. split; [|done]. split; simpl.
  - split; simpl; [|by rewrite fmap_app..]. rewrite fmap_app, app_nil_r. by eapply heap_free.
  - unfold s32. rewrite Hc, !length_app in *. simpl in *. rewrite Z.mod_small by lia. lia.
  - rewrite delete_union, delete_insert_id, (delete_id _ a H1) by done. by rewrite list_to_map_app.
  - apply Forall_app in Ht as [Ht1 [_ Ht2]%Forall_cons]. by apply Forall_app.
  - done.
Qed.

(** ** Stopping *)

(** The loop stops what is left of the list, and leaves the list itself. *)
Lemma wp_terminate_loop fuel s (L1 L2 : list (Z * tsession)) :
  list_is (session_set s) (L1 ++ L2).*1 [] → tn_sessions s = list_to_map (spec_stop L1 ++ L2) → (length L2 < fuel)%nat →
  Forall (λ x, ts_task x.2 ≠ HEV_TASK_STOPPED) L2 →
  wp (terminate_loop fuel (hd 0 L2.*1)) s (λ _ s', tn_sessions s' = list_to_map (spec_stop (L1 ++ L2)) ∧
    session_set s' = session_set s ∧ session_count s' = session_count s ∧ same_tasks s s').
Proof.
  revert s L1 L2. induction fuel as [|fuel IH]; intros s L1 L2 Hl Hs Hf Ht; [lia|]. cbn [terminate_loop].
  destruct L2 as [|[a v] L2]; simpl.
  - rewrite app_nil_r in *. by apply wp_ret.
  - pose proof (list_is_NoDup _ _ _ Hl) as Hnd. apply Forall_cons in Ht as [Hv Ht].
    assert (is_ptr a) as Hp by (eapply list_is_ptr; [exact Hl|]; rewrite fmap_app; set_solver).
    destruct (Z.eqb_spec a 0) as [->|_]; [by apply is_ptr_nonzero in Hp|].
    assert (∀ w, NoDup (spec_stop L1 ++ (a, w) :: L2).*1) as Hnd'.
    { intros w. rewrite fmap_app in Hnd |- *. unfold spec_stop. by rewrite <-list_fmap_compose. }
    apply wp_bind. rewrite list_to_map_middle in Hs by done.
    eapply wp_terminate; [rewrite Hs; apply lookup_insert_eq|done|].
    apply wp_bind, wp_in_sessions. simpl. rewrite fmap_app in Hl. eapply wp_hev_list_node_next; [exact Hl|].
    assert (L1 ++ (a, v) :: L2 = (L1 ++ [(a, v)]) ++ L2) as HL by (by rewrite <-app_assoc).
    rewrite HL. eapply wp_mono; [apply (IH _ (L1 ++ [(a, v)]) L2)|]; simpl.
    + rewrite <-HL, fmap_app. exact Hl.
    + rewrite Hs, insert_insert_eq. unfold spec_stop. rewrite fmap_app, <-app_assoc. simpl.
      symmetry. by apply list_to_map_middle.
    + simpl in Hf. lia.
    + done.
    + done.
Qed.

Lemma wp_event_task s L : tn_rep s L →
  wp event_task_entry s (λ _ s', tn_rep s' (spec_stop L) ∧ tn_run s' = false ∧ tn_timer s' = tn_timer s).
Proof.
  intros Hr. pose proof (rep_NoDup s L Hr) as Hnd. destruct Hr as [Hl Hc Hs Ht Hti].
  unfold event_task_entry. apply wp_bind, wp_modify. apply wp_bind, wp_in_sessions. simpl.
  eapply wp_hev_list_first; [exact Hl|]. apply wp_bind, wp_gets. cbn [tn_sessions tn_set_list tn_set_run].
  rewrite Hs, size_list_to_map by done.
  eapply wp_mono; [apply (wp_terminate_loop _ _ [] L); simpl; [done|done|lia|done]|].
  simpl. intros [] s' (Hs' & Hl' & Hc' & Hr' & Hti' & _). split; [|done]. split; simpl.
  - rewrite Hl'. unfold spec_stop. by rewrite <-list_fmap_compose.
  - rewrite Hc'. simpl. unfold spec_stop. by rewrite length_fmap.
  - done.
  - by apply Forall_fmap, Forall_true.
  - simpl in Hr'. rewrite Hr'. done.
Qed.

(** ** Making sessions *)

Lemma wp_session_undo s L a n :
  list_is (session_set s) L.*1 [(a, n)] → session_count s = Z.of_nat (length L) → a ∉ L.*1 →
  tn_sessions s = <[a := fresh_session]> (list_to_map L) → Forall (λ x, ts_task x.2 ≠ HEV_TASK_STOPPED) L →
  (tn_run s = true → tn_timer s ≠ HEV_TASK_STOPPED) →
  wp (session_unref a) s (λ _ s', tn_rep s' L ∧ same_tasks s s').
Proof.
  intros [Hh Hhd Htl] Hc Ha Hs Ht Hti. unfold wp, session_unref. hperm Hh ((a, n) :: lseg 0 L.*1 0).
  rewrite (heap_lookup _ _ 0 a n Hh eq_refl), Hs, lookup_insert_eq. split; [|done]. split; simpl; [|done| |done|done].
  - split; simpl; [|done|done]. rewrite app_nil_r. by eapply heap_free.
  - apply delete_insert_id. by apply not_elem_of_list_to_map_1.
Qed.

(** The timer runs after a session was made, and as before otherwise. *)
Definition timer_after (task_ok : bool) (s s' : tunnel) : Prop :=
  tn_run s' = tn_run s ∧
  if task_ok then tn_timer s' = HEV_TASK_RUNNING else tn_timer s' = tn_timer s ∧ tn_sleeps s' = tn_sleeps s.

(** The way both callbacks make a session. *)
Lemma wp_make_session {A} (ok bad : A) s L max a (task_ok : bool) :
  tn_rep s L → is_ptr a → a ∉ L.*1 → Z.of_nat (length L) < 2 ^ 31 - 1 → tn_run s = true → limit_ok max L →
  wp (session_alloc a;;
      if negb task_ok then session_unref a;; mret bad
      else hev_socks5_tunnel_insert_session max a;; session_task a HEV_TASK_RUNNING;; timer_wakeup;; mret ok) s
    (λ r s', r = (if task_ok then ok else bad) ∧ timer_after task_ok s s' ∧
      tn_rep s' (if task_ok then spec_insert max a L else L)).
Proof.
  intros Hr Ha Hn Hb Hrun Hok. apply wp_bind. eapply wp_mono; [by apply wp_session_alloc|].
  intros [] s1 (n & Hl & Hc & Hs & Hr1 & Ht1 & Hw1). rewrite (tr_count _ _ Hr) in Hc. pose proof (tr_timer _ _ Hr Hrun) as Hti.
  destruct task_ok; simpl.
  - apply wp_bind. eapply wp_mono; [eapply wp_insert; try done; apply (tr_tasks _ _ Hr)|].
    intros [] s2 (Hl2 & Hc2 & (Hr2 & Ht2 & _) & Hs2). set (L' := if (max =? 0) || (Z.of_nat (S (length L)) <? max) then L else stop_first L) in Hs2.
    assert (L'.*1 = L.*1 ∧ length L' = length L ∧ Forall (λ x, ts_task x.2 ≠ HEV_TASK_STOPPED) L') as (E1 & E2 & E3).
    { pose proof (tr_tasks _ _ Hr) as Hf. subst L'. destruct (_ || _); [done|]. destruct L; [done|].
      apply Forall_cons in Hf as [_ Hf]. split_and!; [done|done|]. by constructor. }
    apply wp_bind. unfold wp at 1, session_task. rewrite Hs2, lookup_insert_eq. simpl. rewrite insert_insert_eq.
    apply wp_bind. unfold wp at 1, timer_wakeup. simpl. rewrite Ht2, Ht1. destruct (tn_timer s); [done|..]; simpl; apply wp_ret;
      (split; [done|]; split; [split; simpl; congruence|]); unfold spec_insert; fold L';
      (split; simpl; [by rewrite fmap_app, E1|rewrite length_app, E2, Hc2; simpl; lia| | |done]).
    1, 3: by apply insert_last; rewrite E1.
    1, 2: apply Forall_app; split; [done|]; by repeat constructor.
  - apply wp_bind. eapply wp_mono; [eapply wp_session_undo; try done; [apply (tr_tasks _ _ Hr)|by rewrite Ht1]|].
    intros [] s2 (H2 & Hr2 & Ht2 & Hw2). apply wp_ret. split_and!; [done| |done]. split; [congruence|]. simpl. split; congruence.
Qed.

Lemma accept_run max block task_ok s : tn_run s = true →
  tcp_accept_handler max block task_ok ERR_OK s =
    match block with
    | None => mret (ERR_MEM, false)
    | Some tcp =>
        session_alloc tcp;;
        if negb task_ok then session_unref tcp;; mret (ERR_MEM, true)
        else hev_socks5_tunnel_insert_session max tcp;; session_task tcp HEV_TASK_RUNNING;; timer_wakeup;; mret (ERR_OK, false)
    end s.
Proof.
  intros Hrun. unfold tcp_accept_handler. change (negb (ERR_OK =? ERR_OK)) with false. cbn iota.
  by rewrite (stm_bind_run _ _ s true s) by (unfold gets; by rewrite Hrun).
Qed.

Lemma datagram_run max md addr port block task_ok s : tn_run s = true → udp_is_dns md addr port = false →
  udp_recv_handler max md addr port block task_ok s =
    match block with
    | None => mret FlowRemoved
    | Some udp =>
        session_alloc udp;;
        if negb task_ok then session_unref udp;; mret FlowRemoved
        else hev_socks5_tunnel_insert_session max udp;; session_task udp HEV_TASK_RUNNING;; timer_wakeup;; mret FlowSession
    end s.
Proof.
  intros Hrun Hd. unfold udp_recv_handler.
  rewrite (stm_bind_run _ _ s true s) by (unfold gets; by rewrite Hrun). simpl. by rewrite Hd.
Qed.


Definition no_stats : stats := mk_stats 0 0 0 0.
Definition ex_tunnel : tunnel := mk_tunnel true 0 (mk_hlist 0 0 ∅) ∅ HEV_TASK_RUNNING false no_stats.

Lemma empty_tunnel_rep r t sl st : (r = true → t ≠ HEV_TASK_STOPPED) → tn_rep (mk_tunnel r 0 (mk_hlist 0 0 ∅) ∅ t sl st) [].
Proof. intros H. split; [|done|done|constructor|exact H]. split; [|done|done]. split_and!; [constructor|constructor|done]. Qed.

Lemma ex_tunnel_rep : tn_rep ex_tunnel [].
Proof. by apply empty_tunnel_rep. Qed.



(** Two sessions. *)
Definition ex_tunnel2 : tunnel :=
  mk_tunnel true 2 (mk_hlist 64 128 (list_to_map [(64, mk_lnode 128 0); (128, mk_lnode 0 64)]))
    (list_to_map [(64, new_session); (128, new_session)]) HEV_TASK_WAITING true no_stats.


(** A limit of one session, or a negative one.  With no session yet, the
    first connection makes the tunnel stop the new session itself, before its task
    has been run; [hev_task_wakeup] of such a task calls [abort], and the process
    ends. *)
Theorem tunnel_max_one s max a :
  tn_rep s [] → tn_run s = true → is_ptr a → max ≠ 0 → max ≤ 1 →
  tcp_accept_handler max (Some a) true ERR_OK s = None.
Proof.
  intros Hr Hrun Ha H0 H1. rewrite accept_run by done.
  destruct (wp_run _ _ _ (wp_session_alloc s [] a Hr Ha ltac:(by intros ?%elem_of_nil))) as ([] & s1 & Hs1 & n & Hl & Hc & Hs & _).
  rewrite (stm_bind_run _ _ _ _ _ Hs1). cbn [negb]. unfold hev_socks5_tunnel_insert_session.
  destruct (wp_run _ _ _ (wp_hev_list_add_tail (session_set s1) [] a n [] Hl)) as ([] & l & Hadd & Hl').
  rewrite (tr_count _ _ Hr) in Hc. unfold mbind, stm_bind, in_list, zoom. rewrite Hadd. unfold modify, gets. simpl. rewrite Hc.
  change (s32 (Z.of_nat (length (@nil (Z * tsession))) + 1)) with 1.
  destruct (Z.eqb_spec max 0); [done|]. destruct (Z.ltb_spec 1 max); [lia|]. simpl.
  destruct Hl' as [_ -> _]. unfold hev_socks5_session_terminate. simpl. by rewrite Hs, lookup_insert_eq.
Qed.

Lemma tunnel_max_one_witness : tcp_accept_handler 1 (Some 64) true ERR_OK ex_tunnel = None.
Proof.
  apply tunnel_max_one; [exact ex_tunnel_rep|reflexivity| |lia|lia]. split; [split; vm_compute; done|done].
Defined.

(** ** What lwIP does with the answer *)

(** The end of a connection that was not accepted, in [tcp_process]: how often it
    is aborted, the callback included. *)
Definition accept_aborts (r : Z * bool) : nat :=
  (if r.2 then 1 else 0) + (if (r.1 =? ERR_OK) || (r.1 =? ERR_ABRT) then 0 else 1).



(** ** The dispatch of datagrams *)

(** The end of [udp_input] for a datagram that no connection takes: lwIP makes a
    connection, calls [udp_recv_handler], and starts again, to find the
    connection if the handler has kept it. *)
Fixpoint udp_input_again (fuel : nat) (handler : stm tunnel udp_flow) : stm tunnel udp_flow :=
  match fuel with
  | 0%nat => ub
  | S fuel => flow ← handler; match flow with FlowRemoved => udp_input_again fuel handler | _ => mret flow end
  end.

(** A datagram of an unknown flow that arrives while the tunnel stops is
    dispatched for ever. *)
Theorem udp_refused_loops fuel max md addr port block task_ok s :
  tn_run s = false → udp_input_again fuel (udp_recv_handler max md addr port block task_ok) s = None.
Proof.
  intros Hrun. assert (udp_recv_handler max md addr port block task_ok s = Some (FlowRemoved, s)) as Hu
    by (unfold udp_recv_handler, mbind, stm_bind, gets; by rewrite Hrun).
  induction fuel as [|fuel IH]; [done|]. cbn [udp_input_again]. by rewrite (stm_bind_run _ _ _ _ _ Hu).
Qed.

(** ** The running tunnel *)

(** What can happen to it, one after the other, with the limit [max]: the timer
    task runs only when it can, and its sleep can end. *)
Inductive tn_step (max : Z) (s : tunnel) : tunnel → Prop :=
  | ts_accept a task_ok err r s' : is_ptr a → a ∉ dom (tn_sessions s) → session_count s < 2 ^ 31 - 1 →
      tcp_accept_handler max (Some a) task_ok err s = Some (r, s') → tn_step max s s'
  | ts_datagram md addr port a task_ok r s' : is_ptr a → a ∉ dom (tn_sessions s) → session_count s < 2 ^ 31 - 1 →
      udp_recv_handler max md addr port (Some a) task_ok s = Some (r, s') → tn_step max s s'
  | ts_active a s' : a ∈ dom (tn_sessions s) → hev_socks5_tunnel_update_session max a s = Some (tt, s') → tn_step max s s'
  | ts_waits a st s' : st ≠ HEV_TASK_STOPPED → session_task a st s = Some (tt, s') → tn_step max s s'
  | ts_done a s' : a ∈ dom (tn_sessions s) → hev_socks5_session_task_entry a s = Some (tt, s') → tn_step max s s'
  | ts_timer i r s' : tn_timer s = HEV_TASK_RUNNING → lwip_timer_round i s = Some (r, s') → tn_step max s s'
  | ts_expired : tn_timer s = HEV_TASK_WAITING → tn_sleeps s = true → tn_step max s (tn_set_timer HEV_TASK_RUNNING false s)
  | ts_packet buf r s' : lwip_io_round buf s = Some (r, s') → tn_step max s s'
  | ts_stop s' : tn_run s = true → event_task_entry s = Some (tt, s') → tn_step max s s'.

(** The tunnel keeps time for its sessions: its timer task can run, or sleeps for
    a time. *)
Definition timed (s : tunnel) (L : list (Z * tsession)) : Prop :=
  tn_run s = true → L ≠ [] → tn_timer s = HEV_TASK_RUNNING ∨ (tn_timer s = HEV_TASK_WAITING ∧ tn_sleeps s = true).

(** What stays true. *)
Definition tn_inv (s : tunnel) : Prop := ∃ L, tn_rep s L ∧ timed s L ∧ Z.of_nat (length L) < 2 ^ 31.

Lemma rep_dom s L a : tn_rep s L → a ∈ dom (tn_sessions s) ↔ a ∈ L.*1.
Proof. intros H. rewrite (tr_sessions _ _ H), dom_list_to_map_L. apply elem_of_list_to_set. Qed.

Lemma limit_ok_any max L : max = 0 ∨ 1 < max → limit_ok max L.
Proof. intros [->|H]; [by left|by right; left]. Qed.

Lemma timed_same s s' L L' : same_tasks s s' → timed s L → (L' ≠ [] → L ≠ []) → timed s' L'.
Proof. intros (H1 & H2 & H3) Ht HL. unfold timed. rewrite H1, H2, H3. intros Hr Hl. apply Ht; auto. Qed.

(** The task of a session changes its state. *)
Lemma session_task_rep s L a st s' : tn_rep s L → st ≠ HEV_TASK_STOPPED → session_task a st s = Some (tt, s') →
  ∃ L', tn_rep s' L' ∧ L'.*1 = L.*1 ∧ same_tasks s s'.
Proof.
  intros Hr Hst Hrun. pose proof (rep_NoDup _ _ Hr) as Hnd. unfold session_task in Hrun.
  destruct (tn_sessions s !! a) as [t|] eqn:Ht; [|done]. injection Hrun as <-.
  assert (a ∈ L.*1) as Ha by (apply (rep_dom s L a Hr), elem_of_dom; eauto).
  destruct (rep_split s L a Hr Ha) as (L1 & v & L2 & ->). destruct Hr as [Hl Hc Hs Hts Hti].
  exists (L1 ++ (a, mk_tsession (ts_timeout t) st) :: L2). split_and!; [|by rewrite !fmap_app|done]. split; simpl.
  - by rewrite fmap_app in *.
  - rewrite Hc, !length_app. done.
  - rewrite Hs, !list_to_map_middle, insert_insert_eq; [done| |done]. by rewrite fmap_app in *.
  - apply Forall_app in Hts as [H1 [_ H2]%Forall_cons]. by apply Forall_app; split; [|constructor].
  - done.
Qed.

Lemma spec_insert_length max a L : length (spec_insert max a L) = S (length L).
Proof. unfold spec_insert. rewrite length_app. simpl. destruct (_ || _); [lia|]. destruct L; simpl; lia. Qed.

Lemma spec_update_length max a L : length (spec_update max a L) = length L.
Proof.
  unfold spec_update. destruct (max =? 0); [done|]. rewrite length_app.
  induction L as [|x L IH]; [done|]. rewrite !filter_cons. repeat case_decide; simpl; try lia; done.
Qed.

Lemma made_session_inv s s' L max a (task_ok : bool) :
  timer_after task_ok s s' → timed s L → Z.of_nat (length L) < 2 ^ 31 - 1 →
  tn_rep s' (if task_ok then spec_insert max a L else L) → tn_inv s'.
Proof.
  intros [Hr Ht] Hs Hb Hrep. eexists. split_and!; [exact Hrep| |].
  - destruct task_ok; [intros _ _; by left|]. destruct Ht as [Ht Hw]. unfold timed. by rewrite Hr, Ht, Hw.
  - destruct task_ok; rewrite ?spec_insert_length; lia.
Qed.

Section steps.
Context (max : Z) (s : tunnel) (L : list (Z * tsession)).
Hypotheses (Hmax : max = 0 ∨ 1 < max) (Hr : tn_rep s L) (Ht : timed s L) (Hlen : Z.of_nat (length L) < 2 ^ 31).

Lemma inv_here : tn_inv s.
Proof. by exists L. Qed.

Lemma accept_inv a task_ok err :
  is_ptr a → a ∉ L.*1 → session_count s < 2 ^ 31 - 1 →
  wp (tcp_accept_handler max (Some a) task_ok err) s (λ _ s', tn_inv s').
Proof.
  intros Ha Hn Hb. rewrite (tr_count _ _ Hr) in Hb. destruct (Z.eqb_spec err ERR_OK) as [->|He].
  - destruct (tn_run s) eqn:Hr0.
    + unfold wp. rewrite accept_run by done. eapply wp_mono; [by eapply wp_make_session; try done; apply limit_ok_any|].
      intros r s' (_ & Hta & Hrep). by eapply made_session_inv.
    + unfold wp, tcp_accept_handler, mbind, stm_bind, gets. simpl. rewrite Hr0. apply inv_here.
  - unfold wp, tcp_accept_handler. apply Z.eqb_neq in He. rewrite He. apply inv_here.
Qed.

Lemma datagram_inv md addr port a task_ok :
  is_ptr a → a ∉ L.*1 → session_count s < 2 ^ 31 - 1 →
  wp (udp_recv_handler max md addr port (Some a) task_ok) s (λ _ s', tn_inv s').
Proof.
  intros Ha Hn Hb. rewrite (tr_count _ _ Hr) in Hb. destruct (tn_run s) eqn:Hr0.
  - destruct (udp_is_dns md addr port) eqn:Hd.
    + unfold wp, udp_recv_handler, mbind, stm_bind, gets. rewrite Hr0. simpl. rewrite Hd. apply inv_here.
    + unfold wp. rewrite datagram_run by done. eapply wp_mono; [by eapply wp_make_session; try done; apply limit_ok_any|].
      intros r s' (_ & Hta & Hrep). by eapply made_session_inv.
  - unfold wp, udp_recv_handler, mbind, stm_bind, gets. rewrite Hr0. apply inv_here.
Qed.

Lemma set_inv s' L' : tn_rep s' L' → same_tasks s s' → (length L' ≤ length L)%nat → tn_inv s'.
Proof.
  intros Hrep Hsame Hl. exists L'. split_and!; [done| |lia]. eapply timed_same; [exact Hsame|exact Ht|].
  intros Hne HL. destruct L'; [done|]. rewrite HL in Hl. simpl in Hl. lia.
Qed.

Lemma timer_inv i : wp (lwip_timer_round i) s (λ _ s', tn_inv s').
Proof.
  apply wp_bind, wp_gets. destruct Hr as [Hl Hc Hs Hts Hti]. destruct (tn_run s) eqn:Hr0; simpl.
  - apply wp_bind, wp_in_sessions. eapply wp_hev_list_first; [exact Hl|]. apply wp_bind, wp_modify, wp_ret.
    exists L. split_and!; [by split|intros _ Hne; right|done]. simpl. split; [done|].
    destruct L as [|[a v] L']; [done|]. simpl. assert (is_ptr a) as Hp by (eapply list_is_ptr; [exact Hl|apply list_elem_of_here]).
    by apply is_ptr_nonzero, Z.eqb_neq in Hp as ->.
  - apply wp_bind, wp_modify, wp_ret. exists L. split_and!; [split; simpl; try done; congruence| |done]. intros Hr1. simpl in Hr1. congruence.
Qed.

Lemma packet_inv buf : wp (lwip_io_round buf) s (λ _ s', tn_inv s').
Proof.
  apply wp_bind, wp_gets. destruct (tn_run s) eqn:Hr0; simpl; [|apply inv_here].
  destruct buf as [[len err]|]; [|apply inv_here]. apply wp_bind, wp_modify, wp_ret.
  exists L. split_and!; [|exact Ht|done]. by destruct Hr.
Qed.

Lemma step_inv s' : tn_step max s s' → tn_inv s'.
Proof.
  assert (∀ A (c : stm tunnel A) r s1, wp c s (λ _ s', tn_inv s') → c s = Some (r, s1) → tn_inv s1) as Hwp.
  { unfold wp. intros A c r s1 Hw Hc. by rewrite Hc in Hw. }
  intros [a task_ok err r s1 Ha Hn Hb Hrun|md addr port a task_ok r s1 Ha Hn Hb Hrun|a s1 Ha Hrun|a st s1 Hst Hrun
    |a s1 Ha Hrun|i r s1 Hti Hrun|Hti Hsl|buf r s1 Hrun|s1 Hr0 Hrun].
  - rewrite (rep_dom s L a Hr) in Hn. eapply Hwp; [by apply accept_inv|done].
  - rewrite (rep_dom s L a Hr) in Hn. eapply Hwp; [by apply datagram_inv|done].
  - rewrite (rep_dom s L a Hr) in Ha. eapply Hwp; [|exact Hrun]. eapply wp_mono; [by apply wp_tunnel_update|].
    intros _ s2 [Hrep Hsame]. eapply set_inv; [exact Hrep|done|]. by rewrite spec_update_length.
  - destruct (session_task_rep s L a st s1 Hr Hst Hrun) as (L' & Hrep & Hf & Hsame). eapply set_inv; [exact Hrep|done|].
    apply (f_equal length) in Hf. rewrite !length_fmap in Hf. lia.
  - rewrite (rep_dom s L a Hr) in Ha. eapply Hwp; [|exact Hrun]. eapply wp_mono; [by apply wp_tunnel_done|].
    intros _ s2 [Hrep Hsame]. eapply set_inv; [exact Hrep|done|]. apply length_filter.
  - eapply Hwp; [apply timer_inv|done].
  - exists L. split_and!; [|intros _ _; by left|done]. by destruct Hr.
  - eapply Hwp; [apply packet_inv|done].
  - eapply Hwp; [|exact Hrun]. eapply wp_mono; [by apply wp_event_task|]. intros _ s2 (Hrep & Hf & _).
    eexists. split_and!; [exact Hrep|intros Hr1; congruence|]. unfold spec_stop. by rewrite length_fmap.
Qed.
End steps.

(** The timers of lwIP never stop while there are sessions.  In every state
    that the tunnel reaches after its start, by connections, datagrams, activity
    and ends of sessions, packets, passes of the timer task and the stop, in any
    order, the timer task can run or sleeps for a time whenever there is a
    session (it waits without a limit only when there is none, and each new
    session wakes it up); and the set of sessions is well-formed, so that no
    further connection or datagram makes the process abort, provided that the
    limit on sessions is none or at least two. *)
Theorem tunnel_timer_runs max s0 s1 s :
  max = 0 ∨ 1 < max → tn_rep s0 [] → hev_socks5_tunnel_run s0 = Some (tt, s1) → rtc (tn_step max) s1 s →
  (∃ L, tn_rep s L ∧ (tn_run s = true → L ≠ [] →
    tn_timer s = HEV_TASK_RUNNING ∨ (tn_timer s = HEV_TASK_WAITING ∧ tn_sleeps s = true))) ∧
  (∀ a task_ok, is_ptr a → a ∉ dom (tn_sessions s) → session_count s < 2 ^ 31 - 1 →
    (∀ err, is_Some (tcp_accept_handler max (Some a) task_ok err s)) ∧
    (∀ md addr port, is_Some (udp_recv_handler max md addr port (Some a) task_ok s))).
Proof.
  intros Hmax H0 Hrun Hsteps. assert (tn_inv s1) as H1.
  { injection Hrun as <-. exists []. split_and!; [by destruct H0|by intros _ H|simpl; lia]. }
  assert (tn_inv s) as (L & Hr & Ht & Hlen).
  { clear Hrun H0. induction Hsteps as [s|s1 s2 s Hstep _ IH]; [done|]. apply IH. destruct H1 as (L & Hr & Ht & Hlen). by eapply step_inv. }
  split; [by exists L|]. intros a task_ok Ha Hn Hb. rewrite (rep_dom s L a Hr) in Hn. split.
  - intros err. destruct (wp_run _ _ _ (accept_inv max s L Hmax Hr Ht Hlen a task_ok err Ha Hn Hb)) as (r & s' & -> & _). by eexists.
  - intros md addr port.
    destruct (wp_run _ _ _ (datagram_inv max s L Hmax Hr Ht Hlen md addr port a task_ok Ha Hn Hb)) as (r & s' & -> & _). by eexists.
Qed.

(** A connection is accepted, and then the timer task makes a pass. *)
Definition ex_idle : tunnel := mk_tunnel false 0 (mk_hlist 0 0 ∅) ∅ HEV_TASK_STOPPED false no_stats.

Lemma tunnel_timer_runs_witness :
  ∃ s, rtc (tn_step 4) ex_tunnel s ∧ ∃ L, tn_rep s L ∧ (tn_run s = true → L ≠ [] →
    tn_timer s = HEV_TASK_RUNNING ∨ (tn_timer s = HEV_TASK_WAITING ∧ tn_sleeps s = true)).
Proof.
  assert (∃ s, rtc (tn_step 4) ex_tunnel s) as [s Hs].
  { eexists. eapply rtc_l; [eapply (ts_accept _ _ 64 true ERR_OK); [split; [split; vm_compute; done|done]| |vm_compute; done|vm_compute; reflexivity]|].
    - vm_compute. by intros.
    - eapply rtc_l; [eapply (ts_timer _ _ 1); vm_compute; reflexivity|]. apply rtc_refl. }
  exists s. split; [exact Hs|].
  refine (proj1 (tunnel_timer_runs 4 ex_idle ex_tunnel s _ _ eq_refl Hs)); [right; lia|]. by apply empty_tunnel_rep.
Defined.
