(* ===== verification/TunnelLife.v ===== *)
(** * The tunnel (src/hev-socks5-tunnel.c): its start and its end

    [hev_socks5_tunnel_init] takes what the tunnel needs one thing after the
    other, and when one of them fails releases all of them with
    [hev_socks5_tunnel_fini], which finds out from the static variables what there
    is to release. *)

From S2P Require Import Prelude.

(** ** State *)

(** What is taken: descriptors, tasks and connections of lwIP by address, the
    interface of lwIP and the mapped DNS server. *)
Inductive resource := RFd (fd : Z) | RTask (t : Z) | RTcp (p : Z) | RUdp (p : Z) | RNetif | RDns (d : Z).

#[global] Instance resource_eq_dec : EqDecision resource.
Proof. solve_decision. Defined.

(** The static variables, and the resources that are held, in the order in which
    they were taken; zero is NULL. *)
Record tstate := mk_tstate {
  tun_fd : Z; tun_fd_local : bool;
  event_fd0 : Z; event_fd1 : Z;
  tcp : Z; udp : Z;
  task_event : Z; task_lwip_io : Z; task_lwip_timer : Z;
  dns : Z;
  held : list resource;
}.

(** The answers of the system and of the configuration: the results of the calls,
    and the objects that are made (zero when that fails). *)
Record answers := mk_answers {
  an_ioctl : Z; an_open : Z; an_mtu : Z; an_ipv4 : option Z; an_ipv6 : option Z; an_state : Z;
  an_tcp : Z; an_udp : Z;
  an_socketpair : option (Z * Z); an_ioctl_event : Z; an_task_event : Z;
  an_task_io : Z; an_task_timer : Z;
  an_cache_size : Z; an_dns : Z;
}.

Definition ts_set_tun (fd : Z) (loc : bool) (s : tstate) : tstate :=
  mk_tstate fd loc (event_fd0 s) (event_fd1 s) (tcp s) (udp s) (task_event s) (task_lwip_io s) (task_lwip_timer s) (dns s) (held s).
Definition ts_set_event (a b : Z) (s : tstate) : tstate :=
  mk_tstate (tun_fd s) (tun_fd_local s) a b (tcp s) (udp s) (task_event s) (task_lwip_io s) (task_lwip_timer s) (dns s) (held s).
Definition ts_set_gateway (a b : Z) (s : tstate) : tstate :=
  mk_tstate (tun_fd s) (tun_fd_local s) (event_fd0 s) (event_fd1 s) a b (task_event s) (task_lwip_io s) (task_lwip_timer s) (dns s) (held s).
Definition ts_set_tasks (a b c : Z) (s : tstate) : tstate :=
  mk_tstate (tun_fd s) (tun_fd_local s) (event_fd0 s) (event_fd1 s) (tcp s) (udp s) a b c (dns s) (held s).
Definition ts_set_dns (d : Z) (s : tstate) : tstate :=
  mk_tstate (tun_fd s) (tun_fd_local s) (event_fd0 s) (event_fd1 s) (tcp s) (udp s) (task_event s) (task_lwip_io s) (task_lwip_timer s) d (held s).
Definition ts_set_held (h : list resource) (s : tstate) : tstate :=
  mk_tstate (tun_fd s) (tun_fd_local s) (event_fd0 s) (event_fd1 s) (tcp s) (udp s) (task_event s) (task_lwip_io s) (task_lwip_timer s) (dns s) h.

Definition take_res (r : resource) : stm tstate unit := modify (λ s, ts_set_held (held s ++ [r]) s).

(** Releasing what is not held is undefined. *)
Definition release (r : resource) : stm tstate unit := λ s,
  match decide (r ∈ held s) with
  | left _ => Some (tt, ts_set_held (filter (.≠ r) (held s)) s)
  | right _ => None
  end.

(** lwIP ignores NULL. *)
Definition release_ptr (p : Z) (r : resource) : stm tstate unit := if p =? 0 then mret tt else release r.

(** [netif_remove] of an interface that was not added does nothing. *)
Definition netif_remove : stm tstate unit := modify (λ s, ts_set_held (filter (.≠ RNetif) (held s)) s).

(** ** The end *)

Definition mapped_dns_fini : stm tstate unit :=
  d ← gets dns;
  if d =? 0 then mret tt else release (RDns d);; modify (ts_set_dns 0).

Definition lwip_timer_task_fini : stm tstate unit :=
  t ← gets task_lwip_timer;
  if t =? 0 then mret tt
  else release (RTask t);; modify (λ s, ts_set_tasks (task_event s) (task_lwip_io s) 0 s).

Definition lwip_io_task_fini : stm tstate unit :=
  t ← gets task_lwip_io;
  if t =? 0 then mret tt
  else release (RTask t);; modify (λ s, ts_set_tasks (task_event s) 0 (task_lwip_timer s) s).

Definition event_task_fini : stm tstate unit :=
  t ← gets task_event;
  (if t =? 0 then mret tt
   else release (RTask t);; modify (λ s, ts_set_tasks 0 (task_lwip_io s) (task_lwip_timer s) s));;
  fd ← gets event_fd0;
  (if 0 <=? fd then release (RFd fd);; modify (λ s, ts_set_event (-1) (event_fd1 s) s) else mret tt);;
  fd ← gets event_fd1;
  (if 0 <=? fd then release (RFd fd);; modify (λ s, ts_set_event (event_fd0 s) (-1) s) else mret tt).

Definition gateway_fini : stm tstate unit :=
  p ← gets udp;
  release_ptr p (RUdp p);;
  p ← gets tcp;
  release_ptr p (RTcp p);;
  netif_remove.

Definition tunnel_fini : stm tstate unit :=
  loc ← gets tun_fd_local;
  if negb loc then mret tt
  else
    fd ← gets tun_fd;
    release (RFd fd);;
    modify (ts_set_tun (-1) false).

Definition hev_socks5_tunnel_fini : stm tstate unit :=
  mapped_dns_fini;;
  lwip_timer_task_fini;;
  lwip_io_task_fini;;
  event_task_fini;;
  gateway_fini;;
  tunnel_fini.

(** ** The start *)

Section init.
Context (an : answers).

Definition tunnel_init (extern_tun_fd : Z) : stm tstate Z :=
  if 0 <=? extern_tun_fd then
    if an_ioctl an <? 0 then mret (-1)
    else modify (λ s, ts_set_tun extern_tun_fd (tun_fd_local s) s);; mret 0
  else
    modify (λ s, ts_set_tun (an_open an) (tun_fd_local s) s);;
    if an_open an <? 0 then mret (-1)
    else
      take_res (RFd (an_open an));;
      if an_mtu an <? 0 then mret (-1)
      else if default 0 (an_ipv4 an) <? 0 then mret (-1)
      else if default 0 (an_ipv6 an) <? 0 then mret (-1)
      else if an_state an <? 0 then mret (-1)
      else modify (λ s, ts_set_tun (tun_fd s) true s);; mret 0.

(** The connections of lwIP are not checked for NULL. *)
Definition gateway_init : stm tstate Z :=
  take_res RNetif;;
  (if (an_tcp an =? 0) || (an_udp an =? 0) then ub else mret tt);;
  take_res (RTcp (an_tcp an));;
  take_res (RUdp (an_udp an));;
  modify (ts_set_gateway (an_tcp an) (an_udp an));;
  mret 0.

Definition event_task_init : stm tstate Z :=
  match an_socketpair an with
  | None => mret (-1)
  | Some (a, b) =>
      take_res (RFd a);; take_res (RFd b);;
      modify (ts_set_event a b);;
      if an_ioctl_event an <? 0 then mret (-1)
      else
        modify (λ s, ts_set_tasks (an_task_event an) (task_lwip_io s) (task_lwip_timer s) s);;
        if an_task_event an =? 0 then mret (-1)
        else take_res (RTask (an_task_event an));; mret 0
  end.

Definition lwip_io_task_init : stm tstate Z :=
  modify (λ s, ts_set_tasks (task_event s) (an_task_io an) (task_lwip_timer s) s);;
  if an_task_io an =? 0 then mret (-1) else take_res (RTask (an_task_io an));; mret 0.

Definition lwip_timer_task_init : stm tstate Z :=
  modify (λ s, ts_set_tasks (task_event s) (task_lwip_io s) (an_task_timer an) s);;
  if an_task_timer an =? 0 then mret (-1) else take_res (RTask (an_task_timer an));; mret 0.

Definition mapped_dns_init : stm tstate Z :=
  if an_cache_size an =? 0 then mret 0
  else if an_dns an =? 0 then mret (-1)
  else take_res (RDns (an_dns an));; modify (ts_set_dns (an_dns an));; mret 0.

(** The [goto exit] of a failed step. *)
Definition or_fini (step rest : stm tstate Z) : stm tstate Z :=
  res ← step;
  if res <? 0 then hev_socks5_tunnel_fini;; mret (-1) else rest.

Definition hev_socks5_tunnel_init (extern_tun_fd : Z) : stm tstate Z :=
  or_fini (tunnel_init extern_tun_fd)
    (or_fini gateway_init
      (or_fini event_task_init
        (or_fini lwip_io_task_init
          (or_fini lwip_timer_task_init
            (or_fini mapped_dns_init (mret 0)))))).
End init.

(** ** Properties *)

Definition own (b : bool) (r : resource) : list resource := if b then [r] else [].

(** What the static variables say is held, in the order of release. *)
Definition owned (s : tstate) : list resource :=
  own (negb (dns s =? 0)) (RDns (dns s)) ++
  own (negb (task_lwip_timer s =? 0)) (RTask (task_lwip_timer s)) ++
  own (negb (task_lwip_io s =? 0)) (RTask (task_lwip_io s)) ++
  own (negb (task_event s =? 0)) (RTask (task_event s)) ++
  own (0 <=? event_fd0 s) (RFd (event_fd0 s)) ++ own (0 <=? event_fd1 s) (RFd (event_fd1 s)) ++
  own (negb (udp s =? 0)) (RUdp (udp s)) ++ own (negb (tcp s =? 0)) (RTcp (tcp s)) ++
  own (tun_fd_local s) (RFd (tun_fd s)).

(** The variables tell the truth, apart from the interface and [extra]. *)
Definition true_state (netif : bool) (extra : list resource) (s : tstate) : Prop :=
  held s ≡ₚ owned s ++ own netif RNetif ++ extra ∧ NoDup (held s) ∧ RNetif ∉ extra.

Lemma filter_ne_id (r : resource) (l : list resource) : r ∉ l → filter (.≠ r) l = l.
Proof. induction l as [|x l IH]; intros H; [done|]. rewrite filter_cons_True by set_solver. by rewrite IH by set_solver. Qed.

Lemma filter_ne_perm (r : resource) (h rest : list resource) :
  h ≡ₚ r :: rest → NoDup h → filter (.≠ r) h ≡ₚ rest ∧ NoDup (filter (.≠ r) h).
Proof.
  intros Hp Hnd. split; [|by apply NoDup_filter]. rewrite Hp in Hnd |- *. apply NoDup_cons in Hnd as [Hn Hnd].
  by rewrite filter_cons_False, filter_ne_id by naive_solver.
Qed.

Lemma wp_release s r rest Q :
  held s ≡ₚ r :: rest → NoDup (held s) → (∀ h, h ≡ₚ rest → NoDup h → Q tt (ts_set_held h s)) → wp (release r) s Q.
Proof.
  intros Hp Hnd HQ. unfold wp, release. destruct (decide (r ∈ held s)) as [_|Hn].
  - destruct (filter_ne_perm r _ _ Hp Hnd). by apply HQ.
  - destruct Hn. rewrite Hp. by apply list_elem_of_here.
Qed.

(** Releasing what a variable says, and forgetting it; only the resources and that
    variable change. *)
Lemma wp_own_release (b : bool) (c : stm tstate unit) r rest (f : tstate → tstate) s :
  c s = (if b then release r;; modify f else mret tt) s →
  (b = false → f s = s) → (∀ h, held (f (ts_set_held h s)) = h ∧ f (ts_set_held h s) = ts_set_held h (f s)) →
  held s ≡ₚ own b r ++ rest → NoDup (held s) →
  wp c s (λ _ s', ∃ h, h ≡ₚ rest ∧ NoDup h ∧ s' = ts_set_held h (f s)).
Proof.
  intros Hc Hf Hh Hp Hnd. unfold wp. rewrite Hc. fold (wp (if b then release r;; modify f else mret tt) s
    (λ _ s', ∃ h, h ≡ₚ rest ∧ NoDup h ∧ s' = ts_set_held h (f s))). destruct b.
  - apply wp_bind. eapply wp_release; [exact Hp|done|]. intros h Hh1 Hh2. apply wp_modify. exists h. split_and!; [done|done|].
    apply Hh.
  - apply wp_ret. exists (held s). split_and!; [done|done|]. rewrite Hf by done. by destruct s.
Qed.

Lemma wp_mapped_dns_fini s rest : held s ≡ₚ own (negb (dns s =? 0)) (RDns (dns s)) ++ rest → NoDup (held s) →
  wp mapped_dns_fini s (λ _ s', ∃ h, h ≡ₚ rest ∧ NoDup h ∧ s' = ts_set_held h (ts_set_dns 0 s)).
Proof.
  apply wp_own_release; [|intros Hb|done].
  - unfold mapped_dns_fini, mbind, stm_bind, gets. by destruct (dns s =? 0).
  - apply negb_false_iff, Z.eqb_eq in Hb. destruct s; simpl in *. by subst.
Qed.

Lemma wp_timer_fini s rest :
  held s ≡ₚ own (negb (task_lwip_timer s =? 0)) (RTask (task_lwip_timer s)) ++ rest → NoDup (held s) →
  wp lwip_timer_task_fini s (λ _ s', ∃ h, h ≡ₚ rest ∧ NoDup h ∧
    s' = ts_set_held h (ts_set_tasks (task_event s) (task_lwip_io s) 0 s)).
Proof.
  apply (wp_own_release _ _ _ _ (λ s, ts_set_tasks (task_event s) (task_lwip_io s) 0 s)); [|intros Hb|done].
  - unfold lwip_timer_task_fini, mbind, stm_bind, gets. by destruct (task_lwip_timer s =? 0).
  - apply negb_false_iff, Z.eqb_eq in Hb. destruct s; simpl in *. by subst.
Qed.

Lemma wp_io_fini s rest :
  held s ≡ₚ own (negb (task_lwip_io s =? 0)) (RTask (task_lwip_io s)) ++ rest → NoDup (held s) →
  wp lwip_io_task_fini s (λ _ s', ∃ h, h ≡ₚ rest ∧ NoDup h ∧
    s' = ts_set_held h (ts_set_tasks (task_event s) 0 (task_lwip_timer s) s)).
Proof.
  apply (wp_own_release _ _ _ _ (λ s, ts_set_tasks (task_event s) 0 (task_lwip_timer s) s)); [|intros Hb|done].
  - unfold lwip_io_task_fini, mbind, stm_bind, gets. by destruct (task_lwip_io s =? 0).
  - apply negb_false_iff, Z.eqb_eq in Hb. destruct s; simpl in *. by subst.
Qed.

(** A descriptor of the pair is -1 when it is not open. *)
Definition event_ok (s : tstate) : Prop :=
  (0 ≤ event_fd0 s ∨ event_fd0 s = -1) ∧ (0 ≤ event_fd1 s ∨ event_fd1 s = -1).

Lemma wp_event_fini s rest : event_ok s →
  held s ≡ₚ own (negb (task_event s =? 0)) (RTask (task_event s)) ++
    own (0 <=? event_fd0 s) (RFd (event_fd0 s)) ++ own (0 <=? event_fd1 s) (RFd (event_fd1 s)) ++ rest →
  NoDup (held s) →
  wp event_task_fini s (λ _ s', ∃ h, h ≡ₚ rest ∧ NoDup h ∧
    s' = ts_set_held h (ts_set_event (-1) (-1) (ts_set_tasks 0 (task_lwip_io s) (task_lwip_timer s) s))).
Proof.
  intros [H0 H1] Hp Hnd. unfold event_task_fini. apply wp_bind, wp_gets, wp_bind.
  eapply wp_mono.
  { eapply (wp_own_release _ _ _ _ (λ s, ts_set_tasks 0 (task_lwip_io s) (task_lwip_timer s) s)); [| | |exact Hp|exact Hnd]; [|intros Hb|done].
    - by destruct (task_event s =? 0).
    - apply negb_false_iff, Z.eqb_eq in Hb. destruct s; simpl in *. by subst. }
  cbn beta. intros [] s1 (h1 & Hp1 & Hn1 & ->). apply wp_bind, wp_gets, wp_bind. eapply wp_mono.
  { eapply (wp_own_release _ _ _ _ (λ s, ts_set_event (-1) (event_fd1 s) s)); [| | |exact Hp1|exact Hn1]; [done|intros Hb|done].
    apply Z.leb_gt in Hb. destruct s; simpl in *. destruct H0 as [? | ->]; [lia|done]. }
  cbn beta. intros [] s2 (h2 & Hp2 & Hn2 & ->). apply wp_bind, wp_gets. eapply wp_mono.
  { eapply (wp_own_release _ _ _ _ (λ s, ts_set_event (event_fd0 s) (-1) s)); [| | |exact Hp2|exact Hn2]; [done|intros Hb|done].
    apply Z.leb_gt in Hb. destruct s; simpl in *. destruct H1 as [? | ->]; [lia|done]. }
  cbn beta. intros [] s3 (h3 & Hp3 & Hn3 & ->). exists h3. by split_and!.
Qed.

(** [true_state] is enough to release everything but [extra]. *)
Lemma wp_tunnel_fini netif extra s : true_state netif extra s → event_ok s →
  wp hev_socks5_tunnel_fini s (λ _ s', held s' ≡ₚ extra).
Proof.
  intros (Hp & Hnd & Hx) Hev. unfold owned in Hp. rewrite <-!app_assoc in Hp. unfold hev_socks5_tunnel_fini.
  apply wp_bind. eapply wp_mono; [by apply wp_mapped_dns_fini|]. intros [] s1 (h1 & Hp1 & Hn1 & ->).
  apply wp_bind. eapply wp_mono; [by apply wp_timer_fini|]. intros [] s2 (h2 & Hp2 & Hn2 & ->).
  apply wp_bind. eapply wp_mono; [by apply wp_io_fini|]. intros [] s3 (h3 & Hp3 & Hn3 & ->).
  apply wp_bind. eapply wp_mono; [by apply wp_event_fini|]. intros [] s4 (h4 & Hp4 & Hn4 & ->).
  apply wp_bind. unfold gateway_fini. apply wp_bind, wp_gets, wp_bind. eapply wp_mono.
  { eapply (wp_own_release (negb (udp s =? 0)) _ (RUdp (udp s)) _ id); [|done|done|exact Hp4|exact Hn4].
    unfold release_ptr. simpl. destruct (udp s =? 0); [done|]. simpl. unfold mbind, stm_bind, modify. by destruct (release _ _) as [[[] ?]|]. }
  cbn beta. intros [] s5 (h5 & Hp5 & Hn5 & ->). apply wp_bind, wp_gets, wp_bind. eapply wp_mono.
  { eapply (wp_own_release (negb (tcp s =? 0)) _ (RTcp (tcp s)) _ id); [|done|done|exact Hp5|exact Hn5].
    unfold release_ptr. simpl. destruct (tcp s =? 0); [done|]. simpl. unfold mbind, stm_bind, modify. by destruct (release _ _) as [[[] ?]|]. }
  cbn beta. intros [] s6 (h6 & Hp6 & Hn6 & ->). apply wp_modify. simpl.
  assert (filter (.≠ RNetif) h6 ≡ₚ own (tun_fd_local s) (RFd (tun_fd s)) ++ extra ∧ NoDup (filter (.≠ RNetif) h6)) as [Hp7 Hn7].
  { destruct netif; simpl in Hp6.
    - apply filter_ne_perm; [|done]. rewrite Hp6. solve_Permutation.
    - split; [|by apply NoDup_filter]. rewrite Hp6. apply Permutation_refl'. apply filter_ne_id.
      intros Hr. apply elem_of_app in Hr as [Hr|Hr]; [|done]. destruct (tun_fd_local s); set_solver. }
  unfold tunnel_fini. apply wp_bind, wp_gets. simpl. destruct (tun_fd_local s); simpl in *; [|by apply wp_ret].
  apply wp_bind, wp_gets, wp_bind. simpl. eapply wp_release; [exact Hp7|exact Hn7|]. intros h Hh _. by apply wp_modify.
Qed.

(** Objects that are made are new. *)
Definition fresh_answers (an : answers) : Prop :=
  an_tcp an ≠ 0 ∧ an_udp an ≠ 0 ∧
  (∀ a b, an_socketpair an = Some (a, b) → 0 ≤ a ∧ 0 ≤ b ∧ a ≠ b ∧ an_open an ≠ a ∧ an_open an ≠ b) ∧
  (an_task_event an = 0 ∨ an_task_event an ≠ an_task_io an ∧ an_task_event an ≠ an_task_timer an) ∧
  (an_task_io an = 0 ∨ an_task_io an ≠ an_task_timer an).

(** The state at the start of the program. *)
Definition tstate_init : tstate := mk_tstate (-1) false (-1) (-1) 0 0 0 0 0 0 [].

(** A descriptor that [tunnel_init] has opened and given up on. *)
Definition tun_lost (an : answers) (extern_tun_fd : Z) : list resource :=
  own ((extern_tun_fd <? 0) && (0 <=? an_open an) &&
    ((an_mtu an <? 0) || (default 0 (an_ipv4 an) <? 0) || (default 0 (an_ipv6 an) <? 0) || (an_state an <? 0)))
    (RFd (an_open an)).

(** A step of the start that keeps the truth, and a failure after it. *)
Lemma wp_or_fini netif step rest (Q : Z → tstate → Prop) s (P : tstate → Prop) :
  wp step s (λ res s', event_ok s' ∧ ∃ extra, true_state netif extra s' ∧
    (res = -1 ∧ (∀ s'', held s'' ≡ₚ extra → Q (-1) s'') ∨ res = 0 ∧ P s')) →
  (∀ s', P s' → wp rest s' Q) → wp (or_fini step rest) s Q.
Proof.
  intros Hs Hr. unfold or_fini. apply wp_bind. eapply wp_mono; [exact Hs|].
  intros res s' (Hev & extra & Ht & [[-> HQ]|[-> HP]]); simpl; [|by apply Hr].
  apply wp_bind. eapply wp_mono; [by eapply wp_tunnel_fini|]. intros [] s'' Hh. by apply wp_ret, HQ.
Qed.

Ltac solve_NoDup := repeat first
  [apply NoDup_nil_2 | apply NoDup_cons; split | apply not_elem_of_nil | apply not_elem_of_cons; split | discriminate | congruence].

(** Reads off which variables are set. *)
Ltac solve_owned := unfold owned; simpl;
  repeat match goal with H : (_ =? _) = false |- _ => rewrite ?H; clear H | H : (_ <=? _) = true |- _ => rewrite ?H; clear H end;
  simpl; solve_Permutation.

Section init_proof.
Context (an : answers) (Hf : fresh_answers an).

(** The states between the steps. *)
Definition st_tun (fd : Z) (loc : bool) : tstate := mk_tstate fd loc (-1) (-1) 0 0 0 0 0 0 (own loc (RFd fd)).
Definition st_gateway (fd : Z) (loc : bool) : tstate :=
  mk_tstate fd loc (-1) (-1) (an_tcp an) (an_udp an) 0 0 0 0
    (own loc (RFd fd) ++ [RNetif; RTcp (an_tcp an); RUdp (an_udp an)]).
Definition st_event (fd : Z) (loc : bool) (a b te tio tt_ : Z) : tstate :=
  mk_tstate fd loc a b (an_tcp an) (an_udp an) te tio tt_ 0
    (own loc (RFd fd) ++ [RNetif; RTcp (an_tcp an); RUdp (an_udp an); RFd a; RFd b] ++
     own (negb (te =? 0)) (RTask te) ++ own (negb (tio =? 0)) (RTask tio) ++ own (negb (tt_ =? 0)) (RTask tt_)).

(** A local descriptor is not one of the pair. *)
Definition tun_ok (fd : Z) (loc : bool) : Prop :=
  ∀ a b, loc = true → an_socketpair an = Some (a, b) → fd ≠ a ∧ fd ≠ b.

Lemma true_gateway fd loc : true_state true [] (st_gateway fd loc).
Proof.
  destruct Hf as (Ht & Hu & _). apply Z.eqb_neq in Ht, Hu. unfold st_gateway. destruct loc; (split_and!; [solve_owned|simpl; solve_NoDup|set_solver]).
Qed.

Lemma true_event fd loc a b te tio tt_ :
  tun_ok fd loc → an_socketpair an = Some (a, b) →
  (te = 0 ∨ te ≠ tio ∧ te ≠ tt_) → (tio = 0 ∨ tio ≠ tt_) → true_state true [] (st_event fd loc a b te tio tt_).
Proof.
  intros Hok Hp H1 H2. destruct Hf as (Ht & Hu & Hsp & _). destruct (Hsp a b Hp) as (Ha & Hb & Hab & _).
  apply Z.eqb_neq in Ht, Hu. apply Z.leb_le in Ha, Hb.
  assert (loc = true → fd ≠ a ∧ fd ≠ b) as Hfd by (intros Hl; by apply Hok). unfold st_event.
  destruct loc; [destruct (Hfd eq_refl)|];
    destruct (Z.eqb_spec te 0) as [->|E1], (Z.eqb_spec tio 0) as [->|E2], (Z.eqb_spec tt_ 0) as [->|E3];
    simpl; try apply Z.eqb_neq in E1; try apply Z.eqb_neq in E2; try apply Z.eqb_neq in E3;
    (split_and!; [solve_owned| |set_solver]);
    simpl; try apply Z.eqb_neq in E1; try apply Z.eqb_neq in E2; try apply Z.eqb_neq in E3;
    (destruct H1 as [?|[??]]; [done|]) || idtac; (destruct H2; [done|]) || idtac; solve_NoDup.
Qed.

Lemma event_ok_none fd loc : event_ok (st_tun fd loc) ∧ event_ok (st_gateway fd loc).
Proof. split; split; by right. Qed.

Lemma event_ok_pair fd loc a b te tio tt_ : an_socketpair an = Some (a, b) → event_ok (st_event fd loc a b te tio tt_).
Proof. destruct Hf as (_ & _ & Hsp & _). intros H. destruct (Hsp a b H) as (Ha & Hb & _). split; by left. Qed.

Definition init_result (extra : list resource) (res : Z) (s' : tstate) : Prop :=
  res = 0 ∧ event_ok s' ∧ true_state true [] s' ∨ res = -1 ∧ held s' ≡ₚ extra.

(** The outcome of a step that ends in a known state. *)
Lemma step_event (P : tstate → Prop) res s fd loc a b te tio tt_ :
  tun_ok fd loc → an_socketpair an = Some (a, b) → (te = 0 ∨ te ≠ tio ∧ te ≠ tt_) → (tio = 0 ∨ tio ≠ tt_) →
  s = st_event fd loc a b te tio tt_ → res = -1 ∨ res = 0 ∧ P s →
  event_ok s ∧ ∃ extra, true_state true extra s ∧
    (res = -1 ∧ (∀ s'', held s'' ≡ₚ extra → init_result [] (-1) s'') ∨ res = 0 ∧ P s).
Proof.
  intros Hok Hp H1 H2 -> Hr. split; [by apply event_ok_pair|]. exists []. split; [by apply true_event|].
  destruct Hr as [-> |?]; [left|by right]. split; [done|]. by right.
Qed.

Ltac run_step := unfold wp, mbind, stm_bind, take_res, modify, mret, stm_ret; simpl.
Ltac same_state := unfold st_event, ts_set_tasks, ts_set_held; simpl; rewrite <-?app_assoc; simpl; rewrite <-?app_assoc; reflexivity.

Definition at_event (fd : Z) (loc : bool) (a b te tio tt_ : Z) (s : tstate) : Prop := s = st_event fd loc a b te tio tt_.

Definition step_post (P : tstate → Prop) (res : Z) (s : tstate) : Prop :=
  event_ok s ∧ ∃ extra, true_state true extra s ∧
    (res = -1 ∧ (∀ s'', held s'' ≡ₚ extra → init_result [] (-1) s'') ∨ res = 0 ∧ P s).

Lemma wp_init_event fd loc a b : tun_ok fd loc → an_socketpair an = Some (a, b) →
  wp (event_task_init an) (st_gateway fd loc) (step_post (at_event fd loc a b (an_task_event an) 0 0)).
Proof.
  intros Hok Hp. unfold event_task_init. rewrite Hp. run_step.
  destruct (an_ioctl_event an <? 0).
  { apply (step_event _ _ _ fd loc a b 0 0 0); try done; [by left|by left|same_state|by left]. }
  destruct (Z.eqb_spec (an_task_event an) 0) as [E|E].
  { apply (step_event _ _ _ fd loc a b 0 0 0); try done; [by left|by left|rewrite E; same_state|by left]. }
  destruct (decide (an_task_event an = 0)); [done|]. assert ((an_task_event an =? 0) = false) as E' by by apply Z.eqb_neq.
  assert (∀ s, s = st_event fd loc a b (an_task_event an) 0 0 → step_post (at_event fd loc a b (an_task_event an) 0 0) 0 s) as Hs.
  { intros s Hs. apply (step_event _ _ _ fd loc a b (an_task_event an) 0 0); try done; [by right|by left|by right]. }
  apply Hs. unfold st_event. rewrite E'. same_state.
Qed.

Lemma wp_init_io fd loc a b te : tun_ok fd loc → an_socketpair an = Some (a, b) →
  (te = 0 ∨ te ≠ an_task_io an ∧ te ≠ 0) →
  wp (lwip_io_task_init an) (st_event fd loc a b te 0 0) (step_post (at_event fd loc a b te (an_task_io an) 0)).
Proof.
  intros Hok Hp Hte. unfold lwip_io_task_init. run_step. destruct (Z.eqb_spec (an_task_io an) 0) as [E|E].
  { apply (step_event _ _ _ fd loc a b te 0 0); try done; [naive_solver|by left|rewrite E; same_state|by left]. }
  assert ((an_task_io an =? 0) = false) as E' by by apply Z.eqb_neq.
  assert (∀ s, s = st_event fd loc a b te (an_task_io an) 0 → step_post (at_event fd loc a b te (an_task_io an) 0) 0 s) as Hs.
  { intros s Hs. apply (step_event _ _ _ fd loc a b te (an_task_io an) 0); try done; [by right|by right]. }
  apply Hs. unfold st_event. rewrite E'. simpl. rewrite !app_nil_r. same_state.
Qed.

Lemma wp_init_timer fd loc a b te tio : tun_ok fd loc → an_socketpair an = Some (a, b) →
  (te = 0 ∨ te ≠ tio ∧ te ≠ an_task_timer an ∧ te ≠ 0) → (tio = 0 ∨ tio ≠ an_task_timer an ∧ tio ≠ 0) →
  wp (lwip_timer_task_init an) (st_event fd loc a b te tio 0) (step_post (at_event fd loc a b te tio (an_task_timer an))).
Proof.
  intros Hok Hp Hte Htio. unfold lwip_timer_task_init. run_step. destruct (Z.eqb_spec (an_task_timer an) 0) as [E|E].
  { apply (step_event _ _ _ fd loc a b te tio 0); try done; [naive_solver|naive_solver|rewrite E; same_state|by left]. }
  assert ((an_task_timer an =? 0) = false) as E' by by apply Z.eqb_neq.
  assert (∀ s, s = st_event fd loc a b te tio (an_task_timer an) → step_post (at_event fd loc a b te tio (an_task_timer an)) 0 s) as Hs.
  { intros s Hs. apply (step_event _ _ _ fd loc a b te tio (an_task_timer an)); try done; [naive_solver|naive_solver|by right]. }
  apply Hs. unfold st_event. rewrite E'. simpl. rewrite !app_nil_r. same_state.
Qed.

(** The last step adds the DNS server. *)
Lemma wp_init_dns fd loc a b te tio tt_ : tun_ok fd loc → an_socketpair an = Some (a, b) →
  (te = 0 ∨ te ≠ tio ∧ te ≠ tt_) → (tio = 0 ∨ tio ≠ tt_) →
  wp (mapped_dns_init an) (st_event fd loc a b te tio tt_) (step_post (λ s, event_ok s ∧ true_state true [] s)).
Proof.
  intros Hok Hp Hte Htio. pose proof (true_event fd loc a b te tio tt_ Hok Hp Hte Htio) as (Hh & Hn & Hx).
  pose proof (event_ok_pair fd loc a b te tio tt_ Hp) as He.
  unfold mapped_dns_init. run_step. destruct (an_cache_size an =? 0); [|destruct (Z.eqb_spec (an_dns an) 0) as [E|E]].
  - apply (step_event _ _ _ fd loc a b te tio tt_); try done. right. split_and!; done.
  - apply (step_event _ _ _ fd loc a b te tio tt_); try done. by left.
  - set (s1 := ts_set_dns _ _). assert (event_ok s1) as He1 by exact He.
    assert (true_state true [] s1) as Ht1; [|split; [done|]; exists []; split; [done|]; by right].
    assert (RDns (an_dns an) ∉ held (st_event fd loc a b te tio tt_)) as Hfr.
    { unfold st_event. simpl. rewrite elem_of_app, !elem_of_cons, !elem_of_app.
      destruct loc, (te =? 0), (tio =? 0), (tt_ =? 0); simpl; rewrite ?list_elem_of_singleton, ?elem_of_nil; naive_solver congruence. }
    split_and!; [|simpl; apply NoDup_app; split_and!; [done|set_solver|apply NoDup_singleton]|done].
    unfold s1, owned. simpl. assert ((an_dns an =? 0) = false) as -> by by apply Z.eqb_neq. simpl.
    unfold owned in Hh. simpl in Hh. rewrite Hh. solve_Permutation.
Qed.

(** From the pair of descriptors on. *)
Lemma wp_init_tasks fd loc : tun_ok fd loc →
  wp (or_fini (event_task_init an) (or_fini (lwip_io_task_init an) (or_fini (lwip_timer_task_init an)
    (or_fini (mapped_dns_init an) (mret 0))))) (st_gateway fd loc) (init_result []).
Proof.
  intros Hok. pose proof Hf as (_ & _ & _ & H1 & H2).
  destruct (an_socketpair an) as [[a b]|] eqn:Hp.
  2: { eapply (wp_or_fini true _ _ _ _ (λ _, False)); [|done]. unfold wp, event_task_init. rewrite Hp. simpl.
    split; [apply event_ok_none|]. exists []. split; [by apply true_gateway|]. left. split; [done|]. by right. }
  eapply wp_or_fini; [by apply wp_init_event|]. intros s1 ->.
  eapply wp_or_fini; [apply wp_init_io; [done|done|lia]|]. intros s2 ->.
  eapply wp_or_fini; [apply wp_init_timer; [done|done|lia|lia]|]. intros s3 ->.
  eapply wp_or_fini; [by apply wp_init_dns|]. intros s4 [He Ht]. apply wp_ret. left. by split_and!.
Qed.

(** [tunnel_init]: the descriptor is kept, or lost. *)
Lemma wp_tunnel_init ext :
  let fd := if 0 <=? ext then ext else an_open an in
  wp (tunnel_init an ext) tstate_init (λ res s, event_ok s ∧ ∃ extra, true_state false extra s ∧
    (res = -1 ∧ extra = tun_lost an ext ∨ res = 0 ∧ s = st_tun fd (negb (0 <=? ext)) ∧ tun_lost an ext = [])).
Proof.
  assert (∀ fd, event_ok (mk_tstate fd false (-1) (-1) 0 0 0 0 0 0 [])) as He by (intros; split; by right).
  assert (∀ fd, true_state false [] (mk_tstate fd false (-1) (-1) 0 0 0 0 0 0 [])) as Ht
    by (intros; split_and!; [done|apply NoDup_nil_2|set_solver]).
  unfold tunnel_init, tun_lost. cbn zeta. destruct (Z.leb_spec 0 ext) as [Hx|Hx].
  - assert ((ext <? 0) = false) as -> by by apply Z.ltb_ge. simpl. destruct (an_ioctl an <? 0); run_step.
    + split; [apply He|]. exists []. split; [apply Ht|by left].
    + split; [apply He|]. exists []. split; [apply Ht|by right].
  - assert ((ext <? 0) = true) as -> by by apply Z.ltb_lt. simpl. run_step.
    destruct (Z.ltb_spec (an_open an) 0) as [Ho|Ho].
    + assert ((0 <=? an_open an) = false) as -> by by apply Z.leb_gt. split; [apply He|]. exists []. split; [apply Ht|by left].
    + assert ((0 <=? an_open an) = true) as -> by by apply Z.leb_le. simpl.
      assert (∀ fd, event_ok (mk_tstate fd false (-1) (-1) 0 0 0 0 0 0 [RFd fd]) ∧
        true_state false [RFd fd] (mk_tstate fd false (-1) (-1) 0 0 0 0 0 0 [RFd fd])) as Hl.
      { intros fd. split; [split; by right|]. split_and!; [done|apply NoDup_singleton|set_solver]. }
      destruct (an_mtu an <? 0), (default 0 (an_ipv4 an) <? 0), (default 0 (an_ipv6 an) <? 0), (an_state an <? 0); simpl;
        try (split; [apply Hl|]; eexists; split; [apply Hl|by left]).
      split; [apply He|]. exists []. split; [|by right]. split_and!; [done|apply NoDup_singleton|set_solver].
Qed.

Lemma wp_init_all ext : wp (hev_socks5_tunnel_init an ext) tstate_init (init_result (tun_lost an ext)).
Proof.
  set (fd := if 0 <=? ext then ext else an_open an). set (loc := negb (0 <=? ext)).
  unfold hev_socks5_tunnel_init.
  apply (wp_or_fini false _ _ _ _ (λ s, s = st_tun fd loc ∧ tun_lost an ext = [])).
  { eapply wp_mono; [apply wp_tunnel_init|]. intros res s (He & extra & Ht & Hr). split; [done|]. exists extra. split; [done|].
    destruct Hr as [[-> ->]|?]; [left|by right]. split; [done|]. by right. }
  intros s [-> ->]. apply (wp_or_fini true _ _ _ _ (λ s, s = st_gateway fd loc)).
  - destruct Hf as (Ht & Hu & _). apply Z.eqb_neq in Ht, Hu. unfold gateway_init. rewrite Ht, Hu. run_step.
    assert (∀ s, s = st_gateway fd loc → event_ok s ∧ ∃ extra, true_state true extra s ∧
      (0 = -1 ∧ (∀ s'', held s'' ≡ₚ extra → init_result [] (-1) s'') ∨ 0 = 0 ∧ s = st_gateway fd loc)) as Hs.
    { intros s ->. split; [apply event_ok_none|]. exists []. split; [by apply true_gateway|by right]. }
    apply Hs. unfold st_gateway, ts_set_gateway, ts_set_held. simpl. by rewrite <-!app_assoc.
  - intros s ->. apply wp_init_tasks. intros a b Hloc Hp. destruct Hf as (_ & _ & Hsp & _).
    destruct (Hsp a b Hp) as (_ & _ & _ & Ha & Hb). unfold fd, loc in *. destruct (0 <=? ext); done.
Qed.
End init_proof.


Definition ex_answers : answers :=
  mk_answers 0 5 0 (Some 0) None 0 100 200 (Some (6, 7)) 0 300 400 0 1000 500.


(** When a second start fails early, [hev_socks5_tunnel_fini] removes the
    connections of the first one again: the variables [tcp] and [udp] still hold
    them. *)
Theorem tunnel_double_remove :
  ∃ s1 s2, hev_socks5_tunnel_init (mk_answers 0 5 0 None None 0 100 200 (Some (6, 7)) 0 300 400 600 0 0) (-1) tstate_init = Some (0, s1) ∧
    hev_socks5_tunnel_fini s1 = Some (tt, s2) ∧ held s2 = [] ∧
    hev_socks5_tunnel_init (mk_answers 0 (-1) 0 None None 0 0 0 None 0 0 0 0 0 0) (-1) s2 = None.
Proof. eexists _, _. split; [vm_compute; reflexivity|]. split; [vm_compute; reflexivity|]. split; vm_compute; reflexivity. Qed.
