(* ===== verification/SessionUDP.v ===== *)
(** * UDP sessions (src/hev-socks5-session-udp.c): the model

    A session keeps the datagrams of lwIP in an intrusive list of frames until
    they are sent to the SOCKS5 server, and gives the datagrams of the server to
    lwIP.  A datagram of lwIP is a chain of buffers.  The socket side is that of
    hev-socks5-udp.c. *)

From S2P Require Import Prelude CString HevList MappedDNSPacket SocksAddr SocksIO SocksClient Session SocksUDP SessionTCP.

Definition UDP_POOL_SIZE : Z := 512.

Record HevSocks5UDPFrame := mk_frame { fr_addr : HevSocks5Addr; fr_data : list (list Z) }.

(** [su_addr] has the four bytes of the field [addr]; [su_pcb] tells whether the
    connection is there; [su_lwip] is what was sent from the connection of lwIP, with
    the source of each datagram. *)
Record HevSocks5SessionUDP := mk_sudp {
  su_sock : usock;
  su_list : HevList;
  su_mem : gmap Z HevSocks5UDPFrame;
  su_frames : Z;
  su_addr : list Z;
  su_port : Z;
  su_pcb : bool;
  su_lwip : list (list Z * ip_addr * Z);
}.

Definition su_set_sock (x : usock) (s : HevSocks5SessionUDP) : HevSocks5SessionUDP :=
  mk_sudp x (su_list s) (su_mem s) (su_frames s) (su_addr s) (su_port s) (su_pcb s) (su_lwip s).
Definition su_set_list (x : HevList) (s : HevSocks5SessionUDP) : HevSocks5SessionUDP :=
  mk_sudp (su_sock s) x (su_mem s) (su_frames s) (su_addr s) (su_port s) (su_pcb s) (su_lwip s).
Definition su_set_mem (x : gmap Z HevSocks5UDPFrame) (s : HevSocks5SessionUDP) : HevSocks5SessionUDP :=
  mk_sudp (su_sock s) (su_list s) x (su_frames s) (su_addr s) (su_port s) (su_pcb s) (su_lwip s).
Definition su_set_frames (x : Z) (s : HevSocks5SessionUDP) : HevSocks5SessionUDP :=
  mk_sudp (su_sock s) (su_list s) (su_mem s) x (su_addr s) (su_port s) (su_pcb s) (su_lwip s).
Definition su_set_source (a : list Z) (p : Z) (s : HevSocks5SessionUDP) : HevSocks5SessionUDP :=
  mk_sudp (su_sock s) (su_list s) (su_mem s) (su_frames s) a p (su_pcb s) (su_lwip s).
Definition su_set_pcb (x : bool) (s : HevSocks5SessionUDP) : HevSocks5SessionUDP :=
  mk_sudp (su_sock s) (su_list s) (su_mem s) (su_frames s) (su_addr s) (su_port s) x (su_lwip s).
Definition su_add_lwip (x : list Z * ip_addr * Z) (s : HevSocks5SessionUDP) : HevSocks5SessionUDP :=
  mk_sudp (su_sock s) (su_list s) (su_mem s) (su_frames s) (su_addr s) (su_port s) (su_pcb s) (su_lwip s ++ [x]).

Definition in_frames {A} : stm HevList A → stm HevSocks5SessionUDP A := zoom su_list su_set_list.
Definition in_sock {A} : stm usock A → stm HevSocks5SessionUDP A := zoom su_sock su_set_sock.

Definition frame_load (a : Z) : stm HevSocks5SessionUDP HevSocks5UDPFrame := λ s,
  match su_mem s !! a with Some f => Some (f, s) | None => None end.

(** A frame at a new block, and the release of a frame. *)
Definition frame_alloc (a : Z) (f : HevSocks5UDPFrame) : stm HevSocks5SessionUDP unit := λ s,
  match hl_mem (su_list s) !! a, su_mem s !! a with
  | None, None =>
      let l := su_list s in
      Some (tt, su_set_mem (<[a := f]> (su_mem s))
        (su_set_list (mk_hlist (hl_head l) (hl_tail l) (<[a := mk_lnode 0 0]> (hl_mem l))) s))
  | _, _ => None
  end.

Definition frame_free (a : Z) : stm HevSocks5SessionUDP unit := λ s,
  match hl_mem (su_list s) !! a, su_mem s !! a with
  | Some _, Some _ =>
      let l := su_list s in
      Some (tt, su_set_mem (delete a (su_mem s))
        (su_set_list (mk_hlist (hl_head l) (hl_tail l) (delete a (hl_mem l))) s))
  | _, _ => None
  end.

(** ** From lwIP to the server *)

(** The first loop of [hev_socks5_session_udp_fwd_f]: the messages of [n] frames.
    A message takes the first buffer of a chain. *)
Fixpoint fwd_f_msgs (n : nat) (node : Z) : stm HevSocks5SessionUDP (list out_msg) :=
  match n with
  | 0%nat => mret []
  | S n =>
      frame ← frame_load node;
      node ← in_frames (hev_list_node_next node);
      match fr_data frame with
      | [] => ub
      | payload :: _ =>
          ms ← fwd_f_msgs n node;
          mret ((fr_addr frame, payload) :: ms)
      end
  end.

(** The second one: the frames that were sent are released. *)
Fixpoint fwd_f_release (n : nat) : stm HevSocks5SessionUDP unit :=
  match n with
  | 0%nat => mret tt
  | S n =>
      node ← in_frames hev_list_first;
      frame_load node;;
      in_frames (hev_list_del node);;
      frame_free node;;
      modify (λ s, su_set_frames (su_frames s - 1) s);;
      fwd_f_release n
  end.

Definition hev_socks5_session_udp_fwd_f (num : Z) : stm HevSocks5SessionUDP Z :=
  res ← gets su_frames;
  if res <=? 0 then mret 0
  else
    let res := if num <? res then num else res in
    node ← in_frames hev_list_first;
    msgv ← fwd_f_msgs (Z.to_nat res) node;
    res ← in_sock (hev_socks5_udp_sendmmsg msgv);
    if res <=? 0 then mret (-1)
    else fwd_f_release (Z.to_nat res);; mret 1.

(** ** From the server to lwIP *)

(** The loop of [hev_socks5_session_udp_fwd_b] over the [n] messages received;
    [oks] are the answers of lwIP to the allocation and the sending of each.
    The type of the address is left as it is for a saved source, which the model
    takes for IPv4. *)
Fixpoint fwd_b_loop (n : nat) (msgv : list HevSocks5UDPMsg) (oks : list (bool * bool)) : stm HevSocks5SessionUDP Z :=
  match n with
  | 0%nat => mret 1
  | S n =>
      match msgv, oks with
      | m :: msgv, (alloc_ok, send_ok) :: oks =>
          a ← gets su_addr; p ← gets su_port;
          src ← (if negb (bool_decide (Forall (λ b, b = 0) a)) && negb (p =? 0)
                 then mret (Some (IPADDR_TYPE_V4 a, p))
                 else match msg_addr m with
                   | None => ub
                   | Some addr => match hev_socks5_addr_into_lwip addr with None => ub | Some r => mret r end
                   end);
          match src with
          | None => mret (-1)
          | Some (saddr, port) =>
              if negb alloc_ok then mret (-1)
              else
                match msg_data m with
                | None => ub
                | Some data =>
                    if negb send_ok then mret (-1)
                    else modify (su_add_lwip (data, saddr, port));; fwd_b_loop n msgv oks
                end
          end
      | _, _ => ub
      end
  end.

(** [errno] is EAGAIN when [again] is true; [stale] is what a buffer holds. *)
Definition hev_socks5_session_udp_fwd_b (stale : list Z) (again : bool) (num : nat) (oks : list (bool * bool)) :
    stm HevSocks5SessionUDP Z :=
  r ← in_sock (hev_socks5_udp_recvmmsg (replicate num (mk_msg stale AddrUninit 0 UDP_BUF_SIZE)));
  if r.1 <=? 0 then mret (if (r.1 =? -1) && again then 0 else -1)
  else fwd_b_loop (Z.to_nat r.1) r.2 oks.

(** ** Callbacks *)

(** A datagram of lwIP: the chain, the local end of the connection, what the
    mapped DNS knows of it, and the memory the frame gets. *)
Record udp_arrival := mk_arrival {
  ar_data : option (list (list Z));
  ar_ip : ip_addr; ar_port : Z; ar_name : option (list Z);
  ar_block : option (Z * list Z);
}.

Definition udp_recv_handler (p : udp_arrival) : stm HevSocks5SessionUDP unit :=
  match ar_data p with
  | None => modify (λ s, su_set_sock (us_set_self (hev_socks5_set_timeout 0) (su_sock s)) s)
  | Some data =>
      frames ← gets su_frames;
      if UDP_POOL_SIZE <? frames then mret tt
      else
        match ar_block p with
        | None => mret tt
        | Some (a, mem) =>
            match hev_socks5_addr_from_lwip mem (ar_ip p) (ar_port p) (ar_name p) with
            | None => ub
            | Some addr =>
                frame_alloc a (mk_frame addr data);;
                match addr !! 0%nat with
                | None => ub
                | Some atype =>
                    (if atype =? HEV_SOCKS5_ADDR_TYPE_NAME then
                       match ar_ip p with
                       | IPADDR_TYPE_V4 ip | IPADDR_TYPE_V6 ip => modify (su_set_source (take 4 ip) (ar_port p))
                       end
                     else mret tt);;
                    modify (λ s, su_set_frames (su_frames s + 1) s);;
                    in_frames (hev_list_add_tail a)
                end
            end
        end
  end.

(** ** The splicer *)

(** What a turn of the task meets: what arrives on the socket, the answers of
    lwIP, the result of the [recv] of the yielder, the callbacks, and the time
    left. *)
Record udp_turn := mk_udp_turn {
  ut_net : usock → usock;
  ut_again : bool;
  ut_oks : list (bool * bool);
  ut_recv : Z * bool;
  ut_cb : list udp_arrival;
  ut_left : Z;
}.

Fixpoint udp_callbacks (ps : list udp_arrival) : stm HevSocks5SessionUDP unit :=
  match ps with [] => mret tt | p :: ps => udp_recv_handler p;; udp_callbacks ps end.

Definition udp_task_io_yielder (type : yield) (t : udp_turn) : stm HevSocks5SessionUDP Z :=
  kind ← gets (λ s, s5_type (us_self (su_sock s)));
  let closed := match kind with
    | HEV_SOCKS5_TYPE_UDP_IN_UDP => ((ut_recv t).1 =? 0) || (((ut_recv t).1 <? 0) && negb (ut_recv t).2)
    | _ => false end in
  if closed then
    modify (λ s, su_set_sock (us_set_self (hev_socks5_set_timeout 0) (su_sock s)) s);; mret (-1)
  else
    timeout ← gets (λ s, s5_timeout (us_self (su_sock s)));
    udp_callbacks (ut_cb t);;
    mret (hev_socks5_task_io_yielder type timeout (ut_left t)).

(** The loop of [hev_socks5_session_udp_splice], along the turns of the task; the
    result tells whether it has ended. *)
Fixpoint udp_splice_loop (stale : list Z) (num : Z) (ts : list udp_turn) (res_f res_b : Z) : stm HevSocks5SessionUDP bool :=
  match ts with
  | [] => mret false
  | t :: ts =>
      modify (λ s, su_set_sock (ut_net t (su_sock s)) s);;
      res_f ← (if 0 <=? res_f then hev_socks5_session_udp_fwd_f num else mret res_f);
      res_b ← (if 0 <=? res_b then hev_socks5_session_udp_fwd_b stale (ut_again t) (Z.to_nat num) (ut_oks t) else mret res_b);
      match splice_type res_f res_b with
      | Break => mret true
      | type =>
          res ← udp_task_io_yielder type t;
          if negb (res =? 0) then mret true else udp_splice_loop stale num ts res_f res_b
      end
  end.

Definition hev_socks5_session_udp_splice (stale : list Z) (num : Z) (ts : list udp_turn) : stm HevSocks5SessionUDP bool :=
  udp_splice_loop stale num ts 1 1.

(** ** The address of the association *)

Definition hev_socks5_addr_get_port (addr : HevSocks5Addr) : option Z :=
  atype ← addr !! 0%nat;
  if atype =? HEV_SOCKS5_ADDR_TYPE_IPV4 then get16 addr 5
  else if atype =? HEV_SOCKS5_ADDR_TYPE_IPV6 then get16 addr 17
  else if atype =? HEV_SOCKS5_ADDR_TYPE_NAME then len ← addr !! 1%nat; get16 addr (2 + Z.to_nat len)
  else Some 0.

Definition hev_socks5_session_udp_set_upstream_addr (p4 p6 : list Z → option (list Z))
    (gai : list Z → HevSocks5AddrFamily → option (HevSocks5AddrFamily * list Z)) (srv : HevConfigServer)
    (addr : HevSocks5Addr) : M HevSocks5Client Z :=
  addr ← (if srv_udp_in_udp srv && negb (bool_decide (srv_udp_addr srv = [])) then
            port ← m_opt (hev_socks5_addr_get_port addr);
            r ← m_opt (hev_socks5_addr_from_name addr (srv_udp_addr srv) port);
            mret r.2
          else mret addr);
  hev_socks5_client_udp_set_upstream_addr p4 p6 gai addr.

(** [hev_socks5_session_udp_bind] with the mark of the configuration and the
    result of [set_sock_mark]. *)
Definition hev_socks5_session_udp_bind (mark mark_res : Z) : Z :=
  if mark =? 0 then 0 else if mark_res <? 0 then -1 else 0.

(** ** The life of a session *)

(** On zeroed memory; [sock] is the socket side, not connected yet. *)
Definition hev_socks5_session_udp_construct (srv : HevConfigServer) (sock : usock) : HevSocks5SessionUDP :=
  let type := if srv_udp_in_udp srv then HEV_SOCKS5_TYPE_UDP_IN_UDP else HEV_SOCKS5_TYPE_UDP_IN_TCP in
  mk_sudp (us_set_self (λ _, hev_socks5_construct type) sock) (mk_hlist 0 0 ∅) ∅ 0 [0; 0; 0; 0] 0 true [].

Definition hev_socks5_session_udp_new (malloc_ok : bool) (srv : HevConfigServer) (sock : usock) :
    option HevSocks5SessionUDP :=
  if malloc_ok then Some (hev_socks5_session_udp_construct srv sock) else None.

(** The loop of [hev_socks5_session_udp_destruct]. *)
Fixpoint udp_destruct_loop (fuel : nat) (node : Z) : stm HevSocks5SessionUDP unit :=
  match fuel with
  | 0%nat => ub
  | S fuel =>
      if node =? 0 then mret tt
      else
        frame_load node;;
        next ← in_frames (hev_list_node_next node);
        frame_free node;;
        udp_destruct_loop fuel next
  end.

(** Without the destructor of the base class; there is a turn for each frame. *)
Definition hev_socks5_session_udp_destruct : stm HevSocks5SessionUDP unit :=
  node ← in_frames hev_list_first;
  fuel ← gets (λ s, S (size (su_mem s)));
  udp_destruct_loop fuel node;;
  modify (su_set_pcb false).
