(* ===== verification/SessionUDPProps.v ===== *)
(** * UDP sessions: the queue of frames, and what the server receives *)

From S2P Require Import Prelude CString HevList MappedDNSPacket MappedDNSAnswer SocksAddr SocksAddrProps SocksIO SocksClient Session SocksUDP SocksUDPProps SessionTCP SessionUDP.

(** ** Representation *)

Record su_rep (s : HevSocks5SessionUDP) (L : list (Z * HevSocks5UDPFrame)) : Prop := {
  sr_list : list_is (su_list s) L.*1 [];
  sr_count : su_frames s = Z.of_nat (length L);
  sr_mem : su_mem s = list_to_map L;
}.

Lemma sr_NoDup s L : su_rep s L → NoDup L.*1.
Proof. intros [H _ _]. by eapply list_is_NoDup. Qed.

Lemma wp_in_frames {A} (c : stm HevList A) s Q :
  wp c (su_list s) (λ a l, Q a (su_set_list l s)) → wp (in_frames c) s Q.
Proof. apply wp_zoom. Qed.

Lemma su_set_list_id s : su_set_list (su_list s) s = s.
Proof. by destruct s. Qed.

Lemma wp_frame_load s a f Q : su_mem s !! a = Some f → Q f s → wp (frame_load a) s Q.
Proof. intros H HQ. unfold wp, frame_load. by rewrite H. Qed.

Lemma mem_middle (L1 L2 : list (Z * HevSocks5UDPFrame)) a f :
  NoDup (L1 ++ (a, f) :: L2).*1 → (list_to_map (L1 ++ (a, f) :: L2) : gmap Z HevSocks5UDPFrame) !! a = Some f.
Proof. intros H. rewrite list_to_map_middle by done. apply lookup_insert_eq. Qed.

(** A frame that is out of the list is released. *)
Lemma wp_frame_free s xs (L : list (Z * HevSocks5UDPFrame)) a f n Q :
  list_is (su_list s) xs [(a, n)] → su_mem s = <[a := f]> (list_to_map L) → a ∉ L.*1 →
  (∀ l, list_is l xs [] → Q tt (su_set_mem (list_to_map L) (su_set_list l s))) → wp (frame_free a) s Q.
Proof.
  intros [Hh Hhd Htl] Hm Ha HQ. unfold wp, frame_free. hperm Hh ((a, n) :: lseg 0 xs 0).
  rewrite (heap_lookup _ _ 0 a n Hh eq_refl), Hm, lookup_insert_eq, delete_insert_id
    by by apply not_elem_of_list_to_map_1.
  apply HQ. split; simpl; [|done|done]. rewrite app_nil_r. by eapply heap_free.
Qed.

(** ** Sending *)

(** The message of a frame. *)
Definition frame_msg (f : HevSocks5UDPFrame) : out_msg := (fr_addr f, default [] (head (fr_data f))).

Lemma wp_fwd_f_msgs n s (L1 L2 : list (Z * HevSocks5UDPFrame)) Q :
  list_is (su_list s) (L1 ++ L2).*1 [] → su_mem s = list_to_map (L1 ++ L2) →
  Forall (λ x, fr_data x.2 ≠ []) L2 → (n ≤ length L2)%nat →
  Q (frame_msg <$> (take n L2).*2) s → wp (fwd_f_msgs n (hd 0 L2.*1)) s Q.
Proof.
  revert L1 L2 Q. induction n as [|n IH]; intros L1 L2 Q Hl Hm HF Hn HQ; [by apply wp_ret|].
  destruct L2 as [|[a f] L2]; [simpl in Hn; lia|]. apply Forall_cons in HF as [Hf HF]. simpl in Hf.
  cbn [fwd_f_msgs]. apply wp_bind. simpl. eapply wp_frame_load.
  { rewrite Hm. apply mem_middle. by eapply list_is_NoDup. }
  apply wp_bind, wp_in_frames. pose proof Hl as Hl'. rewrite fmap_app in Hl'.
  eapply wp_hev_list_node_next; [exact Hl'|]. rewrite su_set_list_id. simpl in HQ.
  destruct (fr_data f) as [|c cs] eqn:Hd; [done|]. apply wp_bind.
  assert (L1 ++ (a, f) :: L2 = (L1 ++ [(a, f)]) ++ L2) as HL by by rewrite <-app_assoc.
  rewrite HL in Hl, Hm. apply (IH (L1 ++ [(a, f)]) L2); [done|done|done|simpl in Hn; lia|]. apply wp_ret.
  unfold frame_msg in HQ at 1. rewrite Hd in HQ. exact HQ.
Qed.

Lemma wp_fwd_f_release n s L : su_rep s L → (n ≤ length L)%nat →
  wp (fwd_f_release n) s (λ _ s', su_rep s' (drop n L) ∧ su_sock s' = su_sock s).
Proof.
  revert s L. induction n as [|n IH]; intros s L Hr Hn; [by apply wp_ret|].
  destruct L as [|[a f] L]; [simpl in Hn; lia|]. pose proof (sr_NoDup _ _ Hr) as Hnd. destruct Hr as [Hl Hc Hm].
  simpl in Hnd. apply NoDup_cons in Hnd as [Ha Hnd]. cbn [fwd_f_release].
  apply wp_bind, wp_in_frames. eapply wp_hev_list_first; [exact Hl|]. rewrite su_set_list_id. simpl.
  apply wp_bind. eapply wp_frame_load; [rewrite Hm; apply lookup_insert_eq|].
  apply wp_bind, wp_in_frames. eapply wp_mono; [by apply (wp_hev_list_del _ [])|]. intros [] l [n' Hl'].
  apply wp_bind. eapply wp_frame_free; [exact Hl'|exact Hm|done|]. intros l' Hl''. apply wp_bind, wp_modify.
  eapply wp_mono; [apply (IH _ L)|].
  - split; [done| |done]. simpl in *. lia.
  - simpl in Hn. lia.
  - cbn beta. intros [] s' [H1 H2]. by split.
Qed.

(** A frame holds the datagram. *)
Definition frame_holds (x : dest * list Z) (f : HevSocks5UDPFrame) : Prop :=
  (∃ post, fr_addr f = enc_dest x.1 ++ post) ∧ fr_data f = [x.2].

Lemma frames_msgs xs fs : Forall2 frame_holds xs fs →
  Forall (λ f, fr_data f ≠ []) fs ∧ Forall2 (λ x m, ∃ post, m = msg_of x post) xs (frame_msg <$> fs).
Proof.
  induction 1 as [|x f xs fs ((post & Ha) & Hd) HF [IH1 IH2]]; [done|]. split; constructor; try done.
  - by rewrite Hd.
  - exists post. unfold frame_msg, msg_of. by rewrite Ha, Hd.
Qed.

(** The number of frames of a round. *)
Definition round_size (num : Z) (L : list (Z * HevSocks5UDPFrame)) : nat :=
  Z.to_nat (if num <? Z.of_nat (length L) then num else Z.of_nat (length L)).

Lemma wp_fwd_f_start num s L xs :
  su_rep s L → L ≠ [] → 0 < num → Forall2 frame_holds xs L.*2 →
  let n := round_size num L in
  ∀ Q, (∀ ms, Forall2 (λ x m, ∃ post, m = msg_of x post) (take n xs) ms → (0 < n ≤ length L)%nat →
    wp (in_sock (hev_socks5_udp_sendmmsg ms)) s
      (λ res s1, wp (if res <=? 0 then mret (-1) else fwd_f_release (Z.to_nat res);; mret 1) s1 Q)) →
  wp (hev_socks5_session_udp_fwd_f num) s Q.
Proof.
  intros Hr Hne Hnum HF n Q HQ. assert (0 < length L)%nat by (destruct L; [done|simpl; lia]).
  assert (0 < n ≤ length L)%nat as Hn.
  { subst n. unfold round_size. destruct (Z.ltb_spec num (Z.of_nat (length L))); lia. }
  unfold hev_socks5_session_udp_fwd_f. apply wp_bind, wp_gets. rewrite (sr_count _ _ Hr).
  destruct (Z.leb_spec (Z.of_nat (length L)) 0); [lia|].
  apply wp_bind, wp_in_frames. pose proof (sr_list _ _ Hr) as Hl. eapply wp_hev_list_first; [exact Hl|]. rewrite su_set_list_id.
  destruct (frames_msgs _ _ HF) as [HF1 HF2]. apply wp_bind.
  fold (round_size num L). fold n. eapply (wp_fwd_f_msgs n s [] L); [done|apply (sr_mem _ _ Hr)| |lia|].
  { rewrite Forall_fmap in HF1. done. }
  apply wp_bind. apply HQ; [|done]. rewrite !fmap_take. by apply Forall2_take.
Qed.

Lemma sendmmsg_fails xs ms s :
  is_udp (s5_type (us_self s)) → us_send s = false → Forall udp_ok xs →
  Forall2 (λ x m, ∃ post, m = msg_of x post) xs ms → hev_socks5_udp_sendmmsg ms s = Some (-1, s).
Proof.
  intros Ht Hs Hxs HF. unfold hev_socks5_udp_sendmmsg. erewrite stm_bind_run by reflexivity. destruct Ht as [-> | ->].
  - unfold hev_socks5_udp_sendmmsg_tcp. rewrite (udp_frames_spec _ tcp_frame xs) by (done || apply udp_frame_tcp_spec). by rewrite Hs.
  - unfold hev_socks5_udp_sendmmsg_udp. rewrite (udp_frames_spec _ udp_frame xs) by (done || apply udp_frame_udp_spec). by rewrite Hs.
Qed.


(** A session with two datagrams, on the TCP connection. *)
Definition ex_frame1 : HevSocks5UDPFrame := mk_frame (enc_dest (D4 [10; 0; 0; 1] 53) ++ [0; 0]) [[1; 2; 3]].
Definition ex_frame2 : HevSocks5UDPFrame := mk_frame (enc_dest (DName [97; 98] 443) ++ [0; 0]) [[4]].

Definition ex_sudp : HevSocks5SessionUDP :=
  mk_sudp (ex_usock HEV_SOCKS5_TYPE_UDP_IN_TCP [])
    (mk_hlist 64 128 (list_to_map [(64, mk_lnode 128 0); (128, mk_lnode 0 64)]))
    (list_to_map [(64, ex_frame1); (128, ex_frame2)]) 2 [0; 0; 0; 0] 0 true [].

Lemma ex_sudp_rep : su_rep ex_sudp [(64, ex_frame1); (128, ex_frame2)].
Proof.
  split; [|done|done]. split; [|done|done]. split_and!; simpl; [|repeat constructor; done|done].
  apply (bool_decide_unpack _). by vm_compute.
Qed.


(** ** The queue *)

Lemma wp_frame_alloc s L a f :
  su_rep s L → is_ptr a → a ∉ L.*1 →
  wp (frame_alloc a f) s (λ _ s', ∃ n, list_is (su_list s') L.*1 [(a, n)] ∧
    su_frames s' = su_frames s ∧ su_mem s' = <[a := f]> (list_to_map L)).
Proof.
  intros [Hl Hc Hs] Ha Hn. unfold wp, frame_alloc. destruct Hl as [Hh Hhd Htl]. rewrite app_nil_r in Hh.
  assert (hl_mem (su_list s) !! a = None) as Hnone.
  { destruct Hh as (_ & _ & ->). apply not_elem_of_list_to_map_1. by rewrite lseg_fst. }
  rewrite Hnone, Hs, (not_elem_of_list_to_map_1 L a) by done. exists (mk_lnode 0 0). simpl. split_and!; [|done|done].
  split; simpl; [|done|done]. eapply heap_perm; [|apply Permutation_app_comm]. simpl. by apply heap_alloc.
Qed.

(** The frame is put at the end, and counted. *)
Lemma wp_enqueue s L a f n :
  list_is (su_list s) L.*1 [(a, n)] → su_frames s = Z.of_nat (length L) → su_mem s = <[a := f]> (list_to_map L) →
  a ∉ L.*1 →
  wp (modify (λ s, su_set_frames (su_frames s + 1) s);; in_frames (hev_list_add_tail a)) s
    (λ _ s', su_rep s' (L ++ [(a, f)])).
Proof.
  intros Hl Hc Hm Ha. apply wp_bind, wp_modify, wp_in_frames. eapply wp_mono; [by eapply wp_hev_list_add_tail|].
  intros [] l Hl'. split; simpl; [by rewrite fmap_app|rewrite Hc, length_app; simpl; lia|].
  rewrite Hm. symmetry. rewrite list_to_map_middle; [by rewrite app_nil_r|].
  rewrite fmap_app. apply list_is_NoDup in Hl'. done.
Qed.

(** The datagram that a callback brings, as a frame. *)
Definition arrival_frame (p : udp_arrival) (data : list (list Z)) (f : HevSocks5UDPFrame) : Prop :=
  (∃ post, fr_addr f = enc_dest (lwip_dest (ar_ip p) (ar_port p) (ar_name p)) ++ post) ∧ fr_data f = data.

Lemma from_lwip_enc mem ip port name : length mem = sizeof_addr → dest_ok (lwip_dest ip port name) →
  ∃ addr post, hev_socks5_addr_from_lwip mem ip port name = Some addr ∧ addr = enc_dest (lwip_dest ip port name) ++ post.
Proof.
  intros Hm Hd. assert (19 ≤ length mem)%nat as Hl by (rewrite Hm; unfold sizeof_addr; lia).
  destruct ip as [a|a]; [destruct name as [n|]|]; cbn [lwip_dest hev_socks5_addr_from_lwip] in *.
  - destruct (from_name_spec mem n port Hm Hd) as (post & -> & _). by eexists _, post.
  - destruct (from_ipv4_spec mem a port ltac:(lia) Hd) as (post & -> & _). by eexists _, post.
  - rewrite (from_ipv6_spec mem a port Hl Hd). by eexists _, _.
Qed.

Lemma wp_udp_recv s L p data a mem :
  su_rep s L → ar_data p = Some data → ar_block p = Some (a, mem) → length mem = sizeof_addr → is_ptr a → a ∉ L.*1 →
  dest_ok (lwip_dest (ar_ip p) (ar_port p) (ar_name p)) → Z.of_nat (length L) ≤ UDP_POOL_SIZE →
  wp (udp_recv_handler p) s (λ _ s', ∃ f, arrival_frame p data f ∧ su_rep s' (L ++ [(a, f)])).
Proof.
  intros Hr Hd Hb Hmem Ha Hn Hdest Hlen. unfold udp_recv_handler. rewrite Hd. apply wp_bind, wp_gets.
  rewrite (sr_count _ _ Hr). destruct (Z.ltb_spec UDP_POOL_SIZE (Z.of_nat (length L))); [lia|]. rewrite Hb.
  destruct (from_lwip_enc mem _ _ _ Hmem Hdest) as (addr & post & -> & Haddr).
  apply wp_bind. eapply wp_mono; [by apply wp_frame_alloc|]. intros [] s1 (n & Hl & Hc & Hm).
  assert (is_Some (addr !! 0%nat)) as [atype Hat] by (rewrite Haddr; destruct (lwip_dest _ _ _); by eexists).
  rewrite Hat. rewrite (sr_count _ _ Hr) in Hc. apply wp_bind.
  apply (wp_mono _ _ (λ _ s2, su_list s2 = su_list s1 ∧ su_frames s2 = su_frames s1 ∧ su_mem s2 = su_mem s1)).
  { case_match; [|by apply wp_ret]. destruct (ar_ip p); by apply wp_modify. }
  intros [] s2 (E1 & E2 & E3). rewrite <-E1 in Hl. rewrite <-E2 in Hc. rewrite <-E3 in Hm.
  eapply wp_mono; [by eapply wp_enqueue|]. intros [] s3 H3. eexists. split; [|exact H3]. split; [by exists post|done].
Qed.

(** ** The destructor *)

Lemma wp_udp_destruct_loop fuel s prv (L : list (Z * HevSocks5UDPFrame)) :
  heap_is (hl_mem (su_list s)) (lseg prv L.*1 0) → su_mem s = list_to_map L → (length L < fuel)%nat →
  wp (udp_destruct_loop fuel (hd 0 L.*1)) s (λ _ s', su_mem s' = ∅ ∧ hl_mem (su_list s') = ∅).
Proof.
  revert s prv L. induction fuel as [|fuel IH]; intros s prv L Hh Hm Hf; [lia|]. cbn [udp_destruct_loop].
  destruct L as [|[a f] L]; simpl.
  - apply wp_ret. split; [done|]. by destruct Hh as (_ & _ & ->).
  - simpl in Hh. pose proof (heap_ptr _ _ 0 _ _ Hh eq_refl) as Hp.
    destruct (Z.eqb_spec a 0) as [->|_]; [by apply is_ptr_nonzero in Hp|].
    pose proof (heap_notin _ _ _ _ Hh) as Ha. rewrite lseg_fst in Ha.
    apply wp_bind. eapply wp_frame_load; [rewrite Hm; apply lookup_insert_eq|].
    apply wp_bind, wp_in_frames, wp_bind. eapply (wp_ln_load _ _ 0); [exact Hh|done|]. apply wp_ret. simpl.
    rewrite su_set_list_id. apply wp_bind. unfold wp at 1, frame_free.
    rewrite (heap_lookup _ _ 0 _ _ Hh eq_refl), Hm. simpl. rewrite lookup_insert_eq. eapply IH; simpl.
    + eapply heap_free, Hh.
    + apply delete_insert_id. by apply not_elem_of_list_to_map_1.
    + simpl in Hf. lia.
Qed.

(** The queue of a UDP session.  It holds the datagrams lwIP has delivered, in
    order, each with the encoding of its destination, and never more than 513;
    beyond that, and without memory, a datagram is dropped and the session is as
    it was.  The destructor ends, and releases every frame. *)
Theorem session_udp_queue s L :
  su_rep s L → Z.of_nat (length L) ≤ UDP_POOL_SIZE + 1 →
  (∀ p data a mem, ar_data p = Some data → ar_block p = Some (a, mem) → length mem = sizeof_addr →
    is_ptr a → a ∉ L.*1 → dest_ok (lwip_dest (ar_ip p) (ar_port p) (ar_name p)) →
    ∃ s' L', udp_recv_handler p s = Some (tt, s') ∧ su_rep s' L' ∧ Z.of_nat (length L') ≤ UDP_POOL_SIZE + 1 ∧
      if decide (Z.of_nat (length L) ≤ UDP_POOL_SIZE) then ∃ f, arrival_frame p data f ∧ L' = L ++ [(a, f)] else s' = s) ∧
  (∀ p data, ar_data p = Some data → ar_block p = None → udp_recv_handler p s = Some (tt, s)) ∧
  ∃ s', hev_socks5_session_udp_destruct s = Some (tt, s') ∧ su_mem s' = ∅ ∧ hl_mem (su_list s') = ∅ ∧ su_pcb s' = false.
Proof.
  intros Hr Hlen. split_and!.
  - intros p data a mem Hd Hb Hmem Ha Hn Hdest. case_decide as Hpool.
    + destruct (wp_run _ _ _ (wp_udp_recv s L p data a mem Hr Hd Hb Hmem Ha Hn Hdest Hpool)) as ([] & s' & Hrun & f & Hf & Hr').
      exists s', (L ++ [(a, f)]). split_and!; [done|done|rewrite length_app; simpl; lia|eauto].
    + exists s, L. split_and!; [|done|done|done]. unfold udp_recv_handler. rewrite Hd.
      unfold mbind, stm_bind, gets. rewrite (sr_count _ _ Hr). destruct (Z.ltb_spec UDP_POOL_SIZE (Z.of_nat (length L))); [done|lia].
  - intros p data Hd Hb. unfold udp_recv_handler. rewrite Hd, Hb. unfold mbind, stm_bind, gets. by case_match.
  - assert (wp hev_socks5_session_udp_destruct s (λ _ s', su_mem s' = ∅ ∧ hl_mem (su_list s') = ∅ ∧ su_pcb s' = false)) as H.
    { pose proof (sr_NoDup _ _ Hr) as Hnd. destruct Hr as [Hl Hc Hm]. apply wp_bind, wp_in_frames.
      eapply wp_hev_list_first; [exact Hl|]. rewrite su_set_list_id. apply wp_bind, wp_gets.
      rewrite Hm, size_list_to_map by done. apply wp_bind. destruct Hl as [Hh _ _]. rewrite app_nil_r in Hh.
      eapply wp_mono; [eapply wp_udp_destruct_loop; [exact Hh|done|lia]|]. intros [] s' [H1 H2]. by apply wp_modify. }
    apply wp_run in H as ([] & s' & Hrun & H1 & H2 & H3). eauto.
Qed.

Definition ex_arrival : udp_arrival :=
  mk_arrival (Some [[7; 8]]) (IPADDR_TYPE_V4 [10; 0; 0; 9]) 53 None (Some (192, replicate 260 0)).

Lemma session_udp_queue_witness :
  ∃ s' L', udp_recv_handler ex_arrival ex_sudp = Some (tt, s') ∧ su_rep s' L' ∧ Z.of_nat (length L') ≤ UDP_POOL_SIZE + 1 ∧
    if decide (2 ≤ UDP_POOL_SIZE) then
      ∃ f, arrival_frame ex_arrival [[7; 8]] f ∧ L' = [(64, ex_frame1); (128, ex_frame2)] ++ [(192, f)] else s' = ex_sudp.
Proof.
  assert (Z.of_nat (length [(64, ex_frame1); (128, ex_frame2)]) ≤ UDP_POOL_SIZE + 1) as Hlen by (vm_compute; discriminate).
  refine (proj1 (session_udp_queue ex_sudp [(64, ex_frame1); (128, ex_frame2)] ex_sudp_rep Hlen)
    ex_arrival [[7; 8]] 192 (replicate 260 0) _ _ _ _ _ _); try reflexivity.
  - split; [split; vm_compute; done|done].
  - apply (bool_decide_unpack _). by vm_compute.
  - split; [by vm_compute|]. split; [reflexivity|]. repeat constructor; by vm_compute.
Defined.

(** A datagram that lwIP has put together from fragments is a chain; only its
    first buffer is sent. *)
Theorem session_udp_fragments :
  ∃ s', hev_socks5_session_udp_fwd_f 1 (su_set_mem (list_to_map
      [(64, mk_frame (enc_dest (D4 [10; 0; 0; 1] 53)) [[1; 2]; [3; 4]]); (128, ex_frame2)]) ex_sudp) = Some (1, s') ∧
    us_out (su_sock s') = tcp_frame (D4 [10; 0; 0; 1] 53, [1; 2]).
Proof. eexists. split; vm_compute; reflexivity. Qed.
