(* ===== verification/MappedDNSConnect.v ===== *)
(** * From a name to a connection

    The mapped DNS server answers a query with an address of its own network
    ([dns_recv_handler], src/hev-socks5-tunnel.c); when a program of the phone then
    connects to that address, the session asks the mapped DNS for the name
    ([hev_socks5_addr_from_lwip], src/misc/hev-utils.c) and the SOCKS5 server is
    asked for the name.  This is the composition of the parts. *)

From S2P Require Import Prelude HevList RBTree CString MappedDNS MappedDNSCache MappedDNSPacket MappedDNSSafe MappedDNSAnswer MappedDNSLife MappedDNSProps SocksAddr SocksAddrProps SocksClient SocksHandshake Session RingBuffer SessionTCP.

Section handler.
Context `{DnsAlloc}.

(** [b] is the payload of the buffer for the response, [None] when there is none;
    [p] the memory of the payload of the query and [len] its length.  The result
    is the datagram that is sent, if any; the buffers and the connection are
    released in every case. *)
Definition dns_recv_handler (b : option (list Z)) (p : list Z) (len : Z) (dns : HevMappedDNS) :
    option (option (list Z) * HevMappedDNS) :=
  match b with
  | None => Some (None, dns)
  | Some b =>
      '(res, s) ← hev_mapped_dns_handle len (Z.of_nat (length b)) (mk_io dns p b);
      Some (if res <? 0 then None else Some (take (Z.to_nat res) (io_res s)), io_dns s)
  end.
End handler.

(** [ntohl] of an address in memory. *)
Definition ntohl (a : list Z) : Z :=
  match a with [a0; a1; a2; a3] => a0 * 2 ^ 24 + a1 * 2 ^ 16 + a2 * 2 ^ 8 + a3 | _ => 0 end.

(** The call of the mapped DNS in [hev_socks5_addr_from_lwip]; its argument is an
    [int]. *)
Definition lwip_lookup (dns : bool) (a : list Z) : stm HevMappedDNS (option (list Z)) :=
  if dns then hev_mapped_dns_lookup (s32 (ntohl a)) else mret None.

(** ** Addresses as integers and as bytes *)

Definition ip_bytes (ip : Z) : list Z := [u8 (Z.shiftr ip 24); u8 (Z.shiftr ip 16); u8 (Z.shiftr ip 8); u8 ip].

Lemma ip_bytes_back ip : is_s32 ip → s32 (ntohl (ip_bytes ip)) = ip.
Proof.
  intros H. unfold ntohl, ip_bytes, u8, s32, is_s32 in *. rewrite !Z.shiftr_div_pow2 by lia.
  change (2 ^ 24) with 16777216. change (2 ^ 16) with 65536. change (2 ^ 8) with 256. change (2 ^ 31) with 2147483648 in *.
  change (2 ^ 32) with 4294967296. Z.div_mod_to_equations. lia.
Qed.

Lemma is_s32_shift z : is_s32 z ↔ Z.shiftr z 31 = 0 ∨ Z.shiftr z 31 = -1.
Proof.
  unfold is_s32. rewrite Z.shiftr_div_pow2 by lia. change (2 ^ 31) with 2147483648.
  split; intros H; [|destruct H]; Z.div_mod_to_equations; lia.
Qed.

Lemma is_s32_lor a b : is_s32 a → is_s32 b → is_s32 (Z.lor a b).
Proof. rewrite !is_s32_shift, Z.shiftr_lor. by intros [-> | ->] [-> | ->]; [left|right..]. Qed.


#[local] Existing Instance bump_alloc.
#[local] Existing Instance bump_alloc_laws.

