(* ===== verification/TaskIO.v ===== *)
(** * Socket operations of the task system

    third-part/hev-task-system/src/lib/io: basic/hev-task-io.c (reading, writing)
    and socket/hev-task-io-socket.c.  Descriptors do not block: a call that
    cannot go on fails with [EAGAIN], the task waits and calls again.

    What the kernel does is a script, one answer for each system call, with what
    the yielder returns if the task has to wait after it.  The loops go along the
    script; [None] is a task that still waits when the script is used up.  A
    stream socket moves at most as many bytes as the answer says, from its input
    to memory or from memory to its output. *)

From S2P Require Import Prelude CString RingBuffer.

Definition s64 (z : Z) : Z := (z + 2 ^ 63) mod 2 ^ 64 - 2 ^ 63.

Definition EAGAIN : Z := 11.
Definition EISCONN : Z := 106.
Definition EALREADY : Z := 114.
Definition EINPROGRESS : Z := 115.
Definition MSG_DONTWAIT : Z := 64.
Definition MSG_WAITALL : Z := 256.

(** ** The kernel *)

Inductive kanswer :=
  | KOk (n : nat)         (* moves up to [n] bytes or messages; a descriptor *)
  | KFail (errno : Z).

Record kstep := mk_kstep {
  k_answer : kanswer;
  k_stop : bool;          (* the yielder returns a value other than zero *)
}.

Definition script : Type := list kstep.

Record kernel := mk_kernel {
  k_mem : list Z;         (* the memory of the task *)
  k_in : list Z;          (* received and not read; the end of the stream is at its end *)
  k_out : list Z;         (* taken from the task *)
}.

(** A system call: its result, [errno], and the kernel after it. *)
Definition kcall (W : Type) : Type := kanswer → W → Z * Z * W.

(** What an operation of the library does along a script. *)
Definition kop (W : Type) : Type := script → W → option (Z * script * W).

(** [recv] and [read] of [len] bytes to [buf]. *)
Definition sys_recv (buf len : Z) : kcall kernel := λ a w,
  match a with
  | KFail e => (-1, e, w)
  | KOk n =>
      let bs := take (n `min` Z.to_nat len) (k_in w) in
      (Z.of_nat (length bs), 0,
       mk_kernel (list_inserts (Z.to_nat buf) bs (k_mem w)) (drop (length bs) (k_in w)) (k_out w))
  end.

(** [send] and [write]. *)
Definition sys_send (buf len : Z) : kcall kernel := λ a w,
  match a with
  | KFail e => (-1, e, w)
  | KOk n =>
      let bs := take (n `min` Z.to_nat len) (drop (Z.to_nat buf) (k_mem w)) in
      (Z.of_nat (length bs), 0, mk_kernel (k_mem w) (k_in w) (k_out w ++ bs))
  end.

(** [recvmsg] and [readv]: the vector is filled in order. *)
Definition sys_recvmsg (v : list iovec) : kcall kernel := λ a w,
  match a with
  | KFail e => (-1, e, w)
  | KOk n =>
      let bs := take (n `min` Z.to_nat (iov_total v)) (k_in w) in
      (Z.of_nat (length bs), 0,
       mk_kernel (iov_scatter (k_mem w) v bs) (drop (length bs) (k_in w)) (k_out w))
  end.

Definition sys_sendmsg (v : list iovec) : kcall kernel := λ a w,
  match a with
  | KFail e => (-1, e, w)
  | KOk n =>
      let bs := take (n `min` Z.to_nat (iov_total v)) (iov_gather (k_mem w) v) in
      (Z.of_nat (length bs), 0, mk_kernel (k_mem w) (k_in w) (k_out w ++ bs))
  end.

(** A datagram socket: [mk_mkernel vec inp out] with the messages of the vector, each
    with the room it has, the datagrams that have arrived and those sent. *)
Record mkernel := mk_mkernel {
  m_vec : list (nat * list Z);
  m_in : list (list Z);
  m_out : list (list Z);
}.

(** A datagram that does not fit is cut. *)
Definition slot_fill (x : nat * list Z) (d : list Z) : nat * list Z := (x.1, take x.1 d).

Definition sys_recvmmsg (c n : Z) : kcall mkernel := λ a w,
  match a with
  | KFail e => (-1, e, w)
  | KOk k =>
      let ds := take (k `min` Z.to_nat n) (m_in w) in
      (Z.of_nat (length ds), 0,
       mk_mkernel (list_inserts (Z.to_nat c) (zip_with slot_fill (drop (Z.to_nat c) (m_vec w)) ds) (m_vec w))
         (drop (length ds) (m_in w)) (m_out w))
  end.

Definition sys_sendmmsg (c n : Z) : kcall mkernel := λ a w,
  match a with
  | KFail e => (-1, e, w)
  | KOk k =>
      let ds := take (k `min` Z.to_nat n) (drop (Z.to_nat c) (m_vec w)).*2 in
      (Z.of_nat (length ds), 0, mk_mkernel (m_vec w) (m_in w) (m_out w ++ ds))
  end.

(** A call that returns a number: [connect] (zero), [accept4]. *)
Definition sys_number {W} : kcall W := λ a w,
  match a with KFail e => (-1, e, w) | KOk n => (Z.of_nat n, 0, w) end.

(** ** Reading and writing: lib/io/basic/hev-task-io.c

    [hev_task_io_read], [hev_task_io_readv], [hev_task_io_write] and
    [hev_task_io_writev] are the same loop around their system call; [yielder]
    tells whether there is one. *)

Fixpoint io_retry {W} (call : kcall W) (yielder : bool) (sc : script) (w : W) : option (Z * script * W) :=
  match sc with
  | [] => None
  | k :: sc =>
      let '(s, errno, w) := call (k_answer k) w in
      if (s <? 0) && (errno =? EAGAIN) then
        if yielder && k_stop k then Some (-2, sc, w) else io_retry call yielder sc w
      else Some (s, sc, w)
  end.

Definition hev_task_io_read (buf count : Z) (yielder : bool) : kop kernel :=
  io_retry (sys_recv buf count) yielder.
Definition hev_task_io_readv (iov : list iovec) (yielder : bool) : kop kernel :=
  io_retry (sys_recvmsg iov) yielder.
Definition hev_task_io_write (buf count : Z) (yielder : bool) : kop kernel :=
  io_retry (sys_send buf count) yielder.
Definition hev_task_io_writev (iov : list iovec) (yielder : bool) : kop kernel :=
  io_retry (sys_sendmsg iov) yielder.

(** ** Sockets: lib/io/socket/hev-task-io-socket.c *)

Fixpoint hev_task_io_socket_connect {W} (yielder : bool) (sc : script) (w : W) : option (Z * script * W) :=
  match sc with
  | [] => None
  | k :: sc =>
      let '(res, errno, w) := sys_number (k_answer k) w in
      if res <? 0 then
        if (errno =? EINPROGRESS) || (errno =? EALREADY) then
          if yielder && k_stop k then Some (-2, sc, w) else hev_task_io_socket_connect yielder sc w
        else if errno =? EISCONN then Some (0, sc, w)
        else Some (res, sc, w)
      else Some (res, sc, w)
  end.

(** With [SOCK_NONBLOCK]. *)
Definition hev_task_io_socket_accept {W} (yielder : bool) : kop W :=
  io_retry sys_number yielder.

(** The loop of [hev_task_io_socket_recv], [hev_task_io_socket_send],
    [hev_task_io_socket_recvfrom] and [hev_task_io_socket_sendto]; [call size n] is
    the system call at offset [size] with [n] bytes, and the flags without
    [MSG_WAITALL]. *)
Fixpoint socket_retry {W} (call : Z → Z → kcall W) (len flags : Z) (yielder : bool) (size : Z) (sc : script) (w : W) :
    option (Z * script * W) :=
  match sc with
  | [] => None
  | k :: sc =>
      let '(s, errno, w) := call size (u64 (len - size)) (k_answer k) w in
      if (s <? 0) && (errno =? EAGAIN) && (Z.land flags MSG_DONTWAIT =? 0) then
        if yielder && k_stop k then Some (if size =? 0 then -2 else s64 size, sc, w)
        else socket_retry call len flags yielder size sc w
      else if Z.land flags MSG_WAITALL =? 0 then Some (s, sc, w)
      else if s <=? 0 then Some (if size =? 0 then s else s64 size, sc, w)
      else
        let size := u64 (size + s) in
        if size <? len then socket_retry call len flags yielder size sc w else Some (s64 size, sc, w)
  end.

Definition hev_task_io_socket_recv (buf len flags : Z) (yielder : bool) : kop kernel :=
  socket_retry (λ size n, sys_recv (buf + size) n) len flags yielder 0.

Definition hev_task_io_socket_send (buf len flags : Z) (yielder : bool) : kop kernel :=
  socket_retry (λ size n, sys_send (buf + size) n) len flags yielder 0.

(** The address is an argument of the system calls only. *)
Definition hev_task_io_socket_recvfrom {W} (call : Z → Z → kcall W) (buf len flags : Z) (yielder : bool) :
    kop W :=
  socket_retry (λ size n, call (buf + size) n) len flags yielder 0.

Definition hev_task_io_socket_sendto {W} (call : Z → Z → kcall W) (buf len flags : Z) (yielder : bool) :
    kop W :=
  socket_retry (λ size n, call (buf + size) n) len flags yielder 0.

(** The loop over [mh.msg_iov] with the two assignments after it: the vector
    without its first [s] bytes. *)
Fixpoint iov_advance (s : Z) (v : list iovec) : list iovec :=
  match v with
  | [] => []
  | x :: v' =>
      if u64 s <? iov_len x then mk_iov (iov_base x + s) (u64 (iov_len x - s)) :: v'
      else iov_advance (s64 (s - iov_len x)) v'
  end.

Fixpoint msg_retry {W} (call : list iovec → kcall W) (len flags : Z) (yielder : bool) (iov : list iovec) (size : Z)
    (sc : script) (w : W) : option (Z * script * W) :=
  match sc with
  | [] => None
  | k :: sc =>
      let '(s, errno, w) := call iov (k_answer k) w in
      if (s <? 0) && (errno =? EAGAIN) && (Z.land flags MSG_DONTWAIT =? 0) then
        if yielder && k_stop k then Some (if size =? 0 then -2 else s64 size, sc, w)
        else msg_retry call len flags yielder iov size sc w
      else if Z.land flags MSG_WAITALL =? 0 then Some (s, sc, w)
      else if s <=? 0 then Some (if size =? 0 then s else s64 size, sc, w)
      else
        let size := u64 (size + s) in
        if size <? len then msg_retry call len flags yielder (iov_advance s iov) size sc w
        else Some (s64 size, sc, w)
  end.

(** The sum of the lengths, in a [size_t]. *)
Definition msg_len (iov : list iovec) : Z := foldl (λ len x, u64 (len + iov_len x)) 0 iov.

Definition hev_task_io_socket_recvmsg (iov : list iovec) (flags : Z) (yielder : bool) : kop kernel :=
  msg_retry sys_recvmsg (msg_len iov) flags yielder iov 0.

Definition hev_task_io_socket_sendmsg (iov : list iovec) (flags : Z) (yielder : bool) : kop kernel :=
  msg_retry sys_sendmsg (msg_len iov) flags yielder iov 0.

(** [hev_task_io_socket_recvmmsg] and [hev_task_io_socket_sendmmsg] with
    [MSG_WAITFORONE] are one loop: [call c n] is the system call on the [n] messages from
    [msgv[c]]; [c] is an [int], [n] an [unsigned int], the comparison unsigned. *)
Fixpoint mmsg_retry {W} (call : Z → Z → kcall W) (n flags : Z) (yielder : bool) (c : Z) (sc : script) (w : W) :
    option (Z * script * W) :=
  match sc with
  | [] => None
  | k :: sc =>
      let '(r, errno, w) := call c (u32 (n - c)) (k_answer k) w in
      if (r <? 0) && (errno =? EAGAIN) && (Z.land flags MSG_DONTWAIT =? 0) then
        if yielder && k_stop k then Some (if c =? 0 then -2 else c, sc, w)
        else mmsg_retry call n flags yielder c sc w
      else if Z.land flags MSG_WAITALL =? 0 then Some (r, sc, w)
      else if r <=? 0 then Some (if c =? 0 then r else c, sc, w)
      else
        let c := s32 (c + r) in
        if u32 c <? n then mmsg_retry call n flags yielder c sc w else Some (c, sc, w)
  end.

Definition hev_task_io_socket_recvmmsg (n flags : Z) (yielder : bool) : kop mkernel :=
  mmsg_retry sys_recvmmsg n flags yielder 0.

Definition hev_task_io_socket_sendmmsg (n flags : Z) (yielder : bool) : kop mkernel :=
  mmsg_retry sys_sendmmsg n flags yielder 0.
