(* ===== verification/TaskIOProps.v ===== *)
(** * Socket operations: what they transfer

    With [MSG_WAITALL] the operations move everything, in order, however the
    kernel splits it; otherwise what has been moved is a prefix and the result its
    length.  The operations on vectors agree with those on one buffer. *)

From S2P Require Import Prelude CString RingBuffer TaskIO.

(** The steps after which a loop goes on: bytes were moved, or the task waited. *)
Definition step_goes (k : kstep) : Prop :=
  match k_answer k with KOk n => (0 < n)%nat | KFail e => e = EAGAIN ∧ k_stop k = false end.

Definition cooperative (sc : script) : Prop := Forall step_goes sc.

Definition step_moves (k : kstep) : bool := match k_answer k with KOk _ => true | KFail _ => false end.

(** The number of calls in a script that move something. *)
Definition moves (sc : script) : nat := sum_list ((λ k, if step_moves k then 1%nat else 0%nat) <$> sc).

Lemma moves_cons k sc : moves (k :: sc) = ((if step_moves k then 1 else 0) + moves sc)%nat.
Proof. done. Qed.

Lemma s64_small z : - 2 ^ 63 ≤ z < 2 ^ 63 → s64 z = z.
Proof. intros H. unfold s64. rewrite Z.mod_small; lia. Qed.

(** ** The number of bytes

    [transfer] is what all the loops do, on numbers alone: [j] of [len] bytes (or
    messages) have been moved, of which [avail] can be moved in all.  A failure that
    is not waited out, and the end of the stream, give what was moved before. *)

Fixpoint transfer (len avail : nat) (flags : Z) (yielder : bool) (j : nat) (sc : script) : option (Z * script * nat) :=
  match sc with
  | [] => None
  | k :: sc =>
      match k_answer k with
      | KFail e =>
          if (e =? EAGAIN) && (Z.land flags MSG_DONTWAIT =? 0) then
            if yielder && k_stop k then Some (if decide (j = 0%nat) then -2 else Z.of_nat j, sc, j)
            else transfer len avail flags yielder j sc
          else if (Z.land flags MSG_WAITALL =? 0) || bool_decide (j = 0%nat) then Some (-1, sc, j)
          else Some (Z.of_nat j, sc, j)
      | KOk n =>
          let m := (n `min` (len - j) `min` (avail - j))%nat in
          if Z.land flags MSG_WAITALL =? 0 then Some (Z.of_nat m, sc, (j + m)%nat)
          else if decide (m = 0%nat) then Some (Z.of_nat j, sc, j)
          else if decide (j + m < len)%nat then transfer len avail flags yielder (j + m) sc
          else Some (Z.of_nat (j + m), sc, (j + m)%nat)
      end
  end.

(** The result is the number of bytes moved, unless there are none. *)
Lemma transfer_prefix len avail flags yielder j sc r sc' k :
  Z.land flags MSG_WAITALL ≠ 0 ∨ j = 0%nat → (j ≤ len)%nat → (j ≤ avail)%nat →
  transfer len avail flags yielder j sc = Some (r, sc', k) →
  (j ≤ k ≤ len)%nat ∧ (k ≤ avail)%nat ∧ (r = Z.of_nat k ∨ k = 0%nat ∧ r < 0).
Proof.
  revert j. induction sc as [|s sc IH]; intros j Hf Hj Ha; simpl; [done|]. destruct (k_answer s) as [n|e].
  - set (m := (n `min` (len - j) `min` (avail - j))%nat).
    destruct (Z.eqb_spec (Z.land flags MSG_WAITALL) 0) as [Hz|Hz]; [intros; simplify_eq; naive_solver lia|].
    case_decide; [intros; simplify_eq; lia|].
    case_decide; [|intros; simplify_eq; lia]. intros H'. apply IH in H'; auto with lia.
  - destruct (_ && _); [destruct (_ && _)|]; intros H'.
    + case_decide; simplify_eq; lia.
    + apply IH in H'; auto with lia.
    + destruct (Z.eqb_spec (Z.land flags MSG_WAITALL) 0) as [Hz|Hz]; simpl in H'; [simplify_eq; naive_solver lia|].
      case_bool_decide; simplify_eq; lia.
Qed.

(** With a kernel that goes on, everything is moved. *)
Lemma transfer_all len avail flags yielder j sc :
  Z.land flags MSG_WAITALL ≠ 0 → Z.land flags MSG_DONTWAIT = 0 → (j < len ≤ avail)%nat →
  cooperative sc → (len - j ≤ moves sc)%nat →
  ∃ sc', transfer len avail flags yielder j sc = Some (Z.of_nat len, sc', len) ∧
    suffix sc' sc ∧ (moves sc ≤ (len - j) + moves sc')%nat.
Proof.
  intros Hf%Z.eqb_neq Hd. revert j. induction sc as [|k sc IH]; intros j Hj Hc Hm; [unfold moves in Hm; simpl in Hm; lia|].
  inversion_clear Hc as [|? ? Hk Hc']. rewrite moves_cons in *. unfold step_goes, step_moves in *. simpl. rewrite Hf, Hd.
  destruct (k_answer k) as [n|e].
  - set (m := (n `min` (len - j) `min` (avail - j))%nat). rewrite decide_False by lia. case_decide.
    + destruct (IH (j + m)%nat) as (sc' & -> & Hs & Hl); [lia|done|lia|]. exists sc'.
      split_and!; [done|by apply suffix_cons_r|lia].
    + exists sc. replace (j + m)%nat with len by lia. split_and!; [done|by apply suffix_cons_r|lia].
  - destruct Hk as [-> ->]. simpl. rewrite andb_false_r.
    destruct (IH j) as (sc' & -> & Hs & Hl); [lia|done|lia|]. exists sc'.
    split_and!; [done|by apply suffix_cons_r|lia].
Qed.

(** Where the loop moved [k] bytes and the kernel is [at_ k]. *)
Definition moved {W} (at_ : nat → W) (x : Z * script * nat) : Z * script * W := (x.1, at_ x.2).

(** ** The loops are [transfer] *)

(** From the kernel [at_ j] the call moves the next bytes. *)
Record moves_at {W} (call : kcall W) (len avail : nat) (at_ : nat → W) (j : nat) : Prop := {
  ma_fail e : call (KFail e) (at_ j) = (-1, e, at_ j);
  ma_ok n : call (KOk n) (at_ j) =
    let m := (n `min` (len - j) `min` (avail - j))%nat in (Z.of_nat m, 0, at_ (j + m)%nat);
}.

Lemma result_size (j : nat) d : Z.of_nat j < 2 ^ 63 →
  (if Z.of_nat j =? 0 then d else s64 (Z.of_nat j)) = if decide (j = 0%nat) then d else Z.of_nat j.
Proof.
  intros H. case_decide as Hj; [by subst|]. rewrite (proj2 (Z.eqb_neq _ _)) by lia. apply s64_small. lia.
Qed.

Section loops.
Context {W : Type} (len avail : nat) (flags : Z) (yielder : bool) (at_ : nat → W).
Context (Hlen : Z.of_nat len < 2 ^ 63).

Lemma socket_retry_transfer (call : Z → Z → kcall W) sc (j : nat) :
  (∀ i, (i ≤ len)%nat → (i ≤ avail)%nat → moves_at (call (Z.of_nat i) (Z.of_nat (len - i))) len avail at_ i) →
  (j ≤ len)%nat → (j ≤ avail)%nat →
  socket_retry call (Z.of_nat len) flags yielder (Z.of_nat j) sc (at_ j) =
    moved at_ <$> transfer len avail flags yielder j sc.
Proof using Hlen.
  intros Hmv. revert j. induction sc as [|k sc IH]; intros j Hj Ha; [done|].
  cbn [socket_retry transfer]. rewrite u64_small by lia.
  replace (Z.of_nat len - Z.of_nat j) with (Z.of_nat (len - j)) by lia.
  destruct (k_answer k) as [n|e].
  - pose proof (ma_ok _ _ _ _ _ (Hmv j Hj Ha) n) as ->. cbn beta iota zeta.
    set (m := (n `min` (len - j) `min` (avail - j))%nat). rewrite (proj2 (Z.ltb_ge (Z.of_nat m) 0)) by lia. cbn [andb].
    destruct (Z.land flags MSG_WAITALL =? 0); [done|]. case_decide as Hm.
    + rewrite Hm. replace (j + 0)%nat with j by lia. simpl. rewrite result_size by lia. unfold moved. simpl.
      by case_decide; subst.
    + rewrite (proj2 (Z.leb_gt (Z.of_nat m) 0)) by lia. rewrite u64_small by lia. rewrite <-Nat2Z.inj_add.
      case_decide; [rewrite (proj2 (Z.ltb_lt _ _)) by lia|rewrite (proj2 (Z.ltb_ge _ _)) by lia].
      * rewrite IH by lia. done.
      * by rewrite s64_small by lia.
  - pose proof (ma_fail _ _ _ _ _ (Hmv j Hj Ha) e) as ->. simpl. destruct (_ && _).
    + destruct (_ && _); [|by rewrite IH by lia]. by rewrite result_size by lia.
    + destruct (Z.land flags MSG_WAITALL =? 0); [done|]. rewrite result_size by lia. simpl. case_bool_decide; case_decide; done.
Qed.

(** [at_vec j v]: [v] is the vector when [j] bytes were moved. *)
Lemma msg_retry_transfer (call : list iovec → kcall W) (at_vec : nat → list iovec → Prop) sc (j : nat) v :
  (∀ i v, at_vec i v → (i ≤ len)%nat → (i ≤ avail)%nat → moves_at (call v) len avail at_ i) →
  (∀ i v m, at_vec i v → (i + m < len)%nat → at_vec (i + m)%nat (iov_advance (Z.of_nat m) v)) →
  at_vec j v → (j ≤ len)%nat → (j ≤ avail)%nat →
  msg_retry call (Z.of_nat len) flags yielder v (Z.of_nat j) sc (at_ j) =
    moved at_ <$> transfer len avail flags yielder j sc.
Proof using Hlen.
  intros Hmv Hadv. revert j v. induction sc as [|k sc IH]; intros j v Hv Hj Ha; [done|].
  cbn [msg_retry transfer]. destruct (k_answer k) as [n|e].
  - pose proof (ma_ok _ _ _ _ _ (Hmv j v Hv Hj Ha) n) as ->. cbn beta iota zeta.
    set (m := (n `min` (len - j) `min` (avail - j))%nat). rewrite (proj2 (Z.ltb_ge (Z.of_nat m) 0)) by lia. cbn [andb].
    destruct (Z.land flags MSG_WAITALL =? 0); [done|]. case_decide as Hm.
    + rewrite Hm. replace (j + 0)%nat with j by lia. simpl. rewrite result_size by lia. unfold moved. simpl.
      by case_decide; subst.
    + rewrite (proj2 (Z.leb_gt (Z.of_nat m) 0)) by lia. rewrite u64_small by lia. rewrite <-Nat2Z.inj_add.
      case_decide; [rewrite (proj2 (Z.ltb_lt _ _)) by lia|rewrite (proj2 (Z.ltb_ge _ _)) by lia].
      * rewrite IH by (auto with lia). done.
      * by rewrite s64_small by lia.
  - pose proof (ma_fail _ _ _ _ _ (Hmv j v Hv Hj Ha) e) as ->. simpl. destruct (_ && _).
    + destruct (_ && _); [|by rewrite IH by (auto with lia)]. by rewrite result_size by lia.
    + destruct (Z.land flags MSG_WAITALL =? 0); [done|]. rewrite result_size by lia. simpl. case_bool_decide; case_decide; done.
Qed.

Lemma mmsg_retry_transfer (call : Z → Z → kcall W) sc (j : nat) :
  Z.of_nat len < 2 ^ 31 →
  (∀ i, (i ≤ len)%nat → (i ≤ avail)%nat → moves_at (call (Z.of_nat i) (Z.of_nat (len - i))) len avail at_ i) →
  (j ≤ len)%nat → (j ≤ avail)%nat →
  mmsg_retry call (Z.of_nat len) flags yielder (Z.of_nat j) sc (at_ j) =
    moved at_ <$> transfer len avail flags yielder j sc.
Proof using Hlen.
  intros Hl Hmv. revert j. induction sc as [|k sc IH]; intros j Hj Ha; [done|].
  cbn [mmsg_retry transfer]. rewrite u32_small by lia.
  replace (Z.of_nat len - Z.of_nat j) with (Z.of_nat (len - j)) by lia.
  assert (∀ d, (if Z.of_nat j =? 0 then d else Z.of_nat j) = if decide (j = 0%nat) then d else Z.of_nat j) as Hres.
  { intros d. case_decide as Hz; [by subst|]. by rewrite (proj2 (Z.eqb_neq _ _)) by lia. }
  destruct (k_answer k) as [n|e].
  - pose proof (ma_ok _ _ _ _ _ (Hmv j Hj Ha) n) as ->. cbn beta iota zeta.
    set (m := (n `min` (len - j) `min` (avail - j))%nat). rewrite (proj2 (Z.ltb_ge (Z.of_nat m) 0)) by lia. cbn [andb].
    destruct (Z.land flags MSG_WAITALL =? 0); [done|]. destruct (decide (m = 0%nat)) as [Hm|Hm].
    + rewrite Hm. replace (j + 0)%nat with j by lia. change (Z.of_nat 0 <=? 0) with true. cbn iota.
      rewrite Hres. unfold moved. simpl. by destruct (decide (j = 0%nat)); subst.
    + rewrite (proj2 (Z.leb_gt (Z.of_nat m) 0)) by lia. rewrite <-Nat2Z.inj_add.
      assert (s32 (Z.of_nat (j + m)) = Z.of_nat (j + m)) as -> by (unfold s32; rewrite Z.mod_small; lia).
      rewrite u32_small by lia.
      destruct (decide (j + m < len)%nat);
        [rewrite (proj2 (Z.ltb_lt _ _)) by lia|rewrite (proj2 (Z.ltb_ge _ _)) by lia; done].
      by rewrite IH by lia.
  - pose proof (ma_fail _ _ _ _ _ (Hmv j Hj Ha) e) as ->. simpl. destruct (_ && _).
    + destruct (_ && _); [|by rewrite IH by lia]. by rewrite Hres.
    + destruct (Z.land flags MSG_WAITALL =? 0); [done|]. rewrite Hres. simpl. case_bool_decide; destruct (decide (j = 0%nat)); done.
Qed.
End loops.

(** ** One buffer *)

(** The [len] bytes of the memory that start at [buf]. *)
Definition buf_bytes (buf : Z) (len : nat) (w : kernel) : list Z := take len (drop (Z.to_nat buf) (k_mem w)).

Record buf_ok (buf : Z) (len : nat) (w : kernel) : Prop := {
  bo_buf : 0 ≤ buf;
  bo_len : Z.of_nat len < 2 ^ 63;
  bo_mem : buf + Z.of_nat len ≤ Z.of_nat (length (k_mem w));
}.

Lemma length_buf_bytes buf len w : buf_ok buf len w → length (buf_bytes buf len w) = len.
Proof. intros [? ? ?]. unfold buf_bytes. rewrite length_take, length_drop. lia. Qed.

(** The kernel after the first [k] bytes of [bs] were sent; after the first [k]
    bytes of the stream were received to [buf]. *)
Definition sent_of (w : kernel) (bs : list Z) (k : nat) : kernel :=
  mk_kernel (k_mem w) (k_in w) (k_out w ++ take k bs).
Definition received (buf : Z) (w : kernel) (k : nat) : kernel :=
  mk_kernel (list_inserts (Z.to_nat buf) (take k (k_in w)) (k_mem w)) (drop k (k_in w)) (k_out w).

Lemma take_min {A} n (l : list A) : take n l = take (n `min` length l) l.
Proof. destruct (decide (n ≤ length l)%nat); [f_equal; lia|]. rewrite !take_ge; done || lia. Qed.

Lemma sent_of_start w bs : sent_of w bs 0 = w.
Proof. unfold sent_of. rewrite app_nil_r. by destruct w. Qed.
Lemma received_start buf w : received buf w 0 = w.
Proof. by destruct w. Qed.

(** Sending the bytes that are left of [bs]. *)
Lemma sent_of_step w bs (j m : nat) :
  mk_kernel (k_mem w) (k_in w) ((k_out w ++ take j bs) ++ take m (drop j bs)) = sent_of w bs (j + m).
Proof. unfold sent_of. by rewrite <-app_assoc, take_take_drop. Qed.

Lemma sys_send_moves buf len w j :
  buf_ok buf len w → (j ≤ len)%nat →
  moves_at (sys_send (buf + Z.of_nat j) (Z.of_nat (len - j))) len len (sent_of w (buf_bytes buf len w)) j.
Proof.
  intros Hok Hj. pose proof (length_buf_bytes _ _ _ Hok) as Hl. destruct Hok as [Hb Hlen Hm]. split; [done|].
  intros n. unfold sys_send. cbn [k_mem k_in k_out sent_of]. rewrite Nat2Z.id.
  assert (take (n `min` (len - j)) (drop (Z.to_nat (buf + Z.of_nat j)) (k_mem w)) =
    take (n `min` (len - j) `min` (len - j)) (drop j (buf_bytes buf len w))) as ->.
  { unfold buf_bytes. replace (Z.to_nat (buf + Z.of_nat j)) with (Z.to_nat buf + j)%nat by lia.
    rewrite <-drop_drop, !take_drop_commute, take_take. do 3 f_equal. lia. }
  rewrite length_take, length_drop, Hl, sent_of_step. cbn zeta. set (m := (n `min` (len - j) `min` (len - j))%nat).
  by replace (m `min` (len - j))%nat with m by lia.
Qed.

Lemma sys_recv_moves buf len w j :
  buf_ok buf len w → (j ≤ len)%nat → (j ≤ length (k_in w))%nat →
  moves_at (sys_recv (buf + Z.of_nat j) (Z.of_nat (len - j))) len (length (k_in w)) (received buf w) j.
Proof.
  intros [Hb Hlen Hm] Hj Hin. split; [done|].
  intros n. unfold sys_recv, received. cbn [k_mem k_in k_out]. rewrite Nat2Z.id, take_min, length_take, length_drop.
  cbn zeta. set (m := (n `min` (len - j) `min` (length (k_in w) - j))%nat).
  replace (m `min` _)%nat with m by lia.
  rewrite drop_drop, <-take_take_drop, list_inserts_app_l, length_take. repeat f_equal. lia.
Qed.

(** ** Vectors *)

Definition iov_ok (mem : list Z) (x : iovec) : Prop :=
  0 ≤ iov_base x ∧ 0 ≤ iov_len x < 2 ^ 63 ∧ iov_base x + iov_len x ≤ Z.of_nat (length mem).

Lemma iov_total_cons x v : iov_total (x :: v) = iov_len x + iov_total v.
Proof. done. Qed.
Lemma iov_gather_cons mem x v :
  iov_gather mem (x :: v) = take (Z.to_nat (iov_len x)) (drop (Z.to_nat (iov_base x)) mem) ++ iov_gather mem v.
Proof. done. Qed.

Lemma iov_total_nonneg mem v : Forall (iov_ok mem) v → 0 ≤ iov_total v.
Proof. induction 1 as [|x v (? & ? & ?) _ IH]; [done|]. rewrite iov_total_cons. lia. Qed.

Lemma length_iov_gather mem v : Forall (iov_ok mem) v → Z.of_nat (length (iov_gather mem v)) = iov_total v.
Proof.
  induction 1 as [|x v (? & ? & ?) _ IH]; [done|].
  rewrite iov_gather_cons, iov_total_cons, length_app, length_take, length_drop. lia.
Qed.

Lemma msg_len_total mem v : Forall (iov_ok mem) v → iov_total v < 2 ^ 63 → msg_len v = iov_total v.
Proof.
  intros Hv. unfold msg_len.
  enough (∀ n, 0 ≤ n → n + iov_total v < 2 ^ 63 → foldl (λ len x, u64 (len + iov_len x)) n v = n + iov_total v) as H.
  { intros. rewrite H; lia. }
  induction Hv as [|x v (? & ? & ?) Hv IH]; intros n Hn Ht; [simpl in *; lia|]. cbn [foldl]. rewrite iov_total_cons in *.
  pose proof (iov_total_nonneg _ _ Hv). rewrite u64_small, IH; lia.
Qed.

Lemma iov_advance_ok mem v m :
  Forall (iov_ok mem) v → 0 ≤ m < 2 ^ 63 →
  Forall (iov_ok mem) (iov_advance m v) ∧ (m ≤ iov_total v → iov_total (iov_advance m v) = iov_total v - m).
Proof.
  intros Hv. revert m. induction Hv as [|x v (? & ? & ?) Hv IH]; intros m Hm; [split; [done|simpl; lia]|].
  cbn [iov_advance]. rewrite iov_total_cons.
  rewrite u64_small by lia. destruct (Z.ltb_spec m (iov_len x)).
  - rewrite u64_small by lia. rewrite iov_total_cons. split; [|simpl; lia]. constructor; [|done]. split_and!; simpl; lia.
  - rewrite s64_small by lia. destruct (IH (m - iov_len x)) as [Hv1 Hv2]; [lia|]. split; [done|]. lia.
Qed.

Lemma iov_advance_gather mem v m :
  Forall (iov_ok mem) v → 0 ≤ m < 2 ^ 63 →
  iov_gather mem (iov_advance m v) = drop (Z.to_nat m) (iov_gather mem v).
Proof.
  intros Hv. revert m. induction Hv as [|x v (? & ? & ?) Hv IH]; intros m Hm; [by destruct (Z.to_nat m)|].
  cbn [iov_advance]. rewrite iov_gather_cons.
  rewrite u64_small by lia. destruct (Z.ltb_spec m (iov_len x)).
  - rewrite u64_small, iov_gather_cons by lia. simpl. rewrite drop_app_le by (rewrite length_take, length_drop; lia).
    f_equal. replace (Z.to_nat (iov_base x + m)) with (Z.to_nat (iov_base x) + Z.to_nat m)%nat by lia.
    rewrite <-drop_drop, take_drop_commute. do 2 f_equal. lia.
  - rewrite s64_small, IH by lia.
    rewrite drop_app_ge by (rewrite length_take, length_drop; lia). f_equal. rewrite length_take, length_drop. lia.
Qed.

Lemma iov_scatter_nil d v : iov_scatter d v [] = d.
Proof. induction v as [|x v IH]; [done|]. simpl. by rewrite take_nil, drop_nil. Qed.

Lemma iov_advance_scatter mem v d bs1 bs2 :
  Forall (iov_ok mem) v → Z.of_nat (length bs1) < 2 ^ 63 →
  iov_scatter (iov_scatter d v bs1) (iov_advance (Z.of_nat (length bs1)) v) bs2 = iov_scatter d v (bs1 ++ bs2).
Proof.
  intros Hv. revert d bs1. induction Hv as [|x v (? & ? & ?) Hv IH]; intros d bs1 Hl; [done|]. cbn [iov_advance].
  rewrite u64_small by lia. destruct (Z.ltb_spec (Z.of_nat (length bs1)) (iov_len x)).
  - rewrite u64_small by lia. cbn [iov_scatter iov_base iov_len].
    rewrite (take_ge bs1), (drop_ge bs1), iov_scatter_nil by lia.
    rewrite take_app_ge, drop_app_ge, list_inserts_app_l by lia.
    replace (Z.to_nat (iov_base x + Z.of_nat (length bs1))) with (length bs1 + Z.to_nat (iov_base x))%nat by lia.
    by replace (Z.to_nat (iov_len x - Z.of_nat (length bs1))) with (Z.to_nat (iov_len x) - length bs1)%nat by lia.
  - rewrite s64_small by lia. cbn [iov_scatter]. rewrite take_app_le, drop_app_le by lia.
    replace (Z.of_nat (length bs1) - iov_len x) with (Z.of_nat (length (drop (Z.to_nat (iov_len x)) bs1)))
      by (rewrite length_drop; lia).
    apply IH. rewrite length_drop. lia.
Qed.


(** The kernel after [k] bytes of the stream were received to a vector. *)
Definition scattered (v : list iovec) (w : kernel) (k : nat) : kernel :=
  mk_kernel (iov_scatter (k_mem w) v (take k (k_in w))) (drop k (k_in w)) (k_out w).

Lemma sys_sendmsg_moves w v v' len j :
  length (iov_gather (k_mem w) v) = len → Forall (iov_ok (k_mem w)) v' →
  iov_gather (k_mem w) v' = drop j (iov_gather (k_mem w) v) → (j ≤ len)%nat →
  moves_at (sys_sendmsg v') len len (sent_of w (iov_gather (k_mem w) v)) j.
Proof.
  intros Hl Hv' Hg Hj. split; [done|]. intros n. unfold sys_sendmsg. cbn [k_mem k_in k_out sent_of].
  rewrite <-(length_iov_gather _ _ Hv'), Nat2Z.id, Hg, length_drop, Hl, length_take, length_drop, Hl, sent_of_step. cbn zeta.
  set (m := (n `min` (len - j) `min` (len - j))%nat). by replace (n `min` (len - j))%nat with m by lia.
Qed.

Lemma sys_recvmsg_moves w v v' len j :
  iov_total v' = Z.of_nat (len - j) →
  (∀ bs1 bs2, length bs1 = j →
    iov_scatter (iov_scatter (k_mem w) v bs1) v' bs2 = iov_scatter (k_mem w) v (bs1 ++ bs2)) →
  (j ≤ length (k_in w))%nat →
  moves_at (sys_recvmsg v') len (length (k_in w)) (scattered v w) j.
Proof.
  intros Ht Hs Hj. split; [done|]. intros n. unfold sys_recvmsg, scattered. cbn [k_mem k_in k_out].
  rewrite Ht, Nat2Z.id, take_min, length_take, length_drop. cbn zeta.
  set (m := (n `min` (len - j) `min` (length (k_in w) - j))%nat). replace (m `min` _)%nat with m by lia.
  rewrite drop_drop, <-take_take_drop, Hs; [done|]. rewrite length_take. lia.
Qed.

(** The operations of one call, as functions of the numbers moved. *)
Lemma send_transfer buf len flags yielder sc w :
  buf_ok buf len w →
  hev_task_io_socket_send buf (Z.of_nat len) flags yielder sc w =
    moved (sent_of w (buf_bytes buf len w)) <$> transfer len len flags yielder 0 sc.
Proof.
  intros Hok. unfold hev_task_io_socket_send. rewrite <-(sent_of_start w (buf_bytes buf len w)) at 1.
  apply (socket_retry_transfer len len flags yielder _ (bo_len _ _ _ Hok) (λ size n, sys_send (buf + size) n) sc 0); [|lia|lia].
  intros i Hi _. by apply sys_send_moves.
Qed.

Lemma recv_transfer buf len flags yielder sc w :
  buf_ok buf len w →
  hev_task_io_socket_recv buf (Z.of_nat len) flags yielder sc w =
    moved (received buf w) <$> transfer len (length (k_in w)) flags yielder 0 sc.
Proof.
  intros Hok. unfold hev_task_io_socket_recv. rewrite <-(received_start buf w) at 1.
  apply (socket_retry_transfer len _ flags yielder _ (bo_len _ _ _ Hok) (λ size n, sys_recv (buf + size) n) sc 0); [|lia|lia].
  intros i Hi Hi'. by apply sys_recv_moves.
Qed.

Lemma sendmsg_transfer v flags yielder sc w :
  Forall (iov_ok (k_mem w)) v → iov_total v < 2 ^ 63 →
  let len := length (iov_gather (k_mem w) v) in
  hev_task_io_socket_sendmsg v flags yielder sc w =
    moved (sent_of w (iov_gather (k_mem w) v)) <$> transfer len len flags yielder 0 sc.
Proof.
  intros Hv Ht len. pose proof (length_iov_gather _ _ Hv) as Hl. unfold hev_task_io_socket_sendmsg.
  rewrite (msg_len_total _ _ Hv Ht), <-Hl. rewrite <-(sent_of_start w (iov_gather (k_mem w) v)) at 2. fold len in Hl |- *.
  apply (msg_retry_transfer len len flags yielder _ ltac:(lia) sys_sendmsg
    (λ j v', Forall (iov_ok (k_mem w)) v' ∧ iov_gather (k_mem w) v' = drop j (iov_gather (k_mem w) v)) sc 0 v); [| |done|lia|lia].
  - intros i v' [Hv' Hg] Hi _. by apply sys_sendmsg_moves.
  - intros i v' m [Hv' Hg] Hm. split; [apply iov_advance_ok; [done|lia]|].
    rewrite iov_advance_gather, Hg, drop_drop by (done || lia). f_equal. lia.
Qed.

Lemma recvmsg_transfer v flags yielder sc w :
  Forall (iov_ok (k_mem w)) v → iov_total v < 2 ^ 63 →
  hev_task_io_socket_recvmsg v flags yielder sc w =
    moved (scattered v w) <$> transfer (Z.to_nat (iov_total v)) (length (k_in w)) flags yielder 0 sc.
Proof.
  intros Hv Ht. pose proof (iov_total_nonneg _ _ Hv) as Hn. unfold hev_task_io_socket_recvmsg.
  rewrite (msg_len_total _ _ Hv Ht). set (len := Z.to_nat (iov_total v)).
  replace (iov_total v) with (Z.of_nat len) by lia.
  assert (scattered v w 0 = w) as Hw by (unfold scattered; rewrite take_0, iov_scatter_nil; by destruct w).
  rewrite <-Hw at 1.
  apply (msg_retry_transfer len _ flags yielder _ ltac:(lia) sys_recvmsg
    (λ j v', Forall (iov_ok (k_mem w)) v' ∧ iov_total v' = Z.of_nat (len - j) ∧ ∀ bs1 bs2, length bs1 = j →
       iov_scatter (iov_scatter (k_mem w) v bs1) v' bs2 = iov_scatter (k_mem w) v (bs1 ++ bs2)) sc 0 v); [| | |lia|lia].
  - intros i v' (Hv' & Ht' & Hs) Hi Hi'. by apply sys_recvmsg_moves.
  - intros i v' m (Hv' & Ht' & Hs) Hm. destruct (iov_advance_ok _ _ (Z.of_nat m) Hv') as [Ho Hto]; [lia|].
    split_and!; [done|rewrite Hto; lia|]. intros bs1 bs2 Hb.
    rewrite <-(take_drop i bs1), <-app_assoc, <-!Hs by (rewrite length_take; lia).
    replace m with (length (drop i bs1)) by (rewrite length_drop; lia).
    apply (iov_advance_scatter (k_mem w)); [done|]. rewrite length_drop. lia.
  - split_and!; [done|lia|]. intros [|] bs2; [|done]. by rewrite iov_scatter_nil.
Qed.

(** ** The theorems *)

(** An operation on a vector is the operation on one buffer with the same
    bytes.  For every kernel, with every flag and yielder, sending a vector gives
    the result, the state and the output of sending the concatenation of its parts,
    and receiving to a vector gives the result of receiving to one buffer of the
    same size, with the same bytes in the parts of the vector, in order. *)
Theorem vector_is_buffer v flags yielder sc w :
  Forall (iov_ok (k_mem w)) v → iov_total v < 2 ^ 63 →
  let len := iov_total v in
  let flat := mk_kernel (iov_gather (k_mem w) v) (k_in w) (k_out w) in
  (λ x, (x.1, k_out x.2)) <$> hev_task_io_socket_sendmsg v flags yielder sc w =
    (λ x, (x.1, k_out x.2)) <$> hev_task_io_socket_send 0 len flags yielder sc flat ∧
  (λ x, (x.1, k_in x.2)) <$> hev_task_io_socket_recvmsg v flags yielder sc w =
    (λ x, (x.1, k_in x.2)) <$> hev_task_io_socket_recv 0 len flags yielder sc flat ∧
  (∀ r sc' w', hev_task_io_socket_recvmsg v flags yielder sc w = Some (r, sc', w') →
    ∃ bs, k_in w = bs ++ k_in w' ∧ k_mem w' = iov_scatter (k_mem w) v bs ∧ k_out w' = k_out w ∧
      hev_task_io_socket_recv 0 len flags yielder sc flat =
        Some (r, sc', mk_kernel (list_inserts 0 bs (k_mem flat)) (k_in w') (k_out w'))).
Proof.
  intros Hv Ht len flat. pose proof (length_iov_gather _ _ Hv) as Hl. set (n := length (iov_gather (k_mem w) v)) in *.
  assert (buf_ok 0 n flat) as Hok by (split; simpl; lia). unfold len. rewrite <-Hl.
  rewrite (send_transfer _ _ _ _ _ _ Hok), (recv_transfer _ _ _ _ _ _ Hok).
  rewrite (sendmsg_transfer _ _ _ _ _ Hv Ht), (recvmsg_transfer _ _ _ _ _ Hv Ht). fold n.
  replace (Z.to_nat (iov_total v)) with n by lia.
  assert (buf_bytes 0 n flat = iov_gather (k_mem w) v) as Hbb.
  { unfold buf_bytes. simpl. rewrite drop_0. by apply take_ge. }
  simpl (k_in flat). split_and!.
  - rewrite <-!option_fmap_compose. apply option_fmap_ext. intros x. by rewrite Hbb.
  - rewrite <-!option_fmap_compose. by apply option_fmap_ext.
  - intros r sc' w'. destruct (transfer n (length (k_in w)) flags yielder 0 sc) as [[[r0 sc0] k]|]; [|done].
    intros [= <- <- <-]. exists (take k (k_in w)). simpl. by rewrite take_drop.
Qed.

(** A request in three parts, sent and received in pieces with a wait. *)
Lemma vector_is_buffer_witness :
  let v := [mk_iov 0 2; mk_iov 4 0; mk_iov 4 3] in
  let w := mk_kernel [1; 2; 3; 4; 5; 6; 7] [20; 21; 22; 23; 24; 25] [9] in
  let sc := [mk_kstep (KOk 1) false; mk_kstep (KFail EAGAIN) false; mk_kstep (KOk 3) false; mk_kstep (KOk 9) false] in
  hev_task_io_socket_sendmsg v MSG_WAITALL true sc w =
    Some (5, [], mk_kernel (k_mem w) (k_in w) [9; 1; 2; 5; 6; 7]) ∧
  hev_task_io_socket_recvmsg v MSG_WAITALL true sc w =
    Some (5, [], mk_kernel [20; 21; 3; 4; 22; 23; 24] [25] [9]) ∧
  hev_task_io_socket_recv 0 5 MSG_WAITALL true sc (mk_kernel [1; 2; 5; 6; 7] (k_in w) [9]) =
    Some (5, [], mk_kernel [20; 21; 22; 23; 24] [25] [9]).
Proof.
  intros v w sc. split_and!; [reflexivity|reflexivity|].
  destruct (vector_is_buffer v MSG_WAITALL true sc w
    ltac:(repeat constructor; simpl; lia) ltac:(reflexivity)) as (_ & _ & H).
  destruct (H 5 [] (mk_kernel [20; 21; 3; 4; 22; 23; 24] [25] [9]) eq_refl) as (bs & Hin & _ & _ & Hr).
  change ([20; 21; 22; 23; 24] ++ [25] = bs ++ [25]) in Hin.
  apply app_inv_tail in Hin as <-. exact Hr.
Defined.

(** With [MSG_WAITALL] sending and receiving are all or a reported prefix.
    Whatever the kernel does, the bytes sent are a prefix of the buffer, those
    received are the next bytes of the stream at the start of the buffer, in order,
    and the result is their number (or an error when there are none).  When no call
    fails and the yielder does not stop the task, as many calls as there are bytes
    are enough: the operation returns and has moved everything, however the kernel
    split it and however often the task had to wait. *)
Theorem socket_moves_all buf len flags yielder sc w :
  buf_ok buf len w → Z.land flags MSG_WAITALL ≠ 0 →
  (∀ r sc' w', hev_task_io_socket_send buf (Z.of_nat len) flags yielder sc w = Some (r, sc', w') →
    ∃ k, (k ≤ len)%nat ∧ w' = sent_of w (buf_bytes buf len w) k ∧ (r = Z.of_nat k ∨ k = 0%nat ∧ r < 0)) ∧
  (∀ r sc' w', hev_task_io_socket_recv buf (Z.of_nat len) flags yielder sc w = Some (r, sc', w') →
    ∃ k, (k ≤ len)%nat ∧ (k ≤ length (k_in w))%nat ∧ w' = received buf w k ∧ (r = Z.of_nat k ∨ k = 0%nat ∧ r < 0)) ∧
  (Z.land flags MSG_DONTWAIT = 0 → (0 < len ≤ moves sc)%nat → cooperative sc →
    (∃ sc', hev_task_io_socket_send buf (Z.of_nat len) flags yielder sc w =
      Some (Z.of_nat len, sc', sent_of w (buf_bytes buf len w) len)) ∧
    ((len ≤ length (k_in w))%nat →
      ∃ sc', hev_task_io_socket_recv buf (Z.of_nat len) flags yielder sc w =
        Some (Z.of_nat len, sc', received buf w len))).
Proof.
  intros Hok Hf. rewrite (send_transfer _ _ _ _ _ _ Hok), (recv_transfer _ _ _ _ _ _ Hok). split_and!.
  - intros r sc' w' ([[r0 sc0] k] & Ht & Heq)%fmap_Some. unfold moved in Heq. simpl in Heq. simplify_eq. exists k.
    apply transfer_prefix in Ht; [|by left|lia|lia]. split_and!; [lia|done|apply Ht].
  - intros r sc' w' ([[r0 sc0] k] & Ht & Heq)%fmap_Some. unfold moved in Heq. simpl in Heq. simplify_eq. exists k.
    apply transfer_prefix in Ht; [|by left|lia|lia]. split_and!; [lia|lia|done|apply Ht].
  - intros Hd Hl Hc. split.
    + destruct (transfer_all len len flags yielder 0 sc Hf Hd) as (sc' & -> & _); [lia|done|lia|]. by exists sc'.
    + intros Ha. destruct (transfer_all len (length (k_in w)) flags yielder 0 sc Hf Hd) as (sc' & -> & _);
        [lia|done|lia|]. by exists sc'.
Qed.

Lemma socket_moves_all_witness :
  let w := mk_kernel [1; 2; 3] [7; 8; 9; 10] [] in
  let sc := [mk_kstep (KOk 2) false; mk_kstep (KFail EAGAIN) false; mk_kstep (KOk 5) false; mk_kstep (KOk 1) false] in
  (∃ sc', hev_task_io_socket_send 0 3 MSG_WAITALL true sc w = Some (3, sc', mk_kernel [1; 2; 3] [7; 8; 9; 10] [1; 2; 3])) ∧
  (∃ sc', hev_task_io_socket_recv 0 3 MSG_WAITALL true sc w = Some (3, sc', mk_kernel [7; 8; 9] [10] [])).
Proof.
  intros w sc.
  destruct (socket_moves_all 0 3 MSG_WAITALL true sc w ltac:(split; simpl; lia) ltac:(done)) as (_ & _ & H).
  destruct (H eq_refl ltac:(cbv; lia) ltac:(repeat constructor; simpl; lia)) as [H1 H2].
  split; [exact H1|]. apply H2. simpl. lia.
Defined.

(** ** Vectors of messages *)

Definition m_sent (w : mkernel) (k : nat) : mkernel :=
  mk_mkernel (m_vec w) (m_in w) (m_out w ++ take k (m_vec w).*2).
Definition m_received (w : mkernel) (k : nat) : mkernel :=
  mk_mkernel (list_inserts 0 (zip_with slot_fill (m_vec w) (take k (m_in w))) (m_vec w)) (drop k (m_in w)) (m_out w).

Lemma sys_sendmmsg_moves w len j :
  (len ≤ length (m_vec w))%nat → (j ≤ len)%nat →
  moves_at (sys_sendmmsg (Z.of_nat j) (Z.of_nat (len - j))) len len (m_sent w) j.
Proof.
  intros Hl Hj. split; [done|]. intros n. unfold sys_sendmmsg, m_sent. cbn [m_vec m_in m_out].
  rewrite !Nat2Z.id, fmap_drop, <-app_assoc, take_take_drop, length_take, length_drop, length_fmap. cbn zeta.
  set (m := (n `min` (len - j) `min` (len - j))%nat). replace (n `min` (len - j))%nat with m by lia.
  by replace (m `min` _)%nat with m by lia.
Qed.

Lemma zip_with_take_add {A B C} (f : A → B → C) (l : list A) (k : list B) (j m : nat) :
  (j ≤ length l)%nat → (j ≤ length k)%nat →
  zip_with f l (take (j + m) k) = zip_with f l (take j k) ++ zip_with f (drop j l) (take m (drop j k)).
Proof.
  revert l k. induction j as [|j IH]; intros [|x l] [|y k]; simpl; intros; try done; try lia.
  f_equal. apply IH; lia.
Qed.

Lemma sys_recvmmsg_moves w len j :
  (len ≤ length (m_vec w))%nat → (j ≤ len)%nat → (j ≤ length (m_in w))%nat →
  moves_at (sys_recvmmsg (Z.of_nat j) (Z.of_nat (len - j))) len (length (m_in w)) (m_received w) j.
Proof.
  intros Hl Hj Hin. split; [done|]. intros n. unfold sys_recvmmsg, m_received. cbn [m_vec m_in m_out].
  rewrite !Nat2Z.id, take_min, length_take, length_drop. cbn zeta.
  set (m := (n `min` (len - j) `min` (length (m_in w) - j))%nat). replace (m `min` _)%nat with m by lia.
  set (pre := zip_with slot_fill (m_vec w) (take j (m_in w))).
  assert (length pre = j) as Hp by (unfold pre; rewrite length_zip_with, length_take; lia).
  assert (drop j (list_inserts 0 pre (m_vec w)) = drop j (m_vec w)) as Hd.
  { apply list_eq. intros i. rewrite !lookup_drop. apply list_lookup_inserts_ge. lia. }
  rewrite Hd, drop_drop, zip_with_take_add by lia. fold pre. by rewrite list_inserts_app_l, Hp, Nat.add_0_r.
Qed.

(** Vectors of datagrams.  For a vector of [len] messages, every kernel, flags
    and yielder, the messages sent are a prefix of the vector in order, each once;
    the datagrams received are the next ones, in order, in the first messages of
    the vector, each cut to the room of its message, and the rest of the vector is
    as before; a result that is not negative is their number. *)
Theorem mmsg_in_order len flags yielder sc w :
  (len ≤ length (m_vec w))%nat → Z.of_nat len < 2 ^ 31 →
  (∀ r sc' w', hev_task_io_socket_sendmmsg (Z.of_nat len) flags yielder sc w = Some (r, sc', w') →
    ∃ k, (k ≤ len)%nat ∧ w' = m_sent w k ∧ (r = Z.of_nat k ∨ k = 0%nat ∧ r < 0)) ∧
  (∀ r sc' w', hev_task_io_socket_recvmmsg (Z.of_nat len) flags yielder sc w = Some (r, sc', w') →
    ∃ k, (k ≤ len)%nat ∧ (k ≤ length (m_in w))%nat ∧ w' = m_received w k ∧ (r = Z.of_nat k ∨ k = 0%nat ∧ r < 0)).
Proof.
  intros Hl Hb. split.
  - intros r sc' w'. unfold hev_task_io_socket_sendmmsg.
    assert (m_sent w 0 = w) as Hw by (unfold m_sent; rewrite take_0, app_nil_r; by destruct w). rewrite <-Hw at 1. change 0 with (Z.of_nat 0) at 1.
    rewrite (mmsg_retry_transfer len len flags yielder (m_sent w) ltac:(lia) sys_sendmmsg sc 0 Hb)
      by (lia || (intros; by apply sys_sendmmsg_moves)).
    intros ([[r0 sc0] k] & Ht & Heq)%fmap_Some. unfold moved in Heq. simpl in Heq. simplify_eq. exists k.
    apply transfer_prefix in Ht; [|by right|lia|lia]. split_and!; [lia|done|apply Ht].
  - intros r sc' w'. unfold hev_task_io_socket_recvmmsg.
    assert (m_received w 0 = w) as Hw by (unfold m_received; rewrite take_0, zip_with_nil_r; by destruct w). rewrite <-Hw at 1. change 0 with (Z.of_nat 0) at 1.
    rewrite (mmsg_retry_transfer len (length (m_in w)) flags yielder (m_received w) ltac:(lia) sys_recvmmsg sc 0 Hb)
      by (lia || (intros; by apply sys_recvmmsg_moves)).
    intros ([[r0 sc0] k] & Ht & Heq)%fmap_Some. unfold moved in Heq. simpl in Heq. simplify_eq. exists k.
    apply transfer_prefix in Ht; [|by right|lia|lia]. split_and!; [lia|lia|done|apply Ht].
Qed.

Lemma mmsg_in_order_witness :
  let w := mk_mkernel [(2%nat, []); (9%nat, [4]); (3%nat, [5; 6])] [[1; 2; 3]; [8]; [9]] [] in
  let sc := [mk_kstep (KOk 1) false; mk_kstep (KOk 1) false; mk_kstep (KFail EAGAIN) true] in
  hev_task_io_socket_recvmmsg 3 MSG_WAITALL true sc w =
    Some (2, [], mk_mkernel [(2%nat, [1; 2]); (9%nat, [8]); (3%nat, [5; 6])] [[9]] []) ∧
  ∃ k, (k ≤ 3)%nat ∧ mk_mkernel (m_vec w) (m_in w) [[]; [4]] = m_sent w k ∧ (2 = Z.of_nat k ∨ k = 0%nat ∧ 2 < 0).
Proof.
  intros w sc. split; [reflexivity|].
  destruct (mmsg_in_order 3 MSG_WAITALL true sc w ltac:(simpl; lia) ltac:(lia)) as [H _].
  exact (H 2 [] _ eq_refl).
Defined.
