(* ===== verification/SocksFragment.v ===== *)
(** * The handshake over sockets that split the data

    In [SocksIO] a send and a receive are one step.  The operations of the task
    system move the bytes in pieces, as many at a time as the kernel takes, and
    the peer may read and act in between.  Here a step moves any number of bytes;
    the programs still end, with the same results. *)

From stdpp Require Import relations.
From S2P Require Import Prelude SocksAddr SocksAddrProps SocksIO TaskIO TaskIOProps SocksClient SocksServer SocksSegments SocksHandshake.

Section fragments.
Context {A B : Type} (envA envB : trace → syscall → reply).
Notation config := (config (A := A) (B := B)).
Notation dstep := (dstep (A := A) (B := B) envA envB).

(** A program in the middle of a receive that has given [bs]. *)
Definition recv_after {C} (k : option (list Z) → io C) (bs : list Z) (r : option (list Z)) : io C :=
  k (app bs <$> r).

(** Pieces: part of a send, or part of a receive. *)
Inductive pstep : config → config → Prop :=
  | pstep_sendA b1 b2 k tB x y ta tb :
      b1 ≠ [] → b2 ≠ [] →
      pstep (mk_config (Send (b1 ++ b2) k) tB x y ta tb) (mk_config (Send b2 k) tB (x ++ b1) y ta tb)
  | pstep_recvA b1 n k tB x y ta tb :
      b1 ≠ [] → Z.of_nat (length b1) < n →
      pstep (mk_config (Recv n k) tB x (b1 ++ y) ta tb)
        (mk_config (Recv (n - Z.of_nat (length b1)) (recv_after k b1)) tB x y ta tb)
  | pstep_sendB b1 b2 k tA x y ta tb :
      b1 ≠ [] → b2 ≠ [] →
      pstep (mk_config tA (Send (b1 ++ b2) k) x y ta tb) (mk_config tA (Send b2 k) x (y ++ b1) ta tb)
  | pstep_recvB b1 n k tA x y ta tb :
      b1 ≠ [] → Z.of_nat (length b1) < n →
      pstep (mk_config tA (Recv n k) (b1 ++ x) y ta tb)
        (mk_config tA (Recv (n - Z.of_nat (length b1)) (recv_after k b1)) x y ta tb).

(** A step of the two programs over such sockets. *)
Inductive fstep : config → config → Prop :=
  | fstep_whole c c' : dstep c c' → fstep c c'
  | fstep_piece c c' : pstep c c' → fstep c c'.

(** A piece commutes with the steps of the two programs, or becomes part of one. *)
Lemma pstep_dstep c c1 d :
  pstep c c1 → dstep c d → dstep c1 d ∨ ∃ d1, dstep c1 d1 ∧ pstep d d1.
Proof.
  intros H1 H2. destruct H1 as [b1 b2 k tB x y ta tb Hb1 Hb2|b1 n k tB x y ta tb Hb1 Hn|b1 b2 k tA x y ta tb Hb1 Hb2|b1 n k tA x y ta tb Hb1 Hn].
  - inversion H2 as [? ? Hs|? ? Hs]; subst; unfold stepA, stepB in Hs; simpl in Hs.
    + left. apply dstep_A. unfold stepA. simpl. simplify_eq. by rewrite <-app_assoc.
    + right. destruct tB as [| |bs k'|n' k'|s' k']; simplify_eq.
      * eexists. split; [by apply dstep_B|]. by constructor.
      * case_decide as Hd; simplify_eq. eexists. split.
        { apply dstep_B. unfold stepB. simpl. by rewrite decide_True by (rewrite length_app; lia). }
        rewrite take_app_le, drop_app_le by lia. by constructor.
      * eexists. split; [by apply dstep_B|]. by constructor.
  - inversion H2 as [? ? Hs|? ? Hs]; subst; unfold stepA, stepB in Hs; simpl in Hs.
    + left. case_decide as Hd; simplify_eq. rewrite length_app in Hd. apply dstep_A. unfold stepA. simpl.
      rewrite decide_True by lia. unfold recv_after. simpl.
      rewrite take_app_ge, drop_app_ge by lia.
      by replace (Z.to_nat (n - Z.of_nat (length b1))) with (Z.to_nat n - length b1)%nat by lia.
    + right. destruct tB as [| |bs k'|n' k'|s' k']; simplify_eq.
      * eexists. split; [by apply dstep_B|]. simpl. rewrite <-app_assoc. by constructor.
      * case_decide as Hd; simplify_eq. eexists. split.
        { apply dstep_B. unfold stepB. simpl. by rewrite decide_True by lia. }
        by constructor.
      * eexists. split; [by apply dstep_B|]. by constructor.
  - inversion H2 as [? ? Hs|? ? Hs]; subst; unfold stepA, stepB in Hs; simpl in Hs.
    + right. destruct tA as [| |bs k'|n' k'|s' k']; simplify_eq.
      * eexists. split; [by apply dstep_A|]. by constructor.
      * case_decide as Hd; simplify_eq. eexists. split.
        { apply dstep_A. unfold stepA. simpl. by rewrite decide_True by (rewrite length_app; lia). }
        rewrite take_app_le, drop_app_le by lia. by constructor.
      * eexists. split; [by apply dstep_A|]. by constructor.
    + left. apply dstep_B. unfold stepB. simpl. simplify_eq. by rewrite <-app_assoc.
  - inversion H2 as [? ? Hs|? ? Hs]; subst; unfold stepA, stepB in Hs; simpl in Hs.
    + right. destruct tA as [| |bs k'|n' k'|s' k']; simplify_eq.
      * eexists. split; [by apply dstep_A|]. simpl. rewrite <-app_assoc. by constructor.
      * case_decide as Hd; simplify_eq. eexists. split.
        { apply dstep_A. unfold stepA. simpl. by rewrite decide_True by lia. }
        by constructor.
      * eexists. split; [by apply dstep_A|]. by constructor.
    + left. case_decide as Hd; simplify_eq. rewrite length_app in Hd. apply dstep_B. unfold stepB. simpl.
      rewrite decide_True by lia. unfold recv_after. simpl.
      rewrite take_app_ge, drop_app_ge by lia.
      by replace (Z.to_nat (n - Z.of_nat (length b1))) with (Z.to_nat n - length b1)%nat by lia.
Qed.

Definition both_ended (f : config) : Prop :=
  match cfA f, cfB f with Ret _, Ret _ => True | _, _ => False end.

Lemma both_ended_pstep f c : both_ended f → pstep f c → False.
Proof. intros H Hp. destruct Hp; simpl in H; try done; by destruct tA. Qed.

Lemma both_ended_final f : both_ended f → dfinal envA envB f.
Proof.
  destruct f as [[] [] x y ta tb]; try done. intros _. apply dfinal_ret.
Qed.

(** After a piece the programs still need the same number of whole steps. *)
Lemma pstep_nsteps n c c1 f : nsteps dstep n c f → both_ended f → pstep c c1 → nsteps dstep n c1 f.
Proof.
  intros Hn Hf. revert c1. induction Hn as [c|n c d f Hd Hn IH]; intros c1 Hp; [by destruct (both_ended_pstep _ _ Hf Hp)|].
  destruct (pstep_dstep _ _ _ Hp Hd) as [Hd1|(d1 & Hd1 & Hp1)]; econstructor; eauto.
Qed.

(** The bytes the current operations still have to move. *)
Definition pending {C} (t : io C) : nat :=
  match t with Send bs _ => length bs | Recv n _ => Z.to_nat n | _ => 0%nat end.

Lemma pstep_pending c c1 : pstep c c1 → (pending (cfA c1) + pending (cfB c1) < pending (cfA c) + pending (cfB c))%nat.
Proof.
  destruct 1 as [[|? b1]|[|? b1]|[|? b1]|[|? b1]]; try done; simpl in *; rewrite ?length_app; lia.
Qed.

(** Every execution in pieces ends, where the execution in whole steps does. *)
Lemma fragments_end n c f :
  nsteps dstep n c f → both_ended f → sn fstep c ∧ ∀ c', rtc fstep c c' → rtc fstep c' f.
Proof.
  intros Hn Hf. split.
  - revert c Hn. induction (lt_wf n) as [n _ IHn]. intros c.
    remember (pending (cfA c) + pending (cfB c))%nat as p eqn:Hp. revert c Hp.
    induction (lt_wf p) as [p _ IHp]. intros c -> Hn. constructor. intros c' Hs. inversion_clear Hs as [? ? Hd|? ? Hd].
    + destruct (dstep_uniform _ _ _ _ _ _ Hn (both_ended_final _ Hf) Hd) as (m & -> & Hm). by apply (IHn m); [lia|].
    + eapply IHp; [by apply pstep_pending|done|]. by eapply pstep_nsteps.
  - intros c' Hr. revert n Hn. induction Hr as [c|c c1 c' Hs Hr IH]; intros n Hn.
    + eapply (rtc_congruence id); [|by apply rtc_nsteps_2 in Hn]. intros a b. apply fstep_whole.
    + inversion_clear Hs as [? ? Hd|? ? Hd].
      * destruct (dstep_uniform _ _ _ _ _ _ Hn (both_ended_final _ Hf) Hd) as (m & -> & Hm). by apply (IH m).
      * apply (IH n). by eapply pstep_nsteps.
Qed.

(** ** The loops of the task system make these steps

    Side A in an iteration of [hev_task_io_socket_send] or
    [hev_task_io_socket_recv] on the buffer of the program, when [j] bytes have been
    moved and the kernel answers with some more: the offset, the length and the
    kernel are those of the loops, and the program goes on as the loop does, to its
    next iteration or to its end. *)

Definition send_at (k : bool → io A) (bs : list Z) (j : nat) : io A :=
  if decide (j < length bs)%nat then Send (drop j bs) k else k true.
Definition recv_at (k : option (list Z) → io A) (need : nat) (bs : list Z) : io A :=
  if decide (length bs < need)%nat then Recv (Z.of_nat need - Z.of_nat (length bs)) (recv_after k bs) else k (Some bs).

Lemma send_iteration k bs w y tB ta tb (j n : nat) :
  buf_ok 0 (length bs) w → k_mem w = bs → (0 < n)%nat → (j < length bs)%nat →
  let at_ := sent_of w bs in
  let r := sys_send (Z.of_nat j) (Z.of_nat (length bs - j)) (KOk n) (at_ j) in
  ∃ m, r = (Z.of_nat m, 0, at_ (j + m)%nat) ∧
    fstep (mk_config (send_at k bs j) tB (k_out (at_ j)) y ta tb)
      (mk_config (send_at k bs (j + m)) tB (k_out (at_ (j + m)%nat)) y ta tb).
Proof.
  intros Hok Hmem Hn Hj at_ r.
  assert (buf_bytes 0 (length bs) w = bs) as Hbb by (unfold buf_bytes; rewrite Hmem, drop_0; by apply take_ge).
  pose proof (ma_ok _ _ _ _ _ (sys_send_moves 0 (length bs) w j Hok ltac:(lia)) n) as H. rewrite Hbb in H.
  set (m := (n `min` (length bs - j) `min` (length bs - j))%nat) in *. exists m. split; [exact H|].
  unfold send_at. rewrite decide_True by done. simpl. case_decide as Hlt.
  - apply fstep_piece. rewrite <-(take_drop m (drop j bs)), drop_drop. unfold at_. cbn [k_out sent_of].
    rewrite <-take_take_drop, app_assoc. constructor.
    + intros Hz%(f_equal length). rewrite length_take, length_drop in Hz. simpl in Hz. lia.
    + intros Hz%(f_equal length). rewrite length_drop in Hz. simpl in Hz. lia.
  - apply fstep_whole, dstep_A. unfold stepA. simpl. rewrite <-app_assoc. repeat f_equal.
    rewrite <-(take_take_drop bs j m). f_equal. rewrite take_ge; [done|]. rewrite length_drop. lia.
Qed.
(** A receive of [need] more bytes; the call writes the bytes [bs] to the buffer. *)
Lemma recv_iteration k w x tB ta tb (len j n : nat) :
  buf_ok 0 len w → (0 < n)%nat → (j < len)%nat → (j < length (k_in w))%nat →
  let at_ := received 0 w in
  let r := sys_recv (Z.of_nat j) (Z.of_nat (len - j)) (KOk n) (at_ j) in
  ∃ bs, r = (Z.of_nat (length bs), 0, at_ (j + length bs)%nat) ∧
    k_mem (at_ (j + length bs)%nat) = list_inserts j bs (k_mem (at_ j)) ∧
    fstep (mk_config (Recv (Z.of_nat (len - j)) k) tB x (k_in (at_ j)) ta tb)
      (mk_config (recv_at k (len - j) bs) tB x (k_in (at_ (j + length bs)%nat)) ta tb).
Proof.
  intros Hok Hn Hj Hin at_ r.
  pose proof (ma_ok _ _ _ _ _ (sys_recv_moves 0 len w j Hok ltac:(lia) ltac:(lia)) n) as H. cbn zeta in H.
  set (m := (n `min` (len - j) `min` (length (k_in w) - j))%nat) in *.
  set (bs := take m (drop j (k_in w))).
  assert (length bs = m) as Hl by (unfold bs; rewrite length_take, length_drop; lia).
  exists bs. rewrite Hl. split_and!; [exact H| |].
  { unfold at_, received. simpl. rewrite <-take_take_drop, list_inserts_app_l, length_take. f_equal. lia. }
  assert (k_in (at_ j) = bs ++ k_in (at_ (j + m)%nat)) as ->.
  { unfold at_, bs. simpl. rewrite <-drop_drop. by rewrite take_drop. }
  unfold recv_at. rewrite Hl. case_decide as Hlt.
  - apply fstep_piece. rewrite <-Hl. constructor; [|rewrite Hl; lia].
    intros Hz. rewrite Hz in Hl. simpl in Hl. lia.
  - apply fstep_whole, dstep_A. unfold stepA. simpl. rewrite decide_True by (rewrite length_app; lia).
    rewrite Nat2Z.id. replace (len - j)%nat with (length bs) by lia. by rewrite take_app_length, drop_app_length.
Qed.
End fragments.


