(* ===== verification/Splicer.v ===== *)
(** * Forwarding between two descriptors

    third-part/hev-task-system/src: lib/io/buffer/hev-circular-buffer.c and the
    splicer of lib/io/basic/hev-task-io.c, and core/src/hev-socks5-tcp.c, which uses
    it for the connections of the server.  A splicer moves the bytes of one
    direction through a buffer, a pipe of the kernel (with
    [ENABLE_IO_SPLICE_SYSCALL]) or a circular buffer; [hev_task_io_splice] runs one
    for each direction.

    The system calls answer as in [TaskIO]; each turn of the loop has its answers. *)

From S2P Require Import Prelude CString RingBuffer TaskIO.

(** ** The circular buffer *)

Record HevCircularBuffer := mk_circ {
  cb_rp : Z;
  cb_use_size : Z;
  cb_max_size : Z;
  cb_ref_count : Z;
  cb_data : list Z;
}.

(** The memory is not initialised. *)
Definition hev_circular_buffer_new (max : Z) (memory : option (list Z)) : option HevCircularBuffer :=
  match memory with Some m => Some (mk_circ 0 0 max 1 m) | None => None end.

Definition hev_circular_buffer_ref (self : HevCircularBuffer) : HevCircularBuffer :=
  mk_circ (cb_rp self) (cb_use_size self) (cb_max_size self) (u32 (cb_ref_count self + 1)) (cb_data self).

(** [None]: the buffer is freed. *)
Definition hev_circular_buffer_unref (self : HevCircularBuffer) : option HevCircularBuffer :=
  let n := u32 (cb_ref_count self - 1) in
  if negb (n =? 0) then Some (mk_circ (cb_rp self) (cb_use_size self) (cb_max_size self) n (cb_data self))
  else None.

Definition hev_circular_buffer_get_max_size (self : HevCircularBuffer) : Z := cb_max_size self.
Definition hev_circular_buffer_get_use_size (self : HevCircularBuffer) : Z := cb_use_size self.

Definition hev_circular_buffer_reading (self : HevCircularBuffer) : list iovec :=
  let upper_size := u64 (cb_max_size self - cb_rp self) in
  if 0 =? cb_use_size self then []
  else if cb_use_size self <=? upper_size then [mk_iov (cb_rp self) (cb_use_size self)]
  else [mk_iov (cb_rp self) upper_size; mk_iov 0 (u64 (cb_use_size self - upper_size))].

Definition hev_circular_buffer_read_finish (size : Z) (self : HevCircularBuffer) : HevCircularBuffer :=
  mk_circ (u64 (cb_rp self + size) mod cb_max_size self) (u64 (cb_use_size self - size)) (cb_max_size self)
    (cb_ref_count self) (cb_data self).

Definition hev_circular_buffer_writing (self : HevCircularBuffer) : list iovec :=
  let wp := u64 (cb_rp self + cb_use_size self) mod cb_max_size self in
  let upper_size := u64 (cb_max_size self - wp) in
  let spc_size := u64 (cb_max_size self - cb_use_size self) in
  if cb_use_size self =? cb_max_size self then []
  else if spc_size <=? upper_size then [mk_iov wp spc_size]
  else [mk_iov wp upper_size; mk_iov 0 (u64 (spc_size - upper_size))].

Definition hev_circular_buffer_write_finish (size : Z) (self : HevCircularBuffer) : HevCircularBuffer :=
  mk_circ (cb_rp self) (u64 (cb_use_size self + size)) (cb_max_size self) (cb_ref_count self) (cb_data self).

Definition cb_set_data (d : list Z) (self : HevCircularBuffer) : HevCircularBuffer :=
  mk_circ (cb_rp self) (cb_use_size self) (cb_max_size self) (cb_ref_count self) d.

(** ** The two descriptors of a direction *)

Record link := mk_link {
  l_src : list Z;        (* what the input still gives before its end *)
  l_snk : list Z;        (* what the output has taken *)
  l_shut : nat;          (* the calls of [shutdown (fd_out, SHUT_WR)] *)
}.

(** The result of a call that moves bytes: as for [send] and [recv]. *)
Definition call_result (a : kanswer) (moved : nat) : Z * Z :=
  match a with KFail e => (-1, e) | KOk _ => (Z.of_nat moved, 0) end.
Definition call_bytes (a : kanswer) (max : nat) (bs : list Z) : list Z :=
  match a with KFail _ => [] | KOk n => take (n `min` max) bs end.

Definition l_take (n : nat) (l : link) : link := mk_link (drop n (l_src l)) (l_snk l) (l_shut l).
Definition l_put (bs : list Z) (l : link) : link := mk_link (l_src l) (l_snk l ++ bs) (l_shut l).
Definition shutdown (l : link) : link := mk_link (l_src l) (l_snk l) (S (l_shut l)).

(** What the code makes of a result that is not positive. *)
Definition not_moved (s errno : Z) : Z := if (s <? 0) && (EAGAIN =? errno) then 0 else -1.

(** One turn of a direction: [ai] answers the call on the input, [ao] that on the
    output.  What a splicer is, for the loop of both directions. *)
Class Splicer (S : Type) :=
  task_io_splice : kanswer → kanswer → S → link → Z * S * link.

(** ** With a pipe *)

Module PipeSplicer.

Record HevTaskIOSplicer := mk_pipe_splicer {
  fd0 : Z;
  fd1 : Z;
  wlen : Z;
  blen : Z;
  pipe : list Z;         (* in the kernel: the bytes of the pipe *)
  capacity : nat;
}.

(** [splice] to the pipe; a full pipe is [EAGAIN]. *)
Definition sys_splice_in (a : kanswer) (self : HevTaskIOSplicer) (l : link) : Z * Z * HevTaskIOSplicer * link :=
  if decide (length (pipe self) = capacity self) then (-1, EAGAIN, self, l)
  else
    let bs := call_bytes a (Z.to_nat (blen self) `min` (capacity self - length (pipe self))) (l_src l) in
    (call_result a (length bs),
     mk_pipe_splicer (fd0 self) (fd1 self) (wlen self) (blen self) (pipe self ++ bs) (capacity self),
     l_take (length bs) l).

Definition sys_splice_out (a : kanswer) (self : HevTaskIOSplicer) (l : link) : Z * Z * HevTaskIOSplicer * link :=
  let bs := call_bytes a (Z.to_nat (blen self)) (pipe self) in
  (call_result a (length bs),
   mk_pipe_splicer (fd0 self) (fd1 self) (wlen self) (blen self) (drop (length bs) (pipe self)) (capacity self),
   l_put bs l).

Definition set_wlen (n : Z) (self : HevTaskIOSplicer) : HevTaskIOSplicer :=
  mk_pipe_splicer (fd0 self) (fd1 self) n (blen self) (pipe self) (capacity self).

#[global] Instance task_io_splice_pipe : Splicer HevTaskIOSplicer := λ ai ao self l,
  let '(s, errno, self, l) := sys_splice_in ai self l in
  let '(res, self) :=
    if s <=? 0 then (not_moved s errno, self) else (1, set_wlen (u64 (wlen self + s)) self) in
  if negb (wlen self =? 0) then
    let '(s, errno, self, l) := sys_splice_out ao self l in
    if s <=? 0 then (not_moved s errno, self, l) else (1, set_wlen (u64 (wlen self - s)) self, l)
  else if res <? 0 then (res, self, shutdown l)
  else (res, self, l).

(** The answers to the calls that set up a splicer: [pipe2] gives two descriptors,
    [hev_task_add_fd] fails or not, [fcntl] gives the size of the pipe. *)
Record setup := mk_setup {
  su_pipe : option (Z * Z);
  su_add0 : bool;
  su_add1 : bool;
  su_size : Z;           (* [F_GETPIPE_SZ]: minus one is an error *)
  su_capacity : nat;     (* what the pipe takes *)
}.

(** The result and the open descriptors. *)
Definition task_io_splicer_init_pipe (su : setup) (fds : list Z) : option HevTaskIOSplicer * list Z :=
  match su_pipe su with
  | None => (None, fds)
  | Some (f0, f1) =>
      let opened := f0 :: f1 :: fds in
      let close_both := filter (λ f, f ≠ f0 ∧ f ≠ f1) opened in
      if su_add0 su then
        if su_add1 su then
          (Some (mk_pipe_splicer f0 f1 0 (u64 (su_size su)) [] (su_capacity su)), opened)
        else (None, close_both)
      else (None, close_both)
  end.

Definition task_io_splicer_fini_pipe (self : HevTaskIOSplicer) (fds : list Z) : list Z :=
  filter (λ f, f ≠ fd0 self ∧ f ≠ fd1 self) fds.

End PipeSplicer.

(** ** With a circular buffer *)

Module CircularSplicer.

Definition sys_readv (a : kanswer) (iov : list iovec) (buf : HevCircularBuffer) (l : link) :
    Z * Z * HevCircularBuffer * link :=
  let bs := call_bytes a (Z.to_nat (iov_total iov)) (l_src l) in
  (call_result a (length bs), cb_set_data (iov_scatter (cb_data buf) iov bs) buf, l_take (length bs) l).

Definition sys_writev (a : kanswer) (iov : list iovec) (buf : HevCircularBuffer) (l : link) : Z * Z * link :=
  let bs := call_bytes a (Z.to_nat (iov_total iov)) (iov_gather (cb_data buf) iov) in
  (call_result a (length bs), l_put bs l).

#[global] Instance task_io_splice_circular : Splicer HevCircularBuffer := λ ai ao buf l,
  let iov := hev_circular_buffer_writing buf in
  let '(res, buf, l) :=
    match iov with
    | [] => (1, buf, l)
    | _ =>
        let '(s, errno, buf, l) := sys_readv ai iov buf l in
        if s <=? 0 then (not_moved s errno, buf, l) else (1, hev_circular_buffer_write_finish s buf, l)
    end in
  let iov := hev_circular_buffer_reading buf in
  match iov with
  | [] => if res <? 0 then (res, buf, shutdown l) else (res, buf, l)
  | _ =>
      let '(s, errno, l) := sys_writev ao iov buf l in
      if s <=? 0 then (not_moved s errno, buf, l) else (1, hev_circular_buffer_read_finish s buf, l)
  end.

Definition task_io_splicer_init_circular (buf_size : Z) (memory : option (list Z)) : option HevCircularBuffer :=
  hev_circular_buffer_new buf_size memory.

Definition task_io_splicer_fini_circular (buf : option HevCircularBuffer) : option HevCircularBuffer :=
  match buf with Some b => hev_circular_buffer_unref b | None => None end.

End CircularSplicer.

(** ** Both directions *)

(** The answers of one turn, and what the yielder returns after it. *)
Record turn := mk_turn {
  t_fi : kanswer;
  t_fo : kanswer;
  t_bi : kanswer;
  t_bo : kanswer;
  t_stop : bool;
}.

(** How the loop ended: both directions have ended, or the yielder stopped it. *)
Inductive splice_end := Ended | Stopped.

Section both.
Context {S : Type} `{Splicer S}.

Record duplex := mk_duplex {
  res_f : Z;
  res_b : Z;
  splicer_f : S;
  splicer_b : S;
  link_f : link;
  link_b : link;
}.

(** The two calls of a turn of the loop. *)
Definition splice_both (t : turn) (d : duplex) : duplex :=
  let '(rf, sf, lf) :=
    if 0 <=? res_f d then task_io_splice (t_fi t) (t_fo t) (splicer_f d) (link_f d)
    else (res_f d, splicer_f d, link_f d) in
  let '(rb, sb, lb) :=
    if 0 <=? res_b d then task_io_splice (t_bi t) (t_bo t) (splicer_b d) (link_b d)
    else (res_b d, splicer_b d, link_b d) in
  mk_duplex rf rb sf sb lf lb.

Inductive HevTaskYieldType := HEV_TASK_YIELD | HEV_TASK_WAITIO.

(** How the task yields after a turn; [None] is the [break]. *)
Definition yield_type (d : duplex) : option HevTaskYieldType :=
  if (0 <? res_f d) || (0 <? res_b d) then Some HEV_TASK_YIELD
  else if Z.land (res_f d) (res_b d) =? 0 then Some HEV_TASK_WAITIO
  else None.

(** The loop; [None] while it still runs when the turns are used up. *)
Fixpoint io_splice_loop (yielder : bool) (turns : list turn) (d : duplex) : option (splice_end * duplex) :=
  match turns with
  | [] => None
  | t :: turns =>
      let d := splice_both t d in
      match yield_type d with
      | None => Some (Ended, d)
      | Some _ => if yielder && t_stop t then Some (Stopped, d) else io_splice_loop yielder turns d
      end
  end.

End both.

(** [hev_task_io_splice] with pipes, for the two links: what the loop gives, if it
    was reached, and the open descriptors at the end. *)
Definition hev_task_io_splice (suf sub : PipeSplicer.setup) (yielder : bool) (turns : list turn)
    (lf lb : link) (fds : list Z) : option (option (splice_end * duplex) * list Z) :=
  match PipeSplicer.task_io_splicer_init_pipe suf fds with
  | (None, fds) => Some (None, fds)
  | (Some f, fds) =>
      match PipeSplicer.task_io_splicer_init_pipe sub fds with
      | (None, fds) => Some (None, PipeSplicer.task_io_splicer_fini_pipe f fds)
      | (Some b, fds) =>
          match io_splice_loop yielder turns (mk_duplex 1 1 f b lf lb) with
          | None => None
          | Some (e, d) =>
              Some (Some (e, d),
                PipeSplicer.task_io_splicer_fini_pipe (splicer_f d) (PipeSplicer.task_io_splicer_fini_pipe (splicer_b d) fds))
          end
      end
  end.

(** The same without pipes; the memory of the two buffers is allocated. *)
Definition hev_task_io_splice_circular (buf_size : Z) (memf memb : option (list Z)) (yielder : bool)
    (turns : list turn) (lf lb : link) : option (option (splice_end * duplex) * list (option HevCircularBuffer)) :=
  match CircularSplicer.task_io_splicer_init_circular buf_size memf with
  | None => Some (None, [])
  | Some f =>
      match CircularSplicer.task_io_splicer_init_circular buf_size memb with
      | None => Some (None, [CircularSplicer.task_io_splicer_fini_circular (Some f)])
      | Some b =>
          match io_splice_loop yielder turns (mk_duplex 1 1 f b lf lb) with
          | None => None
          | Some (e, d) =>
              Some (Some (e, d), [CircularSplicer.task_io_splicer_fini_circular (Some (splicer_b d));
                CircularSplicer.task_io_splicer_fini_circular (Some (splicer_f d))])
          end
      end
  end.

(** [hev_socks5_tcp_splicer]: the connection to the client is [cfd]; both
    directions of both descriptors.  [hev_task_add_fd] and [hev_task_mod_fd] do not
    change its result. *)
Definition hev_socks5_tcp_splicer (cfd : Z) (suf sub : PipeSplicer.setup) (turns : list turn) (lf lb : link)
    (fds : list Z) : option (Z * option (splice_end * duplex) * list Z) :=
  if cfd <? 0 then Some (-1, None, fds)
  else
    match hev_task_io_splice suf sub true turns lf lb fds with
    | None => None
    | Some (r, fds) => Some (0, r, fds)
    end.
