(* ===== verification/SplicerProps.v ===== *)
(** * Forwarding: nothing is lost

    The contract of a splicer, which both variants keep, and what follows for the
    loop over both directions. *)

From S2P Require Import Prelude CString RingBuffer TaskIO TaskIOProps Splicer.

(** ** The contract *)

Definition in_ended (a : kanswer) (l : link) : Prop :=
  match a with KFail e => e ≠ EAGAIN | KOk n => n = 0%nat ∨ l_src l = [] end.
Definition out_failed (a : kanswer) : Prop :=
  match a with KFail e => e ≠ EAGAIN | KOk n => n = 0%nat end.

(** A turn from the buffered bytes [q] to [q']: bytes move in order and none is
    lost.  The result is 1 when the output took something; 0 when the call whose
    readiness matters next, on the output while bytes are buffered and on the input
    otherwise, has to be waited for; -1 when the direction has ended, with a
    [shutdown] if all that was read has been delivered. *)
Record splice_post (ai ao : kanswer) (q : list Z) (l : link) (res : Z) (q' : list Z) (l' : link) : Prop := {
  sp_bytes : l_snk l' ++ q' ++ l_src l' = l_snk l ++ q ++ l_src l;
  sp_src : suffix (l_src l') (l_src l);
  sp_snk : prefix (l_snk l) (l_snk l');
  sp_cases :
    (res = 1 ∧ l_shut l' = l_shut l ∧ (length (l_snk l) < length (l_snk l'))%nat) ∨
    (res = 0 ∧ l_shut l' = l_shut l ∧ l_snk l' = l_snk l ∧
      (q' = [] ∧ ai = KFail EAGAIN ∨ q' ≠ [] ∧ ao = KFail EAGAIN)) ∨
    (res = -1 ∧ l_shut l' = S (l_shut l) ∧ l_snk l' = l_snk l ∧ q' = [] ∧ in_ended ai l) ∨
    (res = -1 ∧ l_shut l' = l_shut l ∧ l_snk l' = l_snk l ∧ q' ≠ [] ∧ out_failed ao);
}.

Class SplicerLaws (S : Type) `{Splicer S} := {
  sp_rep : S → list Z → Prop;
  sp_step ai ao s q l : sp_rep s q →
    ∃ res s' l' q', task_io_splice ai ao s l = (res, s', l') ∧ sp_rep s' q' ∧ splice_post ai ao q l res q' l';
}.

(** The two halves of a turn, for any buffer: [r1] is the result of the first call,
    which has moved [b1]; then the output takes [b2]. *)
Definition first_call (ai : kanswer) (q : list Z) (l : link) (r1 : Z) (b1 : list Z) : Prop :=
  prefix b1 (l_src l) ∧
  (r1 = 1 ∧ (b1 ≠ [] ∨ q ≠ []) ∨
   r1 = 0 ∧ b1 = [] ∧ (ai = KFail EAGAIN ∨ q ≠ []) ∨
   r1 = -1 ∧ b1 = [] ∧ in_ended ai l).

Lemma splice_post_idle ai ao q l r1 b1 :
  first_call ai q l r1 b1 → q ++ b1 = [] →
  splice_post ai ao q l r1 [] (if r1 <? 0 then shutdown (l_take (length b1) l) else l_take (length b1) l).
Proof.
  intros [_ Hr] [-> ->]%app_nil. simpl.
  assert (l_take 0 l = l) as -> by by destruct l.
  destruct Hr as [(-> & [?|?])|[(-> & _ & [Ha|?])|(-> & _ & Ha)]]; try done; simpl; split; simpl; try done; naive_solver.
Qed.

Lemma splice_post_out ai ao q l r1 b1 b2 q' r2 :
  first_call ai q l r1 b1 → q ++ b1 ≠ [] → q ++ b1 = b2 ++ q' →
  (r2 = 1 ∧ b2 ≠ [] ∨ b2 = [] ∧ r2 = 0 ∧ ao = KFail EAGAIN ∨ b2 = [] ∧ r2 = -1 ∧ out_failed ao) →
  splice_post ai ao q l r2 q' (l_put b2 (l_take (length b1) l)).
Proof.
  intros [[src Hsrc] _] Hne Hq Hr.
  assert (drop (length b1) (l_src l) = src) as Hd by (rewrite Hsrc; apply drop_app_length).
  split; simpl; rewrite ?Hd.
  - rewrite <-!app_assoc, (app_assoc b2 q'), <-Hq, Hsrc, <-app_assoc. done.
  - rewrite Hsrc. by exists b1.
  - by exists b2.
  - destruct Hr as [[-> Hb]|[(-> & -> & Hao)|(-> & -> & Hao)]].
    + left. split_and!; [done|done|]. rewrite length_app. destruct b2; [done|simpl; lia].
    + right; left. rewrite app_nil_r. split_and!; [done..|]. right. simpl in Hq. by rewrite <-Hq.
    + right; right; right. rewrite app_nil_r. simpl in Hq. split_and!; [done..| |done]. by rewrite <-Hq.
Qed.

(** What the answers of the kernel give. *)
Lemma call_bytes_prefix a max bs : prefix (call_bytes a max bs) bs.
Proof. destruct a; simpl; [|apply prefix_nil]. rewrite <-(take_drop (n `min` max) bs) at 2. by eexists. Qed.

Lemma call_first ai q l max :
  (0 < max)%nat →
  let b1 := call_bytes ai max (l_src l) in
  let '(s, errno) := call_result ai (length b1) in
  s = (match ai with KFail _ => -1 | KOk _ => Z.of_nat (length b1) end) ∧
  first_call ai q l (if s <=? 0 then not_moved s errno else 1) b1 ∧ (s <= 0 → b1 = []) ∧ (0 < s → s = Z.of_nat (length b1)).
Proof.
  intros Hmax b1. pose proof (call_bytes_prefix ai max (l_src l)) as Hp. fold b1 in Hp.
  destruct ai as [n|e]; simpl in *.
  - split; [done|]. destruct (Z.leb_spec (Z.of_nat (length b1)) 0) as [Hs|Hs].
    + destruct b1 as [|x b1'] eqn:Hb; [|simpl in Hs; lia]. split_and!; [|done|simpl; lia].
      split; [done|]. right; right. split_and!; [done..|]. simpl.
      apply (f_equal length) in Hb. unfold b1 in Hb. rewrite length_take in Hb. simpl in Hb.
      destruct (l_src l); [by right|left; simpl in *; lia].
    + split_and!; [|lia|done]. split; [done|]. left. split; [done|]. left. intros Hz. rewrite Hz in Hs. simpl in Hs. lia.
  - split; [done|]. unfold not_moved. cbn [Z.leb Z.ltb Z.compare andb]. destruct (Z.eqb_spec EAGAIN e) as [<-|He].
    + split_and!; [|done|lia]. split; [done|]. right; left. split_and!; [done..|by left].
    + split_and!; [|done|lia]. split; [done|]. right; right. split_and!; [done..|]. by apply not_eq_sym.
Qed.

Lemma call_second ao max bs :
  (0 < max)%nat → bs ≠ [] →
  let b2 := call_bytes ao max bs in
  let '(s, errno) := call_result ao (length b2) in
  let r2 := if s <=? 0 then not_moved s errno else 1 in
  (r2 = 1 ∧ b2 ≠ [] ∨ b2 = [] ∧ r2 = 0 ∧ ao = KFail EAGAIN ∨ b2 = [] ∧ r2 = -1 ∧ out_failed ao) ∧
  (s <= 0 → b2 = []) ∧ (0 < s → s = Z.of_nat (length b2)).
Proof.
  intros Hmax Hne b2. destruct ao as [n|e]; simpl in *.
  - destruct (Z.leb_spec (Z.of_nat (length b2)) 0) as [Hs|Hs].
    + destruct b2 as [|x b2'] eqn:Hb; [|simpl in Hs; lia]. split_and!; [|done|simpl; lia].
      right; right. split_and!; [done..|]. apply (f_equal length) in Hb. unfold b2 in Hb. rewrite length_take in Hb.
      destruct bs; simpl in *; [done|lia].
    + split_and!; [|lia|done]. left. split; [done|]. intros Hz. rewrite Hz in Hs. simpl in Hs. lia.
  - unfold not_moved. cbn [Z.leb Z.ltb Z.compare andb]. destruct (Z.eqb_spec EAGAIN e) as [<-|He]; split_and!; try done; try lia; auto 10.
Qed.

(** ** The pipe *)

Module PipeRep.
Import PipeSplicer.

Record pipe_rep (s : HevTaskIOSplicer) (q : list Z) : Prop := {
  pr_pipe : pipe s = q;
  pr_wlen : wlen s = Z.of_nat (length q);
  pr_fit : (length q ≤ capacity s)%nat;
  pr_cap : (0 < capacity s)%nat ∧ Z.of_nat (capacity s) < 2 ^ 63;
  pr_blen : 0 < blen s;
}.

(** The first call of a turn, with the update of [wlen]. *)
Lemma pipe_first ai s q l :
  pipe_rep s q →
  ∃ s1 b1 r1, (let '(x, errno, s1, l1) := sys_splice_in ai s l in
      (if x <=? 0 then (not_moved x errno, s1) else (1, set_wlen (u64 (wlen s1 + x)) s1), l1)) = (r1, s1, l_take (length b1) l) ∧
    first_call ai q l r1 b1 ∧ pipe_rep s1 (q ++ b1).
Proof.
  intros [Hp Hw Hf [Hc Hc'] Hb]. unfold sys_splice_in. rewrite Hp. case_decide as Hfull.
  - exists s, [], 0. split_and!; [by destruct l|..].
    + split; [apply prefix_nil|]. right; left. split_and!; [done..|]. right. destruct q; simpl in *; [lia|done].
    + rewrite app_nil_r. done.
  - set (max := (Z.to_nat (blen s) `min` (capacity s - length q))%nat).
    pose proof (call_first ai q l max ltac:(lia)) as H. cbn zeta in H. set (b1 := call_bytes ai max (l_src l)) in *.
    assert (length b1 ≤ max)%nat as Hb1 by (unfold b1; destruct ai; simpl; rewrite ?length_take; lia).
    destruct (call_result ai (length b1)) as [x errno]. destruct H as (_ & H & H0 & H1).
    destruct (Z.leb_spec x 0) as [Hx|Hx]; eexists _, b1, _; (split; [reflexivity|]); (split; [exact H|]).
    + rewrite (H0 Hx), app_nil_r. by split.
    + split; simpl; rewrite ?length_app; [done| |lia|done|done].
      rewrite Hw, u64_small, H1; lia.
Qed.

Lemma pipe_step ai ao s q l : pipe_rep s q →
  ∃ res s' l' q', task_io_splice ai ao s l = (res, s', l') ∧ pipe_rep s' q' ∧ splice_post ai ao q l res q' l'.
Proof.
  intros Hrep. destruct (pipe_first ai s q l Hrep) as (s1 & b1 & r1 & Heq & Hfirst & Hrep1).
  unfold task_io_splice, task_io_splice_pipe. destruct (sys_splice_in ai s l) as [[[x errno] s1'] l1].
  assert ((if x <=? 0 then (not_moved x errno, s1') else (1, set_wlen (u64 (wlen s1' + x)) s1')) = (r1, s1)) as -> by congruence.
  assert (l1 = l_take (length b1) l) as -> by congruence. clear Heq.
  pose proof Hrep1 as [Hp Hw Hf Hc Hb]. rewrite Hw. destruct (Z.eqb_spec (Z.of_nat (length (q ++ b1))) 0) as [Hz|Hz]; cbn [negb].
  - assert (q ++ b1 = []) as Hnil by (apply length_zero_iff_nil; lia).
    exists r1, s1, (if r1 <? 0 then shutdown (l_take (length b1) l) else l_take (length b1) l), [].
    split_and!; [by destruct (r1 <? 0)|by rewrite Hnil in Hrep1|by apply splice_post_idle].
  - assert (q ++ b1 ≠ []) as Hne by (intros Hn; rewrite Hn in Hz; done).
    unfold sys_splice_out. rewrite Hp. pose proof (call_second ao (Z.to_nat (blen s1)) (q ++ b1) ltac:(lia) Hne) as H. cbn zeta in H.
    pose proof (call_bytes_prefix ao (Z.to_nat (blen s1)) (q ++ b1)) as [q' Hq'].
    set (b2 := call_bytes ao _ _) in *. clearbody b2.
    destruct (call_result ao (length b2)) as [y errno2]. destruct H as (H & H0 & H1). rewrite Hq', drop_app_length.
    destruct (Z.leb_spec y 0) as [Hy|Hy]; eexists _, _, _, q'; (split; [reflexivity|]);
      (split; [|by eapply splice_post_out]); apply (f_equal length) in Hq'; rewrite (length_app b2) in Hq'.
    + rewrite (H0 Hy) in Hq'. simpl in Hq'. split; simpl; try done; lia.
    + rewrite (H1 Hy). split; simpl; try done; [|lia]. rewrite Hw, u64_small; lia.
Qed.

#[global] Instance pipe_laws : SplicerLaws HevTaskIOSplicer := {| sp_rep := pipe_rep; sp_step := pipe_step |}.

Lemma init_rep su fds s fds' :
  task_io_splicer_init_pipe su fds = (Some s, fds') → (0 < su_capacity su)%nat → Z.of_nat (su_capacity su) < 2 ^ 63 →
  0 < u64 (su_size su) → pipe_rep s [].
Proof.
  unfold task_io_splicer_init_pipe. destruct (su_pipe su) as [[f0 f1]|]; [|done].
  destruct (su_add0 su), (su_add1 su); intros; simplify_eq. split; simpl; try done; lia.
Qed.
End PipeRep.

(** ** The circular buffer *)

Module CircularRep.
Import CircularSplicer.

(** A circular buffer is a ring buffer from which what is read is released at once. *)
Definition to_ring (c : HevCircularBuffer) : HevRingBuffer :=
  mk_ring (cb_rp c) ((cb_rp c + cb_use_size c) mod cb_max_size c) (cb_use_size c) (cb_use_size c) (cb_max_size c) (cb_data c).

Definition circ_rep (c : HevCircularBuffer) (q : list Z) : Prop := ring_rep (to_ring c) [] q.

Lemma circ_reading c q : circ_rep c q → hev_circular_buffer_reading c = hev_ring_buffer_reading (to_ring c).
Proof. done. Qed.

Lemma circ_writing c q : circ_rep c q → hev_circular_buffer_writing c = hev_ring_buffer_writing (to_ring c).
Proof.
  intros [Hm Hd Hrp Hrda Huse Hfit _ _]. simpl in *.
  unfold hev_circular_buffer_writing, hev_ring_buffer_writing. simpl. by rewrite (u64_small (cb_rp c + cb_use_size c)) by lia.
Qed.

Lemma circ_write c q bs :
  circ_rep c q → Z.of_nat (length bs) ≤ cb_max_size c - cb_use_size c →
  circ_rep (hev_circular_buffer_write_finish (Z.of_nat (length bs))
    (cb_set_data (iov_scatter (cb_data c) (hev_circular_buffer_writing c) bs) c)) (q ++ bs).
Proof.
  intros H Hb. rewrite (circ_writing _ _ H). pose proof (ring_write _ _ _ bs H Hb) as Hr.
  pose proof H as [Hm Hd Hrp Hrda Huse Hfit _ _]. simpl in *.
  unfold circ_rep. replace (to_ring _) with (hev_ring_buffer_write_finish (Z.of_nat (length bs))
    (set_rdata (iov_scatter (cb_data c) (hev_ring_buffer_writing (to_ring c)) bs) (to_ring c))); [exact Hr|].
  unfold hev_ring_buffer_write_finish, to_ring. simpl.
  assert (0 ≤ (cb_rp c + cb_use_size c) mod cb_max_size c < cb_max_size c) by (apply Z.mod_pos_bound; lia).
  rewrite !u64_small by lia. f_equal. rewrite Z.add_mod_idemp_l by lia. f_equal. lia.
Qed.

Lemma circ_read c q (n : nat) :
  circ_rep c q → (n ≤ length q)%nat → circ_rep (hev_circular_buffer_read_finish (Z.of_nat n) c) (drop n q).
Proof.
  intros H Hn. pose proof (ring_read_finish _ _ _ n H Hn) as Hr. pose proof H as [Hm Hd Hrp Hrda Huse Hfit Hwp _]. simpl in *.
  destruct Hr as [_ _ Hrp' Hrda' Huse' _ Hwp' Hb']. simpl in *. rewrite u64_small in Hrda', Hwp' by lia.
  split; simpl; try done; rewrite ?(u64_small (cb_use_size c - Z.of_nat n)) by lia.
  - done.
  - done.
  - lia.
  - intros i Hi. specialize (Hb' (n + i)%nat). rewrite length_take in Hb'.
    rewrite lookup_app_r, length_take in Hb' by (rewrite length_take; lia).
    replace (n + i - n `min` length q)%nat with i in Hb' by lia. rewrite <-Hb' by lia. do 2 f_equal. f_equal. lia.
Qed.

Lemma circ_iov c q :
  circ_rep c q →
  (hev_circular_buffer_writing c = [] ↔ length q = Z.to_nat (cb_max_size c)) ∧
  iov_total (hev_circular_buffer_writing c) = cb_max_size c - Z.of_nat (length q) ∧
  (hev_circular_buffer_reading c = [] ↔ q = []) ∧
  iov_total (hev_circular_buffer_reading c) = Z.of_nat (length q) ∧
  iov_gather (cb_data c) (hev_circular_buffer_reading c) = q.
Proof.
  intros H. pose proof H as [Hm Hd Hrp Hrda Huse Hfit Hwp _]. simpl in *.
  destruct (ring_writing _ _ _ H) as [Hw1 _], (ring_reading _ _ _ H) as [Hr1 _].
  rewrite <-(circ_writing _ _ H) in Hw1. rewrite <-(circ_reading _ _ H) in Hr1. simpl in *.
  assert (cb_use_size c = Z.of_nat (length q)) as Hu by lia.
  split_and!; [| | | |done].
  - unfold hev_circular_buffer_writing. cbn zeta. destruct (Z.eqb_spec (cb_use_size c) (cb_max_size c)).
    + split; [lia|done].
    + case_match; split; done || lia.
  - rewrite Hw1. lia.
  - unfold hev_circular_buffer_reading. cbn zeta. destruct (Z.eqb_spec 0 (cb_use_size c)).
    + split; [|done]. intros _. apply length_zero_iff_nil. lia.
    + case_match; (split; [done|]); intros ->; simpl in *; lia.
  - unfold hev_circular_buffer_reading. cbn zeta. destruct (Z.eqb_spec 0 (cb_use_size c)); [simpl; lia|].
    rewrite (u64_small (cb_max_size c - cb_rp c)) by lia. destruct (Z.leb_spec (cb_use_size c) (cb_max_size c - cb_rp c)); simpl; [lia|].
    rewrite u64_small by lia. lia.
Qed.

(** The first call of a turn, with the update of the buffer. *)
Lemma circ_first ai c q l :
  circ_rep c q →
  ∃ c1 b1 r1, (match hev_circular_buffer_writing c with
    | [] => (1, c, l)
    | _ =>
        let '(s, errno, buf, l) := sys_readv ai (hev_circular_buffer_writing c) c l in
        if s <=? 0 then (not_moved s errno, buf, l) else (1, hev_circular_buffer_write_finish s buf, l)
    end) = (r1, c1, l_take (length b1) l) ∧
    first_call ai q l r1 b1 ∧ circ_rep c1 (q ++ b1).
Proof.
  intros Hrep. destruct (circ_iov _ _ Hrep) as (Hw & Ht & _). pose proof Hrep as [Hm _ _ Hrda _ Hfit _ _]. simpl in *.
  destruct (decide (hev_circular_buffer_writing c = [])) as [Hz|Hz].
  - rewrite Hz. exists c, [], 1. rewrite app_nil_r. split_and!; [by destruct l| |done].
    split; [apply prefix_nil|]. left. split; [done|]. right. apply Hw in Hz. intros ->. simpl in *. lia.
  - assert (∀ (X : Type) (x y : X), match hev_circular_buffer_writing c with [] => x | _ => y end = y) as ->
      by (intros; by destruct (hev_circular_buffer_writing c)).
    unfold sys_readv. rewrite Ht. set (max := Z.to_nat (cb_max_size c - Z.of_nat (length q))).
    assert (0 < max)%nat as Hmax.
    { destruct (decide (length q = Z.to_nat (cb_max_size c))) as [He|]; [by apply Hw in He|lia]. }
    pose proof (call_first ai q l max Hmax) as H. cbn zeta in H. set (b1 := call_bytes ai max (l_src l)) in *.
    assert (length b1 ≤ max)%nat as Hb1 by (unfold b1; destruct ai; simpl; rewrite ?length_take; lia).
    destruct (call_result ai (length b1)) as [x errno]. destruct H as (_ & H & H0 & H1).
    destruct (Z.leb_spec x 0) as [Hx|Hx]; eexists _, b1, _; (split; [reflexivity|]); (split; [exact H|]).
    + rewrite (H0 Hx), app_nil_r. rewrite iov_scatter_nil. by destruct c.
    + rewrite (H1 Hx). apply circ_write; [done|lia].
Qed.

Lemma circ_step ai ao c q l : circ_rep c q →
  ∃ res c' l' q', task_io_splice ai ao c l = (res, c', l') ∧ circ_rep c' q' ∧ splice_post ai ao q l res q' l'.
Proof.
  intros Hrep. destruct (circ_first ai c q l Hrep) as (c1 & b1 & r1 & Heq & Hfirst & Hrep1).
  unfold task_io_splice, task_io_splice_circular. cbn zeta. rewrite Heq. clear Heq.
  destruct (circ_iov _ _ Hrep1) as (_ & _ & Hr & Ht & Hg). pose proof Hrep1 as [Hm _ _ Hrda _ Hfit _ _]. simpl in *.
  destruct (decide (hev_circular_buffer_reading c1 = [])) as [Hz|Hz].
  - rewrite Hz. pose proof (proj1 Hr Hz) as Hnil.
    exists r1, c1, (if r1 <? 0 then shutdown (l_take (length b1) l) else l_take (length b1) l), [].
    split_and!; [by destruct (r1 <? 0)|by rewrite Hnil in Hrep1|by apply splice_post_idle].
  - assert (∀ (X : Type) (x y : X), match hev_circular_buffer_reading c1 with [] => x | _ => y end = y) as ->
      by (intros; by destruct (hev_circular_buffer_reading c1)).
    assert (q ++ b1 ≠ []) as Hne by tauto. unfold sys_writev. rewrite Ht, Hg, Nat2Z.id.
    pose proof (call_second ao (length (q ++ b1)) (q ++ b1) ltac:(destruct (q ++ b1); simpl; [done|lia]) Hne) as H. cbn zeta in H.
    pose proof (call_bytes_prefix ao (length (q ++ b1)) (q ++ b1)) as [q' Hq'].
    set (b2 := call_bytes ao _ _) in *. clearbody b2.
    destruct (call_result ao (length b2)) as [y errno2]. destruct H as (H & H0 & H1).
    destruct (Z.leb_spec y 0) as [Hy|Hy]; eexists _, _, _, q'; (split; [reflexivity|]); (split; [|by eapply splice_post_out]).
    + rewrite (H0 Hy) in Hq'. simpl in Hq'. by rewrite <-Hq'.
    + rewrite (H1 Hy). replace q' with (drop (length b2) (q ++ b1)) by (rewrite Hq'; apply drop_app_length).
      apply circ_read; [done|]. rewrite Hq', length_app. lia.
Qed.

#[global] Instance circ_laws : SplicerLaws HevCircularBuffer := {| sp_rep := circ_rep; sp_step := circ_step |}.

Lemma new_rep max memory c :
  hev_circular_buffer_new max (Some memory) = Some c → 0 < max < 2 ^ 63 → Z.of_nat (length memory) = max → circ_rep c [].
Proof. intros [= <-] Hm Hl. split; simpl; try done; try lia. Qed.
End CircularRep.

(** ** Both directions *)

Section both_directions.
Context {S : Type} `{SplicerLaws S}.

(** A direction that started with the input [bs]: what was delivered, what is
    buffered and what is left to read are [bs]; once ended, it was shut down after
    everything read was delivered, or its output has failed with bytes left. *)
Definition dir_ok (bs : list Z) (res : Z) (s : S) (l : link) (q : list Z) : Prop :=
  sp_rep s q ∧ l_snk l ++ q ++ l_src l = bs ∧
  (res = 0 ∧ l_shut l = 0%nat ∨ res = 1 ∧ l_shut l = 0%nat ∨
   res = -1 ∧ (q = [] ∧ l_shut l = 1%nat ∨ q ≠ [] ∧ l_shut l = 0%nat)).

Definition duplex_ok (bf bb : list Z) (d : duplex) : Prop :=
  (∃ q, dir_ok bf (res_f d) (splicer_f d) (link_f d) q) ∧
  (∃ q, dir_ok bb (res_b d) (splicer_b d) (link_b d) q).

(** A direction in a turn of the loop. *)
Definition dir_turn (ai ao : kanswer) (x : Z * S * link) : Z * S * link :=
  if 0 <=? x.1.1 then task_io_splice ai ao x.1.2 x.2 else x.

Lemma splice_both_dirs t d :
  splice_both t d =
    let f := dir_turn (t_fi t) (t_fo t) (res_f d, splicer_f d, link_f d) in
    let b := dir_turn (t_bi t) (t_bo t) (res_b d, splicer_b d, link_b d) in
    mk_duplex f.1.1 b.1.1 f.1.2 b.1.2 f.2 b.2.
Proof.
  unfold splice_both, dir_turn. simpl. destruct (0 <=? res_f d), (0 <=? res_b d); simpl;
    repeat (destruct (task_io_splice _ _ _ _) as [[? ?] ?]); done.
Qed.

(** What a turn does to a direction: it keeps [dir_ok]; it delivers, or waits for
    the call that matters, or ends, or had ended before. *)
Lemma dir_turn_ok ai ao bs res s l q :
  dir_ok bs res s l q →
  ∃ res' s' l' q', dir_turn ai ao (res, s, l) = (res', s', l') ∧ dir_ok bs res' s' l' q' ∧
    (res' = 1 ∧ (length q' + length (l_src l') < length q + length (l_src l))%nat ∨
     res' = 0 ∧ (q' = [] ∧ ai = KFail EAGAIN ∨ q' ≠ [] ∧ ao = KFail EAGAIN) ∧
       (length q' + length (l_src l') = length q + length (l_src l))%nat ∨
     res' = -1 ∧ (res = -1 ∧ q' = q ∧ l' = l ∨ q' = [] ∧ suffix (l_src l') (l_src l) ∧ in_ended ai l ∨ out_failed ao)).
Proof.
  intros (Hrep & Hbs & Hres). unfold dir_turn. simpl. destruct (Z.leb_spec 0 res) as [Hge|Hlt].
  - destruct (sp_step ai ao s q l Hrep) as (res' & s' & l' & q' & -> & Hrep' & [Hb Hsrc Hsnk Hc]).
    exists res', s', l', q'. assert (l_shut l = 0%nat) as Hsh by (destruct Hres as [?|[?|?]]; lia || tauto).
    pose proof (f_equal length Hb) as Hlen. rewrite !length_app in Hlen.
    destruct Hc as [(-> & Hs & Hl)|[(-> & Hs & Hl & Hw)|[(-> & Hs & Hl & -> & Hi)|(-> & Hs & Hl & Hq & Ho)]]];
      (split; [done|]); (split; [split_and!; [done|congruence|rewrite ?Hs, ?Hsh; auto 10]|]).
    + left. split; [done|lia].
    + right; left. rewrite Hl in Hlen. split_and!; [done..|lia].
    + right; right. auto 10.
    + right; right. auto 10.
  - exists res, s, l, q. split; [done|]. split; [by split_and!|]. right; right.
    destruct Hres as [?|[?|[-> _]]]; [lia|lia|]. auto 10.
Qed.

Lemma splice_both_ok bf bb t d : duplex_ok bf bb d → duplex_ok bf bb (splice_both t d).
Proof.
  intros [[qf Hf] [qb Hb]]. rewrite splice_both_dirs.
  destruct (dir_turn_ok (t_fi t) (t_fo t) _ _ _ _ _ Hf) as (rf & sf & lf & qf' & -> & Hf' & _).
  destruct (dir_turn_ok (t_bi t) (t_bo t) _ _ _ _ _ Hb) as (rb & sb & lb & qb' & -> & Hb' & _).
  split; eauto.
Qed.

Lemma dir_ok_res bs res s l q : dir_ok bs res s l q → res = 0 ∨ res = 1 ∨ res = -1.
Proof. intros (_ & _ & Hres). tauto. Qed.

(** The three ways to go on. *)
Lemma yield_type_cases bf bb d : duplex_ok bf bb d →
  match yield_type d with
  | Some HEV_TASK_YIELD => res_f d = 1 ∨ res_b d = 1
  | Some HEV_TASK_WAITIO => (res_f d = 0 ∨ res_f d = -1) ∧ (res_b d = 0 ∨ res_b d = -1) ∧ (res_f d = 0 ∨ res_b d = 0)
  | None => res_f d = -1 ∧ res_b d = -1
  end.
Proof.
  intros [[qf Hf%dir_ok_res] [qb Hb%dir_ok_res]]. unfold yield_type.
  destruct Hf as [-> | [-> | ->]], Hb as [-> | [-> | ->]]; simpl; auto 10.
Qed.

Lemma splice_loop_ok bf bb yielder turns d e d' :
  duplex_ok bf bb d → io_splice_loop yielder turns d = Some (e, d') →
  duplex_ok bf bb d' ∧ (e = Ended → res_f d' = -1 ∧ res_b d' = -1).
Proof.
  revert d. induction turns as [|t turns IH]; intros d Hd; simpl; [done|].
  pose proof (splice_both_ok _ _ t _ Hd) as Hd1. pose proof (yield_type_cases _ _ _ Hd1) as Hy.
  destruct (yield_type (splice_both t d)) as [y|].
  - destruct (yielder && t_stop t); [|by apply IH]. intros [= <- <-]. split; [done|done].
  - intros [= <- <-]. done.
Qed.

(** Turns in which no call fails and the yielder does not stop. *)
Definition answer_ok (a : kanswer) : Prop := match a with KOk n => (0 < n)%nat | KFail e => e = EAGAIN end.
Definition turn_ok (t : turn) : Prop :=
  answer_ok (t_fi t) ∧ answer_ok (t_fo t) ∧ answer_ok (t_bi t) ∧ answer_ok (t_bo t) ∧ t_stop t = false.

Definition ready (a : kanswer) : nat := match a with KOk _ => 1 | KFail _ => 0 end.
(** The turns in which both descriptors of a direction are ready. *)
Definition ready_f (turns : list turn) : nat := sum_list ((λ t, (ready (t_fi t) * ready (t_fo t))%nat) <$> turns).
Definition ready_b (turns : list turn) : nat := sum_list ((λ t, (ready (t_bi t) * ready (t_bo t))%nat) <$> turns).

(** How many ready turns a direction still needs. *)
Definition needs (res : Z) (q : list Z) (l : link) : nat :=
  if 0 <=? res then (length q + length (l_src l) + 1)%nat else 0%nat.

(** A direction whose output does not fail is done when everything is delivered. *)
Definition dir_good (bs : list Z) (res : Z) (s : S) (l : link) (q : list Z) : Prop :=
  dir_ok bs res s l q ∧ (res = -1 → q = [] ∧ l_src l = []).

Lemma dir_turn_needs ai ao bs res s l q :
  answer_ok ai → answer_ok ao → dir_good bs res s l q →
  ∃ res' s' l' q', dir_turn ai ao (res, s, l) = (res', s', l') ∧ dir_good bs res' s' l' q' ∧
    (needs res' q' l' ≤ needs res q l - ready ai * ready ao)%nat.
Proof.
  intros Hai Hao [Hd Hg]. pose proof (dir_ok_res _ _ _ _ _ Hd) as Hr.
  destruct (dir_turn_ok ai ao _ _ _ _ _ Hd) as (res' & s' & l' & q' & Heq & Hd' & Hc).
  exists res', s', l', q'. split; [done|]. unfold needs.
  destruct Hc as [[-> Hl]|[(-> & Hw & Hl)|(-> & Hc)]].
  - split; [by split|]. simpl. destruct (Z.leb_spec 0 res); [destruct ai, ao; simpl; lia|].
    exfalso. assert (res = -1) as -> by lia. by unfold dir_turn in Heq.
  - split; [by split|]. simpl. destruct (Z.leb_spec 0 res).
    + destruct Hw as [[_ ->]|[_ ->]]; simpl; [lia|destruct ai; simpl; lia].
    + exfalso. assert (res = -1) as -> by lia. by unfold dir_turn in Heq.
  - simpl. split; [|destruct (Z.leb_spec 0 res); lia]. split; [done|]. intros _.
    destruct Hc as [(-> & -> & ->)|[(-> & Hsrc & Hi)|Ho]]; [by apply Hg| |].
    + split; [done|]. destruct ai as [n|e]; simpl in Hai, Hi; [|done]. destruct Hi as [->|Hi]; [lia|].
      rewrite Hi in Hsrc. by apply suffix_nil_inv in Hsrc.
    + destruct ao as [n|e]; simpl in *; [lia|done].
Qed.

Lemma ready_f_cons t turns : ready_f (t :: turns) = (ready (t_fi t) * ready (t_fo t) + ready_f turns)%nat.
Proof. done. Qed.
Lemma ready_b_cons t turns : ready_b (t :: turns) = (ready (t_bi t) * ready (t_bo t) + ready_b turns)%nat.
Proof. done. Qed.

Lemma splice_loop_ends bf bb yielder turns d qf qb :
  Forall turn_ok turns →
  dir_good bf (res_f d) (splicer_f d) (link_f d) qf → dir_good bb (res_b d) (splicer_b d) (link_b d) qb →
  (needs (res_f d) qf (link_f d) ≤ ready_f turns)%nat → (needs (res_b d) qb (link_b d) ≤ ready_b turns)%nat →
  (0 < length turns)%nat →
  ∃ d', io_splice_loop yielder turns d = Some (Ended, d') ∧
    l_snk (link_f d') = bf ∧ l_shut (link_f d') = 1%nat ∧ l_snk (link_b d') = bb ∧ l_shut (link_b d') = 1%nat.
Proof.
  intros Ht. revert d qf qb. induction Ht as [|t turns (Hfi & Hfo & Hbi & Hbo & Hst) Ht IH]; intros d qf qb Hf Hb Hnf Hnb Hl; [simpl in Hl; lia|].
  simpl. rewrite Hst, andb_false_r.
  destruct (dir_turn_needs (t_fi t) (t_fo t) _ _ _ _ _ Hfi Hfo Hf) as (rf & sf & lf & qf' & Ef & Hf' & Hnf').
  destruct (dir_turn_needs (t_bi t) (t_bo t) _ _ _ _ _ Hbi Hbo Hb) as (rb & sb & lb & qb' & Eb & Hb' & Hnb').
  rewrite splice_both_dirs, Ef, Eb. cbn zeta. simpl.
  assert (duplex_ok bf bb (mk_duplex rf rb sf sb lf lb)) as Hd by (split; simpl; [exists qf'; apply Hf'|exists qb'; apply Hb']).
  rewrite ready_f_cons in Hnf. rewrite ready_b_cons in Hnb.
  pose proof (yield_type_cases _ _ _ Hd) as Hy. destruct (yield_type _) as [y|].
  - assert (rf ≠ -1 ∨ rb ≠ -1) as Hne by (destruct y; simpl in Hy; lia).
    assert (0 < length turns)%nat.
    { destruct turns as [|? ?]; [|simpl; lia]. unfold ready_f, ready_b, needs in *. simpl in *.
      pose proof (dir_ok_res _ _ _ _ _ (proj1 Hf')). pose proof (dir_ok_res _ _ _ _ _ (proj1 Hb')).
      destruct (Z.leb_spec 0 rf), (Z.leb_spec 0 rb); lia. }
    apply (IH _ qf' qb'); simpl; done || lia.
  - simpl in Hy. destruct Hy as [-> ->]. eexists. split; [done|]. simpl.
    destruct Hf' as [(_ & Hbf & Hsf) Hgf], Hb' as [(_ & Hbb & Hsb) Hgb].
    destruct (Hgf eq_refl) as [-> Hsrcf], (Hgb eq_refl) as [-> Hsrcb]. rewrite Hsrcf in Hbf. rewrite Hsrcb in Hbb.
    rewrite !app_nil_r in *. split_and!; [done| |done|]; naive_solver.
Qed.
End both_directions.

(** ** The descriptors of the pipes *)

Section descriptors.
Import PipeSplicer.

Definition same_fds (s s' : HevTaskIOSplicer) : Prop := fd0 s' = fd0 s ∧ fd1 s' = fd1 s.

Lemma splice_same_fds ai ao s l : same_fds s (task_io_splice ai ao s l).1.2.
Proof.
  unfold task_io_splice, task_io_splice_pipe, sys_splice_in, sys_splice_out. case_decide.
  - simpl. destruct (negb _); simpl; [|done]. destruct (call_result ao _) as [y e]. by destruct (y <=? 0).
  - destruct (call_result ai _) as [x e]. destruct (x <=? 0); simpl.
    + destruct (negb _); simpl; [|by destruct (_ <? 0)]. destruct (call_result ao _) as [y e']. by destruct (y <=? 0).
    + destruct (negb _); simpl; [|done]. destruct (call_result ao _) as [y e']. by destruct (y <=? 0).
Qed.

Lemma splice_loop_same_fds yielder turns d e d' :
  io_splice_loop yielder turns d = Some (e, d') →
  same_fds (splicer_f d) (splicer_f d') ∧ same_fds (splicer_b d) (splicer_b d').
Proof.
  revert d. induction turns as [|t turns IH]; intros d; simpl; [done|].
  assert (same_fds (splicer_f d) (splicer_f (splice_both t d)) ∧ same_fds (splicer_b d) (splicer_b (splice_both t d))) as [Hf Hb].
  { rewrite splice_both_dirs. unfold dir_turn. simpl.
    split; [destruct (0 <=? res_f d)|destruct (0 <=? res_b d)]; (apply splice_same_fds || done). }
  destruct (yield_type _); [destruct (yielder && t_stop t)|]; try (intros [= <- <-]; done).
  intros [[H1 H2] [H3 H4]]%IH. unfold same_fds in *. naive_solver congruence.
Qed.

Lemma filter_fresh (f0 f1 : Z) fds :
  f0 ∉ fds → f1 ∉ fds → filter (λ f, f ≠ f0 ∧ f ≠ f1) (f0 :: f1 :: fds) = fds.
Proof.
  intros H0 H1. rewrite !filter_cons, !decide_False by naive_solver. apply filter_all.
  apply Forall_forall. intros x Hx. split; intros ->; done.
Qed.

(** The descriptors that [pipe2] gives are not in use. *)
Definition fresh_setup (su : setup) (fds : list Z) : Prop :=
  match su_pipe su with Some (f0, f1) => f0 ∉ fds ∧ f1 ∉ fds | None => True end.

Lemma init_closed su fds o fds' :
  fresh_setup su fds → task_io_splicer_init_pipe su fds = (o, fds') →
  match o with
  | None => fds' = fds
  | Some s => ∀ s', same_fds s s' → task_io_splicer_fini_pipe s' fds' = fds
  end.
Proof.
  unfold fresh_setup, task_io_splicer_init_pipe. destruct (su_pipe su) as [[f0 f1]|]; [|by intros _ [= <- <-]].
  intros [H0 H1]. rewrite filter_fresh by done.
  destruct (su_add0 su), (su_add1 su); intros [= <- <-]; try done.
  intros s' [E0 E1]. simpl in *. unfold task_io_splicer_fini_pipe. rewrite E0, E1. by apply filter_fresh.
Qed.

Definition setup_ok (su : setup) : Prop :=
  (0 < su_capacity su)%nat ∧ Z.of_nat (su_capacity su) < 2 ^ 63 ∧ 0 < u64 (su_size su).
End descriptors.

(** The descriptors after the first [pipe2]. *)
Definition after_first (su : PipeSplicer.setup) (fds : list Z) : list Z := (PipeSplicer.task_io_splicer_init_pipe su fds).2.

(** What is delivered in one direction, when the loop has ended or was stopped. *)
Definition delivered (bs : list Z) (e : splice_end) (l : link) : Prop :=
  ∃ q, l_snk l ++ q ++ l_src l = bs ∧
    (e = Ended → q = [] ∧ l_shut l = 1%nat ∨ q ≠ [] ∧ l_shut l = 0%nat).

Lemma dir_ok_delivered {S} `{SplicerLaws S} bs res s l q e :
  dir_ok bs res s l q → (e = Ended → res = -1) → delivered bs e l.
Proof.
  intros (_ & Hbs & Hres) He. exists q. split; [done|]. intros ->. specialize (He eq_refl). subst. naive_solver.
Qed.

(** ** Theorems *)


(** C30: forwarding finishes.  When no call on the descriptors fails and the task
    is not stopped, then after as many turns in which a direction is ready as it has
    bytes, and one more, the loop has ended: both inputs were delivered completely,
    both outputs were shut down once; with pipes and with circular buffers alike. *)
Theorem splice_finishes suf sub memf memb buf_size yielder turns bf bb fds :
  Forall turn_ok turns → (length bf < ready_f turns)%nat → (length bb < ready_b turns)%nat →
  setup_ok suf → setup_ok sub → 
  is_Some (PipeSplicer.task_io_splicer_init_pipe suf fds).1 → is_Some (PipeSplicer.task_io_splicer_init_pipe sub (after_first suf fds)).1 →
  0 < buf_size < 2 ^ 63 → Z.of_nat (length memf) = buf_size → Z.of_nat (length memb) = buf_size →
  let lf := mk_link bf [] 0 in let lb := mk_link bb [] 0 in
  (∃ d fds', hev_task_io_splice suf sub yielder turns lf lb fds = Some (Some (Ended, d), fds') ∧
    l_snk (link_f d) = bf ∧ l_shut (link_f d) = 1%nat ∧ l_snk (link_b d) = bb ∧ l_shut (link_b d) = 1%nat) ∧
  (∃ d m, hev_task_io_splice_circular buf_size (Some memf) (Some memb) yielder turns lf lb = Some (Some (Ended, d), m) ∧
    l_snk (link_f d) = bf ∧ l_shut (link_f d) = 1%nat ∧ l_snk (link_b d) = bb ∧ l_shut (link_b d) = 1%nat).
Proof.
  intros Ht Hrf Hrb (Hf1 & Hf2 & Hf3) (Hb1 & Hb2 & Hb3) Hif Hib Hs Hmf Hmb lf lb.
  assert (0 < length turns)%nat as Hl by (destruct turns; simpl; [unfold ready_f in Hrf; simpl in Hrf; lia|lia]).
  split.
  - unfold hev_task_io_splice. unfold after_first in Hib.
    destruct (PipeSplicer.task_io_splicer_init_pipe suf fds) as [o1 fds1] eqn:Ef. destruct Hif as [f Hif]. simpl in Hif. subst o1.
    simpl in Hib. destruct (PipeSplicer.task_io_splicer_init_pipe sub fds1) as [o2 fds2] eqn:Eb. destruct Hib as [b Hib]. simpl in Hib. subst o2.
    destruct (splice_loop_ends bf bb yielder turns (mk_duplex 1 1 f b lf lb) [] []) as (d & -> & Hd); simpl; try done; try lia.
    + split; [split_and!; [by eapply PipeRep.init_rep|done|auto]|done].
    + split; [split_and!; [by eapply PipeRep.init_rep|done|auto]|done].
    + unfold needs. simpl. lia.
    + unfold needs. simpl. lia.
    + eauto.
  - unfold hev_task_io_splice_circular. simpl.
    destruct (splice_loop_ends bf bb yielder turns (mk_duplex 1 1 (mk_circ 0 0 buf_size 1 memf) (mk_circ 0 0 buf_size 1 memb) lf lb) [] [])
      as (d & -> & Hd); simpl; try done; try lia.
    + split; [split_and!; [by eapply CircularRep.new_rep|done|auto]|done].
    + split; [split_and!; [by eapply CircularRep.new_rep|done|auto]|done].
    + unfold needs. simpl. lia.
    + unfold needs. simpl. lia.
    + eauto.
Qed.

Definition ex_setup (f0 f1 : Z) : PipeSplicer.setup := PipeSplicer.mk_setup (Some (f0, f1)) true true 4 4.
Definition ex_turn (fi fo bi bo : kanswer) : turn := mk_turn fi fo bi bo false.


Lemma splice_finishes_witness :
  let turns := repeat (ex_turn (KOk 2) (KOk 1) (KOk 1) (KOk 1)) 4 in
  ∃ d fds', hev_task_io_splice (ex_setup 5 6) (ex_setup 7 8) true turns (mk_link [1; 2; 3] [] 0) (mk_link [9] [] 0) [] =
      Some (Some (Ended, d), fds') ∧
    l_snk (link_f d) = [1; 2; 3] ∧ l_shut (link_f d) = 1%nat ∧ l_snk (link_b d) = [9] ∧ l_shut (link_b d) = 1%nat.
Proof.
  intros turns.
  refine (proj1 (splice_finishes (ex_setup 5 6) (ex_setup 7 8) [0; 0] [0; 0] 2 true turns [1; 2; 3] [9] []
    _ _ _ _ _ _ _ _ _ _)).
  - repeat constructor; simpl; lia.
  - apply Nat.ltb_lt. reflexivity.
  - apply Nat.ltb_lt. reflexivity.
  - split_and!; [simpl; lia..|reflexivity].
  - split_and!; [simpl; lia..|reflexivity].
  - by eexists.
  - by eexists.
  - lia.
  - reflexivity.
  - reflexivity.
Defined.

(** The bytes of a direction that are not delivered. *)
Definition left_over (q : list Z) (l : link) : nat := (length q + length (l_src l))%nat.

(** The loop sleeps only when it is woken up.  From every state of the loop,
    with any answers: if the task goes on at once, a direction has delivered
    something; if it waits for an event, each direction has ended or the call it
    depends on, on the output while it has bytes buffered and on the input otherwise,
    has just answered that it is not ready, so that its readiness is an event; the
    loop ends only when both directions have. *)
Theorem splice_waits {S} `{SplicerLaws S} bf bb t (d : duplex) qf qb :
  dir_ok bf (res_f d) (splicer_f d) (link_f d) qf → dir_ok bb (res_b d) (splicer_b d) (link_b d) qb →
  let d' := splice_both t d in
  ∃ qf' qb', dir_ok bf (res_f d') (splicer_f d') (link_f d') qf' ∧ dir_ok bb (res_b d') (splicer_b d') (link_b d') qb' ∧
    match yield_type d' with
    | Some HEV_TASK_YIELD =>
        (left_over qf' (link_f d') < left_over qf (link_f d))%nat ∨ (left_over qb' (link_b d') < left_over qb (link_b d))%nat
    | Some HEV_TASK_WAITIO =>
        (res_f d' = -1 ∨ qf' = [] ∧ t_fi t = KFail EAGAIN ∨ qf' ≠ [] ∧ t_fo t = KFail EAGAIN) ∧
        (res_b d' = -1 ∨ qb' = [] ∧ t_bi t = KFail EAGAIN ∨ qb' ≠ [] ∧ t_bo t = KFail EAGAIN)
    | None => res_f d' = -1 ∧ res_b d' = -1
    end.
Proof.
  intros Hf Hb. cbn zeta. rewrite splice_both_dirs. cbn zeta.
  destruct (dir_turn_ok (t_fi t) (t_fo t) _ _ _ _ _ Hf) as (rf & sf & lf & qf' & -> & Hf' & Cf).
  destruct (dir_turn_ok (t_bi t) (t_bo t) _ _ _ _ _ Hb) as (rb & sb & lb & qb' & -> & Hb' & Cb). simpl.
  exists qf', qb'. split; [done|]. split; [done|].
  assert (duplex_ok bf bb (mk_duplex rf rb sf sb lf lb)) as Hd by (split; simpl; eauto).
  pose proof (yield_type_cases _ _ _ Hd) as Hy. unfold left_over.
  destruct (yield_type _) as [[]|]; simpl in Hy; [| |done].
  - destruct Hy as [-> | ->]; [left|right]; naive_solver lia.
  - destruct Hy as (Hrf & Hrb & _). split; [destruct Hrf as [-> | ->]|destruct Hrb as [-> | ->]]; naive_solver lia.
Qed.

(** A circular buffer of two bytes; the output is not ready for them. *)
Lemma splice_waits_witness :
  let d := mk_duplex 1 1 (mk_circ 0 0 2 1 [0; 0]) (mk_circ 0 0 2 1 [0; 0]) (mk_link [1; 2; 3] [] 0) (mk_link [] [] 0) in
  let t := ex_turn (KOk 5) (KFail EAGAIN) (KFail EAGAIN) (KOk 1) in
  let d' := splice_both t d in
  yield_type d' = Some HEV_TASK_WAITIO ∧
  ∃ qf' qb', dir_ok [1; 2; 3] (res_f d') (splicer_f d') (link_f d') qf' ∧ dir_ok [] (res_b d') (splicer_b d') (link_b d') qb' ∧
    (res_f d' = -1 ∨ qf' = [] ∧ t_fi t = KFail EAGAIN ∨ qf' ≠ [] ∧ t_fo t = KFail EAGAIN) ∧
    (res_b d' = -1 ∨ qb' = [] ∧ t_bi t = KFail EAGAIN ∨ qb' ≠ [] ∧ t_bo t = KFail EAGAIN).
Proof.
  intros d t d'. split; [reflexivity|].
  refine (splice_waits [1; 2; 3] [] t d [] [] _ _);
    (split_and!; [by eapply (CircularRep.new_rep 2 [0; 0])|reflexivity|right; left; done]).
Defined.
