(* ===== verification/TaskTimer.v ===== *)
(** * The timers of the task system

    third-part/hev-task-system/src/kern/time/hev-task-timer.c.  A task that sleeps
    has a node on its stack, in a red-black tree by the time at which it expires;
    the scheduler asks for the time until the first one and wakes that one up.  A
    task that has been woken up takes its node out of the tree and wakes up the next
    one if it has expired too.

    The clock is an argument of the functions that read it; [hev_task_timer_wait]
    is split where the task yields. *)

From S2P Require Import Prelude RBTree TaskSystem.

Record timespec := mk_timespec { tv_sec : Z; tv_nsec : Z }.

Record HevTaskTimerNode := mk_tnode { expire : timespec; tn_task : Z }.

(** The timer and the scheduler it belongs to; the nodes are on the stacks of the
    tasks, and known by their addresses. *)
Record HevTaskTimer := mk_timer {
  sort_tree : HevRBTreeCached;
  tm_nodes : gmap Z HevTaskTimerNode;
  tm_ctx : HevTaskSystemContext;
}.

Definition hev_task_timer_cmp (a b : timespec) : Z :=
  if tv_sec a <? tv_sec b then -1
  else if tv_sec b <? tv_sec a then 1
  else if tv_nsec a <? tv_nsec b then -1
  else if tv_nsec b <? tv_nsec a then 1
  else 0.

(** [a] and [b] are the addresses of the nodes with the times [ea] and [eb]. *)
Definition hev_task_timer_node_cmp (a : Z) (ea : timespec) (b : Z) (eb : timespec) : Z :=
  let res := hev_task_timer_cmp ea eb in
  if negb (res =? 0) then res
  else if a <? b then -1
  else if b <? a then 1
  else 0.

Definition hev_task_timer_get_expire (expire : timespec) (milliseconds : Z) : timespec :=
  let sec := tv_sec expire + milliseconds / 1000 in
  let nsec := tv_nsec expire + u32 (milliseconds mod 1000 * 1000000) in
  if 1000000000 <? nsec then mk_timespec (sec + 1) (nsec - 1000000000) else mk_timespec sec nsec.

Definition hev_task_timer_get_time (curr expire : timespec) : Z :=
  let sec := tv_sec expire - tv_sec curr in
  let nsec := tv_nsec expire - tv_nsec curr in
  let '(sec, nsec) := if nsec <? 0 then (sec - 1, nsec + 1000000000) else (sec, nsec) in
  if sec <? 0 then 0 else u32 (sec * 1000 + (nsec + 999999) ÷ 1000000).

(** The result is an [int]. *)
Definition hev_task_timer_get_timeout (curr : timespec) : stm HevTaskTimer Z := λ self,
  let node := hev_rbtree_cached_first (sort_tree self) in
  if node =? 0 then Some (-1, self)
  else
    match tm_nodes self !! node with
    | Some this => Some (s32 (hev_task_timer_get_time curr (expire this)), self)
    | None => None
    end.

Definition in_tree {A} : stm HevRBTreeCached A → stm HevTaskTimer A :=
  zoom sort_tree (λ t s, mk_timer t (tm_nodes s) (tm_ctx s)).
Definition in_ctx {A} : stm HevTaskSystemContext A → stm HevTaskTimer A :=
  zoom tm_ctx (λ c s, mk_timer (sort_tree s) (tm_nodes s) c).

Definition node_load (a : Z) : stm HevTaskTimer HevTaskTimerNode := λ s,
  match tm_nodes s !! a with Some n => Some (n, s) | None => None end.

Definition hev_task_timer_wakeup (curr : timespec) : stm HevTaskTimer unit :=
  node ← gets (λ s, hev_rbtree_cached_first (sort_tree s));
  if node =? 0 then mret tt
  else
    this ← node_load node;
    if hev_task_timer_cmp curr (expire this) <? 0 then mret tt
    else in_ctx (hev_task_system_wakeup_task (tn_task this)).

Definition hev_task_timer_wake (curr : timespec) : stm HevTaskTimer unit :=
  node ← gets (λ s, hev_rbtree_cached_first (sort_tree s));
  if node =? 0 then mret tt else hev_task_timer_wakeup curr.

Definition tm_fuel (s : HevTaskTimer) : nat := S (size (rb_mem (rc_base (sort_tree s)))).

(** The loop of [hev_task_timer_wait]. *)
Fixpoint timer_insert_loop (fuel : nat) (node : Z) (e : timespec) (new : rb_link) (parent : Z) (is_leftmost : bool) :
    stm HevTaskTimer (rb_link * Z * bool) :=
  match fuel with
  | O => ub
  | S fuel =>
      n ← in_tree (in_base (get_link new));
      if n =? 0 then mret (new, parent, is_leftmost)
      else
        this ← node_load n;
        let result := hev_task_timer_node_cmp node e n (expire this) in
        if result <? 0 then timer_insert_loop fuel node e (LLeft n) n is_leftmost
        else timer_insert_loop fuel node e (LRight n) n false
  end.

(** [hev_task_timer_wait] up to the call of [hev_task_yield], with the node at the
    address [node]; the result is the variable [leftmost]. *)
Definition hev_task_timer_wait_begin (node : Z) (curr : timespec) (milliseconds task : Z) : stm HevTaskTimer bool :=
  let e := hev_task_timer_get_expire curr milliseconds in
  modify (λ s, mk_timer (sort_tree s) (<[node := mk_tnode e task]> (tm_nodes s)) (tm_ctx s));;
  in_tree (in_base (modify (λ t, mk_rbtree (rb_root t) (<[node := mk_rbnode 0 0 0]> (rb_mem t)))));;
  fuel ← gets tm_fuel;
  r ← timer_insert_loop fuel node e LRoot 0 true;
  in_tree (in_base (hev_rbtree_node_link node r.1.2 r.1.1));;
  in_tree (hev_rbtree_cached_insert_color fuel node r.2);;
  mret r.2.

(** The rest, at the time [curr]; the node is gone with the stack frame. *)
Definition hev_task_timer_wait_end (node : Z) (was_leftmost : bool) (curr : timespec) : stm HevTaskTimer Z :=
  first ← gets (λ s, hev_rbtree_cached_first (sort_tree s));
  let is_leftmost := if node =? first then true else was_leftmost in
  fuel ← gets tm_fuel;
  in_tree (hev_rbtree_cached_erase fuel node);;
  (if is_leftmost then hev_task_timer_wakeup curr else mret tt);;
  this ← node_load node;
  modify (λ s, mk_timer (sort_tree s) (delete node (tm_nodes s)) (tm_ctx s));;
  in_tree (in_base (modify (λ t, mk_rbtree (rb_root t) (delete node (rb_mem t)))));;
  mret (hev_task_timer_get_time curr (expire this)).

(** [hev_task_timer_new], when there is memory. *)
Definition hev_task_timer_new (ctx : HevTaskSystemContext) : HevTaskTimer :=
  mk_timer (mk_cached (mk_rbtree 0 ∅) 0) ∅ ctx.

(** [hev_task_system_io_poll] with its timer: [timeout] is that of the call, [curr]
    the two readings of the clock; [wait] gives the tasks of the events for the
    timeout of the reactor. *)
Definition system_io_poll (timeout : Z) (curr curr' : timespec) (wait : Z → list Z) : stm HevTaskTimer unit :=
  timeout ← (if timeout <? 0 then hev_task_timer_get_timeout curr else mret timeout);
  in_ctx (hev_task_system_io_poll (wait timeout));;
  hev_task_timer_wake curr'.
