(* ===== verification/TaskTimerProps.v ===== *)
(** * Timers: in the order of their times, and none is forgotten *)

From stdpp Require Import sorting.
From S2P Require Import Prelude RBTree RBTreeRep RBTreeInsert RBTreeErase RBTreeIter RBTreeProps RBTreeSearch TaskSystem TaskSystemQueue TaskSystemRun TaskSystemProps TaskTimer.

(** ** Times *)

(** A time in nanoseconds; the clock gives normal times, an expiry may have
    [tv_nsec] equal to one second. *)
Definition ts_ns (t : timespec) : Z := tv_sec t * 1000000000 + tv_nsec t.
Definition ts_normal (t : timespec) : Prop := 0 ≤ tv_nsec t < 1000000000.
Definition ts_ok (t : timespec) : Prop := 0 ≤ tv_nsec t ≤ 1000000000.

Lemma get_expire_ns c ms : ts_normal c → 0 ≤ ms →
  ts_ns (hev_task_timer_get_expire c ms) = ts_ns c + ms * 1000000 ∧ ts_ok (hev_task_timer_get_expire c ms).
Proof.
  unfold ts_normal, ts_ok, ts_ns, hev_task_timer_get_expire. intros Hc Hms.
  pose proof (Z.mod_pos_bound ms 1000 ltac:(lia)). pose proof (Z_div_mod_eq_full ms 1000).
  rewrite u32_small by lia. destruct (Z.ltb_spec 1000000000 (tv_nsec c + ms mod 1000 * 1000000)); simpl; lia.
Qed.

Lemma timer_cmp_ns c e : ts_normal c → ts_ok e →
  (hev_task_timer_cmp c e <? 0) = (ts_ns c <? ts_ns e).
Proof.
  unfold ts_normal, ts_ok, ts_ns, hev_task_timer_cmp. intros Hc He.
  repeat case_match; repeat match goal with H : (_ <? _) = _ |- _ => apply Z.ltb_lt in H || apply Z.ltb_ge in H end;
    destruct (Z.ltb_spec (tv_sec c * 1000000000 + tv_nsec c) (tv_sec e * 1000000000 + tv_nsec e)); simpl; done || lia.
Qed.

Lemma get_time_ns c e : ts_normal c → ts_ok e →
  let d := ts_ns e - ts_ns c in
  hev_task_timer_get_time c e = if d <=? 0 then 0 else u32 ((d + 999999) / 1000000).
Proof.
  unfold ts_normal, ts_ok, ts_ns, hev_task_timer_get_time. intros Hc He.
  set (sec := tv_sec e - tv_sec c). set (nsec := tv_nsec e - tv_nsec c). cbn zeta.
  replace (tv_sec e * 1000000000 + tv_nsec e - (tv_sec c * 1000000000 + tv_nsec c)) with (sec * 1000000000 + nsec) by lia.
  assert (-1000000000 < nsec ≤ 1000000000) as Hn by lia. clearbody sec nsec.
  assert (∀ s n, 0 ≤ n → (s * 1000000000 + n + 999999) / 1000000 = s * 1000 + (n + 999999) ÷ 1000000) as Hdiv.
  { intros s n H0. rewrite Z.quot_div_nonneg by lia.
    replace (s * 1000000000 + n + 999999) with (n + 999999 + s * 1000 * 1000000) by lia. rewrite Z.div_add by lia. lia. }
  destruct (Z.ltb_spec nsec 0) as [Hneg|Hpos].
  - replace (sec * 1000000000 + nsec) with ((sec - 1) * 1000000000 + (nsec + 1000000000)) by lia.
    rewrite Hdiv by lia. destruct (Z.ltb_spec (sec - 1) 0), (Z.leb_spec ((sec - 1) * 1000000000 + (nsec + 1000000000)) 0); done || lia.
  - rewrite Hdiv by lia. destruct (Z.ltb_spec sec 0), (Z.leb_spec (sec * 1000000000 + nsec) 0); try done; try lia.
    assert (sec = 0 ∧ nsec = 0) as [-> ->] by lia. done.
Qed.

(** ** The order of the nodes *)

Definition texp (m : gmap Z HevTaskTimerNode) (a : Z) : timespec := default (mk_timespec 0 0) (expire <$> m !! a).

(** The order of the tree, by time and then by address. *)
Definition tlt (a : Z) (ea : timespec) (b : Z) (eb : timespec) : Prop :=
  tv_sec ea < tv_sec eb ∨
  tv_sec ea = tv_sec eb ∧ (tv_nsec ea < tv_nsec eb ∨ tv_nsec ea = tv_nsec eb ∧ a < b).

Lemma node_cmp_lt a ea b eb : (hev_task_timer_node_cmp a ea b eb <? 0) = true ↔ tlt a ea b eb.
Proof.
  unfold hev_task_timer_node_cmp, hev_task_timer_cmp, tlt. cbn zeta.
  destruct (Z.ltb_spec (tv_sec ea) (tv_sec eb)); simpl; [split; [lia|done]|].
  destruct (Z.ltb_spec (tv_sec eb) (tv_sec ea)); simpl; [split; [done|lia]|].
  destruct (Z.ltb_spec (tv_nsec ea) (tv_nsec eb)); simpl; [split; [lia|done]|].
  destruct (Z.ltb_spec (tv_nsec eb) (tv_nsec ea)); simpl; [split; [done|lia]|].
  destruct (Z.ltb_spec a b); simpl; [split; [lia|done]|].
  destruct (Z.ltb_spec b a); simpl; split; done || lia.
Qed.

Definition tsorted (m : gmap Z HevTaskTimerNode) : list Z → Prop :=
  StronglySorted (λ x y, tlt x (texp m x) y (texp m y)).

Record timer_is (s : HevTaskTimer) (ys : list Z) (F : list (Z * HevRBTreeNode)) : Prop := {
  ti_tree : cached_is (sort_tree s) ys F;
  ti_nodes : ∀ x, x ∈ ys → is_Some (tm_nodes s !! x);
  ti_ok : ∀ x n, tm_nodes s !! x = Some n → ts_ok (expire n);
  ti_sorted : tsorted (tm_nodes s) ys;
}.

(** The descent to the place of the node [a] with the time [e]. *)
Definition tdescent (m : gmap Z HevTaskTimerNode) (a : Z) (e : timespec) (x : Z) : Z :=
  if hev_task_timer_node_cmp a e x (texp m x) <? 0 then -1 else 1.

Lemma tdescent_left m a e x : (tdescent m a e x <? 0) = (hev_task_timer_node_cmp a e x (texp m x) <? 0).
Proof. unfold tdescent. by destruct (hev_task_timer_node_cmp a e x (texp m x) <? 0). Qed.
Lemma tdescent_right m a e x : (0 <? tdescent m a e x) = negb (hev_task_timer_node_cmp a e x (texp m x) <? 0).
Proof. unfold tdescent. by destruct (hev_task_timer_node_cmp a e x (texp m x) <? 0). Qed.

Lemma locate_tdescent m a e k t : (locate (tdescent m a e) k t).2 = E.
Proof.
  revert k. induction t as [|c l IHl b r IHr]; intros k; simpl; [done|].
  rewrite tdescent_left, tdescent_right. by destruct (hev_task_timer_node_cmp _ _ _ _ <? 0); simpl.
Qed.

Lemma tsorted_separates m a e ys : tsorted m ys → StronglySorted (separates (tdescent m a e)) ys.
Proof.
  induction 1 as [|x xs _ IH Hx]; constructor; [done|]. eapply Forall_impl; [exact Hx|].
  intros y Hxy. unfold separates, tdescent. simpl in Hxy.
  destruct (hev_task_timer_node_cmp a e y (texp m y) <? 0) eqn:Hy; [left; lia|].
  destruct (hev_task_timer_node_cmp a e x (texp m x) <? 0) eqn:Hx'; [|right; lia].
  apply node_cmp_lt in Hx'. assert (tlt a e y (texp m y)) as H%node_cmp_lt by (unfold tlt in *; lia). congruence.
Qed.

Lemma wp_in_sort_tree {A} (c : stm HevRBTreeCached A) s Q :
  wp c (sort_tree s) (λ a t, Q a (mk_timer t (tm_nodes s) (tm_ctx s))) → wp (in_tree c) s Q.
Proof. exact (wp_zoom sort_tree (λ t s, mk_timer t (tm_nodes s) (tm_ctx s)) c s Q). Qed.
Lemma wp_in_ctx {A} (c : stm HevTaskSystemContext A) s Q :
  wp c (tm_ctx s) (λ a t, Q a (mk_timer (sort_tree s) (tm_nodes s) t)) → wp (in_ctx c) s Q.
Proof. exact (wp_zoom tm_ctx (λ c s, mk_timer (sort_tree s) (tm_nodes s) c) c s Q). Qed.
Lemma wp_node_load s a n (Q : HevTaskTimerNode → HevTaskTimer → Prop) :
  tm_nodes s !! a = Some n → Q n s → wp (node_load a) s Q.
Proof. intros H HQ. unfold wp, node_load. by rewrite H. Qed.
Lemma mk_timer_id s : mk_timer (sort_tree s) (tm_nodes s) (tm_ctx s) = s.
Proof. by destruct s. Qed.

Lemma wp_timer_insert_loop fuel s a e k t F :
  rbrep (rc_base (sort_tree s)) k t F → (∀ x, x ∈ inorder (plug k t) → is_Some (tm_nodes s !! x)) →
  (height t < fuel)%nat →
  wp (timer_insert_loop fuel a e (link_of k) (cpar k) (bool_decide (kleft k = []))) s (λ r s', s' = s ∧
    let k' := (locate (tdescent (tm_nodes s) a e) k t).1 in
    r = (link_of k', cpar k', bool_decide (kleft k' = []))).
Proof.
  revert k t. induction fuel as [|fuel IH]; intros k t Ht Hsub Hf; [lia|]. cbn [timer_insert_loop].
  apply wp_bind, wp_in_sort_tree, wp_in_base. eapply wp_get_link; [exact Ht|].
  rewrite mk_cached_id, mk_timer_id. destruct t as [|c l b r]; [by apply wp_ret|]. simpl in *.
  assert (rbrep (rc_base (sort_tree s)) (Lf c b r :: k) l F) as Hl by (by apply rbrep_plug, (rbrep_plug _ k), Ht).
  pose proof (rbrep_faddr _ _ _ _ _ Hl) as Hp. simpl in Hp.
  apply is_ptr_nonzero, Z.eqb_neq in Hp as ->.
  destruct (Hsub b) as [nb Hnb]; [rewrite inorder_plug; set_solver|].
  apply wp_bind. eapply wp_node_load; [exact Hnb|]. rewrite tdescent_left, tdescent_right.
  assert (expire nb = texp (tm_nodes s) b) as -> by (unfold texp; by rewrite Hnb).
  destruct (hev_task_timer_node_cmp a e b (texp (tm_nodes s) b) <? 0); simpl.
  - apply (IH (Lf c b r :: k) l); [done|done|lia].
  - replace false with (bool_decide (kleft (Rf c l b :: k) = []))
      by (apply bool_decide_eq_false; simpl; destruct (kleft k), (inorder l); done).
    apply (IH (Rf c l b :: k) r); [|done|lia]. by apply rbrep_plug, (rbrep_plug _ k), Ht.
Qed.

Lemma texp_insert_ne m a b n : a ≠ b → texp (<[a := n]> m) b = texp m b.
Proof. intros H. unfold texp. by rewrite lookup_insert_ne. Qed.
Lemma texp_lookup m a n : m !! a = Some n → texp m a = expire n.
Proof. intros H. unfold texp. by rewrite H. Qed.

Lemma tsorted_ext m m' ys : (∀ x, x ∈ ys → texp m' x = texp m x) → tsorted m ys → tsorted m' ys.
Proof.
  intros He. induction 1 as [|x ys _ IH Hx]; constructor; [apply IH; set_solver|].
  apply Forall_forall. intros y Hy. rewrite !He by set_solver. by eapply Forall_forall in Hx.
Qed.

Lemma tsorted_insert m a ys1 ys2 :
  tsorted m (ys1 ++ ys2) →
  Forall (λ x, tlt x (texp m x) a (texp m a)) ys1 → Forall (λ x, tlt a (texp m a) x (texp m x)) ys2 →
  tsorted m (ys1 ++ a :: ys2).
Proof.
  unfold tsorted. rewrite !StronglySorted_app. intros (Hx & H1 & H2) Ha1 Ha2. split_and!; [|done|by constructor].
  intros x y Hx1 [->|Hy]%elem_of_cons; [|by apply Hx]. by eapply Forall_forall in Ha1.
Qed.

Lemma tsorted_delete m a ys1 ys2 : tsorted m (ys1 ++ a :: ys2) → tsorted m (ys1 ++ ys2).
Proof.
  unfold tsorted. rewrite !StronglySorted_app. intros (Hx & H1 & H2). apply StronglySorted_cons in H2 as [_ H2].
  split_and!; [|done|done]. intros x y Hx1 Hy. apply Hx; set_solver.
Qed.

(** ** The scheduler below *)

Definition ctx_ok (B : Z) (c : HevTaskSystemContext) : Prop := 0 ≤ B ∧ ∃ Y F, sched_is B c Y F.
Definition awake (c : HevTaskSystemContext) (a : Z) : Prop := ∃ t, tk_tasks c !! a = Some t ∧ tk_state t = HEV_TASK_RUNNING.
Definition alive (c : HevTaskSystemContext) (a : Z) : Prop := ∃ t, tk_tasks c !! a = Some t ∧ tk_state t ≠ HEV_TASK_STOPPED.

Lemma awake_alive c a : awake c a → alive c a.
Proof. intros (t & ? & Hs). exists t. by rewrite Hs. Qed.

Lemma sched_is_mono B B' s ys F : B ≤ B' → sched_is B s ys F → sched_is B' s ys F.
Proof.
  intros HB [? ? Hok ? ? ?]. split; try done. intros a t Ht. destruct (Hok a t Ht). split; [by eapply task_ok_mono|done].
Qed.

(** Only [a] changes, and it can run then. *)
Definition woken (c c' : HevTaskSystemContext) (a : Z) : Prop :=
  awake c' a ∧ ∀ b, b ≠ a → tk_tasks c' !! b = tk_tasks c !! b.

Lemma wp_wakeup_alive B c a :
  ctx_ok B c → B + 15 < 2 ^ 64 → alive c a →
  wp (hev_task_system_wakeup_task a) c (λ _ c', ctx_ok (B + 15) c' ∧ woken c c' a).
Proof.
  intros (HB & Y & F & Hs) Hb (t & Ht & Hst). destruct (tk_state t) eqn:Hstate; [done| |].
  - unfold hev_task_system_wakeup_task. apply wp_bind. eapply wp_task_load; [exact Ht|]. rewrite Hstate. apply wp_ret.
    split; [|split; [by exists t|done]]. split; [lia|]. exists Y, F. eapply sched_is_mono; [|done]. lia.
  - eapply wp_mono; [by eapply wp_wakeup|]. intros [] c' (F' & Hs' & Ht' & _). split; [split; [lia|eauto]|].
    split; [|intros b Hne; by rewrite Ht', lookup_insert_ne].
    eexists. rewrite Ht', lookup_insert_eq. done.
Qed.

(** ** The operations of the timer *)

Lemma timer_fuel s ys F : timer_is s ys F → (length ys < tm_fuel s)%nat.
Proof.
  intros [[(t & [Hm Hr] & _ & <-) _] _ _ _]. unfold tm_fuel. rewrite (heap_size _ _ Hm), length_app.
  rewrite <-(Permutation_length (cells_fst 0 t)), length_fmap. simpl. lia.
Qed.

Lemma wp_wait_begin s ys F node curr ms task :
  timer_is s ys F → is_ptr node → rb_mem (rc_base (sort_tree s)) !! node = None → tm_nodes s !! node = None →
  ts_normal curr → 0 ≤ ms →
  wp (hev_task_timer_wait_begin node curr ms task) s (λ r s', ∃ ys1 ys2, ys = ys1 ++ ys2 ∧
    timer_is s' (ys1 ++ node :: ys2) F ∧ r = bool_decide (ys1 = []) ∧ tm_ctx s' = tm_ctx s ∧
    tm_nodes s' = <[node := mk_tnode (hev_task_timer_get_expire curr ms) task]> (tm_nodes s)).
Proof.
  intros [[Hd Hl] Hn Hok Hs] Hp Hfresh Hnn Hc Hms. unfold hev_task_timer_wait_begin.
  set (e := hev_task_timer_get_expire curr ms).
  assert (ts_ok e) as Hte by (by apply get_expire_ns).
  assert (node ∉ ys) as Hnin. { intros Hin. destruct (Hn _ Hin) as [? Hx]. by rewrite Hnn in Hx. }
  apply wp_bind, wp_modify, wp_bind, wp_in_sort_tree, wp_in_base, wp_modify, wp_bind, wp_gets.
  set (s1 := mk_timer _ _ _). set (m := tm_nodes s1).
  pose proof (rb_done_alloc _ _ _ node (mk_rbnode 0 0 0) Hd Hp Hfresh) as (tr & Ht & Hrb & Hin).
  assert (texp m node = e) as Hae by (unfold texp, m; simpl; by rewrite lookup_insert_eq).
  assert (tsorted m ys) as Hs1.
  { eapply tsorted_ext; [|exact Hs]. intros x Hx. apply texp_insert_ne. by intros ->. }
  assert (tsize tr < tm_fuel s1)%nat as Hf.
  { unfold tm_fuel. destruct Ht as [Hm _]. simpl in Hm |- *. rewrite (heap_size _ _ Hm), length_app.
    rewrite tsize_inorder, <-(Permutation_length (cells_fst 0 tr)), length_fmap. simpl. lia. }
  pose proof (height_tsize tr) as Hh. apply wp_bind.
  eapply wp_mono; [eapply (wp_timer_insert_loop _ s1 node e [] tr); [exact Ht| |lia]|].
  { simpl. rewrite Hin. intros x Hx. rewrite lookup_insert_ne by (by intros ->). by apply Hn. }
  intros r s' [-> ->]. fold m. pose proof (locate_plug (tdescent m node e) [] tr) as Hpl.
  pose proof (locate_tdescent m node e [] tr) as HE.
  destruct (locate_miss (tdescent m node e) [] tr HE) as [Hkl Hkr];
    [rewrite Hin; by apply tsorted_separates|constructor|constructor|].
  destruct (locate _ [] tr) as [k e0] eqn:Hloc. simpl in Hpl, HE, Hkl, Hkr |- *. subst e0 tr.
  rewrite inorder_plug in Hin. simpl in Hin. apply (rbrep_plug _ k) in Ht.
  pose proof (ctx_length k) as Hck. rewrite <-length_app, Hin in Hck.
  rewrite tsize_inorder, inorder_plug, length_app in Hf. simpl in Hf. rewrite <-length_app, Hin in Hf.
  apply wp_bind, wp_in_sort_tree.
  eapply wp_mono; [apply (wp_cached_insert (tm_fuel s1) (sort_tree s1) k node _ F Ht Hrb ltac:(lia)); simpl; by rewrite Hl, Hin|].
  intros [] c1 Hins. apply wp_bind, wp_in_sort_tree. eapply wp_mono; [exact Hins|]. intros [] c2 Hc2. apply wp_ret.
  exists (kleft k), (kright k). split; [done|]. split_and!; [|done|done|done].
  split; simpl; [done| | |].
  - intros x Hx. destruct (decide (x = node)) as [->|Hne]; [by rewrite lookup_insert_eq|].
    rewrite lookup_insert_ne by done. apply Hn. rewrite <-Hin. set_solver.
  - intros x nx [[<- <-]|[? ?]]%lookup_insert_Some; [done|eauto].
  - change (tsorted m (kleft k ++ node :: kright k)). apply tsorted_insert; [by rewrite Hin| |].
    + rewrite Hae. apply Forall_forall. intros x Hx. eapply Forall_forall in Hkl; [|exact Hx].
      assert (x ≠ node) as Hne by (intros ->; apply Hnin; rewrite <-Hin; set_solver).
      unfold tdescent in Hkl. destruct (hev_task_timer_node_cmp node e x (texp m x) <? 0) eqn:Hcmp; [lia|].
      assert (¬ tlt node e x (texp m x)) as Hnot by (by rewrite <-node_cmp_lt, Hcmp). unfold tlt in *. lia.
    + rewrite Hae. eapply Forall_impl; [exact Hkr|]. intros x Hx. simpl in Hx.
      unfold tdescent in Hx. apply node_cmp_lt. by destruct (hev_task_timer_node_cmp node e x (texp m x) <? 0).
Qed.

(** The first of [ys] is woken up if it has expired; nothing else happens. *)
Definition checked (m : gmap Z HevTaskTimerNode) (curr : timespec) (ys : list Z) (c c' : HevTaskSystemContext) : Prop :=
  match ys with
  | [] => c' = c
  | y :: _ => ∃ n, m !! y = Some n ∧
      if decide (ts_ns (expire n) ≤ ts_ns curr) then woken c c' (tn_task n) else c' = c
  end.

Definition tasks_alive (s : HevTaskTimer) : Prop := ∀ y n, tm_nodes s !! y = Some n → alive (tm_ctx s) (tn_task n).

Lemma ctx_ok_mono B B' c : B ≤ B' → ctx_ok B c → ctx_ok B' c.
Proof. intros H (HB & Y & F & Hs). split; [lia|]. exists Y, F. by eapply sched_is_mono. Qed.

Lemma wp_timer_wakeup B s ys F curr :
  cached_is (sort_tree s) ys F → (∀ x, x ∈ ys → ∃ n, tm_nodes s !! x = Some n ∧ ts_ok (expire n)) →
  tasks_alive s → ctx_ok B (tm_ctx s) → B + 15 < 2 ^ 64 → ts_normal curr →
  wp (hev_task_timer_wakeup curr) s (λ _ s', ∃ c', s' = mk_timer (sort_tree s) (tm_nodes s) c' ∧
    ctx_ok (B + 15) c' ∧ checked (tm_nodes s) curr ys (tm_ctx s) c').
Proof.
  intros [Hd Hl] Hn Ha Hc HB Hcu. unfold hev_task_timer_wakeup, hev_rbtree_cached_first. apply wp_bind, wp_gets. rewrite Hl.
  destruct ys as [|y ys]; simpl.
  { apply wp_ret. exists (tm_ctx s). split; [by destruct s|]. split; [by eapply ctx_ok_mono, Hc; lia|done]. }
  pose proof (rb_done_ptr _ _ _ y Hd ltac:(set_solver)) as Hp. apply is_ptr_nonzero, Z.eqb_neq in Hp as ->.
  destruct (Hn y ltac:(set_solver)) as (n & Hy & Hok). apply wp_bind. eapply wp_node_load; [exact Hy|].
  rewrite timer_cmp_ns by done. destruct (Z.ltb_spec (ts_ns curr) (ts_ns (expire n))) as [Hlt|Hge].
  - apply wp_ret. exists (tm_ctx s). split; [by destruct s|]. split; [by eapply ctx_ok_mono, Hc; lia|].
    exists n. split; [done|]. by rewrite decide_False by lia.
  - apply wp_in_ctx. eapply wp_mono; [apply (wp_wakeup_alive B); [done|done|by eapply Ha]|].
    intros [] c' [Hc' Hw]. exists c'. split; [done|]. split; [done|]. exists n. split; [done|]. by rewrite decide_True by lia.
Qed.

Lemma wp_timer_wake B s ys F curr :
  timer_is s ys F → tasks_alive s → ctx_ok B (tm_ctx s) → B + 15 < 2 ^ 64 → ts_normal curr →
  wp (hev_task_timer_wake curr) s (λ _ s', ∃ c', s' = mk_timer (sort_tree s) (tm_nodes s) c' ∧
    ctx_ok (B + 15) c' ∧ checked (tm_nodes s) curr ys (tm_ctx s) c').
Proof.
  intros [Hd Hn Hok Hs] Ha Hc HB Hcu. unfold hev_task_timer_wake, hev_rbtree_cached_first. apply wp_bind, wp_gets.
  assert (∀ x, x ∈ ys → ∃ n, tm_nodes s !! x = Some n ∧ ts_ok (expire n)) as Hn'.
  { intros x Hx. destruct (Hn x Hx) as [n Hxn]. eauto. }
  destruct (Z.eqb_spec (leftmost (sort_tree s)) 0) as [Hz|Hz]; [|by eapply wp_timer_wakeup].
  destruct Hd as [Hd Hl]. destruct ys as [|y ys].
  - apply wp_ret. exists (tm_ctx s). split; [by destruct s|]. split; [by eapply ctx_ok_mono, Hc; lia|done].
  - exfalso. rewrite Hl in Hz. simpl in Hz. pose proof (rb_done_ptr _ _ _ y Hd ltac:(set_solver)) as Hp.
    by apply is_ptr_nonzero in Hp.
Qed.

Lemma wp_wait_end B s ys1 node ys2 F was curr n :
  timer_is s (ys1 ++ node :: ys2) F → tm_nodes s !! node = Some n →
  tasks_alive s → ctx_ok B (tm_ctx s) → B + 15 < 2 ^ 64 → ts_normal curr →
  wp (hev_task_timer_wait_end node was curr) s (λ r s', timer_is s' (ys1 ++ ys2) F ∧
    tm_nodes s' = delete node (tm_nodes s) ∧ r = hev_task_timer_get_time curr (expire n) ∧ ctx_ok (B + 15) (tm_ctx s') ∧
    if bool_decide (ys1 = []) || was then checked (tm_nodes s) curr (ys1 ++ ys2) (tm_ctx s) (tm_ctx s')
    else tm_ctx s' = tm_ctx s).
Proof.
  intros Hti Hnode Ha Hc HB Hcu. pose proof Hti as [Hd Hn Hok Hs]. pose proof (timer_fuel _ _ _ Hti) as Hf.
  unfold hev_task_timer_wait_end, hev_rbtree_cached_first. apply wp_bind, wp_gets.
  assert (NoDup (ys1 ++ node :: ys2)) as Hnd by (destruct Hd as [Hd _]; apply rb_done_NoDup in Hd; by apply NoDup_app in Hd as (? & _ & _)).
  apply NoDup_app in Hnd as (_ & Hnd1 & [Hnd2 _]%NoDup_cons).
  assert ((if node =? leftmost (sort_tree s) then true else was) = bool_decide (ys1 = []) || was) as ->.
  { rewrite (proj2 Hd). destruct ys1 as [|y ys1]; simpl; [by rewrite Z.eqb_refl|].
    rewrite (proj2 (Z.eqb_neq node y)); [done|]. intros ->. apply (Hnd1 y); set_solver. }
  apply wp_bind, wp_gets, wp_bind, wp_in_sort_tree. eapply wp_mono; [apply (wp_cached_erase_at _ _ _ _ _ _ Hd); lia|].
  intros [] c1 [n1 Hc1]. apply wp_bind.
  assert (∀ c', wp (this ← node_load node;
      modify (λ s, mk_timer (sort_tree s) (delete node (tm_nodes s)) (tm_ctx s));;
      in_tree (in_base (modify (λ t, mk_rbtree (rb_root t) (delete node (rb_mem t)))));;
      mret (hev_task_timer_get_time curr (expire this))) (mk_timer c1 (tm_nodes s) c')
    (λ r s', timer_is s' (ys1 ++ ys2) F ∧ tm_nodes s' = delete node (tm_nodes s) ∧
      r = hev_task_timer_get_time curr (expire n) ∧ tm_ctx s' = c')) as Hrest.
  { intros c'. apply wp_bind. eapply wp_node_load; [exact Hnode|].
    apply wp_bind, wp_modify, wp_bind, wp_in_sort_tree, wp_in_base, wp_modify, wp_ret. split_and!; try done.
    assert (∀ x, x ∈ ys1 ++ ys2 → x ≠ node) as Hne.
    { intros x Hx ->. apply elem_of_app in Hx as [Hx|Hx]; [by apply (Hnd1 node); set_solver|done]. }
    split; simpl.
    - split; simpl; [|apply Hc1]. eapply rb_done_free, Hc1.
    - intros x Hx. rewrite lookup_delete_ne by (symmetry; auto). apply Hn. set_solver.
    - intros x nx [_ Hx]%lookup_delete_Some. eauto.
    - eapply tsorted_ext; [|by eapply tsorted_delete]. intros x Hx. unfold texp. by rewrite lookup_delete_ne by (symmetry; auto). }
  destruct (bool_decide (ys1 = []) || was).
  - eapply wp_mono; [apply (wp_timer_wakeup B _ (ys1 ++ ys2) ((node, n1) :: F)); simpl; try done|].
    + intros x Hx. destruct (Hn x) as [nx Hnx]; [set_solver|]. eauto.
    + intros [] s2 (c' & -> & Hc' & Hch). simpl in *. eapply wp_mono; [apply Hrest|].
      intros r s' (H1 & H2 & H3 & ->). by split_and!.
  - apply wp_ret. eapply wp_mono; [apply Hrest|]. intros r s' (H1 & H2 & H3 & ->). split_and!; try done.
    eapply ctx_ok_mono, Hc. lia.
Qed.

(** ** Several timers *)

(** Woken up tasks take their nodes out, in turn: the node, the value of [leftmost]
    it has kept, and the time. *)
Fixpoint waits_end (l : list (Z * bool * timespec)) : stm HevTaskTimer unit :=
  match l with
  | [] => mret tt
  | x :: l => hev_task_timer_wait_end x.1.1 x.1.2 x.2;; waits_end l
  end.

Definition first_awake (s : HevTaskTimer) (ys : list Z) : Prop :=
  ∃ y n, head ys = Some y ∧ tm_nodes s !! y = Some n ∧ awake (tm_ctx s) (tn_task n).

Lemma checked_awake m curr y ys c c' n :
  checked m curr (y :: ys) c c' → m !! y = Some n → ts_ns (expire n) ≤ ts_ns curr → awake c' (tn_task n).
Proof. intros (n' & Hn' & H) Hn He. assert (n' = n) as -> by congruence. rewrite decide_True in H by done. apply H. Qed.

Lemma checked_alive m curr ys c c' a : checked m curr ys c c' → alive c a → alive c' a.
Proof.
  intros Hc (t & Ht & Hst). destruct ys as [|y ys]; simpl in Hc; [subst; by exists t|].
  destruct Hc as (n & _ & Hc). case_decide; [|subst; by exists t]. destruct Hc as [Hw Ho].
  destruct (decide (a = tn_task n)) as [->|Hne]; [by apply awake_alive|]. exists t. by rewrite Ho.
Qed.

Lemma waits_end_awake (c : timespec) l B s ys F :
  timer_is s (l.*1.*1 ++ ys) F → ys ≠ [] → tasks_alive s → ctx_ok B (tm_ctx s) →
  B + 15 * Z.of_nat (length l) < 2 ^ 64 →
  Forall (λ x, ts_normal x.2 ∧ ts_ns c ≤ ts_ns x.2) l → (∀ y n, tm_nodes s !! y = Some n → ts_ns (expire n) ≤ ts_ns c) →
  first_awake s (l.*1.*1 ++ ys) →
  wp (waits_end l) s (λ _ s', timer_is s' ys F ∧ first_awake s' ys).
Proof.
  intros Ht Hne Ha Hc HB Hl. revert B s Ht Ha Hc HB. induction Hl as [|[[z was] cz] l [Hnz Hcz] _ IH]; intros B s Ht Ha Hc HB He Hfa.
  { apply wp_ret. done. }
  simpl in *. apply wp_bind. destruct (ti_nodes _ _ _ Ht z) as [nz Hz]; [set_solver|].
  eapply wp_mono; [apply (wp_wait_end B s [] z (l.*1.*1 ++ ys) F was cz nz Ht Hz Ha Hc); [lia|done]|].
  simpl. intros r s' (Ht' & Hn' & _ & Hc' & Hch).
  assert (∀ y n, tm_nodes s' !! y = Some n → tm_nodes s !! y = Some n) as Hsub.
  { intros y n. rewrite Hn'. by intros [_ ?]%lookup_delete_Some. }
  apply (IH (B + 15)); try done; [|lia|by eauto|].
  - intros y n Hy. eapply checked_alive; [exact Hch|]. eauto.
  - destruct (l.*1.*1 ++ ys) as [|y ys'] eqn:Hys; [by apply app_nil in Hys as [_ ->]|].
    destruct (ti_nodes _ _ _ Ht' y) as [n Hy]; [set_solver|]. exists y, n. split_and!; [done|done|].
    eapply checked_awake; [exact Hch|by apply Hsub|]. specialize (He y n (Hsub _ _ Hy)). lia.
Qed.

(** ** The theorems *)

(** Waiting on a timer.  The tree is the sequence of the sleeping tasks in the
    order of their expiry (and of their addresses).  A task that goes to sleep is
    put at its place, with the time that is [milliseconds] after the clock, exact to
    the nanosecond, and learns whether it is the first.  When it runs again it is
    taken out, and gets the time left, in milliseconds rounded up, zero if it has
    expired; if it was the first one, or had been at the start, the next one is
    woken up when that has expired, and no other task ever. *)
Theorem timer_wait_ordered B s ys F node curr ms task :
  timer_is s ys F → is_ptr node → rb_mem (rc_base (sort_tree s)) !! node = None → tm_nodes s !! node = None →
  ts_normal curr → 0 ≤ ms < 2 ^ 32 → tasks_alive s → ctx_ok B (tm_ctx s) → B + 15 < 2 ^ 64 →
  ∃ was s1 ys1 ys2 n, hev_task_timer_wait_begin node curr ms task s = Some (was, s1) ∧
    ys = ys1 ++ ys2 ∧ timer_is s1 (ys1 ++ node :: ys2) F ∧ was = bool_decide (ys1 = []) ∧ tm_ctx s1 = tm_ctx s ∧
    tm_nodes s1 = <[node := n]> (tm_nodes s) ∧ tn_task n = task ∧ ts_ns (expire n) = ts_ns curr + ms * 1000000 ∧
    ∀ curr', ts_normal curr' → ts_ns curr ≤ ts_ns curr' → alive (tm_ctx s) task →
      let left := ts_ns curr + ms * 1000000 - ts_ns curr' in
      ∃ r s2, hev_task_timer_wait_end node was curr' s1 = Some (r, s2) ∧ timer_is s2 ys F ∧ tm_nodes s2 = tm_nodes s ∧
        r = (if left <=? 0 then 0 else (left + 999999) / 1000000) ∧
        if was then checked (tm_nodes s) curr' ys (tm_ctx s) (tm_ctx s2) else tm_ctx s2 = tm_ctx s.
Proof.
  intros Ht Hp Hf Hn Hcu Hms Ha Hc HB.
  destruct (wp_run _ _ _ (wp_wait_begin s ys F node curr ms task Ht Hp Hf Hn Hcu ltac:(lia)))
    as (was & s1 & Hrun & ys1 & ys2 & Hys & Ht1 & Hwas & Hctx & Hnodes).
  destruct (get_expire_ns curr ms Hcu ltac:(lia)) as [Hns Hok].
  eexists was, s1, ys1, ys2, _. split_and!; [exact Hrun|done|done|done|done|exact Hnodes|done|done|].
  intros curr' Hcu' Hle Hal left.
  destruct (wp_run _ _ _ (wp_wait_end B s1 ys1 node ys2 F was curr' (mk_tnode (hev_task_timer_get_expire curr ms) task) Ht1
    ltac:(by rewrite Hnodes, lookup_insert_eq)
    ltac:(intros y n; rewrite Hnodes, Hctx; intros [[<- <-]|[_ ?]]%lookup_insert_Some; [done|by eapply Ha])
    ltac:(by rewrite Hctx) HB Hcu')) as (r & s2 & Hend & Ht2 & Hn2 & Hr & _ & Hch).
  assert (tm_nodes s2 = tm_nodes s) as Hsame by (rewrite Hn2, Hnodes; by rewrite delete_insert_id).
  exists r, s2. split_and!; [done|by rewrite Hys|done| |].
  - rewrite Hr, get_time_ns by done. simpl. rewrite Hns. fold left. destruct (Z.leb_spec left 0); [done|].
    apply u32_small. split; [apply Z.div_pos; lia|]. apply Z.div_lt_upper_bound; [lia|]. unfold left. lia.
  - rewrite Hwas in *. rewrite orb_diag in Hch. case_bool_decide as Hnil; [|by rewrite Hctx in Hch].
    subst ys1. simpl in *. rewrite Hctx in Hch. rewrite Hys. destruct ys2 as [|y ys2]; [done|].
    destruct Hch as (n & Hyn & Hch). exists n. split; [|done]. rewrite Hnodes in Hyn. rewrite lookup_insert_ne in Hyn; [done|].
    intros ->. destruct (ti_nodes _ _ _ Ht y) as [? Hx]; [rewrite Hys; set_solver|]. by rewrite Hn in Hx.
Qed.

(** Two sleeping tasks: the one that waits (24) until 5 s, another until 6 s. *)
Definition ex_nodes : gmap Z HevTaskTimerNode :=
  {[32 := mk_tnode (mk_timespec 5 0) 24; 40 := mk_tnode (mk_timespec 6 0) 8]}.
Definition ex_timer : HevTaskTimer :=
  mk_timer (mk_cached (tree_state (T Black E 32 (T Red E 40 E)) []) 32) ex_nodes ex_ctx.

Lemma ex_timer_is : timer_is ex_timer [32; 40] [].
Proof.
  split.
  - split; [|done]. exists (T Black E 32 (T Red E 40 E)).
    split_and!; [apply tree_state_is; by vm_compute|exists 1%nat; repeat econstructor|done].
  - intros x Hx. apply (bool_decide_unpack _).
    apply elem_of_cons in Hx as [->|[-> | []%not_elem_of_nil]%elem_of_cons]; by vm_compute.
  - intros x n Hx. unfold ex_timer, ex_nodes in Hx. simpl in Hx.
    apply lookup_insert_Some in Hx as [[<- <-]|[_ Hx]]; [split; simpl; lia|].
    apply lookup_singleton_Some in Hx as [<- <-]. split; simpl; lia.
  - repeat constructor.
Qed.

Lemma ex_timer_alive : tasks_alive ex_timer.
Proof.
  intros x n Hx. unfold ex_timer, ex_nodes in Hx. simpl in Hx.
  apply lookup_insert_Some in Hx as [[<- <-]|[_ Hx]]; [by eexists|].
  apply lookup_singleton_Some in Hx as [<- <-]. by eexists.
Qed.

Lemma ex_timer_ctx : ctx_ok 15 (tm_ctx ex_timer).
Proof. split; [lia|]. eexists _, _. exact ex_ctx_sched. Qed.

(** The current task sleeps for 100 ms from 3.95 s; at 7 s it is overdue, and the
    task that waits until 5 s is woken up. *)
Lemma timer_wait_ordered_witness :
  ∃ was s1 ys1 ys2 n, hev_task_timer_wait_begin 48 (mk_timespec 3 950000000) 100 16 ex_timer = Some (was, s1) ∧
    [32; 40] = ys1 ++ ys2 ∧ timer_is s1 (ys1 ++ 48 :: ys2) [] ∧ was = bool_decide (ys1 = []) ∧ tm_ctx s1 = ex_ctx ∧
    tm_nodes s1 = <[48 := n]> ex_nodes ∧ tn_task n = 16 ∧ ts_ns (expire n) = 4050000000 ∧
    ∀ curr', ts_normal curr' → 3950000000 ≤ ts_ns curr' → alive ex_ctx 16 →
      let left := 4050000000 - ts_ns curr' in
      ∃ r s2, hev_task_timer_wait_end 48 was curr' s1 = Some (r, s2) ∧ timer_is s2 [32; 40] [] ∧ tm_nodes s2 = ex_nodes ∧
        r = (if left <=? 0 then 0 else (left + 999999) / 1000000) ∧
        if was then checked ex_nodes curr' [32; 40] ex_ctx (tm_ctx s2) else tm_ctx s2 = ex_ctx.
Proof.
  exact (timer_wait_ordered 15 ex_timer [32; 40] [] 48 (mk_timespec 3 950000000) 100 16 ex_timer_is
    ltac:(split; [lia|reflexivity]) ltac:(reflexivity) ltac:(reflexivity) ltac:(split; simpl; lia) ltac:(lia)
    ex_timer_alive ex_timer_ctx ltac:(lia)).
Defined.

(** The time until the first timer.  The timeout that the scheduler passes to
    the reactor is zero if the first timer has expired, and otherwise the time to
    its expiry in milliseconds, rounded up: it has expired when that time is over,
    had not a millisecond before, and none of the others expires earlier.  This
    holds for timers up to 2^31 - 1 milliseconds away. *)
Theorem timer_timeout s y ys F n curr :
  timer_is s (y :: ys) F → tm_nodes s !! y = Some n → ts_normal curr →
  ts_ns (expire n) - ts_ns curr ≤ 2147483647 * 1000000 →
  ∃ r, hev_task_timer_get_timeout curr s = Some (r, s) ∧
    ts_ns (expire n) ≤ ts_ns curr + r * 1000000 ∧
    (r = 0 ∧ ts_ns (expire n) ≤ ts_ns curr ∨ 0 < r ∧ ts_ns curr + (r - 1) * 1000000 < ts_ns (expire n)) ∧
    (∀ x nx, x ∈ ys → tm_nodes s !! x = Some nx → ts_ns (expire n) ≤ ts_ns (expire nx)).
Proof.
  intros [[Hd Hl] Hn Hok Hs] Hy Hc Hlim. unfold hev_task_timer_get_timeout, hev_rbtree_cached_first.
  rewrite Hl. simpl. pose proof (rb_done_ptr _ _ _ y Hd ltac:(set_solver)) as Hp. apply is_ptr_nonzero, Z.eqb_neq in Hp as ->.
  rewrite Hy, get_time_ns by eauto. set (d := ts_ns (expire n) - ts_ns curr).
  eexists. split; [reflexivity|].
  assert (∀ x nx, x ∈ ys → tm_nodes s !! x = Some nx → ts_ns (expire n) ≤ ts_ns (expire nx)) as Hfirst.
  { intros x nx Hx Hnx. apply StronglySorted_cons in Hs as [Hh _]. eapply Forall_forall in Hh; [|exact Hx]. simpl in Hh.
    rewrite (texp_lookup _ _ _ Hy), (texp_lookup _ _ _ Hnx) in Hh. pose proof (Hok _ _ Hy) as [? ?]. pose proof (Hok _ _ Hnx) as [? ?].
    unfold tlt, ts_ns in *. lia. }
  destruct (Z.leb_spec d 0) as [Hd0|Hd0].
  - change (s32 0) with 0. split_and!; [lia|left; lia|done].
  - pose proof (Z_div_mod_eq_full (d + 999999) 1000000) as Hq. pose proof (Z.mod_pos_bound (d + 999999) 1000000 ltac:(lia)) as Hm.
    set (q := (d + 999999) / 1000000) in *. assert (0 < q ≤ 2147483647) as Hqb by lia.
    rewrite u32_small by lia. assert (s32 q = q) as -> by (unfold s32; rewrite Z.mod_small; lia).
    split_and!; [lia|right; lia|done].
Qed.

Lemma timer_timeout_witness :
  ∃ r, hev_task_timer_get_timeout (mk_timespec 4 999000001) ex_timer = Some (r, ex_timer) ∧
    5000000000 ≤ 4999000001 + r * 1000000 ∧
    (r = 0 ∧ 5000000000 ≤ 4999000001 ∨ 0 < r ∧ 4999000001 + (r - 1) * 1000000 < 5000000000) ∧
    (∀ x nx, x ∈ [40] → ex_nodes !! x = Some nx → 5000000000 ≤ ts_ns (expire nx)).
Proof.
  exact (timer_timeout ex_timer 32 [40] [] (mk_tnode (mk_timespec 5 0) 24) (mk_timespec 4 999000001) ex_timer_is
    ltac:(reflexivity) ltac:(split; simpl; lia) ltac:(vm_compute; discriminate)).
Defined.

(** A timer that is further away gives a negative timeout, for which the reactor
    waits without end. *)
Theorem timer_timeout_overflow :
  fst <$> (hev_task_timer_wait_begin 32 (mk_timespec 1 0) 2147483648 24 ≫= λ _, hev_task_timer_get_timeout (mk_timespec 1 0))
    (hev_task_timer_new ex_ctx) = Some (-2147483648).
Proof. vm_compute. reflexivity. Qed.

(** An expiry on the full second is not normalised: [tv_nsec] is one second. *)
Theorem timer_expire_full_second :
  hev_task_timer_get_expire (mk_timespec 1 500000000) 500 = mk_timespec 1 1000000000.
Proof. reflexivity. Qed.

(** C20: no expired timer is forgotten.  When the first timers have all expired, the
    scheduler wakes up the first task; each of the woken tasks that takes its node
    out, at whatever later time, wakes up the next one.  So after any number of
    them the task of the next timer can run, whichever values of [leftmost] the
    tasks have kept. *)
Theorem timers_all_wake c l B s ys F :
  timer_is s (l.*1.*1 ++ ys) F → ys ≠ [] → tasks_alive s → ctx_ok B (tm_ctx s) →
  B + 15 * Z.of_nat (S (length l)) < 2 ^ 64 → ts_normal c →
  Forall (λ x, ts_normal x.2 ∧ ts_ns c ≤ ts_ns x.2) l → (∀ y n, tm_nodes s !! y = Some n → ts_ns (expire n) ≤ ts_ns c) →
  ∃ s', (hev_task_timer_wake c;; waits_end l) s = Some (tt, s') ∧ timer_is s' ys F ∧ first_awake s' ys.
Proof.
  intros Ht Hne Ha Hc HB Hcn Hl He.
  assert (wp (hev_task_timer_wake c;; waits_end l) s (λ _ s', timer_is s' ys F ∧ first_awake s' ys)) as H.
  { apply wp_bind. eapply wp_mono; [apply (wp_timer_wake B s _ F c Ht Ha Hc); [lia|done]|].
    intros [] s' (c' & -> & Hc' & Hch). apply (waits_end_awake c l (B + 15)); simpl; try done; [| |lia|].
    - by destruct Ht.
    - intros y n Hy. eapply checked_alive; [exact Hch|]. by eapply Ha.
    - destruct (l.*1.*1 ++ ys) as [|y ys'] eqn:Hys; [by apply app_nil in Hys as [_ ->]|].
      destruct (ti_nodes _ _ _ Ht y) as [n Hy]; [set_solver|]. exists y, n. split_and!; [done|done|].
      eapply checked_awake; [exact Hch|done|by eapply He]. }
  apply wp_run in H as ([] & s' & ? & ?). by exists s'.
Qed.

Lemma timers_all_wake_witness :
  ∃ s', (hev_task_timer_wake (mk_timespec 7 0);; waits_end [(32, true, mk_timespec 7 100)]) ex_timer = Some (tt, s') ∧
    timer_is s' [40] [] ∧ first_awake s' [40].
Proof.
  refine (timers_all_wake (mk_timespec 7 0) [(32, true, mk_timespec 7 100)] 15 ex_timer [40] [] ex_timer_is
    ltac:(done) ex_timer_alive ex_timer_ctx ltac:(simpl; lia) ltac:(split; simpl; lia) _ _).
  - repeat constructor; vm_compute; discriminate || reflexivity.
  - intros x n Hx. unfold ex_timer, ex_nodes in Hx. simpl in Hx.
    apply lookup_insert_Some in Hx as [[<- <-]|[_ Hx]]; [vm_compute; discriminate|].
    apply lookup_singleton_Some in Hx as [<- <-]. vm_compute. discriminate.
Defined.
