(* ===== verification/TaskSync.v ===== *)
(** * Mutexes and conditions of the task system

    third-part/hev-task-system/src/kern/sync: hev-task-mutex.c and hev-task-cond.c.
    The waiting tasks are in a stack of nodes that are on their stacks.  Functions
    that yield are split there.  Of the scheduler the set of the tasks that can run
    is kept: [hev_task_wakeup] adds a task to it, a task that yields to wait leaves
    it. *)

From S2P Require Import Prelude.

(** ** The mutex *)

Record HevTaskMutexNode := mk_mnode { mn_next : Z; mn_task : Z }.

(** A mutex, with the nodes of its waiters and the tasks that can run. *)
Record HevTaskMutex := mk_mutex {
  locker : Z;
  waiters : Z;
  mx_nodes : gmap Z HevTaskMutexNode;
  mx_run : gset Z;
}.

Definition hev_task_mutex_init (run : gset Z) : HevTaskMutex := mk_mutex 0 0 ∅ run.

Definition mx_set_locker (l : Z) (s : HevTaskMutex) : HevTaskMutex := mk_mutex l (waiters s) (mx_nodes s) (mx_run s).

(** Where [hev_task_mutex_lock] has got to. *)
Inductive lock_state := Locked | Yielded.

(** [hev_task_mutex_lock] by the task [self] up to its end or its first yield;
    [node] is the address of its node. *)
Definition hev_task_mutex_lock_begin (self node : Z) : stm HevTaskMutex lock_state :=
  l ← gets locker;
  if negb (l =? 0) then
    modify (λ s, mk_mutex (locker s) node (<[node := mk_mnode (waiters s) self]> (mx_nodes s)) (mx_run s));;
    modify (λ s, mk_mutex (locker s) (waiters s) (mx_nodes s) (mx_run s ∖ {[self]}));;
    mret Yielded
  else modify (mx_set_locker 1);; mret Locked.

(** The condition of its loop, when the task runs again, up to the next yield or
    the end; the node is gone then. *)
Definition hev_task_mutex_lock_resume (self node : Z) : stm HevTaskMutex lock_state :=
  l ← gets locker;
  w ← gets waiters;
  if negb (l =? 0) || negb (w =? node) then
    modify (λ s, mk_mutex (locker s) (waiters s) (mx_nodes s) (mx_run s ∖ {[self]}));;
    mret Yielded
  else
    n ← (λ s, match mx_nodes s !! node with Some n => Some (n, s) | None => None end);
    modify (λ s, mk_mutex 1 (mn_next n) (delete node (mx_nodes s)) (mx_run s));;
    mret Locked.

Definition hev_task_mutex_trylock : stm HevTaskMutex Z :=
  l ← gets locker;
  if negb (l =? 0) then mret (-1) else modify (mx_set_locker 1);; mret 0.

Definition hev_task_mutex_unlock : stm HevTaskMutex Z :=
  modify (mx_set_locker 0);;
  w ← gets waiters;
  if negb (w =? 0) then
    n ← (λ s, match mx_nodes s !! w with Some n => Some (n, s) | None => None end);
    modify (λ s, mk_mutex (locker s) (waiters s) (mx_nodes s) ({[mn_task n]} ∪ mx_run s));;
    mret 0
  else mret 0.

(** ** The condition *)

Record HevTaskCondNode := mk_cnode { cn_prev : Z; cn_next : Z; cn_task : Z }.

Record HevTaskCond := mk_cond {
  cd_waiters : Z;
  cd_nodes : gmap Z HevTaskCondNode;
  cd_run : gset Z;
}.

Definition hev_task_cond_init (run : gset Z) : HevTaskCond := mk_cond 0 ∅ run.

Definition cnode_load (a : Z) : stm HevTaskCond HevTaskCondNode := λ s,
  match cd_nodes s !! a with Some n => Some (n, s) | None => None end.
Definition cnode_update (a : Z) (f : HevTaskCondNode → HevTaskCondNode) : stm HevTaskCond unit := λ s,
  match cd_nodes s !! a with
  | Some n => Some (tt, mk_cond (cd_waiters s) (<[a := f n]> (cd_nodes s)) (cd_run s))
  | None => None
  end.
Definition cn_set_prev (p : Z) (n : HevTaskCondNode) := mk_cnode p (cn_next n) (cn_task n).
Definition cn_set_next (x : Z) (n : HevTaskCondNode) := mk_cnode (cn_prev n) x (cn_task n).
Definition cn_set_task (t : Z) (n : HevTaskCondNode) := mk_cnode (cn_prev n) (cn_next n) t.
Definition cd_set_waiters (w : Z) : stm HevTaskCond unit := modify (λ s, mk_cond w (cd_nodes s) (cd_run s)).
Definition cd_wakeup (t : Z) : stm HevTaskCond unit := modify (λ s, mk_cond (cd_waiters s) (cd_nodes s) ({[t]} ∪ cd_run s)).
Definition cd_yield (t : Z) : stm HevTaskCond unit := modify (λ s, mk_cond (cd_waiters s) (cd_nodes s) (cd_run s ∖ {[t]})).
Definition cnode_free (a : Z) : stm HevTaskCond unit := modify (λ s, mk_cond (cd_waiters s) (delete a (cd_nodes s)) (cd_run s)).

(** The start of [hev_task_cond_wait] and [hev_task_cond_timedwait]: the mutex is
    unlocked after it, and the task yields. *)
Definition hev_task_cond_wait_begin (self node : Z) : stm HevTaskCond unit :=
  w ← gets cd_waiters;
  modify (λ s, mk_cond (cd_waiters s) (<[node := mk_cnode 0 w self]> (cd_nodes s)) (cd_run s));;
  (if negb (w =? 0) then cnode_update w (cn_set_prev node) else mret tt);;
  cd_set_waiters node;;
  cd_yield self.

(** The loop of [hev_task_cond_wait] when the task runs again: it yields while
    [node.task] is set; then the mutex is locked and the node is gone. *)
Definition hev_task_cond_wait_resume (self node : Z) : stm HevTaskCond bool :=
  n ← cnode_load node;
  if negb (cn_task n =? 0) then cd_yield self;; mret false
  else cnode_free node;; mret true.

(** The end of [hev_task_cond_timedwait], with the mutex locked again. *)
Definition hev_task_cond_timedwait_end (node : Z) : stm HevTaskCond Z :=
  n ← cnode_load node;
  if negb (cn_task n =? 0) then
    (if negb (cn_prev n =? 0) then cnode_update (cn_prev n) (cn_set_next (cn_next n)) else mret tt);;
    (if negb (cn_next n =? 0) then cnode_update (cn_next n) (cn_set_prev (cn_prev n)) else mret tt);;
    w ← gets cd_waiters;
    (if w =? node then cd_set_waiters 0 else mret tt);;
    cnode_free node;;
    mret (-1)
  else cnode_free node;; mret 0.

(** Waking up the first waiter and taking it out. *)
Definition cond_pop (w : Z) : stm HevTaskCond unit :=
  n ← cnode_load w;
  cd_wakeup (cn_task n);;
  cnode_update w (cn_set_task 0);;
  cd_set_waiters (cn_next n).

Definition hev_task_cond_signal : stm HevTaskCond Z :=
  w ← gets cd_waiters;
  if negb (w =? 0) then
    cond_pop w;;
    w ← gets cd_waiters;
    (if negb (w =? 0) then cnode_update w (cn_set_prev 0) else mret tt);;
    mret 0
  else mret 0.

Fixpoint cond_broadcast_loop (fuel : nat) : stm HevTaskCond unit :=
  match fuel with
  | O => ub
  | S fuel =>
      w ← gets cd_waiters;
      if negb (w =? 0) then cond_pop w;; cond_broadcast_loop fuel else mret tt
  end.

Definition hev_task_cond_broadcast : stm HevTaskCond Z :=
  fuel ← gets (λ s, S (size (cd_nodes s)));
  cond_broadcast_loop fuel;; mret 0.
