(* ===== verification/TaskSyncProps.v ===== *)
(** * Mutexes exclude each other, and no waiter is forgotten

    Tasks that use one mutex, in any interleaving the cooperative scheduler allows;
    then the condition. *)

From stdpp Require Import relations.
From S2P Require Import Prelude TaskSync.

(** ** Tasks and a mutex *)

(** Where a task is: it does not use the mutex, waits in [hev_task_mutex_lock] with
    its node, or has locked it. *)
Inductive place := Outside | Waiting (node : Z) | Holding.

Record msys := mk_msys { ms_mutex : HevTaskMutex; ms_place : gmap Z place }.

Definition after_lock (node : Z) (r : lock_state) : place := match r with Locked => Holding | Yielded => Waiting node end.

Definition set_run (f : gset Z → gset Z) (m : HevTaskMutex) : HevTaskMutex :=
  mk_mutex (locker m) (waiters m) (mx_nodes m) (f (mx_run m)).

(** A task that can run calls a function of the mutex, or goes on in
    [hev_task_mutex_lock]; tasks are woken up and wait for other reasons too. *)
Inductive mstep : msys → msys → Prop :=
  | m_lock t node m m' p r :
      p !! t = Some Outside → t ∈ mx_run m → node ≠ 0 → mx_nodes m !! node = None →
      hev_task_mutex_lock_begin t node m = Some (r, m') →
      mstep (mk_msys m p) (mk_msys m' (<[t := after_lock node r]> p))
  | m_resume t node m m' p r :
      p !! t = Some (Waiting node) → t ∈ mx_run m →
      hev_task_mutex_lock_resume t node m = Some (r, m') →
      mstep (mk_msys m p) (mk_msys m' (<[t := after_lock node r]> p))
  | m_trylock t m m' p r :
      p !! t = Some Outside → t ∈ mx_run m → hev_task_mutex_trylock m = Some (r, m') →
      mstep (mk_msys m p) (mk_msys m' (if r =? 0 then <[t := Holding]> p else p))
  | m_unlock t m m' p r :
      p !! t = Some Holding → t ∈ mx_run m → hev_task_mutex_unlock m = Some (r, m') →
      mstep (mk_msys m p) (mk_msys m' (<[t := Outside]> p))
  | m_wake t m p : mstep (mk_msys m p) (mk_msys (set_run (union {[t]}) m) p)
  | m_sleep t m p : (p !! t = Some Outside ∨ p !! t = Some Holding) →
      mstep (mk_msys m p) (mk_msys (set_run (.∖ {[t]}) m) p).

(** The stack of nodes, with the tasks. *)
Fixpoint mchain (m : gmap Z HevTaskMutexNode) (xs : list (Z * Z)) : Prop :=
  match xs with
  | [] => True
  | (a, t) :: xs => m !! a = Some (mk_mnode (hd 0 xs.*1) t) ∧ mchain m xs
  end.

Lemma mchain_insert m xs a n : a ∉ xs.*1 → mchain m xs → mchain (<[a := n]> m) xs.
Proof.
  induction xs as [|[b t] xs IH]; simpl; [done|]. intros Ha [H1 H2]. split; [|apply IH; set_solver].
  rewrite lookup_insert_ne; [done|]. set_solver.
Qed.
Lemma mchain_delete m xs a : a ∉ xs.*1 → mchain m xs → mchain (delete a m) xs.
Proof.
  induction xs as [|[b t] xs IH]; simpl; [done|]. intros Ha [H1 H2]. split; [|apply IH; set_solver].
  rewrite lookup_delete_ne; [done|]. set_solver.
Qed.
Lemma mchain_lookup m xs a t : mchain m xs → (a, t) ∈ xs → is_Some (m !! a).
Proof.
  induction xs as [|[b u] xs IH]; simpl; [set_solver|]. intros [H1 H2] [[= -> ->]|?]%elem_of_cons; [by eexists|by apply IH].
Qed.

(** The invariant: the waiting tasks are those of the stack; the lock is held by one
    task or by none; if it is free, the task on top of the stack can run. *)
Record minv (s : msys) (xs : list (Z * Z)) : Prop := {
  mi_chain : mchain (mx_nodes (ms_mutex s)) xs;
  mi_top : waiters (ms_mutex s) = hd 0 xs.*1;
  mi_nodup : NoDup xs.*1;
  mi_nonzero : ∀ a, a ∈ xs.*1 → a ≠ 0;
  mi_wait : ∀ t a, ms_place s !! t = Some (Waiting a) ↔ (a, t) ∈ xs;
  mi_lock : locker (ms_mutex s) = 0 ∧ (∀ t, ms_place s !! t ≠ Some Holding) ∨
    locker (ms_mutex s) = 1 ∧ ∃ t, ∀ t', ms_place s !! t' = Some Holding ↔ t' = t;
  mi_wake : locker (ms_mutex s) = 0 → ∀ a t, head xs = Some (a, t) → t ∈ mx_run (ms_mutex s);
}.

(** The operations, in a state of the system. *)
Lemma lock_begin_ok s xs t node :
  minv s xs → ms_place s !! t = Some Outside → node ≠ 0 → mx_nodes (ms_mutex s) !! node = None →
  ∃ r m', hev_task_mutex_lock_begin t node (ms_mutex s) = Some (r, m') ∧
    minv (mk_msys m' (<[t := after_lock node r]> (ms_place s))) (match r with Locked => xs | Yielded => (node, t) :: xs end).
Proof.
  intros [Hc Ht Hnd Hnz Hw Hl Hwk] Hp Hn Hf. destruct s as [[l w ns run] p]. simpl in *.
  assert (node ∉ xs.*1) as Hnin.
  { intros ([a u] & -> & Hin)%list_elem_of_fmap. destruct (mchain_lookup _ _ _ _ Hc Hin) as [? Hx]. simpl in *. by rewrite Hf in Hx. }
  assert (∀ a, (a, t) ∉ xs) as Htn by (intros a Ha; apply Hw in Ha; congruence).
  unfold hev_task_mutex_lock_begin. destruct Hl as [[-> Hl]|[-> (h & Hl)]]; eexists _, _; (split; [reflexivity|]); split; simpl.
  - done.
  - done.
  - done.
  - done.
  - intros t' a. destruct (decide (t' = t)) as [->|Hne]; [rewrite lookup_insert_eq|by rewrite lookup_insert_ne].
    split; [done|]. intros Ha. by destruct (Htn a).
  - right. split; [done|]. exists t. intros t'. destruct (decide (t' = t)) as [->|Hne]; [by rewrite lookup_insert_eq|].
    rewrite lookup_insert_ne by done. split; [|done]. intros Hh. by destruct (Hl t').
  - done.
  - rewrite lookup_insert_eq, Ht. split; [done|]. by apply mchain_insert.
  - done.
  - by constructor.
  - intros a [->|?]%elem_of_cons; [done|auto].
  - intros t' a. destruct (decide (t' = t)) as [->|Hne]; [rewrite lookup_insert_eq|rewrite lookup_insert_ne by done].
    + rewrite elem_of_cons. split; [intros [= ->]; by left|]. intros [[= ->]|Ha]; [done|by destruct (Htn a)].
    + rewrite Hw, elem_of_cons. split; [auto|]. intros [[= -> ->]|?]; done.
  - right. split; [done|]. exists h. intros t'. destruct (decide (t' = t)) as [->|Hne].
    + rewrite lookup_insert_eq. split; [done|]. intros ->. by rewrite (proj2 (Hl h) eq_refl) in Hp.
    + by rewrite lookup_insert_ne.
  - done.
Qed.

(** Changing who can run: nobody but [t], whose place is not on top of the stack of
    a free mutex. *)
Lemma minv_run s xs f :
  minv s xs → (locker (ms_mutex s) = 0 → ∀ a t, head xs = Some (a, t) → t ∈ f (mx_run (ms_mutex s))) →
  minv (mk_msys (set_run f (ms_mutex s)) (ms_place s)) xs.
Proof. intros [Hc Ht Hnd Hnz Hw Hl Hwk] Hf. by split. Qed.

Lemma place_wait_stays (p : gmap Z place) t node : p !! t = Some (Waiting node) → <[t := Waiting node]> p = p.
Proof. apply insert_id. Qed.

Lemma lock_resume_ok s xs t node :
  minv s xs → ms_place s !! t = Some (Waiting node) → t ∈ mx_run (ms_mutex s) →
  ∃ r m' xs', hev_task_mutex_lock_resume t node (ms_mutex s) = Some (r, m') ∧
    minv (mk_msys m' (<[t := after_lock node r]> (ms_place s))) xs' ∧
    (r = Locked ↔ locker (ms_mutex s) = 0 ∧ head xs = Some (node, t)).
Proof.
  intros H Hp Hr. pose proof H as [Hc Ht Hnd Hnz Hw Hl Hwk]. pose proof (proj1 (Hw t node) Hp) as Hin.
  unfold hev_task_mutex_lock_resume, mbind, stm_bind, gets. simpl.
  assert (¬ (locker (ms_mutex s) = 0 ∧ head xs = Some (node, t)) →
    minv (mk_msys (mk_mutex (locker (ms_mutex s)) (waiters (ms_mutex s)) (mx_nodes (ms_mutex s)) (mx_run (ms_mutex s) ∖ {[t]}))
      (<[t := Waiting node]> (ms_place s))) xs) as Hstay.
  { intros Hno. rewrite place_wait_stays by done. apply (minv_run s xs (.∖ {[t]})); [done|]. intros H0 a u Ha.
    apply elem_of_difference. split; [by eapply Hwk|]. intros ->%elem_of_singleton. apply Hno. split; [done|].
    rewrite Ha. assert ((a, t) ∈ xs) as Hin'%Hw by (destruct xs; [done|]; injection Ha as ->; set_solver). congruence. }
  destruct Hl as [[Hl0 Hl]|[Hl1 (h & Hl)]].
  - rewrite Hl0. simpl. destruct xs as [|[b v] xs]; [set_solver|]. simpl in *. rewrite Ht.
    destruct (Z.eqb_spec b node) as [->|Hne]; simpl.
    + destruct Hc as [Hcn Hc]. rewrite Hcn. apply NoDup_cons in Hnd as [Hnn Hnd].
      assert (v = t) as ->.
      { apply elem_of_cons in Hin as [[= ->]|Hin]; [done|]. exfalso. apply Hnn. apply list_elem_of_fmap. by exists (node, t). }
      eexists Locked, _, xs. split; [reflexivity|]. split; [|by split].
      split; simpl; try done.
      * by apply mchain_delete.
      * intros a Ha. apply Hnz. set_solver.
      * intros t' a. destruct (decide (t' = t)) as [->|Hne]; [rewrite lookup_insert_eq|rewrite lookup_insert_ne by done].
        -- split; [done|]. intros Ha. exfalso. assert ((a, t) ∈ (node, t) :: xs) as Ha'%Hw by set_solver.
           assert (node = a) as <- by congruence. apply Hnn, list_elem_of_fmap. by exists (node, t).
        -- rewrite Hw, elem_of_cons. split; [intros [[= ? ?]|?]; done|auto].
      * right. split; [done|]. exists t. intros t'. destruct (decide (t' = t)) as [->|Hne]; [by rewrite lookup_insert_eq|].
        rewrite lookup_insert_ne by done. split; [|done]. intros Hh. by destruct (Hl t').
    + eexists Yielded, _, _. split; [reflexivity|]. split; [|split; [done|by intros [_ [= -> _]]]].
      apply Hstay. by intros [_ [= -> _]].
  - rewrite Hl1. simpl. eexists Yielded, _, _. split; [reflexivity|]. split; [|split; [done|by intros [? _]]].
    apply Hstay. intros [? _]. congruence.
Qed.

Lemma trylock_ok s xs t :
  minv s xs → ms_place s !! t = Some Outside →
  ∃ r m', hev_task_mutex_trylock (ms_mutex s) = Some (r, m') ∧
    minv (mk_msys m' (if r =? 0 then <[t := Holding]> (ms_place s) else ms_place s)) xs ∧
    (r = 0 ↔ locker (ms_mutex s) = 0).
Proof.
  intros H Hp. pose proof H as [Hc Ht Hnd Hnz Hw Hl Hwk]. destruct s as [[l w ns run] p]. simpl in *.
  unfold hev_task_mutex_trylock. destruct Hl as [[-> Hl]|[-> Hl]]; eexists _, _; (split; [reflexivity|]); (split; [|done]); simpl.
  - split; simpl; try done.
    + intros t' a. destruct (decide (t' = t)) as [->|Hne]; [rewrite lookup_insert_eq|by rewrite lookup_insert_ne].
      split; [done|]. intros Ha%Hw. congruence.
    + right. split; [done|]. exists t. intros t'. destruct (decide (t' = t)) as [->|Hne]; [by rewrite lookup_insert_eq|].
      rewrite lookup_insert_ne by done. split; [|done]. intros Hh. by destruct (Hl t').
  - exact H.
Qed.

Lemma unlock_ok s xs t :
  minv s xs → ms_place s !! t = Some Holding →
  ∃ m', hev_task_mutex_unlock (ms_mutex s) = Some (0, m') ∧ minv (mk_msys m' (<[t := Outside]> (ms_place s))) xs.
Proof.
  intros [Hc Ht Hnd Hnz Hw Hl Hwk] Hp. destruct s as [[l w ns run] p]. simpl in *.
  destruct Hl as [[_ Hl]|[_ (h & Hl)]]; [by destruct (Hl t)|].
  assert (∀ t' a, <[t:=Outside]> p !! t' = Some (Waiting a) ↔ (a, t') ∈ xs) as Hw'.
  { intros t' a. destruct (decide (t' = t)) as [->|Hne]; [rewrite lookup_insert_eq|by rewrite lookup_insert_ne].
    split; [done|]. intros Ha%Hw. congruence. }
  assert (∀ t', <[t:=Outside]> p !! t' ≠ Some Holding) as Hnone.
  { intros t'. destruct (decide (t' = t)) as [->|Hne]; [by rewrite lookup_insert_eq|]. rewrite lookup_insert_ne by done.
    intros Hh. apply Hne. apply Hl in Hh, Hp. congruence. }
  unfold hev_task_mutex_unlock, mbind, stm_bind, modify, gets. simpl. rewrite Ht.
  destruct xs as [|[b v] xs]; simpl in *.
  - eexists. split; [reflexivity|]. split; simpl; try done. by left.
  - rewrite (proj2 (Z.eqb_neq b 0)) by (apply Hnz; set_solver). simpl. rewrite (proj1 Hc).
    eexists. split; [reflexivity|]. split; simpl; try done; [by left|]. intros _ a u [= <- <-]. set_solver.
Qed.

Lemma minv_step s s' xs : minv s xs → mstep s s' → ∃ xs', minv s' xs'.
Proof.
  intros H Hs. destruct Hs as [t node m m' p r Hp Hr Hn Hf He|t node m m' p r Hp Hr He|t m m' p r Hp Hr He|t m m' p r Hp Hr He|t m p|t m p Hp].
  - destruct (lock_begin_ok _ _ t node H Hp Hn Hf) as (r' & m'' & He' & H'). simpl in He'. simplify_eq. eauto.
  - destruct (lock_resume_ok _ _ t node H Hp Hr) as (r' & m'' & xs' & He' & H' & _). simpl in He'. simplify_eq. eauto.
  - destruct (trylock_ok _ _ t H Hp) as (r' & m'' & He' & H' & _). simpl in He'. simplify_eq. eauto.
  - destruct (unlock_ok _ _ t H Hp) as (m'' & He' & H'). simpl in He'. simplify_eq. eauto.
  - exists xs. apply (minv_run (mk_msys m p)); [done|]. intros H0 a u Ha. pose proof (mi_wake _ _ H H0 a u Ha). set_solver.
  - exists xs. apply (minv_run (mk_msys m p)); [done|]. intros H0 a u Ha. pose proof (mi_wake _ _ H H0 a u Ha) as Hin.
    apply elem_of_difference. split; [done|]. intros ->%elem_of_singleton.
    destruct xs as [|[b v] xs]; [done|]. simpl in Ha. simplify_eq.
    assert (ms_place (mk_msys m p) !! t = Some (Waiting a)) as Hpw by (apply (mi_wait _ _ H); set_solver). simpl in Hpw.
    destruct Hp; congruence.
Qed.

(** At the start no task uses the mutex. *)
Definition msys_init (tasks run : gset Z) : msys := mk_msys (hev_task_mutex_init run) (gset_to_gmap Outside tasks).

Lemma minv_init tasks run : minv (msys_init tasks run) [].
Proof.
  split; simpl; try done; try set_solver.
  - constructor.
  - intros t a. split; [|set_solver]. intros [_ ?]%lookup_gset_to_gmap_Some. done.
  - left. split; [done|]. intros t [_ ?]%lookup_gset_to_gmap_Some. done.
Qed.

Lemma minv_reachable tasks run s : rtc mstep (msys_init tasks run) s → ∃ xs, minv s xs.
Proof.
  intros H. assert (∃ xs, minv (msys_init tasks run) xs) as H0 by (eexists; apply minv_init).
  induction H as [s|s s1 s' Hs _ IH]; [done|]. apply IH. destruct H0 as [xs Hx]. by eapply minv_step.
Qed.

(** C21: the mutex.  For any number of tasks that lock, try to lock and unlock it, in
    every order the scheduler may run them and with other wake-ups at any time: at
    most one task holds the mutex, and the mutex is marked as locked exactly then;
    no operation is undefined; and no waiter is forgotten: when the mutex is free and
    tasks wait for it, one of them can run, and gets the mutex when it does. *)
Theorem mutex_excludes tasks run s :
  rtc mstep (msys_init tasks run) s →
  (∀ t1 t2, ms_place s !! t1 = Some Holding → ms_place s !! t2 = Some Holding → t1 = t2) ∧
  (locker (ms_mutex s) ≠ 0 ↔ ∃ t, ms_place s !! t = Some Holding) ∧
  (∀ t, ms_place s !! t = Some Holding → is_Some (hev_task_mutex_unlock (ms_mutex s))) ∧
  (∀ t node, ms_place s !! t = Some (Waiting node) → t ∈ mx_run (ms_mutex s) →
    is_Some (hev_task_mutex_lock_resume t node (ms_mutex s))) ∧
  (locker (ms_mutex s) = 0 → (∃ t a, ms_place s !! t = Some (Waiting a)) →
    ∃ t node m', ms_place s !! t = Some (Waiting node) ∧ t ∈ mx_run (ms_mutex s) ∧
      hev_task_mutex_lock_resume t node (ms_mutex s) = Some (Locked, m') ∧
      mstep s (mk_msys m' (<[t := Holding]> (ms_place s)))).
Proof.
  intros [xs H]%minv_reachable. pose proof H as [Hc Ht Hnd Hnz Hw Hl Hwk]. split_and!.
  - intros t1 t2 H1 H2. destruct Hl as [[_ Hl]|[_ (h & Hl)]]; [by destruct (Hl t1)|].
    apply Hl in H1, H2. congruence.
  - destruct Hl as [[-> Hl]|[-> (h & Hl)]]; split; try done.
    + intros [t Hh]. by destruct (Hl t).
    + intros _. exists h. by apply Hl.
  - intros t Hh. destruct (unlock_ok _ _ t H Hh) as (m' & -> & _). by eexists.
  - intros t node Hp Hr. destruct (lock_resume_ok _ _ t node H Hp Hr) as (r & m' & xs' & -> & _). by eexists.
  - intros H0 (t & a & Hta%Hw). destruct xs as [|[node u] xs]; [set_solver|].
    assert (ms_place s !! u = Some (Waiting node)) as Hu by (apply Hw; set_solver).
    pose proof (Hwk H0 node u eq_refl) as Hrun.
    destruct (lock_resume_ok _ _ u node H Hu Hrun) as (r & m' & xs' & He & _ & Hr).
    rewrite (proj2 Hr) in He by done. exists u, node, m'. split_and!; try done.
    destruct s as [m p]. by apply (m_resume u node m m' p Locked).
Qed.

(** Task 1 locks, task 2 waits, task 1 unlocks. *)
Lemma mutex_excludes_witness :
  let s := mk_msys (mk_mutex 0 8 {[8 := mk_mnode 0 2]} ({[2]} ∪ ({[1; 2]} ∖ {[2]}))) (<[1 := Outside]> (<[2 := Waiting 8]> (<[1 := Holding]>
    (gset_to_gmap Outside {[1; 2]})))) in
  rtc mstep (msys_init {[1; 2]} {[1; 2]}) s ∧
  (locker (ms_mutex s) = 0 → (∃ t a, ms_place s !! t = Some (Waiting a)) →
    ∃ t node m', ms_place s !! t = Some (Waiting node) ∧ t ∈ mx_run (ms_mutex s) ∧
      hev_task_mutex_lock_resume t node (ms_mutex s) = Some (Locked, m') ∧
      mstep s (mk_msys m' (<[t := Holding]> (ms_place s)))).
Proof.
  intros s. assert (rtc mstep (msys_init {[1; 2]} {[1; 2]}) s) as Hr.
  { eapply rtc_l; [eapply (m_lock 1 8); [reflexivity|set_solver|done|reflexivity|reflexivity]|].
    eapply rtc_l; [eapply (m_lock 2 8); [reflexivity|simpl; set_solver|done|reflexivity|reflexivity]|].
    eapply rtc_l; [eapply (m_unlock 1); [reflexivity|simpl; set_solver|reflexivity]|].
    apply rtc_refl. }
  split; [exact Hr|]. apply (mutex_excludes _ _ _ Hr).
Defined.

(** ** The condition *)

(** The nodes of the waiting tasks, the last one first; [prev] is the node before. *)
Fixpoint cchain (m : gmap Z HevTaskCondNode) (prev : Z) (xs : list (Z * Z)) : Prop :=
  match xs with
  | [] => True
  | (a, t) :: xs => m !! a = Some (mk_cnode prev (hd 0 xs.*1) t) ∧ cchain m a xs
  end.

Record cond_is (s : HevTaskCond) (xs : list (Z * Z)) : Prop := {
  ci_chain : cchain (cd_nodes s) 0 xs;
  ci_top : cd_waiters s = hd 0 xs.*1;
  ci_nodup : NoDup xs.*1;
  ci_nonzero : Forall (λ x, x.1 ≠ 0 ∧ x.2 ≠ 0) xs;
}.

Lemma cchain_insert m p xs a n : a ∉ xs.*1 → cchain m p xs → cchain (<[a := n]> m) p xs.
Proof.
  revert p. induction xs as [|[b t] xs IH]; simpl; [done|]. intros p Ha [H1 H2]. split; [|apply IH; set_solver].
  rewrite lookup_insert_ne; [done|]. set_solver.
Qed.
Lemma cchain_delete m p xs a : a ∉ xs.*1 → cchain m p xs → cchain (delete a m) p xs.
Proof.
  revert p. induction xs as [|[b t] xs IH]; simpl; [done|]. intros p Ha [H1 H2]. split; [|apply IH; set_solver].
  rewrite lookup_delete_ne; [done|]. set_solver.
Qed.

(** Changing the node before the first one. *)
Definition relink (p : Z) (xs : list (Z * Z)) (m : gmap Z HevTaskCondNode) : gmap Z HevTaskCondNode :=
  match xs with [] => m | (a, t) :: xs => <[a := mk_cnode p (hd 0 xs.*1) t]> m end.

Lemma cchain_relink m p p' xs : NoDup xs.*1 → cchain m p xs → cchain (relink p' xs m) p' xs.
Proof.
  destruct xs as [|[a t] xs]; [done|]. simpl. intros [Hn _]%NoDup_cons [_ H]. split; [by rewrite lookup_insert_eq|].
  by apply cchain_insert.
Qed.

(** The update of the next node, if there is one. *)
Lemma wp_relink m p p' xs w run (Q : unit → HevTaskCond → Prop) :
  cchain m p xs → Forall (λ x, x.1 ≠ 0 ∧ x.2 ≠ 0) xs →
  Q tt (mk_cond w (relink p' xs m) run) →
  wp (if negb (hd 0 xs.*1 =? 0) then cnode_update (hd 0 xs.*1) (cn_set_prev p') else mret tt) (mk_cond w m run) Q.
Proof.
  intros Hc Hz HQ. destruct xs as [|[a t] xs]; simpl in *; [done|]. inversion_clear Hz as [|? ? [Ha _] _]. simpl in Ha.
  rewrite (proj2 (Z.eqb_neq a 0) Ha). simpl. unfold wp, cnode_update. simpl. by rewrite (proj1 Hc).
Qed.

Lemma wp_cnode_load s a n (Q : HevTaskCondNode → HevTaskCond → Prop) :
  cd_nodes s !! a = Some n → Q n s → wp (cnode_load a) s Q.
Proof. intros H HQ. unfold wp, cnode_load. by rewrite H. Qed.
Lemma wp_cnode_update s a f n (Q : unit → HevTaskCond → Prop) :
  cd_nodes s !! a = Some n → Q tt (mk_cond (cd_waiters s) (<[a := f n]> (cd_nodes s)) (cd_run s)) → wp (cnode_update a f) s Q.
Proof. intros H HQ. unfold wp, cnode_update. by rewrite H. Qed.

Lemma wp_cond_wait_begin s xs self node :
  cond_is s xs → node ≠ 0 → self ≠ 0 → node ∉ xs.*1 →
  wp (hev_task_cond_wait_begin self node) s (λ _ s', cond_is s' ((node, self) :: xs) ∧ cd_run s' = cd_run s ∖ {[self]}).
Proof.
  intros [Hc Ht Hnd Hz] Hn Hs Hnin. unfold hev_task_cond_wait_begin. apply wp_bind, wp_gets. rewrite Ht.
  apply wp_bind, wp_modify, wp_bind. eapply wp_relink; [by apply cchain_insert|done|].
  apply wp_bind, wp_modify, wp_modify. split; [|done]. split; simpl; [|done|by constructor|by constructor].
  split.
  - destruct xs as [|[a t] xs]; simpl; [by rewrite lookup_insert_eq|].
    rewrite lookup_insert_ne by (simpl in Hnin; set_solver). by rewrite lookup_insert_eq.
  - eapply cchain_relink; [done|]. by apply (cchain_insert _ 0).
Qed.

(** The node that is taken out says so to its task. *)
Lemma wp_cond_pop s p a t xs :
  cchain (cd_nodes s) p ((a, t) :: xs) → NoDup ((a, t) :: xs).*1 →
  wp (cond_pop a) s (λ _ s', cchain (cd_nodes s') a xs ∧ cd_waiters s' = hd 0 xs.*1 ∧ cd_run s' = {[t]} ∪ cd_run s ∧
    cd_nodes s' = <[a := mk_cnode p (hd 0 xs.*1) 0]> (cd_nodes s)).
Proof.
  intros [Ha Hc] Hnd. simpl in Hnd. apply NoDup_cons in Hnd as [Hn Hnd]. unfold cond_pop. apply wp_bind. eapply wp_cnode_load; [exact Ha|].
  apply wp_bind, wp_modify, wp_bind. eapply wp_cnode_update; [exact Ha|]. apply wp_modify. simpl.
  split_and!; [by apply cchain_insert|done|done|done].
Qed.

Lemma wp_cond_signal s a t xs :
  cond_is s ((a, t) :: xs) →
  wp hev_task_cond_signal s (λ r s', r = 0 ∧ cond_is s' xs ∧ cd_run s' = {[t]} ∪ cd_run s ∧
    cn_task <$> cd_nodes s' !! a = Some 0).
Proof.
  intros [Hc Ht Hnd Hz]. unfold hev_task_cond_signal. apply wp_bind, wp_gets. rewrite Ht. simpl.
  inversion_clear Hz as [|? ? [Ha _] Hz']. simpl in Ha. rewrite (proj2 (Z.eqb_neq a 0) Ha). simpl.
  apply wp_bind. eapply wp_mono; [by eapply wp_cond_pop|]. intros [] [w m run] (Hc' & Hw & Hrun & Hm). simpl in *.
  apply wp_bind, wp_gets. simpl. rewrite Hw. apply wp_bind. eapply wp_relink; [exact Hc'|done|]. apply wp_ret.
  apply NoDup_cons in Hnd as [Hn Hnd]. split_and!; [done| |done|].
  - split; simpl; [by eapply cchain_relink|done|done|done].
  - simpl. rewrite Hm. destruct xs as [|[b u] xs]; simpl; [by rewrite lookup_insert_eq|].
    rewrite lookup_insert_ne by (simpl in Hn; set_solver). by rewrite lookup_insert_eq.
Qed.

Lemma wp_cond_broadcast_loop fuel s p xs :
  cchain (cd_nodes s) p xs → cd_waiters s = hd 0 xs.*1 → NoDup xs.*1 → Forall (λ x, x.1 ≠ 0 ∧ x.2 ≠ 0) xs →
  (length xs < fuel)%nat →
  wp (cond_broadcast_loop fuel) s (λ _ s', cd_waiters s' = 0 ∧ cd_run s' = list_to_set xs.*2 ∪ cd_run s ∧
    (∀ a, a ∉ xs.*1 → cd_nodes s' !! a = cd_nodes s !! a) ∧ Forall (λ x, cn_task <$> cd_nodes s' !! x.1 = Some 0) xs).
Proof.
  revert s p xs. induction fuel as [|fuel IH]; intros s p xs Hc Ht Hnd Hz Hf; [lia|]. cbn [cond_broadcast_loop].
  apply wp_bind, wp_gets. rewrite Ht. destruct xs as [|[a t] xs]; simpl.
  { apply wp_ret. split_and!; [done|set_solver|done|constructor]. }
  inversion_clear Hz as [|? ? [Ha _] Hz']. simpl in Ha. rewrite (proj2 (Z.eqb_neq a 0) Ha). simpl.
  apply wp_bind. eapply wp_mono; [by eapply wp_cond_pop|]. intros [] s' (Hc' & Hw & Hrun & Hm).
  apply NoDup_cons in Hnd as [Hn Hnd]. simpl in Hf.
  eapply wp_mono; [apply (IH s' a xs); done || lia|]. intros [] s2 (Hw2 & Hrun2 & Ho & Hd). split_and!.
  - done.
  - rewrite Hrun2, Hrun. set_solver.
  - intros b Hb. rewrite Ho by set_solver. rewrite Hm, lookup_insert_ne by set_solver. done.
  - constructor; [|done]. simpl. rewrite Ho by done. by rewrite Hm, lookup_insert_eq.
Qed.

Lemma cchain_size m p xs : cchain m p xs → NoDup xs.*1 → (length xs ≤ size m)%nat.
Proof.
  intros Hc Hnd. rewrite <-(length_fmap fst), <-(size_list_to_set (C := gset Z)), <-size_dom by done. apply subseteq_size.
  intros a Ha%elem_of_list_to_set. apply elem_of_dom. revert p Hc. clear Hnd.
  induction xs as [|[b t] xs IH]; intros p Hc; simpl in *; [set_solver|]. destruct Hc as [H1 H2].
  apply elem_of_cons in Ha as [->|Ha]; [by rewrite H1|]. by eapply IH.
Qed.

(** The condition.  A task that waits is put in front of those that wait and
    cannot run; a signal takes out the last one that came, tells it so and lets it
    run, and does nothing when none waits; a broadcast does so for all of them. *)
Theorem cond_wakes s xs :
  cond_is s xs →
  (∀ self node, node ≠ 0 → self ≠ 0 → node ∉ xs.*1 →
    ∃ s', hev_task_cond_wait_begin self node s = Some (tt, s') ∧ cond_is s' ((node, self) :: xs) ∧ self ∉ cd_run s') ∧
  (∃ s', hev_task_cond_signal s = Some (0, s') ∧ cond_is s' (tail xs) ∧
    match xs with
    | [] => s' = s
    | (a, t) :: _ => cd_run s' = {[t]} ∪ cd_run s ∧ cn_task <$> cd_nodes s' !! a = Some 0
    end) ∧
  (∃ s', hev_task_cond_broadcast s = Some (0, s') ∧ cond_is s' [] ∧ cd_run s' = list_to_set xs.*2 ∪ cd_run s ∧
    Forall (λ x, cn_task <$> cd_nodes s' !! x.1 = Some 0) xs).
Proof.
  intros H. split_and!.
  - intros self node Hn Hs Hnin. destruct (wp_run _ _ _ (wp_cond_wait_begin s xs self node H Hn Hs Hnin)) as ([] & s' & He & H' & Hr).
    exists s'. split_and!; [done|done|]. rewrite Hr. set_solver.
  - destruct xs as [|[a t] xs].
    + exists s. split_and!; [|done|done]. unfold hev_task_cond_signal, mbind, stm_bind, gets. by rewrite (ci_top _ _ H).
    + destruct (wp_run _ _ _ (wp_cond_signal s a t xs H)) as (r & s' & He & -> & H' & Hr & Hn). exists s'. by split_and!.
  - pose proof H as [Hc Ht Hnd Hz].
    assert (wp hev_task_cond_broadcast s (λ r s', r = 0 ∧ cd_waiters s' = 0 ∧ cd_run s' = list_to_set xs.*2 ∪ cd_run s ∧
      Forall (λ x, cn_task <$> cd_nodes s' !! x.1 = Some 0) xs)) as (r & s' & He & -> & Hw & Hr & Hn)%wp_run.
    { unfold hev_task_cond_broadcast. apply wp_bind, wp_gets, wp_bind. pose proof (cchain_size _ _ _ Hc Hnd).
      eapply wp_mono; [apply (wp_cond_broadcast_loop _ s 0 xs); done || lia|]. intros [] s' (? & ? & _ & ?). apply wp_ret. by split_and!. }
    exists s'. split_and!; [done| |done|done]. split; simpl; try done. constructor.
Qed.

Lemma cond_wakes_witness :
  let s := mk_cond 16 {[16 := mk_cnode 0 8 2; 8 := mk_cnode 16 0 1]} {[3]} in
  (∃ s', hev_task_cond_signal s = Some (0, s') ∧ cond_is s' [(8, 1)] ∧
    (cd_run s' = {[2]} ∪ {[3]} ∧ cn_task <$> cd_nodes s' !! 16 = Some 0)) ∧
  (∃ s', hev_task_cond_broadcast s = Some (0, s') ∧ cond_is s' [] ∧ cd_run s' = list_to_set [2; 1] ∪ {[3]} ∧
    Forall (λ x, cn_task <$> cd_nodes s' !! x.1 = Some 0) [(16, 2); (8, 1)]).
Proof.
  intros s. refine (proj2 (cond_wakes s [(16, 2); (8, 1)] _)).
  split; [done|done| |by repeat constructor]. apply (bool_decide_unpack _). by vm_compute.
Defined.

(** A wait with a timeout of the task that came last, when it is over, empties the
    stack: task 1, which still waits, is not woken up by a signal or a broadcast. *)
Theorem cond_timedwait_drops :
  let waiting := hev_task_cond_wait_begin 1 8;; hev_task_cond_wait_begin 2 16 in
  let s0 := hev_task_cond_init {[1; 2; 3]} in
  let woken := (r ← (waiting;; hev_task_cond_timedwait_end 16); hev_task_cond_broadcast;; gets (λ s, (r, cd_run s))) in
  fst <$> woken s0 = Some (-1, {[1; 2; 3]} ∖ {[1]} ∖ {[2]}) ∧
  (λ x, cn_task <$> cd_nodes x.2 !! 8) <$> woken s0 = Some (Some 1).
Proof. split; vm_compute; reflexivity. Qed.
