(* ===== verification/SliceAllocator.v ===== *)
(** * The memory allocator of the task system

    third-part/hev-task-system/src/mem: slice/hev-memory-allocator-slice.c, base and
    api.  Blocks of up to 4096 bytes are rounded up to multiples of 64 and kept when
    they are freed, at most 1000 in all: a stack of slices for each of the 64 sizes,
    and a list of the sizes that have slices, in the order of their use.

    A slice is known by the address of its header, which is 16 bytes before the
    pointer given out.  The memory of the C library is the map of its blocks; where
    [malloc] and [realloc] put a block is an argument, [None] when they fail. *)

From S2P Require Import Prelude.

Definition CACHED_SLICE_ALIGN : Z := 64.
Definition MAX_CACHED_SLICE_SIZE : Z := 4096.
Definition MAX_CACHED_SLICE_COUNT : Z := 1000.
Definition MAX_CACHED_SLICE_INDEX : Z := MAX_CACHED_SLICE_SIZE / CACHED_SLICE_ALIGN.

(** [sizeof (HevMemorySlice)]. *)
Definition SLICE_HEADER : Z := 16.

(** [sl_size] is the size of the block in the C library, without the header. *)
Record HevMemorySlice := mk_slice { sl_next : Z; sl_index : Z; sl_size : Z }.

(** Pointers to the nodes are their positions in [lru_nodes]. *)
Record HevMemoryLRUNode := mk_lru { lru_prev : option nat; lru_next : option nat }.

Record HevMemoryAllocatorSlice := mk_alloc {
  lru_head : option nat;
  lru_tail : option nat;
  lru_nodes : list HevMemoryLRUNode;
  cached_count : Z;
  cached_mslices : list Z;
  blocks : gmap Z HevMemorySlice;      (* the blocks of the C library *)
}.

Definition al_set_lru (h t : option nat) (ns : list HevMemoryLRUNode) (s : HevMemoryAllocatorSlice) :=
  mk_alloc h t ns (cached_count s) (cached_mslices s) (blocks s).
Definition al_set_count (n : Z) (s : HevMemoryAllocatorSlice) :=
  mk_alloc (lru_head s) (lru_tail s) (lru_nodes s) n (cached_mslices s) (blocks s).
Definition al_set_slices (l : list Z) (s : HevMemoryAllocatorSlice) :=
  mk_alloc (lru_head s) (lru_tail s) (lru_nodes s) (cached_count s) l (blocks s).
Definition al_set_blocks (m : gmap Z HevMemorySlice) (s : HevMemoryAllocatorSlice) :=
  mk_alloc (lru_head s) (lru_tail s) (lru_nodes s) (cached_count s) (cached_mslices s) m.

(** [lru_nodes] is not initialised. *)
Definition hev_memory_allocator_slice_new (nodes : list HevMemoryLRUNode) : HevMemoryAllocatorSlice :=
  mk_alloc None None nodes 0 (replicate 64 0) ∅.

(** ** Memory *)

Definition slice_load (a : Z) : stm HevMemoryAllocatorSlice HevMemorySlice := λ s,
  match blocks s !! a with Some b => Some (b, s) | None => None end.
Definition slice_update (a : Z) (f : HevMemorySlice → HevMemorySlice) : stm HevMemoryAllocatorSlice unit := λ s,
  match blocks s !! a with
  | Some b => Some (tt, al_set_blocks (<[a := f b]> (blocks s)) s)
  | None => None
  end.
Definition sl_set_next (x : Z) (b : HevMemorySlice) := mk_slice x (sl_index b) (sl_size b).
Definition sl_set_index (i : Z) (b : HevMemorySlice) := mk_slice (sl_next b) i (sl_size b).

(** [malloc] of a header and [size] bytes. *)
Definition libc_malloc (at_ : option Z) (size : Z) : stm HevMemoryAllocatorSlice Z :=
  match at_ with
  | None => mret 0
  | Some a => modify (λ s, al_set_blocks (<[a := mk_slice 0 0 size]> (blocks s)) s);; mret a
  end.
Definition libc_free (a : Z) : stm HevMemoryAllocatorSlice unit := λ s,
  match blocks s !! a with Some _ => Some (tt, al_set_blocks (delete a (blocks s)) s) | None => None end.

Definition owner_load (i : nat) : stm HevMemoryAllocatorSlice Z := λ s,
  match cached_mslices s !! i with Some a => Some (a, s) | None => None end.
Definition owner_store (i : nat) (a : Z) : stm HevMemoryAllocatorSlice unit := λ s,
  match cached_mslices s !! i with
  | Some _ => Some (tt, al_set_slices (<[i := a]> (cached_mslices s)) s)
  | None => None
  end.

Definition lru_load (i : nat) : stm HevMemoryAllocatorSlice HevMemoryLRUNode := λ s,
  match lru_nodes s !! i with Some n => Some (n, s) | None => None end.
Definition lru_update (i : nat) (f : HevMemoryLRUNode → HevMemoryLRUNode) : stm HevMemoryAllocatorSlice unit := λ s,
  match lru_nodes s !! i with
  | Some n => Some (tt, al_set_lru (lru_head s) (lru_tail s) (<[i := f n]> (lru_nodes s)) s)
  | None => None
  end.
Definition lru_set_prev (p : option nat) (n : HevMemoryLRUNode) := mk_lru p (lru_next n).
Definition lru_set_next (x : option nat) (n : HevMemoryLRUNode) := mk_lru (lru_prev n) x.
Definition set_lru_head (h : option nat) : stm HevMemoryAllocatorSlice unit :=
  modify (λ s, al_set_lru h (lru_tail s) (lru_nodes s) s).
Definition set_lru_tail (t : option nat) : stm HevMemoryAllocatorSlice unit :=
  modify (λ s, al_set_lru (lru_head s) t (lru_nodes s) s).

(** ** The list of sizes *)

Definition _hev_memory_allocator_lru_insert (node : nat) : stm HevMemoryAllocatorSlice unit :=
  lru_update node (lru_set_prev None);;
  h ← gets lru_head;
  match h with
  | Some x => lru_update node (lru_set_next (Some x));; lru_update x (lru_set_prev (Some node))
  | None => lru_update node (lru_set_next None)
  end;;
  set_lru_head (Some node);;
  t ← gets lru_tail;
  match t with None => set_lru_tail (Some node) | Some _ => mret tt end.

Definition _hev_memory_allocator_lru_remove (node : nat) : stm HevMemoryAllocatorSlice unit :=
  n ← lru_load node;
  match lru_prev n with Some p => lru_update p (lru_set_next (lru_next n)) | None => mret tt end;;
  n ← lru_load node;
  match lru_next n with Some x => lru_update x (lru_set_prev (lru_prev n)) | None => mret tt end;;
  n ← lru_load node;
  h ← gets lru_head;
  (if decide (h = Some node) then set_lru_head (lru_next n) else mret tt);;
  t ← gets lru_tail;
  (if decide (t = Some node) then set_lru_tail (lru_prev n) else mret tt).

(** ** The allocator *)

Definition ALIGN_UP (size align : Z) : Z := Z.land (u64 (size + align - 1)) (Z.lnot (align - 1)).

Definition _hev_memory_allocator_alloc (at_ : option Z) (size : Z) : stm HevMemoryAllocatorSlice Z :=
  let size := ALIGN_UP size CACHED_SLICE_ALIGN in
  let index := s32 (size / CACHED_SLICE_ALIGN) in
  if index =? 0 then mret 0
  else if (1 <=? index) && (index <=? MAX_CACHED_SLICE_INDEX) then
    let i := Z.to_nat (index - 1) in
    owner ← owner_load i;
    slice ←
      (if negb (owner =? 0) then
         b ← slice_load owner;
         owner_store i (sl_next b);;
         modify (λ s, al_set_count (u32 (cached_count s - 1)) s);;
         _hev_memory_allocator_lru_remove i;;
         (if negb (sl_next b =? 0) then _hev_memory_allocator_lru_insert i else mret tt);;
         mret owner
       else
         slice ← libc_malloc at_ size;
         if slice =? 0 then mret 0 else slice_update slice (sl_set_index (index - 1));; mret slice);
    mret (if slice =? 0 then 0 else slice + SLICE_HEADER)
  else
    slice ← libc_malloc at_ size;
    if slice =? 0 then mret 0
    else slice_update slice (sl_set_index (-1));; mret (slice + SLICE_HEADER).

Definition _hev_memory_allocator_free (ptr : Z) : stm HevMemoryAllocatorSlice unit :=
  let slice := ptr - SLICE_HEADER in
  b ← slice_load slice;
  if sl_index b <? 0 then libc_free slice
  else
    let i := Z.to_nat (sl_index b) in
    count ← gets cached_count;
    (if MAX_CACHED_SLICE_COUNT <=? count then
       t ← gets lru_tail;
       match t with
       | None => ub
       | Some node =>
           free_slice ← owner_load node;
           f ← slice_load free_slice;
           owner_store node (sl_next f);;
           modify (λ s, al_set_count (u32 (cached_count s - 1)) s);;
           (if sl_next f =? 0 then _hev_memory_allocator_lru_remove node else mret tt);;
           libc_free free_slice
       end
     else mret tt);;
    first ← owner_load i;
    slice_update slice (sl_set_next first);;
    owner_store i slice;;
    modify (λ s, al_set_count (u32 (cached_count s + 1)) s);;
    if first =? 0 then _hev_memory_allocator_lru_insert i else mret tt.

(** [realloc] of the C library keeps the header, and moves the block to [at_]. *)
Definition _hev_memory_allocator_realloc (at_ : option Z) (ptr size : Z) : stm HevMemoryAllocatorSlice Z :=
  if 0 =? size then _hev_memory_allocator_free ptr;; mret 0
  else
    let slice := ptr - SLICE_HEADER in
    let size := ALIGN_UP size CACHED_SLICE_ALIGN in
    let index := s32 (size / CACHED_SLICE_ALIGN) in
    b ← slice_load slice;
    match at_ with
    | None => mret 0
    | Some a =>
        modify (λ s, al_set_blocks (<[a := mk_slice (sl_next b) (sl_index b) size]> (delete slice (blocks s))) s);;
        (if (1 <=? index) && (index <=? MAX_CACHED_SLICE_INDEX) then slice_update a (sl_set_index (index - 1))
         else slice_update a (sl_set_index (-1)));;
        mret (a + SLICE_HEADER)
    end.

(** The inner loop of [_hev_memory_allocator_destroy]. *)
Fixpoint destroy_slices (fuel : nat) (iter : Z) : stm HevMemoryAllocatorSlice unit :=
  match fuel with
  | O => ub
  | S fuel =>
      if iter =? 0 then mret tt
      else
        b ← slice_load iter;
        libc_free iter;;
        destroy_slices fuel (sl_next b)
  end.

Fixpoint destroy_loop (fuel : nat) (node : option nat) : stm HevMemoryAllocatorSlice unit :=
  match fuel with
  | O => ub
  | S fuel =>
      match node with
      | None => mret tt
      | Some i =>
          iter ← owner_load i;
          n ← gets (λ s, S (size (blocks s)));
          destroy_slices n iter;;
          x ← lru_load i;
          destroy_loop fuel (lru_next x)
      end
  end.

Definition _hev_memory_allocator_destroy : stm HevMemoryAllocatorSlice unit :=
  h ← gets lru_head;
  destroy_loop 65 h.

(** ** mem/api *)

Definition hev_malloc (at_ : option Z) (size : Z) : stm HevMemoryAllocatorSlice Z := _hev_memory_allocator_alloc at_ size.
Definition hev_free (ptr : Z) : stm HevMemoryAllocatorSlice unit := _hev_memory_allocator_free ptr.
Definition hev_realloc (at_ : option Z) (ptr size : Z) : stm HevMemoryAllocatorSlice Z := _hev_memory_allocator_realloc at_ ptr size.

(** The contents of the blocks are not part of the state. *)
Definition hev_calloc (at_ : option Z) (nmemb size : Z) : stm HevMemoryAllocatorSlice Z :=
  if (nmemb =? 0) || (size =? 0) then mret 0 else _hev_memory_allocator_alloc at_ (u64 (size * nmemb)).
