(* ===== verification/SliceAllocatorProps.v ===== *)
(** * The allocator gives out every block once, and keeps at most a thousand *)

From S2P Require Import Prelude SliceAllocator.

(** ** The list of sizes *)

Definition hd_or (l : list nat) (d : option nat) : option nat := match l with [] => d | x :: _ => Some x end.
Definition last_or (d : option nat) (l : list nat) : option nat := match last l with None => d | Some x => Some x end.

(** The nodes [xs], after [p] and before [nx]. *)
Fixpoint lseg (ns : list HevMemoryLRUNode) (p : option nat) (xs : list nat) (nx : option nat) : Prop :=
  match xs with
  | [] => True
  | x :: xs => ns !! x = Some (mk_lru p (hd_or xs nx)) ∧ lseg ns (Some x) xs nx
  end.

Lemma lseg_insert_ne ns p xs nx y n : y ∉ xs → lseg ns p xs nx → lseg (<[y := n]> ns) p xs nx.
Proof.
  revert p. induction xs as [|x xs IH]; intros p; simpl; [done|]. intros Hy [H1 H2].
  split; [rewrite list_lookup_insert_ne by set_solver; done|apply IH; set_solver].
Qed.

Lemma lru_lseg_app ns p l1 l2 nx :
  lseg ns p (l1 ++ l2) nx ↔ lseg ns p l1 (hd_or l2 nx) ∧ lseg ns (last_or p l1) l2 nx.
Proof.
  revert p. induction l1 as [|x l1 IH]; intros p; simpl; [tauto|]. rewrite IH.
  assert (hd_or (l1 ++ l2) nx = hd_or l1 (hd_or l2 nx)) as -> by by destruct l1.
  assert (last_or p (x :: l1) = last_or (Some x) l1) as ->.
  { unfold last_or. rewrite last_cons. by destruct (last l1). }
  tauto.
Qed.

(** The links of the first and of the last node. *)
Lemma lseg_first ns p p' x xs nx :
  x ∉ xs → lseg ns p (x :: xs) nx → lseg (<[x := mk_lru p' (hd_or xs nx)]> ns) p' (x :: xs) nx.
Proof.
  simpl. intros Hx [H1 H2]. split; [|by apply lseg_insert_ne].
  apply list_lookup_insert_eq. by eapply lookup_lt_Some.
Qed.
Lemma lseg_last ns p x xs nx nx' :
  x ∉ xs → lseg ns p (xs ++ [x]) nx → lseg (<[x := mk_lru (last_or p xs) nx']> ns) p (xs ++ [x]) nx'.
Proof.
  intros Hx. rewrite !lru_lseg_app. simpl. intros (H1 & H2 & _). split_and!; [by apply lseg_insert_ne| |done].
  apply list_lookup_insert_eq. by eapply lookup_lt_Some.
Qed.

Record lru_is (h t : option nat) (ns : list HevMemoryLRUNode) (xs : list nat) : Prop := {
  li_head : h = hd_or xs None;
  li_tail : t = last_or None xs;
  li_nodup : NoDup xs;
  li_len : length ns = 64%nat;
  li_seg : lseg ns None xs None;
}.

Definition lru_ok (s : HevMemoryAllocatorSlice) : list nat → Prop := lru_is (lru_head s) (lru_tail s) (lru_nodes s).

Lemma wp_lru_load s i n (Q : HevMemoryLRUNode → HevMemoryAllocatorSlice → Prop) :
  lru_nodes s !! i = Some n → Q n s → wp (lru_load i) s Q.
Proof. intros H HQ. unfold wp, lru_load. by rewrite H. Qed.
Lemma wp_lru_update s i f n (Q : unit → HevMemoryAllocatorSlice → Prop) :
  lru_nodes s !! i = Some n → Q tt (al_set_lru (lru_head s) (lru_tail s) (<[i := f n]> (lru_nodes s)) s) → wp (lru_update i f) s Q.
Proof. intros H HQ. unfold wp, lru_update. by rewrite H. Qed.

Lemma wp_lru_insert s xs i :
  lru_ok s xs → i ∉ xs → (i < 64)%nat →
  wp (_hev_memory_allocator_lru_insert i) s (λ _ s', ∃ h t ns, s' = al_set_lru h t ns s ∧ lru_is h t ns (i :: xs)).
Proof.
  intros [Hh Ht Hnd Hl Hs] Hi Hlt. unfold _hev_memory_allocator_lru_insert.
  destruct (lookup_lt_is_Some_2 (lru_nodes s) i ltac:(lia)) as [n Hn].
  apply wp_bind. eapply wp_lru_update; [exact Hn|]. apply wp_bind, wp_gets. simpl. rewrite Hh.
  assert (∀ m k, <[i := m]> (<[i := k]> (lru_nodes s)) !! i = Some m) as Hii.
  { intros m k. apply list_lookup_insert_eq. rewrite length_insert. lia. }
  destruct xs as [|x xs]; simpl.
  - apply wp_bind. eapply wp_lru_update; [apply list_lookup_insert_eq; lia|]. apply wp_bind, wp_modify, wp_bind, wp_gets. simpl.
    rewrite Ht. simpl. apply wp_modify. eexists _, _, _. split; [reflexivity|]. simpl.
    split; [done|done|repeat constructor; set_solver|by rewrite !length_insert|]. simpl. split; [|done]. apply Hii.
  - apply wp_bind, wp_bind. eapply wp_lru_update; [apply list_lookup_insert_eq; lia|]. simpl. destruct Hs as [Hx Hs].
    assert (i ≠ x) as Hne by set_solver.
    eapply wp_lru_update; [simpl; rewrite !list_lookup_insert_ne by done; exact Hx|].
    apply wp_bind, wp_modify, wp_bind, wp_gets. simpl. rewrite Ht.
    assert (is_Some (last_or None (x :: xs))) as [y Hy] by (unfold last_or; rewrite last_cons; destruct (last xs); by eexists).
    rewrite Hy. apply wp_ret. eexists _, _, _. split; [reflexivity|]. simpl. split; try done.
    + by constructor.
    + by rewrite !length_insert.
    + cbn [lseg hd_or]. split; [rewrite list_lookup_insert_ne by done; apply Hii|].
      change (lru_set_prev (Some i) (mk_lru None (hd_or xs None))) with (mk_lru (Some i) (hd_or xs None)).
      apply (lseg_first _ None); [by apply NoDup_cons in Hnd as [? _]|].
      apply lseg_insert_ne; [set_solver|]. apply lseg_insert_ne; [set_solver|]. by split.
Qed.

Lemma last_or_snoc d l x : last_or d (l ++ [x]) = Some x.
Proof. unfold last_or. by rewrite last_snoc. Qed.

Lemma wp_lru_remove s l1 i l2 :
  lru_ok s (l1 ++ i :: l2) →
  wp (_hev_memory_allocator_lru_remove i) s (λ _ s', ∃ h t ns, s' = al_set_lru h t ns s ∧ lru_is h t ns (l1 ++ l2)).
Proof.
  intros [Hh Ht Hnd Hl Hs]. unfold _hev_memory_allocator_lru_remove.
  apply lru_lseg_app in Hs as [Hs1 [Hi Hs2]]. cbn [hd_or] in Hs1. fold lseg in Hs2.
  assert (NoDup (l1 ++ l2)) as Hnd' by (rewrite NoDup_app in *; rewrite NoDup_cons in Hnd; set_solver).
  assert (i ∉ l1 ∧ i ∉ l2) as [Hi1 Hi2] by (rewrite NoDup_app, NoDup_cons in Hnd; set_solver).
  assert (∀ x, x ∈ l1 → x ∉ l2) as H12 by (rewrite NoDup_app in Hnd'; set_solver).
  (* the node before *)
  assert (∃ ns1, wp (match last_or None l1 with Some p => lru_update p (lru_set_next (hd_or l2 None)) | None => mret tt end) s
      (λ _ s', s' = al_set_lru (lru_head s) (lru_tail s) ns1 s) ∧ length ns1 = 64%nat ∧
      lseg ns1 None l1 (hd_or l2 None) ∧ ns1 !! i = Some (mk_lru (last_or None l1) (hd_or l2 None)) ∧ lseg ns1 (Some i) l2 None)
    as (ns1 & W1 & Hl1 & S1 & I1 & S2).
  { destruct l1 as [|p l1 _] using rev_ind.
    - exists (lru_nodes s). split_and!; try done. apply wp_ret. by destruct s.
    - rewrite last_or_snoc in *. exists (<[p := mk_lru (last_or None l1) (hd_or l2 None)]> (lru_nodes s)).
      assert (p ∉ l1) as Hp by (rewrite <-app_assoc in Hnd'; apply NoDup_app in Hnd'; set_solver).
      split_and!.
      + pose proof Hs1 as Hs1'. apply lru_lseg_app in Hs1' as (_ & Hpn & _). eapply wp_lru_update; [exact Hpn|]. done.
      + by rewrite length_insert.
      + by eapply lseg_last.
      + rewrite list_lookup_insert_ne by set_solver. done.
      + apply lseg_insert_ne; [set_solver|done]. }
  assert (∃ ns2, wp (match hd_or l2 None with Some x => lru_update x (lru_set_prev (last_or None l1)) | None => mret tt end)
        (al_set_lru (lru_head s) (lru_tail s) ns1 s) (λ _ s', s' = al_set_lru (lru_head s) (lru_tail s) ns2 s) ∧ length ns2 = 64%nat ∧
      lseg ns2 None l1 (hd_or l2 None) ∧ ns2 !! i = Some (mk_lru (last_or None l1) (hd_or l2 None)) ∧ lseg ns2 (last_or None l1) l2 None)
    as (ns2 & W2 & Hl2 & S1' & I2 & S2').
  { destruct l2 as [|x l2]; simpl.
    - exists ns1. split_and!; done.
    - exists (<[x := mk_lru (last_or None l1) (hd_or l2 None)]> ns1). refine (conj _ (conj _ (conj _ (conj _ _)))).
      + eapply wp_lru_update; [apply S2|]. done.
      + by rewrite length_insert.
      + apply lseg_insert_ne; [|done]. intros Hx. apply (H12 x Hx). set_solver.
      + rewrite list_lookup_insert_ne by set_solver. done.
      + eapply lseg_first; [|exact S2]. rewrite NoDup_app, NoDup_cons in Hnd'. set_solver. }
  apply wp_bind. eapply wp_lru_load; [exact Hi|]. cbn [lru_prev lru_next].
  apply wp_bind. eapply wp_mono; [exact W1|]. intros [] s1 ->. apply wp_bind. eapply wp_lru_load; [exact I1|]. cbn [lru_prev lru_next].
  apply wp_bind. eapply wp_mono; [exact W2|]. intros [] s2 ->. apply wp_bind. eapply wp_lru_load; [exact I2|]. cbn [lru_prev lru_next].
  apply wp_bind, wp_gets. simpl. rewrite Hh, Ht. apply wp_bind.
  assert (lseg ns2 None (l1 ++ l2) None) as Hseg by (by apply lru_lseg_app).
  assert (hd_or (l1 ++ i :: l2) None = Some i ↔ l1 = []) as Hhd.
  { destruct l1 as [|y l1]; simpl; [done|]. split; [|done]. intros [= ->]. set_solver. }
  assert (last_or None (l1 ++ i :: l2) = Some i ↔ l2 = []) as Hlt.
  { destruct l2 as [|y l2 _] using rev_ind; [by rewrite last_or_snoc|].
    rewrite app_comm_cons, app_assoc, last_or_snoc. split; [intros [= ->]; set_solver|]. intros E. by apply app_nil in E as [_ ?]. }
  assert (hd_or (l1 ++ l2) None = if decide (l1 = []) then hd_or l2 None else hd_or (l1 ++ i :: l2) None) as Hh'.
  { destruct (decide (l1 = [])) as [E|E]; [by rewrite E|]. by destruct l1. }
  assert (last_or None (l1 ++ l2) = if decide (l2 = []) then last_or None l1 else last_or None (l1 ++ i :: l2)) as Ht'.
  { destruct (decide (l2 = [])) as [E|E]; [by rewrite E, app_nil_r|]. destruct l2 as [|y l2 _] using rev_ind; [done|].
    by rewrite app_comm_cons, !app_assoc, !last_or_snoc. }
  destruct (decide (hd_or (l1 ++ i :: l2) None = Some i)) as [E1|E1];
    [apply Hhd in E1; apply wp_modify|apply wp_ret]; apply wp_bind, wp_gets; simpl;
    (destruct (decide (last_or None (l1 ++ i :: l2) = Some i)) as [E2|E2]; [apply Hlt in E2; apply wp_modify|apply wp_ret]);
    eexists _, _, _; (split; [reflexivity|]); simpl; (split; [| |done|done|exact Hseg]);
    rewrite ?Hh', ?Ht', ?Hh, ?Ht, ?E1, ?E2; try done.
  all: rewrite ?decide_False by tauto; try done.
  all: rewrite ?decide_True by done; done.
Qed.

(** ** The cached slices *)

(** The size of the slices of a class. *)
Definition csize (i : Z) : Z := (i + 1) * 64.

Fixpoint ccells (i : Z) (xs : list Z) : list (Z * HevMemorySlice) :=
  match xs with [] => [] | a :: xs => (a, mk_slice (hd 0 xs) i (csize i)) :: ccells i xs end.

Definition classes (C : list (list Z)) : list (Z * HevMemorySlice) := concat (imap (λ i xs, ccells (Z.of_nat i) xs) C).

Lemma classes_focus C i xs : C !! i = Some xs →
  ∃ R, classes C ≡ₚ ccells (Z.of_nat i) xs ++ R ∧ ∀ ys, classes (<[i := ys]> C) ≡ₚ ccells (Z.of_nat i) ys ++ R.
Proof.
  intros Hi. pose proof (lookup_lt_Some _ _ _ Hi) as Hlt. set (f := λ (i : nat) (xs : list Z), ccells (Z.of_nat i) xs).
  exists (concat (imap f (take i C)) ++ concat (imap (f ∘ Nat.add (S i)) (drop (S i) C))).
  assert (∀ ys, classes (<[i := ys]> C) ≡ₚ ccells (Z.of_nat i) ys ++
    concat (imap f (take i C)) ++ concat (imap (f ∘ Nat.add (S i)) (drop (S i) C))) as H.
  { intros ys. unfold classes. fold f. rewrite insert_take_drop by done.
    rewrite imap_app, concat_app, length_take_le, imap_cons, concat_cons by lia.
    assert (imap ((λ n, f (i + n)%nat) ∘ S) (drop (S i) C) = imap (f ∘ Nat.add (S i)) (drop (S i) C)) as ->.
    { apply imap_ext. intros j x _. simpl. f_equal. lia. }
    rewrite Nat.add_0_r. unfold f at 2. solve_Permutation. }
  split; [|done]. rewrite <-(list_insert_id C i xs Hi) at 1. apply H.
Qed.

Lemma count_insert (C : list (list Z)) i (xs ys : list Z) : C !! i = Some xs →
  (length (concat (<[i := ys]> C)) + length xs = length (concat C) + length ys)%nat.
Proof.
  intros Hi. rewrite <-(list_insert_id C i xs Hi) at 2.
  pose proof (lookup_lt_Some _ _ _ Hi). rewrite !insert_take_drop by done.
  rewrite !concat_app. simpl. rewrite !length_app. lia.
Qed.

(** A block that has been given out: its index says which class it goes to. *)
Definition live_ok (b : HevMemorySlice) : Prop :=
  sl_index b = -1 ∨ 0 ≤ sl_index b < 64 ∧ sl_size b = csize (sl_index b).

(** [C] are the cached slices of each class, [L] the blocks given out, [X] the list
    of the classes that have slices. *)
Record alloc_is (s : HevMemoryAllocatorSlice) (C : list (list Z)) (L : list (Z * HevMemorySlice)) (X : list nat) : Prop := {
  ai_len : length C = 64%nat;
  ai_owners : cached_mslices s = hd 0 <$> C;
  ai_heap : heap_is (blocks s) (classes C ++ L);
  ai_count : cached_count s = Z.of_nat (length (concat C));
  ai_bound : cached_count s ≤ MAX_CACHED_SLICE_COUNT;
  ai_lru : lru_ok s X;
  ai_used : ∀ i, i ∈ X ↔ ∃ x xs, C !! i = Some (x :: xs);
  ai_live : Forall live_ok L.*2;
}.

Lemma alloc_is_perm s C L L' X : alloc_is s C L X → L ≡ₚ L' → alloc_is s C L' X.
Proof.
  intros [? ? Hh ? ? ? ? Hl] HL. split; try done; [|by rewrite <-HL]. eapply heap_perm; [exact Hh|]. by rewrite HL.
Qed.

Lemma wp_slice_load s a b (Q : HevMemorySlice → HevMemoryAllocatorSlice → Prop) :
  blocks s !! a = Some b → Q b s → wp (slice_load a) s Q.
Proof. intros H HQ. unfold wp, slice_load. by rewrite H. Qed.
Lemma wp_slice_update s a f b (Q : unit → HevMemoryAllocatorSlice → Prop) :
  blocks s !! a = Some b → Q tt (al_set_blocks (<[a := f b]> (blocks s)) s) → wp (slice_update a f) s Q.
Proof. intros H HQ. unfold wp, slice_update. by rewrite H. Qed.
Lemma wp_libc_free s a b (Q : unit → HevMemoryAllocatorSlice → Prop) :
  blocks s !! a = Some b → Q tt (al_set_blocks (delete a (blocks s)) s) → wp (libc_free a) s Q.
Proof. intros H HQ. unfold wp, libc_free. by rewrite H. Qed.
Lemma wp_owner_load s i a (Q : Z → HevMemoryAllocatorSlice → Prop) :
  cached_mslices s !! i = Some a → Q a s → wp (owner_load i) s Q.
Proof. intros H HQ. unfold wp, owner_load. by rewrite H. Qed.
Lemma wp_owner_store s i a a' (Q : unit → HevMemoryAllocatorSlice → Prop) :
  cached_mslices s !! i = Some a → Q tt (al_set_slices (<[i := a']> (cached_mslices s)) s) → wp (owner_store i a') s Q.
Proof. intros H HQ. unfold wp, owner_store. by rewrite H. Qed.

Lemma owner_lookup s C L X i xs : alloc_is s C L X → C !! i = Some xs → cached_mslices s !! i = Some (hd 0 xs).
Proof. intros H Hi. rewrite (ai_owners _ _ _ _ H), list_lookup_fmap, Hi. done. Qed.

(** The first slice of a class, in memory. *)
Lemma class_first s C L X i a xs : alloc_is s C L X → C !! i = Some (a :: xs) →
  blocks s !! a = Some (mk_slice (hd 0 xs) (Z.of_nat i) (csize (Z.of_nat i))) ∧ is_ptr a.
Proof.
  intros H Hi. destruct (classes_focus _ _ _ Hi) as (R & HC & _). pose proof (ai_heap _ _ _ _ H) as Hh. rewrite HC in Hh. simpl in Hh.
  split; [by apply (heap_lookup _ _ 0 a _ Hh)|by eapply (heap_ptr _ _ 0 a _ Hh)].
Qed.

Lemma class_hd_zero s C L X i xs : alloc_is s C L X → C !! i = Some xs → hd 0 xs = 0 → xs = [].
Proof.
  intros H Hi Hz. destruct xs as [|a xs]; [done|]. simpl in Hz. subst a.
  destruct (class_first _ _ _ _ _ _ _ H Hi) as [_ Hp]. by apply is_ptr_nonzero in Hp.
Qed.

(** The second of a class is its next first. *)
Lemma next_zero s C L X i a xs : alloc_is s C L X → C !! i = Some (a :: xs) → hd 0 xs = 0 → xs = [].
Proof.
  intros H Hi Hz. destruct xs as [|b xs]; [done|]. simpl in Hz. subst b.
  destruct (classes_focus _ _ _ Hi) as (R & HC & _). pose proof (ai_heap _ _ _ _ H) as Hh. rewrite HC in Hh. simpl in Hh.
  pose proof (heap_ptr _ _ 1 0 _ Hh eq_refl) as Hp. by apply is_ptr_nonzero in Hp.
Qed.

(** ** Slices leave and enter the cache *)

Lemma used_insert (C : list (list Z)) (i : nat) (xs ys : list Z) : C !! i = Some xs → ∀ j, (∃ x zs, <[i := ys]> C !! j = Some (x :: zs)) ↔
  (j = i ∧ ys ≠ [] ∨ j ≠ i ∧ ∃ x zs, C !! j = Some (x :: zs)).
Proof.
  intros Hi j. pose proof (lookup_lt_Some _ _ _ Hi). destruct (decide (j = i)) as [->|Hne].
  - rewrite list_lookup_insert_eq by done. split; [intros (x & zs & [= ->]); by left|]. intros [[_ Hy]|[? _]]; [|done].
    destruct ys as [|y ys]; [done|eauto].
  - rewrite list_lookup_insert_ne by done. naive_solver.
Qed.

(** The state without the first slice of a class, with the list [X'] of classes. *)
Definition popped (i : nat) (xs : list Z) (s : HevMemoryAllocatorSlice) : HevMemoryAllocatorSlice :=
  al_set_count (u32 (cached_count s - 1)) (al_set_slices (<[i := hd 0 xs]> (cached_mslices s)) s).

Lemma alloc_popped s C L X i a xs h t ns X' :
  alloc_is s C L X → C !! i = Some (a :: xs) → lru_is h t ns X' →
  (∀ j, j ∈ X' ↔ ∃ x zs, <[i := xs]> C !! j = Some (x :: zs)) →
  alloc_is (al_set_lru h t ns (popped i xs s)) (<[i := xs]> C) ((a, mk_slice (hd 0 xs) (Z.of_nat i) (csize (Z.of_nat i))) :: L) X' ∧
  cached_count (popped i xs s) = cached_count s - 1.
Proof.
  intros H Hi Hl Hu. pose proof H as [Hlen Ho Hh Hc Hb _ _ Hlive]. pose proof (lookup_lt_Some _ _ _ Hi) as Hlt.
  pose proof (count_insert C i (a :: xs) xs Hi) as Hcnt. simpl in Hcnt.
  assert (cached_count (popped i xs s) = cached_count s - 1) as Hcc.
  { simpl. rewrite u32_small; [done|]. unfold MAX_CACHED_SLICE_COUNT in Hb. lia. }
  split; [|done]. split; simpl in *; try done.
  - by rewrite length_insert.
  - by rewrite Ho, list_fmap_insert.
  - destruct (classes_focus _ _ _ Hi) as (R & HC & HC'). rewrite HC in Hh. rewrite HC'. simpl in Hh.
    eapply heap_perm; [exact Hh|]. solve_Permutation.
  - rewrite Hcc. lia.
  - lia.
  - constructor; [|done]. right. simpl. split; [lia|done].
Qed.

Lemma lru_member s C L X i a xs : alloc_is s C L X → C !! i = Some (a :: xs) → ∃ l1 l2, X = l1 ++ i :: l2 ∧ i ∉ l1 ∧ i ∉ l2.
Proof.
  intros H Hi. assert (i ∈ X) as Hin by (apply (ai_used _ _ _ _ H); eauto).
  apply list_elem_of_split in Hin as (l1 & l2 & ->). exists l1, l2. split; [done|].
  pose proof (li_nodup _ _ _ _ (ai_lru _ _ _ _ H)) as Hnd. apply NoDup_app in Hnd as (_ & H1 & [H2 _]%NoDup_cons). set_solver.
Qed.

(** Allocation from the cache. *)
Lemma wp_take_cached s C L X i a xs b :
  alloc_is s C L X → C !! i = Some (a :: xs) → b = mk_slice (hd 0 xs) (Z.of_nat i) (csize (Z.of_nat i)) →
  wp (owner_store i (sl_next b);;
      modify (λ s, al_set_count (u32 (cached_count s - 1)) s);;
      _hev_memory_allocator_lru_remove i;;
      (if negb (sl_next b =? 0) then _hev_memory_allocator_lru_insert i else mret tt);;
      mret a) s
    (λ r s', r = a ∧ ∃ X', alloc_is s' (<[i := xs]> C) ((a, b) :: L) X').
Proof.
  intros H Hi ->. cbn [sl_next]. pose proof (lookup_lt_Some _ _ _ Hi) as Hlt. rewrite (ai_len _ _ _ _ H) in Hlt.
  destruct (lru_member _ _ _ _ _ _ _ H Hi) as (l1 & l2 & -> & Hn1 & Hn2).
  apply wp_bind. eapply wp_owner_store; [by eapply owner_lookup|]. apply wp_bind, wp_modify, wp_bind.
  change (al_set_count _ _) with (popped i xs s).
  eapply wp_mono; [apply (wp_lru_remove (popped i xs s) l1 i l2); exact (ai_lru _ _ _ _ H)|].
  intros [] s' (h & t & ns & -> & Hlru). apply wp_bind.
  assert (∀ j, j ∈ l1 ++ l2 ↔ j ≠ i ∧ ∃ x zs, C !! j = Some (x :: zs)) as Hu.
  { intros j. rewrite <-(ai_used _ _ _ _ H). set_solver. }
  destruct (Z.eqb_spec (hd 0 xs) 0) as [Hz|Hz]; simpl.
  - apply wp_ret, wp_ret. split; [done|]. exists (l1 ++ l2). eapply alloc_popped; [done|done|done|].
    intros j. rewrite Hu, (used_insert _ _ _ xs Hi). rewrite (next_zero _ _ _ _ _ _ _ H Hi Hz). naive_solver.
  - eapply wp_mono; [eapply (wp_lru_insert _ (l1 ++ l2) i); [exact Hlru|set_solver|done]|].
    intros [] s'' (h' & t' & ns' & -> & Hlru'). apply wp_ret. split; [done|]. exists (i :: l1 ++ l2).
    change (al_set_lru h' t' ns' (al_set_lru h t ns (popped i xs s))) with (al_set_lru h' t' ns' (popped i xs s)).
    eapply alloc_popped; [done|done|done|]. intros j. rewrite elem_of_cons, Hu, (used_insert _ _ _ xs Hi).
    destruct xs; [done|]. naive_solver.
Qed.

(** A block that was given out is returned to the C library. *)
Lemma alloc_freed s C a b L X :
  alloc_is s C ((a, b) :: L) X → alloc_is (al_set_blocks (delete a (blocks s)) s) C L X ∧ blocks s !! a = Some b.
Proof.
  intros [Hlen Ho Hh Hc Hb Hl Hu Hlive]. hperm Hh ((a, b) :: classes C ++ L).
  split; [|by apply (heap_lookup _ _ 0 a b Hh)]. split; simpl; try done; [by eapply heap_free|by inversion Hlive].
Qed.

Lemma concat_nonempty (C : list (list Z)) : concat C ≠ [] → ∃ j y ys, C !! j = Some (y :: ys).
Proof.
  induction C as [|[|y ys] C IH]; simpl; intros H; [done| |by exists 0%nat, y, ys].
  destruct (IH H) as (j & y & ys & Hj). by exists (S j), y, ys.
Qed.

(** The cache is full: a slice of the class that was not used for longest goes. *)
Lemma wp_evict s C L X :
  alloc_is s C L X → cached_count s = MAX_CACHED_SLICE_COUNT →
  wp (t ← gets lru_tail;
      match t with
      | None => ub
      | Some node =>
          free_slice ← owner_load node;
          f ← slice_load free_slice;
          owner_store node (sl_next f);;
          modify (λ s, al_set_count (u32 (cached_count s - 1)) s);;
          (if sl_next f =? 0 then _hev_memory_allocator_lru_remove node else mret tt);;
          libc_free free_slice
      end) s
    (λ _ s', ∃ C' X', alloc_is s' C' L X' ∧ cached_count s' = cached_count s - 1).
Proof.
  intros H Hfull. pose proof H as [Hlen Ho Hh Hc Hb Hlru Hu _].
  assert (∃ l i, X = l ++ [i]) as (l & i & HX).
  { destruct X as [|i l _] using rev_ind; [|eauto]. exfalso. unfold MAX_CACHED_SLICE_COUNT in *.
    destruct (concat_nonempty C) as (j & y & ys & Hj); [intros E; rewrite E in Hc; simpl in Hc; lia|].
    assert (j ∈ []) as Hbad by (apply Hu; eauto). set_solver. }
  subst X. assert (i ∈ l ++ [i]) as Hin by set_solver. apply Hu in Hin as (a & xs & Hi).
  destruct (class_first _ _ _ _ _ _ _ H Hi) as [Ha _]. pose proof (lookup_lt_Some _ _ _ Hi) as Hlt. rewrite Hlen in Hlt.
  apply wp_bind, wp_gets. rewrite (li_tail _ _ _ _ Hlru), last_or_snoc.
  apply wp_bind. eapply wp_owner_load; [by eapply owner_lookup|]. simpl. apply wp_bind. eapply wp_slice_load; [exact Ha|]. cbn [sl_next].
  apply wp_bind. eapply wp_owner_store; [by eapply owner_lookup|]. apply wp_bind, wp_modify, wp_bind.
  change (al_set_count _ _) with (popped i xs s).
  assert (i ∉ l) as Hil by (pose proof (li_nodup _ _ _ _ Hlru) as Hnd; apply NoDup_app in Hnd; set_solver).
  assert (∀ s' X', alloc_is s' (<[i := xs]> C) ((a, mk_slice (hd 0 xs) (Z.of_nat i) (csize (Z.of_nat i))) :: L) X' →
    cached_count s' = cached_count s - 1 →
    wp (libc_free a) s' (λ _ s', ∃ C' X', alloc_is s' C' L X' ∧ cached_count s' = cached_count s - 1)) as Hfree.
  { intros s' X' H' Hc'. destruct (alloc_freed _ _ _ _ _ _ H') as [H'' Hb']. eapply wp_libc_free; [exact Hb'|]. eauto. }
  destruct (Z.eqb_spec (hd 0 xs) 0) as [Hz|Hz].
  - eapply wp_mono; [apply (wp_lru_remove (popped i xs s) l i []); exact Hlru|].
    intros [] s' (h & t & ns & -> & Hlru'). rewrite app_nil_r in Hlru'.
    destruct (alloc_popped s C L (l ++ [i]) i a xs h t ns l H Hi Hlru') as [H' Hc']; [|by eapply Hfree].
    intros j. rewrite (used_insert _ _ _ xs Hi), (next_zero _ _ _ _ _ _ _ H Hi Hz), <-Hu. set_solver.
  - apply wp_ret. pose proof (alloc_popped s C L (l ++ [i]) i a xs _ _ _ (l ++ [i]) H Hi Hlru) as [H' Hc'].
    + intros j. rewrite (used_insert _ _ _ xs Hi), <-Hu. destruct xs; [done|]. set_solver.
    + eapply Hfree; [|exact Hc']. by replace (popped i xs s) with (al_set_lru (lru_head s) (lru_tail s) (lru_nodes s) (popped i xs s)) by by destruct s.
Qed.

(** A block goes to the cache. *)
Lemma wp_push s C a b L X i xs :
  alloc_is s C ((a, b) :: L) X → sl_index b = Z.of_nat i → C !! i = Some xs → cached_count s < MAX_CACHED_SLICE_COUNT →
  wp (first ← owner_load i;
      slice_update a (sl_set_next first);;
      owner_store i a;;
      modify (λ s, al_set_count (u32 (cached_count s + 1)) s);;
      if first =? 0 then _hev_memory_allocator_lru_insert i else mret tt) s
    (λ _ s', ∃ X', alloc_is s' (<[i := a :: xs]> C) L X').
Proof.
  intros H Hidx Hi Hcnt. pose proof H as [Hlen Ho Hh Hc Hb Hlru Hu Hlive]. pose proof (lookup_lt_Some _ _ _ Hi) as Hlt.
  destruct (alloc_freed _ _ _ _ _ _ H) as [_ Ha].
  apply wp_bind. eapply wp_owner_load; [by eapply owner_lookup|]. apply wp_bind. eapply wp_slice_update; [exact Ha|].
  apply wp_bind. eapply wp_owner_store; [exact (owner_lookup _ _ _ _ _ _ H Hi)|]. apply wp_bind, wp_modify.
  set (s1 := al_set_count _ _).
  assert (sl_set_next (hd 0 xs) b = mk_slice (hd 0 xs) (Z.of_nat i) (csize (Z.of_nat i))) as Hb1.
  { inversion Hlive as [|? ? [Hneg|[? Hs]] _]; simpl in *; [lia|]. unfold sl_set_next. by rewrite Hs, Hidx. }
  assert (∀ h t ns X', lru_is h t ns X' → (∀ j, j ∈ X' ↔ ∃ x zs, <[i := a :: xs]> C !! j = Some (x :: zs)) →
    alloc_is (al_set_lru h t ns s1) (<[i := a :: xs]> C) L X') as Hdone.
  { intros h t ns X' Hl' Hu'. pose proof (count_insert C i xs (a :: xs) Hi) as Hn. simpl in Hn.
    unfold MAX_CACHED_SLICE_COUNT in *.
    assert (cached_count s1 = cached_count s + 1) as Hcc by (simpl; rewrite u32_small; lia).
    split; simpl in *; try done.
    - by rewrite length_insert.
    - by rewrite Ho, list_fmap_insert.
    - destruct (classes_focus _ _ _ Hi) as (R & HC & HC'). rewrite HC in Hh. rewrite HC'. simpl.
      hperm Hh ((a, b) :: ccells (Z.of_nat i) xs ++ R ++ L).
      apply (heap_store _ _ 0 a b (sl_set_next (hd 0 xs) b)) in Hh; [|done]. simpl in Hh. rewrite Hb1 in Hh |- *.
      eapply heap_perm; [exact Hh|]. solve_Permutation.
    - rewrite Hcc. lia.
    - unfold MAX_CACHED_SLICE_COUNT. lia.
    - by inversion Hlive. }
  destruct (Z.eqb_spec (hd 0 xs) 0) as [Hz|Hz].
  - pose proof (class_hd_zero _ _ _ _ _ _ H Hi Hz) as ->.
    eapply wp_mono; [eapply (wp_lru_insert s1 X i); [exact Hlru| |lia]|].
    { rewrite Hu. intros (x & zs & Hx). by rewrite Hi in Hx. }
    intros [] s' (h & t & ns & -> & Hl'). eexists. apply Hdone; [exact Hl'|].
    intros j. rewrite elem_of_cons, Hu, (used_insert _ _ _ [a] Hi). split; [|naive_solver].
    intros [->|(x & zs & Hx)]; [by left|]. right. split; [|eauto]. intros ->. by rewrite Hi in Hx.
  - apply wp_ret. exists X.
    replace s1 with (al_set_lru (lru_head s) (lru_tail s) (lru_nodes s) s1) by by destruct s.
    apply Hdone; [exact Hlru|]. intros j. rewrite Hu, (used_insert _ _ _ (a :: xs) Hi).
    destruct xs as [|x xs]; [done|]. split.
    + intros (y & zs & Hy). destruct (decide (j = i)) as [->|]; [by left|eauto 10].
    + intros [[-> _]|[_ ?]]; eauto.
Qed.

(** ** The operations *)

Lemma align_up size : 0 ≤ size → size + 63 < 2 ^ 64 → ALIGN_UP size 64 = (size + 63) / 64 * 64.
Proof.
  intros H1 H2. unfold ALIGN_UP. replace (size + 64 - 1) with (size + 63) by lia. rewrite u64_small by lia.
  change (64 - 1) with (Z.ones 6). rewrite <-Z.ldiff_land, Z.ldiff_ones_r, Z.shiftl_mul_pow2, Z.shiftr_div_pow2 by lia. done.
Qed.

(** The largest size whose index is an [int]. *)
Definition MAX_REQUEST : Z := 2 ^ 37 - 64.

Lemma align_index size n : 0 < size ≤ MAX_REQUEST → n = (size + 63) / 64 →
  ALIGN_UP size CACHED_SLICE_ALIGN = n * 64 ∧ s32 (ALIGN_UP size CACHED_SLICE_ALIGN / CACHED_SLICE_ALIGN) = n ∧
  0 < n ∧ size ≤ n * 64.
Proof.
  unfold MAX_REQUEST, CACHED_SLICE_ALIGN. intros H Hn. rewrite align_up by lia. rewrite <-Hn.
  pose proof (Z_div_mod_eq_full (size + 63) 64) as Hd. pose proof (Z.mod_pos_bound (size + 63) 64 ltac:(lia)) as Hm. rewrite <-Hn in Hd.
  rewrite Z.div_mul by lia. split_and!; [done| |lia|lia]. unfold s32. rewrite Z.mod_small; lia.
Qed.

Lemma alloc_added s C L X a b :
  alloc_is s C L X → is_ptr a → blocks s !! a = None → live_ok b →
  alloc_is (al_set_blocks (<[a := b]> (blocks s)) s) C ((a, b) :: L) X.
Proof.
  intros [Hlen Ho Hh Hc Hb Hl Hu Hlive] Ha Hf Hok. split; simpl; try done; [|by constructor].
  eapply heap_perm; [by eapply (heap_alloc _ _ a b)|]. solve_Permutation.
Qed.

(** Where the C library may put a block. *)
Definition fresh_at (s : HevMemoryAllocatorSlice) (at_ : option Z) : Prop :=
  match at_ with Some a => is_ptr a ∧ blocks s !! a = None | None => True end.

Lemma wp_malloc s C L X at_ size idx :
  alloc_is s C L X → fresh_at s at_ → (idx = -1 ∨ 0 ≤ idx < 64 ∧ size = csize idx) →
  wp (slice ← libc_malloc at_ size; if slice =? 0 then mret 0 else slice_update slice (sl_set_index idx);; mret slice) s
    (λ r s', match at_ with
      | None => r = 0 ∧ s' = s
      | Some a => r = a ∧ alloc_is s' C ((a, mk_slice 0 idx size) :: L) X
      end).
Proof.
  intros H Hf Hi. destruct at_ as [a|]; simpl in Hf.
  - destruct Hf as [Hp Hn]. apply wp_bind. unfold libc_malloc. apply wp_bind, wp_modify, wp_ret.
    rewrite (proj2 (Z.eqb_neq a 0)) by (by apply is_ptr_nonzero). apply wp_bind.
    eapply wp_slice_update; [apply lookup_insert_eq|]. apply wp_ret. split; [done|].
    unfold al_set_blocks. simpl. rewrite insert_insert_eq. apply (alloc_added s C L X a); [done|done|done|].
    destruct Hi as [->|[? ->]]; [by left|by right].
  - apply wp_bind, wp_ret. by apply wp_ret.
Qed.

Lemma wp_alloc s C L X at_ size :
  alloc_is s C L X → fresh_at s at_ → 0 < size ≤ MAX_REQUEST →
  wp (_hev_memory_allocator_alloc at_ size) s (λ p s',
    (p = 0 ∧ at_ = None ∧ s' = s) ∨
    ∃ C' X' a b, p = a + SLICE_HEADER ∧ is_ptr a ∧ alloc_is s' C' ((a, b) :: L) X' ∧ size ≤ sl_size b).
Proof.
  intros H Hf Hs. destruct (align_index size _ Hs eq_refl) as (Ha & Hidx & Hn & Hge). unfold _hev_memory_allocator_alloc. cbn zeta.
  rewrite Hidx, Ha. set (n := (size + 63) / 64) in *. rewrite (proj2 (Z.eqb_neq n 0)) by lia.
  rewrite (proj2 (Z.leb_le 1 n)) by lia. simpl. destruct (Z.leb_spec n MAX_CACHED_SLICE_INDEX) as [Hle|Hgt];
    change MAX_CACHED_SLICE_INDEX with 64 in *.
  - set (i := Z.to_nat (n - 1)). assert (Z.of_nat i = n - 1) as Hi by lia.
    destruct (lookup_lt_is_Some_2 C i) as [xs Hxs]; [rewrite (ai_len _ _ _ _ H); lia|].
    apply wp_bind. eapply wp_owner_load; [by eapply owner_lookup|]. apply wp_bind.
    assert (csize (n - 1) = n * 64) as Hcs by (unfold csize; lia).
    destruct (Z.eqb_spec (hd 0 xs) 0) as [Hz|Hz]; cbn [negb].
    + eapply wp_mono; [apply (wp_malloc s C L X at_ (n * 64) (n - 1) H Hf); right; lia|].
      intros r s' Hr. apply wp_ret. destruct at_ as [a|].
      * destruct Hr as [-> Hr]. right. exists C, X, a, (mk_slice 0 (n - 1) (n * 64)).
        destruct Hf as [Hp _]. rewrite (proj2 (Z.eqb_neq a 0)) by (by apply is_ptr_nonzero). by split_and!.
      * destruct Hr as [-> ->]. by left.
    + destruct xs as [|a xs]; [done|]. simpl. destruct (class_first _ _ _ _ _ _ _ H Hxs) as [Hb Hp].
      apply wp_bind. eapply wp_slice_load; [exact Hb|].
      eapply wp_mono; [by eapply wp_take_cached|]. intros r s' (-> & X' & H'). apply wp_ret. right.
      rewrite (proj2 (Z.eqb_neq a 0)) by (by apply is_ptr_nonzero). eexists _, X', a, _. split_and!; [done|done|exact H'|].
      simpl. rewrite Hi, Hcs. done.
  - pose proof (wp_malloc s C L X at_ (n * 64) (-1) H Hf ltac:(by left)) as Hm. apply wp_bind_inv in Hm. apply wp_bind.
    eapply wp_mono; [exact Hm|]. intros slice s1 Hm1. simpl in Hm1.
    destruct (Z.eqb_spec slice 0) as [->|Hnz].
    + apply wp_ret. apply wp_run in Hm1 as (r & s' & [= <- <-] & Hr). destruct at_ as [a|].
      * destruct Hr as [<- _]. destruct Hf as [Hp _]. by apply is_ptr_nonzero in Hp.
      * left. by destruct Hr as [_ ->].
    + apply wp_bind_inv in Hm1. apply wp_bind. eapply wp_mono; [exact Hm1|]. intros [] s2 Hm2. apply wp_ret.
      apply wp_run in Hm2 as (r & s' & [= <- <-] & Hr). destruct at_ as [a|]; [|by destruct Hr].
      destruct Hr as [-> Hr]. right. eexists C, X, a, _. split_and!; [done|apply Hf|exact Hr|done].
Qed.

Lemma wp_free s C a b L X :
  alloc_is s C ((a, b) :: L) X →
  wp (_hev_memory_allocator_free (a + SLICE_HEADER)) s (λ _ s', ∃ C' X', alloc_is s' C' L X').
Proof.
  intros H. destruct (alloc_freed _ _ _ _ _ _ H) as [Hfree Ha]. unfold _hev_memory_allocator_free.
  replace (a + SLICE_HEADER - SLICE_HEADER) with a by lia. apply wp_bind. eapply wp_slice_load; [exact Ha|].
  pose proof (ai_live _ _ _ _ H) as Hlive. inversion_clear Hlive as [|? ? Hb _]. simpl in Hb.
  destruct (Z.ltb_spec (sl_index b) 0) as [Hneg|Hpos]; [eapply wp_libc_free; [exact Ha|eauto]|].
  assert (0 ≤ sl_index b < 64) as Hr by (destruct Hb; lia). apply wp_bind, wp_gets. apply wp_bind.
  assert (∀ s' C' X', alloc_is s' C' ((a, b) :: L) X' → cached_count s' < MAX_CACHED_SLICE_COUNT →
    wp (first ← owner_load (Z.to_nat (sl_index b));
        slice_update a (sl_set_next first);;
        owner_store (Z.to_nat (sl_index b)) a;;
        modify (λ s, al_set_count (u32 (cached_count s + 1)) s);;
        if first =? 0 then _hev_memory_allocator_lru_insert (Z.to_nat (sl_index b)) else mret tt) s'
      (λ _ s', ∃ C' X', alloc_is s' C' L X')) as Hpush.
  { intros s' C' X' H' Hc. destruct (lookup_lt_is_Some_2 C' (Z.to_nat (sl_index b))) as [xs Hxs]; [rewrite (ai_len _ _ _ _ H'); lia|].
    eapply wp_mono; [eapply (wp_push s' C' a b L X'); [exact H'|lia|exact Hxs|done]|]. intros [] s2 [X2 H2]. eauto. }
  destruct (Z.leb_spec MAX_CACHED_SLICE_COUNT (cached_count s)) as [Hfull|Hnot].
  - pose proof (ai_bound _ _ _ _ H). eapply wp_mono; [apply (wp_evict s C _ X H); lia|].
    intros [] s' (C' & X' & H' & Hc'). eapply Hpush; [exact H'|lia].
  - apply wp_ret. by eapply Hpush.
Qed.

Lemma wp_realloc s C a b L X at_ size :
  alloc_is s C ((a, b) :: L) X → (at_ = Some a ∨ fresh_at s at_) → 0 < size ≤ MAX_REQUEST →
  wp (_hev_memory_allocator_realloc at_ (a + SLICE_HEADER) size) s (λ p s',
    match at_ with
    | None => p = 0 ∧ s' = s
    | Some a' => p = a' + SLICE_HEADER ∧ is_ptr a' ∧ ∃ b', alloc_is s' C ((a', b') :: L) X ∧ size ≤ sl_size b'
    end).
Proof.
  intros H Hf Hs. destruct (align_index size _ Hs eq_refl) as (Ha & Hidx & Hn & Hge). unfold _hev_memory_allocator_realloc. cbn zeta.
  rewrite (proj2 (Z.eqb_neq 0 size)) by lia. rewrite Hidx, Ha. set (n := (size + 63) / 64) in *.
  destruct (alloc_freed _ _ _ _ _ _ H) as [Hfree Hb]. replace (a + SLICE_HEADER - SLICE_HEADER) with a by lia.
  apply wp_bind. eapply wp_slice_load; [exact Hb|]. destruct at_ as [a'|]; [|by apply wp_ret].
  assert (is_ptr a' ∧ delete a (blocks s) !! a' = None) as [Hp Hn'].
  { destruct Hf as [[= ->]|[Hp Hx]].
    - split; [|apply lookup_delete_eq]. pose proof (ai_heap _ _ _ _ H) as Hh. hperm Hh ((a, b) :: classes C ++ L).
      by eapply (heap_ptr _ _ 0 a b Hh).
    - split; [done|]. apply lookup_delete_None. by right. }
  apply wp_bind, wp_modify, wp_bind. rewrite (proj2 (Z.leb_le 1 n)) by lia. cbn [andb].
  assert (∀ idx, live_ok (mk_slice (sl_next b) idx (n * 64)) →
    wp (slice_update a' (sl_set_index idx))
      (al_set_blocks (<[a' := mk_slice (sl_next b) (sl_index b) (n * 64)]> (delete a (blocks s))) s)
      (λ _ s', wp (mret (a' + SLICE_HEADER)) s' (λ p s', p = a' + SLICE_HEADER ∧ is_ptr a' ∧
        ∃ b', alloc_is s' C ((a', b') :: L) X ∧ size ≤ sl_size b'))) as Hup.
  { intros idx Hok. eapply wp_slice_update; [apply lookup_insert_eq|]. apply wp_ret. split_and!; [done|done|].
    exists (mk_slice (sl_next b) idx (n * 64)). split; [|exact Hge]. unfold al_set_blocks. simpl. rewrite insert_insert_eq.
    by apply (alloc_added _ _ _ _ a' (mk_slice (sl_next b) idx (n * 64)) Hfree). }
  destruct (Z.leb_spec n MAX_CACHED_SLICE_INDEX) as [Hle|Hgt]; change MAX_CACHED_SLICE_INDEX with 64 in *.
  - apply Hup. right. simpl. unfold csize. lia.
  - apply Hup. by left.
Qed.

(** ** The end *)

(** The cells of the classes, in the order of the list [X]. *)
Lemma classes_listed C X :
  NoDup X → (∀ i, i ∈ X ↔ ∃ x xs, C !! i = Some (x :: xs)) →
  classes C ≡ₚ concat ((λ i, ccells (Z.of_nat i) (default [] (C !! i))) <$> X).
Proof.
  revert C. induction X as [|i X IH]; intros C Hnd Hu.
  - simpl. unfold classes. assert (∀ i xs, C !! i = Some xs → xs = []) as Hnil.
    { intros i [|x xs] Hi; [done|]. assert (i ∈ []) by (apply Hu; eauto). set_solver. }
    clear Hu. enough (∀ f : nat → list Z → list (Z * HevMemorySlice), (∀ i, f i [] = []) → concat (imap f C) = []) as Hz
      by (rewrite Hz; done).
    induction C as [|xs C IHC]; intros f Hf; [done|]. rewrite imap_cons, concat_cons.
    rewrite (Hnil 0%nat xs eq_refl), Hf. simpl. apply IHC; [|intros j; apply Hf]. intros i ys Hi. by apply (Hnil (S i)).
  - apply NoDup_cons in Hnd as [Hni Hnd]. destruct (proj1 (Hu i)) as (x & xs & Hi); [set_solver|].
    destruct (classes_focus _ _ _ Hi) as (R & HC & HC'). rewrite fmap_cons, concat_cons, Hi. cbn [default]. rewrite HC.
    apply Permutation_app_head. etransitivity; [symmetry; exact (HC' [])|]. rewrite (IH (<[i := []]> C)); [|done|].
    + apply Permutation_refl', f_equal, list_fmap_ext. intros k j Hj. rewrite list_lookup_insert_ne; [done|].
      intros <-. apply Hni. by eapply list_elem_of_lookup_2.
    + intros j. rewrite (used_insert _ _ _ [] Hi), <-Hu. set_solver.
Qed.

Lemma wp_destroy_slices fuel s i xs R :
  heap_is (blocks s) (ccells i xs ++ R) → (length xs < fuel)%nat →
  wp (destroy_slices fuel (hd 0 xs)) s (λ _ s', ∃ m, s' = al_set_blocks m s ∧ heap_is m R).
Proof.
  revert s xs. induction fuel as [|fuel IH]; intros s xs Hh Hf; [lia|]. cbn [destroy_slices]. destruct xs as [|a xs]; simpl in *.
  - apply wp_ret. exists (blocks s). split; [by destruct s|done].
  - pose proof (heap_ptr _ _ 0 a _ Hh eq_refl) as Hp. rewrite (proj2 (Z.eqb_neq a 0)) by (by apply is_ptr_nonzero).
    pose proof (heap_lookup _ _ 0 a _ Hh eq_refl) as Ha. apply wp_bind. eapply wp_slice_load; [exact Ha|].
    apply wp_bind. eapply wp_libc_free; [exact Ha|]. apply heap_free in Hh. cbn [sl_next].
    eapply wp_mono; [apply (IH _ xs); [exact Hh|lia]|]. intros [] s' (m & -> & Hm). by exists m.
Qed.

Lemma length_ccells i xs : length (ccells i xs) = length xs.
Proof. induction xs; simpl; auto. Qed.

Lemma wp_destroy_loop fuel s C p X L :
  cached_mslices s = hd 0 <$> C → lseg (lru_nodes s) p X None → Forall (λ i, is_Some (C !! i)) X → (length X < fuel)%nat →
  heap_is (blocks s) (concat ((λ i, ccells (Z.of_nat i) (default [] (C !! i))) <$> X) ++ L) →
  wp (destroy_loop fuel (hd_or X None)) s (λ _ s', heap_is (blocks s') L).
Proof.
  revert s p X. induction fuel as [|fuel IH]; intros s p X Ho Hl Hx Hf Hh; [lia|]. cbn [destroy_loop].
  destruct X as [|i X]; simpl in *; [by apply wp_ret|]. inversion_clear Hx as [|? ? [xs Hi] Hx']. rewrite Hi in Hh. change (default [] (Some xs)) with xs in Hh.
  rewrite <-app_assoc in Hh. destruct Hl as [Hn Hl].
  apply wp_bind. eapply (wp_owner_load _ _ (hd 0 xs)); [by rewrite Ho, list_lookup_fmap, Hi|]. apply wp_bind, wp_gets, wp_bind.
  eapply wp_mono; [eapply (wp_destroy_slices _ s (Z.of_nat i) xs); [exact Hh|]|].
  { rewrite (heap_size _ _ Hh), length_app, length_ccells. lia. }
  intros [] s' (m & -> & Hm). apply wp_bind. eapply wp_lru_load; [exact Hn|]. cbn [lru_next].
  apply (IH _ (Some i) X); simpl; try done. lia.
Qed.

Lemma wp_destroy s C L X : alloc_is s C L X → wp _hev_memory_allocator_destroy s (λ _ s', heap_is (blocks s') L).
Proof.
  intros [Hlen Ho Hh Hc Hb Hl Hu Hlive]. unfold _hev_memory_allocator_destroy. apply wp_bind, wp_gets. rewrite (li_head _ _ _ _ Hl).
  apply (wp_destroy_loop 65 s C None X); [done|apply Hl| | |].
  - apply Forall_forall. intros i (x & xs & Hi)%Hu. by eexists.
  - assert (length X ≤ 64)%nat; [|lia]. pose proof (li_nodup _ _ _ _ Hl) as Hnd.
    assert (X ⊆+ seq 0 (length C)) as Hsub%submseteq_length; [|rewrite length_seq in Hsub; lia].
    apply NoDup_submseteq; [done|]. intros i (x & xs & Hi%lookup_lt_Some)%Hu. apply elem_of_seq. lia.
  - rewrite <-(classes_listed C X); [done|apply Hl|done].
Qed.

(** ** The allocator as a map of blocks *)

(** [M]: the pointers given out, with the sizes that were asked for.  Each is the
    start of a block of its own, of at least that size. *)
Definition alloc_rep (s : HevMemoryAllocatorSlice) (M : gmap Z Z) : Prop :=
  ∃ C L X, alloc_is s C L X ∧
    (∀ p, is_Some (M !! p) ↔ p - SLICE_HEADER ∈ L.*1) ∧
    (∀ p n b, M !! p = Some n → (p - SLICE_HEADER, b) ∈ L → n ≤ sl_size b).

Lemma alloc_rep_split s M p n : alloc_rep s M → M !! p = Some n →
  ∃ C b L X, alloc_is s C ((p - SLICE_HEADER, b) :: L) X ∧ n ≤ sl_size b ∧ p - SLICE_HEADER ∉ L.*1 ∧
    (∀ q, is_Some (delete p M !! q) ↔ q - SLICE_HEADER ∈ L.*1) ∧
    (∀ q k b', delete p M !! q = Some k → (q - SLICE_HEADER, b') ∈ L → k ≤ sl_size b').
Proof.
  intros (C & L & X & H & Hd & Hs) Hp. assert (p - SLICE_HEADER ∈ L.*1) as Hin by (apply Hd; by eexists).
  apply list_elem_of_fmap in Hin as ([a b] & Ha & Hin). simpl in Ha.
  pose proof Hin as (L1 & L2 & HL)%list_elem_of_split. exists C, b, (L1 ++ L2), X. subst a.
  assert (alloc_is s C ((p - SLICE_HEADER, b) :: L1 ++ L2) X) as H' by (eapply alloc_is_perm; [exact H|]; rewrite HL; solve_Permutation).
  assert (p - SLICE_HEADER ∉ (L1 ++ L2).*1) as Hnin.
  { pose proof (ai_heap _ _ _ _ H') as Hh. hperm Hh ((p - SLICE_HEADER, b) :: (L1 ++ L2) ++ classes C).
    apply heap_notin in Hh. rewrite fmap_app in Hh. set_solver. }
  split_and!; [exact H'|by eapply Hs|done| |].
  - intros q. destruct (decide (q = p)) as [->|Hne].
    + rewrite lookup_delete_eq. split; [intros [? ?]; done|done].
    + rewrite lookup_delete_ne by done. rewrite Hd, HL, !fmap_app. simpl. rewrite !elem_of_app, elem_of_cons.
      split; [|tauto]. intros [?|[?|?]]; [tauto|lia|tauto].
  - intros q k b' [Hq Hk]%lookup_delete_Some Hin'. eapply Hs; [exact Hk|]. rewrite HL. set_solver.
Qed.

Lemma alloc_rep_join s C a b L X M n :
  alloc_is s C ((a, b) :: L) X → n ≤ sl_size b →
  (∀ q, is_Some (M !! q) ↔ q - SLICE_HEADER ∈ L.*1) → (∀ q k b', M !! q = Some k → (q - SLICE_HEADER, b') ∈ L → k ≤ sl_size b') →
  M !! (a + SLICE_HEADER) = None ∧ alloc_rep s (<[a + SLICE_HEADER := n]> M).
Proof.
  intros H Hn Hd Hs. assert (a ∉ L.*1) as Hnin.
  { pose proof (ai_heap _ _ _ _ H) as Hh. hperm Hh ((a, b) :: L ++ classes C). apply heap_notin in Hh. rewrite fmap_app in Hh. set_solver. }
  assert (M !! (a + SLICE_HEADER) = None) as HN.
  { apply eq_None_not_Some. rewrite Hd. by replace (a + SLICE_HEADER - SLICE_HEADER) with a by lia. }
  split; [done|]. exists C, ((a, b) :: L), X. split_and!; [done| |].
  - intros q. simpl. rewrite elem_of_cons, <-Hd. destruct (decide (q = a + SLICE_HEADER)) as [->|Hne].
    + rewrite lookup_insert_eq. split; [left; lia|by eexists].
    + rewrite lookup_insert_ne by done. split; [auto|]. intros [?|?]; [lia|done].
  - intros q k b' [[<- <-]|[Hne Hk]]%lookup_insert_Some Hin.
    + apply elem_of_cons in Hin as [[= _ ->]|Hin]; [done|]. exfalso. apply Hnin, list_elem_of_fmap.
      exists (a, b'). split; [done|]. by replace (a + SLICE_HEADER - SLICE_HEADER) with a in Hin by lia.
    + apply elem_of_cons in Hin as [[= ? _]|Hin]; [lia|eauto].
Qed.

(** C27: the slice allocator implements [malloc] and [free].  For a new allocator
    and after any operations: an allocation gives a pointer that is not in use, to a
    block of its own of at least the size asked for, or NULL when the C library has
    no memory and nothing suitable is cached; freeing and resizing work for every
    pointer in use and leave the others as they are; at most 1000 slices are cached;
    at the end all cached slices are returned and the blocks in use are kept.  Sizes
    are between 1 and 2^37 - 64. *)
Theorem slice_allocator_refines s M :
  alloc_rep s M →
  cached_count s ≤ 1000 ∧
  (∀ at_ size, fresh_at s at_ → 0 < size ≤ MAX_REQUEST →
    ∃ p s', hev_malloc at_ size s = Some (p, s') ∧
      (p = 0 ∧ at_ = None ∧ s' = s ∨ p ≠ 0 ∧ M !! p = None ∧ alloc_rep s' (<[p := size]> M))) ∧
  (∀ p n, M !! p = Some n → ∃ s', hev_free p s = Some (tt, s') ∧ alloc_rep s' (delete p M)) ∧
  (∀ p n at_ size, M !! p = Some n → at_ = Some (p - SLICE_HEADER) ∨ fresh_at s at_ → 0 < size ≤ MAX_REQUEST →
    ∃ q s', hev_realloc at_ p size s = Some (q, s') ∧
      (q = 0 ∧ at_ = None ∧ s' = s ∨ q ≠ 0 ∧ delete p M !! q = None ∧ alloc_rep s' (<[q := size]> (delete p M)))) ∧
  (∃ s', _hev_memory_allocator_destroy s = Some (tt, s') ∧ ∀ a, is_Some (blocks s' !! a) ↔ is_Some (M !! (a + SLICE_HEADER))).
Proof.
  intros H. pose proof H as (C & L & X & Ha & Hd & Hs). split_and!.
  - apply Ha.
  - intros at_ size Hf Hsz. destruct (wp_run _ _ _ (wp_alloc s C L X at_ size Ha Hf Hsz)) as (p & s' & Hr & [Hz|Hn]).
    + exists p, s'. by split; [|left].
    + destruct Hn as (C' & X' & a & b & -> & Hp & Ha' & Hge). exists (a + SLICE_HEADER), s'. split; [done|]. right.
      split; [unfold SLICE_HEADER; destruct Hp; lia|]. by eapply alloc_rep_join.
  - intros p n Hp. destruct (alloc_rep_split _ _ _ _ H Hp) as (C1 & b & L1 & X1 & Ha1 & _ & _ & Hd1 & Hs1).
    pose proof (wp_free s C1 _ b L1 X1 Ha1) as Hw. replace (p - SLICE_HEADER + SLICE_HEADER) with p in Hw by lia.
    apply wp_run in Hw as ([] & s' & Hr & C' & X' & Ha'). exists s'. split; [done|]. by exists C', L1, X'.
  - intros p n at_ size Hp Hf Hsz. destruct (alloc_rep_split _ _ _ _ H Hp) as (C1 & b & L1 & X1 & Ha1 & _ & _ & Hd1 & Hs1).
    pose proof (wp_realloc s C1 _ b L1 X1 at_ size Ha1 Hf Hsz) as Hw. replace (p - SLICE_HEADER + SLICE_HEADER) with p in Hw by lia.
    apply wp_run in Hw as (q & s' & Hr & Hq). exists q, s'. split; [done|]. destruct at_ as [a'|].
    + destruct Hq as (-> & Hptr & b' & Ha' & Hge). right. split; [unfold SLICE_HEADER; destruct Hptr; lia|].
      by eapply alloc_rep_join.
    + destruct Hq as [-> ->]. by left.
  - destruct (wp_run _ _ _ (wp_destroy s C L X Ha)) as ([] & s' & Hr & Hh). exists s'. split; [done|]. intros a.
    rewrite Hd. replace (a + SLICE_HEADER - SLICE_HEADER) with a by lia. destruct Hh as (Hnd & _ & ->).
    rewrite <-elem_of_dom, dom_list_to_map_L, elem_of_list_to_set. done.
Qed.

Lemma alloc_rep_new nodes : length nodes = 64%nat → alloc_rep (hev_memory_allocator_slice_new nodes) ∅.
Proof.
  intros Hn. assert (concat (replicate 64 ([] : list Z)) = []) as Hc by reflexivity.
  exists (replicate 64 []), [], []. split_and!; [|intros p; rewrite lookup_empty; split; [intros [? ?]; done|set_solver]|done].
  split; simpl; try done.
  - split_and!; [constructor|constructor|done].
  - split; [done|done|constructor|done|done].
  - intros i. split; [set_solver|]. intros (x & xs & Hx). apply (lookup_replicate_1 64 ([] : list Z)) in Hx as [? _]. done.
Qed.

(** The theorem at a new allocator, from which a block of 100 bytes is taken. *)
Lemma slice_allocator_refines_witness :
  let s := hev_memory_allocator_slice_new (replicate 64 (mk_lru None None)) in
  ∃ p s', hev_malloc (Some 4096) 100 s = Some (p, s') ∧
    (p = 0 ∧ Some 4096 = None ∧ s' = s ∨ p ≠ 0 ∧ (∅ : gmap Z Z) !! p = None ∧ alloc_rep s' {[p := 100]}).
Proof.
  intros s. assert (alloc_rep s ∅) as H by by apply alloc_rep_new.
  exact (proj1 (proj2 (slice_allocator_refines s ∅ H)) (Some 4096) 100
    ltac:(split; [split; [lia|reflexivity]|reflexivity]) ltac:(unfold MAX_REQUEST; lia)).
Defined.

(** The index of a size is an [int]: a request of 2^38 + 64 bytes has the index of
    64 bytes, and is given a cached slice of that size. *)
Theorem slice_alloc_truncated :
  let s := hev_memory_allocator_slice_new (replicate 64 (mk_lru None None)) in
  (λ x, (x.1, sl_size <$> blocks x.2 !! (x.1 - SLICE_HEADER))) <$>
    (p ← hev_malloc (Some 4096) 64; hev_free p;; hev_malloc None (2 ^ 38 + 64)) s = Some (4112, Some 64).
Proof. vm_compute. reflexivity. Qed.

(** [hev_calloc] multiplies without a check: 2^32 elements of 2^32 + 1 bytes are
    2^32 bytes. *)
Theorem calloc_overflow :
  let s := hev_memory_allocator_slice_new (replicate 64 (mk_lru None None)) in
  (λ x, sl_size <$> blocks x.2 !! (x.1 - SLICE_HEADER)) <$> hev_calloc (Some 4096) (2 ^ 32) (2 ^ 32 + 1) s = Some (Some (2 ^ 32)).
Proof. vm_compute. reflexivity. Qed.
