(* ===== verification/Pbuf.v ===== *)
(** * Packet buffers of lwIP

    third-part/lwip/src/core/pbuf.c and include/lwip/pbuf.h, with the pools of
    core/memp.c they come from, in the configuration of
    third-part/lwip/src/ports/include/lwipopts.h (no operating system, a heap that
    is the allocator of the task system, custom pbufs, checksums on copy).

    A pbuf is a record at an address; a payload pointer is a block of memory and an
    offset in it.  The memory behind a pbuf of the heap or of the pool is the block
    with its address, and starts after the structure.  A failed [LWIP_ASSERT] ends
    the process: it is [ub] like an access outside of a block. *)

From S2P Require Import Prelude CString.

(** ** Data *)

Record ptr := mk_ptr { pt_block : Z; pt_off : Z }.

Definition ptr_add (q : ptr) (n : Z) : ptr := mk_ptr (pt_block q) (pt_off q + n).
Definition ptr_null : ptr := mk_ptr 0 0.

#[global] Instance ptr_eq_dec : EqDecision ptr.
Proof. solve_decision. Defined.

Record pbuf := mk_pbuf {
  p_next : Z;
  p_payload : ptr;
  p_tot_len : Z;
  p_len : Z;
  p_type_internal : Z;
  p_flags : Z;
  p_ref : Z;
}.

(** The pbufs in use, the blocks of bytes, the blocks of the heap, the free elements
    of the two pools and the flag of an empty pool. *)
Record pmem := mk_pmem {
  pm_buf : gmap Z pbuf;
  pm_mem : gmap Z (list Z);
  pm_heap : gset Z;
  pm_pool : list Z;          (* MEMP_PBUF_POOL *)
  pm_refs : list Z;          (* MEMP_PBUF *)
  pm_pending : bool;         (* pbuf_free_ooseq_pending *)
  pm_custom : list Z;        (* given to their custom_free_function, the last one first *)
}.

Definition pm_set_buf (m : gmap Z pbuf) (s : pmem) : pmem :=
  mk_pmem m (pm_mem s) (pm_heap s) (pm_pool s) (pm_refs s) (pm_pending s) (pm_custom s).
Definition pm_set_mem (m : gmap Z (list Z)) (s : pmem) : pmem :=
  mk_pmem (pm_buf s) m (pm_heap s) (pm_pool s) (pm_refs s) (pm_pending s) (pm_custom s).
Definition pm_set_heap (h : gset Z) (s : pmem) : pmem :=
  mk_pmem (pm_buf s) (pm_mem s) h (pm_pool s) (pm_refs s) (pm_pending s) (pm_custom s).
Definition pm_set_pool (l : list Z) (s : pmem) : pmem :=
  mk_pmem (pm_buf s) (pm_mem s) (pm_heap s) l (pm_refs s) (pm_pending s) (pm_custom s).
Definition pm_set_refs (l : list Z) (s : pmem) : pmem :=
  mk_pmem (pm_buf s) (pm_mem s) (pm_heap s) (pm_pool s) l (pm_pending s) (pm_custom s).
Definition pm_set_custom (l : list Z) (s : pmem) : pmem :=
  mk_pmem (pm_buf s) (pm_mem s) (pm_heap s) (pm_pool s) (pm_refs s) (pm_pending s) l.
Definition pm_set_pending (b : bool) (s : pmem) : pmem :=
  mk_pmem (pm_buf s) (pm_mem s) (pm_heap s) (pm_pool s) (pm_refs s) b (pm_custom s).

Definition p_set_next (x : Z) (b : pbuf) : pbuf :=
  mk_pbuf x (p_payload b) (p_tot_len b) (p_len b) (p_type_internal b) (p_flags b) (p_ref b).
Definition p_set_payload (x : ptr) (b : pbuf) : pbuf :=
  mk_pbuf (p_next b) x (p_tot_len b) (p_len b) (p_type_internal b) (p_flags b) (p_ref b).
Definition p_set_tot_len (x : Z) (b : pbuf) : pbuf :=
  mk_pbuf (p_next b) (p_payload b) x (p_len b) (p_type_internal b) (p_flags b) (p_ref b).
Definition p_set_len (x : Z) (b : pbuf) : pbuf :=
  mk_pbuf (p_next b) (p_payload b) (p_tot_len b) x (p_type_internal b) (p_flags b) (p_ref b).
Definition p_set_ref (x : Z) (b : pbuf) : pbuf :=
  mk_pbuf (p_next b) (p_payload b) (p_tot_len b) (p_len b) (p_type_internal b) (p_flags b) x.

Definition PBUF_TYPE_FLAG_STRUCT_DATA_CONTIGUOUS : Z := 0x80.
Definition PBUF_TYPE_ALLOC_SRC_MASK : Z := 0x0F.
Definition PBUF_TYPE_ALLOC_SRC_MASK_STD_HEAP : Z := 0x00.
Definition PBUF_TYPE_ALLOC_SRC_MASK_STD_MEMP_PBUF : Z := 0x01.
Definition PBUF_TYPE_ALLOC_SRC_MASK_STD_MEMP_PBUF_POOL : Z := 0x02.

(** [pbuf_type]. *)
Definition PBUF_RAM : Z := 0x280.
Definition PBUF_ROM : Z := 0x01.
Definition PBUF_REF : Z := 0x41.
Definition PBUF_POOL : Z := 0x182.

(** [pbuf_layer], with [PBUF_LINK_HLEN] 16 and IPv6. *)
Definition PBUF_TRANSPORT : Z := 76.
Definition PBUF_IP : Z := 56.
Definition PBUF_LINK : Z := 16.
Definition PBUF_RAW : Z := 0.

Definition PBUF_FLAG_IS_CUSTOM : Z := 0x02.

Definition ERR_OK : Z := 0.
Definition ERR_MEM : Z := -1.
Definition ERR_VAL : Z := -6.
Definition ERR_ARG : Z := -16.

Definition LWIP_MEM_ALIGN_SIZE (size : Z) : Z := Z.land (size + 3) (Z.lnot 3).
Definition PBUF_POOL_BUFSIZE_ALIGNED : Z := LWIP_MEM_ALIGN_SIZE (LWIP_MEM_ALIGN_SIZE (8191 + 40 + 16)).

(** On a machine with addresses of 64 bits. *)
Definition SIZEOF_STRUCT_PBUF : Z := 24.

Definition lwip_assert (b : bool) : stm pmem unit := if b then mret tt else ub.

Definition pb_load (a : Z) : stm pmem pbuf := λ s,
  match pm_buf s !! a with Some b => Some (b, s) | None => None end.
Definition pb_update (a : Z) (f : pbuf → pbuf) : stm pmem unit := λ s,
  match pm_buf s !! a with
  | Some b => Some (tt, pm_set_buf (<[a := f b]> (pm_buf s)) s)
  | None => None
  end.

(** [MEMCPY] from and to a block; a copy of no bytes touches nothing. *)
Definition mem_load (q : ptr) (n : Z) : stm pmem (list Z) := λ s,
  if n =? 0 then Some ([], s)
  else
    match pm_mem s !! pt_block q with
    | Some m =>
        if (0 <=? pt_off q) && (pt_off q + n <=? Z.of_nat (length m)) then
          Some (take (Z.to_nat n) (drop (Z.to_nat (pt_off q)) m), s)
        else None
    | None => None
    end.

Definition mem_store (q : ptr) (bs : list Z) : stm pmem unit := λ s,
  match bs with
  | [] => Some (tt, s)
  | _ =>
      match pm_mem s !! pt_block q with
      | Some m =>
          if (0 <=? pt_off q) && (pt_off q + Z.of_nat (length bs) <=? Z.of_nat (length m)) then
            Some (tt, pm_set_mem (<[pt_block q := list_inserts (Z.to_nat (pt_off q)) bs m]> (pm_mem s)) s)
          else None
      | None => None
      end
  end.

(** ** The pools

    The elements of a pool are linked through their first words; the list of the
    free ones is taken as a list. *)

Inductive memp_t := MEMP_PBUF | MEMP_PBUF_POOL.

Definition memp_tab (t : memp_t) (s : pmem) : list Z :=
  match t with MEMP_PBUF => pm_refs s | MEMP_PBUF_POOL => pm_pool s end.
Definition memp_set_tab (t : memp_t) (l : list Z) (s : pmem) : pmem :=
  match t with MEMP_PBUF => pm_set_refs l s | MEMP_PBUF_POOL => pm_set_pool l s end.

Definition memp_malloc (t : memp_t) : stm pmem Z := λ s,
  match memp_tab t s with
  | [] => Some (0, s)
  | memp :: rest => Some (memp, memp_set_tab t rest s)
  end.

Definition memp_free (t : memp_t) (mem : Z) : stm pmem unit :=
  if mem =? 0 then mret tt
  else modify (λ s, memp_set_tab t (mem :: memp_tab t s) s).

(** The list that [memp_init_pool] makes of [num] elements of the size [size] that
    start at [base]. *)
Fixpoint memp_init_pool (num : nat) (base size : Z) (tab : list Z) : list Z :=
  match num with
  | O => tab
  | S num => memp_init_pool num (base + size) size (base :: tab)
  end.

(** [mem_malloc] is [hev_malloc]: [at_] is the address it gives, if it has memory,
    and [fill] what the memory holds. *)
Definition mem_malloc (at_ : option Z) (fill : nat → Z) (size : Z) : stm pmem Z :=
  match at_ with
  | None => mret 0
  | Some a =>
      modify (λ s, pm_set_heap ({[a]} ∪ pm_heap s)
        (pm_set_mem (<[a := fill <$> seq 0 (Z.to_nat (size - SIZEOF_STRUCT_PBUF))]> (pm_mem s)) s));;
      mret a
  end.

Definition mem_free (a : Z) : stm pmem unit := λ s,
  if decide (a ∈ pm_heap s) then
    Some (tt, pm_set_heap (pm_heap s ∖ {[a]}) (pm_set_mem (delete a (pm_mem s)) s))
  else None.

(** The memory of a structure is gone: nothing may be read from it any more. *)
Definition pb_remove (a : Z) : stm pmem unit := modify (λ s, pm_set_buf (delete a (pm_buf s)) s).

Definition pb_fuel (s : pmem) : nat := S (size (pm_buf s)).

(** ** References *)

Definition pbuf_get_allocsrc (b : pbuf) : Z := Z.land (p_type_internal b) PBUF_TYPE_ALLOC_SRC_MASK.

Definition custom_free_function (a : Z) : stm pmem unit := modify (λ s, pm_set_custom (a :: pm_custom s) s).

Fixpoint pbuf_free_loop (fuel : nat) (p count : Z) : stm pmem Z :=
  match fuel with
  | O => ub
  | S fuel =>
      if p =? 0 then mret count
      else
        b ← pb_load p;
        lwip_assert (0 <? p_ref b);;
        let ref := u8 (p_ref b - 1) in
        pb_update p (p_set_ref ref);;
        if ref =? 0 then
          let q := p_next b in
          let alloc_src := pbuf_get_allocsrc b in
          pb_remove p;;
          (if negb (Z.land (p_flags b) PBUF_FLAG_IS_CUSTOM =? 0) then custom_free_function p
           else if alloc_src =? PBUF_TYPE_ALLOC_SRC_MASK_STD_MEMP_PBUF_POOL then memp_free MEMP_PBUF_POOL p
           else if alloc_src =? PBUF_TYPE_ALLOC_SRC_MASK_STD_MEMP_PBUF then memp_free MEMP_PBUF p
           else if alloc_src =? PBUF_TYPE_ALLOC_SRC_MASK_STD_HEAP then mem_free p
           else ub);;
          pbuf_free_loop fuel q (u8 (count + 1))
        else pbuf_free_loop fuel 0 count
  end.

Definition pbuf_free (p : Z) : stm pmem Z :=
  if p =? 0 then ub
  else
    fuel ← gets pb_fuel;
    pbuf_free_loop (S fuel) p 0.

Definition pbuf_ref (p : Z) : stm pmem unit :=
  if p =? 0 then mret tt
  else
    pb_update p (λ b, p_set_ref (u8 (p_ref b + 1)) b);;
    b ← pb_load p;
    lwip_assert (0 <? p_ref b).

(** ** Allocation *)

Definition pbuf_init_alloced_pbuf (p : Z) (payload : ptr) (tot_len len type flags : Z) : stm pmem unit :=
  modify (λ s, pm_set_buf (<[p := mk_pbuf 0 payload tot_len len (u8 type) flags 1]> (pm_buf s)) s).

Definition pbuf_alloc_reference (payload : ptr) (length type : Z) : stm pmem Z :=
  lwip_assert ((type =? PBUF_REF) || (type =? PBUF_ROM));;
  p ← memp_malloc MEMP_PBUF;
  if p =? 0 then mret 0
  else
    pbuf_init_alloced_pbuf p payload length length type 0;;
    mret p.

(** The loop for [PBUF_POOL]: each pass takes an element. *)
Fixpoint pool_loop (fuel : nat) (p last rem_len offset type : Z) : stm pmem Z :=
  match fuel with
  | O => ub
  | S fuel =>
      q ← memp_malloc MEMP_PBUF_POOL;
      if q =? 0 then
        modify (pm_set_pending true);;
        (if negb (p =? 0) then _ ← pbuf_free p; mret tt else mret tt);;
        mret 0
      else
        let qlen := Z.min rem_len (u16 (PBUF_POOL_BUFSIZE_ALIGNED - LWIP_MEM_ALIGN_SIZE offset)) in
        pbuf_init_alloced_pbuf q (mk_ptr q (LWIP_MEM_ALIGN_SIZE offset)) rem_len qlen type 0;;
        lwip_assert (0 <? PBUF_POOL_BUFSIZE_ALIGNED - LWIP_MEM_ALIGN_SIZE offset);;
        p ← (if p =? 0 then mret q else pb_update last (p_set_next q);; mret p);
        let rem_len := u16 (rem_len - qlen) in
        if 0 <? rem_len then pool_loop fuel p q rem_len 0 type else mret p
  end.

Definition pbuf_alloc (at_ : option Z) (fill : nat → Z) (layer length type : Z) : stm pmem Z :=
  let offset := u16 layer in
  if (type =? PBUF_REF) || (type =? PBUF_ROM) then pbuf_alloc_reference ptr_null length type
  else if type =? PBUF_POOL then
    fuel ← gets (λ s, S (List.length (pm_pool s)));
    pool_loop fuel 0 0 length offset type
  else if type =? PBUF_RAM then
    let payload_len := u64 (LWIP_MEM_ALIGN_SIZE offset + LWIP_MEM_ALIGN_SIZE length) in
    let alloc_len := u64 (LWIP_MEM_ALIGN_SIZE SIZEOF_STRUCT_PBUF + payload_len) in
    if (payload_len <? LWIP_MEM_ALIGN_SIZE length) || (alloc_len <? LWIP_MEM_ALIGN_SIZE length) then mret 0
    else
      p ← mem_malloc at_ fill alloc_len;
      if p =? 0 then mret 0
      else
        pbuf_init_alloced_pbuf p (mk_ptr p (LWIP_MEM_ALIGN_SIZE offset)) length length type 0;;
        mret p
  else ub.

(** [payload_mem] is [ptr_null] when it is set later. *)
Definition pbuf_alloced_custom (l length type p : Z) (payload_mem : ptr) (payload_mem_len : Z) : stm pmem Z :=
  let offset := u16 l in
  if payload_mem_len <? LWIP_MEM_ALIGN_SIZE offset + length then mret 0
  else
    let payload :=
      if decide (payload_mem = ptr_null) then ptr_null else ptr_add payload_mem (LWIP_MEM_ALIGN_SIZE offset) in
    pbuf_init_alloced_pbuf p payload length length type PBUF_FLAG_IS_CUSTOM;;
    mret p.

(** ** The length of a chain *)

(** The first loop of [pbuf_realloc]: the last pbuf that stays, and the length it gets. *)
Fixpoint realloc_loop (fuel : nat) (q rem_len shrink : Z) : stm pmem (Z * Z) :=
  match fuel with
  | O => ub
  | S fuel =>
      b ← pb_load q;
      if p_len b <? rem_len then
        pb_update q (p_set_tot_len (u16 (p_tot_len b - shrink)));;
        lwip_assert (negb (p_next b =? 0));;
        realloc_loop fuel (p_next b) (u16 (rem_len - p_len b)) shrink
      else mret (q, rem_len)
  end.

(** [mem_trim] of the custom allocator gives back the block as it is. *)
Definition pbuf_realloc (p new_len : Z) : stm pmem unit :=
  lwip_assert (negb (p =? 0));;
  b ← pb_load p;
  if p_tot_len b <=? new_len then mret tt
  else
    let shrink := u16 (p_tot_len b - new_len) in
    fuel ← gets pb_fuel;
    r ← realloc_loop fuel p new_len shrink;
    let '(q, rem_len) := r in
    pb_update q (p_set_len rem_len);;
    pb_update q (p_set_tot_len rem_len);;
    b ← pb_load q;
    (if negb (p_next b =? 0) then _ ← pbuf_free (p_next b); mret tt else mret tt);;
    pb_update q (p_set_next 0).

(** ** Headers *)

Definition pbuf_add_header_impl (p header_size_increment : Z) (force : bool) : stm pmem Z :=
  lwip_assert (negb (p =? 0));;
  if 0xFFFF <? header_size_increment then mret 1
  else if header_size_increment =? 0 then mret 0
  else
    let increment_magnitude := u16 header_size_increment in
    b ← pb_load p;
    if u16 (increment_magnitude + p_tot_len b) <? increment_magnitude then mret 1
    else
      let contiguous := negb (Z.land (p_type_internal b) PBUF_TYPE_FLAG_STRUCT_DATA_CONTIGUOUS =? 0) in
      let payload := ptr_add (p_payload b) (- header_size_increment) in
      if (if contiguous then pt_off payload <? 0 else negb force) then mret 1
      else
        pb_update p (p_set_payload payload);;
        pb_update p (λ b, p_set_len (u16 (p_len b + increment_magnitude)) b);;
        pb_update p (λ b, p_set_tot_len (u16 (p_tot_len b + increment_magnitude)) b);;
        mret 0.

Definition pbuf_add_header (p header_size_increment : Z) : stm pmem Z :=
  pbuf_add_header_impl p header_size_increment false.

Definition pbuf_add_header_force (p header_size_increment : Z) : stm pmem Z :=
  pbuf_add_header_impl p header_size_increment true.

Definition pbuf_remove_header (p header_size_decrement : Z) : stm pmem Z :=
  lwip_assert (negb (p =? 0));;
  if 0xFFFF <? header_size_decrement then mret 1
  else if header_size_decrement =? 0 then mret 0
  else
    let increment_magnitude := u16 header_size_decrement in
    b ← pb_load p;
    if p_len b <? increment_magnitude then mret 1
    else
      pb_update p (p_set_payload (ptr_add (p_payload b) header_size_decrement));;
      pb_update p (λ b, p_set_len (u16 (p_len b - increment_magnitude)) b);;
      pb_update p (λ b, p_set_tot_len (u16 (p_tot_len b - increment_magnitude)) b);;
      mret 0.

Definition pbuf_header_impl (p header_size_increment : Z) (force : bool) : stm pmem Z :=
  if header_size_increment <? 0 then pbuf_remove_header p (- header_size_increment)
  else pbuf_add_header_impl p header_size_increment force.

Definition pbuf_header (p header_size_increment : Z) : stm pmem Z := pbuf_header_impl p header_size_increment false.
Definition pbuf_header_force (p header_size_increment : Z) : stm pmem Z := pbuf_header_impl p header_size_increment true.

Fixpoint free_header_loop (fuel : nat) (p free_left : Z) : stm pmem Z :=
  match fuel with
  | O => ub
  | S fuel =>
      if negb (free_left =? 0) && negb (p =? 0) then
        b ← pb_load p;
        if p_len b <=? free_left then
          let f := p in
          let free_left := u16 (free_left - p_len b) in
          pb_update f (p_set_next 0);;
          _ ← pbuf_free f;
          free_header_loop fuel (p_next b) free_left
        else
          _ ← pbuf_remove_header p free_left;
          free_header_loop fuel p 0
      else mret p
  end.

Definition pbuf_free_header (q size : Z) : stm pmem Z :=
  fuel ← gets pb_fuel;
  free_header_loop (S fuel) q size.

(** ** Chains *)

Fixpoint clen_loop (fuel : nat) (p len : Z) : stm pmem Z :=
  match fuel with
  | O => ub
  | S fuel => if p =? 0 then mret len else b ← pb_load p; clen_loop fuel (p_next b) (u16 (len + 1))
  end.

Definition pbuf_clen (p : Z) : stm pmem Z :=
  fuel ← gets pb_fuel;
  clen_loop fuel p 0.

(** The loop of [pbuf_cat], up to the last pbuf of the first chain. *)
Fixpoint cat_loop (fuel : nat) (p t : Z) : stm pmem Z :=
  match fuel with
  | O => ub
  | S fuel =>
      b ← pb_load p;
      if negb (p_next b =? 0) then
        tb ← pb_load t;
        pb_update p (p_set_tot_len (u16 (p_tot_len b + p_tot_len tb)));;
        cat_loop fuel (p_next b) t
      else mret p
  end.

Definition pbuf_cat (h t : Z) : stm pmem unit :=
  if (h =? 0) || (t =? 0) then mret tt
  else
    lwip_assert (negb (h =? t));;
    fuel ← gets pb_fuel;
    p ← cat_loop fuel h t;
    b ← pb_load p;
    lwip_assert (p_tot_len b =? p_len b);;
    tb ← pb_load t;
    pb_update p (p_set_tot_len (u16 (p_tot_len b + p_tot_len tb)));;
    pb_update p (p_set_next t).

Definition pbuf_chain (h t : Z) : stm pmem unit :=
  pbuf_cat h t;;
  pbuf_ref t.

Definition pbuf_dechain (p : Z) : stm pmem Z :=
  b ← pb_load p;
  let q := p_next b in
  tail_gone ←
    (if negb (q =? 0) then
       qb ← pb_load q;
       lwip_assert (p_tot_len qb =? p_tot_len b - p_len b);;
       pb_update q (p_set_tot_len (u16 (p_tot_len b - p_len b)));;
       pb_update p (p_set_next 0);;
       pb_update p (p_set_tot_len (p_len b));;
       pbuf_free q
     else mret 1);
  b ← pb_load p;
  lwip_assert (p_tot_len b =? p_len b);;
  mret (if 0 <? tail_gone then 0 else q).

(** ** Copies *)

(** The loop of [pbuf_copy_partial_pbuf]; the differences of lengths and offsets are
    of type [size_t]. *)
Fixpoint copy_loop (fuel : nat) (p_to p_from offset_to offset_from copy_len : Z) : stm pmem Z :=
  match fuel with
  | O => ub
  | S fuel =>
      bt ← pb_load p_to;
      bf ← pb_load p_from;
      let len :=
        if u64 (p_len bf - offset_from) <=? u64 (p_len bt - offset_to)
        then u64 (p_len bf - offset_from) else u64 (p_len bt - offset_to) in
      let len := Z.min copy_len len in
      bs ← mem_load (ptr_add (p_payload bf) offset_from) len;
      mem_store (ptr_add (p_payload bt) offset_to) bs;;
      let offset_to := u64 (offset_to + len) in
      let offset_from := u64 (offset_from + len) in
      let copy_len := u16 (copy_len - len) in
      lwip_assert (offset_to <=? p_len bt);;
      lwip_assert (offset_from <=? p_len bf);;
      let '(p_from, offset_from) := if p_len bf <=? offset_from then (p_next bf, 0) else (p_from, offset_from) in
      if (p_from =? 0) && negb (copy_len =? 0) then mret ERR_ARG
      else
        let '(p_to, offset_to) := if offset_to =? p_len bt then (p_next bt, 0) else (p_to, offset_to) in
        if (p_to =? 0) && negb (copy_len =? 0) then mret ERR_ARG
        else
          queue_from ← (if p_from =? 0 then mret false
            else b ← pb_load p_from; mret ((p_len b =? p_tot_len b) && negb (p_next b =? 0)));
          if queue_from : bool then mret ERR_VAL
          else
            queue_to ← (if p_to =? 0 then mret false
              else b ← pb_load p_to; mret ((p_len b =? p_tot_len b) && negb (p_next b =? 0)));
            if queue_to : bool then mret ERR_VAL
            else if negb (copy_len =? 0) then copy_loop fuel p_to p_from offset_to offset_from copy_len
            else mret ERR_OK
  end.

Definition pbuf_copy_partial_pbuf (p_to p_from copy_len offset : Z) : stm pmem Z :=
  if p_from =? 0 then mret ERR_ARG
  else
    bf ← pb_load p_from;
    if p_tot_len bf <? copy_len then mret ERR_ARG
    else if p_to =? 0 then mret ERR_ARG
    else
      bt ← pb_load p_to;
      if p_tot_len bt <? offset + copy_len then mret ERR_ARG
      else
        fuel ← gets (λ s, pb_fuel s + pb_fuel s)%nat;
        copy_loop fuel p_to p_from offset 0 copy_len.

Definition pbuf_copy (p_to p_from : Z) : stm pmem Z :=
  if p_from =? 0 then mret ERR_ARG
  else
    bf ← pb_load p_from;
    pbuf_copy_partial_pbuf p_to p_from (p_tot_len bf) 0.

(** [dst] is the memory at [dataptr]; the result has its contents after the copy. *)
Fixpoint copy_partial_loop (fuel : nat) (dst : list Z) (p len offset left copied_total : Z) : stm pmem (Z * list Z) :=
  match fuel with
  | O => ub
  | S fuel =>
      if negb (len =? 0) && negb (p =? 0) then
        b ← pb_load p;
        if negb (offset =? 0) && (p_len b <=? offset) then
          copy_partial_loop fuel dst (p_next b) len (u16 (offset - p_len b)) left copied_total
        else
          let buf_copy_len := u16 (p_len b - offset) in
          let buf_copy_len := if len <? buf_copy_len then len else buf_copy_len in
          bs ← mem_load (ptr_add (p_payload b) offset) buf_copy_len;
          match buf_writes dst left bs with
          | None => ub
          | Some dst =>
              copy_partial_loop fuel dst (p_next b) (u16 (len - buf_copy_len)) 0 (u16 (left + buf_copy_len))
                (u16 (copied_total + buf_copy_len))
          end
      else mret (copied_total, dst)
  end.

(** [dst] is [None] for a NULL pointer. *)
Definition pbuf_copy_partial (buf : Z) (dst : option (list Z)) (len offset : Z) : stm pmem (Z * list Z) :=
  match dst with
  | Some dst =>
      if buf =? 0 then mret (0, dst)
      else
        fuel ← gets pb_fuel;
        copy_partial_loop fuel dst buf len offset 0 0
  | None => mret (0, [])
  end.

Fixpoint skip_loop (fuel : nat) (q offset_left : Z) : stm pmem (Z * Z) :=
  match fuel with
  | O => ub
  | S fuel =>
      if q =? 0 then mret (q, offset_left)
      else
        b ← pb_load q;
        if p_len b <=? offset_left then skip_loop fuel (p_next b) (u16 (offset_left - p_len b))
        else mret (q, offset_left)
  end.

(** [pbuf_skip] and [pbuf_skip_const]: the pbuf and the offset in it. *)
Definition pbuf_skip (in_ in_offset : Z) : stm pmem (Z * Z) :=
  fuel ← gets pb_fuel;
  skip_loop fuel in_ in_offset.

(** What [pbuf_get_contiguous] returns: a pointer into a pbuf, the caller's buffer
    with its contents, or NULL. *)
Inductive contiguous := InPbuf (q : ptr) | InBuffer (data : list Z) | Nowhere.

Definition pbuf_get_contiguous (p : Z) (buffer : option (list Z)) (bufsize len offset : Z) : stm pmem contiguous :=
  if p =? 0 then mret Nowhere
  else if match buffer with None => false | Some _ => bufsize <? len end then mret Nowhere
  else
    r ← pbuf_skip p offset;
    let '(q, out_offset) := r in
    if negb (q =? 0) then
      b ← pb_load q;
      if out_offset + len <=? p_len b then mret (InPbuf (ptr_add (p_payload b) out_offset))
      else
        match buffer with
        | None => mret Nowhere
        | Some buf =>
            r ← pbuf_copy_partial q (Some buf) len out_offset;
            if negb (r.1 =? len) then mret Nowhere else mret (InBuffer r.2)
        end
    else mret Nowhere.

(** The loop of [pbuf_take]; [data] is what is left at [dataptr]. *)
Fixpoint take_loop (fuel : nat) (p : Z) (data : list Z) : stm pmem unit :=
  match fuel with
  | O => ub
  | S fuel =>
      match data with
      | [] => mret tt
      | _ =>
          lwip_assert (negb (p =? 0));;
          b ← pb_load p;
          let total_copy_len := Z.of_nat (length data) in
          let buf_copy_len := if p_len b <? total_copy_len then p_len b else total_copy_len in
          mem_store (p_payload b) (take (Z.to_nat buf_copy_len) data);;
          take_loop fuel (p_next b) (drop (Z.to_nat buf_copy_len) data)
      end
  end.

(** The data at [dataptr], of which [len] bytes are taken; [None] is NULL. *)
Definition pbuf_take (buf : Z) (data : option (list Z)) : stm pmem Z :=
  match data with
  | None => mret ERR_ARG
  | Some data =>
      if buf =? 0 then mret ERR_ARG
      else
        b ← pb_load buf;
        if p_tot_len b <? Z.of_nat (length data) then mret ERR_MEM
        else
          fuel ← gets pb_fuel;
          take_loop fuel buf data;;
          mret ERR_OK
  end.

Definition pbuf_take_at (buf : Z) (data : list Z) (offset : Z) : stm pmem Z :=
  r ← pbuf_skip buf offset;
  let '(q, target_offset) := r in
  let len := Z.of_nat (length data) in
  if q =? 0 then mret ERR_MEM
  else
    b ← pb_load q;
    if target_offset + len <=? p_tot_len b then
      lwip_assert (target_offset <? p_len b);;
      let first_copy_len := u16 (Z.min (p_len b - target_offset) len) in
      mem_store (ptr_add (p_payload b) target_offset) (take (Z.to_nat first_copy_len) data);;
      let remaining_len := u16 (len - first_copy_len) in
      if 0 <? remaining_len then pbuf_take (p_next b) (Some (drop (Z.to_nat first_copy_len) data))
      else mret ERR_OK
    else mret ERR_MEM.

Definition pbuf_clone (at_ : option Z) (fill : nat → Z) (layer type p : Z) : stm pmem Z :=
  b ← pb_load p;
  q ← pbuf_alloc at_ fill layer (p_tot_len b) type;
  if q =? 0 then mret 0
  else
    err ← pbuf_copy q p;
    lwip_assert (err =? ERR_OK);;
    mret q.

Definition pbuf_coalesce (at_ : option Z) (fill : nat → Z) (p layer : Z) : stm pmem Z :=
  b ← pb_load p;
  if p_next b =? 0 then mret p
  else
    q ← pbuf_clone at_ fill layer PBUF_RAM p;
    if q =? 0 then mret p
    else
      _ ← pbuf_free p;
      mret q.

(** ** Single bytes and comparisons *)

Definition pbuf_try_get_at (p offset : Z) : stm pmem Z :=
  r ← pbuf_skip p offset;
  let '(q, q_idx) := r in
  if q =? 0 then mret (-1)
  else
    b ← pb_load q;
    if q_idx <? p_len b then
      bs ← mem_load (ptr_add (p_payload b) q_idx) 1;
      match bs with x :: _ => mret x | [] => ub end
    else mret (-1).

Definition pbuf_get_at (p offset : Z) : stm pmem Z :=
  ret ← pbuf_try_get_at p offset;
  if 0 <=? ret then mret (u8 ret) else mret 0.

Definition pbuf_put_at (p offset data : Z) : stm pmem unit :=
  r ← pbuf_skip p offset;
  let '(q, q_idx) := r in
  if q =? 0 then mret tt
  else
    b ← pb_load q;
    if q_idx <? p_len b then mem_store (ptr_add (p_payload b) q_idx) [data] else mret tt.

(** The second loop of [pbuf_memcmp], from the index [i] on; [s2] is the rest. *)
Fixpoint memcmp_loop (q start i : Z) (s2 : list Z) : stm pmem Z :=
  match s2 with
  | [] => mret 0
  | b :: s2 =>
      a ← pbuf_get_at q (u16 (start + i));
      if negb (a =? b) then mret (u16 (Z.min (i + 1) 0xFFFF))
      else memcmp_loop q start (u16 (i + 1)) s2
  end.

(** The [n] bytes at [s2]. *)
Definition pbuf_memcmp (p offset : Z) (s2 : list Z) : stm pmem Z :=
  b ← pb_load p;
  if p_tot_len b <? offset + Z.of_nat (length s2) then mret 0xffff
  else
    fuel ← gets pb_fuel;
    r ← skip_loop fuel p offset;
    memcmp_loop r.1 r.2 0 s2.

Fixpoint memfind_loop (fuel : nat) (p : Z) (mem : list Z) (i max_cmp_start : Z) : stm pmem Z :=
  match fuel with
  | O => ub
  | S fuel =>
      if i <=? max_cmp_start then
        plus ← pbuf_memcmp p i mem;
        if plus =? 0 then mret i else memfind_loop fuel p mem (u16 (i + 1)) max_cmp_start
      else mret 0xFFFF
  end.

Definition pbuf_memfind (p : Z) (mem : list Z) (start_offset : Z) : stm pmem Z :=
  b ← pb_load p;
  let mem_len := Z.of_nat (length mem) in
  let max_cmp_start := u16 (p_tot_len b - mem_len) in
  if mem_len + start_offset <=? p_tot_len b then
    memfind_loop (S (Z.to_nat (max_cmp_start + 1 - start_offset))) p mem start_offset max_cmp_start
  else mret 0xFFFF.

(** [substr] is the C string, [None] for NULL. *)
Definition pbuf_strstr (p : Z) (substr : option (list Z)) : stm pmem Z :=
  match substr with
  | None => mret 0xFFFF
  | Some substr =>
      match cstr substr with
      | None => ub
      | Some [] => mret 0xFFFF
      | Some sub =>
          b ← pb_load p;
          if p_tot_len b =? 0xFFFF then mret 0xFFFF
          else if 0xFFFF <=? Z.of_nat (length sub) then mret 0xFFFF
          else pbuf_memfind p sub 0
      end
  end.
