(* ===== verification/PbufProps.v ===== *)
(** * What chains of pbufs hold

    A chain is the list of its pbufs with their bytes; its contents are their
    concatenation.  The functions that read, write, cut, join and copy chains are
    functions on the contents. *)

From S2P Require Import Prelude CString Pbuf.

(** ** Chains *)

Definition contents (xs : list (Z * list Z)) : list Z := concat xs.*2.
Definition total (xs : list (Z * list Z)) : Z := Z.of_nat (length (contents xs)).

(** The bytes at a pointer. *)
Definition view (s : pmem) (q : ptr) (bs : list Z) : Prop :=
  bs = [] ∨ ∃ m1 m2, pm_mem s !! pt_block q = Some (m1 ++ bs ++ m2) ∧ pt_off q = Z.of_nat (length m1).

Fixpoint chain (s : pmem) (p : Z) (xs : list (Z * list Z)) : Prop :=
  match xs with
  | [] => p = 0
  | (a, bs) :: xs' =>
      p = a ∧ a ≠ 0 ∧ ∃ b, pm_buf s !! a = Some b ∧ p_len b = Z.of_nat (length bs) ∧
        p_tot_len b = total xs ∧ view s (p_payload b) bs ∧ chain s (p_next b) xs'
  end.

(** A chain that is a packet: no pbuf twice, and a length of 16 bits. *)
Definition packet (s : pmem) (p : Z) (xs : list (Z * list Z)) : Prop :=
  chain s p xs ∧ NoDup xs.*1 ∧ total xs < 2 ^ 16.

Lemma contents_cons a bs xs : contents ((a, bs) :: xs) = bs ++ contents xs.
Proof. done. Qed.
Lemma contents_app xs ys : contents (xs ++ ys) = contents xs ++ contents ys.
Proof. unfold contents. by rewrite fmap_app, concat_app. Qed.
Lemma total_cons a bs xs : total ((a, bs) :: xs) = Z.of_nat (length bs) + total xs.
Proof. unfold total. rewrite contents_cons, length_app. lia. Qed.
Lemma total_app xs ys : total (xs ++ ys) = total xs + total ys.
Proof. unfold total. rewrite contents_app, length_app. lia. Qed.
Lemma total_nonneg xs : 0 ≤ total xs.
Proof. unfold total. lia. Qed.

Lemma chain_dom s p xs : chain s p xs → Forall (λ a, is_Some (pm_buf s !! a)) xs.*1.
Proof.
  revert p. induction xs as [|[a bs] xs IH]; intros p; simpl; [constructor|].
  intros (_ & _ & b & Hb & _ & _ & _ & Hc). constructor; eauto.
Qed.

Lemma addrs_fuel s (l : list Z) : NoDup l → Forall (λ a, is_Some (pm_buf s !! a)) l → (length l < pb_fuel s)%nat.
Proof.
  intros Hnd Hd. unfold pb_fuel. apply Nat.lt_succ_r. rewrite <-size_dom.
  rewrite <-(size_list_to_set (C := gset Z)) by done. apply subseteq_size.
  intros a Ha. rewrite elem_of_list_to_set in Ha. rewrite elem_of_dom. by eapply Forall_forall in Hd.
Qed.

Lemma packet_fuel s p xs : packet s p xs → (length xs < pb_fuel s)%nat.
Proof.
  intros (Hc & Hnd & _). rewrite <-(length_fmap fst xs). apply addrs_fuel; [done|]. by eapply chain_dom.
Qed.

Lemma chain_null s p xs : chain s p xs → p = 0 ↔ xs = [].
Proof. destruct xs as [|[a bs] xs]; simpl; [done|]. intros (-> & Ha & _). done. Qed.

Lemma packet_cons s p a bs xs : packet s p ((a, bs) :: xs) →
  p = a ∧ a ≠ 0 ∧ a ∉ xs.*1 ∧ ∃ b, pm_buf s !! a = Some b ∧ p_len b = Z.of_nat (length bs) ∧
    p_tot_len b = total ((a, bs) :: xs) ∧ view s (p_payload b) bs ∧ packet s (p_next b) xs.
Proof.
  intros ((-> & Ha & b & Hb & Hl & Ht & Hv & Hc) & Hnd & Hlt). simpl in Hnd. apply NoDup_cons in Hnd as [Hni Hnd].
  rewrite total_cons in Hlt. split_and!; [done..|]. exists b. split_and!; try done.
  split_and!; [done..|lia].
Qed.

(** The tail of a packet is one. *)
Lemma chain_app s p xs ys : chain s p (xs ++ ys) → ∃ q, chain s q ys.
Proof.
  revert p. induction xs as [|[a bs] xs IH]; intros p; simpl; [eauto|]. intros (_ & _ & b & _ & _ & _ & _ & Hc). eauto.
Qed.

Lemma packet_suffix s p q xs ys : packet s p (xs ++ ys) → chain s q ys → packet s q ys.
Proof.
  intros (_ & Hnd & Ht) Hc. rewrite fmap_app in Hnd. apply NoDup_app in Hnd as (_ & _ & Hnd).
  rewrite total_app in Ht. pose proof (total_nonneg xs). split_and!; [done..|lia].
Qed.

(** A chain only depends on its pbufs and on the memory. *)
Lemma chain_ext s s' p xs :
  chain s p xs → Forall (λ a, pm_buf s' !! a = pm_buf s !! a) xs.*1 → pm_mem s' = pm_mem s → chain s' p xs.
Proof.
  intros Hc Hf Hm. revert p Hc. induction xs as [|[a bs] xs IH]; intros p; simpl in *; [done|].
  apply Forall_cons in Hf as [Ha Hf]. intros (-> & Hn & b & Hb & Hl & Ht & Hv & Hc). split_and!; [done..|].
  exists b. rewrite Ha. split_and!; try done; [|by apply IH].
  unfold view. by rewrite Hm.
Qed.

(** ** Memory *)

Lemma wp_pb_load a s b Q : pm_buf s !! a = Some b → Q b s → wp (pb_load a) s Q.
Proof. unfold wp, pb_load. by intros ->. Qed.

Lemma wp_pb_update a f s b Q :
  pm_buf s !! a = Some b → Q tt (pm_set_buf (<[a := f b]> (pm_buf s)) s) → wp (pb_update a f) s Q.
Proof. unfold wp, pb_update. by intros ->. Qed.

Lemma wp_assert b s (Q : unit → pmem → Prop) : b = true → Q tt s → wp (lwip_assert b) s Q.
Proof. by intros -> ?. Qed.

(** Reading a part of the bytes of a pbuf. *)
Lemma wp_mem_load s q bs i n (Q : list Z → pmem → Prop) :
  view s q bs → 0 ≤ i → 0 ≤ n → i + n ≤ Z.of_nat (length bs) →
  Q (take (Z.to_nat n) (drop (Z.to_nat i) bs)) s → wp (mem_load (ptr_add q i) n) s Q.
Proof.
  intros Hv Hi Hn Hb HQ. unfold wp, mem_load. destruct (Z.eqb_spec n 0) as [->|Hn0]; [done|].
  destruct Hv as [->|(m1 & m2 & Hm & Ho)]; [simpl in Hb; lia|]. simpl. rewrite Hm.
  rewrite !length_app. replace (_ && _) with true by (symmetry; apply andb_true_iff; split; apply Z.leb_le; lia).
  replace (take _ _) with (take (Z.to_nat n) (drop (Z.to_nat i) bs)); [done|].
  rewrite Ho. rewrite drop_app_ge by lia. rewrite drop_app_le by lia.
  rewrite take_app_le by (rewrite length_drop; lia). do 2 f_equal. lia.
Qed.

(** Writing them. *)
Lemma list_inserts_app_fit {A} (ds bs m2 : list A) i : (i + length ds ≤ length bs)%nat →
  list_inserts i ds (bs ++ m2) = list_inserts i ds bs ++ m2.
Proof.
  revert i. induction ds as [|d ds IH]; intros i H; simpl in *; [done|].
  rewrite IH by lia. rewrite insert_app_l; [done|]. rewrite length_inserts. lia.
Qed.

Definition pm_write (q : ptr) (i : Z) (ds : list Z) (s : pmem) : pmem :=
  match ds with
  | [] => s
  | _ => pm_set_mem (alter (list_inserts (Z.to_nat (pt_off q + i)) ds) (pt_block q) (pm_mem s)) s
  end.

Lemma wp_mem_store s q bs i ds (Q : unit → pmem → Prop) :
  view s q bs → 0 ≤ i → i + Z.of_nat (length ds) ≤ Z.of_nat (length bs) →
  Q tt (pm_write q i ds s) → wp (mem_store (ptr_add q i) ds) s Q.
Proof.
  intros Hv Hi Hb HQ. unfold wp, mem_store, pm_write in *. destruct ds as [|d ds]; [done|].
  destruct Hv as [->|(m1 & m2 & Hm & Ho)]; [simpl in Hb; lia|]. simpl in *. rewrite Hm, !length_app.
  replace (_ && _) with true by (symmetry; apply andb_true_iff; split; apply Z.leb_le; simpl; lia).
  match goal with H : Q tt ?a |- Q tt ?b => replace b with a; [done|] end. f_equal.
  apply map_eq. intros k. destruct (decide (k = pt_block q)) as [->|Hk].
  - by rewrite lookup_alter_eq, Hm, lookup_insert_eq.
  - by rewrite lookup_alter_ne, lookup_insert_ne.
Qed.

Lemma pm_write_buf q i ds s : pm_buf (pm_write q i ds s) = pm_buf s.
Proof. by destruct ds. Qed.

Lemma view_write s q bs i ds :
  view s q bs → 0 ≤ i → i + Z.of_nat (length ds) ≤ Z.of_nat (length bs) →
  view (pm_write q i ds s) q (list_inserts (Z.to_nat i) ds bs).
Proof.
  intros Hv Hi Hb. destruct ds as [|d ds]; [done|]. destruct Hv as [->|(m1 & m2 & Hm & Ho)]; [simpl in Hb; lia|].
  right. exists m1, m2. split; [|done]. unfold pm_write. cbn [pm_mem pm_set_mem].
  rewrite lookup_alter_eq, Hm. cbn [fmap option_fmap option_map]. f_equal.
  replace (Z.to_nat (pt_off q + i)) with (length m1 + Z.to_nat i)%nat by lia.
  rewrite list_inserts_app_r. f_equal. apply list_inserts_app_fit. lia.
Qed.

Lemma view_write_ne s q q' bs i ds :
  view s q' bs → pt_block q' ≠ pt_block q → view (pm_write q i ds s) q' bs.
Proof.
  intros [->|(m1 & m2 & Hm & Ho)] Hne; [by left|]. right. exists m1, m2. split; [|done].
  destruct ds; [done|]. unfold pm_write. cbn [pm_mem pm_set_mem]. by rewrite lookup_alter_ne by done.
Qed.

(** ** Positions *)

(** The pbuf at an offset, if there is one: the pbufs before it are shorter. *)
Lemma wp_skip_loop fuel s p xs off (Q : Z * Z → pmem → Prop) :
  packet s p xs → (length xs < fuel)%nat → 0 ≤ off < 2 ^ 16 →
  (∀ q i pre post, xs = pre ++ post → packet s q post → total pre + i = off → 0 ≤ i →
    match post with [] => True | (_, bs) :: _ => i < Z.of_nat (length bs) end → Q (q, i) s) →
  wp (skip_loop fuel p off) s Q.
Proof.
  revert fuel p off Q. induction xs as [|[a bs] xs IH]; intros fuel p off Q Hp Hf Ho HQ;
    (destruct fuel as [|fuel]; [simpl in Hf; lia|]); simpl.
  - destruct Hp as [Hp Hr]. simpl in Hp. subst p. simpl. apply wp_ret.
    apply (HQ 0 off [] []); try done; lia.
  - pose proof Hp as Hp0. apply packet_cons in Hp as (-> & Ha & _ & b & Hb & Hl & Ht & Hv & Hp).
    rewrite (proj2 (Z.eqb_neq _ _) Ha). apply wp_bind. eapply wp_pb_load; [done|].
    destruct (Z.leb_spec (p_len b) off) as [Hle|Hgt].
    + rewrite u16_small by lia. apply IH; [done|simpl in Hf; lia|lia|].
      intros q i pre post -> Hq Hpi Hi Hpost. apply (HQ q i ((a, bs) :: pre) post); try done.
      rewrite total_cons. lia.
    + apply wp_ret. apply (HQ a off [] ((a, bs) :: xs)); try done; try lia.
Qed.

Lemma wp_pbuf_skip s p xs off (Q : Z * Z → pmem → Prop) :
  packet s p xs → 0 ≤ off < 2 ^ 16 →
  (∀ q i pre post, xs = pre ++ post → packet s q post → total pre + i = off → 0 ≤ i →
    match post with [] => True | (_, bs) :: _ => i < Z.of_nat (length bs) end → Q (q, i) s) →
  wp (pbuf_skip p off) s Q.
Proof.
  intros Hp Ho HQ. unfold pbuf_skip. apply wp_bind, wp_gets. eapply wp_skip_loop; try done. by eapply packet_fuel.
Qed.

(** Positions in the contents of a chain that is split. *)
Lemma contents_split_lookup pre a bs post i off :
  total pre + i = off → 0 ≤ i < Z.of_nat (length bs) →
  contents (pre ++ (a, bs) :: post) !! Z.to_nat off = bs !! Z.to_nat i.
Proof.
  intros Ho Hi. rewrite contents_app, contents_cons. unfold total in Ho.
  rewrite lookup_app_r by lia. rewrite lookup_app_l by lia. f_equal. lia.
Qed.

Lemma wp_try_get_at s p xs off (Q : Z → pmem → Prop) :
  packet s p xs → 0 ≤ off < 2 ^ 16 →
  Q (default (-1) (contents xs !! Z.to_nat off)) s → wp (pbuf_try_get_at p off) s Q.
Proof.
  intros Hp Ho HQ. unfold pbuf_try_get_at. apply wp_bind. eapply wp_pbuf_skip; [done..|].
  intros q i pre post -> Hq Hpi Hi Hpost. simpl. destruct post as [|[a bs] post].
  - destruct Hq as [Hq _]. simpl in Hq. subst q. simpl. apply wp_ret.
    rewrite app_nil_r in HQ. unfold total in Hpi. rewrite lookup_ge_None_2 in HQ by lia. done.
  - apply packet_cons in Hq as (-> & Ha & _ & b & Hb & Hl & _ & Hv & _).
    rewrite (proj2 (Z.eqb_neq _ _) Ha). apply wp_bind. eapply wp_pb_load; [done|].
    rewrite (proj2 (Z.ltb_lt i (p_len b))) by lia. apply wp_bind.
    eapply wp_mem_load; [exact Hv|done|lia|lia|].
    rewrite (contents_split_lookup _ _ _ _ i) in HQ by lia.
    destruct (lookup_lt_is_Some_2 bs (Z.to_nat i)) as [x Hx]; [lia|]. rewrite Hx in HQ.
    rewrite (drop_S _ _ _ Hx). simpl. done.
Qed.

Lemma wp_get_at s p xs off (Q : Z → pmem → Prop) :
  packet s p xs → 0 ≤ off < 2 ^ 16 → is_bytes (contents xs) →
  Q (default 0 (contents xs !! Z.to_nat off)) s → wp (pbuf_get_at p off) s Q.
Proof.
  intros Hp Ho Hb HQ. unfold pbuf_get_at. apply wp_bind. eapply wp_try_get_at; [done..|].
  destruct (contents xs !! Z.to_nat off) as [x|] eqn:Hx; simpl in *; [|by apply wp_ret].
  assert (is_u8 x) as Hx8 by (by eapply Forall_lookup_1 in Hx).
  unfold is_u8 in Hx8. rewrite (proj2 (Z.leb_le 0 x)), u8_small by lia. by apply wp_ret.
Qed.

(** ** Comparisons *)

(** The number of the first byte that differs, from one on, or zero. *)
Fixpoint first_diff (i : Z) (xs ys : list Z) : Z :=
  match xs, ys with
  | x :: xs, y :: ys => if x =? y then first_diff (i + 1) xs ys else i + 1
  | _, _ => 0
  end.

Lemma first_diff_zero i xs ys : 0 ≤ i → (length ys ≤ length xs)%nat → first_diff i xs ys = 0 ↔ take (length ys) xs = ys.
Proof.
  revert i ys. induction xs as [|x xs IH]; intros i ys Hi Hl; destruct ys as [|y ys]; simpl in *; try done; try lia.
  destruct (Z.eqb_spec x y) as [->|Hne].
  - rewrite IH by lia. split; [by intros ->|]. intros H. by simplify_eq.
  - split; [lia|]. intros H. by simplify_eq.
Qed.

Lemma wp_memcmp_loop s q post start i s2 (Q : Z → pmem → Prop) :
  packet s q post → is_bytes (contents post) → 0 ≤ start → 0 ≤ i →
  start + i + Z.of_nat (length s2) ≤ total post →
  Q (first_diff i (drop (Z.to_nat (start + i)) (contents post)) s2) s → wp (memcmp_loop q start i s2) s Q.
Proof.
  intros Hq Hb Hs. revert i. induction s2 as [|y s2 IH]; intros i Hi Ht HQ.
  { simpl in *. destruct (drop _ _); by apply wp_ret. }
  pose proof (proj2 (proj2 Hq)) as Hlt. simpl in Ht. cbn [memcmp_loop]. apply wp_bind. rewrite u16_small by lia.
  eapply wp_get_at; [done|lia|done|]. unfold total in *.
  destruct (lookup_lt_is_Some_2 (contents post) (Z.to_nat (start + i))) as [x Hx]; [lia|]. rewrite Hx. simpl.
  rewrite (drop_S _ _ _ Hx) in HQ. simpl in HQ. destruct (Z.eqb_spec x y) as [Heq|Hne]; simpl.
  - rewrite u16_small by lia. apply IH; [lia|lia|].
    by replace (Z.to_nat (start + (i + 1))) with (S (Z.to_nat (start + i))) by lia.
  - apply wp_ret. rewrite Z.min_l, u16_small by lia. done.
Qed.

Lemma drop_contents pre post i off : total pre + i = off → 0 ≤ i →
  drop (Z.to_nat off) (contents (pre ++ post)) = drop (Z.to_nat i) (contents post).
Proof.
  intros Ho Hi. unfold total in Ho. rewrite contents_app, drop_app_ge by lia. f_equal. lia.
Qed.

(** The bytes from an offset on, and [pbuf_memcmp] on them. *)
Definition differs (C s2 : list Z) (off : Z) : Z :=
  if Z.of_nat (length C) <? off + Z.of_nat (length s2) then 0xffff else first_diff 0 (drop (Z.to_nat off) C) s2.

Lemma packet_total s p xs b : packet s p xs → pm_buf s !! p = Some b → xs ≠ [] → p_tot_len b = total xs.
Proof.
  destruct xs as [|[a bs] xs]; [done|]. intros (-> & _ & _ & b' & Hb & _ & Ht & _)%packet_cons Hb' _. congruence.
Qed.

Lemma wp_memcmp s p xs off s2 (Q : Z → pmem → Prop) :
  packet s p xs → xs ≠ [] → is_bytes (contents xs) → 0 ≤ off < 2 ^ 16 →
  Q (differs (contents xs) s2 off) s → wp (pbuf_memcmp p off s2) s Q.
Proof.
  intros Hp Hne Hb Ho HQ. destruct xs as [|[a bs] xs]; [done|].
  pose proof (packet_cons _ _ _ _ _ Hp) as (-> & Ha & _ & b & Hpb & _ & Ht & _).
  unfold pbuf_memcmp. apply wp_bind. eapply wp_pb_load; [done|]. unfold differs in HQ.
  rewrite Ht. unfold total. case_match eqn:Hlt; [by apply wp_ret|]. apply Z.ltb_ge in Hlt.
  apply wp_bind, wp_gets, wp_bind. eapply wp_skip_loop; [done|by eapply packet_fuel|done|].
  intros q i pre post Hxs Hq Hpi Hi Hpost. simpl. rewrite Hxs in *. eapply wp_memcmp_loop; [done| |lia|lia| |].
  - rewrite contents_app in Hb. by apply Forall_app in Hb as [_ ?].
  - rewrite Z.add_0_r. fold (total (pre ++ post)) in Hlt. rewrite total_app in Hlt. lia.
  - rewrite Z.add_0_r. by rewrite (drop_contents _ _ i) in HQ.
Qed.

Definition occurs_at (C mem : list Z) (i : Z) : Prop := take (length mem) (drop (Z.to_nat i) C) = mem.

(** The first place from [start] on where [mem] occurs. *)
Definition first_occurrence (C mem : list Z) (start r : Z) : Prop :=
  (start ≤ r ∧ r + Z.of_nat (length mem) ≤ Z.of_nat (length C) ∧ occurs_at C mem r ∧ (∀ j, start ≤ j < r → ¬ occurs_at C mem j)) ∨
  r = 0xFFFF ∧ ∀ j, start ≤ j → j + Z.of_nat (length mem) ≤ Z.of_nat (length C) → ¬ occurs_at C mem j.

Lemma differs_zero C s2 i : 0 ≤ i → i + Z.of_nat (length s2) ≤ Z.of_nat (length C) → differs C s2 i = 0 ↔ occurs_at C s2 i.
Proof.
  intros Hi Hl. unfold differs. rewrite (proj2 (Z.ltb_ge _ _)) by lia. apply first_diff_zero; [lia|].
  rewrite length_drop. lia.
Qed.

Lemma wp_memfind_loop fuel s p xs mem i (Q : Z → pmem → Prop) :
  packet s p xs → xs ≠ [] → is_bytes (contents xs) → Z.of_nat (length mem) ≤ total xs →
  0 ≤ i ≤ total xs - Z.of_nat (length mem) + 1 → (0 < length mem)%nat → (Z.to_nat (total xs - Z.of_nat (length mem) + 1 - i) < fuel)%nat →
  (∀ r, first_occurrence (contents xs) mem i r → Q r s) →
  wp (memfind_loop fuel p mem i (total xs - Z.of_nat (length mem))) s Q.
Proof.
  intros Hp Hne Hb Hm. pose proof (proj2 (proj2 Hp)) as Hlt. revert i Q.
  induction fuel as [|fuel IH]; intros i Q Hi Hm0 Hf HQ; [lia|]. simpl.
  destruct (Z.leb_spec i (total xs - Z.of_nat (length mem))) as [Hle|Hgt].
  - apply wp_bind. eapply wp_memcmp; [done..|lia|].
    pose proof (differs_zero (contents xs) mem i ltac:(lia) ltac:(unfold total in *; lia)) as Hd.
    destruct (Z.eqb_spec (differs (contents xs) mem i) 0) as [H0|Hn0].
    + apply wp_ret, HQ. left. unfold total in *. split_and!; [lia|lia|tauto|]. intros j ?. lia.
    + rewrite u16_small by lia. apply IH; [lia|done|lia|]. intros r Hr. apply HQ.
      destruct Hr as [(H1 & H2 & H3 & H4)|[-> H4]]; [left|right]; split_and!; try done; try lia.
      * intros j Hj. destruct (decide (j = i)) as [->|]; [tauto|]. apply H4. lia.
      * intros j Hj Hj'. destruct (decide (j = i)) as [->|]; [tauto|]. apply H4; lia.
  - apply wp_ret, HQ. right. split; [done|]. unfold total in *. intros j ? ?. lia.
Qed.

Lemma wp_memfind s p xs mem start (Q : Z → pmem → Prop) :
  packet s p xs → xs ≠ [] → is_bytes (contents xs) → 0 ≤ start < 2 ^ 16 → (0 < length mem)%nat →
  (∀ r, first_occurrence (contents xs) mem start r → Q r s) → wp (pbuf_memfind p mem start) s Q.
Proof.
  intros Hp Hne Hb Hs Hm HQ. pose proof (proj2 (proj2 Hp)) as Hlt. destruct xs as [|[a bs] xs]; [done|].
  pose proof (packet_cons _ _ _ _ _ Hp) as (-> & Ha & _ & b & Hpb & _ & Ht & _).
  unfold pbuf_memfind. apply wp_bind. eapply wp_pb_load; [done|]. rewrite Ht.
  destruct (Z.leb_spec (Z.of_nat (length mem) + start) (total ((a, bs) :: xs))) as [Hle|Hgt].
  - rewrite u16_small by lia. eapply wp_memfind_loop; try done; lia.
  - apply wp_ret, HQ. right. split; [done|]. unfold total in Hgt. intros j ? ?. lia.
Qed.

(** ** Copies to a buffer *)

Lemma wp_copy_partial_loop fuel s p xs pre rest len off (Q : Z * list Z → pmem → Prop) :
  packet s p xs → is_bytes (contents xs) → (length xs < fuel)%nat → 0 ≤ off < 2 ^ 16 → 0 ≤ len < 2 ^ 16 →
  let d := take (Z.to_nat len) (drop (Z.to_nat off) (contents xs)) in
  (length d ≤ length rest)%nat → Z.of_nat (length pre) + len < 2 ^ 16 →
  Q (Z.of_nat (length pre + length d), pre ++ d ++ drop (length d) rest) s →
  wp (copy_partial_loop fuel (pre ++ rest) p len off (Z.of_nat (length pre)) (Z.of_nat (length pre))) s Q.
Proof.
  revert fuel p pre rest len off Q. induction xs as [|[a bs] xs IH]; intros fuel p pre rest len off Q Hp Hb Hf Ho Hl d Hd Hlen HQ;
    (destruct fuel as [|fuel]; [simpl in Hf; lia|]); cbn [copy_partial_loop].
  { destruct Hp as [Hp _]. simpl in Hp. subst p. rewrite andb_false_r. apply wp_ret. subst d. change (contents []) with (@nil Z) in HQ.
    rewrite drop_nil, take_nil in HQ. by rewrite Nat.add_0_r in HQ. }
  pose proof (proj2 (proj2 Hp)) as Hlt. rewrite total_cons in Hlt. pose proof (total_nonneg xs) as Hnn.
  apply packet_cons in Hp as (-> & Ha & _ & b & Hpb & Hpl & _ & Hv & Hp).
  rewrite (proj2 (Z.eqb_neq _ _) Ha). rewrite contents_cons in Hb. apply Forall_app in Hb as [Hbs Hb].
  destruct (Z.eqb_spec len 0) as [->|Hlen0]; simpl.
  { apply wp_ret. subst d. simpl in HQ. by rewrite Nat.add_0_r in HQ. }
  apply wp_bind. eapply wp_pb_load; [done|].
  destruct (negb (off =? 0) && (p_len b <=? off)) eqn:Hskip.
  - apply andb_true_iff in Hskip as [_ Hle]. apply Z.leb_le in Hle. rewrite u16_small by lia.
    subst d. rewrite contents_cons, drop_app_ge in * by lia.
    replace (Z.to_nat off - length bs)%nat with (Z.to_nat (off - p_len b)) in * by lia.
    apply IH; [done..|simpl in Hf; lia|lia|lia|done|lia|done].
  - assert (off ≤ p_len b) as Hle.
    { apply andb_false_iff in Hskip as [H|H]; [apply negb_false_iff, Z.eqb_eq in H; lia|apply Z.leb_gt in H; lia]. }
    rewrite (u16_small (p_len b - off)) by lia.
    replace (if len <? p_len b - off then len else p_len b - off) with (Z.min len (p_len b - off))
      by (destruct (Z.ltb_spec len (p_len b - off)); lia).
    set (n := Z.min len (p_len b - off)). assert (0 ≤ n ≤ len ∧ off + n ≤ Z.of_nat (length bs)) as (Hn & Hnb) by lia.
    apply wp_bind. eapply wp_mem_load; [done|lia|lia|lia|].
    set (ds := take (Z.to_nat n) (drop (Z.to_nat off) bs)).
    assert (length ds = Z.to_nat n) as Hds by (unfold ds; rewrite length_take, length_drop; lia).
    assert (d = ds ++ take (Z.to_nat (len - n)) (contents xs)) as Hdd.
    { unfold d, ds. rewrite contents_cons, drop_app_le by lia.
      destruct (decide (len ≤ p_len b - off)) as [Hc|Hc].
      - rewrite take_app_le by (rewrite length_drop; lia). replace n with len by lia.
        rewrite Z.sub_diag. simpl. by rewrite app_nil_r.
      - replace (Z.to_nat n) with (length (drop (Z.to_nat off) bs)) by (rewrite length_drop; lia).
        rewrite firstn_all, take_app_ge by (rewrite length_drop; lia). do 2 f_equal. rewrite length_drop. lia. }
    rewrite Hdd in Hd, HQ. rewrite length_app in Hd, HQ.
    assert (is_bytes ds) as Hds8 by (by apply Forall_take, Forall_drop).
    rewrite <-(take_drop (length ds) rest), (buf_writes_at pre (take (length ds) rest)) by (rewrite ?length_take; lia).
    rewrite (u8_bytes ds) by done. rewrite !u16_small by lia.
    replace (Z.of_nat (length pre) + n) with (Z.of_nat (length (pre ++ ds))) by (rewrite length_app; lia).
    rewrite (app_assoc pre). apply IH; [done..|simpl in Hf; lia|lia|lia| | |].
    + rewrite Z2Nat.inj_0, drop_0, length_drop. lia.
    + rewrite length_app. lia.
    + rewrite Z2Nat.inj_0, drop_0, length_app, drop_drop, <-!app_assoc. rewrite <-!app_assoc in HQ.
      by rewrite <-Nat.add_assoc.
Qed.

Lemma wp_copy_partial s p xs dst len off (Q : Z * list Z → pmem → Prop) :
  packet s p xs → is_bytes (contents xs) → 0 ≤ off < 2 ^ 16 → 0 ≤ len < 2 ^ 16 →
  let d := take (Z.to_nat len) (drop (Z.to_nat off) (contents xs)) in
  (length d ≤ length dst)%nat → Q (Z.of_nat (length d), d ++ drop (length d) dst) s →
  wp (pbuf_copy_partial p (Some dst) len off) s Q.
Proof.
  intros Hp Hb Ho Hl d Hd HQ. unfold pbuf_copy_partial. destruct (Z.eqb_spec p 0) as [->|Hn].
  - apply wp_ret. destruct xs as [|[a bs] xs]; [|by destruct Hp as [(<- & ? & _) _]].
    subst d. change (contents []) with (@nil Z) in HQ. by rewrite drop_nil, take_nil in HQ.
  - apply wp_bind, wp_gets. apply (wp_copy_partial_loop _ s p xs [] dst); try done; simpl; [by eapply packet_fuel|lia].
Qed.

Lemma wp_clen_loop fuel s p xs n (Q : Z → pmem → Prop) :
  packet s p xs → (length xs < fuel)%nat → 0 ≤ n → Q (if decide (xs = []) then n else u16 (n + Z.of_nat (length xs))) s →
  wp (clen_loop fuel p n) s Q.
Proof.
  revert fuel p n Q. induction xs as [|[a bs] xs IH]; intros fuel p n Q Hp Hf Hn HQ;
    (destruct fuel as [|fuel]; [simpl in Hf; lia|]); cbn [clen_loop].
  - destruct Hp as [Hp _]. simpl in Hp. subst p. by apply wp_ret.
  - apply packet_cons in Hp as (-> & Ha & _ & b & Hpb & _ & _ & _ & Hp).
    rewrite (proj2 (Z.eqb_neq _ _) Ha). apply wp_bind. eapply wp_pb_load; [done|].
    apply IH; [done|simpl in Hf; lia|unfold u16; pose proof (Z.mod_pos_bound (n + 1) (2 ^ 16)); lia|].
    rewrite decide_False in HQ by done. case_decide as Hx.
    + subst xs. simpl in HQ. done.
    + unfold u16 in *. rewrite Zplus_mod_idemp_l. simpl length in HQ.
      by replace (n + 1 + Z.of_nat (length xs)) with (n + Z.of_nat (S (length xs))) by lia.
Qed.

(** ** Writes *)

(** The payloads are in the blocks of their pbufs, as for [PBUF_RAM] and
    [PBUF_POOL]. *)
Definition own (s : pmem) (xs : list (Z * list Z)) : Prop :=
  Forall (λ x, ∀ b, pm_buf s !! x.1 = Some b → pt_block (p_payload b) = x.1) xs.

Definition views (s : pmem) (xs : list (Z * list Z)) : Prop :=
  Forall (λ x, ∀ b, pm_buf s !! x.1 = Some b → view s (p_payload b) x.2) xs.

(** The same pbufs with the same lengths. *)
Definition shape (xs ys : list (Z * list Z)) : Prop :=
  Forall2 (λ x y, x.1 = y.1 ∧ length x.2 = length y.2) xs ys.

(** Only the memory of the blocks of [A] has changed. *)
Definition mem_frame (A : list Z) (s s' : pmem) : Prop :=
  (∀ k, k ∉ A → pm_mem s' !! k = pm_mem s !! k) ∧ ∃ m, s' = pm_set_mem m s.

Lemma shape_refl xs : shape xs xs.
Proof. by apply Forall_Forall2_diag, Forall_true. Qed.
Lemma shape_addrs xs ys : shape xs ys → ys.*1 = xs.*1.
Proof. induction 1 as [|[a b] [a' b'] xs ys [Ha Hb] _ IH]; [done|]. simpl in Ha. by rewrite !fmap_cons, IH, Ha. Qed.
Lemma shape_total xs ys : shape xs ys → total ys = total xs.
Proof.
  induction 1 as [|[a b] [a' b'] xs ys [Ha Hb] _ IH]; simpl in *; [done|]. rewrite !total_cons, IH. lia.
Qed.

Lemma mem_frame_refl A s : mem_frame A s s.
Proof. split; [done|]. exists (pm_mem s). by destruct s. Qed.
Lemma mem_frame_trans A B s1 s2 s3 : mem_frame A s1 s2 → mem_frame B s2 s3 → mem_frame (A ++ B) s1 s3.
Proof.
  intros [H1 [m1 ->]] [H2 [m2 ->]]. split; [|by exists m2]. intros k Hk. rewrite elem_of_app in Hk.
  rewrite H2 by tauto. apply H1. tauto.
Qed.
Lemma mem_frame_weaken A B s s' : mem_frame A s s' → (∀ k, k ∈ A → k ∈ B) → mem_frame B s s'.
Proof. intros [H1 H2] HA. split; [|done]. intros k Hk. apply H1. auto. Qed.
Lemma mem_frame_buf A s s' : mem_frame A s s' → pm_buf s' = pm_buf s.
Proof. by intros [_ [m ->]]. Qed.

Lemma mem_frame_write q i ds s : mem_frame [pt_block q] s (pm_write q i ds s).
Proof.
  split; [|destruct ds; [exists (pm_mem s); by destruct s|by eexists]].
  intros k Hk. rewrite list_elem_of_singleton in Hk. destruct ds; [done|]. unfold pm_write. cbn [pm_mem pm_set_mem].
  by rewrite lookup_alter_ne.
Qed.

Lemma own_buf s s' xs : pm_buf s' = pm_buf s → own s xs → own s' xs.
Proof. unfold own. by intros ->. Qed.

Lemma own_shape s xs ys : shape xs ys → own s xs → own s ys.
Proof.
  unfold own. induction 1 as [|[a b] [a' b'] xs ys [Ha Hb] _ IH]; [done|]. simpl in Ha. subst a'.
  rewrite !Forall_cons. intros [H1 H2]. split; [done|auto].
Qed.

Lemma views_frame A s s' xs : views s xs → own s xs → mem_frame A s s' → (∀ a, a ∈ xs.*1 → a ∉ A) → views s' xs.
Proof.
  intros Hv Ho Hm Hd. unfold views. rewrite (mem_frame_buf _ _ _ Hm). apply Forall_forall. intros x Hx b Hb.
  eapply Forall_forall in Hv; [|exact Hx]. eapply Forall_forall in Ho; [|exact Hx].
  specialize (Hv b Hb). specialize (Ho b Hb). destruct Hm as [Hk _]. unfold view in *.
  rewrite Hk; [done|]. rewrite Ho. apply Hd. by apply list_elem_of_fmap_2.
Qed.

Lemma chain_views s p xs : chain s p xs → views s xs.
Proof.
  revert p. induction xs as [|[a bs] xs IH]; intros p; [constructor|].
  intros (_ & _ & b & Hb & _ & _ & Hv & Hc). constructor; [|by eapply IH].
  simpl. intros b' Hb'. congruence.
Qed.

Lemma chain_reshape s s' p xs ys :
  chain s p xs → shape xs ys → pm_buf s' = pm_buf s → views s' ys → chain s' p ys.
Proof.
  intros Hc Hs Hbuf Hv. revert p Hc Hv. induction Hs as [|[a bs] [a' bs'] xs ys [Ha Hl] Hs IH]; intros p; [done|].
  simpl in Ha, Hl. subst a'. intros (-> & Ha & b & Hb & Hbl & Ht & _ & Hc) Hv. apply Forall_cons in Hv as [Hv1 Hv2].
  simpl. split_and!; [done..|]. exists b. rewrite Hbuf. split_and!; [done|lia| | |by apply IH].
  - rewrite Ht, !total_cons, (shape_total _ _ Hs). lia.
  - apply Hv1. simpl. by rewrite Hbuf.
Qed.

Lemma packet_reshape s s' p xs ys :
  packet s p xs → shape xs ys → pm_buf s' = pm_buf s → views s' ys → packet s' p ys.
Proof.
  intros (Hc & Hnd & Ht) Hs Hb Hv. split_and!; [by eapply chain_reshape|by rewrite (shape_addrs _ _ Hs)|].
  by rewrite (shape_total _ _ Hs).
Qed.

(** Bytes written into the pbuf in the middle of a chain. *)
Lemma write_middle s p pre a bs post b i ds :
  packet s p (pre ++ (a, bs) :: post) → own s (pre ++ (a, bs) :: post) → pm_buf s !! a = Some b →
  0 ≤ i → i + Z.of_nat (length ds) ≤ Z.of_nat (length bs) →
  let s' := pm_write (p_payload b) i ds s in
  mem_frame [a] s s' ∧ packet s' p (pre ++ (a, list_inserts (Z.to_nat i) ds bs) :: post) ∧
    shape (pre ++ (a, bs) :: post) (pre ++ (a, list_inserts (Z.to_nat i) ds bs) :: post).
Proof.
  intros Hp Ho Hb Hi Hfit s'. pose proof (chain_views _ _ _ (proj1 Hp)) as Hv.
  assert (pt_block (p_payload b) = a) as Hblk.
  { apply Forall_app in Ho as [_ Ho]. apply Forall_cons in Ho as [Ho _]. by apply Ho. }
  assert (mem_frame [a] s s') as Hm by (rewrite <-Hblk; apply mem_frame_write).
  assert (shape (pre ++ (a, bs) :: post) (pre ++ (a, list_inserts (Z.to_nat i) ds bs) :: post)) as Hs.
  { apply Forall2_app; [apply shape_refl|]. constructor; [|apply shape_refl]. simpl. by rewrite length_inserts. }
  split_and!; [done| |done]. eapply packet_reshape; [exact Hp|done|by eapply mem_frame_buf|].
  pose proof (proj1 (proj2 Hp)) as Hnd. rewrite fmap_app in Hnd. simpl in Hnd.
  apply NoDup_app in Hnd as (_ & Hd1 & Hnd). apply NoDup_cons in Hnd as [Hd2 _].
  apply Forall_app in Hv as [Hv1 Hv]. apply Forall_cons in Hv as [Hva Hv2].
  apply Forall_app in Ho as [Ho1 Ho]. apply Forall_cons in Ho as [_ Ho2].
  apply Forall_app. split; [|constructor].
  - eapply views_frame; [done..|]. intros x Hx ->%list_elem_of_singleton. apply (Hd1 a Hx). left.
  - simpl. intros b'. unfold s' at 1. rewrite pm_write_buf. intros Hb'. assert (b' = b) as -> by congruence.
    apply view_write; [by apply Hva|done|done].
  - eapply views_frame; [done..|]. by intros x Hx ->%list_elem_of_singleton.
Qed.

Lemma list_inserts_0_long {A} (data bs C : list A) : (length bs ≤ length data)%nat →
  list_inserts 0 data (bs ++ C) = take (length bs) data ++ list_inserts 0 (drop (length bs) data) C.
Proof.
  intros H. rewrite <-(take_drop (length bs) data) at 1. rewrite list_inserts_app_l.
  rewrite list_inserts_0_r by (rewrite length_take; lia).
  replace (length (take (length bs) data) + 0)%nat with (length (take (length bs) data) + 0)%nat by lia.
  by rewrite list_inserts_app_r.
Qed.

Lemma wp_take_loop fuel s p xs data (Q : unit → pmem → Prop) :
  packet s p xs → own s xs → (length xs < fuel)%nat → (length data ≤ length (contents xs))%nat →
  (∀ s' ys, mem_frame xs.*1 s s' → packet s' p ys → shape xs ys → contents ys = list_inserts 0 data (contents xs) → Q tt s') →
  wp (take_loop fuel p data) s Q.
Proof.
  revert fuel s p data Q. induction xs as [|[a bs] xs IH]; intros fuel s p data Q Hp Ho Hf Hd HQ;
    (destruct fuel as [|fuel]; [simpl in Hf; lia|]); cbn [take_loop].
  { destruct data; [|simpl in Hd; lia]. apply wp_ret. apply (HQ s []); [apply mem_frame_refl|done|constructor|done]. }
  destruct data as [|d data'].
  { apply wp_ret. eapply HQ; [apply mem_frame_refl|done|apply shape_refl|done]. }
  set (data := d :: data') in *. pose proof (packet_cons _ _ _ _ _ Hp) as (-> & Ha & Hni & b & Hb & Hl & _ & Hv & _).
  apply wp_bind, wp_assert; [by apply negb_true_iff, Z.eqb_neq|]. apply wp_bind. eapply wp_pb_load; [done|].
  set (n := Z.to_nat (if p_len b <? Z.of_nat (length data) then p_len b else Z.of_nat (length data))).
  assert (n = (length bs `min` length data)%nat) as Hn by (unfold n; destruct (Z.ltb_spec (p_len b) (Z.of_nat (length data))); lia).
  assert (length (take n data) = n) as Hln by (rewrite length_take; lia).
  destruct (write_middle s a [] a bs xs b 0 (take n data) Hp Ho Hb) as (Hm & Hp1 & Hs1); [lia|lia|].
  replace (p_payload b) with (ptr_add (p_payload b) 0) by (destruct (p_payload b); unfold ptr_add; simpl; f_equal; lia).
  apply wp_bind. eapply wp_mem_store; [exact Hv|lia|lia|]. simpl in Hp1, Hs1.
  set (s1 := pm_write (p_payload b) 0 (take n data) s) in *. set (bs1 := list_inserts 0 (take n data) bs) in *.
  pose proof Hp1 as Hp1'. apply packet_cons in Hp1' as (_ & _ & _ & b1 & Hb1 & _ & _ & _ & Hp1').
  assert (b1 = b) as -> by (rewrite (mem_frame_buf _ _ _ Hm) in Hb1; congruence).
  assert (own s1 ((a, bs1) :: xs)) as Ho1 by (eapply own_buf; [by eapply mem_frame_buf|]; by eapply own_shape).
  rewrite contents_cons, length_app in Hd. apply IH; [done|by apply Forall_cons in Ho1 as [_ ?]|simpl in Hf; lia|rewrite length_drop; lia|].
  intros s' ys Hm' Hp' Hs' Hc. apply (HQ s' ((a, bs1) :: ys)).
  - eapply mem_frame_weaken; [by eapply mem_frame_trans|]. intros k. simpl. set_solver.
  - eapply packet_reshape; [exact Hp1|by constructor|by eapply mem_frame_buf|]. constructor; [|by eapply chain_views, Hp'].
    pose proof (chain_views _ _ _ (proj1 Hp1)) as Hv1. apply Forall_cons in Hv1 as [Hv1 _]. apply Forall_cons in Ho1 as [Ho1 _].
    assert (views s' [(a, bs1)]) as Hva; [|by apply Forall_cons in Hva as [? _]].
    eapply (views_frame _ s1); [by apply Forall_singleton, Hv1|by apply Forall_singleton, Ho1|exact Hm'|]. intros x. simpl. set_solver.
  - inversion Hs1; subst. by constructor.
  - rewrite !contents_cons, Hc. destruct (decide (length bs ≤ length data)%nat) as [Hlong|Hshort].
    + rewrite list_inserts_0_long by lia. replace n with (length bs) by lia. f_equal. unfold bs1.
      replace n with (length bs) by lia. rewrite <-(app_nil_r bs) at 2. rewrite list_inserts_0_r, app_nil_r; [done|].
      rewrite length_take. lia.
    + replace n with (length data) by lia. rewrite drop_all. simpl list_inserts at 1.
      rewrite list_inserts_app_fit by lia. unfold bs1. replace n with (length data) by lia. by rewrite firstn_all.
Qed.

(** The packet at [p] has [data] at [off], and is the same apart from that. *)
Definition written (s : pmem) (p : Z) (xs : list (Z * list Z)) (off : Z) (data : list Z) (s' : pmem) : Prop :=
  ∃ ys, mem_frame xs.*1 s s' ∧ packet s' p ys ∧ shape xs ys ∧
    contents ys = list_inserts (Z.to_nat off) data (contents xs).

Lemma wp_pbuf_take s p xs data (Q : Z → pmem → Prop) :
  packet s p xs → own s xs → xs ≠ [] →
  (if total xs <? Z.of_nat (length data) then Q ERR_MEM s else ∀ s', written s p xs 0 data s' → Q ERR_OK s') →
  wp (pbuf_take p (Some data)) s Q.
Proof.
  intros Hp Ho Hne HQ. destruct xs as [|[a bs] xs]; [done|].
  pose proof (packet_cons _ _ _ _ _ Hp) as (-> & Ha & _ & b & Hb & _ & Ht & _).
  unfold pbuf_take. rewrite (proj2 (Z.eqb_neq _ _) Ha). apply wp_bind. eapply wp_pb_load; [done|]. rewrite Ht.
  case_match eqn:Hlt; [by apply wp_ret|]. apply Z.ltb_ge in Hlt.
  apply wp_bind, wp_gets, wp_bind. eapply wp_take_loop; [done..|by eapply packet_fuel|unfold total in Hlt; lia|].
  intros s' ys ? ? ? ?. apply wp_ret, HQ. by exists ys.
Qed.

Lemma own_suffix s xs ys : own s (xs ++ ys) → own s ys.
Proof. by intros [_ ?]%Forall_app. Qed.

(** A tail that was written makes a packet that was written. *)
Lemma written_tail s s' p q pre post off data :
  packet s p (pre ++ post) → own s (pre ++ post) → 0 ≤ off →
  written s q post off data s' → written s p (pre ++ post) (total pre + off) data s'.
Proof.
  intros Hp Ho Hoff (ys & Hm & Hq & Hs & Hc). exists (pre ++ ys).
  assert (shape (pre ++ post) (pre ++ ys)) as Hs' by (by apply Forall2_app; [apply shape_refl|]).
  pose proof (proj1 (proj2 Hp)) as Hnd. rewrite fmap_app in Hnd. apply NoDup_app in Hnd as (_ & Hd & _).
  split_and!; [| |done|].
  - eapply mem_frame_weaken; [done|]. intros k. rewrite fmap_app. set_solver.
  - eapply packet_reshape; [done..|by eapply mem_frame_buf|]. apply Forall_app. split; [|by eapply chain_views, Hq].
    apply Forall_app in Ho as [Ho _]. pose proof (chain_views _ _ _ (proj1 Hp)) as [Hv _]%Forall_app.
    by eapply views_frame.
  - rewrite !contents_app, Hc. replace (Z.to_nat (total pre + off)) with (length (contents pre) + Z.to_nat off)%nat
      by (unfold total; lia). by rewrite list_inserts_app_r.
Qed.

Lemma wp_pbuf_take_at s p xs data off (Q : Z → pmem → Prop) :
  packet s p xs → own s xs → 0 ≤ off < 2 ^ 16 → Z.of_nat (length data) < 2 ^ 16 →
  (if (off <? total xs) && (off + Z.of_nat (length data) <=? total xs) then ∀ s', written s p xs off data s' → Q ERR_OK s'
   else Q ERR_MEM s) →
  wp (pbuf_take_at p data off) s Q.
Proof.
  intros Hp Ho Hoff Hlen HQ. unfold pbuf_take_at. apply wp_bind. eapply wp_pbuf_skip; [done..|].
  intros q i pre post -> Hq Hpi Hi Hpost. rewrite total_app in HQ. destruct post as [|[a bs] post].
  { destruct Hq as [Hq _]. simpl in Hq. subst q. simpl. apply wp_ret.
    rewrite (proj2 (Z.ltb_ge off _)) in HQ by (unfold total at 2; simpl; lia). done. }
  pose proof (packet_cons _ _ _ _ _ Hq) as (-> & Ha & Hni & b & Hb & Hl & Ht & Hv & Hp').
  pose proof (proj2 (proj2 Hp)) as Hlt. rewrite total_app, total_cons in Hlt.
  pose proof (total_nonneg pre). pose proof (total_nonneg post). rewrite total_cons in HQ.
  rewrite (proj2 (Z.ltb_lt off _)) in HQ by lia. simpl in HQ.
  rewrite (proj2 (Z.eqb_neq _ _) Ha). apply wp_bind. eapply wp_pb_load; [done|]. rewrite Ht, total_cons.
  destruct (Z.leb_spec (i + Z.of_nat (length data)) (Z.of_nat (length bs) + total post)) as [Hfit|Hno].
  2: { apply wp_ret. rewrite (proj2 (Z.leb_gt _ _)) in HQ by lia. done. }
  rewrite (proj2 (Z.leb_le _ _)) in HQ by lia.
  apply wp_bind, wp_assert; [apply Z.ltb_lt; lia|]. set (n := Z.min (p_len b - i) (Z.of_nat (length data))).
  rewrite (u16_small n) by lia. assert (length (take (Z.to_nat n) data) = Z.to_nat n) as Hln by (rewrite length_take; lia).
  pose proof (own_suffix _ _ _ Ho) as Ho'.
  destruct (write_middle s a [] a bs post b i (take (Z.to_nat n) data) Hq Ho' Hb) as (Hm1 & Hp1 & Hs1); [lia|lia|].
  apply wp_bind. eapply wp_mem_store; [exact Hv|lia|lia|]. simpl in Hp1, Hs1.
  set (s1 := pm_write (p_payload b) i (take (Z.to_nat n) data) s) in *.
  rewrite u16_small by lia. rewrite <-Hpi in HQ.
  assert (∀ s', written s a ((a, bs) :: post) i data s' → Q ERR_OK s') as HQ'.
  { intros s' Hw. apply HQ. by eapply written_tail. }
  clear HQ. destruct (Z.ltb_spec 0 (Z.of_nat (length data) - n)) as [Hmore|Hall].
  - pose proof Hp1 as Hp1'. apply packet_cons in Hp1' as (_ & _ & _ & b1 & Hb1 & _ & _ & _ & Hp1').
    assert (b1 = b) as -> by (rewrite (mem_frame_buf _ _ _ Hm1) in Hb1; congruence).
    assert (own s1 post) as Ho1.
    { eapply own_buf; [by eapply mem_frame_buf|]. by apply Forall_cons in Ho' as [_ ?]. }
    eapply wp_pbuf_take; [done|done|intros ->; unfold total in *; simpl in *; lia|].
    rewrite (proj2 (Z.ltb_ge _ _)) by (rewrite length_drop; lia).
    intros s' Hw. apply HQ'.
    eapply (written_tail s1 s' a _ [(a, list_inserts (Z.to_nat i) (take (Z.to_nat n) data) bs)]) in Hw; [|done| |lia].
    2: { eapply own_buf; [by eapply mem_frame_buf|]. by eapply own_shape. }
    destruct Hw as (ys & Hm2 & Hq2 & Hs2 & Hc2). exists ys. split_and!; [|done| |].
    + eapply mem_frame_weaken; [by eapply mem_frame_trans|]. intros k. simpl. set_solver.
    + unfold shape in *. clear -Hs1 Hs2. revert ys Hs2. simpl.
      induction Hs1 as [|x y ? ? [H1 H2] ? IH]; intros ys Hs2; inversion Hs2 as [|? z ? ? [H3 H4] H5]; subst; constructor.
      * split; congruence.
      * by apply IH.
    + rewrite Hc2. cbn [app]. rewrite !contents_cons, total_cons, length_inserts.
      change (total []) with 0. rewrite <-(take_drop (Z.to_nat n) data) at 3.
      rewrite list_inserts_app_l, (list_inserts_app_fit (take _ _)) by lia. f_equal. lia.
  - apply wp_ret, HQ'. exists ((a, list_inserts (Z.to_nat i) data bs) :: post).
    assert (take (Z.to_nat n) data = data) as Hd by (apply take_ge; lia). unfold s1 in *. rewrite Hd in *.
    split_and!; [|done|done|].
    + eapply mem_frame_weaken; [done|]. intros k. simpl. set_solver.
    + rewrite !contents_cons, list_inserts_app_fit; [done|]. lia.
Qed.

Lemma wp_pbuf_put_at s p xs off x (Q : unit → pmem → Prop) :
  packet s p xs → own s xs → 0 ≤ off < 2 ^ 16 →
  (if off <? total xs then ∀ s', written s p xs off [x] s' → Q tt s' else Q tt s) → wp (pbuf_put_at p off x) s Q.
Proof.
  intros Hp Ho Hoff HQ. unfold pbuf_put_at. apply wp_bind. eapply wp_pbuf_skip; [done..|].
  intros q i pre post -> Hq Hpi Hi Hpost. rewrite total_app in HQ. destruct post as [|[a bs] post].
  { destruct Hq as [Hq _]. simpl in Hq. subst q. simpl. apply wp_ret.
    rewrite (proj2 (Z.ltb_ge off _)) in HQ by (unfold total at 2; simpl; lia). done. }
  pose proof (packet_cons _ _ _ _ _ Hq) as (-> & Ha & Hni & b & Hb & Hl & Ht & Hv & _).
  pose proof (total_nonneg post). rewrite total_cons in HQ. rewrite (proj2 (Z.ltb_lt off _)) in HQ by lia.
  rewrite (proj2 (Z.eqb_neq _ _) Ha). apply wp_bind. eapply wp_pb_load; [done|].
  rewrite (proj2 (Z.ltb_lt i _)) by lia. pose proof (own_suffix _ _ _ Ho) as Ho'.
  destruct (write_middle s a [] a bs post b i [x] Hq Ho' Hb) as (Hm1 & Hp1 & Hs1); [lia|simpl; lia|].
  eapply wp_mem_store; [exact Hv|lia|simpl; lia|]. apply HQ. rewrite <-Hpi. eapply written_tail; [done..|].
  exists ((a, list_inserts (Z.to_nat i) [x] bs) :: post). split_and!; [|done|done|].
  - eapply mem_frame_weaken; [done|]. intros k. simpl. set_solver.
  - rewrite !contents_cons, list_inserts_app_fit; [done|]. simpl. lia.
Qed.

Lemma wp_get_contiguous s p xs buffer bufsize len off (Q : contiguous → pmem → Prop) :
  packet s p xs → is_bytes (contents xs) → 0 ≤ off < 2 ^ 16 → 0 ≤ len < 2 ^ 16 →
  match buffer with Some buf => Z.of_nat (length buf) = bufsize | None => True end →
  let d := take (Z.to_nat len) (drop (Z.to_nat off) (contents xs)) in
  Q Nowhere s →
  (∀ q, view s q d → length d = Z.to_nat len → Q (InPbuf q) s) →
  (∀ buf, buffer = Some buf → length d = Z.to_nat len → Q (InBuffer (d ++ drop (length d) buf)) s) →
  wp (pbuf_get_contiguous p buffer bufsize len off) s Q.
Proof.
  intros Hp Hb Ho Hl Hbuf d HQ1 HQ2 HQ3. unfold pbuf_get_contiguous. destruct (p =? 0); [by apply wp_ret|].
  destruct (match buffer with None => false | Some _ => bufsize <? len end) eqn:Hsmall; [by apply wp_ret|].
  apply wp_bind. eapply wp_pbuf_skip; [done..|]. intros q i pre post -> Hq Hpi Hi Hpost.
  destruct post as [|[a bs] post].
  { destruct Hq as [Hq _]. simpl in Hq. subst q. by apply wp_ret. }
  pose proof (packet_cons _ _ _ _ _ Hq) as (-> & Ha & _ & b & Hpb & Hpl & _ & Hv & _).
  rewrite (proj2 (Z.eqb_neq _ _) Ha). simpl. apply wp_bind. eapply wp_pb_load; [done|].
  assert (d = take (Z.to_nat len) (drop (Z.to_nat i) (contents ((a, bs) :: post)))) as Hd
    by (unfold d; by rewrite (drop_contents _ _ i)).
  destruct (Z.leb_spec (i + len) (p_len b)) as [Hfit|Hno].
  - apply wp_ret. rewrite contents_cons, drop_app_le, take_app_le in Hd by (rewrite ?length_drop; lia).
    apply HQ2; [|rewrite Hd, length_take, length_drop; lia].
    destruct (decide (d = [])) as [->|Hdn]; [by left|]. right.
    destruct Hv as [->|(m1 & m2 & Hm & Hoff)]; [by rewrite drop_nil, take_nil in Hd|].
    exists (m1 ++ take (Z.to_nat i) bs), (drop (Z.to_nat len) (drop (Z.to_nat i) bs) ++ m2). split.
    + simpl. rewrite Hm, Hd, <-!app_assoc. do 2 f_equal. by rewrite (app_assoc (take (Z.to_nat len) _)), take_drop, app_assoc, take_drop.
    + simpl. rewrite length_app, length_take. lia.
  - destruct buffer as [buf|]; [|by apply wp_ret]. apply Z.ltb_ge in Hsmall.
    rewrite contents_app in Hb. apply Forall_app in Hb as [_ Hb].
    assert (0 ≤ i < 2 ^ 16) as Hi16. { pose proof (total_nonneg pre). lia. }
    apply wp_bind. eapply wp_copy_partial; [exact Hq|done|done|done|rewrite <-Hd; unfold d; rewrite length_take; lia|].
    rewrite <-Hd. simpl. destruct (Z.eqb_spec (Z.of_nat (length d)) len) as [Heq|Hne]; [|by apply wp_ret].
    apply wp_ret. apply HQ3; [done|lia].
Qed.

(** ** The contents of a packet *)

(** Reading and writing packets.  For a chain with its own memory, whatever pbufs
    its contents are spread over: a byte is that of the contents, or -1; a copy has
    the bytes from the offset on, as many as there are, at the start of the buffer; a
    comparison gives the first byte that differs, a search the first occurrence; data
    is written at its offset, over the borders of pbufs, and nothing else changes, or
    nothing is written when it does not fit; and what was written is read again. *)
Theorem pbuf_contents s p xs :
  packet s p xs → xs ≠ [] → own s xs → is_bytes (contents xs) →
  (∀ off, 0 ≤ off < 2 ^ 16 → pbuf_try_get_at p off s = Some (default (-1) (contents xs !! Z.to_nat off), s)) ∧
  (∀ dst len off, 0 ≤ off < 2 ^ 16 → 0 ≤ len < 2 ^ 16 →
    let d := take (Z.to_nat len) (drop (Z.to_nat off) (contents xs)) in (length d ≤ length dst)%nat →
    pbuf_copy_partial p (Some dst) len off s = Some ((Z.of_nat (length d), d ++ drop (length d) dst), s)) ∧
  (∀ off s2, 0 ≤ off < 2 ^ 16 → pbuf_memcmp p off s2 s = Some (differs (contents xs) s2 off, s)) ∧
  (∀ mem start, (0 < length mem)%nat → 0 ≤ start < 2 ^ 16 →
    ∃ r, pbuf_memfind p mem start s = Some (r, s) ∧ first_occurrence (contents xs) mem start r) ∧
  (∀ data off, 0 ≤ off < 2 ^ 16 → Z.of_nat (length data) < 2 ^ 16 → is_bytes data →
    if (off <? total xs) && (off + Z.of_nat (length data) <=? total xs) then
      ∃ s', pbuf_take_at p data off s = Some (ERR_OK, s') ∧ written s p xs off data s' ∧
        pbuf_copy_partial p (Some data) (Z.of_nat (length data)) off s' = Some ((Z.of_nat (length data), data), s')
    else pbuf_take_at p data off s = Some (ERR_MEM, s)).
Proof.
  intros Hp Hne Ho Hb. split_and!.
  - intros off Hoff. assert (wp (pbuf_try_get_at p off) s (λ r s', r = default (-1) (contents xs !! Z.to_nat off) ∧ s' = s)) as Hw
      by (by eapply wp_try_get_at). by apply wp_run in Hw as (r & s' & -> & -> & ->).
  - intros dst len off Hoff Hlen d Hd.
    assert (wp (pbuf_copy_partial p (Some dst) len off) s (λ r s', r = (Z.of_nat (length d), d ++ drop (length d) dst) ∧ s' = s)) as Hw
      by (by eapply wp_copy_partial). by apply wp_run in Hw as (r & s' & -> & -> & ->).
  - intros off s2 Hoff. assert (wp (pbuf_memcmp p off s2) s (λ r s', r = differs (contents xs) s2 off ∧ s' = s)) as Hw
      by (by eapply wp_memcmp). by apply wp_run in Hw as (r & s' & -> & -> & ->).
  - intros mem start Hm Hs. assert (wp (pbuf_memfind p mem start) s (λ r s', first_occurrence (contents xs) mem start r ∧ s' = s)) as Hw
      by (by eapply wp_memfind). apply wp_run in Hw as (r & s' & -> & Hr & ->). eauto.
  - intros data off Hoff Hlen Hdb. set (fits := (off <? total xs) && (off + Z.of_nat (length data) <=? total xs)).
    assert (wp (pbuf_take_at p data off) s (λ r s', if fits then r = ERR_OK ∧ written s p xs off data s' else r = ERR_MEM ∧ s' = s)) as Hw.
    { eapply wp_pbuf_take_at; [done..|]. fold fits. by destruct fits. }
    apply wp_run in Hw as (r & s' & Hrun & Hres). destruct fits eqn:Hfits; [|by destruct Hres as [-> ->]].
    destruct Hres as [-> Hwr]. exists s'. split_and!; [done|done|]. destruct Hwr as (ys & _ & Hp' & Hs & Hc).
    apply andb_true_iff in Hfits as [_ Hfit%Z.leb_le]. unfold total in Hfit.
    assert (take (length data) (drop (Z.to_nat off) (contents ys)) = data) as Hd.
    { rewrite Hc. rewrite <-(take_drop (Z.to_nat off) (contents xs)).
      assert (Z.to_nat off = length (take (Z.to_nat off) (contents xs)) + 0)%nat as E by (rewrite length_take; lia).
      rewrite E at 2. rewrite list_inserts_app_r. rewrite drop_app_length' by (rewrite length_take; lia).
      rewrite <-(take_drop (length data) (drop _ (contents xs))), list_inserts_0_r by (rewrite length_take, length_drop; lia).
      by rewrite take_app_length. }
    assert (is_bytes (contents ys)) as Hbys.
    { rewrite Hc. apply Forall_inserts; done. }
    assert (wp (pbuf_copy_partial p (Some data) (Z.of_nat (length data)) off) s' (λ r s2, r = (Z.of_nat (length data), data) ∧ s2 = s')) as Hw.
    { eapply wp_copy_partial; [exact Hp'|done|done|lia|rewrite Nat2Z.id, Hd; lia|].
      rewrite Nat2Z.id, Hd, drop_all, app_nil_r. done. }
    by apply wp_run in Hw as (r & s2 & -> & -> & ->).
Qed.

(** Two pbufs of the heap with 3 and 2 bytes. *)
Definition ex_mem : pmem :=
  mk_pmem (list_to_map [(8, mk_pbuf 16 (mk_ptr 8 4) 5 3 128 0 1); (16, mk_pbuf 0 (mk_ptr 16 0) 2 2 128 0 1)])
    (list_to_map [(8, [0; 0; 0; 0; 1; 2; 3]); (16, [4; 5])]) {[8; 16]} [] [] false [].
Definition ex_chain : list (Z * list Z) := [(8, [1; 2; 3]); (16, [4; 5])].

Lemma ex_packet : packet ex_mem 8 ex_chain ∧ own ex_mem ex_chain.
Proof.
  split; [split; [|split]|].
  - unfold ex_chain. cbn [chain]. split; [done|]. split; [done|]. eexists. split; [reflexivity|]. split; [reflexivity|].
    split; [reflexivity|]. split; [right; by exists [0; 0; 0; 0], []|]. split; [done|]. split; [done|].
    eexists. split; [reflexivity|]. split; [reflexivity|]. split; [reflexivity|]. split; [right; by exists [], []|done].
  - apply (bool_decide_unpack _). vm_compute. done.
  - done.
  - unfold ex_chain. repeat constructor; intros b Hb; vm_compute in Hb; by injection Hb as <-.
Qed.

Lemma pbuf_contents_witness :
  pbuf_try_get_at 8 3 ex_mem = Some (4, ex_mem) ∧
  ∃ s', pbuf_take_at 8 [7; 8; 9] 1 ex_mem = Some (ERR_OK, s') ∧ written ex_mem 8 ex_chain 1 [7; 8; 9] s' ∧
    pbuf_copy_partial 8 (Some [7; 8; 9]) 3 1 s' = Some ((3, [7; 8; 9]), s').
Proof.
  assert (is_bytes (contents ex_chain)) as Hb by (repeat constructor; done).
  pose proof (pbuf_contents ex_mem 8 ex_chain (proj1 ex_packet) ltac:(discriminate) (proj2 ex_packet) Hb) as (H1 & _ & _ & _ & H5).
  split; [apply (H1 3); lia|]. apply (H5 [7; 8; 9] 1); [lia|simpl; lia|repeat constructor; done].
Defined.
