(* ===== verification/PbufRefs.v ===== *)
(** * The references of pbufs

    Every pbuf in use counts the pointers to it: the next fields of other pbufs and
    the pointers that the program holds.  The functions of pbuf.c keep the counts
    exact, give each pbuf back to where it came from exactly when its last pointer
    goes, and leave nothing behind when the program holds nothing any more. *)

From S2P Require Import Prelude CString Pbuf PbufProps.

(** ** Releasing a chain *)

Inductive source := SCustom | SPool | SRef | SHeap | SNone.

#[global] Instance source_eq_dec : EqDecision source.
Proof. solve_decision. Defined.

Definition source_of (b : pbuf) : source :=
  if negb (Z.land (p_flags b) PBUF_FLAG_IS_CUSTOM =? 0) then SCustom
  else if pbuf_get_allocsrc b =? PBUF_TYPE_ALLOC_SRC_MASK_STD_MEMP_PBUF_POOL then SPool
  else if pbuf_get_allocsrc b =? PBUF_TYPE_ALLOC_SRC_MASK_STD_MEMP_PBUF then SRef
  else if pbuf_get_allocsrc b =? PBUF_TYPE_ALLOC_SRC_MASK_STD_HEAP then SHeap
  else SNone.

(** The pbuf [a] goes back to its source. *)
Definition give_back (a : Z) (b : pbuf) (s : pmem) : pmem :=
  let s := pm_set_buf (delete a (pm_buf s)) s in
  match source_of b with
  | SCustom => pm_set_custom (a :: pm_custom s) s
  | SPool => pm_set_pool (a :: pm_pool s) s
  | SRef => pm_set_refs (a :: pm_refs s) s
  | SHeap => pm_set_heap (pm_heap s ∖ {[a]}) (pm_set_mem (delete a (pm_mem s)) s)
  | SNone => s
  end.

(** Dropping a pointer to the first pbuf of [l]. *)
Fixpoint release (l : list Z) (s : pmem) : pmem :=
  match l with
  | [] => s
  | a :: l =>
      match pm_buf s !! a with
      | None => s
      | Some b =>
          if p_ref b =? 1 then release l (give_back a b s)
          else pm_set_buf (<[a := p_set_ref (p_ref b - 1) b]> (pm_buf s)) s
      end
  end.

(** How many pbufs that frees. *)
Fixpoint freed (l : list Z) (s : pmem) : nat :=
  match l with
  | [] => 0
  | a :: l => match pm_buf s !! a with Some b => if p_ref b =? 1 then S (freed l s) else 0 | None => 0 end
  end.

Fixpoint addrs (s : pmem) (p : Z) (l : list Z) : Prop :=
  match l with
  | [] => p = 0
  | a :: l => p = a ∧ a ≠ 0 ∧ ∃ b, pm_buf s !! a = Some b ∧ addrs s (p_next b) l
  end.

(** What [pbuf_free] needs of a pbuf. *)
Definition disposable (s : pmem) (a : Z) : Prop :=
  ∀ b, pm_buf s !! a = Some b → 1 ≤ p_ref b < 256 ∧ source_of b ≠ SNone ∧ (source_of b = SHeap → a ∈ pm_heap s).

Lemma give_back_buf a b s : pm_buf (give_back a b s) = delete a (pm_buf s).
Proof. unfold give_back. by destruct (source_of b). Qed.

Lemma give_back_heap a b s x : x ≠ a → x ∈ pm_heap (give_back a b s) ↔ x ∈ pm_heap s.
Proof. intros H. unfold give_back. destruct (source_of b); simpl; set_solver. Qed.

Lemma addrs_ext s s' p l :
  Forall (λ a, p_next <$> pm_buf s' !! a = p_next <$> pm_buf s !! a) l → addrs s p l → addrs s' p l.
Proof.
  intros Hf. revert p. induction Hf as [|a l Ha _ IH]; intros p; simpl; [done|].
  intros (-> & Hn & b & Hb & Hl). split_and!; [done..|]. rewrite Hb in Ha. simpl in Ha.
  apply fmap_Some in Ha as (b' & Hb' & Heq). exists b'. split; [done|]. rewrite <-Heq. by apply IH.
Qed.

Lemma addrs_det s p l l' : addrs s p l → addrs s p l' → l = l'.
Proof.
  revert p l'. induction l as [|a l IH]; intros p [|a' l']; simpl; [done| | |].
  - by intros -> (<- & ? & _).
  - by intros (<- & ? & _) ->.
  - intros (-> & _ & b & Hb & Hl) (<- & _ & b' & Hb' & Hl'). assert (b' = b) as -> by congruence. f_equal. eauto.
Qed.

Lemma addrs_suffix s p l1 a l2 : addrs s p (l1 ++ a :: l2) → addrs s a (a :: l2).
Proof.
  revert p. induction l1 as [|x l1 IH]; intros p; simpl.
  - intros (-> & ? & b & Hb & Hl). split_and!; [done..|]. by exists b.
  - intros (_ & _ & b & _ & Hl). by eapply IH.
Qed.

(** A chain ends, so that no pbuf comes twice. *)
Lemma addrs_nodup s p l : addrs s p l → NoDup l.
Proof.
  intros H. induction l as [|a l IH] in p, H |- *; [constructor|]. destruct H as (-> & Ha & b & Hb & Hl).
  constructor; [|by eapply IH]. intros (l1 & l2 & ->)%list_elem_of_split.
  pose proof (addrs_suffix _ _ _ _ _ Hl) as H1.
  assert (addrs s a (a :: l1 ++ a :: l2)) as H2 by (simpl; split_and!; [done..|]; by exists b).
  pose proof (addrs_det _ _ _ _ H1 H2) as He. apply (f_equal length) in He. simpl in He. rewrite length_app in He. simpl in He. lia.
Qed.

Lemma addrs_dom s p l : addrs s p l → Forall (λ a, is_Some (pm_buf s !! a)) l.
Proof.
  revert p. induction l as [|a l IH]; intros p; simpl; [constructor|]. intros (_ & _ & b & Hb & Hl). constructor; eauto.
Qed.

Lemma addrs_nonzero s p l : addrs s p l → Forall (λ a, a ≠ 0) l.
Proof.
  revert p. induction l as [|a l IH]; intros p; simpl; [constructor|]. intros (_ & ? & b & _ & Hl). constructor; eauto.
Qed.

Lemma wp_give_back s a b (Q : unit → pmem → Prop) :
  a ≠ 0 → source_of b ≠ SNone → (source_of b = SHeap → a ∈ pm_heap s) → pm_buf s !! a = Some (p_set_ref 0 b) →
  Q tt (give_back a b s) →
  wp (pb_remove a;;
      if negb (Z.land (p_flags b) PBUF_FLAG_IS_CUSTOM =? 0) then custom_free_function a
      else if pbuf_get_allocsrc b =? PBUF_TYPE_ALLOC_SRC_MASK_STD_MEMP_PBUF_POOL then memp_free MEMP_PBUF_POOL a
      else if pbuf_get_allocsrc b =? PBUF_TYPE_ALLOC_SRC_MASK_STD_MEMP_PBUF then memp_free MEMP_PBUF a
      else if pbuf_get_allocsrc b =? PBUF_TYPE_ALLOC_SRC_MASK_STD_HEAP then mem_free a
      else ub) s Q.
Proof.
  intros Ha Hs Hh Hb HQ. apply wp_bind. unfold pb_remove. apply wp_modify. unfold give_back in HQ. unfold source_of in *.
  destruct (negb (Z.land _ _ =? 0)); [by apply wp_modify|].
  repeat (destruct (pbuf_get_allocsrc b =? _);
    [first [by unfold memp_free; rewrite (proj2 (Z.eqb_neq _ _) Ha); apply wp_modify
           | unfold wp, mem_free; simpl; rewrite decide_True; [exact HQ|by apply Hh]]|]).
  done.
Qed.

Lemma wp_free_loop fuel s p l count (Q : Z → pmem → Prop) :
  addrs s p l → (length l < fuel)%nat → Forall (disposable s) l →
  Q (if decide (freed l s = 0%nat) then count else u8 (count + Z.of_nat (freed l s))) (release l s) →
  (0 < fuel)%nat → wp (pbuf_free_loop (S fuel) p count) s Q.
Proof.
  revert fuel s p count Q. induction l as [|a l IH]; intros fuel s p count Q Hl Hf Hd HQ _; cbn [pbuf_free_loop].
  { simpl in Hl. subst p. by apply wp_ret. }
  pose proof (addrs_nodup _ _ _ Hl) as Hnd. apply NoDup_cons in Hnd as [Hni Hnd].
  destruct Hl as (-> & Ha & b & Hb & Hl). apply Forall_cons in Hd as [Hda Hd].
  destruct (Hda b Hb) as (Href & Hsrc & Hheap). simpl in HQ. rewrite Hb in HQ.
  rewrite (proj2 (Z.eqb_neq _ _) Ha). apply wp_bind. eapply wp_pb_load; [done|].
  apply wp_bind, wp_assert; [apply Z.ltb_lt; lia|]. apply wp_bind. eapply wp_pb_update; [done|].
  rewrite (u8_small (p_ref b - 1)) by lia.
  destruct (Z.eqb_spec (p_ref b - 1) 0) as [H1|H1].
  - rewrite (proj2 (Z.eqb_eq (p_ref b) 1)) in HQ by lia. rewrite H1.
    set (s1 := pm_set_buf (<[a := p_set_ref 0 b]> (pm_buf s)) s).
    assert (give_back a b s1 = give_back a b s) as Hgb.
    { unfold give_back, s1. destruct (source_of b); simpl; unfold pm_set_buf; simpl; by rewrite delete_insert_eq. }
    match goal with |- wp (pb_remove a ≫= λ _, ?x ≫= λ _, ?k) _ _ =>
      change (wp (pb_remove a;; (x;; k)) s1 Q) end.
    assert (∀ (c1 c2 : stm pmem unit) (k : stm pmem Z) st, wp ((c1;; c2);; k) st Q → wp (c1;; (c2;; k)) st Q) as Hassoc.
    { intros c1 c2 k st. unfold wp, mbind, stm_bind. by destruct (c1 st) as [[[] st']|]. }
    apply Hassoc. apply wp_bind. apply (wp_give_back s1 a b); [done|done|done|by apply lookup_insert_eq|]. rewrite Hgb.
    destruct fuel as [|fuel]; [simpl in Hf; lia|].
    assert (Forall (λ x, pm_buf (give_back a b s) !! x = pm_buf s !! x) l) as Hext.
    { apply Forall_forall. intros x Hx. rewrite give_back_buf, lookup_delete_ne; [done|]. by intros ->. }
    assert (freed l (give_back a b s) = freed l s) as Hfr.
    { clear -Hext. induction Hext as [|x l Hx _ IH]; cbn [freed]; [done|]. rewrite Hx, IH. done. }
    simpl in Hf. destruct l as [|x l'].
    { simpl in Hl. rewrite Hl. cbn [pbuf_free_loop]. apply wp_ret. simpl in HQ. done. }
    apply IH; [eapply addrs_ext; [|done]; eapply Forall_impl; [exact Hext|]; by intros y ->|lia| | |lia].
    + apply Forall_forall. intros y Hy c Hc. eapply Forall_forall in Hext; [|exact Hy].
      eapply Forall_forall in Hd; [|exact Hy]. rewrite Hext in Hc. destruct (Hd c Hc) as (? & ? & Hh). split; [done|]. split; [done|].
      intros Hs'. apply give_back_heap; [by intros ->|]. by apply Hh.
    + rewrite Hfr. rewrite decide_False in HQ by lia. case_decide as Hz.
      * by rewrite Hz in HQ.
      * unfold u8 in *. rewrite Zplus_mod_idemp_l.
        by replace (count + 1 + Z.of_nat (freed (x :: l') s)) with (count + Z.of_nat (S (freed (x :: l') s))) by lia.
  - rewrite (proj2 (Z.eqb_neq (p_ref b) 1)) in HQ by lia. destruct fuel; [simpl in Hf; lia|].
    cbn [pbuf_free_loop]. apply wp_ret. done.
Qed.

Lemma wp_pbuf_free s p l (Q : Z → pmem → Prop) :
  addrs s p l → p ≠ 0 → Forall (disposable s) l →
  Q (u8 (Z.of_nat (freed l s))) (release l s) → wp (pbuf_free p) s Q.
Proof.
  intros Hl Hp Hd HQ. unfold pbuf_free. rewrite (proj2 (Z.eqb_neq _ _) Hp). apply wp_bind, wp_gets.
  eapply wp_free_loop; [done| |done| |].
  - apply addrs_fuel; [by eapply addrs_nodup|by eapply addrs_dom].
  - by case_decide as Hz; [rewrite Hz in HQ|].
  - unfold pb_fuel. lia.
Qed.

(** ** Counting pointers *)

Definition one_if (P : Prop) `{Decision P} : nat := if decide P then 1 else 0.

Lemma one_if_true (P : Prop) `{Decision P} : P → one_if P = 1%nat.
Proof. intros. unfold one_if. by rewrite decide_True. Qed.
Lemma one_if_false (P : Prop) `{Decision P} : ¬ P → one_if P = 0%nat.
Proof. intros. unfold one_if. by rewrite decide_False. Qed.

(** The next fields that point to [a]. *)
Definition links (m : gmap Z pbuf) (a : Z) : nat := size (filter (λ kv, p_next kv.2 = a) m).
(** The pointers to [a] that are held. *)
Definition held (H : list Z) (a : Z) : nat := length (filter (λ x, x = a) H).

Lemma links_insert_None m x b a : m !! x = None → links (<[x := b]> m) a = (one_if (p_next b = a) + links m a)%nat.
Proof.
  intros Hx. unfold links, one_if. case_decide as Hd.
  - rewrite map_filter_insert_True by done. rewrite map_size_insert_None; [done|].
    apply map_lookup_filter_None. by left.
  - rewrite map_filter_insert_False by done. by rewrite delete_id.
Qed.

Lemma links_delete m x b a : m !! x = Some b → links m a = (one_if (p_next b = a) + links (delete x m) a)%nat.
Proof.
  intros Hx. rewrite <-(insert_delete_id _ _ _ Hx) at 1. apply links_insert_None. apply lookup_delete_eq.
Qed.

Lemma links_insert m x b b' a : m !! x = Some b →
  (links (<[x := b']> m) a + one_if (p_next b = a) = links m a + one_if (p_next b' = a))%nat.
Proof.
  intros Hx. rewrite (links_delete m x b a Hx). rewrite <-insert_delete_eq.
  rewrite links_insert_None by apply lookup_delete_eq. lia.
Qed.

Lemma links_same m x b b' a : m !! x = Some b → p_next b' = p_next b → links (<[x := b']> m) a = links m a.
Proof. intros Hx Hn. pose proof (links_insert m x b b' a Hx) as H. rewrite Hn in H. lia. Qed.

Lemma held_cons x H a : held (x :: H) a = (one_if (x = a) + held H a)%nat.
Proof. unfold held, one_if. rewrite filter_cons. by case_decide. Qed.

Lemma held_perm H H' a : H ≡ₚ H' → held H a = held H' a.
Proof. intros HP. unfold held. by rewrite HP. Qed.

Lemma held_elem H a : a ∈ H ↔ (0 < held H a)%nat.
Proof.
  induction H as [|x H IH]; [split; [set_solver|unfold held; simpl; lia]|]. rewrite held_cons, elem_of_cons, IH.
  unfold one_if. case_decide; [subst; split; [lia|by left]|]. split; [intros [->|?]; [done|lia]|right; lia].
Qed.

(** ** The invariant

    [P] and [R] are the elements of the two pools, [H] the pointers that the program
    holds, with repetitions. *)

Record refs_ok (P R : list Z) (s : pmem) (H : list Z) : Prop := {
  ro_ref a b : pm_buf s !! a = Some b → p_ref b = Z.of_nat (links (pm_buf s) a + held H a) ∧ 1 ≤ p_ref b < 256;
  ro_held a : a ∈ H → is_Some (pm_buf s !! a);
  ro_chain a : is_Some (pm_buf s !! a) → ∃ l, addrs s a (a :: l);
  ro_source a b : pm_buf s !! a = Some b → source_of b ≠ SNone;
  ro_pool : NoDup (pm_pool s) ∧ ∀ a, a ∈ P ↔ a ∈ pm_pool s ∨ ∃ b, pm_buf s !! a = Some b ∧ source_of b = SPool;
  ro_refs : NoDup (pm_refs s) ∧ ∀ a, a ∈ R ↔ a ∈ pm_refs s ∨ ∃ b, pm_buf s !! a = Some b ∧ source_of b = SRef;
  ro_free a : a ∈ pm_pool s ∨ a ∈ pm_refs s → pm_buf s !! a = None;
  ro_heap a : a ∈ pm_heap s ↔ ∃ b, pm_buf s !! a = Some b ∧ source_of b = SHeap;
  ro_elems : (∀ a, a ∈ P → a ∈ R → False) ∧ (∀ a, a ∈ P ∨ a ∈ R → a ≠ 0);
}.

Lemma ro_disposable P R s H l p : refs_ok P R s H → addrs s p l → Forall (disposable s) l.
Proof.
  intros Hok Hl. apply Forall_forall. intros a Ha b Hb. split_and!.
  - by apply (ro_ref _ _ _ _ Hok a b Hb).
  - by apply (ro_ref _ _ _ _ Hok a b Hb).
  - by eapply ro_source.
  - intros Hs. apply (ro_heap _ _ _ _ Hok). by exists b.
Qed.

Lemma ro_perm P R s H H' : H ≡ₚ H' → refs_ok P R s H → refs_ok P R s H'.
Proof.
  intros HP [H1 H2 H3 H4 H5 H6 H7 H8 H9]. split; try done.
  - intros a b Hb. rewrite <-(held_perm _ _ _ HP). by apply H1.
  - intros a Ha. apply H2. by rewrite HP.
Qed.

Lemma ro_nonzero P R s H a : refs_ok P R s H → is_Some (pm_buf s !! a) → a ≠ 0.
Proof. intros Hok Ha. by destruct (ro_chain _ _ _ _ Hok a Ha) as (l & _ & ? & _). Qed.

(** The next field of a pbuf is NULL or a pbuf. *)
Lemma ro_next P R s H a b : refs_ok P R s H → pm_buf s !! a = Some b →
  p_next b = 0 ∨ ∃ l, addrs s (p_next b) (p_next b :: l).
Proof.
  intros Hok Hb. destruct (ro_chain _ _ _ _ Hok a) as (l & _ & _ & b' & Hb' & Hl); [eauto|].
  assert (b' = b) as -> by congruence. destruct l as [|x l]; [by left|right]. exists l. by destruct Hl as (-> & Hl).
Qed.

Lemma links_pos m a : (0 < links m a)%nat ↔ ∃ x b, m !! x = Some b ∧ p_next b = a.
Proof.
  unfold links. split.
  - intros H. destruct (map_choose (filter (λ kv, p_next kv.2 = a) m)) as (x & b & Hx).
    { intros He. rewrite He, map_size_empty in H. lia. }
    apply map_lookup_filter_Some in Hx as [Hx Hn]. eauto.
  - intros (x & b & Hx & Hn). apply Nat.neq_0_lt_0. intros He%map_size_empty_inv.
    eapply map_filter_empty_not_lookup in He; [|exact Hn]. by apply He.
Qed.

(** Nothing points to an address without a pbuf. *)
Lemma ro_fresh P R s H a : refs_ok P R s H → pm_buf s !! a = None → a ≠ 0 → links (pm_buf s) a = 0%nat ∧ held H a = 0%nat.
Proof.
  intros Hok Ha Hn. split.
  - apply Nat.le_0_r, Nat.nlt_ge. intros (x & b & Hx & Hb)%links_pos. subst a.
    destruct (ro_next _ _ _ _ _ _ Hok Hx) as [|(l & _ & _ & c & Hc & _)]; [done|]. by rewrite Ha in Hc.
  - apply Nat.le_0_r, Nat.nlt_ge. intros Hh%held_elem. destruct (ro_held _ _ _ _ Hok a Hh) as [b Hb]. by rewrite Ha in Hb.
Qed.

(** A pbuf inside a chain is pointed to. *)
Lemma addrs_linked s x l a : addrs s x (x :: l) → a ∈ l → (0 < links (pm_buf s) a)%nat.
Proof.
  revert x. induction l as [|y l IH]; intros x; [by intros _ ?%not_elem_of_nil|].
  intros (_ & _ & b & Hb & Hl) Ha. pose proof Hl as (Hy & _). apply elem_of_cons in Ha as [->|Ha].
  - apply links_pos. eauto.
  - subst y. by eapply IH.
Qed.

(** ** Changes of one pbuf *)

Lemma ro_change P R s H H' a b b' :
  refs_ok P R s H → pm_buf s !! a = Some b → source_of b' = source_of b → 1 ≤ p_ref b' < 256 →
  let s' := pm_set_buf (<[a := b']> (pm_buf s)) s in
  p_ref b' = Z.of_nat (links (pm_buf s') a + held H' a) →
  (∀ x, x ≠ a → is_Some (pm_buf s !! x) → (links (pm_buf s') x + held H' x = links (pm_buf s) x + held H x)%nat) →
  (∀ x, x ∈ H' → is_Some (pm_buf s !! x)) →
  (∀ x, is_Some (pm_buf s !! x) → ∃ l, addrs s' x (x :: l)) →
  refs_ok P R s' H'.
Proof.
  intros [H1 H2 H3 H4 [H5 H5'] [H6 H6'] H7 H8 H9] Hb Hsrc Hr s' Ha Hx Hh Hc.
  assert (∀ x, is_Some (pm_buf s' !! x) ↔ is_Some (pm_buf s !! x)) as Hdom.
  { intros x. unfold s'. simpl. destruct (decide (x = a)) as [->|]; [rewrite lookup_insert_eq, Hb; naive_solver|].
    by rewrite lookup_insert_ne. }
  assert (∀ x k, (∃ c, pm_buf s' !! x = Some c ∧ source_of c = k) ↔ (∃ c, pm_buf s !! x = Some c ∧ source_of c = k)) as Hk.
  { intros x k. unfold s'. simpl. destruct (decide (x = a)) as [->|]; [rewrite lookup_insert_eq, Hb|by rewrite lookup_insert_ne].
    split; intros (c & [= <-] & Hc'); eexists; split; try done; congruence. }
  split.
  - intros x c Hxc. destruct (decide (x = a)) as [->|Hne].
    + unfold s' in Hxc. simpl in Hxc. rewrite lookup_insert_eq in Hxc. simplify_eq. done.
    + assert (pm_buf s !! x = Some c) as Hxc' by (unfold s' in Hxc; simpl in Hxc; by rewrite lookup_insert_ne in Hxc).
      destruct (H1 x c Hxc') as [He Hb']. split; [|done]. rewrite He. f_equal. symmetry. apply Hx; eauto.
  - intros x Hx'. apply Hdom. auto.
  - intros x Hx'. apply Hc. by apply Hdom.
  - intros x c Hxc. destruct (proj1 (Hk x (source_of c))) as (c' & Hc' & <-); [eauto|]. by eapply H4.
  - split; [done|]. intros x. rewrite Hk. apply H5'.
  - split; [done|]. intros x. rewrite Hk. apply H6'.
  - intros x Hx'. specialize (H7 x Hx'). apply eq_None_not_Some. rewrite Hdom. by rewrite H7; intros [? ?].
  - intros x. rewrite Hk. apply H8.
  - done.
Qed.

(** Other fields. *)
Lemma ro_fields P R s H a b b' :
  refs_ok P R s H → pm_buf s !! a = Some b → source_of b' = source_of b → p_ref b' = p_ref b → p_next b' = p_next b →
  refs_ok P R (pm_set_buf (<[a := b']> (pm_buf s)) s) H.
Proof.
  intros Hok Hb Hsrc Hr Hn. destruct (ro_ref _ _ _ _ Hok a b Hb) as [He Hbd].
  eapply ro_change; [done..|rewrite Hr; done| | |intros x Hx; by eapply ro_held|].
  - simpl. rewrite (links_same _ _ b) by done. by rewrite Hr.
  - intros x _ _. simpl. by rewrite (links_same _ _ b).
  - intros x Hx. destruct (ro_chain _ _ _ _ Hok x Hx) as [l Hl]. exists l. eapply addrs_ext; [|done].
    apply Forall_forall. intros y _. simpl. destruct (decide (y = a)) as [->|]; [by rewrite lookup_insert_eq, Hb; simpl; rewrite Hn|].
    by rewrite lookup_insert_ne.
Qed.

(** One more pointer is held, and counted. *)
Lemma ro_take P R s H a b :
  refs_ok P R s H → pm_buf s !! a = Some b → p_ref b < 255 →
  refs_ok P R (pm_set_buf (<[a := p_set_ref (p_ref b + 1) b]> (pm_buf s)) s) (a :: H).
Proof.
  intros Hok Hb Hlt. destruct (ro_ref _ _ _ _ Hok a b Hb) as [He Hbd].
  eapply ro_change; [done..|simpl; lia| | | |].
  - simpl. rewrite (links_same _ _ b), held_cons, one_if_true by done. lia.
  - intros x Hx _. simpl. rewrite (links_same _ _ b), held_cons, one_if_false by done. lia.
  - intros x [->|Hx]%elem_of_cons; [eauto|]. by eapply ro_held.
  - intros x Hx. destruct (ro_chain _ _ _ _ Hok x Hx) as [l Hl]. exists l. eapply addrs_ext; [|done].
    apply Forall_forall. intros y _. simpl. destruct (decide (y = a)) as [->|]; [by rewrite lookup_insert_eq, Hb|].
    by rewrite lookup_insert_ne.
Qed.

(** One that is held less. *)
Lemma ro_drop P R s H a b :
  refs_ok P R s (a :: H) → pm_buf s !! a = Some b → p_ref b ≠ 1 →
  refs_ok P R (pm_set_buf (<[a := p_set_ref (p_ref b - 1) b]> (pm_buf s)) s) H.
Proof.
  intros Hok Hb Hlt. destruct (ro_ref _ _ _ _ Hok a b Hb) as [He Hbd]. rewrite held_cons, one_if_true in He by done.
  eapply ro_change; [done..|simpl; lia| | | |].
  - simpl. rewrite (links_same _ _ b) by done. lia.
  - intros x Hx _. simpl. rewrite (links_same _ _ b), held_cons, one_if_false by done. lia.
  - intros x Hx. eapply ro_held; [done|]. by right.
  - intros x Hx. destruct (ro_chain _ _ _ _ Hok x Hx) as [l Hl]. exists l. eapply addrs_ext; [|done].
    apply Forall_forall. intros y _. simpl. destruct (decide (y = a)) as [->|]; [by rewrite lookup_insert_eq, Hb|].
    by rewrite lookup_insert_ne.
Qed.

(** A chain before and after the next field of [a] has changed. *)
Lemma addrs_insert_ne s p l a b' : a ∉ l → addrs s p l → addrs (pm_set_buf (<[a := b']> (pm_buf s)) s) p l.
Proof.
  intros Ha. apply addrs_ext, Forall_forall. intros y Hy. simpl. rewrite lookup_insert_ne; [done|]. by intros ->.
Qed.

Lemma addrs_cut s p l1 a l2 b' l3 :
  addrs s p (l1 ++ a :: l2) →
  addrs (pm_set_buf (<[a := b']> (pm_buf s)) s) (p_next b') l3 →
  addrs (pm_set_buf (<[a := b']> (pm_buf s)) s) p (l1 ++ a :: l3).
Proof.
  intros Hl Hl3. pose proof (addrs_nodup _ _ _ Hl) as Hnd. apply NoDup_app in Hnd as (_ & Hd & _).
  revert p Hl. induction l1 as [|x l1 IH]; intros p; simpl.
  - intros (-> & Ha & _). split_and!; [done..|]. exists b'. by rewrite lookup_insert_eq.
  - intros (-> & Hx & b & Hb & Hl). split_and!; [done..|]. exists b.
    rewrite lookup_insert_ne by (intros ->; eapply (Hd x); [left|left]). split; [done|]. apply IH; [|done].
    intros y Hy. apply Hd. by right.
Qed.

(** A held pointer becomes the next field of the last pbuf [a] of a chain. *)
Lemma ro_link P R s H a b b' t l :
  refs_ok P R s (t :: H) → pm_buf s !! a = Some b → p_next b = 0 → addrs s t l → a ∉ l → t ≠ 0 →
  source_of b' = source_of b → p_ref b' = p_ref b → p_next b' = t →
  refs_ok P R (pm_set_buf (<[a := b']> (pm_buf s)) s) H.
Proof.
  intros Hok Hb Hn Hl Hal Ht Hsrc Hr Hn'. destruct (ro_ref _ _ _ _ Hok a b Hb) as [He Hbd].
  assert (t ≠ a) as Hta. { intros ->. apply Hal. destruct l; [done|]. destruct Hl as (-> & _). left. }
  assert (∀ x : Z, x ≠ 0 → (links (<[a := b']> (pm_buf s)) x = links (pm_buf s) x + one_if (t = x))%nat) as Hlk.
  { intros x Hx. pose proof (links_insert _ a b b' x Hb) as Hi. rewrite Hn, Hn', (one_if_false (0 = x)) in Hi by done. lia. }
  rewrite held_cons, one_if_false in He by done.
  eapply ro_change; [done..|rewrite Hr; done| | | |].
  - simpl. rewrite Hlk, one_if_false by (done || by eapply (ro_nonzero _ _ _ _ _ Hok); eauto). rewrite Hr, He. lia.
  - intros x Hx Hsx. simpl. rewrite Hlk, held_cons by (by eapply (ro_nonzero _ _ _ _ _ Hok)). lia.
  - intros x Hx. eapply ro_held; [done|]. by right.
  - intros x Hx. destruct (ro_chain _ _ _ _ Hok x Hx) as [lx Hlx].
    destruct (decide (a ∈ x :: lx)) as [Hin|Hnin]; [|exists lx; by apply addrs_insert_ne].
    apply list_elem_of_split in Hin as (l1 & l2 & Heq). rewrite Heq in Hlx.
    assert (addrs (pm_set_buf (<[a := b']> (pm_buf s)) s) x (l1 ++ a :: l)) as Hnew.
    { eapply addrs_cut; [done|]. rewrite Hn'. by apply addrs_insert_ne. }
    destruct l1 as [|y l1]; simpl in Heq; injection Heq as -> _; [by exists l|by exists (l1 ++ a :: l)].
Qed.

(** The next field of [a] is cut off and becomes a held pointer. *)
Lemma ro_unlink P R s H a b b' :
  refs_ok P R s H → pm_buf s !! a = Some b → p_next b ≠ 0 →
  source_of b' = source_of b → p_ref b' = p_ref b → p_next b' = 0 →
  refs_ok P R (pm_set_buf (<[a := b']> (pm_buf s)) s) (p_next b :: H).
Proof.
  intros Hok Hb Hn Hsrc Hr Hn'. destruct (ro_ref _ _ _ _ Hok a b Hb) as [He Hbd].
  assert (∀ x : Z, x ≠ 0 → (links (<[a := b']> (pm_buf s)) x + one_if (p_next b = x) = links (pm_buf s) x)%nat) as Hlk.
  { intros x Hx. pose proof (links_insert _ a b b' x Hb) as Hi. rewrite Hn', (one_if_false (0 = x)) in Hi by done. lia. }
  eapply ro_change; [done..|rewrite Hr; done| | | |].
  - simpl. rewrite held_cons. specialize (Hlk a ltac:(by eapply (ro_nonzero _ _ _ _ _ Hok); eauto)). rewrite Hr, He. lia.
  - intros x Hx Hsx. simpl. rewrite held_cons. specialize (Hlk x ltac:(by eapply (ro_nonzero _ _ _ _ _ Hok))). lia.
  - intros x [->|Hx]%elem_of_cons; [|by eapply ro_held].
    destruct (ro_next _ _ _ _ _ _ Hok Hb) as [|(l & _ & _ & c & Hc & _)]; [done|eauto].
  - intros x Hx. destruct (ro_chain _ _ _ _ Hok x Hx) as [lx Hlx].
    destruct (decide (a ∈ x :: lx)) as [Hin|Hnin]; [|exists lx; by apply addrs_insert_ne].
    apply list_elem_of_split in Hin as (l1 & l2 & Heq). rewrite Heq in Hlx.
    assert (addrs (pm_set_buf (<[a := b']> (pm_buf s)) s) x (l1 ++ [a])) as Hnew by (eapply addrs_cut; [done|by simpl]).
    destruct l1 as [|y l1]; simpl in Heq; injection Heq as -> _; [by exists []|by exists (l1 ++ [a])].
Qed.

(** ** Releasing keeps the counts *)

(** What [give_back] adds to the pools and takes from the heap. *)
Lemma give_back_pools a b s :
  pm_pool (give_back a b s) = (if decide (source_of b = SPool) then [a] else []) ++ pm_pool s ∧
  pm_refs (give_back a b s) = (if decide (source_of b = SRef) then [a] else []) ++ pm_refs s ∧
  pm_heap (give_back a b s) = pm_heap s ∖ (if decide (source_of b = SHeap) then {[a]} else ∅).
Proof. unfold give_back. destruct (source_of b); simpl; split_and!; try done; by rewrite difference_empty_L. Qed.

Definition next_held (b : pbuf) (H : list Z) : list Z := if decide (p_next b = 0) then H else p_next b :: H.

(** A set of elements, free or in use, of which one is given back. *)
Lemma give_back_elems (F F' : list Z) (U : list Z) (k : source) a b (m : gmap Z pbuf) :
  m !! a = Some b → NoDup F → (∀ x, x ∈ U ↔ x ∈ F ∨ ∃ c, m !! x = Some c ∧ source_of c = k) → (a ∈ F → False) →
  F' = (if decide (source_of b = k) then [a] else []) ++ F →
  NoDup F' ∧ ∀ x, x ∈ U ↔ x ∈ F' ∨ ∃ c, delete a m !! x = Some c ∧ source_of c = k.
Proof.
  intros Ha Hnd HU Hf ->. split; [case_decide; [by constructor|done]|]. intros x. rewrite HU, elem_of_app.
  destruct (decide (x = a)) as [->|Hne].
  - rewrite Ha, lookup_delete_eq. case_decide as Hk; [|].
    + split; [intros _; left; left; by left|]. intros _. right. eauto.
    + split; [intros [?|(c & [= <-] & ?)]; [tauto|done]|]. intros [[?%not_elem_of_nil|?]|(c & ? & _)]; [done|tauto|done].
  - rewrite lookup_delete_ne by done. split; [intros [?|?]; [left; by right|by right]|].
    intros [[Hx|?]|?]; [|by left|by right]. case_decide; [apply list_elem_of_singleton in Hx; done|by apply not_elem_of_nil in Hx].
Qed.

Lemma ro_give_back P R s H a b :
  refs_ok P R s (a :: H) → pm_buf s !! a = Some b → p_ref b = 1 → refs_ok P R (give_back a b s) (next_held b H).
Proof.
  intros Hok Hb H1. destruct (ro_ref _ _ _ _ Hok a b Hb) as [He _]. rewrite held_cons, one_if_true in He by done.
  assert (links (pm_buf s) a = 0%nat ∧ held H a = 0%nat) as [Hla Hha] by lia.
  assert (∀ x, x ∈ H → x ≠ a) as HnH. { intros x Hx ->. apply held_elem in Hx. lia. }
  assert (∀ x, is_Some (pm_buf s !! x) → (links (delete a (pm_buf s)) x + held (next_held b H) x = links (pm_buf s) x + held H x)%nat) as Hsum.
  { intros x Hx. rewrite (links_delete _ a b x Hb). pose proof (ro_nonzero _ _ _ _ _ Hok Hx) as Hx0.
    unfold next_held. case_decide as Hn0; [rewrite one_if_false by congruence; lia|rewrite held_cons; lia]. }
  assert (p_next b = 0 ∨ p_next b ≠ a ∧ is_Some (pm_buf s !! p_next b)) as Hnext.
  { destruct (ro_next _ _ _ _ _ _ Hok Hb) as [|(l & _ & _ & c & Hc & _)]; [by left|right]. split; [|eauto].
    intros Heq. assert (0 < links (pm_buf s) a)%nat by (apply links_pos; eauto). lia. }
  destruct (give_back_pools a b s) as (Hpool & Hrefs & Hheap). pose proof (give_back_buf a b s) as Hbuf.
  destruct Hok as [K1 K2 K3 K4 [K5 K5'] [K6 K6'] K7 K8 K9]. split.
  - intros x c. rewrite Hbuf. intros (Hx & Hxc)%lookup_delete_Some. destruct (K1 x c Hxc) as [Hr Hbd]. split; [|done].
    rewrite Hr, Hsum by eauto. rewrite held_cons, one_if_false by done. done.
  - intros x Hx. rewrite Hbuf. unfold next_held in Hx. destruct Hnext as [Hz|[Hna Hs]].
    + rewrite decide_True in Hx by done. rewrite lookup_delete_ne by (intros ->; by eapply HnH). apply K2. by right.
    + case_decide as Hz; [|apply elem_of_cons in Hx as [->|Hx]; [by rewrite lookup_delete_ne|]];
        (rewrite lookup_delete_ne by (intros ->; by eapply HnH); apply K2; by right).
  - intros x. rewrite Hbuf. intros [c (Hx & Hxc)%lookup_delete_Some]. destruct (K3 x) as [l Hl]; [eauto|]. exists l.
    eapply addrs_ext; [|done]. apply Forall_forall. intros y Hy. rewrite Hbuf.
    rewrite lookup_delete_ne; [done|]. intros <-. apply elem_of_cons in Hy as [->|Hy]; [done|].
    pose proof (addrs_linked _ _ _ _ Hl Hy). lia.
  - intros x c. rewrite Hbuf. intros (Hx & Hxc)%lookup_delete_Some. by eapply K4.
  - rewrite Hbuf. apply (give_back_elems (pm_pool s) _ _ SPool a b); [done..| |done]. intros Hf. by rewrite K7 in Hb by (by left).
  - rewrite Hbuf. apply (give_back_elems (pm_refs s) _ _ SRef a b); [done..| |done]. intros Hf. by rewrite K7 in Hb by (by right).
  - intros x. rewrite Hbuf, Hpool, Hrefs, !elem_of_app, lookup_delete_None. destruct (decide (a = x)) as [|Hne]; [by left|].
    intros Hx. right. apply K7. destruct Hx as [[Hx|Hx]|[Hx|Hx]]; try tauto;
      (case_decide; [apply list_elem_of_singleton in Hx; by subst|by apply not_elem_of_nil in Hx]).
  - intros x. rewrite Hheap, Hbuf, elem_of_difference, K8. destruct (decide (x = a)) as [->|Hne].
    + rewrite Hb, lookup_delete_eq. split; [|by intros (? & ? & _)]. intros [(c & [= <-] & Hk) Hn].
      rewrite decide_True in Hn by done. set_solver.
    + rewrite lookup_delete_ne by done. split; [tauto|]. intros Hx. split; [done|]. case_decide; set_solver.
  - done.
Qed.

Lemma ro_release P R s H p l : refs_ok P R s (p :: H) → addrs s p l → refs_ok P R (release l s) H.
Proof.
  revert s H p. induction l as [|a l IH]; intros s H p Hok Hl.
  { simpl in Hl. subst p. destruct (ro_held _ _ _ _ Hok 0) as [b Hb]; [left|].
    pose proof (ro_nonzero _ _ _ _ _ Hok (mk_is_Some _ _ Hb)). done. }
  pose proof (addrs_nodup _ _ _ Hl) as [Hni _]%NoDup_cons.
  destruct Hl as (-> & Ha & b & Hb & Hl). simpl. rewrite Hb.
  destruct (Z.eqb_spec (p_ref b) 1) as [H1|H1]; [|by apply ro_drop].
  pose proof (ro_give_back _ _ _ _ _ _ Hok Hb H1) as Hok'. unfold next_held in Hok'.
  destruct l as [|x l].
  - simpl in Hl. rewrite decide_True in Hok' by done. done.
  - rewrite decide_False in Hok' by (destruct Hl as (-> & ? & _); done). eapply IH; [exact Hok'|].
    eapply addrs_ext; [|done]. apply Forall_forall. intros y Hy. rewrite give_back_buf, lookup_delete_ne; [done|]. by intros ->.
Qed.

(** [pbuf_free] of a held pointer. *)
Lemma ro_free_ok P R s H p : refs_ok P R s (p :: H) →
  ∃ l n, addrs s p l ∧ pbuf_free p s = Some (n, release l s) ∧ refs_ok P R (release l s) H.
Proof.
  intros Hok. destruct (ro_held _ _ _ _ Hok p) as [b Hb]; [left|].
  destruct (ro_chain _ _ _ _ Hok p) as [l Hl]; [eauto|]. exists (p :: l).
  assert (p ≠ 0) as Hp by (by eapply ro_nonzero; eauto).
  assert (wp (pbuf_free p) s (λ _ s', s' = release (p :: l) s)) as Hw.
  { eapply wp_pbuf_free; [done|done|by eapply ro_disposable|done]. }
  apply wp_run in Hw as (n & s' & Hrun & ->). exists n. split_and!; [done|done|by eapply ro_release].
Qed.

(** ** Allocation keeps the counts *)

(** Where the memory of a new pbuf comes from. *)
Definition taken (P R : list Z) (k : source) (a : Z) (s s' : pmem) : Prop :=
  match k with
  | SPool => pm_pool s = a :: pm_pool s' ∧ pm_refs s' = pm_refs s ∧ pm_heap s' = pm_heap s
  | SRef => pm_refs s = a :: pm_refs s' ∧ pm_pool s' = pm_pool s ∧ pm_heap s' = pm_heap s
  | SHeap => a ∉ P ∧ a ∉ R ∧ pm_heap s' = {[a]} ∪ pm_heap s ∧ pm_pool s' = pm_pool s ∧ pm_refs s' = pm_refs s
  | SCustom => a ∉ P ∧ a ∉ R ∧ pm_heap s' = pm_heap s ∧ pm_pool s' = pm_pool s ∧ pm_refs s' = pm_refs s
  | SNone => False
  end.

(** A set of elements of which one is taken, or none. *)
Lemma take_elems (F F' U : list Z) (k : source) a b (m : gmap Z pbuf) :
  m !! a = None → NoDup F → (∀ x, x ∈ U ↔ x ∈ F ∨ ∃ c, m !! x = Some c ∧ source_of c = k) →
  source_of b = k ∧ F = a :: F' ∨ source_of b ≠ k ∧ a ∉ U ∧ F' = F →
  NoDup F' ∧ (∀ x, x ∈ U ↔ x ∈ F' ∨ ∃ c, <[a := b]> m !! x = Some c ∧ source_of c = k) ∧
  (∀ x, x ∈ F' → x ≠ a ∧ x ∈ F).
Proof.
  intros Ha Hnd HU [[Hk ->]|(Hk & HaU & ->)].
  - apply NoDup_cons in Hnd as [Hni Hnd]. split_and!; [done| |].
    + intros x. rewrite HU, elem_of_cons. destruct (decide (x = a)) as [->|Hne].
      * rewrite lookup_insert_eq. split; [intros _; right; eauto|by left; left].
      * rewrite lookup_insert_ne by done. naive_solver.
    + intros x Hx. split; [by intros ->|by right].
  - split_and!; [done| |].
    + intros x. rewrite HU. destruct (decide (x = a)) as [->|Hne]; [|by rewrite lookup_insert_ne].
      rewrite lookup_insert_eq, Ha. split; [|intros [?|(c & [= <-] & ?)]; [by left|done]].
      intros [?|(c & ? & _)]; [by left|done].
    + intros x Hx. split; [|done]. intros ->. apply HaU, HU. by left.
Qed.

Lemma ro_new P R s s' H a b k :
  refs_ok P R s H → pm_buf s !! a = None → a ≠ 0 → pm_buf s' = <[a := b]> (pm_buf s) →
  p_next b = 0 → p_ref b = 1 → source_of b = k → taken P R k a s s' → refs_ok P R s' (a :: H).
Proof.
  intros Hok Ha Ha0 Hbuf Hn Hr Hk Ht. destruct (ro_fresh _ _ _ _ _ Hok Ha Ha0) as [Hl Hh].
  assert (∀ x : Z, x ≠ 0 → links (pm_buf s') x = links (pm_buf s) x) as Hlk.
  { intros x Hx. rewrite Hbuf, links_insert_None, one_if_false by congruence. done. }
  destruct Hok as [K1 K2 K3 K4 [K5 K5'] [K6 K6'] K7 K8 [K9 K10]].
  assert (NoDup (pm_pool s') ∧ (∀ x, x ∈ P ↔ x ∈ pm_pool s' ∨ ∃ c, <[a := b]> (pm_buf s) !! x = Some c ∧ source_of c = SPool) ∧
    (∀ x, x ∈ pm_pool s' → x ≠ a ∧ x ∈ pm_pool s)) as (L5 & L5' & L5'').
  { apply (take_elems (pm_pool s) _ _ SPool a b); [done..|]. rewrite Hk. unfold taken in Ht.
    destruct k; [right; naive_solver|left; naive_solver| |right; naive_solver|done].
    destruct Ht as (Hrf & -> & _). right. split_and!; [done| |done]. intros HP. apply (K9 a HP), K6'. left. rewrite Hrf. left. }
  assert (NoDup (pm_refs s') ∧ (∀ x, x ∈ R ↔ x ∈ pm_refs s' ∨ ∃ c, <[a := b]> (pm_buf s) !! x = Some c ∧ source_of c = SRef) ∧
    (∀ x, x ∈ pm_refs s' → x ≠ a ∧ x ∈ pm_refs s)) as (L6 & L6' & L6'').
  { apply (take_elems (pm_refs s) _ _ SRef a b); [done..|]. rewrite Hk. unfold taken in Ht.
    destruct k; [right; naive_solver| |left; naive_solver|right; naive_solver|done].
    destruct Ht as (Hpl & -> & _). right. split_and!; [done| |done]. intros HR. apply (K9 a); [|done]. apply K5'. left. rewrite Hpl. left. }
  split.
  - intros x c. rewrite Hbuf. intros [[<- <-]|[Hx Hc]]%lookup_insert_Some.
    + rewrite <-Hbuf, Hlk, held_cons, one_if_true, Hl, Hh, Hr by done. done.
    + destruct (K1 x c Hc) as [He Hb]. split; [|done]. rewrite <-Hbuf, Hlk, held_cons, one_if_false by (done || destruct (K3 x) as (? & _ & ? & _); eauto). done.
  - intros x Hx. rewrite Hbuf. destruct (decide (x = a)) as [->|]; [rewrite lookup_insert_eq; eauto|].
    rewrite lookup_insert_ne by done. apply K2. by apply elem_of_cons in Hx as [->|?].
  - intros x. rewrite Hbuf. intros [c [[<- <-]|[Hx Hc]]%lookup_insert_Some].
    + exists []. simpl. split_and!; [done..|]. exists b. rewrite Hbuf, lookup_insert_eq. done.
    + destruct (K3 x) as [l Hl']; [eauto|]. exists l. eapply addrs_ext; [|done]. apply Forall_forall. intros y Hy.
      rewrite Hbuf, lookup_insert_ne; [done|]. intros <-. pose proof (addrs_dom _ _ _ Hl') as Hd.
      eapply Forall_forall in Hd as [? Hd]; [|exact Hy]. by rewrite Ha in Hd.
  - intros x c. rewrite Hbuf. intros [[<- <-]|[Hx Hc]]%lookup_insert_Some; [|by eapply K4].
    rewrite Hk. by destruct k.
  - rewrite Hbuf. done.
  - rewrite Hbuf. done.
  - intros x Hx. rewrite Hbuf. assert (x ≠ a ∧ (x ∈ pm_pool s ∨ x ∈ pm_refs s)) as [Hne Hx'].
    { destruct Hx as [Hx|Hx]; [apply L5'' in Hx|apply L6'' in Hx]; tauto. }
    rewrite lookup_insert_ne by done. by apply K7.
  - intros x. rewrite Hbuf. assert (a ∉ pm_heap s) as Hnh. { rewrite K8, Ha. by intros (? & ? & _). }
    assert (x ∈ pm_heap s' ↔ x ∈ pm_heap s ∨ x = a ∧ k = SHeap) as ->.
    { unfold taken in Ht. destruct k; try done; destruct_and?; repeat match goal with E : pm_heap s' = _ |- _ => rewrite E; clear E end; set_solver. }
    rewrite K8. destruct (decide (x = a)) as [->|Hne].
    + rewrite lookup_insert_eq, Ha. split; [intros [(? & ? & _)|[_ ?]]; [done|exists b; split; congruence]|].
      intros (c & [= <-] & ?). right. split; congruence.
    + rewrite lookup_insert_ne by done. naive_solver.
  - done.
Qed.

(** ** The functions keep the counts

    Partial correctness: what holds if a function returns. *)

Definition wlp {S A} (c : stm S A) (s : S) (Q : A → S → Prop) : Prop := ∀ a s', c s = Some (a, s') → Q a s'.

Lemma wlp_bind {S A B} (c : stm S A) (f : A → stm S B) s Q : wlp c s (λ a s', wlp (f a) s' Q) → wlp (c ≫= f) s Q.
Proof. unfold wlp, mbind, stm_bind. intros H b s'. destruct (c s) as [[a s1]|] eqn:Hc; [|done]. by apply H. Qed.
Lemma wlp_ret {S A} (a : A) (s : S) (Q : A → S → Prop) : Q a s → wlp (mret a) s Q.
Proof. intros H b s'. unfold mret, stm_ret. by intros [= <- <-]. Qed.
Lemma wlp_modify {S} (f : S → S) s (Q : unit → S → Prop) : Q tt (f s) → wlp (modify f) s Q.
Proof. intros H a s'. unfold modify. by intros [= <- <-]. Qed.
Lemma wlp_gets {S A} (f : S → A) s (Q : A → S → Prop) : Q (f s) s → wlp (gets f) s Q.
Proof. intros H a s'. unfold gets. by intros [= <- <-]. Qed.
Lemma wlp_ub {S A} s (Q : A → S → Prop) : wlp ub s Q.
Proof. done. Qed.
Lemma wlp_mono {S A} (c : stm S A) s (Q Q' : A → S → Prop) : wlp c s Q → (∀ a s', Q a s' → Q' a s') → wlp c s Q'.
Proof. unfold wlp. eauto. Qed.
Lemma wlp_load a s (Q : pbuf → pmem → Prop) : (∀ b, pm_buf s !! a = Some b → Q b s) → wlp (pb_load a) s Q.
Proof. intros H b s'. unfold pb_load. destruct (pm_buf s !! a) eqn:Hb; [|done]. intros [= <- <-]. auto. Qed.
Lemma wlp_update a f s (Q : unit → pmem → Prop) :
  (∀ b, pm_buf s !! a = Some b → Q tt (pm_set_buf (<[a := f b]> (pm_buf s)) s)) → wlp (pb_update a f) s Q.
Proof. intros H b s'. unfold pb_update. destruct (pm_buf s !! a) eqn:Hb; [|done]. intros [= <- <-]. auto. Qed.
Lemma wlp_assert b s (Q : unit → pmem → Prop) : (b = true → Q tt s) → wlp (lwip_assert b) s Q.
Proof. destruct b; intros H; [apply wlp_ret; auto|apply wlp_ub]. Qed.

Ltac wlp_step :=
  first [apply wlp_bind | apply wlp_gets | apply wlp_modify | apply wlp_ub
    | apply wlp_load; intros ? ? | apply wlp_update; intros ? ? | apply wlp_assert; intros ? | apply wlp_ret].

Lemma ro_same P R s s' H :
  refs_ok P R s H → pm_buf s' = pm_buf s → pm_pool s' = pm_pool s → pm_refs s' = pm_refs s → pm_heap s' = pm_heap s →
  refs_ok P R s' H.
Proof.
  intros [K1 K2 K3 K4 K5 K6 K7 K8 K9] Eb Ep Er Eh. split; rewrite ?Eb, ?Ep, ?Er, ?Eh; try done.
  intros a Ha. destruct (K3 a Ha) as [l Hl]. exists l. eapply addrs_ext; [|done]. apply Forall_forall. intros. by rewrite Eb.
Qed.

(** Releasing does not touch other pbufs. *)
Lemma release_insert l s q c : q ∉ l →
  release l (pm_set_buf (<[q := c]> (pm_buf s)) s) = pm_set_buf (<[q := c]> (pm_buf (release l s))) (release l s).
Proof.
  revert s. induction l as [|a l IH]; intros s Hq; simpl; [done|]. apply not_elem_of_cons in Hq as [Hqa Hq].
  rewrite lookup_insert_ne by done. destruct (pm_buf s !! a) as [b|]; [|done]. destruct (p_ref b =? 1).
  - rewrite <-IH by done. f_equal. unfold give_back. destruct (source_of b); unfold pm_set_buf; simpl; by rewrite delete_insert_ne.
  - unfold pm_set_buf. simpl. by rewrite insert_insert_ne.
Qed.

Lemma release_lookup l s q : q ∉ l → pm_buf (release l s) !! q = pm_buf s !! q.
Proof.
  revert s. induction l as [|a l IH]; intros s Hq; simpl; [done|]. apply not_elem_of_cons in Hq as [Hqa Hq].
  destruct (pm_buf s !! a) as [b|]; [|done]. destruct (p_ref b =? 1).
  - rewrite IH, give_back_buf, lookup_delete_ne by done. done.
  - simpl. by rewrite lookup_insert_ne.
Qed.

Section ops.
Context (P R : list Z).
Notation ok := (refs_ok P R).

Lemma wlp_free s H p : ok s (p :: H) → wlp (pbuf_free p) s (λ _ s', ok s' H).
Proof.
  intros Hok n s' Hrun. destruct (ro_free_ok _ _ _ _ _ Hok) as (l & n' & _ & Hrun' & Hok'). rewrite Hrun in Hrun'. by simplify_eq.
Qed.

Lemma ok_ref s H p : ok s H → p ≠ 0 → wlp (pbuf_ref p) s (λ _ s', ok s' (p :: H)).
Proof.
  intros Hok Hp. unfold pbuf_ref. rewrite (proj2 (Z.eqb_neq _ _) Hp). wlp_step. apply wlp_update. intros b Hb.
  wlp_step. wlp_step. match goal with E : _ = Some ?x |- _ => rename x into c, E into Hc end.
  simpl in Hc. rewrite lookup_insert_eq in Hc. simplify_eq. simpl. apply wlp_assert. intros Hpos%Z.ltb_lt.
  destruct (ro_ref _ _ _ _ Hok p b Hb) as [_ Hbd].
  destruct (decide (p_ref b = 255)) as [He|Hne]; [rewrite He in Hpos; by vm_compute in Hpos|].
  rewrite u8_small by lia. apply ro_take; [done..|lia].
Qed.

Lemma source_ref payload len type : type = PBUF_REF ∨ type = PBUF_ROM → source_of (mk_pbuf 0 payload len len (u8 type) 0 1) = SRef.
Proof. by intros [-> | ->]. Qed.
Lemma source_pool payload tot len : source_of (mk_pbuf 0 payload tot len (u8 PBUF_POOL) 0 1) = SPool.
Proof. done. Qed.
Lemma source_ram payload tot len : source_of (mk_pbuf 0 payload tot len (u8 PBUF_RAM) 0 1) = SHeap.
Proof. done. Qed.

(** A new pointer, or NULL. *)
Definition got (H : list Z) (p : Z) (s : pmem) : Prop := if decide (p = 0) then ok s H else ok s (p :: H).

Lemma ok_alloc_reference s H payload len type : ok s H → wlp (pbuf_alloc_reference payload len type) s (got H).
Proof.
  intros Hok. unfold pbuf_alloc_reference. wlp_step. apply wlp_assert. intros Hty.
  assert (type = PBUF_REF ∨ type = PBUF_ROM) as Hty'.
  { apply orb_true_iff in Hty as [?%Z.eqb_eq|?%Z.eqb_eq]; tauto. }
  wlp_step. intros p s1. unfold memp_malloc. simpl. destruct (pm_refs s) as [|a rest] eqn:Hrefs; intros [= <- <-].
  { simpl. apply wlp_ret. unfold got. by rewrite decide_True. }
  assert (a ∈ R) as HaR. { apply (ro_refs _ _ _ _ Hok). left. rewrite Hrefs. left. }
  assert (a ≠ 0) as Ha0 by (apply (ro_elems _ _ _ _ Hok); by right).
  rewrite (proj2 (Z.eqb_neq _ _) Ha0). wlp_step. wlp_step. wlp_step. unfold got. rewrite decide_False by done.
  eapply (ro_new _ _ s _ _ _ _ SRef); [done| |done|done|done|done|by apply source_ref|done].
  apply (ro_free _ _ _ _ Hok). right. rewrite Hrefs. left.
Qed.

Lemma ok_pool_loop fuel s H p last rem_len offset type :
  type = PBUF_POOL → (if decide (p = 0) then ok s H else ok s (p :: H) ∧ ∃ b, pm_buf s !! last = Some b ∧ p_next b = 0) →
  wlp (pool_loop fuel p last rem_len offset type) s (got H).
Proof.
  intros ->. revert s p last rem_len offset. induction fuel as [|fuel IH]; intros s p last rem_len offset Hok; [apply wlp_ub|].
  cbn [pool_loop]. wlp_step. intros q s1. unfold memp_malloc. simpl. destruct (pm_pool s) as [|a rest] eqn:Hpool; intros [= <- <-].
  - simpl. wlp_step. wlp_step. case_decide as Hp0.
    + subst p. simpl. wlp_step. wlp_step. wlp_step. unfold got. rewrite decide_True by done. by eapply ro_same.
    + rewrite (proj2 (Z.eqb_neq _ _) Hp0). simpl. destruct Hok as [Hok _]. wlp_step. wlp_step.
      eapply wlp_mono; [apply (wlp_free _ H); by eapply ro_same|]. intros n s' Hok'. wlp_step. wlp_step.
      unfold got. by rewrite decide_True.
  - assert (∃ H', ok s H') as [H' Hok'] by (case_decide; [by exists H|destruct Hok; by eexists]).
    assert (a ∈ P) as HaP. { apply (ro_pool _ _ _ _ Hok'). left. rewrite Hpool. left. }
    assert (a ≠ 0) as Ha0 by (apply (ro_elems _ _ _ _ Hok'); by left).
    assert (pm_buf s !! a = None) as Hna. { apply (ro_free _ _ _ _ Hok'). left. rewrite Hpool. left. }
    rewrite (proj2 (Z.eqb_neq _ _) Ha0). wlp_step. wlp_step. wlp_step. wlp_step.
    set (qlen := Z.min rem_len _). set (nb := mk_pbuf 0 _ rem_len qlen (u8 PBUF_POOL) 0 1).
    set (s1 := pm_set_buf (<[a := nb]> _) _).
    assert (∀ K, ok s K → ok s1 (a :: K)) as Hnew.
    { intros K HK. eapply (ro_new _ _ s _ _ _ _ SPool); [exact HK|done|done|done|done|done|done|done]. }
    assert (pm_buf s1 !! a = Some nb) as Hs1a by apply lookup_insert_eq.
    wlp_step. case_decide as Hp0.
    + subst p. simpl. wlp_step. apply Hnew in Hok. case_match.
      * apply IH. rewrite decide_False by done. split; [done|]. by exists nb.
      * wlp_step. unfold got. by rewrite decide_False.
    + rewrite (proj2 (Z.eqb_neq _ _) Hp0). destruct Hok as [Hok (bl & Hbl & Hnl)].
      assert (last ≠ a) as Hla by congruence. wlp_step. apply wlp_update. intros bl' Hbl'.
      unfold s1 in Hbl'. simpl in Hbl'. rewrite lookup_insert_ne in Hbl' by done. assert (bl' = bl) as -> by congruence.
      wlp_step. assert (ok (pm_set_buf (<[last := p_set_next a bl]> (pm_buf s1)) s1) (p :: H)) as Hok2.
      { eapply (ro_link _ _ _ _ _ bl _ a [a]); [by apply Hnew| |done| |set_solver|done|done|done|done].
        - unfold s1. simpl. by rewrite lookup_insert_ne.
        - simpl. split_and!; [done..|]. by exists nb. }
      case_match.
      * apply IH. rewrite decide_False by done. split; [done|]. exists nb. simpl. by rewrite lookup_insert_ne.
      * wlp_step. unfold got. by rewrite decide_False.
Qed.

(** A heap address that is not in use. *)
Definition heap_fresh (at_ : option Z) (s : pmem) : Prop :=
  match at_ with None => True | Some a => a ≠ 0 ∧ a ∉ P ∧ a ∉ R ∧ pm_buf s !! a = None end.

Lemma ok_alloc s H at_ fill layer len type : ok s H → heap_fresh at_ s → wlp (pbuf_alloc at_ fill layer len type) s (got H).
Proof.
  intros Hok Hat. unfold pbuf_alloc. case_match; [by apply ok_alloc_reference|].
  destruct (Z.eqb_spec type PBUF_POOL) as [->|_]. { wlp_step. wlp_step. apply ok_pool_loop; [done|by rewrite decide_True]. }
  destruct (Z.eqb_spec type PBUF_RAM) as [->|_]; [|apply wlp_ub].
  case_match; [wlp_step; unfold got; by rewrite decide_True|]. wlp_step. unfold mem_malloc. destruct at_ as [a|].
  - destruct Hat as (Ha0 & HaP & HaR & Hna). wlp_step. wlp_step. wlp_step. rewrite (proj2 (Z.eqb_neq _ _) Ha0).
    wlp_step. wlp_step. wlp_step. unfold got. rewrite decide_False by done.
    eapply (ro_new _ _ s _ _ _ _ SHeap); [done|done|done|done|done|done|done|done].
  - wlp_step. simpl. wlp_step. unfold got. by rewrite decide_True.
Qed.

Lemma ok_alloced_custom s H l len type p mem mem_len :
  ok s H → p ≠ 0 → p ∉ P → p ∉ R → pm_buf s !! p = None →
  wlp (pbuf_alloced_custom l len type p mem mem_len) s (got H).
Proof.
  intros Hok Hp HP HR Hn. unfold pbuf_alloced_custom. case_match; [wlp_step; unfold got; by rewrite decide_True|].
  wlp_step. wlp_step. wlp_step. unfold got. rewrite decide_False by done.
  eapply (ro_new _ _ s _ _ _ _ SCustom); [done|done|done|done|done|done|done|done].
Qed.

(** Updates of other fields. *)
Lemma wlp_fields a f s H (Q : unit → pmem → Prop) :
  ok s H → (∀ b, source_of (f b) = source_of b ∧ p_ref (f b) = p_ref b ∧ p_next (f b) = p_next b) →
  (∀ s', ok s' H → (∀ x, p_next <$> pm_buf s' !! x = p_next <$> pm_buf s !! x) → Q tt s') → wlp (pb_update a f) s Q.
Proof.
  intros Hok Hf HQ. apply wlp_update. intros b Hb. destruct (Hf b) as (? & ? & Hn). apply HQ; [by eapply ro_fields|].
  intros x. simpl. destruct (decide (x = a)) as [->|]; [by rewrite lookup_insert_eq, Hb; simpl; rewrite Hn|by rewrite lookup_insert_ne].
Qed.

Lemma ok_add_header s H p n force : ok s H → wlp (pbuf_add_header_impl p n force) s (λ _ s', ok s' H).
Proof.
  intros Hok. unfold pbuf_add_header_impl. wlp_step. apply wlp_assert. intros _.
  case_match; [by wlp_step|]. case_match; [by wlp_step|]. wlp_step. apply wlp_load. intros b Hb.
  case_match; [by wlp_step|]. destruct (if negb _ then _ else _); [by wlp_step|].
  wlp_step. eapply wlp_fields; [done|done|]. intros s1 Hok1 _. wlp_step. eapply wlp_fields; [done|done|]. intros s2 Hok2 _.
  wlp_step. eapply wlp_fields; [done|done|]. intros s3 Hok3 _. by wlp_step.
Qed.

Lemma ok_remove_header s H p n : ok s H →
  wlp (pbuf_remove_header p n) s (λ _ s', ok s' H ∧ ∀ x, p_next <$> pm_buf s' !! x = p_next <$> pm_buf s !! x).
Proof.
  intros Hok. unfold pbuf_remove_header. wlp_step. apply wlp_assert. intros _.
  case_match; [by wlp_step|]. case_match; [by wlp_step|]. wlp_step. apply wlp_load. intros b Hb.
  case_match; [by wlp_step|].
  wlp_step. eapply wlp_fields; [done|done|]. intros s1 Hok1 E1. wlp_step. eapply wlp_fields; [done|done|]. intros s2 Hok2 E2.
  wlp_step. eapply wlp_fields; [done|done|]. intros s3 Hok3 E3. wlp_step. split; [done|]. intros x. by rewrite E3, E2, E1.
Qed.

(** [pbuf_free_header] takes the pointer it is given and returns another. *)
Lemma ok_free_header_loop fuel s H p n :
  (if decide (p = 0) then ok s H else ok s (p :: H)) → wlp (free_header_loop fuel p n) s (got H).
Proof.
  revert s p n. induction fuel as [|fuel IH]; intros s p n Hok; [apply wlp_ub|]. cbn [free_header_loop].
  destruct (negb (n =? 0) && negb (p =? 0)) eqn:Hgo; [|by wlp_step].
  apply andb_true_iff in Hgo as [_ Hp%negb_true_iff%Z.eqb_neq]. rewrite decide_False in Hok by done.
  wlp_step. apply wlp_load. intros b Hb. case_match.
  - wlp_step. apply wlp_update. intros b' Hb'. assert (b' = b) as -> by congruence. wlp_step.
    destruct (decide (p_next b = 0)) as [Hn|Hn].
    + eapply wlp_mono; [apply (wlp_free _ H); by eapply (ro_fields _ _ _ _ _ b)|]. intros n' s' Hok'. apply IH. by rewrite decide_True.
    + eapply wlp_mono; [apply (wlp_free _ (p_next b :: H))|].
      { eapply ro_perm; [|by eapply (ro_unlink _ _ _ _ _ b)]. constructor. }
      intros n' s' Hok'. apply IH. by rewrite decide_False.
  - wlp_step. eapply wlp_mono; [by apply ok_remove_header|]. intros n' s' [Hok' _]. apply IH. by rewrite decide_False.
Qed.

Lemma ok_free_header s H p n : (if decide (p = 0) then ok s H else ok s (p :: H)) → wlp (pbuf_free_header p n) s (got H).
Proof. intros Hok. unfold pbuf_free_header. wlp_step. wlp_step. by apply ok_free_header_loop. Qed.

(** The last pbuf of a chain, and the chains as they were. *)
Lemma ok_cat_loop fuel s H p t :
  ok s H → wlp (cat_loop fuel p t) s (λ q s', ok s' H ∧ (∀ x, p_next <$> pm_buf s' !! x = p_next <$> pm_buf s !! x) ∧
    (∃ b, pm_buf s' !! q = Some b ∧ p_next b = 0) ∧ (∀ l, addrs s p l → q ∈ l)).
Proof.
  revert s p. induction fuel as [|fuel IH]; intros s p Hok; [apply wlp_ub|]. cbn [cat_loop]. wlp_step. apply wlp_load.
  intros b Hb. destruct (Z.eqb_spec (p_next b) 0) as [Hn|Hn]; simpl.
  - wlp_step. split_and!; [done|done|by exists b|]. intros l Hl. destruct l as [|x l]; [|destruct Hl as (-> & _); left].
    simpl in Hl. subst p. by destruct (ro_nonzero _ _ _ _ _ Hok (mk_is_Some _ _ Hb)).
  - wlp_step. apply wlp_load. intros tb Htb. wlp_step. eapply wlp_fields; [done|done|]. intros s1 Hok1 E1.
    eapply wlp_mono; [by apply IH|]. intros q s' (Hok' & E' & Hq & Hin). split_and!; [done| |done|].
    + intros x. by rewrite E', E1.
    + intros l Hl. destruct l as [|x l]; [simpl in Hl; subst p; by destruct (ro_nonzero _ _ _ _ _ Hok (mk_is_Some _ _ Hb))|].
      destruct Hl as (-> & _ & c & Hc & Hl). assert (c = b) as -> by congruence. right. apply Hin.
      eapply addrs_ext; [|exact Hl]. apply Forall_forall. intros y _. apply E1.
Qed.

(** Chains that have no pbuf in common. *)
Definition apart (s : pmem) (h t : Z) : Prop := ∀ lh lt, addrs s h lh → addrs s t lt → ∀ x, x ∈ lh → x ∉ lt.

Lemma ok_cat s H h t : ok s (t :: H) → h ∈ H → apart s h t → wlp (pbuf_cat h t) s (λ _ s', ok s' H).
Proof.
  intros Hok Hh Hap. assert (is_Some (pm_buf s !! t) ∧ is_Some (pm_buf s !! h)) as [Hst Hsh].
  { split; eapply ro_held; try done; [left|by right]. }
  unfold pbuf_cat. pose proof (ro_nonzero _ _ _ _ _ Hok Hst) as Ht0. pose proof (ro_nonzero _ _ _ _ _ Hok Hsh) as Hh0.
  rewrite (proj2 (Z.eqb_neq h 0)), (proj2 (Z.eqb_neq t 0)) by done. simpl. wlp_step. apply wlp_assert. intros _. wlp_step. wlp_step.
  wlp_step. eapply wlp_mono; [by apply ok_cat_loop|]. intros q s1 (Hok1 & E1 & (bq & Hbq & Hnq) & Hin).
  destruct (ro_chain _ _ _ _ Hok t Hst) as [lt Hlt]. destruct (ro_chain _ _ _ _ Hok h Hsh) as [lh Hlh].
  assert (q ∉ t :: lt) as Hqt by (eapply Hap; [exact Hlh|done|by apply Hin]).
  assert (addrs s1 t (t :: lt)) as Hlt1. { eapply addrs_ext; [|done]. apply Forall_forall. intros y _. apply E1. }
  wlp_step. apply wlp_load. intros b Hb. wlp_step. apply wlp_assert. intros _. wlp_step. apply wlp_load. intros tb Htb.
  wlp_step. eapply wlp_fields; [done|done|]. intros s2 Hok2 E2. apply wlp_update. intros b2 Hb2.
  assert (p_next b2 = 0) as Hn2.
  { pose proof (E2 q) as Hq. rewrite Hb2, Hb in Hq. simpl in Hq. assert (b = bq) by congruence. congruence. }
  eapply (ro_link _ _ _ _ _ b2 _ t (t :: lt)); try done. eapply addrs_ext; [|done]. apply Forall_forall. intros y _. apply E2.
Qed.

Lemma ok_chain s H h t : ok s (t :: H) → h ∈ H → apart s h t → wlp (pbuf_chain h t) s (λ _ s', ok s' (t :: H)).
Proof.
  intros Hok Hh Hap. unfold pbuf_chain. wlp_step. eapply wlp_mono; [by eapply ok_cat|]. intros n' s' Hok'. apply ok_ref; [done|].
  eapply ro_nonzero; [exact Hok|]. eapply ro_held; [done|left].
Qed.

Lemma ok_dechain s H p : ok s H → wlp (pbuf_dechain p) s (λ _ s', ok s' H).
Proof.
  intros Hok. unfold pbuf_dechain. wlp_step. apply wlp_load. intros b Hb. wlp_step.
  apply (wlp_mono _ _ (λ _ s', ok s' H)); [|by intros n' s' Hok'; wlp_step; apply wlp_load; intros ? _; wlp_step; apply wlp_assert; intros _; wlp_step].
  destruct (Z.eqb_spec (p_next b) 0) as [Hn|Hn]; simpl; [by wlp_step|].
  wlp_step. apply wlp_load. intros qb Hqb. wlp_step. apply wlp_assert. intros _. wlp_step.
  eapply wlp_fields; [done|done|]. intros s1 Hok1 E1. wlp_step. apply wlp_update. intros b1 Hb1.
  assert (p_next b1 = p_next b) as Hn1. { specialize (E1 p). rewrite Hb, Hb1 in E1. by injection E1. }
  wlp_step. eapply wlp_fields; [eapply (ro_unlink _ _ _ _ _ b1); [done..|by rewrite Hn1|done|done|done]|done|].
  intros s2 Hok2 _. rewrite <-Hn1. by apply wlp_free.
Qed.

Lemma ok_realloc_loop fuel s H q rem shrink : ok s H → wlp (realloc_loop fuel q rem shrink) s (λ _ s', ok s' H).
Proof.
  revert s q rem. induction fuel as [|fuel IH]; intros s q rem Hok; [apply wlp_ub|]. cbn [realloc_loop].
  wlp_step. apply wlp_load. intros b Hb. case_match; [|by wlp_step].
  wlp_step. eapply wlp_fields; [done|done|]. intros s1 Hok1 _. wlp_step. apply wlp_assert. intros _. by apply IH.
Qed.

(** The tail of a chain is freed, and then cut off. *)
Lemma ok_cut s H q b :
  ok s H → pm_buf s !! q = Some b →
  wlp ((if negb (p_next b =? 0) then _ ← pbuf_free (p_next b); mret tt else mret tt);; pb_update q (p_set_next 0)) s (λ _ s', ok s' H).
Proof.
  intros Hok Hb. wlp_step. destruct (Z.eqb_spec (p_next b) 0) as [Hn|Hn]; simpl.
  - wlp_step. apply wlp_update. intros b' Hb'. assert (b' = b) as -> by congruence. by eapply (ro_fields _ _ _ _ _ b).
  - destruct (ro_chain _ _ _ _ Hok q) as (lq & Hlq); [eauto|].
    pose proof (addrs_nodup _ _ _ Hlq) as [Hql _]%NoDup_cons. destruct Hlq as (_ & _ & b' & Hb' & Hl).
    assert (b' = b) as -> by congruence. clear Hb'.
    assert (wp (pbuf_free (p_next b)) s (λ _ s', s' = release lq s)) as Hw.
    { eapply wp_pbuf_free; [done|done|by eapply ro_disposable|done]. }
    apply wp_run in Hw as (n & s1 & Hrun & ->).
    wlp_step. intros n' s' Hrun'. rewrite Hrun in Hrun'. simplify_eq. wlp_step.
    apply wlp_update. intros b' Hb'. rewrite release_lookup in Hb' by done. assert (b' = b) as -> by congruence.
    rewrite <-release_insert by done. eapply ro_release; [by eapply (ro_unlink _ _ _ _ _ b)|by apply addrs_insert_ne].
Qed.

Lemma ok_realloc s H p n : ok s H → wlp (pbuf_realloc p n) s (λ _ s', ok s' H).
Proof.
  intros Hok. unfold pbuf_realloc. wlp_step. apply wlp_assert. intros _. wlp_step. apply wlp_load. intros b Hb.
  case_match; [by wlp_step|]. wlp_step. wlp_step. wlp_step. eapply wlp_mono; [by apply ok_realloc_loop|].
  intros [q rem] s1 Hok1. wlp_step. eapply wlp_fields; [done|done|]. intros s2 Hok2 _.
  wlp_step. eapply wlp_fields; [done|done|]. intros s3 Hok3 _. wlp_step. apply wlp_load. intros c Hc. by apply ok_cut.
Qed.

(** Copies only change the memory. *)
Definition only_mem (s s' : pmem) : Prop := ∃ m, s' = pm_set_mem m s.

Lemma wlp_mem_load s q n : wlp (mem_load q n) s (λ _ s', s' = s).
Proof. intros bs s'. unfold mem_load. case_match; [congruence|]. case_match; [|done]. case_match; [congruence|done]. Qed.
Lemma wlp_mem_store s q bs : wlp (mem_store q bs) s (λ _ s', only_mem s s').
Proof.
  intros [] s'. unfold mem_store, only_mem. destruct bs; [intros [= <-]; exists (pm_mem s); by destruct s|].
  case_match; [|done]. case_match; [|done]. intros [= <-]. by eexists.
Qed.

Lemma ok_copy_loop fuel s H t f ot of_ n : ok s H → wlp (copy_loop fuel t f ot of_ n) s (λ _ s', ok s' H).
Proof.
  revert s t f ot of_ n. induction fuel as [|fuel IH]; intros s t f ot of_ n Hok; [apply wlp_ub|]. cbn [copy_loop].
  wlp_step. apply wlp_load. intros bt _. wlp_step. apply wlp_load. intros bf _. wlp_step.
  eapply wlp_mono; [apply wlp_mem_load|]. intros bs s0 ->. wlp_step. eapply wlp_mono; [apply wlp_mem_store|].
  intros n' s1 [m ->]. assert (ok (pm_set_mem m s) H) as Hok1 by (by eapply ro_same).
  generalize dependent (pm_set_mem m s). intros s1 Hok1.
  wlp_step. apply wlp_assert. intros _. wlp_step. apply wlp_assert. intros _.
  destruct (if p_len bf <=? _ then _ else _) as [f' of']. destruct ((f' =? 0) && _); [by wlp_step|].
  destruct (if _ =? p_len bt then _ else _) as [t' ot']. destruct ((t' =? 0) && _); [by wlp_step|].
  wlp_step. apply (wlp_mono _ _ (λ _ s', s' = s1)); [case_match; [by wlp_step|wlp_step; apply wlp_load; intros; by wlp_step]|].
  intros qf s2 ->. destruct qf; [by wlp_step|].
  wlp_step. apply (wlp_mono _ _ (λ _ s', s' = s1)); [case_match; [by wlp_step|wlp_step; apply wlp_load; intros; by wlp_step]|].
  intros qt s3 ->. destruct qt; [by wlp_step|]. case_match; [by apply IH|by wlp_step].
Qed.

Lemma ok_copy s H t f : ok s H → wlp (pbuf_copy t f) s (λ _ s', ok s' H).
Proof.
  intros Hok. unfold pbuf_copy. destruct (f =? 0); [by wlp_step|]. wlp_step. apply wlp_load. intros b _.
  unfold pbuf_copy_partial_pbuf. destruct (f =? 0); [by wlp_step|]. wlp_step. apply wlp_load. intros b' _.
  destruct (_ <? _); [by wlp_step|]. destruct (t =? 0); [by wlp_step|].
  wlp_step. apply wlp_load. intros b'' _. destruct (_ <? _); [by wlp_step|]. wlp_step. wlp_step. by apply ok_copy_loop.
Qed.

Lemma ok_clone s H at_ fill layer type p : ok s H → heap_fresh at_ s → wlp (pbuf_clone at_ fill layer type p) s (got H).
Proof.
  intros Hok Hat. unfold pbuf_clone. wlp_step. apply wlp_load. intros b _. wlp_step.
  eapply wlp_mono; [by apply ok_alloc|]. intros q s1 Hq. unfold got in Hq. destruct (Z.eqb_spec q 0) as [->|Hn].
  - wlp_step. unfold got. by rewrite decide_True in *.
  - rewrite decide_False in Hq by done. wlp_step. eapply wlp_mono; [by apply ok_copy|]. intros e s2 Hok2.
    wlp_step. apply wlp_assert. intros _. wlp_step. unfold got. by rewrite decide_False.
Qed.

(** [pbuf_coalesce] takes the pointer it is given. *)
Lemma ok_coalesce s H at_ fill layer p :
  ok s (p :: H) → heap_fresh at_ s → wlp (pbuf_coalesce at_ fill p layer) s (λ q s', ok s' (q :: H)).
Proof.
  intros Hok Hat. unfold pbuf_coalesce. wlp_step. apply wlp_load. intros b _. case_match; [by wlp_step|].
  wlp_step. eapply wlp_mono; [by apply ok_clone|]. intros q s1 Hq. unfold got in Hq.
  destruct (Z.eqb_spec q 0) as [->|Hn]; [wlp_step; by rewrite decide_True in Hq|]. rewrite decide_False in Hq by done.
  wlp_step. eapply wlp_mono; [apply (wlp_free _ (q :: H)); by eapply ro_perm; [constructor|]|]. intros n' s2 Hok2. by wlp_step.
Qed.
End ops.

(** ** Nothing is lost *)

Lemma ro_reachable P R s H a : refs_ok P R s H → is_Some (pm_buf s !! a) → ∃ h l, h ∈ H ∧ addrs s h l ∧ a ∈ l.
Proof.
  intros Hok Ha. destruct (ro_chain _ _ _ _ Hok a Ha) as [l Hl].
  remember (size (pm_buf s) - length l)%nat as n eqn:Hn. revert a l Ha Hl Hn.
  induction (lt_wf n) as [n _ IH]. intros a l [b Hb] Hl ->.
  destruct (ro_ref _ _ _ _ Hok a b Hb) as [He Hbd].
  destruct (decide (held H a = 0%nat)) as [Hz|Hnz].
  - assert (0 < links (pm_buf s) a)%nat as (x & c & Hx & Hxa)%links_pos by lia.
    assert (addrs s x (x :: a :: l)) as Hlx.
    { split_and!; [done|by eapply (ro_nonzero _ _ _ _ _ Hok); eauto|]. exists c. by rewrite Hxa. }
    pose proof (addrs_fuel s _ (addrs_nodup _ _ _ Hlx) (addrs_dom _ _ _ Hlx)) as Hsz. unfold pb_fuel in Hsz. simpl in Hsz.
    destruct (IH (size (pm_buf s) - length (a :: l))%nat ltac:(simpl; lia) x (a :: l) ltac:(eauto) Hlx eq_refl) as (h & lh & Hh & Hlh & Hin).
    exists h, lh. split_and!; [done..|]. apply list_elem_of_split in Hin as (l1 & l2 & ->).
    pose proof (addrs_suffix _ _ _ _ _ Hlh) as Hs. pose proof (addrs_det _ _ _ _ Hs Hlx) as [= ->]. set_solver.
  - exists a, (a :: l). split_and!; [|done|left]. apply held_elem. lia.
Qed.

Lemma ro_empty P R s : NoDup P → NoDup R → refs_ok P R s [] → pm_buf s = ∅ ∧ pm_heap s = ∅ ∧ pm_pool s ≡ₚ P ∧ pm_refs s ≡ₚ R.
Proof.
  intros HP HR Hok. assert (pm_buf s = ∅) as Hb.
  { apply map_empty. intros a. apply eq_None_not_Some. intros Ha.
    destruct (ro_reachable _ _ _ _ _ Hok Ha) as (h & l & Hh & _). by apply not_elem_of_nil in Hh. }
  destruct Hok as [_ _ _ _ [K5 K5'] [K6 K6'] _ K8 _]. rewrite Hb in *. split_and!; [done| | |].
  - apply set_eq. intros x. rewrite K8. set_solver.
  - apply NoDup_Permutation; [done..|]. intros x. rewrite K5'. set_solver.
  - apply NoDup_Permutation; [done..|]. intros x. rewrite K6'. set_solver.
Qed.

(** ** Programs that use pbufs *)

(** The state after [memp_init], for pools at two places. *)
Definition MEMP_NUM_PBUF : nat := 8192.
Definition PBUF_POOL_SIZE : nat := 32.
Definition POOL_ELEM : Z := SIZEOF_STRUCT_PBUF + PBUF_POOL_BUFSIZE_ALIGNED.

Definition pool_elems (base : Z) : list Z := memp_init_pool PBUF_POOL_SIZE base POOL_ELEM [].
Definition refs_elems (base : Z) : list Z := memp_init_pool MEMP_NUM_PBUF base SIZEOF_STRUCT_PBUF [].

Definition pbuf_init (pool_base refs_base : Z) (mem : gmap Z (list Z)) : pmem :=
  mk_pmem ∅ mem ∅ (pool_elems pool_base) (refs_elems refs_base) false [].

Lemma memp_init_pool_elem num base size tab x : 0 < size →
  x ∈ memp_init_pool num base size tab ↔ x ∈ tab ∨ ∃ i, 0 ≤ i < Z.of_nat num ∧ x = base + i * size.
Proof.
  intros Hs. revert base tab. induction num as [|num IH]; intros base tab; simpl.
  - split; [by left|]. intros [?|(i & ? & _)]; [done|lia].
  - rewrite IH, elem_of_cons. split.
    + intros [[->|?]|(i & Hi & ->)]; [right; exists 0; lia|by left|]. right. exists (i + 1). lia.
    + intros [?|(i & Hi & ->)]; [tauto|]. destruct (decide (i = 0)) as [->|]; [left; left; lia|]. right. exists (i - 1). lia.
Qed.

Lemma memp_init_pool_nodup num base size tab : 0 < size →
  NoDup tab → (∀ x, x ∈ tab → x < base) → NoDup (memp_init_pool num base size tab).
Proof.
  intros Hs. revert base tab. induction num as [|num IH]; intros base tab Hnd Hlt; simpl; [done|]. apply IH.
  - constructor; [|done]. intros ?%Hlt. lia.
  - intros x [->|?%Hlt]%elem_of_cons; lia.
Qed.

(** The two pools do not overlap, and do not start at NULL. *)
Definition pools_ok (pool_base refs_base : Z) : Prop :=
  0 < pool_base ∧ 0 < refs_base ∧
  (pool_base + Z.of_nat PBUF_POOL_SIZE * POOL_ELEM ≤ refs_base ∨
   refs_base + Z.of_nat MEMP_NUM_PBUF * SIZEOF_STRUCT_PBUF ≤ pool_base).

Lemma empty_ok P R mem : NoDup P → NoDup R → (∀ a, a ∈ P → a ∈ R → False) → (∀ a, a ∈ P ∨ a ∈ R → a ≠ 0) →
  refs_ok P R (mk_pmem ∅ mem ∅ P R false []) [].
Proof.
  intros HP HR Hd H0. split; simpl; try done.
  - intros a. by intros ?%not_elem_of_nil.
  - intros a [b Hb]. by rewrite lookup_empty in Hb.
  - split; [done|]. set_solver.
  - split; [done|]. set_solver.
  - set_solver.
Qed.

Lemma init_ok pb rb mem : pools_ok pb rb → refs_ok (pool_elems pb) (refs_elems rb) (pbuf_init pb rb mem) [].
Proof.
  intros (Hp & Hr & Hd). unfold pbuf_init, pool_elems, refs_elems.
  assert (0 < POOL_ELEM) as Hpe by done. assert (0 < SIZEOF_STRUCT_PBUF) as Hre by done.
  revert Hd Hpe Hre. generalize POOL_ELEM, SIZEOF_STRUCT_PBUF, PBUF_POOL_SIZE, MEMP_NUM_PBUF. intros pe re np nr Hd Hpe Hre.
  apply empty_ok.
  - apply memp_init_pool_nodup; [done|constructor|intros x ?%not_elem_of_nil; done].
  - apply memp_init_pool_nodup; [done|constructor|intros x ?%not_elem_of_nil; done].
  - intros a. rewrite !memp_init_pool_elem by done. intros [?%not_elem_of_nil|(i & Hi & ->)]; [done|].
    intros [?%not_elem_of_nil|(j & Hj & Hij)]; [done|]. destruct Hd; nia.
  - intros a. rewrite !memp_init_pool_elem by done.
    intros [[?%not_elem_of_nil|(i & Hi & ->)]|[?%not_elem_of_nil|(i & Hi & ->)]]; try done; nia.
Qed.

Lemma elems_nodup pb rb : NoDup (pool_elems pb) ∧ NoDup (refs_elems rb).
Proof.
  unfold pool_elems, refs_elems. generalize PBUF_POOL_SIZE, MEMP_NUM_PBUF. intros np nr.
  split; (apply memp_init_pool_nodup; [done|constructor|intros x ?%not_elem_of_nil; done]).
Qed.

Definition hold (p : Z) (H : list Z) : list Z := if decide (p = 0) then H else p :: H.

Section programs.
Context (P R : list Z).

(** The calls of a program that keeps to the rules: it only passes pointers that it
    holds, and gives them up where the function takes them. *)
Inductive pstep : pmem * list Z → pmem * list Z → Prop :=
  | ps_alloc at_ fill layer len type p s s' H : heap_fresh P R at_ s →
      pbuf_alloc at_ fill layer len type s = Some (p, s') → pstep (s, H) (s', hold p H)
  | ps_alloc_reference payload len type p s s' H :
      pbuf_alloc_reference payload len type s = Some (p, s') → pstep (s, H) (s', hold p H)
  | ps_alloced_custom l len type q mem mem_len p s s' H : heap_fresh P R (Some q) s →
      pbuf_alloced_custom l len type q mem mem_len s = Some (p, s') → pstep (s, H) (s', hold p H)
  | ps_ref p s s' H : p ∈ H → pbuf_ref p s = Some (tt, s') → pstep (s, H) (s', p :: H)
  | ps_free p n s s' H H' : H ≡ₚ p :: H' → pbuf_free p s = Some (n, s') → pstep (s, H) (s', H')
  | ps_cat h t s s' H H' : H ≡ₚ t :: H' → h ∈ H' → apart s h t → pbuf_cat h t s = Some (tt, s') → pstep (s, H) (s', H')
  | ps_chain h t s s' H H' : H ≡ₚ t :: H' → h ∈ H' → apart s h t → pbuf_chain h t s = Some (tt, s') → pstep (s, H) (s', H)
  | ps_dechain p q s s' H : p ∈ H → pbuf_dechain p s = Some (q, s') → pstep (s, H) (s', H)
  | ps_realloc p n s s' H : p ∈ H → pbuf_realloc p n s = Some (tt, s') → pstep (s, H) (s', H)
  | ps_add_header p n force r s s' H : p ∈ H → pbuf_add_header_impl p n force s = Some (r, s') → pstep (s, H) (s', H)
  | ps_remove_header p n r s s' H : p ∈ H → pbuf_remove_header p n s = Some (r, s') → pstep (s, H) (s', H)
  | ps_free_header p n q s s' H H' : H ≡ₚ p :: H' → pbuf_free_header p n s = Some (q, s') → pstep (s, H) (s', hold q H')
  | ps_copy t f r s s' H : t ∈ H → f ∈ H → pbuf_copy t f s = Some (r, s') → pstep (s, H) (s', H)
  | ps_clone at_ fill layer type p q s s' H : p ∈ H → heap_fresh P R at_ s →
      pbuf_clone at_ fill layer type p s = Some (q, s') → pstep (s, H) (s', hold q H)
  | ps_coalesce at_ fill layer p q s s' H H' : H ≡ₚ p :: H' → heap_fresh P R at_ s →
      pbuf_coalesce at_ fill p layer s = Some (q, s') → pstep (s, H) (s', q :: H')
  | ps_write m s H : pstep (s, H) (pm_set_mem m s, H).

Lemma got_hold H p s : got P R H p s → refs_ok P R s (hold p H).
Proof. unfold got, hold. by case_decide. Qed.

Lemma pstep_ok x y : pstep x y → refs_ok P R x.1 x.2 → refs_ok P R y.1 y.2.
Proof.
  destruct 1; simpl; intros Hok.
  - by eapply got_hold, ok_alloc.
  - by eapply got_hold, ok_alloc_reference.
  - match goal with F : heap_fresh _ _ _ _ |- _ => destruct F as (? & ? & ? & ?) end. by eapply got_hold, ok_alloced_custom.
  - eapply ok_ref; [done| |done]. eapply ro_nonzero; [done|]. by eapply ro_held.
  - eapply wlp_free; [|done]. by eapply ro_perm.
  - eapply ok_cat; [by eapply ro_perm|done..].
  - eapply ro_perm; [done|]. eapply ok_chain; [by eapply ro_perm|done..].
  - by eapply ok_dechain.
  - by eapply ok_realloc.
  - by eapply ok_add_header.
  - by eapply ok_remove_header.
  - eapply got_hold, ok_free_header; [|done]. case_decide as Hz; [|by eapply ro_perm].
    subst p. destruct (ro_held _ _ _ _ Hok 0) as [b Hb]; [match goal with E : _ ≡ₚ _ |- _ => rewrite E end; left|].
    by destruct (ro_nonzero _ _ _ _ _ Hok (mk_is_Some _ _ Hb)).
  - by eapply ok_copy.
  - by eapply got_hold, ok_clone.
  - eapply ok_coalesce; [by eapply ro_perm|done..].
  - by eapply ro_same.
Qed.
End programs.

(** C22: references to pbufs.  For a program that makes any calls on pbufs from the
    start, in the order it likes, and keeps to the rules on who holds which pointer:
    the count of each pbuf is the number of pointers to it, in next fields and held;
    every held pointer is the head of a chain that ends; releasing a held pointer
    always succeeds; no pbuf is lost: each one in use can be reached from a held
    pointer; and a program that holds nothing has given back all of the heap and
    both pools. *)
Theorem pbuf_references pb rb mem s H :
  pools_ok pb rb → rtc (pstep (pool_elems pb) (refs_elems rb)) (pbuf_init pb rb mem, []) (s, H) →
  (∀ a b, pm_buf s !! a = Some b → p_ref b = Z.of_nat (links (pm_buf s) a + held H a) ∧ 1 ≤ p_ref b < 256) ∧
  (∀ a, a ∈ H → ∃ l, addrs s a (a :: l)) ∧
  (∀ p H', H ≡ₚ p :: H' → ∃ n s', pbuf_free p s = Some (n, s') ∧ pstep (pool_elems pb) (refs_elems rb) (s, H) (s', H')) ∧
  (∀ a, is_Some (pm_buf s !! a) → ∃ h l, h ∈ H ∧ addrs s h l ∧ a ∈ l) ∧
  (H = [] → pm_buf s = ∅ ∧ pm_heap s = ∅ ∧ pm_pool s ≡ₚ pool_elems pb ∧ pm_refs s ≡ₚ refs_elems rb).
Proof.
  intros Hp Hrun. destruct (elems_nodup pb rb) as [HP HR]. pose proof (init_ok pb rb mem Hp) as Hinit.
  revert HP HR Hinit Hrun. generalize (pool_elems pb), (refs_elems rb). intros P R HP HR Hinit Hrun.
  assert (refs_ok P R s H) as Hok.
  { change (refs_ok P R (s, H).1 (s, H).2). revert Hinit.
    change (refs_ok P R (pbuf_init pb rb mem, @nil Z).1 (pbuf_init pb rb mem, @nil Z).2 → refs_ok P R (s, H).1 (s, H).2).
    induction Hrun as [x|x y z Hxy _ IH]; [done|]. intros Hx. apply IH. by eapply pstep_ok. }
  split_and!.
  - apply (ro_ref _ _ _ _ Hok).
  - intros a Ha. by eapply ro_chain, ro_held.
  - intros p H' HH. destruct (ro_free_ok P R s H' p) as (l & n & _ & Hf & _); [by eapply ro_perm|].
    exists n, (release l s). split; [done|]. by eapply ps_free.
  - intros a Ha. by eapply ro_reachable.
  - intros ->. by apply ro_empty.
Qed.

Definition ex_init : pmem := pbuf_init 1048576 4096 ∅.
Definition ex_alloc : option (Z * pmem) := pbuf_alloc (Some 64) (λ _, 0) PBUF_TRANSPORT 100 PBUF_RAM ex_init.
Definition ex_state : pmem := match ex_alloc with Some (_, s) => s | None => ex_init end.

Lemma ex_steps : rtc (pstep (pool_elems 1048576) (refs_elems 4096)) (ex_init, []) (ex_state, [64]).
Proof.
  eapply rtc_once. change [64] with (hold 64 []). eapply (ps_alloc _ _ (Some 64) (λ _, 0) PBUF_TRANSPORT 100 PBUF_RAM).
  - unfold heap_fresh, pool_elems, refs_elems. split; [done|].
    rewrite !memp_init_pool_elem by done. split_and!; [| |done];
      (intros [?%not_elem_of_nil|(i & Hi & Heq)]; [done|change POOL_ELEM with 8272 in *; change SIZEOF_STRUCT_PBUF with 24 in *; lia]).
  - reflexivity.
Qed.

Lemma pbuf_references_witness :
  ∃ n s', pbuf_free 64 ex_state = Some (n, s') ∧ pstep (pool_elems 1048576) (refs_elems 4096) (ex_state, [64]) (s', []).
Proof.
  refine (proj1 (proj2 (proj2 (pbuf_references 1048576 4096 ∅ ex_state [64] _ ex_steps))) 64 [] _).
  - split; [done|]. split; [done|]. right. vm_compute. done.
  - reflexivity.
Defined.

(** A chain of [n] pbufs of one byte at 8, 16, ... *)
Definition long_chain (n : nat) : gmap Z pbuf :=
  list_to_map ((λ i, let k := Z.of_nat i in
    (8 * (k + 1), mk_pbuf (if decide (S i = n) then 0 else 8 * (k + 2)) ptr_null (Z.of_nat n - k) 1 (u8 PBUF_REF) 0 1)) <$> seq 0 n).

(** [pbuf_free] counts in eight bits: when [pbuf_dechain] frees a tail of 256 pbufs,
    the count is zero and the pointer to the tail, which is gone, is returned as if
    somebody else still held it. *)
Theorem pbuf_dechain_dangling :
  (λ x, (x.1, pm_buf x.2 !! x.1)) <$> pbuf_dechain 8 (pm_set_buf (long_chain 257) (mk_pmem ∅ ∅ ∅ [] [] false [])) = Some (16, None).
Proof. vm_compute. reflexivity. Qed.
