(* ===== verification/PbufShape.v ===== *)
(** * Joining, cutting and copying packets

    The functions of pbuf.c that change the shape of a chain, as functions on its
    contents: joining is concatenation, shrinking and releasing the front keep the
    first and the last bytes, headers are taken off and put back, and copies have
    the same contents. *)

From S2P Require Import Prelude CString Pbuf PbufProps PbufRefs.

(** ** Copies between packets *)

Lemma shape_trans xs ys zs : shape xs ys → shape ys zs → shape xs zs.
Proof.
  unfold shape. intros H. revert zs. induction H as [|x y xs ys [H1 H2] _ IH]; intros zs Hz;
    inversion Hz as [|? z ? ? [H3 H4] H5]; subst; constructor; [split; congruence|by apply IH].
Qed.

Lemma written_trans s s1 s2 p xs i d1 d2 :
  0 ≤ i → written s p xs i d1 s1 →
  (∀ ys, packet s1 p ys → shape xs ys → written s1 p ys (i + Z.of_nat (length d1)) d2 s2) →
  written s p xs i (d1 ++ d2) s2.
Proof.
  intros Hi (ys & Hm & Hp & Hs & Hc) Hw. destruct (Hw ys Hp Hs) as (zs & Hm2 & Hp2 & Hs2 & Hc2). exists zs. split_and!.
  - eapply mem_frame_weaken; [by eapply mem_frame_trans|]. intros k. rewrite (shape_addrs _ _ Hs). set_solver.
  - done.
  - by eapply shape_trans.
  - rewrite Hc2, Hc, list_inserts_app_l. f_equal. lia.
Qed.

(** The bytes of a chain are determined by the memory. *)
Lemma view_det s q bs bs' : view s q bs → view s q bs' → length bs = length bs' → bs = bs'.
Proof.
  intros [->|(m1 & m2 & Hm & Ho)] [->|(m1' & m2' & Hm' & Ho')] Hl; try done.
  - by destruct bs'.
  - by destruct bs.
  - assert (length m1 = length m1') as H1 by lia. rewrite Hm in Hm'. injection Hm' as He.
    apply app_inj_1 in He as [_ He]; [|done]. by apply app_inj_1 in He as [? _].
Qed.

Lemma chain_det s p xs ys : chain s p xs → chain s p ys → xs = ys.
Proof.
  revert p ys. induction xs as [|[a bs] xs IH]; intros p [|[a' bs'] ys]; simpl; [done| | |].
  - by intros -> (<- & ? & _).
  - by intros (<- & ? & _) ->.
  - intros (-> & _ & b & Hb & Hl & _ & Hv & Hc) (<- & _ & b' & Hb' & Hl' & _ & Hv' & Hc').
    assert (b' = b) as -> by congruence. rewrite (view_det _ _ _ _ Hv Hv') by lia. f_equal. by eapply IH.
Qed.

(** The payloads of [xs] are not in the blocks of [A]. *)
Definition outside (s : pmem) (xs : list (Z * list Z)) (A : list Z) : Prop :=
  Forall (λ x, ∀ b, pm_buf s !! x.1 = Some b → pt_block (p_payload b) ∉ A) xs.

Lemma packet_outside s s' p xs A : packet s p xs → outside s xs A → mem_frame A s s' → packet s' p xs.
Proof.
  intros Hp Ho Hm. eapply packet_reshape; [done|apply shape_refl|by eapply mem_frame_buf|].
  pose proof (chain_views _ _ _ (proj1 Hp)) as Hv. unfold views. rewrite (mem_frame_buf _ _ _ Hm).
  apply Forall_forall. intros x Hx b Hb. eapply Forall_forall in Hv; [|exact Hx]. eapply Forall_forall in Ho; [|exact Hx].
  specialize (Hv b Hb). specialize (Ho b Hb). destruct Hm as [Hk _]. unfold view in *. by rewrite Hk.
Qed.

Lemma outside_buf s s' xs A : pm_buf s' = pm_buf s → outside s xs A → outside s' xs A.
Proof. unfold outside. by intros ->. Qed.

(** No empty pbufs after the first one. *)
Definition no_queue (xs : list (Z * list Z)) : Prop := Forall (λ x, x.2 ≠ []) (tail xs).

Lemma no_queue_tail x xs : no_queue (x :: xs) → no_queue xs.
Proof. unfold no_queue. simpl. destruct xs; [done|]. by intros [_ ?]%Forall_cons. Qed.

(** The test for queues of packets. *)
Lemma wp_queue_test s q xs (Q : bool → pmem → Prop) :
  packet s q xs → no_queue xs → Q false s →
  wp (if q =? 0 then mret false else b ← pb_load q; mret ((p_len b =? p_tot_len b) && negb (p_next b =? 0))) s Q.
Proof.
  intros Hp Hn HQ. destruct xs as [|[a bs] xs]; [destruct Hp as [Hp _]; simpl in Hp; by subst q|].
  apply packet_cons in Hp as (-> & Ha & _ & b & Hb & Hl & Ht & _ & Hp). rewrite (proj2 (Z.eqb_neq _ _) Ha).
  apply wp_bind. eapply wp_pb_load; [done|]. apply wp_ret.
  replace (_ && _) with false; [done|]. symmetry. apply andb_false_iff.
  destruct (Z.eqb_spec (p_len b) (p_tot_len b)) as [He|]; [right|by left]. apply negb_false_iff, Z.eqb_eq.
  destruct xs as [|[a' bs'] xs]; [by destruct Hp as [Hp _]|]. apply Forall_cons in Hn as [Hne _]. simpl in Hne.
  rewrite Ht, !total_cons, Hl in He. pose proof (total_nonneg xs). destruct bs'; [done|]. simpl in He. lia.
Qed.

Lemma wp_copy_loop fuel s pt pf from to ot of_ n (Q : Z → pmem → Prop) :
  packet s pf from → packet s pt to → own s to → outside s from to.*1 → no_queue from → no_queue to →
  0 ≤ of_ → 0 ≤ ot → 0 ≤ n →
  match from with (_, bs) :: _ => of_ ≤ Z.of_nat (length bs) | [] => False end →
  match to with (_, ds) :: _ => ot ≤ Z.of_nat (length ds) | [] => False end →
  of_ + n ≤ total from → ot + n ≤ total to → (length from + length to ≤ fuel)%nat →
  (∀ s', written s pt to ot (take (Z.to_nat n) (drop (Z.to_nat of_) (contents from))) s' → Q ERR_OK s') →
  wp (copy_loop fuel pt pf ot of_ n) s Q.
Proof.
  revert s pt pf from to ot of_ n Q. induction fuel as [|fuel IH];
    intros s pt pf from to ot of_ n Q Hf Ht Ho Hout Hqf Hqt Hof Hot Hn Hfl Htl Hfn Htn Hfuel HQ.
  { destruct from; [done|simpl in Hfuel; lia]. }
  destruct from as [|[a bs] from]; [done|]. destruct to as [|[c ds] to]; [done|].
  pose proof (packet_cons _ _ _ _ _ Hf) as (-> & Ha & _ & bf & Hbf & Hlf & _ & Hvf & Hf').
  pose proof (packet_cons _ _ _ _ _ Ht) as (-> & Hc & _ & bt & Hbt & Hlt & _ & Hvt & _).
  pose proof (proj2 (proj2 Hf)) as Hf16. pose proof (proj2 (proj2 Ht)) as Ht16.
  rewrite total_cons in Hf16, Ht16, Hfn, Htn. pose proof (total_nonneg from). pose proof (total_nonneg to).
  cbn [copy_loop]. apply wp_bind. eapply wp_pb_load; [exact Hbt|]. apply wp_bind. eapply wp_pb_load; [exact Hbf|].
  rewrite !(u64_small (p_len bf - of_)), !(u64_small (p_len bt - ot)) by lia.
  set (len := Z.min n (if p_len bf - of_ <=? p_len bt - ot then p_len bf - of_ else p_len bt - ot)).
  assert (len = Z.min n (Z.min (p_len bf - of_) (p_len bt - ot))) as Hlen.
  { unfold len. destruct (Z.leb_spec (p_len bf - of_) (p_len bt - ot)); lia. }
  clearbody len. set (piece := take (Z.to_nat len) (drop (Z.to_nat of_) bs)).
  assert (length piece = Z.to_nat len) as Hpl by (unfold piece; rewrite length_take, length_drop; lia).
  apply wp_bind. eapply wp_mem_load; [exact Hvf|lia|lia|lia|]. fold piece.
  destruct (write_middle s c [] c ds to bt ot piece Ht Ho Hbt) as (Hm & Hp1 & Hs1); [lia|lia|]. simpl in Hp1, Hs1.
  apply wp_bind. eapply wp_mem_store; [exact Hvt|lia|lia|]. set (s1 := pm_write (p_payload bt) ot piece s) in *.
  set (ds1 := list_inserts (Z.to_nat ot) piece ds) in *. assert (length ds1 = length ds) as Hlds by apply length_inserts.
  assert (written s c ((c, ds) :: to) ot piece s1) as Hw1.
  { exists ((c, ds1) :: to). split_and!; [eapply mem_frame_weaken; [done|]; intros k; simpl; set_solver|done|done|].
    rewrite !contents_cons, list_inserts_app_fit; [done|]. lia. }
  assert (mem_frame (c :: to.*1) s s1) as Hm1 by (eapply mem_frame_weaken; [done|]; intros k; set_solver).
  pose proof (packet_outside _ _ _ _ _ Hf Hout Hm1) as Hf1. pose proof (mem_frame_buf _ _ _ Hm) as Hbuf.
  assert (own s1 ((c, ds1) :: to)) as Ho1 by (eapply own_buf; [exact Hbuf|by eapply own_shape]).
  assert (outside s1 ((a, bs) :: from) (c :: to.*1)) as Hout1 by (by eapply outside_buf).
  rewrite !(u64_small (_ + len)), (u16_small (n - len)) by lia.
  apply wp_bind, wp_assert; [apply Z.leb_le; lia|]. apply wp_bind, wp_assert; [apply Z.leb_le; lia|].
  (* the rest of the source *)
  set (adv := p_len bf <=? of_ + len).
  assert (∃ pf' from' of', (if adv then (p_next bf, 0) else (a, of_ + len)) = (pf', of') ∧ packet s1 pf' from' ∧
    outside s1 from' (c :: to.*1) ∧ no_queue from' ∧ 0 ≤ of' ∧ of' + (n - len) ≤ total from' ∧
    (n - len ≠ 0 → pf' ≠ 0 ∧ match from' with (_, b) :: _ => of' ≤ Z.of_nat (length b) | [] => False end) ∧
    (length from' ≤ S (length from))%nat ∧ (adv = true → length from' = length from) ∧
    take (Z.to_nat (n - len)) (drop (Z.to_nat of') (contents from')) =
      drop (Z.to_nat len) (take (Z.to_nat n) (drop (Z.to_nat of_) (contents ((a, bs) :: from)))))
    as (pf' & from' & of' & Eadv & Hpf' & Hout' & Hq' & Hof' & Hfn' & Hnz & Hlfrom & Hladv & Hrest).
  { pose proof (packet_cons _ _ _ _ _ Hf1) as (_ & _ & _ & bf1 & Hbf1 & _ & _ & _ & Hf1').
    assert (bf1 = bf) as -> by (rewrite Hbuf in Hbf1; congruence).
    rewrite skipn_firstn_comm, drop_drop. destruct adv eqn:Eadv.
    - apply Z.leb_le in Eadv. exists (p_next bf), from, 0. rewrite contents_cons.
      split_and!; try done; try lia.
      + by apply Forall_cons in Hout1 as [_ ?].
      + by eapply no_queue_tail.
      + intros Hne. split; [|].
        * intros Hz. apply (chain_null _ _ _ (proj1 Hf1')) in Hz. subst from. unfold total in *. simpl in *. lia.
        * destruct from as [|[a' bs'] from]; [unfold total in *; simpl in *; lia|lia].
      + rewrite drop_app_ge by lia. f_equal; [lia|]. f_equal. lia.
    - apply Z.leb_gt in Eadv. exists a, ((a, bs) :: from), (of_ + len). rewrite total_cons.
      split_and!; try done; try lia.
      f_equal; [lia|]. f_equal. lia. }
  rewrite Eadv. replace ((pf' =? 0) && negb (n - len =? 0)) with false.
  2: { symmetry. apply andb_false_iff. destruct (Z.eqb_spec (n - len) 0) as [|Hne]; [by right|left].
       apply Z.eqb_neq. by apply Hnz. }
  (* the rest of the target *)
  set (adt := ot + len =? p_len bt).
  assert (∃ pt' to' ot', (if adt then (p_next bt, 0) else (c, ot + len)) = (pt', ot') ∧ packet s1 pt' to' ∧
    own s1 to' ∧ outside s1 from' to'.*1 ∧ no_queue to' ∧ 0 ≤ ot' ∧ ot' + (n - len) ≤ total to' ∧
    (n - len ≠ 0 → pt' ≠ 0 ∧ match to' with (_, b) :: _ => ot' ≤ Z.of_nat (length b) | [] => False end) ∧
    (length to' ≤ S (length to))%nat ∧ (adt = true → length to' = length to) ∧
    (∀ d s2, written s1 pt' to' ot' d s2 → written s1 c ((c, ds1) :: to) (ot + len) d s2))
    as (pt' & to' & ot' & Eadt & Hpt' & Ho' & Hoo' & Hqt' & Hot' & Htn' & Hnzt & Hlto & Hladt & Hwt).
  { pose proof (packet_cons _ _ _ _ _ Hp1) as (_ & _ & _ & bt1 & Hbt1 & _ & _ & _ & Ht1').
    assert (bt1 = bt) as -> by (rewrite Hbuf in Hbt1; congruence). destruct adt eqn:Eadt.
    - apply Z.eqb_eq in Eadt. exists (p_next bt), to, 0. split_and!; try done; try lia.
      + by apply Forall_cons in Ho1 as [_ ?].
      + eapply Forall_impl; [exact Hout'|]. intros x Hx b Hb Hin. apply (Hx b Hb). by right.
      + by eapply no_queue_tail.
      + intros Hne. split; [|destruct to as [|[c' ds'] to]; [unfold total in *; simpl in *; lia|lia]].
        intros Hz. apply (chain_null _ _ _ (proj1 Ht1')) in Hz. subst to. unfold total in *. simpl in *. lia.
      + intros d s2 Hw. apply (written_tail s1 s2 c _ [(c, ds1)]) in Hw; [|done|done|lia].
        rewrite total_cons in Hw. change (total []) with 0 in Hw. by replace (ot + len) with (Z.of_nat (length ds1) + 0 + 0) by lia.
    - exists c, ((c, ds1) :: to), (ot + len). rewrite total_cons. split_and!; try done; try lia. }
  rewrite Eadt. replace ((pt' =? 0) && negb (n - len =? 0)) with false.
  2: { symmetry. apply andb_false_iff. destruct (Z.eqb_spec (n - len) 0) as [|Hne]; [by right|left].
       apply Z.eqb_neq. by apply Hnzt. }
  apply wp_bind. eapply wp_queue_test; [exact Hpf'|done|]. apply wp_bind. eapply wp_queue_test; [exact Hpt'|done|].
  set (d := take (Z.to_nat n) (drop (Z.to_nat of_) (contents ((a, bs) :: from)))) in *.
  assert (d = piece ++ drop (Z.to_nat len) d) as Hd.
  { rewrite <-(take_drop (Z.to_nat len) d) at 1. f_equal. unfold d, piece. rewrite contents_cons, take_take, drop_app_le by lia.
    rewrite take_app_le by (rewrite length_drop; lia). f_equal. lia. }
  destruct (Z.eqb_spec (n - len) 0) as [Hend|Hmore]; simpl.
  - apply wp_ret, HQ. rewrite Hd. replace (drop (Z.to_nat len) d) with (@nil Z); [by rewrite app_nil_r|].
    symmetry. apply nil_length_inv. unfold d. rewrite length_drop, length_take. lia.
  - assert (len = p_len bf - of_ ∨ len = p_len bt - ot) as Hcase by lia.
    apply (IH s1 pt' pf' from' to' ot' of'); try done; try lia.
    + by apply Hnz.
    + by apply Hnzt.
    + assert (adv = true ∨ adt = true) as [E|E].
      { destruct Hcase as [E|E]; [left; apply Z.leb_le; lia|right; apply Z.eqb_eq; lia]. }
      * rewrite Hladv by done. simpl in Hfuel. lia.
      * rewrite Hladt by done. simpl in Hfuel. lia.
    + intros s' Hw. rewrite Hrest in Hw. apply HQ. rewrite Hd. eapply written_trans; [done|exact Hw1|].
      intros ys Hys Hsy. assert (ys = (c, ds1) :: to) as ->.
      { eapply chain_det; [apply Hys|apply Hp1]. }
      replace (ot + Z.of_nat (length piece)) with (ot + len) by lia. by apply Hwt.
Qed.

Lemma packet_ne s p xs : packet s p xs → xs ≠ [] → p ≠ 0.
Proof. intros Hp Hne Hz. apply Hne. by apply (chain_null _ _ _ (proj1 Hp)). Qed.

Lemma wp_copy_partial_pbuf s pt pf from to n off (Q : Z → pmem → Prop) :
  packet s pf from → packet s pt to → from ≠ [] → to ≠ [] → own s to → outside s from to.*1 → no_queue from → no_queue to →
  0 ≤ n → 0 ≤ off → match to with (_, ds) :: _ => off ≤ Z.of_nat (length ds) | [] => True end →
  (if (n <=? total from) && (off + n <=? total to) then ∀ s', written s pt to off (take (Z.to_nat n) (contents from)) s' → Q ERR_OK s'
   else Q ERR_ARG s) →
  wp (pbuf_copy_partial_pbuf pt pf n off) s Q.
Proof.
  intros Hf Ht Hnf Hnt Ho Hout Hqf Hqt Hn Hoff Hfirst HQ. unfold pbuf_copy_partial_pbuf.
  destruct from as [|[a bs] from]; [done|]. destruct to as [|[c ds] to]; [done|].
  pose proof (packet_cons _ _ _ _ _ Hf) as (-> & Ha & _ & bf & Hbf & _ & Htf & _).
  pose proof (packet_cons _ _ _ _ _ Ht) as (-> & Hc & _ & bt & Hbt & _ & Htt & _).
  rewrite (proj2 (Z.eqb_neq _ _) Ha). apply wp_bind. eapply wp_pb_load; [exact Hbf|]. rewrite Htf.
  destruct (Z.ltb_spec (total ((a, bs) :: from)) n) as [Hlt|Hge].
  { rewrite (proj2 (Z.leb_gt n _)) in HQ by lia. by apply wp_ret. }
  rewrite (proj2 (Z.leb_le n _)) in HQ by lia. simpl in HQ.
  rewrite (proj2 (Z.eqb_neq _ _) Hc). apply wp_bind. eapply wp_pb_load; [exact Hbt|]. rewrite Htt.
  destruct (Z.ltb_spec (total ((c, ds) :: to)) (off + n)) as [Hlt|Hge2].
  { rewrite (proj2 (Z.leb_gt _ _)) in HQ by lia. by apply wp_ret. }
  rewrite (proj2 (Z.leb_le _ _)) in HQ by lia. apply wp_bind, wp_gets.
  pose proof (packet_fuel _ _ _ Hf). pose proof (packet_fuel _ _ _ Ht).
  eapply wp_copy_loop; try done; cbn [length] in *; lia.
Qed.

Lemma wp_pbuf_copy s pt pf from to (Q : Z → pmem → Prop) :
  packet s pf from → packet s pt to → from ≠ [] → to ≠ [] → own s to → outside s from to.*1 → no_queue from → no_queue to →
  total from ≤ total to → (∀ s', written s pt to 0 (contents from) s' → Q ERR_OK s') →
  wp (pbuf_copy pt pf) s Q.
Proof.
  intros Hf Ht Hnf Hnt Ho Hout Hqf Hqt Hle HQ. unfold pbuf_copy. pose proof (packet_ne _ _ _ Hf Hnf) as Hp.
  rewrite (proj2 (Z.eqb_neq _ _) Hp). destruct from as [|[a bs] from]; [done|].
  pose proof (packet_cons _ _ _ _ _ Hf) as (-> & _ & _ & bf & Hbf & _ & Htf & _).
  apply wp_bind. eapply wp_pb_load; [exact Hbf|]. rewrite Htf.
  eapply wp_copy_partial_pbuf; try done; try apply total_nonneg; [by destruct to as [|[c ds] to]; [|lia]|].
  rewrite !(proj2 (Z.leb_le _ _)) by lia. simpl. intros s' Hw. apply HQ.
  rewrite take_ge in Hw by (unfold total; lia). done.
Qed.

(** ** Changes outside of a packet *)

Lemma packet_same s s' p xs :
  packet s p xs →
  Forall (λ x, pm_buf s' !! x.1 = pm_buf s !! x.1 ∧ ∀ b, pm_buf s !! x.1 = Some b →
    pm_mem s' !! pt_block (p_payload b) = pm_mem s !! pt_block (p_payload b)) xs →
  packet s' p xs.
Proof.
  intros (Hc & Hnd & Ht) Hf. split_and!; [|done|done]. clear Hnd Ht. revert p Hc.
  induction Hf as [|[a bs] xs [Hb Hm] _ IH]; intros p; simpl in *; [done|].
  intros (-> & Ha & b & Hb' & Hl & Ht & Hv & Hc). split_and!; [done..|]. exists b. rewrite Hb. split_and!; try done; [|by apply IH].
  unfold view in *. by rewrite (Hm b Hb').
Qed.

Lemma packet_insert s p xs a b : packet s p xs → a ∉ xs.*1 → packet (pm_set_buf (<[a := b]> (pm_buf s)) s) p xs.
Proof.
  intros Hp Ha. eapply packet_same; [done|]. apply Forall_forall. intros x Hx. split; [|done]. simpl.
  rewrite lookup_insert_ne; [done|]. intros ->. apply Ha. by apply list_elem_of_fmap_2.
Qed.

Lemma release_mem l s k : k ∉ l → pm_mem (release l s) !! k = pm_mem s !! k.
Proof.
  revert s. induction l as [|a l IH]; intros s Hk; simpl; [done|]. apply not_elem_of_cons in Hk as [Hka Hk].
  destruct (pm_buf s !! a) as [b|]; [|done]. destruct (p_ref b =? 1); [|done]. rewrite IH by done.
  unfold give_back. destruct (source_of b); try done. simpl. by rewrite lookup_delete_ne.
Qed.

Lemma packet_release s p xs l : packet s p xs → (∀ a, a ∈ xs.*1 → a ∉ l) → outside s xs l → packet (release l s) p xs.
Proof.
  intros Hp Hd Ho. eapply packet_same; [done|]. apply Forall_forall. intros x Hx. split.
  - apply release_lookup, Hd. by apply list_elem_of_fmap_2.
  - intros b Hb. apply release_mem. eapply Forall_forall in Ho; [|exact Hx]. by apply Ho.
Qed.

Lemma chain_addrs s p xs : chain s p xs → addrs s p xs.*1.
Proof.
  revert p. induction xs as [|[a bs] xs IH]; intros p; simpl; [done|].
  intros (-> & Ha & b & Hb & _ & _ & _ & Hc). split_and!; [done..|]. exists b. eauto.
Qed.

(** ** Copies *)

Lemma LWIP_MEM_ALIGN_SIZE_ge n : 0 ≤ n → n ≤ LWIP_MEM_ALIGN_SIZE n.
Proof.
  intros Hn. unfold LWIP_MEM_ALIGN_SIZE. change (Z.lnot 3) with (Z.lnot (Z.ones 2)). rewrite <-Z.ldiff_land, Z.ldiff_ones_r by lia.
  rewrite Z.shiftr_div_pow2, Z.shiftl_mul_pow2 by lia. change (2 ^ 2) with 4. pose proof (Z.mod_pos_bound (n + 3) 4). 
  pose proof (Z.div_mod (n + 3) 4). lia.
Qed.
Lemma LWIP_MEM_ALIGN_SIZE_le n : 0 ≤ n → LWIP_MEM_ALIGN_SIZE n ≤ n + 3.
Proof.
  intros Hn. unfold LWIP_MEM_ALIGN_SIZE. change (Z.lnot 3) with (Z.lnot (Z.ones 2)). rewrite <-Z.ldiff_land, Z.ldiff_ones_r by lia.
  rewrite Z.shiftr_div_pow2, Z.shiftl_mul_pow2 by lia. change (2 ^ 2) with 4. pose proof (Z.mod_pos_bound (n + 3) 4). 
  pose proof (Z.div_mod (n + 3) 4). lia.
Qed.

Definition layers : list Z := [PBUF_TRANSPORT; PBUF_IP; PBUF_LINK; PBUF_RAW].

(** A new pbuf of the heap. *)
Lemma wp_alloc_ram s at_ fill layer len (Q : Z → pmem → Prop) :
  layer ∈ layers → 0 ≤ len < 2 ^ 16 → (match at_ with Some a => a ≠ 0 | None => True end) →
  match at_ with
  | None => Q 0 s
  | Some a => ∀ s' bs, packet s' a [(a, bs)] → own s' [(a, bs)] → Z.of_nat (length bs) = len →
      (∃ b m, s' = pm_set_buf (<[a := b]> (pm_buf s)) (pm_set_heap ({[a]} ∪ pm_heap s) (pm_set_mem (<[a := m]> (pm_mem s)) s))) → Q a s'
  end → wp (pbuf_alloc at_ fill layer len PBUF_RAM) s Q.
Proof.
  intros Hlay Hlen Hat HQ. unfold pbuf_alloc. change ((PBUF_RAM =? PBUF_REF) || (PBUF_RAM =? PBUF_ROM)) with false.
  change (PBUF_RAM =? PBUF_POOL) with false. change (PBUF_RAM =? PBUF_RAM) with true.
  assert (0 ≤ layer ≤ 76 ∧ LWIP_MEM_ALIGN_SIZE layer = layer) as [Hl Hal].
  { unfold layers in Hlay. repeat (apply elem_of_cons in Hlay as [->|Hlay]; [done|]). by apply not_elem_of_nil in Hlay. }
  rewrite (u16_small layer) by lia. rewrite Hal. change (LWIP_MEM_ALIGN_SIZE SIZEOF_STRUCT_PBUF) with 24.
  pose proof (LWIP_MEM_ALIGN_SIZE_ge len ltac:(lia)). pose proof (LWIP_MEM_ALIGN_SIZE_le len ltac:(lia)).
  rewrite !(u64_small (layer + _)), !(u64_small (24 + _)) by lia.
  rewrite !(proj2 (Z.ltb_ge _ _)) by lia. cbn [orb]. apply wp_bind. unfold mem_malloc. destruct at_ as [a|].
  - apply wp_bind, wp_modify, wp_ret. rewrite (proj2 (Z.eqb_neq _ _) Hat). apply wp_bind, wp_modify, wp_ret.
    set (m := fill <$> _). set (bs := take (Z.to_nat len) (drop (Z.to_nat layer) m)).
    assert (Z.of_nat (length bs) = len) as Hbs.
    { unfold bs, m. rewrite length_take, length_drop, length_fmap, length_seq. unfold SIZEOF_STRUCT_PBUF. lia. }
    apply (HQ _ bs); [|apply Forall_singleton; simpl; intros b; rewrite lookup_insert_eq; by intros [= <-]|done|by eexists _, m].
    split_and!; [|by apply NoDup_singleton|rewrite total_cons; change (total []) with 0; lia].
    simpl. split_and!; [done..|]. eexists. rewrite lookup_insert_eq. split; [done|]. simpl. split_and!; try done.
    + rewrite total_cons. change (total []) with 0. lia.
    + right. exists (take (Z.to_nat layer) m), (drop (Z.to_nat len) (drop (Z.to_nat layer) m)). simpl. rewrite lookup_insert_eq. split.
      * f_equal. unfold bs. by rewrite take_drop, take_drop.
      * rewrite length_take. unfold m. rewrite length_fmap, length_seq. unfold SIZEOF_STRUCT_PBUF. lia.
  - by apply wp_ret.
Qed.

(** An address that neither is a pbuf nor holds the payload of one of [xs]. *)
Definition fresh_for (s : pmem) (xs : list (Z * list Z)) (a : Z) : Prop :=
  a ≠ 0 ∧ a ∉ xs.*1 ∧ outside s xs [a].

Lemma wp_pbuf_clone s at_ fill layer p xs (Q : Z → pmem → Prop) :
  layer ∈ layers → packet s p xs → xs ≠ [] → no_queue xs → (match at_ with Some a => fresh_for s xs a | None => True end) →
  match at_ with
  | None => Q 0 s
  | Some a => ∀ s', packet s' a [(a, contents xs)] → own s' [(a, contents xs)] → packet s' p xs →
      (∃ b m, s' = pm_set_buf (<[a := b]> (pm_buf s)) (pm_set_heap ({[a]} ∪ pm_heap s) (pm_set_mem m s)) ∧
        ∀ k, k ≠ a → m !! k = pm_mem s !! k) → Q a s'
  end → wp (pbuf_clone at_ fill layer PBUF_RAM p) s Q.
Proof.
  intros Hlay Hp Hne Hq Hat HQ. unfold pbuf_clone. destruct xs as [|[h bs0] xs0] eqn:Hxs; [done|]. rewrite <-Hxs in *.
  assert (∃ bp, pm_buf s !! p = Some bp ∧ p_tot_len bp = total xs) as (bp & Hbp & Htp).
  { rewrite Hxs in Hp. apply packet_cons in Hp as (-> & _ & _ & b & Hb & _ & Ht & _). exists b. by rewrite Hxs. }
  clear Hxs h bs0 xs0.
  apply wp_bind. eapply wp_pb_load; [exact Hbp|]. rewrite Htp. apply wp_bind.
  pose proof (total_nonneg xs). pose proof (proj2 (proj2 Hp)).
  eapply wp_alloc_ram; [done|lia|by destruct at_ as [a|]; [destruct Hat|]|]. destruct at_ as [a|]; [|by apply wp_ret].
  destruct Hat as (Ha0 & Han & Hout). intros s1 bs Hpa Hoa Hbs (b & m & ->).
  set (s1 := pm_set_buf _ _) in *. rewrite (proj2 (Z.eqb_neq _ _) Ha0).
  assert (packet s1 p xs) as Hp1.
  { eapply packet_same; [exact Hp|]. apply Forall_forall. intros x Hx. assert (x.1 ≠ a) as Hxa.
    { intros <-. apply Han. by apply list_elem_of_fmap_2. }
    unfold s1. simpl. rewrite lookup_insert_ne by done. split; [done|]. intros c Hc.
    eapply Forall_forall in Hout; [|exact Hx]. specialize (Hout c Hc). rewrite lookup_insert_ne; [done|]. set_solver. }
  apply wp_bind. eapply (wp_pbuf_copy _ _ _ xs [(a, bs)]); [done|done|done|done|done| |done|constructor|rewrite total_cons; change (total []) with 0; lia|].
  { apply Forall_forall. intros x Hx c Hc. simpl. eapply Forall_forall in Hout; [|exact Hx]. apply Hout.
    unfold s1 in Hc. simpl in Hc. rewrite lookup_insert_ne in Hc; [done|]. intros ->. apply Han. by apply list_elem_of_fmap_2. }
  intros s2 (ys & Hm2 & Hp2 & Hs2 & Hc2). apply wp_bind, wp_assert; [done|]. apply wp_ret.
  assert (ys = [(a, contents xs)]) as ->.
  { inversion Hs2 as [|? [a' bs'] ? ? [Ha' Hl'] Hnil]; subst. inversion Hnil; subst. simpl in Ha', Hl'. subst a'. f_equal. f_equal.
    rewrite !contents_cons in Hc2. change (contents []) with (@nil Z) in Hc2. rewrite !app_nil_r in Hc2. rewrite Hc2. simpl.
    pose proof (list_inserts_0_l (contents xs) [] bs) as Hins. rewrite app_nil_r in Hins. apply Hins. unfold total in *. lia. }
  apply HQ; [done| | |].
  - eapply own_buf; [by eapply mem_frame_buf|]. by eapply own_shape.
  - eapply packet_outside; [exact Hp1| |exact Hm2]. apply Forall_forall. intros x Hx c Hc. simpl.
    eapply Forall_forall in Hout; [|exact Hx]. apply Hout.
    unfold s1 in Hc. simpl in Hc. rewrite lookup_insert_ne in Hc; [done|]. intros ->. apply Han. by apply list_elem_of_fmap_2.
  - destruct Hm2 as [Hk [m2 ->]]. exists b, m2. split; [done|]. intros k Hka.
    specialize (Hk k ltac:(set_solver)). simpl in Hk. by rewrite Hk, lookup_insert_ne.
Qed.

Lemma wp_pbuf_coalesce s at_ fill layer p xs (Q : Z → pmem → Prop) :
  layer ∈ layers → packet s p xs → xs ≠ [] → no_queue xs → Forall (disposable s) xs.*1 →
  (match at_ with Some a => fresh_for s xs a | None => True end) →
  (∀ q s' ys, packet s' q ys → contents ys = contents xs → (at_ ≠ None → length ys = 1%nat) → Q q s') →
  wp (pbuf_coalesce at_ fill p layer) s Q.
Proof.
  intros Hlay Hp Hne Hq Hd Hat HQ. unfold pbuf_coalesce. destruct xs as [|[h bs0] xs0] eqn:Hxs; [done|].
  pose proof (packet_cons _ _ _ _ _ Hp) as (-> & Hh & Hni & bp & Hbp & _ & _ & _ & Hp'). apply wp_bind. eapply wp_pb_load; [exact Hbp|].
  destruct (Z.eqb_spec (p_next bp) 0) as [Hz|Hnz].
  { apply wp_ret. eapply HQ; [exact Hp|done|]. intros _. apply (chain_null _ _ _ (proj1 Hp')) in Hz. by subst xs0. }
  rewrite <-Hxs in *. apply wp_bind. eapply wp_pbuf_clone; [done|exact Hp|by rewrite Hxs|done|done|].
  destruct at_ as [a|]; [|apply wp_ret; by eapply HQ].
  intros s' Hpa Hoa Hps (b & m & -> & Hm). set (s' := pm_set_buf _ _) in *. destruct Hat as (Ha0 & Han & Hout).
  rewrite (proj2 (Z.eqb_neq _ _) Ha0). apply wp_bind. eapply wp_pbuf_free; [apply chain_addrs, Hps|done| |].
  - apply Forall_forall. intros x Hx c Hc. eapply Forall_forall in Hd; [|exact Hx].
    assert (x ≠ a) by (by intros ->). unfold s' in Hc. simpl in Hc. rewrite lookup_insert_ne in Hc by done.
    destruct (Hd c Hc) as (? & ? & Hheap). split_and?; try done; try lia. intros Hs. specialize (Hheap Hs). unfold s'. simpl. set_solver.
  - apply wp_ret. apply (HQ a _ [(a, contents xs)]); [|by rewrite contents_cons; change (contents []) with (@nil Z); rewrite app_nil_r|done].
    eapply packet_release; [exact Hpa| |].
    + intros x. simpl. intros ->%list_elem_of_singleton. done.
    + apply Forall_singleton. simpl. intros c Hc. apply Forall_cons in Hoa as [Hoa _]. simpl in Hoa. by rewrite (Hoa c Hc).
Qed.

(** ** Joining *)

(** What joining leaves as it is. *)
Definition attrs (b : pbuf) : ptr * Z * Z * Z := (p_payload b, p_type_internal b, p_flags b, p_ref b).
Definition kept (s s' : pmem) : Prop :=
  (∀ k, attrs <$> pm_buf s' !! k = attrs <$> pm_buf s !! k) ∧ pm_heap s' = pm_heap s.

Lemma kept_insert s a b b' : pm_buf s !! a = Some b → attrs b' = attrs b → kept s (pm_set_buf (<[a := b']> (pm_buf s)) s).
Proof.
  intros Hb Ha. split; [|done]. intros k. simpl. destruct (decide (k = a)) as [->|].
  - rewrite lookup_insert_eq, Hb. simpl. by rewrite Ha.
  - by rewrite lookup_insert_ne.
Qed.
Lemma kept_trans s1 s2 s3 : kept s1 s2 → kept s2 s3 → kept s1 s3.
Proof. intros [H1 E1] [H2 E2]. split; [intros k; by rewrite H2, H1|congruence]. Qed.

Lemma kept_lookup s s' k b' : kept s s' → pm_buf s' !! k = Some b' → ∃ b, pm_buf s !! k = Some b ∧ attrs b' = attrs b.
Proof. intros [Hk _] Hb'. specialize (Hk k). rewrite Hb' in Hk. simpl in Hk. symmetry in Hk. apply fmap_Some in Hk as (b & ? & ?). eauto. Qed.

Lemma kept_own s s' xs : kept s s' → own s xs → own s' xs.
Proof.
  intros Hk Ho. eapply Forall_impl; [exact Ho|]. intros x Hx b' Hb'. destruct (kept_lookup _ _ _ _ Hk Hb') as (b & Hb & [= -> _ _ _]). by apply Hx.
Qed.

Lemma kept_disposable s s' a : kept s s' → disposable s a → disposable s' a.
Proof.
  intros Hk Hd b' Hb'. destruct (kept_lookup _ _ _ _ Hk Hb') as (b & Hb & [= Hp Ht Hf Hr]).
  assert (source_of b' = source_of b) as Hs by (unfold source_of, pbuf_get_allocsrc; by rewrite Ht, Hf).
  rewrite Hr, Hs, (proj2 Hk). by apply Hd.
Qed.

(** [pbuf_cat] from the pbuf [p] of the first chain on. *)
Definition cat_rest (fuel : nat) (p t : Z) : stm pmem unit :=
  p ← cat_loop fuel p t;
  b ← pb_load p;
  lwip_assert (p_tot_len b =? p_len b);;
  tb ← pb_load t;
  pb_update p (p_set_tot_len (u16 (p_tot_len b + p_tot_len tb)));;
  pb_update p (p_set_next t).

(** The same apart from the pbufs of [A]. *)
Definition buf_frame (A : list Z) (s s' : pmem) : Prop :=
  (∀ k, k ∉ A → pm_buf s' !! k = pm_buf s !! k) ∧ ∃ m, s' = pm_set_buf m s.

Lemma buf_frame_refl A s : buf_frame A s s.
Proof. split; [done|]. exists (pm_buf s). by destruct s. Qed.
Lemma buf_frame_insert A a b s : a ∈ A → buf_frame A s (pm_set_buf (<[a := b]> (pm_buf s)) s).
Proof. intros Ha. split; [|by eexists]. intros k Hk. simpl. rewrite lookup_insert_ne; [done|]. by intros ->. Qed.
Lemma buf_frame_trans A s1 s2 s3 : buf_frame A s1 s2 → buf_frame A s2 s3 → buf_frame A s1 s3.
Proof. intros [H1 [m1 ->]] [H2 [m2 ->]]. split; [|by exists m2]. intros k Hk. rewrite H2, H1; done. Qed.
Lemma buf_frame_weaken A B s s' : buf_frame A s s' → (∀ k, k ∈ A → k ∈ B) → buf_frame B s s'.
Proof. intros [H1 H2] HA. split; [|done]. intros k Hk. apply H1. auto. Qed.
Lemma packet_buf_frame A s s' p xs : packet s p xs → buf_frame A s s' → (∀ a, a ∈ xs.*1 → a ∉ A) → packet s' p xs.
Proof.
  intros Hp [Hk [m ->]] Hd. eapply packet_same; [done|]. apply Forall_forall. intros x Hx. split; [|done].
  apply Hk, Hd. by apply list_elem_of_fmap_2.
Qed.

Lemma wp_cat_rest fuel s p t xs ys (Q : unit → pmem → Prop) :
  packet s p xs → packet s t ys → xs ≠ [] → ys ≠ [] → (∀ a, a ∈ xs.*1 → a ∉ ys.*1) → total xs + total ys < 2 ^ 16 →
  (length xs ≤ fuel)%nat → (∀ s', buf_frame xs.*1 s s' → kept s s' → packet s' p (xs ++ ys) → Q tt s') → wp (cat_rest fuel p t) s Q.
Proof.
  revert fuel s p Q. induction xs as [|[a bs] xs IH]; intros fuel s p Q Hp Ht Hnx Hny Hd Htot Hf HQ; [done|].
  destruct fuel as [|fuel]; [simpl in Hf; lia|]. pose proof (total_nonneg ys) as Hty. pose proof (total_nonneg xs) as Htx.
  pose proof (packet_cons _ _ _ _ _ Hp) as (-> & Ha & Hni & b & Hb & Hl & Htb & Hv & Hp').
  assert (∃ tb, pm_buf s !! t = Some tb ∧ p_tot_len tb = total ys) as (tb & Htt & Htlen).
  { destruct ys as [|[c ds] ys]; [done|]. apply packet_cons in Ht as (-> & _ & _ & tb & ? & _ & ? & _). eauto. }
  assert (t ≠ 0) as Ht0 by (by eapply packet_ne).
  assert (t ≠ a) as Hta. { intros ->. apply (Hd a); [left|]. destruct ys as [|[c ds] ys]; [done|]. destruct Ht as [(-> & _) _]. left. }
  unfold cat_rest. cbn [cat_loop]. apply wp_bind, wp_bind. eapply wp_pb_load; [exact Hb|].
  destruct (Z.eqb_spec (p_next b) 0) as [Hz|Hnz]; simpl.
  - apply (chain_null _ _ _ (proj1 Hp')) in Hz as Hxs. subst xs. apply wp_ret. apply wp_bind. eapply wp_pb_load; [exact Hb|].
    rewrite total_cons in Htb, Htot. change (total []) with 0 in *. apply wp_bind, wp_assert; [apply Z.eqb_eq; lia|].
    apply wp_bind. eapply wp_pb_load; [exact Htt|]. apply wp_bind. eapply wp_pb_update; [exact Hb|].
    eapply wp_pb_update; [apply lookup_insert_eq|]. simpl. rewrite insert_insert_eq. rewrite u16_small by lia.
    set (b' := p_set_next t _). change (pm_set_buf (<[a := b']> (pm_buf s)) (pm_set_buf (<[a := p_set_tot_len (p_tot_len b + p_tot_len tb) b]> (pm_buf s)) s))
      with (pm_set_buf (<[a := b']> (pm_buf s)) s).
    apply HQ; [apply buf_frame_insert; left|by eapply (kept_insert s a b)|]. assert (a ∉ ys.*1) as Hay by (apply Hd; left).
    assert (packet (pm_set_buf (<[a := b']> (pm_buf s)) s) t ys) as Ht' by (by apply packet_insert).
    split_and!; [|simpl; by apply NoDup_cons; split; [|apply Ht]|simpl; rewrite total_cons; lia].
    simpl. split_and!; [done..|]. exists b'. rewrite lookup_insert_eq. split_and!; [done|done| |done|apply Ht'].
    simpl. rewrite total_cons. lia.
  - destruct xs as [|x2 xs]; [by destruct Hp' as [Hp' _]|].
    apply wp_bind. eapply wp_pb_load; [exact Htt|]. apply wp_bind. eapply wp_pb_update; [exact Hb|].
    rewrite total_cons in Htb, Htot. rewrite u16_small by lia.
    set (b' := p_set_tot_len _ b). set (s1 := pm_set_buf (<[a := b']> (pm_buf s)) s).
    assert (packet s1 (p_next b) (x2 :: xs)) as Hp1 by (by apply packet_insert).
    assert (a ∉ ys.*1) as Hay by (apply Hd; left).
    assert (packet s1 t ys) as Ht1 by (by apply packet_insert).
    apply (wp_bind_inv (cat_loop fuel (p_next b) t)). apply (IH fuel s1 (p_next b)); try done.
    { intros k Hk. apply Hd. by right. } { lia. } { simpl in *. lia. }
    intros s' Hfr Hkp Hp2. apply HQ.
    + eapply buf_frame_trans; [apply (buf_frame_insert _ a b'); left|]. eapply buf_frame_weaken; [exact Hfr|]. intros k Hk. by right.
    + eapply kept_trans; [by eapply (kept_insert s a b b')|done].
    + assert (pm_buf s' !! a = Some b') as Ha'. { rewrite (proj1 Hfr) by done. apply lookup_insert_eq. }
      assert (pm_mem s' = pm_mem s) as Hm' by (destruct Hfr as [_ [m ->]]; done).
      destruct Hp2 as (Hc2 & Hnd2 & Ht2). rewrite total_app in Ht2.
      assert (total (((a, bs) :: x2 :: xs) ++ ys) = Z.of_nat (length bs) + total (x2 :: xs) + total ys) as Hsum
        by (rewrite total_app, total_cons; lia).
      split_and!; [|simpl; apply NoDup_cons; split; [|done]|by rewrite Hsum].
      * cbn [app chain]. split_and!; [done..|]. exists b'. split_and!; [done|done| | |done].
        -- etrans; [|symmetry; exact Hsum]. simpl p_tot_len. lia.
        -- unfold view. by rewrite Hm'.
      * change (a ∉ ((x2 :: xs) ++ ys).*1). rewrite fmap_app, elem_of_app. by intros [?|?].
Qed.

Lemma wp_pbuf_cat s h t xs ys (Q : unit → pmem → Prop) :
  packet s h xs → packet s t ys → xs ≠ [] → ys ≠ [] → (∀ a, a ∈ xs.*1 → a ∉ ys.*1) → total xs + total ys < 2 ^ 16 →
  (∀ s', buf_frame xs.*1 s s' → kept s s' → packet s' h (xs ++ ys) → Q tt s') → wp (pbuf_cat h t) s Q.
Proof.
  intros Hp Ht Hnx Hny Hd Htot HQ. unfold pbuf_cat.
  pose proof (packet_ne _ _ _ Hp Hnx) as Hh0. pose proof (packet_ne _ _ _ Ht Hny) as Ht0.
  rewrite (proj2 (Z.eqb_neq _ _) Hh0), (proj2 (Z.eqb_neq _ _) Ht0). simpl.
  apply wp_bind, wp_assert.
  - apply negb_true_iff, Z.eqb_neq. intros ->. destruct xs as [|[a bs] xs], ys as [|[c ds] ys]; try done.
    destruct Hp as [(-> & _) _], Ht as [(-> & _) _]. by apply (Hd c); left.
  - apply wp_bind, wp_gets. pose proof (packet_fuel _ _ _ Hp). eapply wp_cat_rest; try done. lia.
Qed.

(** ** Shrinking *)

(** The first [n] bytes. *)
Fixpoint cut (n : nat) (xs : list (Z * list Z)) : list (Z * list Z) :=
  match xs with
  | [] => []
  | (a, bs) :: xs => if decide (n ≤ length bs)%nat then [(a, take n bs)] else (a, bs) :: cut (n - length bs) xs
  end.

Lemma contents_cut n xs : contents (cut n xs) = take n (contents xs).
Proof.
  revert n. induction xs as [|[a bs] xs IH]; intros n; cbn [cut]; [by destruct n|]. rewrite contents_cons. case_decide as Hn.
  - rewrite contents_cons. change (contents []) with (@nil Z). by rewrite app_nil_r, take_app_le.
  - rewrite contents_cons, IH, take_app_ge by lia. done.
Qed.

Lemma cut_addrs n xs a : a ∈ (cut n xs).*1 → a ∈ xs.*1.
Proof.
  revert n. induction xs as [|[x bs] xs IH]; intros n; simpl; [done|]. case_decide; simpl; [set_solver|].
  intros [->|Ha]%elem_of_cons; [left|right; by eapply IH].
Qed.

(** [pbuf_realloc] from the pbuf [p] of the chain on. *)
Definition realloc_rest (fuel : nat) (p n shrink : Z) : stm pmem unit :=
  r ← realloc_loop fuel p n shrink;
  let '(q, rem_len) := r in
  pb_update q (p_set_len rem_len);;
  pb_update q (p_set_tot_len rem_len);;
  b ← pb_load q;
  (if negb (p_next b =? 0) then _ ← pbuf_free (p_next b); mret tt else mret tt);;
  pb_update q (p_set_next 0).

Lemma view_take s q bs n : view s q bs → view s q (take n bs).
Proof.
  intros [->|(m1 & m2 & Hm & Ho)]; [left; apply take_nil|]. right. exists m1, (drop n bs ++ m2). split; [|done].
  rewrite Hm, (app_assoc (take n bs)), take_drop. done.
Qed.

Lemma wp_realloc_rest fuel s p xs n (Q : unit → pmem → Prop) :
  packet s p xs → own s xs → Forall (disposable s) xs.*1 → 0 ≤ n < total xs → (length xs ≤ fuel)%nat →
  (∀ s' l, (∀ k, k ∉ xs.*1 → pm_buf s' !! k = pm_buf s !! k ∧ pm_mem s' !! k = pm_mem s !! k) →
    packet s' p (cut (Z.to_nat n) xs) → xs.*1 = (cut (Z.to_nat n) xs).*1 ++ l → Q tt s') →
  wp (realloc_rest fuel p n (total xs - n)) s Q.
Proof.
  revert fuel s p n Q. induction xs as [|[a bs] xs IH]; intros fuel s p n Q Hp Ho Hd Hn Hf HQ.
  { change (total []) with 0 in Hn. lia. }
  destruct fuel as [|fuel]; [simpl in Hf; lia|].
  pose proof (packet_cons _ _ _ _ _ Hp) as (-> & Ha & Hni & b & Hb & Hl & Htb & Hv & Hp').
  pose proof (proj2 (proj2 Hp)) as H16. rewrite total_cons in Hn, H16, Htb. pose proof (total_nonneg xs) as Hnn.
  apply Forall_cons in Hd as [_ Hd]. apply Forall_cons in Ho as [Hoa Ho]. simpl in Hoa.
  unfold realloc_rest. cbn [realloc_loop]. apply wp_bind, wp_bind. eapply wp_pb_load; [exact Hb|].
  destruct (Z.ltb_spec (p_len b) n) as [Hlt|Hge].
  - apply wp_bind. eapply wp_pb_update; [exact Hb|]. rewrite Htb, total_cons.
    rewrite !u16_small by lia.
    replace (Z.of_nat (length bs) + total xs - (Z.of_nat (length bs) + total xs - n)) with n by lia.
    set (b' := p_set_tot_len n b). set (s1 := pm_set_buf (<[a := b']> (pm_buf s)) s).
    apply wp_bind, wp_assert.
    { apply negb_true_iff, Z.eqb_neq. intros Hz. apply (chain_null _ _ _ (proj1 Hp')) in Hz. subst xs. change (total []) with 0 in *. lia. }
    apply (wp_bind_inv (realloc_loop fuel (p_next b) (n - p_len b) _)).
    replace (Z.of_nat (length bs) + total xs - n) with (total xs - (n - p_len b)) by lia.
    assert (∀ x, x ∈ xs.*1 → x ≠ a) as Hxa by (by intros x Hx ->).
    apply (IH fuel s1 (p_next b)); [by apply packet_insert| | |lia|simpl in Hf; lia|].
    + apply Forall_forall. intros x Hx c. simpl. rewrite lookup_insert_ne by (symmetry; apply Hxa; by apply list_elem_of_fmap_2).
      eapply Forall_forall in Ho; [|exact Hx]. apply Ho.
    + apply Forall_forall. intros x Hx c. unfold s1. simpl. rewrite lookup_insert_ne by (symmetry; by apply Hxa).
      eapply Forall_forall in Hd; [|exact Hx]. apply Hd.
    + intros s' l Hfr Hp2 Hsplit. assert (Z.to_nat (n - p_len b) = Z.to_nat n - length bs)%nat as Hnn' by lia. rewrite Hnn' in *.
      apply (HQ s' l).
      * intros k Hk. simpl in Hk. apply not_elem_of_cons in Hk as [Hka Hk]. destruct (Hfr k Hk) as [E1 E2]. split; [|done].
        rewrite E1. unfold s1. simpl. by rewrite lookup_insert_ne.
      * cbn [cut]. rewrite decide_False by lia. destruct Hp2 as (Hc2 & Hnd2 & _). destruct (Hfr a Hni) as [E1 E2].
        assert (total ((a, bs) :: cut (Z.to_nat n - length bs) xs) = n) as Ht2.
        { unfold total. rewrite contents_cons, contents_cut, length_app, length_take. unfold total in *. lia. }
        split_and!; [|simpl; apply NoDup_cons; split; [by intros ?%cut_addrs|done]|rewrite Ht2; lia].
        cbn [chain]. split_and!; [done..|]. exists b'. rewrite E1. split_and!; [apply lookup_insert_eq|done|by rewrite Ht2| |done].
        unfold view. simpl. rewrite (Hoa b Hb), E2. unfold view in Hv. by rewrite (Hoa b Hb) in Hv.
      * simpl. rewrite decide_False by lia. simpl. by rewrite Hsplit at 1.
  - apply wp_ret. apply wp_bind. eapply wp_pb_update; [exact Hb|]. apply wp_bind. eapply wp_pb_update; [apply lookup_insert_eq|].
    apply wp_bind. eapply wp_pb_load; [apply lookup_insert_eq|]. simpl p_next. cbn [pm_buf pm_set_buf]. rewrite insert_insert_eq.
    set (b' := p_set_tot_len n (p_set_len n b)).
    match goal with |- wp _ ?st _ => change st with (pm_set_buf (<[a := b']> (pm_buf s)) s) end.
    set (s1 := pm_set_buf (<[a := b']> (pm_buf s)) s).
    assert (packet s1 (p_next b) xs) as Hp1 by (by apply packet_insert).
    set (s2 := if p_next b =? 0 then s1 else release xs.*1 s1).
    apply wp_bind. apply (wp_mono _ _ (λ _ s', s' = s2)).
    { unfold s2. destruct (Z.eqb_spec (p_next b) 0) as [Hz|Hz]; simpl; [by apply wp_ret|]. apply wp_bind.
      eapply wp_pbuf_free; [apply chain_addrs, Hp1|done| |by apply wp_ret].
      apply Forall_forall. intros x Hx c. unfold s1. simpl. rewrite lookup_insert_ne by (by intros ->).
      eapply Forall_forall in Hd; [|exact Hx]. apply Hd. }
    intros [] s2' ->.
    assert (∀ k, k ∉ xs.*1 → pm_buf s2 !! k = pm_buf s1 !! k ∧ pm_mem s2 !! k = pm_mem s1 !! k) as Hfr.
    { intros k Hk. unfold s2. case_match; [done|]. split; [by apply release_lookup|by apply release_mem]. }
    destruct (Hfr a Hni) as [E1 E2]. eapply wp_pb_update; [rewrite E1; apply lookup_insert_eq|].
    assert (cut (Z.to_nat n) ((a, bs) :: xs) = [(a, take (Z.to_nat n) bs)]) as Hcut by (simpl; rewrite decide_True by lia; done).
    apply (HQ _ xs.*1); [| |by rewrite Hcut].
    + intros k Hk. simpl in Hk. apply not_elem_of_cons in Hk as [Hka Hk]. destruct (Hfr k Hk) as [F1 F2]. simpl.
      rewrite lookup_insert_ne, F1 by done. unfold s1. simpl. rewrite lookup_insert_ne by done. done.
    + rewrite Hcut. assert (total [(a, take (Z.to_nat n) bs)] = n) as Ht2.
      { rewrite total_cons, length_take. change (total []) with 0. lia. }
      split_and!; [|by apply NoDup_singleton|rewrite Ht2; lia].
      cbn [chain]. split_and!; [done..|]. eexists. split; [apply lookup_insert_eq|]. simpl p_len. simpl p_tot_len. rewrite Ht2.
      split_and!; [rewrite length_take; lia|done| |done]. apply view_take. simpl p_payload. unfold view in *. cbn [pm_mem pm_set_buf].
      rewrite (Hoa b Hb) in *. by rewrite E2.
Qed.

Lemma cut_all n xs : total xs ≤ Z.of_nat n → contents (cut n xs) = contents xs.
Proof. intros H. rewrite contents_cut, take_ge; [done|]. unfold total in H. lia. Qed.

Lemma wp_pbuf_realloc s p xs n (Q : unit → pmem → Prop) :
  packet s p xs → xs ≠ [] → own s xs → Forall (disposable s) xs.*1 → 0 ≤ n →
  (∀ s' ys, (∀ k, k ∉ xs.*1 → pm_buf s' !! k = pm_buf s !! k ∧ pm_mem s' !! k = pm_mem s !! k) →
    packet s' p ys → contents ys = take (Z.to_nat n) (contents xs) → Q tt s') →
  wp (pbuf_realloc p n) s Q.
Proof.
  intros Hp Hne Ho Hd Hn HQ. unfold pbuf_realloc. pose proof (packet_ne _ _ _ Hp Hne) as Hp0.
  apply wp_bind, wp_assert; [by apply negb_true_iff, Z.eqb_neq|].
  assert (∃ b, pm_buf s !! p = Some b ∧ p_tot_len b = total xs) as (b & Hb & Ht).
  { destruct xs as [|[a bs] xs]; [done|]. apply packet_cons in Hp as (-> & _ & _ & b & ? & _ & ? & _). eauto. }
  apply wp_bind. eapply wp_pb_load; [exact Hb|]. rewrite Ht.
  destruct (Z.leb_spec (total xs) n) as [Hle|Hgt].
  - apply wp_ret. apply (HQ s xs); [done|done|]. rewrite take_ge; [done|]. unfold total in Hle. lia.
  - apply wp_bind, wp_gets. pose proof (packet_fuel _ _ _ Hp) as Hf. pose proof (proj2 (proj2 Hp)).
    rewrite u16_small by lia. eapply wp_realloc_rest; [done|done|done|lia|lia|].
    intros s' l Hfr Hp' _. apply (HQ s' _ Hfr Hp'). apply contents_cut.
Qed.

(** ** Headers *)

Lemma ptr_add_add q i j : ptr_add (ptr_add q i) j = ptr_add q (i + j).
Proof. unfold ptr_add. simpl. f_equal. lia. Qed.
Lemma ptr_add_0 q : ptr_add q 0 = q.
Proof. destruct q. unfold ptr_add. simpl. f_equal. lia. Qed.

Lemma view_drop s q bs n : (n ≤ length bs)%nat → view s q bs → view s (ptr_add q (Z.of_nat n)) (drop n bs).
Proof.
  intros Hn [->|(m1 & m2 & Hm & Ho)]; [left; apply drop_nil|]. right. exists (m1 ++ take n bs), m2. simpl. split.
  - rewrite Hm, <-!app_assoc. by rewrite (app_assoc (take n bs)), take_drop.
  - rewrite length_app, length_take. lia.
Qed.

(** A first pbuf with another payload of another length. *)
Definition resize (payload : ptr) (len tot : Z) (b : pbuf) : pbuf := p_set_tot_len tot (p_set_len len (p_set_payload payload b)).

Lemma packet_resize s a b bs bs' xs payload :
  packet s a ((a, bs) :: xs) → pm_buf s !! a = Some b → view s payload bs' → Z.of_nat (length bs') + total xs < 2 ^ 16 →
  packet (pm_set_buf (<[a := resize payload (Z.of_nat (length bs')) (Z.of_nat (length bs') + total xs) b]> (pm_buf s)) s) a ((a, bs') :: xs).
Proof.
  intros Hp Hb Hv Ht. pose proof (packet_cons _ _ _ _ _ Hp) as (_ & Ha & Hni & b' & Hb' & _ & _ & _ & Hp').
  assert (b' = b) as -> by congruence.
  split_and!; [|apply Hp|by rewrite total_cons]. cbn [chain]. split_and!; [done..|]. eexists. split; [apply lookup_insert_eq|].
  split_and!; [done|by rewrite total_cons|done|]. simpl. eapply packet_insert in Hp'; [apply Hp'|done].
Qed.

Lemma wp_remove_header s p a bs xs b n (Q : Z → pmem → Prop) :
  packet s p ((a, bs) :: xs) → pm_buf s !! a = Some b → 0 ≤ n →
  (if n <=? Z.of_nat (length bs) then
     let s' := pm_set_buf (<[a := resize (ptr_add (p_payload b) n) (Z.of_nat (length (drop (Z.to_nat n) bs)))
       (Z.of_nat (length (drop (Z.to_nat n) bs)) + total xs) b]> (pm_buf s)) s in
     packet s' a ((a, drop (Z.to_nat n) bs) :: xs) → Q 0 s'
   else Q 1 s) →
  wp (pbuf_remove_header p n) s Q.
Proof.
  intros Hp Hb Hn HQ. pose proof (proj2 (proj2 Hp)) as H16. rewrite total_cons in H16. pose proof (total_nonneg xs).
  pose proof (packet_cons _ _ _ _ _ Hp) as (-> & Ha & Hni & b' & Hb' & Hl & Ht & Hv & Hp'). assert (b' = b) as -> by congruence.
  unfold pbuf_remove_header. apply wp_bind, wp_assert; [by apply negb_true_iff, Z.eqb_neq|].
  destruct (Z.ltb_spec 0xFFFF n) as [Hbig|Hsm].
  { apply wp_ret. rewrite (proj2 (Z.leb_gt _ _)) in HQ by lia. done. }
  assert (n ≤ Z.of_nat (length bs) → packet (pm_set_buf (<[a := resize (ptr_add (p_payload b) n) (Z.of_nat (length (drop (Z.to_nat n) bs)))
       (Z.of_nat (length (drop (Z.to_nat n) bs)) + total xs) b]> (pm_buf s)) s) a ((a, drop (Z.to_nat n) bs) :: xs)) as Hpk.
  { intros Hle. eapply packet_resize; [done|done| |rewrite length_drop; lia].
    replace n with (Z.of_nat (Z.to_nat n)) at 1 by lia. apply view_drop; [lia|done]. }
  destruct (Z.eqb_spec n 0) as [->|Hn0].
  { apply wp_ret. rewrite (proj2 (Z.leb_le _ _)) in HQ by lia. specialize (HQ (Hpk ltac:(lia))).
    rewrite ptr_add_0 in HQ. simpl drop in HQ. rewrite drop_0 in HQ.
    replace (resize (p_payload b) (Z.of_nat (length bs)) (Z.of_nat (length bs) + total xs) b) with b in HQ.
    - rewrite insert_id in HQ by done. by destruct s.
    - rewrite total_cons in Ht. destruct b; unfold resize; simpl in *. by rewrite <-Ht, <-Hl. }
  apply wp_bind. eapply wp_pb_load; [exact Hb|]. rewrite Hl, (u16_small n) by lia.
  destruct (Z.ltb_spec (Z.of_nat (length bs)) n) as [Hlt|Hge].
  { apply wp_ret. rewrite (proj2 (Z.leb_gt _ _)) in HQ by lia. done. }
  rewrite (proj2 (Z.leb_le _ _)) in HQ by lia. specialize (HQ (Hpk Hge)).
  apply wp_bind. eapply wp_pb_update; [exact Hb|]. apply wp_bind. eapply wp_pb_update; [apply lookup_insert_eq|].
  apply wp_bind. eapply wp_pb_update; [apply lookup_insert_eq|]. apply wp_ret. cbn [pm_buf pm_set_buf]. rewrite !insert_insert_eq.
  match goal with |- Q 0 ?st => match type of HQ with Q 0 ?st' => replace st with st'; [exact HQ|] end end.
  unfold pm_set_buf. simpl. do 2 f_equal. unfold resize, p_set_tot_len, p_set_len, p_set_payload. simpl. rewrite total_cons in Ht.
  rewrite length_drop, Ht, Hl, !u16_small by lia. f_equal; lia.
Qed.

(** With the bytes [hdr] in front of the payload. *)
Lemma wp_add_header s p a bs xs b hdr force (Q : Z → pmem → Prop) :
  packet s p ((a, bs) :: xs) → pm_buf s !! a = Some b → hdr ≠ [] →
  let n := Z.of_nat (length hdr) in
  view s (ptr_add (p_payload b) (- n)) (hdr ++ bs) → n + total ((a, bs) :: xs) < 2 ^ 16 →
  (if negb (Z.land (p_type_internal b) PBUF_TYPE_FLAG_STRUCT_DATA_CONTIGUOUS =? 0) || force then
     let s' := pm_set_buf (<[a := resize (ptr_add (p_payload b) (- n)) (Z.of_nat (length (hdr ++ bs)))
       (Z.of_nat (length (hdr ++ bs)) + total xs) b]> (pm_buf s)) s in
     packet s' a ((a, hdr ++ bs) :: xs) → Q 0 s'
   else Q 1 s) →
  wp (pbuf_add_header_impl p n force) s Q.
Proof.
  intros Hp Hb Hne n Hv H16 HQ. rewrite total_cons in H16. pose proof (total_nonneg xs).
  pose proof (packet_cons _ _ _ _ _ Hp) as (-> & Ha & Hni & b' & Hb' & Hl & Ht & _ & Hp'). assert (b' = b) as -> by congruence.
  assert (0 < n) as Hn by (destruct hdr; [done|simpl in n; lia]). rewrite total_cons in Ht.
  unfold pbuf_add_header_impl. apply wp_bind, wp_assert; [by apply negb_true_iff, Z.eqb_neq|].
  rewrite (proj2 (Z.ltb_ge _ _)), (proj2 (Z.eqb_neq n 0)) by lia. apply wp_bind. eapply wp_pb_load; [exact Hb|].
  rewrite !(u16_small n), Ht, (u16_small (n + _)), (proj2 (Z.ltb_ge _ n)) by lia.
  destruct Hv as [He|Hv]; [by destruct hdr|]. pose proof Hv as (m1 & m2 & Hm & Ho). simpl in Ho.
  assert (packet (pm_set_buf (<[a := resize (ptr_add (p_payload b) (- n)) (Z.of_nat (length (hdr ++ bs)))
       (Z.of_nat (length (hdr ++ bs)) + total xs) b]> (pm_buf s)) s) a ((a, hdr ++ bs) :: xs)) as Hpk.
  { eapply packet_resize; [done|done|by right|rewrite length_app; lia]. }
  set (cont := negb (Z.land _ _ =? 0)) in *.
  assert ((if cont then pt_off (ptr_add (p_payload b) (- n)) <? 0 else negb force) = negb (cont || force)) as ->.
  { destruct cont; simpl; [apply Z.ltb_ge; lia|done]. }
  destruct (cont || force); simpl; [|by apply wp_ret]. specialize (HQ Hpk).
  apply wp_bind. eapply wp_pb_update; [exact Hb|]. apply wp_bind. eapply wp_pb_update; [apply lookup_insert_eq|].
  apply wp_bind. eapply wp_pb_update; [apply lookup_insert_eq|]. apply wp_ret. cbn [pm_buf pm_set_buf]. rewrite !insert_insert_eq.
  match goal with |- Q 0 ?st => match type of HQ with Q 0 ?st' => replace st with st'; [exact HQ|] end end.
  unfold pm_set_buf. simpl. do 2 f_equal. unfold resize, p_set_tot_len, p_set_len, p_set_payload. simpl.
  rewrite length_app, Ht, Hl, !u16_small by lia. f_equal; lia.
Qed.

(** ** Releasing the front *)

Fixpoint drop_front (n : nat) (xs : list (Z * list Z)) : list (Z * list Z) :=
  match xs with
  | [] => []
  | (a, bs) :: xs' =>
      if decide (n = 0%nat) then xs
      else if decide (length bs ≤ n)%nat then drop_front (n - length bs) xs'
      else (a, drop n bs) :: xs'
  end.

Lemma contents_drop_front n xs : contents (drop_front n xs) = drop n (contents xs).
Proof.
  revert n. induction xs as [|[a bs] xs IH]; intros n; cbn [drop_front]; [by destruct n|]. case_decide; [by subst|].
  rewrite contents_cons. case_decide; [by rewrite IH, drop_app_ge|]. by rewrite contents_cons, drop_app_le by lia.
Qed.

Lemma wp_free_header_loop fuel s p xs n (Q : Z → pmem → Prop) :
  packet s p xs → own s xs → Forall (disposable s) xs.*1 → 0 ≤ n < 2 ^ 16 → (length xs < fuel)%nat →
  (∀ q s', packet s' q (drop_front (Z.to_nat n) xs) → own s' (drop_front (Z.to_nat n) xs) →
    Forall (disposable s') (drop_front (Z.to_nat n) xs).*1 →
    (∀ k, k ∉ xs.*1 → pm_buf s' !! k = pm_buf s !! k ∧ pm_mem s' !! k = pm_mem s !! k) → Q q s') →
  wp (free_header_loop fuel p n) s Q.
Proof.
  revert fuel s p n Q. induction xs as [|[a bs] xs IH]; intros fuel s p n Q Hp Ho Hd Hn Hf HQ;
    (destruct fuel as [|fuel]; [simpl in Hf; lia|]); cbn [free_header_loop].
  { pose proof Hp as [Hz _]. simpl in Hz. subst p. rewrite andb_false_r. apply wp_ret. by apply HQ. }
  destruct (Z.eqb_spec n 0) as [->|Hn0]; simpl.
  { apply wp_ret. by apply HQ. }
  pose proof (packet_cons _ _ _ _ _ Hp) as (-> & Ha & Hni & b & Hb & Hl & Ht & Hv & Hp').
  rewrite (proj2 (Z.eqb_neq _ _) Ha). simpl. apply wp_bind. eapply wp_pb_load; [exact Hb|].
  cbn [drop_front] in HQ. rewrite decide_False in HQ by lia. apply Forall_cons in Ho as [Hoa Ho]. apply Forall_cons in Hd as [Hda Hd].
  destruct (Z.leb_spec (p_len b) n) as [Hle|Hgt].
  - rewrite decide_True in HQ by lia. apply wp_bind. eapply wp_pb_update; [exact Hb|].
    set (b' := p_set_next 0 b). set (s1 := pm_set_buf (<[a := b']> (pm_buf s)) s).
    assert (addrs s1 a [a]) as Hadd. { simpl. split_and!; [done..|]. exists b'. split; [apply lookup_insert_eq|done]. }
    apply wp_bind. eapply wp_pbuf_free; [exact Hadd|done| |].
    { apply Forall_singleton. intros c Hc. unfold s1 in Hc. simpl in Hc. rewrite lookup_insert_eq in Hc. injection Hc as <-.
      apply (Hda b Hb). }
    set (s2 := release [a] s1).
    assert (∀ k, k ≠ a → pm_buf s2 !! k = pm_buf s !! k ∧ pm_mem s2 !! k = pm_mem s !! k) as Hfr.
    { intros k Hk. split.
      - unfold s2. rewrite release_lookup by set_solver. unfold s1. simpl. by rewrite lookup_insert_ne.
      - unfold s2. by rewrite release_mem by set_solver. }
    assert (∀ x, x ∈ xs.*1 → x ≠ a) as Hxa by (by intros x Hx ->).
    rewrite u16_small by lia. apply IH; [| | |lia|simpl in Hf; lia|].
    + eapply packet_same; [exact Hp'|]. apply Forall_forall. intros x Hx.
      destruct (Hfr x.1) as [E1 E2]; [apply Hxa; by apply list_elem_of_fmap_2|]. split; [done|]. intros c Hc.
      eapply Forall_forall in Ho; [|exact Hx]. rewrite (Ho c Hc). done.
    + apply Forall_forall. intros x Hx c Hc. destruct (Hfr x.1) as [E1 _]; [apply Hxa; by apply list_elem_of_fmap_2|].
      rewrite E1 in Hc. eapply Forall_forall in Ho; [|exact Hx]. by apply Ho.
    + apply Forall_forall. intros x Hx c Hc. destruct (Hfr x) as [E1 _]; [by apply Hxa|]. rewrite E1 in Hc.
      eapply Forall_forall in Hd; [|exact Hx]. destruct (Hd c Hc) as (H1 & H2 & H3). split; [done|]. split; [done|]. intros Hs.
      specialize (H3 Hs). unfold s2. simpl. unfold s1. simpl. rewrite lookup_insert_eq. destruct (p_ref b' =? 1); [|done].
      apply give_back_heap; [by apply Hxa|done].
    + intros q s' Hq Ho' Hd' Hfr'. replace (Z.to_nat (n - p_len b)) with (Z.to_nat n - length bs)%nat in * by lia.
      apply HQ; [done..|].
      intros k Hk. simpl in Hk. apply not_elem_of_cons in Hk as [Hka Hk]. destruct (Hfr' k Hk) as [-> ->]. by apply Hfr.
  - rewrite decide_False in HQ by lia. apply wp_bind. eapply wp_remove_header; [exact Hp|exact Hb|lia|].
    rewrite (proj2 (Z.leb_le _ _)) by lia. intros s' Hp2. destruct fuel; [simpl in Hf; lia|]. cbn [free_header_loop]. simpl.
    apply wp_ret. apply HQ; [done| | |].
    + constructor.
      * simpl. intros c. rewrite lookup_insert_eq. intros [= <-]. apply (Hoa b Hb).
      * apply Forall_forall. intros x Hx c. unfold s'. simpl. rewrite lookup_insert_ne.
        { eapply Forall_forall in Ho; [|exact Hx]. apply Ho. }
        intros ->. apply Hni. by apply list_elem_of_fmap_2.
    + constructor.
      * intros c. unfold s'. simpl. rewrite lookup_insert_eq. intros [= <-]. apply (Hda b Hb).
      * apply Forall_forall. intros x Hx c. unfold s'. simpl. rewrite lookup_insert_ne by (by intros ->).
        eapply Forall_forall in Hd; [|exact Hx]. apply Hd.
    + intros k Hk. simpl in Hk. apply not_elem_of_cons in Hk as [Hka Hk].
      split; [|done]. unfold s'. simpl. by rewrite lookup_insert_ne.
Qed.

Lemma wp_pbuf_free_header s p xs n (Q : Z → pmem → Prop) :
  packet s p xs → own s xs → Forall (disposable s) xs.*1 → 0 ≤ n < 2 ^ 16 →
  (∀ q s', packet s' q (drop_front (Z.to_nat n) xs) → own s' (drop_front (Z.to_nat n) xs) →
    Forall (disposable s') (drop_front (Z.to_nat n) xs).*1 →
    (∀ k, k ∉ xs.*1 → pm_buf s' !! k = pm_buf s !! k ∧ pm_mem s' !! k = pm_mem s !! k) → Q q s') →
  wp (pbuf_free_header p n) s Q.
Proof.
  intros Hp Ho Hd Hn HQ. unfold pbuf_free_header. apply wp_bind, wp_gets. pose proof (packet_fuel _ _ _ Hp).
  eapply wp_free_header_loop; try done. lia.
Qed.

(** Taking a header off and putting it back. *)
Lemma header_roundtrip s p a bs xs b n :
  packet s p ((a, bs) :: xs) → pm_buf s !! a = Some b → 0 ≤ n ≤ Z.of_nat (length bs) →
  negb (Z.land (p_type_internal b) PBUF_TYPE_FLAG_STRUCT_DATA_CONTIGUOUS =? 0) = true →
  ∃ s', pbuf_remove_header p n s = Some (0, s') ∧ packet s' p ((a, drop (Z.to_nat n) bs) :: xs) ∧
    pbuf_add_header p n s' = Some (0, s).
Proof.
  intros Hp Hb Hn Hty. pose proof (packet_cons _ _ _ _ _ Hp) as (-> & Ha & Hni & b0 & Hb0 & Hl & Ht & Hv & Hp').
  assert (b0 = b) as -> by congruence. pose proof (proj2 (proj2 Hp)) as H16. rewrite total_cons in Ht, H16. pose proof (total_nonneg xs).
  set (bs' := drop (Z.to_nat n) bs). assert (length bs' = length bs - Z.to_nat n)%nat as Hl' by (unfold bs'; by rewrite length_drop).
  set (b' := resize (ptr_add (p_payload b) n) (Z.of_nat (length bs')) (Z.of_nat (length bs') + total xs) b).
  set (s1 := pm_set_buf (<[a := b']> (pm_buf s)) s).
  assert (wp (pbuf_remove_header a n) s (λ r s', r = 0 ∧ s' = s1 ∧ packet s1 a ((a, bs') :: xs))) as Hw.
  { eapply wp_remove_header; [exact Hp|exact Hb|lia|]. rewrite (proj2 (Z.leb_le _ _)) by lia. intros s' Hp1. done. }
  apply wp_run in Hw as (r & s' & Hrun & -> & -> & Hp1). exists s1. split_and!; [done|done|]. unfold pbuf_add_header.
  assert (resize (p_payload b) (Z.of_nat (length bs)) (Z.of_nat (length bs) + total xs) b' = b) as Hback.
  { unfold b', resize. simpl. destruct b; simpl in *. unfold p_set_tot_len, p_set_len, p_set_payload. simpl. by rewrite <-Ht, <-Hl. }
  destruct (decide (n = 0)) as [->|Hn0].
  - assert (b' = b) as Hbb.
    { unfold b'. rewrite ptr_add_0. replace bs' with bs by (unfold bs'; by rewrite Z2Nat.inj_0, drop_0).
      rewrite <-Hback at 2. unfold b', resize. simpl. unfold p_set_tot_len, p_set_len, p_set_payload. simpl. done. }
    assert (s1 = s) as -> by (unfold s1; rewrite Hbb, insert_id by done; by destruct s).
    unfold pbuf_add_header_impl, mbind, stm_bind, lwip_assert. rewrite (proj2 (Z.eqb_neq _ _) Ha). simpl. done.
  - assert (wp (pbuf_add_header_impl a (Z.of_nat (length (take (Z.to_nat n) bs))) false) s1 (λ r s', r = 0 ∧ s' = s)) as Hw.
    { assert (Z.of_nat (length (take (Z.to_nat n) bs)) = n) as Hlt by (rewrite length_take; lia).
      eapply (wp_add_header _ _ a bs' xs b'); [exact Hp1|apply lookup_insert_eq| | | |].
      - intros He. rewrite He in Hlt. simpl in Hlt. lia.
      - rewrite Hlt. unfold bs'. rewrite take_drop. unfold b'. simpl p_payload. rewrite ptr_add_add, Z.add_opp_diag_r, ptr_add_0.
        unfold view in *. exact Hv.
      - rewrite Hlt, total_cons. lia.
      - replace (p_type_internal b') with (p_type_internal b) by done. rewrite Hty. cbn [orb]. cbv iota zeta. intros _. split; [done|].
        rewrite Hlt. unfold bs'. rewrite take_drop. unfold b' at 1. simpl p_payload.
        rewrite ptr_add_add, Z.add_opp_diag_r, ptr_add_0, Hback. unfold s1. simpl. rewrite insert_insert_eq, insert_id by done. by destruct s. }
    replace (Z.of_nat (length (take (Z.to_nat n) bs))) with n in Hw by (rewrite length_take; lia).
    by apply wp_run in Hw as (r & s' & -> & -> & ->).
Qed.

(** C26: chains as packets.  For a chain with its own memory: joining it with another
    chain gives the concatenation, shrinking it the first bytes, releasing its front
    the last bytes; a header inside the first pbuf is taken off, and putting it back
    gives the state from before; making it one piece keeps the contents, in a single
    pbuf unless there is no memory.  Each time the lengths and the links of the
    result are those of a packet, and the operation is defined. *)
Theorem pbuf_packets s p xs :
  packet s p xs → xs ≠ [] → own s xs → Forall (disposable s) xs.*1 →
  (∀ t ys, packet s t ys → ys ≠ [] → (∀ a, a ∈ xs.*1 → a ∉ ys.*1) → total xs + total ys < 2 ^ 16 →
    ∃ s', pbuf_cat p t s = Some (tt, s') ∧ packet s' p (xs ++ ys)) ∧
  (∀ n, 0 ≤ n → ∃ s' ys, pbuf_realloc p n s = Some (tt, s') ∧ packet s' p ys ∧ contents ys = take (Z.to_nat n) (contents xs)) ∧
  (∀ n, 0 ≤ n < 2 ^ 16 → ∃ q s' ys, pbuf_free_header p n s = Some (q, s') ∧ packet s' q ys ∧
    contents ys = drop (Z.to_nat n) (contents xs)) ∧
  (∀ b n, pm_buf s !! p = Some b → 0 ≤ n ≤ p_len b →
    negb (Z.land (p_type_internal b) PBUF_TYPE_FLAG_STRUCT_DATA_CONTIGUOUS =? 0) = true →
    ∃ s' ys, pbuf_remove_header p n s = Some (0, s') ∧ packet s' p ys ∧ contents ys = drop (Z.to_nat n) (contents xs) ∧
      pbuf_add_header p n s' = Some (0, s)) ∧
  (∀ at_ fill layer, layer ∈ layers → no_queue xs → (match at_ with Some a => fresh_for s xs a | None => True end) →
    ∃ q s' ys, pbuf_coalesce at_ fill p layer s = Some (q, s') ∧ packet s' q ys ∧ contents ys = contents xs ∧
      (at_ ≠ None → length ys = 1%nat)).
Proof.
  intros Hp Hne Ho Hd. split_and!.
  - intros t ys Ht Hny Hdis Htot. assert (wp (pbuf_cat p t) s (λ _ s', packet s' p (xs ++ ys))) as Hw by (by eapply wp_pbuf_cat).
    apply wp_run in Hw as ([] & s' & ? & ?). eauto.
  - intros n Hn. assert (wp (pbuf_realloc p n) s (λ _ s', ∃ ys, packet s' p ys ∧ contents ys = take (Z.to_nat n) (contents xs))) as Hw.
    { eapply wp_pbuf_realloc; [done..|]. eauto. }
    apply wp_run in Hw as ([] & s' & ? & ys & ? & ?). eauto.
  - intros n Hn. assert (wp (pbuf_free_header p n) s (λ q s', packet s' q (drop_front (Z.to_nat n) xs))) as Hw by (by eapply wp_pbuf_free_header).
    apply wp_run in Hw as (q & s' & ? & ?). exists q, s', (drop_front (Z.to_nat n) xs). split_and!; [done..|]. apply contents_drop_front.
  - intros b n Hb Hn Hty. destruct xs as [|[a bs] xs]; [done|].
    pose proof (packet_cons _ _ _ _ _ Hp) as (-> & _ & _ & b0 & Hb0 & Hl & _). assert (b0 = b) as -> by congruence.
    destruct (header_roundtrip s a a bs xs b n) as (s' & H1 & H2 & H3); [done|done|lia|done|].
    exists s', ((a, drop (Z.to_nat n) bs) :: xs). split_and!; [done..| |done]. rewrite !contents_cons, drop_app_le; [done|lia].
  - intros at_ fill layer Hlay Hq Hat.
    assert (wp (pbuf_coalesce at_ fill p layer) s (λ q s', ∃ ys, packet s' q ys ∧ contents ys = contents xs ∧ (at_ ≠ None → length ys = 1%nat))) as Hw.
    { eapply wp_pbuf_coalesce; [done..|]. intros q s' ys ? ? ?. by exists ys. }
    apply wp_run in Hw as (q & s' & ? & ys & ? & ? & ?). exists q, s', ys. done.
Qed.

Lemma ex_disposable : Forall (disposable ex_mem) ex_chain.*1.
Proof.
  apply Forall_forall. intros a Ha b Hb. cbn in Ha.
  apply elem_of_cons in Ha as [->|Ha]; [|apply list_elem_of_singleton in Ha as ->];
    (vm_compute in Hb; injection Hb as <-; split; [done|]; split; [done|]; intros _; cbn [pm_heap ex_mem]; set_solver).
Qed.

Lemma pbuf_packets_witness :
  ∃ s' ys, pbuf_realloc 8 4 ex_mem = Some (tt, s') ∧ packet s' 8 ys ∧ contents ys = take 4 (contents ex_chain).
Proof.
  exact (proj1 (proj2 (pbuf_packets ex_mem 8 ex_chain (proj1 ex_packet) ltac:(discriminate) (proj2 ex_packet) ex_disposable)) 4 ltac:(lia)).
Defined.

(** [pbuf_copy_partial_pbuf] does not skip the pbufs of the target before the
    offset: for an offset behind the first one the difference of the lengths wraps
    around, and it writes behind the end of that pbuf. *)
Theorem pbuf_copy_offset_overruns :
  pbuf_copy_partial_pbuf 8 16 1 4 ex_mem = None ∧ p_tot_len <$> pm_buf ex_mem !! 8 = Some 5.
Proof. split; vm_compute; reflexivity. Qed.
