(* ===== verification/SessionPbuf.v ===== *)
(** * The queue of a TCP session in memory

    The queue of hev-socks5-session-tcp.c is a chain of packet buffers.  [SessionTCP]
    keeps its contents, a list of the bytes of each pbuf; here the two functions that
    change it, [tcp_splice_f] and [tcp_recv_handler], run on the memory of lwIP, and
    the chain always stands for the list. *)

From S2P Require Import Prelude CString RingBuffer SocksUDP SessionTCP SessionTCPProps Pbuf PbufProps PbufRefs PbufShape.

(** ** The operations *)

(** The loop that fills the vector, from the pbuf [p] and with [iovc] places left. *)
Fixpoint splice_iov (iovc : nat) (p : Z) : stm pmem (list (ptr * Z)) :=
  match iovc with
  | O => mret []
  | S iovc =>
      if p =? 0 then mret []
      else
        b ← pb_load p;
        v ← splice_iov iovc (p_next b);
        mret ((p_payload b, p_len b) :: v)
  end.

(** What [writev] reads. *)
Fixpoint iov_gather (v : list (ptr * Z)) : stm pmem (list Z) :=
  match v with
  | [] => mret []
  | (base, len) :: v =>
      bs ← mem_load base len;
      rest ← iov_gather v;
      mret (bs ++ rest)
  end.

(** [tcp_splice_f] up to the end of the queue: the bytes written and the new queue;
    [s] is the result of [writev]. *)
Definition queue_splice_f (s : Z) (queue : Z) : stm pmem (list Z * Z) :=
  if queue =? 0 then mret ([], queue)
  else
    iov ← splice_iov 64 queue;
    bs ← iov_gather iov;
    if s <=? 0 then mret ([], queue)
    else
      queue ← Pbuf.pbuf_free_header queue (u16 s);
      mret (take (Z.to_nat s) bs, queue).

(** [tcp_recv_handler] with a chain: whether it answers [ERR_OK], and the new queue. *)
Definition queue_recv (queue p : Z) : stm pmem (bool * Z) :=
  if queue =? 0 then mret (true, p)
  else
    b ← pb_load queue;
    if TCP_WND <? p_tot_len b then mret (false, queue)
    else
      pbuf_cat queue p;;
      mret (true, queue).

(** ** The chain of a queue *)

Definition queue_rep (s : pmem) (q : Z) (xs : list (Z * list Z)) (queue : list (list Z)) : Prop :=
  packet s q xs ∧ own s xs ∧ Forall (disposable s) xs.*1 ∧ xs.*2 = queue.

Lemma contents_join xs : contents xs = mjoin xs.*2.
Proof. unfold contents. induction xs as [|x xs IH]; [done|]. cbn. f_equal. exact IH. Qed.

Lemma queue_rep_null s q xs queue : queue_rep s q xs queue → q = 0 ↔ queue = [].
Proof. intros ((Hc & _) & _ & _ & <-). rewrite (chain_null _ _ _ Hc). by destruct xs. Qed.

Lemma drop_front_queue n xs : (drop_front n xs).*2 = SessionTCP.pbuf_free_header xs.*2 n.
Proof.
  revert n. induction xs as [|[a bs] xs IH]; intros n; [done|]. simpl. repeat case_decide; [done|by rewrite IH|done].
Qed.

(** The vector reads the first pbufs of a chain. *)
Lemma wp_splice_iov n s q xs (Q : list (ptr * Z) → pmem → Prop) :
  packet s q xs →
  (∀ v, (∀ Q' : list Z → pmem → Prop, Q' (mjoin (take n xs.*2)) s → wp (iov_gather v) s Q') → Q v s) →
  wp (splice_iov n q) s Q.
Proof.
  revert q xs Q. induction n as [|n IH]; intros q xs Q Hp HQ; cbn [splice_iov].
  { apply wp_ret, HQ. intros Q' HQ'. by apply wp_ret. }
  destruct xs as [|[a bs] xs].
  { destruct Hp as [-> _]. simpl. apply wp_ret, HQ. intros Q' HQ'. by apply wp_ret. }
  apply packet_cons in Hp as (-> & Ha & _ & b & Hb & Hl & _ & Hv & Hp).
  rewrite (proj2 (Z.eqb_neq _ _) Ha). apply wp_bind. eapply wp_pb_load; [done|]. apply wp_bind.
  eapply IH; [done|]. intros v Hv'. apply wp_ret, HQ. intros Q' HQ'. cbn [iov_gather]. apply wp_bind.
  rewrite <-(ptr_add_0 (p_payload b)). eapply (wp_mem_load _ _ bs 0); [done|lia..|].
  apply wp_bind, Hv', wp_ret. rewrite Hl, drop_0, take_ge by lia. done.
Qed.

Lemma wp_queue_splice_f s q xs queue n (Q : list Z * Z → pmem → Prop) :
  queue_rep s q xs queue → n < 2 ^ 16 →
  (∀ q' s' ys, queue_rep s' q' ys (if 0 <? n then SessionTCP.pbuf_free_header queue (Z.to_nat n) else queue) →
    Q (if 0 <? n then take (Z.to_nat n) (mjoin (take 64 queue)) else [], q') s') →
  wp (queue_splice_f n q) s Q.
Proof.
  intros Hr Hn HQ. unfold queue_splice_f. pose proof Hr as (Hp & Ho & Hd & Hl). destruct (Z.eqb_spec q 0) as [->|Hq].
  - assert (queue = []) as -> by (by apply (queue_rep_null _ _ _ _ Hr)). apply wp_ret.
    replace [] with (if 0 <? n then take (Z.to_nat n) (mjoin (take 64 ([] : list (list Z)))) else []) at 1
      by (rewrite take_nil; simpl; rewrite take_nil; by destruct (0 <? n)).
    eapply HQ. destruct (0 <? n); exact Hr.
  - apply wp_bind. eapply wp_splice_iov; [done|]. intros v Hv. apply wp_bind, Hv. rewrite Hl in *.
    destruct (Z.leb_spec n 0), (Z.ltb_spec 0 n); try lia; [by eapply wp_ret, HQ|].
    apply wp_bind. rewrite u16_small by lia. eapply wp_pbuf_free_header; [done..|lia|].
    intros q' s' Hp' Ho' Hd' _. eapply wp_ret, HQ. split_and!; [done..|]. rewrite drop_front_queue. by rewrite Hl.
Qed.

Lemma wp_queue_recv s q t xs ys queue p (Q : bool * Z → pmem → Prop) :
  queue_rep s q xs queue → queue_rep s t ys p → p ≠ [] → (∀ a, a ∈ xs.*1 → a ∉ ys.*1) →
  Z.of_nat (length (mjoin (queue ++ p))) ≤ TCP_WND →
  (∀ q' s', queue_rep s' q' (xs ++ ys) (queue ++ p) → Q (true, q') s') → wp (queue_recv q t) s Q.
Proof.
  intros Hr Ht Hp Hd Hw HQ. unfold queue_recv. rewrite join_app, length_app in Hw.
  destruct Hr as (Hpx & Hox & Hdx & <-), Ht as (Hpy & Hoy & Hdy & <-). destruct (Z.eqb_spec q 0) as [->|Hq].
  - assert (xs = []) as -> by (by apply (chain_null s 0 xs), eq_refl; destruct Hpx). by apply wp_ret, HQ.
  - assert (xs ≠ []) as Hx by (intros ->; by destruct Hpx as [-> _]).
    assert (ys ≠ []) as Hy by (by intros ->).
    destruct xs as [|[a bs] xs]; [done|]. pose proof (packet_cons _ _ _ _ _ Hpx) as (-> & _ & _ & b & Hb & _ & Htot & _).
    apply wp_bind. eapply wp_pb_load; [done|]. rewrite Htot. unfold total at 1. rewrite contents_join.
    destruct (Z.ltb_spec TCP_WND (Z.of_nat (length (mjoin ((a, bs) :: xs).*2)))); [lia|].
    apply wp_bind. eapply wp_pbuf_cat; try done.
    { unfold total. rewrite !contents_join. unfold TCP_WND, TCP_MSS in Hw. lia. }
    intros s' _ Hk Hp'. apply wp_ret, HQ. split_and!; [done|..].
    + apply (kept_own _ _ _ Hk). by apply Forall_app.
    + rewrite fmap_app. apply Forall_app. split; (eapply Forall_impl; [eassumption|]); intros c; by apply kept_disposable.
    + by rewrite fmap_app.
Qed.

(** C23: the queue of a TCP session is the chain it stands for.  In every state a
    session reaches, whatever the order of its events, with a queue that is a chain of
    pbufs in memory: sending reads inside the pbufs and takes the bytes from their
    payloads that the session counts as written, and what [pbuf_free_header] leaves is
    the chain of the new queue; a chain that lwIP delivers in its window is accepted,
    the lengths of 16 bits do not overflow, and what [pbuf_cat] makes is the chain of
    the new queue. *)
Theorem session_queue_chain self es self' size memory s q xs :
  tcp_start self → 0 < size ≤ TCP_SND_BUF → Z.of_nat (length memory) = size →
  tcp_run (tcp_splice_init size memory self) es self' → queue_rep s q xs (st_queue self') →
  (∀ n again, ev_ok (EvF n again) self' → let self2 := tcp_event_do (EvF n again) self' in
    wp (queue_splice_f n q) s (λ r s',
      st_out self2 = st_out self' ++ r.1 ∧ ∃ ys, queue_rep s' r.2 ys (st_queue self2))) ∧
  (∀ p t ys, ev_ok (EvCb (CbRecv p)) self' → p ≠ [] → queue_rep s t ys p → (∀ a, a ∈ xs.*1 → a ∉ ys.*1) →
    wp (queue_recv q t) s (λ r s',
      r.1 = true ∧ queue_rep s' r.2 (xs ++ ys) (st_queue (tcp_event_do (EvCb (CbRecv p)) self')))).
Proof.
  intros Hst Hs Hm Hrun Hr.
  destruct (inv_run self es self' size memory Hst Hs Hm Hrun) as (sent & ready & Hrx & Hw & _ & _ & _ & _ & Hpcb).
  split.
  - intros n again Hok. cbn [ev_ok] in Hok. pose proof (length_join_take (st_queue self') 64).
    assert (n < 2 ^ 16) by (unfold TCP_WND, TCP_MSS in Hw; lia).
    eapply wp_queue_splice_f; [done..|]. intros q' s' ys Hr'. simpl. unfold tcp_splice_f.
    destruct (st_queue self') as [|x queue] eqn:Hq.
    + replace (if 0 <? n then _ else []) with (@nil Z) by (rewrite take_nil; simpl; rewrite take_nil; by destruct (0 <? n)).
      rewrite app_nil_r. assert (queue_rep s' q' ys []) as Hr'' by (by destruct (0 <? n)).
      destruct (st_pcb_eof self'); simpl; (split; [done|]; exists ys; by rewrite Hq).
    + destruct (Z.leb_spec n 0), (Z.ltb_spec 0 n); try lia; cbn [snd st_queue st_out st_set_queue st_set_pcb st_add_out].
      * rewrite app_nil_r, Hq. eauto.
      * rewrite u16_small by lia. eauto.
  - intros p t ys (pc & Hpc & Hwin) Hp Ht Hd. rewrite Hpc in Hpcb. destruct Hpcb as (_ & _ & _ & _ & Hrec).
    rewrite length_app, Hrec in Hwin. assert (Z.of_nat (length (mjoin (st_queue self' ++ p))) ≤ TCP_WND) as Hwin' by lia.
    eapply wp_queue_recv; [done..|]. intros q' s' Hr'. split; [done|]. simpl. unfold tcp_recv_handler.
    rewrite join_app, length_app in Hwin'.
    destruct (st_queue self') as [|x queue] eqn:Hq; [done|].
    change (mjoin (x :: queue)) with (x ++ mjoin queue) in *. rewrite u16_small by (unfold TCP_WND, TCP_MSS in *; lia).
    destruct (Z.ltb_spec TCP_WND (Z.of_nat (length (x ++ mjoin queue)))); [lia|done].
Qed.

(** A session that has received the chain of two pbufs and writes four bytes. *)
Lemma session_queue_chain_witness :
  ∃ self', tcp_run (tcp_splice_init 8 (replicate 8 0) ex_session) [EvCb (CbRecv [[1; 2; 3]; [4; 5]])] self' ∧
    st_queue self' = ex_chain.*2 ∧
    wp (queue_splice_f 4 8) ex_mem (λ r s', [1; 2; 3; 4] = r.1 ∧ ∃ ys, queue_rep s' r.2 ys [[5]]).
Proof.
  eassert (tcp_run (tcp_splice_init 8 (replicate 8 0) ex_session) [EvCb (CbRecv [[1; 2; 3]; [4; 5]])] _) as Hrun.
  { change [EvCb (CbRecv [[1; 2; 3]; [4; 5]])] with ([] ++ [EvCb (CbRecv [[1; 2; 3]; [4; 5]])]).
    apply run_snoc; [apply run_nil|]. eexists. split; [reflexivity|]. vm_compute. discriminate. }
  eexists. split; [exact Hrun|]. split; [reflexivity|].
  refine (proj1 (session_queue_chain ex_session _ _ 8 (replicate 8 0) ex_mem 8 ex_chain _ _ _ Hrun _) 4 false _).
  - by split_and!.
  - split; vm_compute; done.
  - done.
  - split_and!; [apply ex_packet|apply ex_packet|apply ex_disposable|done].
  - vm_compute. discriminate.
Defined.
