(* ===== verification/Chksum.v ===== *)
(** * Internet checksums of lwIP

    third-part/lwip/src/core/inet_chksum.c, in its second version, with [lwip_htons]
    of core/def.c, [pbuf_fill_chksum] of core/pbuf.c and the checksums of segments of
    core/tcp_out.c, on a machine that stores the low byte of a word first.

    The memory is that of the packet buffers; [addr] gives the address of a pointer,
    of which the routines use the last bit. *)

From S2P Require Import Prelude CString Pbuf.

(** ** Words *)

Definition lwip_htons (n : Z) : Z := u16 (Z.lor (Z.shiftl (Z.land n 0xff) 8) (Z.shiftr (Z.land n 0xff00) 8)).

Definition SWAP_BYTES_IN_WORD (w : Z) : Z := Z.lor (Z.shiftl (Z.land w 0xff) 8) (Z.shiftr (Z.land w 0xff00) 8).

Definition FOLD_U32T (u : Z) : Z := u32 (Z.shiftr u 16 + Z.land u 0xffff).

(** ** A block of memory *)

(** The loop over the words at an even address: the sum, and the byte that is left. *)
Fixpoint sum_words (sum : Z) (bs : list Z) : Z * list Z :=
  match bs with
  | b0 :: b1 :: bs => sum_words (u32 (sum + Z.lor b0 (Z.shiftl b1 8))) bs
  | _ => (sum, bs)
  end.

(** [odd] tells the last bit of the address of the bytes. *)
Definition lwip_standard_chksum (odd : bool) (bs : list Z) : Z :=
  let '(t, bs) := match bs with
    | b :: bs' => if odd then (Z.shiftl b 8, bs') else (0, bs)
    | [] => (0, bs)
    end in
  let '(sum, rest) := sum_words 0 bs in
  let t := match rest with b :: _ => Z.lor (Z.land t 0xff00) b | [] => t end in
  let sum := u32 (sum + t) in
  let sum := FOLD_U32T sum in
  let sum := FOLD_U32T sum in
  let sum := if odd then SWAP_BYTES_IN_WORD sum else sum in
  u16 sum.

Definition inet_chksum (odd : bool) (bs : list Z) : Z := u16 (Z.lnot (lwip_standard_chksum odd bs)).

Section chain.
Context (addr : ptr → Z).

Definition lwip_chksum (dataptr : ptr) (len : Z) : stm pmem Z :=
  bs ← mem_load dataptr len;
  mret (lwip_standard_chksum (Z.odd (addr dataptr)) bs).

(** ** Chains of packet buffers *)

(** A pass of the loops over a chain: the new sum, and whether the words are
    exchanged. *)
Definition chksum_step (sum len acc : Z) (swapped : bool) : Z * bool :=
  let acc := FOLD_U32T (u32 (acc + sum)) in
  if negb (len mod 2 =? 0) then (SWAP_BYTES_IN_WORD acc, negb swapped) else (acc, swapped).

Fixpoint chksum_loop (fuel : nat) (q acc : Z) (swapped : bool) : stm pmem (Z * bool) :=
  match fuel with
  | O => ub
  | S fuel =>
      if q =? 0 then mret (acc, swapped)
      else
        b ← pb_load q;
        sum ← lwip_chksum (p_payload b) (p_len b);
        let '(acc, swapped) := chksum_step sum (p_len b) acc swapped in
        chksum_loop fuel (p_next b) acc swapped
  end.

Definition inet_chksum_pbuf (p : Z) : stm pmem Z :=
  fuel ← gets pb_fuel;
  r ← chksum_loop fuel p 0 false;
  let '(acc, swapped) := r in
  let acc := if (swapped : bool) then SWAP_BYTES_IN_WORD acc else acc in
  mret (u16 (Z.lnot (Z.land acc 0xffff))).

(** The loop of [inet_cksum_pseudo_partial_base]. *)
Fixpoint chksum_partial_loop (fuel : nat) (q chksum_len acc : Z) (swapped : bool) : stm pmem (Z * bool) :=
  match fuel with
  | O => ub
  | S fuel =>
      if (q =? 0) || (chksum_len <=? 0) then mret (acc, swapped)
      else
        b ← pb_load q;
        let chklen := if chksum_len <? p_len b then chksum_len else p_len b in
        sum ← lwip_chksum (p_payload b) chklen;
        let chksum_len := u16 (chksum_len - chklen) in
        lwip_assert (chksum_len <? 0x7fff);;
        let '(acc, swapped) := chksum_step sum (p_len b) acc swapped in
        chksum_partial_loop fuel (p_next b) chksum_len acc swapped
  end.

(** ** Pseudo headers *)

(** The end of both forms. *)
Definition pseudo_finish (proto proto_len acc : Z) (swapped : bool) : Z :=
  let acc := if swapped then SWAP_BYTES_IN_WORD acc else acc in
  let acc := u32 (acc + lwip_htons (u16 proto)) in
  let acc := u32 (acc + lwip_htons proto_len) in
  let acc := FOLD_U32T acc in
  let acc := FOLD_U32T acc in
  u16 (Z.lnot (Z.land acc 0xffff)).

Definition inet_cksum_pseudo_base (p proto proto_len acc : Z) : stm pmem Z :=
  fuel ← gets pb_fuel;
  r ← chksum_loop fuel p acc false;
  let '(acc, swapped) := r in
  mret (pseudo_finish proto proto_len acc swapped).

Definition inet_cksum_pseudo_partial_base (p proto proto_len chksum_len acc : Z) : stm pmem Z :=
  fuel ← gets pb_fuel;
  r ← chksum_partial_loop fuel p chksum_len acc false;
  let '(acc, swapped) := r in
  mret (pseudo_finish proto proto_len acc swapped).

(** [ip_addr_t]: four words in network byte order, of which IPv4 uses the first. *)
Record ip_addr := mk_ip { ip_w0 : Z; ip_w1 : Z; ip_w2 : Z; ip_w3 : Z; ip_is_v6 : bool }.

Definition ip_words (a : ip_addr) : list Z := [ip_w0 a; ip_w1 a; ip_w2 a; ip_w3 a].

Definition add_word (acc w : Z) : Z :=
  let acc := u32 (acc + Z.land w 0xffff) in
  u32 (acc + Z.land (Z.shiftr w 16) 0xffff).

(** The sum of the addresses, folded. *)
Definition ip4_addr_sum (src dest : ip_addr) : Z :=
  FOLD_U32T (FOLD_U32T (add_word (add_word 0 (ip_w0 src)) (ip_w0 dest))).

Fixpoint ip6_addr_loop (acc : Z) (src dest : list Z) : Z :=
  match src, dest with
  | s :: src, d :: dest => ip6_addr_loop (add_word (add_word acc s) d) src dest
  | _, _ => acc
  end.

Definition ip6_addr_sum (src dest : ip_addr) : Z :=
  FOLD_U32T (FOLD_U32T (ip6_addr_loop 0 (ip_words src) (ip_words dest))).

Definition inet_chksum_pseudo (p proto proto_len : Z) (src dest : ip_addr) : stm pmem Z :=
  inet_cksum_pseudo_base p proto proto_len (ip4_addr_sum src dest).

Definition ip6_chksum_pseudo (p proto proto_len : Z) (src dest : ip_addr) : stm pmem Z :=
  inet_cksum_pseudo_base p proto proto_len (ip6_addr_sum src dest).

Definition ip_chksum_pseudo (p proto proto_len : Z) (src dest : ip_addr) : stm pmem Z :=
  if ip_is_v6 dest then ip6_chksum_pseudo p proto proto_len src dest
  else inet_chksum_pseudo p proto proto_len src dest.

Definition inet_chksum_pseudo_partial (p proto proto_len chksum_len : Z) (src dest : ip_addr) : stm pmem Z :=
  inet_cksum_pseudo_partial_base p proto proto_len chksum_len (ip4_addr_sum src dest).

Definition ip6_chksum_pseudo_partial (p proto proto_len chksum_len : Z) (src dest : ip_addr) : stm pmem Z :=
  inet_cksum_pseudo_partial_base p proto proto_len chksum_len (ip6_addr_sum src dest).

Definition ip_chksum_pseudo_partial (p proto proto_len chksum_len : Z) (src dest : ip_addr) : stm pmem Z :=
  if ip_is_v6 dest then ip6_chksum_pseudo_partial p proto proto_len chksum_len src dest
  else inet_chksum_pseudo_partial p proto proto_len chksum_len src dest.

(** ** Copying *)

Definition lwip_chksum_copy (dst : ptr) (src : list Z) : stm pmem Z :=
  mem_store dst src;;
  lwip_chksum dst (Z.of_nat (length src)).

(** The result and the new value of [*chksum]. *)
Definition pbuf_fill_chksum (p start_offset : Z) (dataptr : list Z) (chksum : Z) : stm pmem (Z * Z) :=
  lwip_assert (negb (p =? 0));;
  let len := Z.of_nat (length dataptr) in
  lwip_assert (negb (len =? 0));;
  b ← pb_load p;
  if (p_len b <=? start_offset) || (p_len b <? start_offset + len) then mret (ERR_ARG, chksum)
  else
    copy_chksum ← lwip_chksum_copy (ptr_add (p_payload b) start_offset) dataptr;
    let copy_chksum :=
      if negb (Z.land start_offset 1 =? 0) then SWAP_BYTES_IN_WORD copy_chksum else copy_chksum in
    let acc := u32 (chksum + copy_chksum) in
    mret (ERR_OK, u16 (FOLD_U32T acc)).

(** ** Segments of TCP *)

(** [chksum] and [chksum_swapped] of a segment. *)
Record seg_chksum := mk_seg { seg_sum : Z; seg_swapped : Z }.

Definition tcp_seg_add_chksum (chksum len : Z) (seg : seg_chksum) : seg_chksum :=
  let helper := u32 (chksum + seg_sum seg) in
  let chksum := u16 (FOLD_U32T helper) in
  if negb (Z.land len 1 =? 0) then mk_seg (SWAP_BYTES_IN_WORD chksum) (1 - seg_swapped seg)
  else mk_seg chksum (seg_swapped seg).

(** Data of a new segment that is not copied. *)
Definition tcp_nocopy_chksum (odd : bool) (bs : list Z) : seg_chksum :=
  let chksum := u16 (Z.lnot (inet_chksum odd bs)) in
  if negb (Z.land (Z.of_nat (length bs)) 1 =? 0) then mk_seg (SWAP_BYTES_IN_WORD chksum) 1 else mk_seg chksum 0.

(** The data that [tcp_write] adds to the last segment has a checksum of its own,
    which is swapped back first. *)
Definition tcp_concat_chksum (concat : seg_chksum) (concat_chksummed : Z) (last_unsent : seg_chksum) : seg_chksum :=
  if negb (concat_chksummed =? 0) then
    let sum := if negb (seg_swapped concat =? 0) then SWAP_BYTES_IN_WORD (seg_sum concat) else seg_sum concat in
    tcp_seg_add_chksum sum concat_chksummed last_unsent
  else last_unsent.

(** [tcp_split_unsent_seg] sums a segment again after it was cut: it looks for the
    buffer in which the data starts, and then goes through the chain. *)
Fixpoint split_skip (fuel : nat) (q offset : Z) : stm pmem (Z * Z) :=
  match fuel with
  | O => ub
  | S fuel =>
      if q =? 0 then mret (q, offset)
      else
        b ← pb_load q;
        if p_len b <? offset then split_skip fuel (p_next b) (u16 (offset - p_len b)) else mret (q, offset)
  end.

Fixpoint split_loop (fuel : nat) (q offset : Z) (seg : seg_chksum) : stm pmem seg_chksum :=
  match fuel with
  | O => ub
  | S fuel =>
      if q =? 0 then mret seg
      else
        b ← pb_load q;
        let payload := ptr_add (p_payload b) offset in
        bs ← mem_load payload (u16 (p_len b - offset));
        let chksum := u16 (Z.lnot (inet_chksum (Z.odd (addr payload)) bs)) in
        split_loop fuel (p_next b) 0 (tcp_seg_add_chksum chksum (u16 (p_len b - offset)) seg)
  end.

Definition tcp_split_chksum (p useg_len : Z) : stm pmem seg_chksum :=
  b ← pb_load p;
  fuel ← gets pb_fuel;
  r ← split_skip fuel p (u16 (p_tot_len b - useg_len));
  let '(q, offset) := r in
  lwip_assert (negb (q =? 0));;
  split_loop fuel q offset (mk_seg 0 0).

(** The checksum of a segment in [tcp_output_segment]: the one in the header, and
    the state after the output; [hdrlen] is the length of the header. *)
Definition tcp_output_chksum (p tot_len hdrlen : Z) (src dest : ip_addr) (seg : seg_chksum) : stm pmem (Z * seg_chksum) :=
  acc ← ip_chksum_pseudo_partial p 6 tot_len hdrlen src dest;
  let was_swapped := negb (seg_swapped seg =? 0) in
  let seg := if was_swapped then mk_seg (SWAP_BYTES_IN_WORD (seg_sum seg)) 0 else seg in
  let acc := u32 (u16 (Z.lnot acc) + seg_sum seg) in
  let chksum := u16 (Z.lnot (FOLD_U32T acc)) in
  let seg := if was_swapped then mk_seg (SWAP_BYTES_IN_WORD (seg_sum seg)) 1 else seg in
  mret (chksum, seg).

End chain.
