(* ===== verification/ChksumProps.v ===== *)
(** * Checksums: what they are

    The sum of RFC 1071 and the number whose digits are the bytes of a packet: one's
    complement sums are that number modulo 65535, so that alignment, the split of a
    packet into buffers and the byte order of the machine do not matter. *)

From S2P Require Import Prelude CString Pbuf PbufProps PbufShape Chksum.

(** ** The reference *)

(** One's complement addition of two words. *)
Definition ones_add (a b : Z) : Z := if a + b <? 65536 then a + b else a + b - 65535.

(** The sum of RFC 1071: words in network byte order, an odd byte at the end is
    followed by zero. *)
Fixpoint rfc1071 (bs : list Z) : Z :=
  match bs with
  | [] => 0
  | [b] => b * 256
  | b0 :: b1 :: bs => ones_add (b0 * 256 + b1) (rfc1071 bs)
  end.

Definition rfc_checksum (bs : list Z) : Z := 65535 - rfc1071 bs.

(** ** One's complement *)

Fixpoint le (bs : list Z) : Z :=
  match bs with
  | [] => 0
  | b :: bs => b + 256 * le bs
  end.

(** The sum that [x] stands for: 65535 and 0 are only equal modulo 65535. *)
Definition oc (x : Z) : Z := if x =? 0 then 0 else (x - 1) mod 65535 + 1.

Definition oceq (x y : Z) : Prop := x mod 65535 = y mod 65535 ∧ (x = 0 ↔ y = 0).

#[global] Instance oceq_equiv : Equivalence oceq.
Proof.
  split.
  - intros x. by split.
  - intros x y [H1 H2]. by split.
  - intros x y z [H1 H2] [H3 H4]. split; [congruence|tauto].
Qed.

Lemma oc_oceq x y : oceq x y → oc x = oc y.
Proof.
  intros [H1 H2]. unfold oc. destruct (Z.eqb_spec x 0), (Z.eqb_spec y 0); try tauto.
  rewrite (Zminus_mod x), (Zminus_mod y), H1. done.
Qed.

Lemma oc_self x : oceq (oc x) x.
Proof.
  unfold oc. destruct (Z.eqb_spec x 0) as [->|Hx]; [done|]. split.
  - rewrite Zplus_mod_idemp_l. f_equal. lia.
  - pose proof (Z.mod_pos_bound (x - 1) 65535 ltac:(lia)). lia.
Qed.

Lemma oc_range x : 0 ≤ oc x ≤ 65535.
Proof. unfold oc. pose proof (Z.mod_pos_bound (x - 1) 65535 ltac:(lia)). destruct (x =? 0); lia. Qed.

Lemma oc_small x : 0 ≤ x ≤ 65535 → oc x = x.
Proof. intros Hx. unfold oc. destruct (Z.eqb_spec x 0); [lia|]. rewrite Z.mod_small by lia. lia. Qed.

Lemma oc_unique r x : 0 ≤ r ≤ 65535 → oceq r x → r = oc x.
Proof. intros Hr H. rewrite <-(oc_oceq _ _ H). by rewrite oc_small. Qed.

(** Sums and multiples, of numbers that are not negative. *)
Lemma oceq_add x x' y y' : 0 ≤ x → 0 ≤ y → 0 ≤ x' → 0 ≤ y' → oceq x x' → oceq y y' → oceq (x + y) (x' + y').
Proof. intros Hx Hy Hx' Hy' [H1 H2] [H3 H4]. split; [by rewrite Zplus_mod, H1, H3, <-Zplus_mod|]. lia. Qed.

Lemma oceq_mul k x y : 0 < k → oceq x y → oceq (k * x) (k * y).
Proof. intros Hk [H1 H2]. split; [by rewrite Zmult_mod, H1, <-Zmult_mod|]. lia. Qed.

Lemma oceq_65536 x : oceq (65536 * x) x.
Proof. split; [|lia]. replace (65536 * x) with (x + x * 65535) by lia. by rewrite Z_mod_plus_full. Qed.

(** A multiple of 65535 only matters next to nothing. *)
Lemma oceq_shift x y k : 0 < x → 0 < y → x = y + k * 65535 → oceq x y.
Proof. intros Hx Hy ->. split; [by rewrite Z_mod_plus_full|lia]. Qed.

Lemma le_nonneg bs : is_bytes bs → 0 ≤ le bs.
Proof. induction 1 as [|b bs Hb _ IH]; simpl; [done|]. unfold is_u8 in *. lia. Qed.

Lemma le_app xs ys : le (xs ++ ys) = le xs + 256 ^ Z.of_nat (length xs) * le ys.
Proof.
  induction xs as [|x xs IH]; [simpl; lia|]. cbn [le app length]. rewrite IH, Nat2Z.inj_succ, Z.pow_succ_r by lia. lia.
Qed.

(** ** The operations on words *)

Lemma land_ff00 x : 0 ≤ x < 65536 → Z.shiftr (Z.land x 0xff00) 8 = x / 256.
Proof.
  intros Hx. rewrite Z.shiftr_land. change (Z.shiftr 0xff00 8) with (Z.ones 8).
  rewrite Z.land_ones, Z.shiftr_div_pow2 by lia. apply Z.mod_small. change (2 ^ 8) with 256. split.
  - apply Z.div_pos; lia.
  - apply Z.div_lt_upper_bound; lia.
Qed.

Lemma lor_shift8 x y : 0 ≤ y < 256 → Z.lor (Z.shiftl x 8) y = 256 * x + y.
Proof.
  intros Hy. pose proof (Z.add_lor_land (Z.shiftl x 8) y) as H.
  enough (Z.land (Z.shiftl x 8) y = 0) as H0 by (rewrite Z.shiftl_mul_pow2 in * by lia; lia).
  apply Z.bits_inj'. intros i Hi. rewrite Z.land_spec, Z.bits_0.
  destruct (Z.ltb_spec i 8); [by rewrite Z.shiftl_spec_low|].
  replace y with (y mod 2 ^ 8) by (apply Z.mod_small; lia). rewrite Z.mod_pow2_bits_high by lia. apply andb_false_r.
Qed.

Lemma SWAP_value x : 0 ≤ x < 65536 → SWAP_BYTES_IN_WORD x = 256 * (x mod 256) + x / 256.
Proof.
  intros Hx. unfold SWAP_BYTES_IN_WORD. rewrite land_ff00 by done. change 0xff with (Z.ones 8).
  rewrite Z.land_ones by lia. apply lor_shift8. split; [apply Z.div_pos; lia|apply Z.div_lt_upper_bound; lia].
Qed.

Lemma SWAP_oc x : 0 ≤ x ≤ 65535 → SWAP_BYTES_IN_WORD x = oc (256 * x).
Proof.
  intros Hx. rewrite SWAP_value by lia. pose proof (Z.div_mod x 256 ltac:(lia)). pose proof (Z.mod_pos_bound x 256 ltac:(lia)).
  apply oc_unique; [lia|]. destruct (Z.eq_dec x 0) as [->|]; [done|]. apply (oceq_shift _ _ (- (x / 256))); lia.
Qed.

Lemma lwip_htons_SWAP x : 0 ≤ x < 65536 → lwip_htons x = SWAP_BYTES_IN_WORD x.
Proof.
  intros Hx. change (lwip_htons x) with (u16 (SWAP_BYTES_IN_WORD x)). apply u16_small.
  rewrite SWAP_oc by lia. pose proof (oc_range (256 * x)). lia.
Qed.

Lemma FOLD_value u : 0 ≤ u < 2 ^ 32 → FOLD_U32T u = u / 65536 + u mod 65536.
Proof.
  intros Hu. unfold FOLD_U32T. change 0xffff with (Z.ones 16). rewrite Z.land_ones, Z.shiftr_div_pow2 by lia.
  change (2 ^ 16) with 65536. pose proof (Z.div_mod u 65536 ltac:(lia)). pose proof (Z.mod_pos_bound u 65536 ltac:(lia)).
  apply u32_small. lia.
Qed.

Lemma FOLD_oceq u : 0 ≤ u < 2 ^ 32 → oceq (FOLD_U32T u) u ∧ 0 ≤ FOLD_U32T u ≤ 131070.
Proof.
  intros Hu. rewrite FOLD_value by done. pose proof (Z.div_mod u 65536 ltac:(lia)).
  pose proof (Z.mod_pos_bound u 65536 ltac:(lia)). split; [|lia].
  destruct (Z.eq_dec u 0) as [->|]; [done|]. apply (oceq_shift _ _ (- (u / 65536))); lia.
Qed.

Lemma FOLD_once u : 0 ≤ u ≤ 131070 → FOLD_U32T u = oc u.
Proof.
  intros Hu. destruct (FOLD_oceq u ltac:(lia)) as [He _]. apply oc_unique; [|done]. rewrite FOLD_value by lia.
  pose proof (Z.div_mod u 65536 ltac:(lia)). pose proof (Z.mod_pos_bound u 65536 ltac:(lia)). lia.
Qed.

Lemma FOLD_twice u : 0 ≤ u < 2 ^ 32 → FOLD_U32T (FOLD_U32T u) = oc u.
Proof. intros Hu. destruct (FOLD_oceq u Hu) as [He Hr]. rewrite FOLD_once by done. by apply oc_oceq. Qed.

(** ** The reference as a number *)

Lemma ones_add_oc a b : 0 ≤ a ≤ 65535 → 0 ≤ b ≤ 65535 → ones_add a b = oc (a + b).
Proof.
  intros Ha Hb. unfold ones_add. destruct (Z.ltb_spec (a + b) 65536); apply oc_unique; try lia; try done.
  apply (oceq_shift _ _ (-1)); lia.
Qed.

Lemma list_two_ind {A} (P : list A → Prop) :
  P [] → (∀ x, P [x]) → (∀ x y l, P l → P (x :: y :: l)) → ∀ l, P l.
Proof. intros H0 H1 H2. fix IH 1. intros [|x [|y l]]; [done|apply H1|apply H2, IH]. Qed.

(** Sums of parts are moved to the sum of everything. *)
Ltac oceq := repeat first [reflexivity | apply oc_self | apply oceq_add; [lia..| |] | apply oceq_mul; [lia|] | apply oceq_65536].

Lemma rfc1071_oc bs : is_bytes bs → rfc1071 bs = oc (256 * le bs).
Proof.
  induction bs as [|b|b0 b1 bs IH] using list_two_ind; intros Hb; [done| |].
  - apply Forall_cons in Hb as [Hb _]. unfold is_u8 in Hb. rewrite <-(oc_small (rfc1071 [b])); cbn [rfc1071 le]; [f_equal; lia|lia].
  - apply Forall_cons in Hb as [H0 Hb]. apply Forall_cons in Hb as [H1 Hb]. unfold is_u8 in *. cbn [rfc1071 le].
    rewrite (IH Hb). pose proof (oc_range (256 * le bs)). pose proof (le_nonneg _ Hb). rewrite ones_add_oc by lia. apply oc_oceq.
    replace (256 * (b0 + 256 * (b1 + 256 * le bs))) with (b0 * 256 + 65536 * b1 + 65536 * (256 * le bs)) by lia.
    apply oceq_add; [lia..| |].
    + apply oceq_add; [lia..|done|]. symmetry. apply oceq_65536.
    + rewrite oceq_65536. apply oc_self.
Qed.

(** ** A block *)

Lemma word_value b0 b1 : is_u8 b0 → Z.lor b0 (Z.shiftl b1 8) = b0 + 256 * b1.
Proof. intros H. unfold is_u8 in H. rewrite Z.lor_comm, lor_shift8 by lia. lia. Qed.

Lemma sum_words_spec bs sum : is_bytes bs → 0 ≤ sum → sum + 65535 * (Z.of_nat (length bs) / 2) < 2 ^ 32 →
  ∃ sum' rest, sum_words sum bs = (sum', rest) ∧ 0 ≤ sum' ≤ sum + 65535 * (Z.of_nat (length bs) / 2) ∧
    (rest = [] ∨ ∃ b, rest = [b] ∧ is_u8 b) ∧ oceq (sum' + le rest) (sum + le bs).
Proof.
  revert sum. induction bs as [|b|b0 b1 bs IH] using list_two_ind; intros sum Hb Hs Hlt.
  - exists sum, []. change (Z.of_nat (length (@nil Z)) / 2) with 0; split_and!; try done; [lia|by left].
  - exists sum, [b]. apply Forall_cons in Hb as [Hb _]. change (Z.of_nat (length [b]) / 2) with 0; split_and!; try done; [lia|right; by exists b].
  - apply Forall_cons in Hb as [H0 Hb]. apply Forall_cons in Hb as [H1 Hb]. cbn [sum_words].
    rewrite word_value by done. unfold is_u8 in *.
    assert (Z.of_nat (length (b0 :: b1 :: bs)) / 2 = 1 + Z.of_nat (length bs) / 2) as Hl.
    { cbn [length]. replace (Z.of_nat (S (S (length bs)))) with (Z.of_nat (length bs) + 1 * 2) by lia.
      rewrite Z.div_add by lia. lia. }
    rewrite Hl in *. assert (0 ≤ Z.of_nat (length bs) / 2) by (apply Z.div_pos; lia).
    rewrite u32_small by lia. destruct (IH (sum + (b0 + 256 * b1)) Hb ltac:(lia) ltac:(lia)) as (sum' & rest & -> & Hs' & Hr & He).
    exists sum', rest. split_and!; [done|lia|lia|done|]. rewrite He. cbn [le]. pose proof (le_nonneg _ Hb).
    replace (sum + (b0 + 256 * (b1 + 256 * le bs))) with (sum + (b0 + 256 * b1) + 65536 * le bs) by lia.
    apply oceq_add; [lia..|done|]. symmetry. apply oceq_65536.
Qed.

(** The rest of the routine, with the byte before the first word in [t]. *)
Lemma chksum_rest t bs : is_bytes bs → is_u8 t → (Z.of_nat (length bs) ≤ 0x20000) →
  ∃ sum rest, sum_words 0 bs = (sum, rest) ∧
    let t' := match rest with b :: _ => Z.lor (Z.land (Z.shiftl t 8) 0xff00) b | [] => Z.shiftl t 8 end in
    FOLD_U32T (FOLD_U32T (u32 (sum + t'))) = oc (256 * t + le bs).
Proof.
  intros Hb Ht Hl. assert (Z.of_nat (length bs) / 2 ≤ 65536) by (apply Z.div_le_upper_bound; lia). unfold is_u8 in Ht.
  destruct (sum_words_spec bs 0 Hb ltac:(lia) ltac:(lia)) as (sum & rest & -> & Hs & Hr & He).
  exists sum, rest. split; [done|]. cbn zeta.
  assert (match rest with b :: _ => Z.lor (Z.land (Z.shiftl t 8) 0xff00) b | [] => Z.shiftl t 8 end = 256 * t + le rest) as ->.
  { destruct Hr as [->|(b & -> & Hb')]; [simpl; rewrite Z.shiftl_mul_pow2; lia|].
    replace (Z.land _ _) with (Z.shiftl t 8); [rewrite lor_shift8 by done; simpl; lia|].
    symmetry. change 0xff00 with (Z.shiftl 0xff 8). rewrite <-Z.shiftl_land. f_equal.
    change 0xff with (Z.ones 8). rewrite Z.land_ones by lia. apply Z.mod_small. lia. }
  assert (0 ≤ le rest ≤ 255) by (destruct Hr as [->|(b & -> & Hb')]; unfold is_u8 in *; simpl; lia).
  rewrite u32_small by lia. rewrite FOLD_twice by lia. apply oc_oceq. pose proof (le_nonneg _ Hb).
  replace (sum + (256 * t + le rest)) with (256 * t + (sum + le rest)) by lia. apply oceq_add; [lia..|done|]. by rewrite He.
Qed.

Lemma standard_chksum_oc odd bs : is_bytes bs → Z.of_nat (length bs) ≤ 0x20000 → lwip_standard_chksum odd bs = oc (le bs).
Proof.
  intros Hb Hl. unfold lwip_standard_chksum.
  assert (∀ x, u16 (oc x) = oc x) as Hu by (intros x; apply u16_small; pose proof (oc_range x); lia).
  destruct odd.
  - destruct bs as [|b bs]; [done|]. apply Forall_cons in Hb as [Hb0 Hb]. cbn [length] in Hl.
    destruct (chksum_rest b bs Hb Hb0 ltac:(lia)) as (sum & rest & -> & ->).
    rewrite SWAP_oc by apply oc_range. rewrite Hu. apply oc_oceq. unfold is_u8 in *. pose proof (le_nonneg _ Hb).
    rewrite (oceq_mul 256 _ (256 * b + le bs)); [|lia|apply oc_self].
    replace (256 * (256 * b + le bs)) with (65536 * b + 256 * le bs) by lia. cbn [le].
    apply oceq_add; [lia..|apply oceq_65536|done].
  - destruct (chksum_rest 0 bs Hb ltac:(done) Hl) as (sum & rest & Hs & He).
    replace (match bs with [] => (0, bs) | _ :: _ => (0, bs) end) with (0, bs) by (by destruct bs).
    rewrite Hs. change (Z.shiftl 0 8) with 0 in He. cbn zeta in He. by rewrite He, Hu.
Qed.

(** ** Complements *)

Lemma lnot16 x : 0 ≤ x ≤ 65535 → u16 (Z.lnot x) = 65535 - x.
Proof.
  intros Hx. unfold u16, Z.lnot. rewrite <-Z.sub_1_r. symmetry. apply (Z.mod_unique _ _ (-1)); lia.
Qed.

Lemma land16 x : 0 ≤ x ≤ 65535 → Z.land x 0xffff = x.
Proof. intros Hx. change 0xffff with (Z.ones 16). rewrite Z.land_ones by lia. apply Z.mod_small. lia. Qed.

Lemma SWAP_complement x : 0 ≤ x ≤ 65535 → SWAP_BYTES_IN_WORD (65535 - x) = 65535 - SWAP_BYTES_IN_WORD x.
Proof.
  intros Hx. rewrite !SWAP_value by lia. pose proof (Z.div_mod x 256 ltac:(lia)). pose proof (Z.mod_pos_bound x 256 ltac:(lia)).
  assert ((65535 - x) / 256 = 255 - x / 256) as -> by (symmetry; apply (Z.div_unique _ _ _ (255 - x mod 256)); lia).
  assert ((65535 - x) mod 256 = 255 - x mod 256) as -> by (symmetry; apply (Z.mod_unique _ _ (255 - x / 256)); lia). lia.
Qed.

Lemma checksum_oc bs : is_bytes bs → lwip_htons (rfc_checksum bs) = 65535 - oc (le bs).
Proof.
  intros Hb. unfold rfc_checksum. rewrite rfc1071_oc by done. pose proof (oc_range (256 * le bs)).
  rewrite lwip_htons_SWAP, SWAP_complement, SWAP_oc by lia. f_equal. apply oc_oceq.
  rewrite (oceq_mul 256 _ (256 * le bs)); [|lia|apply oc_self]. rewrite Z.mul_assoc. apply oceq_65536.
Qed.

Lemma inet_chksum_oc odd bs : is_bytes bs → Z.of_nat (length bs) ≤ 0x20000 → inet_chksum odd bs = 65535 - oc (le bs).
Proof. intros Hb Hl. unfold inet_chksum. rewrite standard_chksum_oc by done. apply lnot16, oc_range. Qed.

(** ** The parity of a position *)

Definition sh (o : bool) : Z := if o then 256 else 1.

Lemma sh_pos o : 0 < sh o.
Proof. by destruct o. Qed.
Lemma oceq_sh_sh o x : oceq (sh o * (sh o * x)) x.
Proof. destruct o; simpl; [|by rewrite !Z.mul_1_l]. rewrite Z.mul_assoc. apply oceq_65536. Qed.
Lemma sh_xorb o o' x : oceq (sh (xorb o o') * x) (sh o * (sh o' * x)).
Proof. destruct o, o'; simpl; rewrite ?Z.mul_1_l; try done. symmetry. rewrite Z.mul_assoc. apply oceq_65536. Qed.

Lemma oceq_pow n x : oceq (256 ^ Z.of_nat n * x) (sh (Nat.odd n) * x).
Proof.
  induction n as [n IH] using lt_wf_ind. destruct n as [|[|n]]; [by rewrite Z.pow_0_r|by rewrite Z.pow_1_r|].
  replace (256 ^ Z.of_nat (S (S n)) * x) with (65536 * (256 ^ Z.of_nat n * x))
    by (rewrite !Nat2Z.inj_succ, !Z.pow_succ_r by lia; lia).
  rewrite oceq_65536, IH by lia. change (Nat.odd (S (S n))) with (Nat.odd n). done.
Qed.

Lemma le_app_oceq xs ys : is_bytes xs → is_bytes ys → oceq (le (xs ++ ys)) (le xs + sh (Nat.odd (length xs)) * le ys).
Proof.
  intros Hx Hy. rewrite le_app. pose proof (le_nonneg _ Hx). pose proof (le_nonneg _ Hy).
  pose proof (sh_pos (Nat.odd (length xs))). assert (0 < 256 ^ Z.of_nat (length xs)) by (apply Z.pow_pos_nonneg; lia).
  apply oceq_add; try nia; [done|]. apply oceq_pow.
Qed.

(** ** Chains *)

Lemma swap_sh o x : 0 ≤ x → (if o : bool then SWAP_BYTES_IN_WORD (oc (sh o * x)) else oc (sh o * x)) = oc x.
Proof.
  intros Hx. destruct o; simpl; [|by rewrite Z.mul_1_l]. rewrite SWAP_oc by apply oc_range. apply oc_oceq.
  rewrite (oceq_mul 256 _ (256 * x)); [|lia|apply oc_self]. rewrite Z.mul_assoc. apply oceq_65536.
Qed.


Lemma chksum_step_oc o x bs len : 0 ≤ x → 0 ≤ le bs →
  chksum_step (oc (le bs)) (Z.of_nat len) (oc (sh o * x)) o =
    (oc (sh (xorb (Nat.odd len) o) * (x + sh o * le bs)), xorb (Nat.odd len) o).
Proof.
  intros Hx Hb. unfold chksum_step. pose proof (oc_range (sh o * x)). pose proof (oc_range (le bs)). pose proof (sh_pos o).
  rewrite u32_small, FOLD_once by lia.
  assert (oc (oc (sh o * x) + oc (le bs)) = oc (sh o * (x + sh o * le bs))) as ->.
  { apply oc_oceq. rewrite Z.mul_add_distr_l. apply oceq_add; try nia; [apply oc_self|]. rewrite oc_self. symmetry. apply oceq_sh_sh. }
  replace (negb (Z.of_nat len mod 2 =? 0)) with (Nat.odd len).
  2: { destruct (Nat.Even_or_Odd len) as [[k ->]|[k ->]].
    - rewrite Nat.odd_even. replace (Z.of_nat (2 * k)) with (Z.of_nat k * 2) by lia. by rewrite Z_mod_mult.
    - rewrite Nat.odd_odd. replace (Z.of_nat (2 * k + 1)) with (1 + Z.of_nat k * 2) by lia. by rewrite Z_mod_plus_full. }
  destruct (Nat.odd len); [|done]. f_equal. rewrite SWAP_oc by apply oc_range. apply oc_oceq.
  rewrite sh_xorb. change (sh true) with 256. apply oceq_mul; [lia|]. apply oc_self.
Qed.

Section chain.
Context (addr : ptr → Z).

Lemma wp_lwip_chksum s q bs n (Q : Z → pmem → Prop) :
  view s q bs → is_bytes bs → 0 ≤ n ≤ Z.of_nat (length bs) → n ≤ 0x20000 →
  Q (oc (le (take (Z.to_nat n) bs))) s → wp (lwip_chksum addr q n) s Q.
Proof.
  intros Hv Hb Hn Hl HQ. unfold lwip_chksum. apply wp_bind. rewrite <-(ptr_add_0 q) at 1.
  eapply (wp_mem_load _ _ bs 0); [done|lia..|]. apply wp_ret. rewrite drop_0, standard_chksum_oc; [done| |].
  - by apply Forall_take.
  - rewrite length_take. lia.
Qed.

Lemma bytes_cons a bs xs : is_bytes (contents ((a, bs) :: xs)) → is_bytes bs ∧ is_bytes (contents xs).
Proof. rewrite contents_cons. apply Forall_app. Qed.

(** The sum of a buffer and of what follows it. *)
Lemma chain_sum o o' x bs rest : is_bytes bs → is_bytes rest → 0 ≤ x →
  oc (sh o' * (x + sh o * le bs + sh (xorb (Nat.odd (length bs)) o) * le rest)) = oc (sh o' * (x + sh o * le (bs ++ rest))).
Proof.
  intros Hb Hr Hx. apply oc_oceq, oceq_mul; [apply sh_pos|]. rewrite <-Z.add_assoc.
  pose proof (sh_pos o). pose proof (sh_pos (xorb (Nat.odd (length bs)) o)). pose proof (sh_pos (Nat.odd (length bs))).
  pose proof (le_nonneg _ Hb). pose proof (le_nonneg _ Hr). pose proof (le_nonneg (bs ++ rest) ltac:(by apply Forall_app)).
  apply oceq_add; try nia; [done|]. rewrite (oceq_mul (sh o) _ _ (sh_pos o) (le_app_oceq bs _ Hb Hr)). rewrite Z.mul_add_distr_l.
  apply oceq_add; try nia; [done|]. rewrite (xorb_comm (Nat.odd _)). apply sh_xorb.
Qed.

Lemma wp_chksum_loop fuel s p xs o x (Q : Z * bool → pmem → Prop) :
  packet s p xs → is_bytes (contents xs) → 0 ≤ x → (length xs < fuel)%nat →
  (∀ o', Q (oc (sh o' * (x + sh o * le (contents xs))), o') s) →
  wp (chksum_loop addr fuel p (oc (sh o * x)) o) s Q.
Proof.
  revert p xs o x. induction fuel as [|fuel IH]; intros p xs o x Hp Hb Hx Hf HQ; [lia|]. cbn [chksum_loop].
  destruct xs as [|[a bs] xs].
  - destruct Hp as [-> _]. simpl. apply wp_ret. specialize (HQ o). change (le (contents [])) with 0 in HQ.
    by rewrite Z.mul_0_r, Z.add_0_r in HQ.
  - apply bytes_cons in Hb as [Hb Hbs]. pose proof Hp as (_ & _ & Hlt). rewrite total_cons in Hlt. pose proof (total_nonneg xs).
    apply packet_cons in Hp as (-> & Ha & _ & b & Hbb & Hl & _ & Hv & Hp). pose proof (le_nonneg _ Hb). pose proof (le_nonneg _ Hbs).
    rewrite (proj2 (Z.eqb_neq _ _) Ha). apply wp_bind. eapply wp_pb_load; [done|]. apply wp_bind.
    eapply wp_lwip_chksum; [done..|lia|lia|]. rewrite Hl, take_ge by lia. rewrite chksum_step_oc by done.
    pose proof (sh_pos o). eapply IH; [done..|nia|simpl in Hf; lia|]. intros o'. specialize (HQ o').
    by rewrite contents_cons in HQ; rewrite chain_sum.
Qed.

(** A part of a chain; behind the first buffer the code allows less than 32767 bytes. *)
Lemma wp_chksum_partial_loop fuel s p xs o x n (Q : Z * bool → pmem → Prop) :
  packet s p xs → is_bytes (contents xs) → 0 ≤ x → (length xs < fuel)%nat → 0 ≤ n ≤ total xs →
  match xs with [] => True | (_, bs) :: _ => n - Z.of_nat (length bs) < 0x7fff end →
  (∀ o', Q (oc (sh o' * (x + sh o * le (take (Z.to_nat n) (contents xs)))), o') s) →
  wp (chksum_partial_loop addr fuel p n (oc (sh o * x)) o) s Q.
Proof.
  revert p xs o x n. induction fuel as [|fuel IH]; intros p xs o x n Hp Hb Hx Hf Hn H7 HQ; [lia|]. cbn [chksum_partial_loop].
  assert (n = 0 → Q (oc (sh o * x), o) s) as HQ0.
  { intros ->. specialize (HQ o). change (take (Z.to_nat 0) (contents xs)) with (@nil Z) in HQ.
    change (le []) with 0 in HQ. by rewrite Z.mul_0_r, Z.add_0_r in HQ. }
  destruct xs as [|[a bs] xs].
  - destruct Hp as [-> _]. simpl. apply wp_ret, HQ0. change (total []) with 0 in Hn. lia.
  - apply bytes_cons in Hb as [Hb Hbs]. pose proof Hp as (_ & _ & Hlt). rewrite total_cons in *. pose proof (total_nonneg xs).
    apply packet_cons in Hp as (-> & Ha & _ & b & Hbb & Hl & _ & Hv & Hp). pose proof (le_nonneg _ Hb). pose proof (le_nonneg _ Hbs).
    rewrite (proj2 (Z.eqb_neq _ _) Ha). simpl orb. destruct (Z.leb_spec n 0) as [Hn0|Hn0]; [apply wp_ret, HQ0; lia|].
    apply wp_bind. eapply wp_pb_load; [done|]. apply wp_bind. pose proof (sh_pos o) as Ho. pose proof (Forall_take _ (Z.to_nat n) _ Hb) as Hb1.
    pose proof (le_nonneg _ Hb1). destruct (Z.leb_spec n (Z.of_nat (length bs))) as [Hnl|Hnl].
    + replace (if n <? p_len b then n else p_len b) with n by (destruct (Z.ltb_spec n (p_len b)); lia).
      eapply wp_lwip_chksum; [done..|lia|lia|]. rewrite Z.sub_diag. change (u16 0) with 0. apply wp_bind, wp_assert; [done|].
      rewrite Hl, chksum_step_oc by done. eapply (IH _ xs); [done|done|nia|simpl in Hf; lia|by pose proof (total_nonneg xs)| |].
      { destruct xs as [|[c ds] xs]; [done|lia]. }
      intros o'. specialize (HQ o'). rewrite contents_cons, take_app_le in HQ by lia.
      change (take (Z.to_nat 0) (contents xs)) with (@nil Z). change (le []) with 0. by rewrite Z.mul_0_r, Z.add_0_r.
    + replace (if n <? p_len b then n else p_len b) with (p_len b) by (destruct (Z.ltb_spec n (p_len b)); lia).
      eapply wp_lwip_chksum; [done..|lia|lia|]. rewrite Hl, u16_small, (take_ge bs) by lia.
      apply wp_bind, wp_assert; [apply Z.ltb_lt; lia|]. rewrite chksum_step_oc by done.
      eapply (IH _ xs); [done|done|nia|simpl in Hf; lia|lia|destruct xs as [|[c ds] xs]; [done|lia]|].
      intros o'. specialize (HQ o'). rewrite contents_cons, take_app_ge in HQ by lia.
      replace (Z.to_nat n - length bs)%nat with (Z.to_nat (n - Z.of_nat (length bs))) in HQ by lia.
      by rewrite (chain_sum o o' x bs) by (done || by apply Forall_take).
Qed.

(** ** Pseudo headers *)

Definition word_bytes (w : Z) : list Z := [w mod 256; w / 256 mod 256; w / 65536 mod 256; w / 16777216].

Definition is_addr (a : ip_addr) : Prop := Forall is_u32 (ip_words a).

(** The pseudo header of RFC 793 and that of RFC 8200. *)
Definition ip4_pseudo (src dest : ip_addr) (proto len : Z) : list Z :=
  word_bytes (ip_w0 src) ++ word_bytes (ip_w0 dest) ++ [0; proto; len / 256; len mod 256].
Definition ip6_pseudo (src dest : ip_addr) (proto len : Z) : list Z :=
  concat (word_bytes <$> ip_words src) ++ concat (word_bytes <$> ip_words dest) ++
    [0; 0; len / 256; len mod 256; 0; 0; 0; proto].
Definition ip_pseudo (src dest : ip_addr) (proto len : Z) : list Z :=
  if ip_is_v6 dest then ip6_pseudo src dest proto len else ip4_pseudo src dest proto len.

Lemma word_bytes_ok w : is_u32 w → is_bytes (word_bytes w) ∧ le (word_bytes w) = w.
Proof.
  intros Hw. unfold is_u32 in Hw. unfold word_bytes, is_bytes. pose proof (Z.div_mod w 256 ltac:(lia)) as E1.
  pose proof (Z.div_mod (w / 256) 256 ltac:(lia)) as E2. pose proof (Z.div_mod (w / 65536) 256 ltac:(lia)) as E3.
  rewrite Z.div_div in E2, E3 by lia. change (256 * 256) with 65536 in E2. change (65536 * 256) with 16777216 in E3.
  pose proof (Z.mod_pos_bound w 256 ltac:(lia)). pose proof (Z.mod_pos_bound (w / 256) 256 ltac:(lia)).
  pose proof (Z.mod_pos_bound (w / 65536) 256 ltac:(lia)). split.
  - repeat constructor; unfold is_u8; lia.
  - cbn [le]. lia.
Qed.

Lemma concat_words_ok ws : Forall is_u32 ws → is_bytes (concat (word_bytes <$> ws)) ∧
  Nat.odd (length (concat (word_bytes <$> ws))) = false ∧ oceq (le (concat (word_bytes <$> ws))) (foldr Z.add 0 ws) ∧ 0 ≤ foldr Z.add 0 ws.
Proof.
  induction 1 as [|w ws Hw _ (IH1 & IH2 & IH3 & IH4)]; [by split_and!; [constructor|..]|].
  destruct (word_bytes_ok w Hw) as [Hb Hl]. cbn [fmap list_fmap concat foldr]. split_and!.
  - by apply Forall_app.
  - rewrite length_app. change (length (word_bytes w)) with 4%nat. simpl. done.
  - rewrite le_app_oceq by done. change (sh _) with 1. rewrite Z.mul_1_l, Hl. pose proof (le_nonneg _ IH1). unfold is_u32 in Hw.
    apply oceq_add; [lia..|done|done].
  - unfold is_u32 in Hw. lia.
Qed.

Lemma add_word_oc acc w : is_u32 w → 0 ≤ acc ≤ 2 ^ 32 - 1 - 131070 →
  oceq (add_word acc w) (acc + w) ∧ acc ≤ add_word acc w ≤ acc + 131070.
Proof.
  intros Hw Ha. unfold is_u32 in Hw. unfold add_word. change 0xffff with (Z.ones 16).
  rewrite !Z.land_ones, Z.shiftr_div_pow2 by lia. change (2 ^ 16) with 65536. pose proof (Z.div_mod w 65536 ltac:(lia)).
  pose proof (Z.mod_pos_bound w 65536 ltac:(lia)). rewrite (Z.mod_small (w / 65536)) by lia. rewrite (u32_small (acc + w mod 65536)) by lia. rewrite u32_small by lia.
  split; [|lia]. destruct (Z.eq_dec (acc + w) 0).
  - assert (acc = 0) as -> by lia. assert (w = 0) as -> by lia. done.
  - apply (oceq_shift _ _ (- (w / 65536))); lia.
Qed.

Lemma ip4_addr_sum_oc src dest : is_addr src → is_addr dest → ip4_addr_sum src dest = oc (ip_w0 src + ip_w0 dest).
Proof.
  intros Hs Hd. apply Forall_cons in Hs as [Hs _], Hd as [Hd _]. unfold ip4_addr_sum.
  destruct (add_word_oc 0 (ip_w0 src) Hs ltac:(lia)) as [H1 B1]. destruct (add_word_oc (add_word 0 (ip_w0 src)) (ip_w0 dest) Hd ltac:(lia)) as [H2 B2].
  rewrite FOLD_twice by lia. apply oc_oceq. rewrite H2. unfold is_u32 in *. apply oceq_add; [lia..|done|done].
Qed.

Lemma ip6_addr_loop_oc acc src dest : Forall is_u32 src → Forall is_u32 dest → length src = length dest →
  0 ≤ acc → acc + 262140 * Z.of_nat (length src) < 2 ^ 32 →
  oceq (ip6_addr_loop acc src dest) (acc + foldr Z.add 0 src + foldr Z.add 0 dest) ∧
  0 ≤ ip6_addr_loop acc src dest ≤ acc + 262140 * Z.of_nat (length src).
Proof.
  intros Hs. revert acc dest. induction Hs as [|w src Hw Hs IH]; intros acc [|d dest] Hd Hl Ha Hb; try done.
  - simpl. rewrite !Z.add_0_r. split; [done|lia].
  - apply Forall_cons in Hd as [Hd0 Hd]. cbn [length] in *. cbn [ip6_addr_loop foldr].
    destruct (add_word_oc acc w Hw ltac:(lia)) as [H1 B1]. destruct (add_word_oc (add_word acc w) d Hd0 ltac:(lia)) as [H2 B2].
    destruct (IH (add_word (add_word acc w) d) dest Hd ltac:(lia) ltac:(lia) ltac:(lia)) as [H3 B3]. split; [|lia].
    rewrite H3. destruct (concat_words_ok src Hs) as (_ & _ & _ & Hss). destruct (concat_words_ok dest Hd) as (_ & _ & _ & Hdd).
    unfold is_u32 in *. replace (acc + _ + _) with (acc + w + d + foldr Z.add 0 src + foldr Z.add 0 dest) by lia.
    repeat (apply oceq_add; [lia..| |done]). rewrite H2. apply oceq_add; [lia..|done|done].
Qed.

Lemma ip6_addr_sum_oc src dest : is_addr src → is_addr dest →
  ip6_addr_sum src dest = oc (foldr Z.add 0 (ip_words src) + foldr Z.add 0 (ip_words dest)).
Proof.
  intros Hs Hd. unfold ip6_addr_sum. destruct (ip6_addr_loop_oc 0 _ _ Hs Hd eq_refl ltac:(lia) ltac:(simpl; lia)) as [H B].
  cbn [length ip_words] in B. rewrite FOLD_twice by lia. apply oc_oceq. by rewrite H.
Qed.

(** The end of the header in words. *)
Lemma pseudo_tail_oc proto len : is_u8 proto → is_u16 len →
  let t := lwip_htons (u16 proto) + lwip_htons len in
  0 ≤ t ≤ 131070 ∧ is_bytes [0; proto; len / 256; len mod 256] ∧ oceq (le [0; proto; len / 256; len mod 256]) t.
Proof.
  intros Hp Hl. unfold is_u8, is_u16 in *. pose proof (Z.div_mod len 256 ltac:(lia)).
  pose proof (Z.mod_pos_bound len 256 ltac:(lia)). cbn zeta.
  rewrite u16_small by lia. rewrite !lwip_htons_SWAP, !SWAP_value by lia.
  rewrite (Z.mod_small proto), (Z.div_small proto) by lia. split_and!; [lia|lia| |].
  - repeat constructor; unfold is_u8; lia.
  - cbn [le]. replace (0 + 256 * _) with (256 * proto + 65536 * (256 * (len mod 256) + len / 256)) by lia.
    rewrite Z.add_0_r. apply oceq_add; [lia..|done|apply oceq_65536].
Qed.

Lemma pseudo_tail6_oc proto len : is_u8 proto → is_u16 len →
  is_bytes [0; 0; len / 256; len mod 256; 0; 0; 0; proto] ∧
  oceq (le [0; 0; len / 256; len mod 256; 0; 0; 0; proto]) (le [0; proto; len / 256; len mod 256]).
Proof.
  intros Hp Hl. destruct (pseudo_tail_oc proto len Hp Hl) as (_ & Hb & _).
  apply Forall_cons in Hb as [H0 Hb]. apply Forall_cons in Hb as [H1 Hb]. apply Forall_cons in Hb as [H2 Hb].
  apply Forall_cons in Hb as [H3 _]. split; [by repeat (apply Forall_cons; split; [assumption|])|]. unfold is_u8 in *. cbn [le].
  replace (0 + 256 * (0 + _)) with (65536 * (65536 * (65536 * (256 * proto))) + 65536 * (len / 256 + 256 * (len mod 256))) by lia.
  replace (0 + 256 * _) with (256 * proto + 65536 * (len / 256 + 256 * (len mod 256))) by lia.
  apply oceq_add; [lia..| |done]. by rewrite !oceq_65536.
Qed.

(** The words of the addresses that are summed. *)
Definition addr_total (src dest : ip_addr) : Z :=
  if ip_is_v6 dest then foldr Z.add 0 (ip_words src) + foldr Z.add 0 (ip_words dest) else ip_w0 src + ip_w0 dest.

Lemma even_app_oc xs ys x y : is_bytes xs → is_bytes ys → Nat.odd (length xs) = false → 0 ≤ x → 0 ≤ y →
  oceq (le xs) x → oceq (le ys) y → is_bytes (xs ++ ys) ∧ oceq (le (xs ++ ys)) (x + y).
Proof.
  intros Hx Hy Ho Hx0 Hy0 H1 H2. split; [by apply Forall_app|]. rewrite le_app_oceq, Ho by done. change (sh false) with 1.
  rewrite Z.mul_1_l. pose proof (le_nonneg _ Hx). pose proof (le_nonneg _ Hy). by apply oceq_add.
Qed.

Lemma ip_pseudo_oc src dest proto len : is_addr src → is_addr dest → is_u8 proto → is_u16 len →
  is_bytes (ip_pseudo src dest proto len) ∧ Nat.odd (length (ip_pseudo src dest proto len)) = false ∧
  0 ≤ addr_total src dest ∧
  oceq (le (ip_pseudo src dest proto len)) (addr_total src dest + (lwip_htons (u16 proto) + lwip_htons len)).
Proof.
  intros Hs Hd Hp Hl. destruct (pseudo_tail_oc proto len Hp Hl) as (Ht & Hb & He).
  unfold ip_pseudo, addr_total. destruct (ip_is_v6 dest).
  - destruct (concat_words_ok _ Hs) as (S1 & S2 & S3 & S4). destruct (concat_words_ok _ Hd) as (D1 & D2 & D3 & D4).
    destruct (pseudo_tail6_oc proto len Hp Hl) as [B6 E6]. unfold ip6_pseudo. rewrite He in E6.
    destruct (even_app_oc _ _ _ _ D1 B6 D2 D4 (proj1 Ht) D3 E6) as [F1 F2].
    destruct (even_app_oc _ _ _ _ S1 F1 S2 S4 (Z.add_nonneg_nonneg _ _ D4 (proj1 Ht)) S3 F2) as [G1 G2].
    split_and!; [done|done|lia|]. by rewrite <-Z.add_assoc.
  - apply Forall_cons in Hs as [Hs _], Hd as [Hd _]. destruct (word_bytes_ok _ Hs) as [S1 S2]. destruct (word_bytes_ok _ Hd) as [D1 D2].
    unfold is_u32, ip4_pseudo in *.
    destruct (even_app_oc (word_bytes (ip_w0 dest)) _ (ip_w0 dest) _ D1 Hb eq_refl ltac:(lia) (proj1 Ht) ltac:(by rewrite D2) He) as [F1 F2].
    destruct (even_app_oc (word_bytes (ip_w0 src)) _ (ip_w0 src) _ S1 F1 eq_refl ltac:(lia) (Z.add_nonneg_nonneg _ _ (proj1 Hd) (proj1 Ht)) ltac:(by rewrite S2) F2) as [G1 G2].
    split_and!; [done|done|lia|]. by rewrite <-Z.add_assoc.
Qed.

Lemma pseudo_finish_oc proto len o x : is_u8 proto → is_u16 len → 0 ≤ x →
  pseudo_finish proto len (oc (sh o * x)) o = 65535 - oc (x + (lwip_htons (u16 proto) + lwip_htons len)).
Proof.
  intros Hp Hl Hx. destruct (pseudo_tail_oc proto len Hp Hl) as (Ht & _). unfold pseudo_finish. rewrite swap_sh by done.
  pose proof (oc_range x). unfold is_u8, is_u16 in *.
  assert (0 ≤ lwip_htons (u16 proto) ∧ 0 ≤ lwip_htons len) as [? ?].
  { rewrite u16_small by lia. rewrite !lwip_htons_SWAP, !SWAP_oc by lia. split; apply oc_range. }
  rewrite (u32_small (oc x + _)) by lia. rewrite u32_small by lia. rewrite FOLD_twice by lia.
  rewrite land16, lnot16 by apply oc_range. f_equal. apply oc_oceq. rewrite <-Z.add_assoc.
  apply oceq_add; [lia..|apply oc_self|done].
Qed.

(** What is added to the pseudo header is a packet, or a part of one. *)
Lemma pseudo_checksum src dest proto len bs : is_addr src → is_addr dest → is_u8 proto → is_u16 len → is_bytes bs →
  65535 - oc (addr_total src dest + le bs + (lwip_htons (u16 proto) + lwip_htons len)) =
    lwip_htons (rfc_checksum (ip_pseudo src dest proto len ++ bs)).
Proof.
  intros Hs Hd Hp Hl Hb. destruct (ip_pseudo_oc src dest proto len Hs Hd Hp Hl) as (P1 & P2 & P3 & P4).
  destruct (pseudo_tail_oc proto len Hp Hl) as (Ht & _). pose proof (le_nonneg _ Hb).
  destruct (even_app_oc _ _ _ (le bs) P1 Hb P2 (Z.add_nonneg_nonneg _ _ P3 (proj1 Ht)) ltac:(done) P4 ltac:(reflexivity)) as [F1 F2].
  rewrite checksum_oc by done. f_equal. apply oc_oceq. rewrite F2. replace (addr_total src dest + le bs + _) with (addr_total src dest + (lwip_htons (u16 proto) + lwip_htons len) + le bs) by lia. done.
Qed.

(** ** The functions on chains *)

Lemma wp_inet_chksum_pbuf s p xs (Q : Z → pmem → Prop) :
  packet s p xs → is_bytes (contents xs) → Q (lwip_htons (rfc_checksum (contents xs))) s → wp (inet_chksum_pbuf addr p) s Q.
Proof.
  intros Hp Hb HQ. unfold inet_chksum_pbuf. apply wp_bind, wp_gets. pose proof (packet_fuel _ _ _ Hp). apply wp_bind.
  change 0 with (oc (sh false * 0)) at 1. eapply wp_chksum_loop; [done..|]. intros o'. change (sh false) with 1.
  rewrite Z.mul_1_l, Z.add_0_l. apply wp_ret. pose proof (le_nonneg _ Hb). rewrite swap_sh by done.
  rewrite land16, lnot16 by apply oc_range. by rewrite <-checksum_oc.
Qed.

Lemma wp_ip_chksum_pseudo s p xs proto len src dest (Q : Z → pmem → Prop) :
  packet s p xs → is_bytes (contents xs) → is_u8 proto → is_u16 len → is_addr src → is_addr dest →
  Q (lwip_htons (rfc_checksum (ip_pseudo src dest proto len ++ contents xs))) s →
  wp (ip_chksum_pseudo addr p proto len src dest) s Q.
Proof.
  intros Hp Hb Hpr Hl Hs Hd HQ. destruct (ip_pseudo_oc src dest proto len Hs Hd Hpr Hl) as (_ & _ & Ha & _).
  assert (ip_chksum_pseudo addr p proto len src dest = inet_cksum_pseudo_base addr p proto len (oc (sh false * addr_total src dest))) as ->.
  { unfold ip_chksum_pseudo, ip6_chksum_pseudo, inet_chksum_pseudo, addr_total. change (sh false) with 1. rewrite Z.mul_1_l.
    destruct (ip_is_v6 dest); [by rewrite ip6_addr_sum_oc|by rewrite ip4_addr_sum_oc]. }
  unfold inet_cksum_pseudo_base. apply wp_bind, wp_gets. pose proof (packet_fuel _ _ _ Hp). apply wp_bind.
  eapply wp_chksum_loop; [done..|]. intros o'. change (sh false) with 1. rewrite Z.mul_1_l. apply wp_ret.
  pose proof (le_nonneg _ Hb). rewrite pseudo_finish_oc by (done || lia). by rewrite pseudo_checksum.
Qed.

(** The first buffer of a chain leaves less than 32767 of [n] bytes. *)
Definition near (xs : list (Z * list Z)) (n : Z) : Prop :=
  match xs with [] => True | (_, bs) :: _ => n - Z.of_nat (length bs) < 0x7fff end.

Lemma wp_ip_chksum_pseudo_partial s p xs proto len n src dest (Q : Z → pmem → Prop) :
  packet s p xs → is_bytes (contents xs) → is_u8 proto → is_u16 len → is_addr src → is_addr dest →
  0 ≤ n ≤ total xs → near xs n →
  Q (lwip_htons (rfc_checksum (ip_pseudo src dest proto len ++ take (Z.to_nat n) (contents xs)))) s →
  wp (ip_chksum_pseudo_partial addr p proto len n src dest) s Q.
Proof.
  intros Hp Hb Hpr Hl Hs Hd Hn H7 HQ. destruct (ip_pseudo_oc src dest proto len Hs Hd Hpr Hl) as (_ & _ & Ha & _).
  assert (ip_chksum_pseudo_partial addr p proto len n src dest =
    inet_cksum_pseudo_partial_base addr p proto len n (oc (sh false * addr_total src dest))) as ->.
  { unfold ip_chksum_pseudo_partial, ip6_chksum_pseudo_partial, inet_chksum_pseudo_partial, addr_total.
    change (sh false) with 1. rewrite Z.mul_1_l. destruct (ip_is_v6 dest); [by rewrite ip6_addr_sum_oc|by rewrite ip4_addr_sum_oc]. }
  unfold inet_cksum_pseudo_partial_base. apply wp_bind, wp_gets. pose proof (packet_fuel _ _ _ Hp). apply wp_bind.
  eapply wp_chksum_partial_loop; [done..|]. intros o'. change (sh false) with 1. rewrite Z.mul_1_l. apply wp_ret.
  pose proof (Forall_take _ (Z.to_nat n) _ Hb) as Hb'.
  pose proof (le_nonneg _ Hb'). rewrite pseudo_finish_oc by (done || lia). by rewrite pseudo_checksum.
Qed.

(** A checksum that is stored in its field makes the sum of the packet 65535. *)
Lemma checksum_stored pre post odd odd' :
  is_bytes (pre ++ post) → Nat.odd (length pre) = false → Z.of_nat (length (pre ++ [0; 0] ++ post)) ≤ 0x20000 →
  let c := inet_chksum odd (pre ++ [0; 0] ++ post) in inet_chksum odd' (pre ++ [c mod 256; c / 256] ++ post) = 0.
Proof.
  intros Hb Ho Hl c. apply Forall_app in Hb as [H1 H2].
  assert (is_bytes (pre ++ [0; 0] ++ post)) as H0 by (by apply Forall_app; split; [|apply Forall_cons; split; [|apply Forall_cons]]).
  pose proof (inet_chksum_oc odd _ H0 Hl) as Hc. fold c in Hc. pose proof (oc_range (le (pre ++ [0; 0] ++ post))) as Hr.
  pose proof (Z.div_mod c 256 ltac:(lia)). pose proof (Z.mod_pos_bound c 256 ltac:(lia)).
  assert (is_bytes (pre ++ [c mod 256; c / 256] ++ post)) as Hs3.
  { apply Forall_app; split; [done|]. apply Forall_cons; split; [|apply Forall_cons; split; [|done]]; unfold is_u8; lia. }
  rewrite inet_chksum_oc; [|done|by rewrite !length_app in *].
  assert (le (pre ++ [c mod 256; c / 256] ++ post) = le (pre ++ [0; 0] ++ post) + 256 ^ Z.of_nat (length pre) * c) as ->.
  { rewrite !le_app. cbn [le length]. lia. }
  pose proof (le_nonneg _ H0). assert (0 < 256 ^ Z.of_nat (length pre)) by (apply Z.pow_pos_nonneg; lia).
  enough (oc (le (pre ++ [0; 0] ++ post) + 256 ^ Z.of_nat (length pre) * c) = 65535) by lia.
  transitivity (oc 65535); [|done]. apply oc_oceq. transitivity (oc (le (pre ++ [0; 0] ++ post)) + c).
  - apply oceq_add; [lia|nia|lia|lia| |]; [symmetry; apply oc_self|]. rewrite oceq_pow, Ho. change (sh false) with 1. by rewrite Z.mul_1_l.
  - rewrite Hc. by rewrite Zplus_minus.
Qed.
End chain.

(** C24: the checksums of lwIP are those of RFC 1071.  For bytes at any address the sum
    of words of the machine is the sum of words in network byte order, and what is
    stored in a header is its complement; a packet gets the same checksum however it is
    split into buffers and wherever these are, also together with the pseudo header of
    IPv4 or IPv6 and for a part of the packet; and when the checksum is stored at an
    even offset where there were zeros, the receiver's sum of the packet is correct. *)
Theorem internet_checksum addr s p xs proto len src dest :
  packet s p xs → is_bytes (contents xs) → is_u8 proto → is_u16 len → is_addr src → is_addr dest →
  (∀ odd bs, is_bytes bs → Z.of_nat (length bs) ≤ 0x20000 → inet_chksum odd bs = lwip_htons (rfc_checksum bs)) ∧
  inet_chksum_pbuf addr p s = Some (lwip_htons (rfc_checksum (contents xs)), s) ∧
  ip_chksum_pseudo addr p proto len src dest s =
    Some (lwip_htons (rfc_checksum (ip_pseudo src dest proto len ++ contents xs)), s) ∧
  (∀ n, 0 ≤ n ≤ total xs → near xs n → ip_chksum_pseudo_partial addr p proto len n src dest s =
    Some (lwip_htons (rfc_checksum (ip_pseudo src dest proto len ++ take (Z.to_nat n) (contents xs))), s)) ∧
  (∀ pre post odd odd', is_bytes (pre ++ post) → Nat.odd (length pre) = false →
    Z.of_nat (length (pre ++ [0; 0] ++ post)) ≤ 0x20000 →
    let c := inet_chksum odd (pre ++ [0; 0] ++ post) in inet_chksum odd' (pre ++ [c mod 256; c / 256] ++ post) = 0).
Proof.
  intros Hp Hb Hpr Hl Hs Hd. split_and!.
  - intros odd bs Hbs Hn. rewrite checksum_oc by done. by apply inet_chksum_oc.
  - assert (wp (inet_chksum_pbuf addr p) s (λ r s', r = lwip_htons (rfc_checksum (contents xs)) ∧ s' = s)) as Hw
      by (by eapply wp_inet_chksum_pbuf).
    by apply wp_run in Hw as (r & s' & -> & -> & ->).
  - assert (wp (ip_chksum_pseudo addr p proto len src dest) s
      (λ r s', r = lwip_htons (rfc_checksum (ip_pseudo src dest proto len ++ contents xs)) ∧ s' = s)) as Hw
      by (by eapply wp_ip_chksum_pseudo).
    by apply wp_run in Hw as (r & s' & -> & -> & ->).
  - intros n Hn H7. assert (wp (ip_chksum_pseudo_partial addr p proto len n src dest) s
      (λ r s', r = lwip_htons (rfc_checksum (ip_pseudo src dest proto len ++ take (Z.to_nat n) (contents xs))) ∧ s' = s)) as Hw
      by (by eapply wp_ip_chksum_pseudo_partial).
    by apply wp_run in Hw as (r & s' & -> & -> & ->).
  - intros. by apply checksum_stored.
Qed.

Lemma internet_checksum_witness :
  inet_chksum_pbuf (λ q, pt_off q) 8 ex_mem = Some (lwip_htons (rfc_checksum [1; 2; 3; 4; 5]), ex_mem) ∧
  rfc_checksum [1; 2; 3; 4; 5] = 65535 - 0x0906.
Proof.
  split; [|reflexivity]. assert (is_bytes (contents ex_chain)) as Hb by (repeat constructor; done).
  pose (a := mk_ip 16777343 0 0 0 false). assert (is_addr a) as Ha by (repeat constructor; done).
  exact (proj1 (proj2 (internet_checksum (λ q, pt_off q) ex_mem 8 ex_chain 6 5 a a (proj1 ex_packet) Hb
    ltac:(by split) ltac:(by split) Ha Ha))).
Defined.
