(* ===== verification/ChksumSeg.v ===== *)
(** * Checksums of TCP segments

    lwIP sums the data of a segment while it is queued, part by part, and adds the sum
    of the header when the segment is sent.  The parts, and the order in which their
    sums are joined, give the checksum of the whole segment. *)

From S2P Require Import Prelude CString Pbuf PbufProps PbufRefs PbufShape Chksum ChksumProps.

(** The sum of [D], in the order of bytes of the place where more data goes. *)
Definition seg_holds (seg : seg_chksum) (D : list Z) : Prop :=
  is_bytes D ∧ seg = mk_seg (oc (sh (Nat.odd (length D)) * le D)) (if Nat.odd (length D) then 1 else 0).

Lemma land_1_odd n : negb (Z.land (Z.of_nat n) 1 =? 0) = Nat.odd n.
Proof.
  change 1 with (Z.ones 1). rewrite Z.land_ones by lia. change (2 ^ 1) with 2.
  destruct (Nat.Even_or_Odd n) as [[k ->]|[k ->]].
  - rewrite Nat.odd_even. replace (Z.of_nat (2 * k)) with (Z.of_nat k * 2) by lia. by rewrite Z_mod_mult.
  - rewrite Nat.odd_odd. replace (Z.of_nat (2 * k + 1)) with (1 + Z.of_nat k * 2) by lia. by rewrite Z_mod_plus_full.
Qed.

(** A sum of at most 16 bits whose address and length have the parity [o]. *)
Lemma SWAP_sh o x : 0 ≤ x → (if o : bool then SWAP_BYTES_IN_WORD (oc x) else oc x) = oc (sh o * x).
Proof.
  intros Hx. destruct o; [|change (sh false) with 1; by rewrite Z.mul_1_l]. rewrite SWAP_oc by apply oc_range.
  apply oc_oceq, oceq_mul; [done|apply oc_self].
Qed.

Lemma seg_sum_join D bs : is_bytes D → is_bytes bs →
  oc (sh (Nat.odd (length bs)) * (le bs + sh (Nat.odd (length D)) * le D)) = oc (sh (Nat.odd (length (D ++ bs))) * le (D ++ bs)).
Proof.
  intros HD Hb. pose proof (le_nonneg _ HD). pose proof (le_nonneg _ Hb). pose proof (le_nonneg (D ++ bs) ltac:(by apply Forall_app)).
  set (d := Nat.odd (length D)). set (b := Nat.odd (length bs)). pose proof (sh_pos d). pose proof (sh_pos b).
  apply oc_oceq. rewrite length_app, Nat.odd_add. fold d b. rewrite (oceq_mul _ _ _ (sh_pos _) (le_app_oceq D bs HD Hb)). fold d.
  rewrite (xorb_comm d b), sh_xorb. apply oceq_mul; [done|]. rewrite !Z.mul_add_distr_l, Z.add_comm.
  apply oceq_add; try nia; [done|]. symmetry. apply oceq_sh_sh.
Qed.

Lemma seg_add_holds seg D bs : seg_holds seg D → is_bytes bs →
  seg_holds (tcp_seg_add_chksum (oc (le bs)) (Z.of_nat (length bs)) seg) (D ++ bs).
Proof.
  intros [HD ->] Hb. split; [by apply Forall_app|]. unfold tcp_seg_add_chksum. cbn [seg_sum seg_swapped].
  pose proof (oc_range (le bs)). pose proof (le_nonneg _ HD). pose proof (le_nonneg _ Hb). pose proof (sh_pos (Nat.odd (length D))).
  pose proof (oc_range (sh (Nat.odd (length D)) * le D)). rewrite u32_small, FOLD_once by lia.
  assert (oc (oc (le bs) + oc (sh (Nat.odd (length D)) * le D)) = oc (le bs + sh (Nat.odd (length D)) * le D)) as ->.
  { apply oc_oceq, oceq_add; try nia; apply oc_self. }
  rewrite u16_small by (pose proof (oc_range (le bs + sh (Nat.odd (length D)) * le D)); lia).
  rewrite land_1_odd, <-seg_sum_join, <-SWAP_sh by (done || nia). rewrite length_app, Nat.odd_add.
  destruct (Nat.odd (length bs)), (Nat.odd (length D)); done.
Qed.

Lemma sum_again odd bs : is_bytes bs → Z.of_nat (length bs) ≤ 65535 → u16 (Z.lnot (inet_chksum odd bs)) = oc (le bs).
Proof.
  intros Hb Hl. pose proof (oc_range (le bs)). rewrite inet_chksum_oc by (done || lia). rewrite lnot16 by lia. lia.
Qed.

Lemma seg_nocopy_holds odd bs : is_bytes bs → Z.of_nat (length bs) ≤ 65535 → seg_holds (tcp_nocopy_chksum odd bs) bs.
Proof.
  intros Hb Hl. split; [done|]. unfold tcp_nocopy_chksum. rewrite sum_again, land_1_odd by done. pose proof (le_nonneg _ Hb).
  rewrite <-SWAP_sh by done. by destruct (Nat.odd (length bs)).
Qed.

Lemma seg_concat_holds concat D2 seg D : seg_holds concat D2 → seg_holds seg D →
  seg_holds (tcp_concat_chksum concat (Z.of_nat (length D2)) seg) (D ++ D2).
Proof.
  intros [H2 ->] H. unfold tcp_concat_chksum. destruct (Z.eqb_spec (Z.of_nat (length D2)) 0) as [H0|H0]; simpl.
  - destruct D2; [by rewrite app_nil_r|done].
  - replace (if negb _ then _ else _) with (oc (le D2)); [by apply seg_add_holds|].
    pose proof (le_nonneg _ H2). rewrite <-(swap_sh (Nat.odd (length D2)) (le D2)) by done. by destruct (Nat.odd (length D2)).
Qed.

(** The data of a segment and its sum, as [tcp_write] makes them: a new segment, data
    that is added to one, and data whose sum was made apart. *)
Inductive seg_run : seg_chksum → list Z → Prop :=
  | seg_new : seg_run (mk_seg 0 0) []
  | seg_nocopy odd bs : is_bytes bs → Z.of_nat (length bs) ≤ 65535 → seg_run (tcp_nocopy_chksum odd bs) bs
  | seg_add seg D odd bs : seg_run seg D → is_bytes bs → Z.of_nat (length bs) ≤ 65535 →
      seg_run (tcp_seg_add_chksum (u16 (Z.lnot (inet_chksum odd bs))) (Z.of_nat (length bs)) seg) (D ++ bs)
  | seg_concat concat D2 seg D : seg_run concat D2 → seg_run seg D →
      seg_run (tcp_concat_chksum concat (Z.of_nat (length D2)) seg) (D ++ D2).

Lemma seg_run_holds seg D : seg_run seg D → seg_holds seg D.
Proof.
  induction 1 as [|odd bs Hb Hl|seg D odd bs _ IH Hb Hl|cc D2 seg D _ IH2 _ IH].
  - by split; [constructor|].
  - by apply seg_nocopy_holds.
  - rewrite sum_again by done. by apply seg_add_holds.
  - by apply seg_concat_holds.
Qed.

Section chain.
Context (addr : ptr → Z).

(** ** Splitting *)

Lemma wp_split_skip fuel s q xs off (Q : Z * Z → pmem → Prop) :
  packet s q xs → 0 ≤ off ≤ total xs → xs ≠ [] → (length xs < fuel)%nat →
  (∀ q' pre a bs ys off', packet s q' ((a, bs) :: ys) → 0 ≤ off' ≤ Z.of_nat (length bs) →
    xs = pre ++ (a, bs) :: ys → off = total pre + off' → Q (q', off') s) →
  wp (split_skip fuel q off) s Q.
Proof.
  revert q xs off. induction fuel as [|fuel IH]; intros q xs off Hp Hoff Hne Hf HQ; [lia|]. cbn [split_skip].
  destruct xs as [|[a bs] xs]; [done|]. pose proof (packet_cons _ _ _ _ _ Hp) as (-> & Ha & _ & b & Hb & Hl & _ & _ & Hp').
  rewrite (proj2 (Z.eqb_neq _ _) Ha). apply wp_bind. eapply wp_pb_load; [done|]. rewrite Hl.
  destruct (Z.ltb_spec (Z.of_nat (length bs)) off) as [Hlt|Hge].
  - rewrite total_cons in Hoff. destruct Hp as (_ & _ & Ht). rewrite total_cons in Ht. rewrite u16_small by lia.
    eapply IH; [done|lia| |simpl in Hf; lia|]. { intros ->. change (total []) with 0 in Hoff. lia. }
    intros q' pre c ds ys off' H1 H2 -> H4. eapply (HQ q' ((a, bs) :: pre)); [done|done|done|]. rewrite total_cons. lia.
  - apply wp_ret. eapply (HQ _ [] a bs xs off); [done|lia|done|done].
Qed.

Lemma wp_split_loop fuel s q xs off seg D (Q : seg_chksum → pmem → Prop) :
  packet s q xs → is_bytes (contents xs) → seg_holds seg D → (length xs < fuel)%nat → 0 ≤ off →
  match xs with [] => off = 0 | (_, bs) :: _ => off ≤ Z.of_nat (length bs) end →
  (∀ seg', seg_holds seg' (D ++ drop (Z.to_nat off) (contents xs)) → Q seg' s) →
  wp (split_loop addr fuel q off seg) s Q.
Proof.
  revert q xs off seg D. induction fuel as [|fuel IH]; intros q xs off seg D Hp Hb Hs Hf Hoff Hlen HQ; [lia|]. cbn [split_loop].
  destruct xs as [|[a bs] xs].
  { destruct Hp as [-> _]. simpl. apply wp_ret, HQ. change (contents []) with (@nil Z). by rewrite drop_nil, app_nil_r. }
  apply bytes_cons in Hb as [Hb Hbs]. pose proof Hp as (_ & _ & Ht). rewrite total_cons in Ht. pose proof (total_nonneg xs).
  pose proof (packet_cons _ _ _ _ _ Hp) as (-> & Ha & _ & b & Hbb & Hl & _ & Hv & Hp').
  rewrite (proj2 (Z.eqb_neq _ _) Ha). apply wp_bind. eapply wp_pb_load; [done|]. rewrite Hl, u16_small by lia.
  apply wp_bind. eapply wp_mem_load; [done|lia..|].
  rewrite take_ge by (rewrite length_drop; lia). assert (is_bytes (drop (Z.to_nat off) bs)) as Hd by (by apply Forall_drop).
  rewrite sum_again by (done || (rewrite length_drop; lia)).
  replace (Z.of_nat (length bs) - off) with (Z.of_nat (length (drop (Z.to_nat off) bs))) by (rewrite length_drop; lia).
  eapply IH; [done|done|by apply seg_add_holds|simpl in Hf; lia|done|destruct xs as [|[c ds] xs]; lia|].
  intros seg' Hs'. apply HQ. rewrite drop_0 in Hs'. rewrite contents_cons, drop_app_le by lia. by rewrite app_assoc.
Qed.

Lemma wp_tcp_split_chksum s p xs n (Q : seg_chksum → pmem → Prop) :
  packet s p xs → is_bytes (contents xs) → xs ≠ [] → 0 ≤ n ≤ total xs →
  (∀ seg, seg_holds seg (drop (Z.to_nat (total xs - n)) (contents xs)) → Q seg s) → wp (tcp_split_chksum addr p n) s Q.
Proof.
  intros Hp Hb Hne Hn HQ. unfold tcp_split_chksum. pose proof (packet_fuel _ _ _ Hp) as Hf.
  destruct xs as [|[a bs] xs]; [done|]. pose proof (packet_cons _ _ _ _ _ Hp) as (-> & Ha & _ & b & Hbb & _ & Htot & _).
  apply wp_bind. eapply wp_pb_load; [done|]. apply wp_bind, wp_gets, wp_bind. rewrite Htot.
  pose proof Hp as (_ & _ & Ht). rewrite u16_small by lia.
  eapply wp_split_skip; [done|lia|done|done|]. intros q' pre c ds ys off' H1 H2 H3 H4.
  apply wp_bind, wp_assert. { apply negb_true_iff, Z.eqb_neq. by apply packet_cons in H1 as (-> & H1 & _). }
  rewrite H3 in *. rewrite contents_app in Hb. apply Forall_app in Hb as [_ Hb]. rewrite length_app in Hf. cbn [length] in Hf.
  eapply (wp_split_loop _ _ _ _ _ _ []); [done|done|split; [by apply Forall_nil|done]|cbn [length]; lia|lia|cbn; lia|].
  intros seg Hs. apply HQ. rewrite contents_app, drop_app_ge by (unfold total in *; lia).
  replace (Z.to_nat _ - length (contents pre))%nat with (Z.to_nat off') by (unfold total in *; lia). done.
Qed.

(** ** Sending *)

Lemma wp_tcp_output_chksum s p xs hdr D src dest seg (Q : Z * seg_chksum → pmem → Prop) :
  packet s p xs → is_addr src → is_addr dest → seg_holds seg D → contents xs = hdr ++ D → is_bytes hdr →
  Nat.odd (length hdr) = false → near xs (Z.of_nat (length hdr)) →
  Q (lwip_htons (rfc_checksum (ip_pseudo src dest 6 (total xs) ++ contents xs)), seg) s →
  wp (tcp_output_chksum addr p (total xs) (Z.of_nat (length hdr)) src dest seg) s Q.
Proof.
  intros Hp Hs Hd [HD ->] Hc Hh Ho Hn HQ. unfold tcp_output_chksum. pose proof Hp as (_ & _ & Ht). pose proof (total_nonneg xs).
  assert (is_bytes (contents xs)) as Hb by (rewrite Hc; by apply Forall_app). assert (is_u16 (total xs)) as Hl by done.
  assert (total xs = Z.of_nat (length hdr + length D)) as Htl by (unfold total; by rewrite Hc, length_app).
  apply wp_bind. eapply wp_ip_chksum_pseudo_partial; [done..|lia|done|].
  rewrite Hc, Nat2Z.id, take_app_length. rewrite <-pseudo_checksum by done. apply wp_ret.
  destruct (ip_pseudo_oc src dest 6 (total xs) Hs Hd ltac:(done) Hl) as (_ & _ & Ha & _).
  destruct (pseudo_tail_oc 6 (total xs) ltac:(done) Hl) as (Htt & _). pose proof (le_nonneg _ Hh). pose proof (le_nonneg _ HD).
  set (x := addr_total src dest + le hdr + _) in *. pose proof (oc_range x). pose proof (oc_range (le D)).
  replace (u16 (Z.lnot (65535 - oc x))) with (oc x) by (rewrite lnot16 by lia; lia).
  assert (0 ≤ x) by (unfold x; lia).
  assert (65535 - oc (x + le D) = lwip_htons (rfc_checksum (ip_pseudo src dest 6 (total xs) ++ contents xs))) as Hres.
  { rewrite Hc, <-pseudo_checksum by (done || by apply Forall_app). f_equal. apply oc_oceq.
    replace (x + le D) with (addr_total src dest + (le hdr + le D) + (lwip_htons (u16 6) + lwip_htons (total xs))) by (unfold x; lia).
    pose proof (le_nonneg (hdr ++ D) ltac:(by apply Forall_app)).
    apply oceq_add; [lia..| |done]. apply oceq_add; [lia..|done|]. rewrite le_app_oceq by done. rewrite Ho.
    change (sh false) with 1. by rewrite Z.mul_1_l. }
  assert (u16 (Z.lnot (FOLD_U32T (u32 (oc x + oc (le D))))) = 65535 - oc (x + le D)) as Hfold.
  { rewrite u32_small, FOLD_once by lia. rewrite lnot16 by apply oc_range. f_equal. apply oc_oceq, oceq_add; [lia..| |]; apply oc_self. }
  pose proof (swap_sh (Nat.odd (length D)) (le D) ltac:(lia)) as Hsw. cbn [seg_sum seg_swapped].
  destruct (Nat.odd (length D)) eqn:Hod; cbn [negb Z.eqb seg_sum].
  - rewrite Hsw, Hfold, Hres. replace (SWAP_BYTES_IN_WORD (oc (le D))) with (oc (sh true * le D)); [done|].
    symmetry. exact (SWAP_sh true (le D) ltac:(lia)).
  - rewrite Hsw, Hfold, Hres. by rewrite Hsw in HQ.
Qed.

(** ** Filling a buffer *)

Lemma inserts_read {A} i (ds bs : list A) : (i + length ds ≤ length bs)%nat →
  take (length ds) (drop i (list_inserts i ds bs)) = ds.
Proof.
  intros Hl. rewrite <-(take_drop i bs), <-(take_drop (length ds) (drop i bs)).
  assert (length (take i bs) = i) as Hi by (rewrite length_take; lia). generalize dependent (take i bs). intros pre <-.
  rewrite <-(Nat.add_0_r (length pre)) at 2. rewrite list_inserts_app_r, list_inserts_0_r by (rewrite length_take, length_drop; lia).
  by rewrite drop_app_length, take_app_length.
Qed.

Lemma wp_pbuf_fill_chksum s p a bs xs b off data chk (Q : Z * Z → pmem → Prop) :
  packet s p ((a, bs) :: xs) → pm_buf s !! p = Some b → is_bytes bs → is_bytes data → data ≠ [] →
  0 ≤ off → off + Z.of_nat (length data) ≤ Z.of_nat (length bs) → chk = oc (le (take (Z.to_nat off) bs)) →
  Q (ERR_OK, oc (le (take (Z.to_nat off) bs ++ data))) (pm_write (p_payload b) off data s) →
  wp (pbuf_fill_chksum addr p off data chk) s Q.
Proof.
  intros Hp Hb Hbs Hd Hne Hoff Hfit Hc HQ. unfold pbuf_fill_chksum. pose proof Hp as (_ & _ & Ht). rewrite total_cons in Ht.
  pose proof (total_nonneg xs). apply packet_cons in Hp as (-> & Ha & _ & b' & Hb' & Hl & _ & Hv & _). simplify_eq.
  assert (0 < Z.of_nat (length data)) by (destruct data; simpl; [done|lia]).
  apply wp_bind, wp_assert; [by apply negb_true_iff, Z.eqb_neq|]. apply wp_bind, wp_assert; [apply negb_true_iff, Z.eqb_neq; lia|].
  apply wp_bind. eapply wp_pb_load; [done|]. rewrite Hl.
  destruct (Z.leb_spec (Z.of_nat (length bs)) off), (Z.ltb_spec (Z.of_nat (length bs)) (off + Z.of_nat (length data))); try lia.
  simpl. unfold lwip_chksum_copy. apply wp_bind, wp_bind. eapply wp_mem_store; [done|lia|lia|].
  pose proof (view_write _ _ _ off data Hv ltac:(lia) ltac:(lia)) as Hv'. unfold lwip_chksum. apply wp_bind.
  eapply wp_mem_load; [done|lia|lia|rewrite length_inserts; lia|]. apply wp_ret, wp_ret.
  assert (take (Z.to_nat (Z.of_nat (length data))) (drop (Z.to_nat off) (list_inserts (Z.to_nat off) data bs)) = data) as ->.
  { rewrite Nat2Z.id. apply inserts_read. lia. }
  rewrite standard_chksum_oc by (done || lia). pose proof (Forall_take _ (Z.to_nat off) _ Hbs) as Hbt.
  pose proof (le_nonneg _ Hd). pose proof (le_nonneg _ Hbt).
  replace (negb (Z.land off 1 =? 0)) with (Nat.odd (Z.to_nat off)) by (rewrite <-land_1_odd, Z2Nat.id by lia; done).
  rewrite SWAP_sh by done. set (o := Nat.odd (Z.to_nat off)). pose proof (sh_pos o). pose proof (oc_range (le (take (Z.to_nat off) bs))).
  pose proof (oc_range (sh o * le data)). rewrite u32_small, FOLD_once, u16_small
    by (pose proof (oc_range (oc (le (take (Z.to_nat off) bs)) + oc (sh o * le data))); lia).
  replace (oc (_ + _)) with (oc (le (take (Z.to_nat off) bs ++ data))); [done|]. apply oc_oceq. rewrite le_app_oceq by done.
  replace (length (take (Z.to_nat off) bs)) with (Z.to_nat off) by (rewrite length_take; lia). fold o. symmetry.
  apply oceq_add; try nia; apply oc_self.
Qed.
End chain.

(** C25: a TCP segment has the right checksum however its data came into it.  Whatever
    the parts in which the data was written, at even or odd addresses and of even or odd
    lengths, whatever was summed apart and joined, and however often the segment is sent:
    with a header of even length in front, which is in the first buffer or ends less than
    32767 bytes behind it, the checksum of the header is that of RFC 1071 over the pseudo
    header and the whole segment, and the sum of the data is kept; after a split the sum
    is made again from the buffers and is that of the data that is left. *)
Theorem tcp_segment_checksum addr s p xs hdr D src dest seg :
  seg_run seg D → packet s p xs → is_addr src → is_addr dest → contents xs = hdr ++ D → is_bytes hdr → hdr ≠ [] →
  Nat.odd (length hdr) = false → near xs (Z.of_nat (length hdr)) →
  tcp_output_chksum addr p (total xs) (Z.of_nat (length hdr)) src dest seg s =
    Some ((lwip_htons (rfc_checksum (ip_pseudo src dest 6 (total xs) ++ hdr ++ D)), seg), s) ∧
  ∃ seg', tcp_split_chksum addr p (Z.of_nat (length D)) s = Some (seg', s) ∧
    tcp_output_chksum addr p (total xs) (Z.of_nat (length hdr)) src dest seg' s =
      Some ((lwip_htons (rfc_checksum (ip_pseudo src dest 6 (total xs) ++ hdr ++ D)), seg'), s).
Proof.
  intros Hrun Hp Hs Hd Hc Hh Hne Ho Hn. apply seg_run_holds in Hrun.
  assert (∀ seg, seg_holds seg D → tcp_output_chksum addr p (total xs) (Z.of_nat (length hdr)) src dest seg s =
    Some ((lwip_htons (rfc_checksum (ip_pseudo src dest 6 (total xs) ++ hdr ++ D)), seg), s)) as Hout.
  { intros seg0 H0. assert (wp (tcp_output_chksum addr p (total xs) (Z.of_nat (length hdr)) src dest seg0) s
      (λ r s', r = (lwip_htons (rfc_checksum (ip_pseudo src dest 6 (total xs) ++ contents xs)), seg0) ∧ s' = s)) as Hw
      by (by eapply wp_tcp_output_chksum).
    rewrite Hc in Hw. by apply wp_run in Hw as (r & s' & -> & -> & ->). }
  split; [by apply Hout|].
  assert (is_bytes (contents xs)) as Hb by (rewrite Hc; apply Forall_app; split; [done|apply Hrun]).
  assert (total xs = Z.of_nat (length hdr + length D)) as Htl by (unfold total; by rewrite Hc, length_app).
  assert (xs ≠ []) as Hx by (intros ->; destruct hdr; done).
  assert (wp (tcp_split_chksum addr p (Z.of_nat (length D))) s (λ seg' s', seg_holds seg' D ∧ s' = s)) as Hw.
  { eapply wp_tcp_split_chksum; [done..|lia|]. intros seg' H'. split; [|done].
    replace (Z.to_nat (total xs - Z.of_nat (length D))) with (length hdr) in H' by lia.
    by rewrite Hc, drop_app_length in H'. }
  apply wp_run in Hw as (seg' & s' & E & H' & ->). exists seg'. split; [exact E|by apply Hout].
Qed.

Definition ex_addr4 (w : Z) : ip_addr := mk_ip w 0 0 0 false.

(** A header of two bytes and three bytes of data in two parts. *)
Definition ex_seg : seg_chksum :=
  tcp_concat_chksum (tcp_nocopy_chksum true [4; 5]) 2 (tcp_nocopy_chksum false [3]).

Lemma tcp_segment_checksum_witness :
  tcp_output_chksum (λ q, pt_off q) 8 5 2 (ex_addr4 1) (ex_addr4 2) ex_seg ex_mem =
    Some ((lwip_htons (rfc_checksum (ip_pseudo (ex_addr4 1) (ex_addr4 2) 6 5 ++ [1; 2; 3; 4; 5])), ex_seg), ex_mem).
Proof.
  assert (seg_run ex_seg ([3] ++ [4; 5])) as Hrun.
  { refine (seg_concat (tcp_nocopy_chksum true [4; 5]) [4; 5] _ [3] _ _); apply seg_nocopy; try (simpl; lia); repeat constructor; done. }
  refine (proj1 (tcp_segment_checksum (λ q, pt_off q) ex_mem 8 ex_chain [1; 2] [3; 4; 5] (ex_addr4 1) (ex_addr4 2) ex_seg
    Hrun (proj1 ex_packet) _ _ _ _ _ _ _)); try done; repeat constructor; done.
Defined.
