(* ===== verification/TcpIn.v ===== *)
(** * Receiving TCP segments

    The data half of [tcp_receive] of third-part/lwip/src/core/tcp_in.c with the queue
    of segments that came too early, the receive window of core/tcp.c, and how
    [tcp_input] hands data to the application, in the configuration of
    ports/include/lwipopts.h (no window scaling, no selective acknowledgements, no
    limits on the queue).

    A segment keeps its header fields, the bytes of its packet buffer and the options of
    its header: trimming the buffer ([pbuf_realloc], [pbuf_remove_header]) is trimming the list.  Segments
    are in host byte order, as after [tcp_input].  A failed assertion ends the process:
    it is [None]. *)

From S2P Require Import Prelude CString.

(** ** Sequence numbers and flags *)

Definition TCP_SEQ_LT (a b : Z) : bool := Z.testbit (u32 (u32 a - u32 b)) 31.
Definition TCP_SEQ_LEQ (a b : Z) : bool := negb (TCP_SEQ_LT b a).
Definition TCP_SEQ_GT (a b : Z) : bool := TCP_SEQ_LT b a.
Definition TCP_SEQ_GEQ (a b : Z) : bool := TCP_SEQ_LEQ b a.
Definition TCP_SEQ_BETWEEN (a b c : Z) : bool := TCP_SEQ_GEQ a b && TCP_SEQ_LEQ a c.

Definition TCP_FIN : Z := 0x01.
Definition TCP_SYN : Z := 0x02.
Definition TCP_RST : Z := 0x04.
Definition TCP_ACK : Z := 0x10.

Definition has_flag (flags f : Z) : bool := negb (Z.land flags f =? 0).

Definition TF_ACK_DELAY : Z := 0x01.
Definition TF_ACK_NOW : Z := 0x02.

(** [enum tcp_state]. *)
Definition SYN_RCVD : Z := 3.
Definition ESTABLISHED : Z := 4.
Definition FIN_WAIT_1 : Z := 5.
Definition FIN_WAIT_2 : Z := 6.
Definition CLOSE_WAIT : Z := 7.
Definition CLOSING : Z := 8.
Definition LAST_ACK : Z := 9.
Definition TIME_WAIT : Z := 10.

(** [TCP_WND_MAX] without scaling. *)
Definition WND_MAX : Z := 8 * 8191.

(** ** Data *)

Record tseg := mk_tseg { sg_seqno : Z; sg_len : Z; sg_flags : Z; sg_data : list Z; sg_opts : list Z }.

Definition sg_set_flags (f : Z) (g : tseg) : tseg :=
  mk_tseg (sg_seqno g) (sg_len g) f (sg_data g) (sg_opts g).

(** [seg->len = len; pbuf_realloc(seg->p, seg->len)]. *)
Definition seg_trim (len : Z) (g : tseg) : tseg :=
  mk_tseg (sg_seqno g) (u16 len) (sg_flags g) (take (Z.to_nat (u16 len)) (sg_data g)) (sg_opts g).

Definition TCP_TCPLEN (g : tseg) : Z := sg_len g + (if has_flag (sg_flags g) (Z.lor TCP_FIN TCP_SYN) then 1 else 0).

(** The part of [struct tcp_pcb] that receiving uses. *)
Record trcv := mk_rcv {
  rc_state : Z;
  rc_flags : Z;
  rc_mss : Z;
  rcv_nxt : Z;
  rcv_wnd : Z;
  rcv_ann_wnd : Z;
  rcv_ann_right_edge : Z;
  ooseq : list tseg;
}.

Definition rc_set_state (x : Z) (p : trcv) : trcv :=
  mk_rcv x (rc_flags p) (rc_mss p) (rcv_nxt p) (rcv_wnd p) (rcv_ann_wnd p) (rcv_ann_right_edge p) (ooseq p).
Definition rc_set_flags (x : Z) (p : trcv) : trcv :=
  mk_rcv (rc_state p) x (rc_mss p) (rcv_nxt p) (rcv_wnd p) (rcv_ann_wnd p) (rcv_ann_right_edge p) (ooseq p).
Definition rc_set_mss (x : Z) (p : trcv) : trcv :=
  mk_rcv (rc_state p) (rc_flags p) x (rcv_nxt p) (rcv_wnd p) (rcv_ann_wnd p) (rcv_ann_right_edge p) (ooseq p).
Definition rc_set_nxt (x : Z) (p : trcv) : trcv :=
  mk_rcv (rc_state p) (rc_flags p) (rc_mss p) x (rcv_wnd p) (rcv_ann_wnd p) (rcv_ann_right_edge p) (ooseq p).
Definition rc_set_wnd (x : Z) (p : trcv) : trcv :=
  mk_rcv (rc_state p) (rc_flags p) (rc_mss p) (rcv_nxt p) x (rcv_ann_wnd p) (rcv_ann_right_edge p) (ooseq p).
Definition rc_set_ann_wnd (x : Z) (p : trcv) : trcv :=
  mk_rcv (rc_state p) (rc_flags p) (rc_mss p) (rcv_nxt p) (rcv_wnd p) x (rcv_ann_right_edge p) (ooseq p).
Definition rc_set_right_edge (x : Z) (p : trcv) : trcv :=
  mk_rcv (rc_state p) (rc_flags p) (rc_mss p) (rcv_nxt p) (rcv_wnd p) (rcv_ann_wnd p) x (ooseq p).
Definition rc_set_ooseq (x : list tseg) (p : trcv) : trcv :=
  mk_rcv (rc_state p) (rc_flags p) (rc_mss p) (rcv_nxt p) (rcv_wnd p) (rcv_ann_wnd p) (rcv_ann_right_edge p) x.

(** [recv_data] and [TF_GOT_FIN] of [recv_flags]. *)
Record tres := mk_res { recv_data : list Z; got_fin : bool }.

Definition assert_that {A} (b : bool) (x : option A) : option A := if b then x else None.

(** ** Acknowledgements and the window *)

Definition tcp_ack_now (p : trcv) : trcv := rc_set_flags (Z.lor (rc_flags p) TF_ACK_NOW) p.

Definition tcp_ack (p : trcv) : trcv :=
  if has_flag (rc_flags p) TF_ACK_DELAY then
    tcp_ack_now (rc_set_flags (Z.land (rc_flags p) (Z.lnot TF_ACK_DELAY)) p)
  else rc_set_flags (Z.lor (rc_flags p) TF_ACK_DELAY) p.

(** What becomes of an acknowledgement: there is no memory for it, it cannot be sent,
    or it is sent.  With memory it announces the window ([tcp_output_alloc_header]). *)
Inductive ack_result := AckNoMem | AckFailed | AckSent.

Definition tcp_send_empty_ack (res : ack_result) (p : trcv) : trcv :=
  match res with
  | AckNoMem => rc_set_flags (Z.lor (rc_flags p) (Z.lor TF_ACK_DELAY TF_ACK_NOW)) p
  | AckFailed =>
      rc_set_right_edge (u32 (rcv_nxt p + rcv_ann_wnd p))
        (rc_set_flags (Z.lor (rc_flags p) (Z.lor TF_ACK_DELAY TF_ACK_NOW)) p)
  | AckSent =>
      rc_set_right_edge (u32 (rcv_nxt p + rcv_ann_wnd p))
        (rc_set_flags (Z.land (rc_flags p) (Z.lnot (Z.lor TF_ACK_DELAY TF_ACK_NOW))) p)
  end.

(** The result is the number of bytes by which the window grows. *)
Definition tcp_update_rcv_ann_wnd (p : trcv) : option (Z * trcv) :=
  let new_right_edge := u32 (rcv_nxt p + rcv_wnd p) in
  if TCP_SEQ_GEQ new_right_edge (rcv_ann_right_edge p + Z.min (WND_MAX / 2) (rc_mss p)) then
    Some (u32 (new_right_edge - rcv_ann_right_edge p), rc_set_ann_wnd (rcv_wnd p) p)
  else if TCP_SEQ_GT (rcv_nxt p) (rcv_ann_right_edge p) then Some (0, rc_set_ann_wnd 0 p)
  else
    let new_rcv_ann_wnd := u32 (rcv_ann_right_edge p - rcv_nxt p) in
    assert_that (new_rcv_ann_wnd <=? 0xffff) (Some (0, rc_set_ann_wnd new_rcv_ann_wnd p)).

(** [tcp_recved]; [true] when it makes an acknowledgement go out. *)
Definition tcp_recved (len : Z) (p : trcv) : option (bool * trcv) :=
  let wnd := u16 (rcv_wnd p + len) in
  let p := if (WND_MAX <? wnd) || (wnd <? rcv_wnd p) then rc_set_wnd WND_MAX p else rc_set_wnd wnd p in
  match tcp_update_rcv_ann_wnd p with
  | Some (wnd_inflation, p) =>
      if Z.min (WND_MAX / 4) (8191 * 4) <=? wnd_inflation then Some (true, tcp_ack_now p) else Some (false, p)
  | None => None
  end.

(** ** The queue of segments out of sequence *)

(** The loop of [tcp_oos_insert_segment]: segments that [cseg] covers are dropped. *)
Fixpoint oos_covered (seqno : Z) (cseg : tseg) (next : list tseg) : tseg * list tseg :=
  match next with
  | g :: rest =>
      if TCP_SEQ_GEQ (seqno + sg_len cseg) (sg_seqno g + sg_len g) then
        let cseg := if has_flag (sg_flags g) TCP_FIN then sg_set_flags (Z.lor (sg_flags cseg) TCP_FIN) cseg else cseg in
        oos_covered seqno cseg rest
      else (cseg, next)
  | [] => (cseg, [])
  end.

(** The list that starts with [cseg]. *)
Definition tcp_oos_insert_segment (seqno : Z) (cseg : tseg) (next : list tseg) : list tseg :=
  if has_flag (sg_flags cseg) TCP_FIN then [cseg]
  else
    let '(cseg, next) := oos_covered seqno cseg next in
    let cseg := match next with
      | g :: _ => if TCP_SEQ_GT (seqno + sg_len cseg) (sg_seqno g) then seg_trim (sg_seqno g - seqno) cseg else cseg
      | [] => cseg
      end in
    cseg :: next.

Definition opt_cons {A} (x : option A) (l : list A) : list A := match x with Some a => a :: l | None => l end.

(** The end of the queue: [next] is the last segment, [inseg] goes behind it. *)
Definition oos_append (mem : bool) (seqno tcplen right : Z) (inseg next : tseg) : option (list tseg) :=
  if has_flag (sg_flags next) TCP_FIN then Some [next]
  else if mem then
    let next :=
      if TCP_SEQ_GT (sg_seqno next + sg_len next) seqno then seg_trim (seqno - sg_seqno next) next else next in
    if TCP_SEQ_GT (tcplen + seqno) right then
      let new := if has_flag (sg_flags inseg) TCP_FIN
        then sg_set_flags (Z.land (sg_flags inseg) (Z.lnot TCP_FIN)) inseg else inseg in
      let new := seg_trim (right - seqno) new in
      assert_that (u32 (seqno + u16 (TCP_TCPLEN new)) =? u32 right) (Some [next; new])
    else Some [next; inseg]
  else Some [next].

(** The loop over the queue; the result starts with [prev].  [mem] tells whether
    there is memory for a segment, [right] is the right edge of the window. *)
Fixpoint oos_loop (mem : bool) (seqno tcplen right : Z) (inseg : tseg) (prev : option tseg) (l : list tseg) :
    option (list tseg) :=
  match l with
  | [] => Some (opt_cons prev [])
  | next :: rest =>
      if seqno =? sg_seqno next then
        match rest with
        | [] => Some (opt_cons prev l)
        | _ =>
            if (sg_len next <? sg_len inseg) && mem then Some (opt_cons prev (tcp_oos_insert_segment seqno inseg l))
            else Some (opt_cons prev l)
        end
      else if match prev with
        | None => TCP_SEQ_LT seqno (sg_seqno next)
        | Some pv => TCP_SEQ_BETWEEN seqno (sg_seqno pv + 1) (sg_seqno next - 1)
        end then
        if mem then
          let prev := match prev with
            | Some pv => Some (if TCP_SEQ_GT (sg_seqno pv + sg_len pv) seqno then seg_trim (seqno - sg_seqno pv) pv else pv)
            | None => None
            end in
          Some (opt_cons prev (tcp_oos_insert_segment seqno inseg l))
        else Some (opt_cons prev l)
      else
        match rest with
        | [] =>
            if TCP_SEQ_GT seqno (sg_seqno next) then
              match oos_append mem seqno tcplen right inseg next with
              | Some l' => Some (opt_cons prev l')
              | None => None
              end
            else Some (opt_cons prev l)
        | _ =>
            match oos_loop mem seqno tcplen right inseg (Some next) rest with
            | Some l' => Some (opt_cons prev l')
            | None => None
            end
        end
  end.

(** ** The next segment in sequence *)

(** A segment that is larger than the window is cut. *)
Definition inseg_window (wnd right : Z) (inseg : tseg) : option tseg :=
  if wnd <? u16 (TCP_TCPLEN inseg) then
    let inseg := if has_flag (sg_flags inseg) TCP_FIN
      then sg_set_flags (Z.land (sg_flags inseg) (Z.lnot TCP_FIN)) inseg else inseg in
    let len := if has_flag (sg_flags inseg) TCP_SYN then u16 (wnd - 1) else wnd in
    let inseg := seg_trim len inseg in
    assert_that (u32 (sg_seqno inseg + u16 (TCP_TCPLEN inseg)) =? u32 right) (Some inseg)
  else Some inseg.

(** Segments of the queue that are covered are dropped; their FIN goes to [inseg]. *)
Fixpoint inseg_covered (tcplen : Z) (inseg : tseg) (next : list tseg) : Z * tseg * list tseg :=
  match next with
  | g :: rest =>
      if TCP_SEQ_GEQ (sg_seqno inseg + tcplen) (sg_seqno g + sg_len g) then
        if has_flag (sg_flags g) TCP_FIN && negb (has_flag (sg_flags inseg) TCP_SYN) then
          let inseg := sg_set_flags (Z.lor (sg_flags inseg) TCP_FIN) inseg in
          inseg_covered (u16 (TCP_TCPLEN inseg)) inseg rest
        else inseg_covered tcplen inseg rest
      else (tcplen, inseg, next)
  | [] => (tcplen, inseg, [])
  end.

Definition inseg_ooseq (tcplen : Z) (inseg : tseg) (queue : list tseg) : option (Z * tseg * list tseg) :=
  match queue with
  | [] => Some (tcplen, inseg, [])
  | _ =>
      if has_flag (sg_flags inseg) TCP_FIN then Some (tcplen, inseg, [])
      else
        let '(tcplen, inseg, next) := inseg_covered tcplen inseg queue in
        match next with
        | g :: _ =>
            if TCP_SEQ_GT (sg_seqno inseg + tcplen) (sg_seqno g) then
              let len := u16 (sg_seqno g - sg_seqno inseg) in
              let len := if has_flag (sg_flags inseg) TCP_SYN then u16 (len - 1) else len in
              let inseg := seg_trim len inseg in
              let tcplen := u16 (TCP_TCPLEN inseg) in
              assert_that (u32 (sg_seqno inseg + tcplen) =? sg_seqno g) (Some (tcplen, inseg, next))
            else Some (tcplen, inseg, next)
        | [] => Some (tcplen, inseg, [])
        end
  end.

(** [rcv_nxt] and the window move on by [tcplen]. *)
Definition rcv_advance (nxt tcplen : Z) (p : trcv) : option trcv :=
  let p := rc_set_nxt nxt p in
  assert_that (tcplen <=? rcv_wnd p)
    match tcp_update_rcv_ann_wnd (rc_set_wnd (u16 (rcv_wnd p - tcplen)) p) with
    | Some (_, p) => Some p
    | None => None
    end.

(** Segments of the queue that are in sequence now. *)
Fixpoint ooseq_dequeue (l : list tseg) (p : trcv) (r : tres) : option (trcv * tres) :=
  match l with
  | cseg :: rest =>
      if sg_seqno cseg =? rcv_nxt p then
        match rcv_advance (u32 (rcv_nxt p + TCP_TCPLEN cseg)) (TCP_TCPLEN cseg) p with
        | Some p =>
            let data := recv_data r ++ sg_data cseg in
            if has_flag (sg_flags cseg) TCP_FIN then
              let p := if rc_state p =? ESTABLISHED then rc_set_state CLOSE_WAIT p else p in
              ooseq_dequeue rest p (mk_res data true)
            else ooseq_dequeue rest p (mk_res data (got_fin r))
        | None => None
        end
      else Some (rc_set_ooseq l p, r)
  | [] => Some (rc_set_ooseq [] p, r)
  end.

(** The segment [inseg] starts at [rcv_nxt]. *)
Definition receive_next (inseg : tseg) (p : trcv) : option (trcv * tres) :=
  match inseg_window (rcv_wnd p) (rcv_nxt p + rcv_wnd p) inseg with
  | None => None
  | Some inseg =>
      match inseg_ooseq (u16 (TCP_TCPLEN inseg)) inseg (ooseq p) with
      | None => None
      | Some (tcplen, inseg, queue) =>
          match rcv_advance (u32 (sg_seqno inseg + tcplen)) tcplen p with
          | None => None
          | Some p =>
              match ooseq_dequeue queue p (mk_res (sg_data inseg) (has_flag (sg_flags inseg) TCP_FIN)) with
              | None => None
              | Some (p, r) => Some (tcp_ack p, r)
              end
          end
      end
  end.

(** A segment that starts before [rcv_nxt] and ends behind it loses its front. *)
Definition trim_front (tcplen : Z) (inseg : tseg) (p : trcv) : option (tseg * trcv) :=
  let seqno := sg_seqno inseg in
  if TCP_SEQ_BETWEEN (rcv_nxt p) (seqno + 1) (seqno + tcplen - 1) then
    let off32 := u32 (rcv_nxt p - seqno) in
    assert_that ((off32 <? 0xffff) && (u16 off32 <=? Z.of_nat (length (sg_data inseg))))
      (Some (mk_tseg (rcv_nxt p) (u16 (sg_len inseg - u16 off32)) (sg_flags inseg)
               (drop (Z.to_nat (u16 off32)) (sg_data inseg)) (sg_opts inseg), p))
  else Some (inseg, if TCP_SEQ_LT seqno (rcv_nxt p) then tcp_ack_now p else p).

Definition no_data : tres := mk_res [] false.

(** The data half of [tcp_receive]; [ack] tells what becomes of an acknowledgement. *)
Definition tcp_receive_data (mem : bool) (ack : ack_result) (tcplen : Z) (inseg : tseg) (p : trcv) : option (trcv * tres) :=
  if (0 <? tcplen) && (rc_state p <? CLOSE_WAIT) then
    match trim_front tcplen inseg p with
    | None => None
    | Some (inseg, p) =>
        let seqno := sg_seqno inseg in
        let right := rcv_nxt p + rcv_wnd p in
        if TCP_SEQ_BETWEEN seqno (rcv_nxt p) (right - 1) then
          if rcv_nxt p =? seqno then receive_next inseg p
          else
            match ooseq p with
            | [] => Some (tcp_send_empty_ack ack (rc_set_ooseq (if mem then [inseg] else []) p), no_data)
            | _ =>
                match oos_loop mem seqno tcplen right inseg None (ooseq p) with
                | None => None
                | Some l => Some (tcp_send_empty_ack ack (rc_set_ooseq l p), no_data)
                end
            end
        else Some (tcp_send_empty_ack ack p, no_data)
    end
  else if negb (TCP_SEQ_BETWEEN (sg_seqno inseg) (rcv_nxt p) (rcv_nxt p + rcv_wnd p - 1)) then
    Some (tcp_ack_now p, no_data)
  else Some (p, no_data).

(** ** The states of a connection *)

(** The loop of [tcp_parseopt] with at most [n] options, for the maximal segment size of
    the peer: EOL, NOP, MSS, and options that are skipped by their length.  The byte that
    may be read behind the options does not matter. *)
Fixpoint parseopt_loop (n : nat) (opts : list Z) (mss : Z) : Z :=
  match n, opts with
  | S n, opt :: rest =>
      if opt =? 0 then mss
      else if opt =? 1 then parseopt_loop n rest mss
      else if opt =? 2 then
        match rest with
        | len :: hi :: lo :: rest =>
            if len =? 4 then
              let new := u16 (Z.lor (u16 (Z.shiftl hi 8)) lo) in
              parseopt_loop n rest (if (8191 <? new) || (new =? 0) then 8191 else new)
            else mss
        | _ => mss
        end
      else
        match rest with
        | data :: rest => if data <? 2 then mss else parseopt_loop n (drop (Z.to_nat (data - 2)) rest) mss
        | [] => mss
        end
  | _, _ => mss
  end.

Definition tcp_parseopt (opts : list Z) (p : trcv) : trcv := rc_set_mss (parseopt_loop (length opts) opts (rc_mss p)) p.

(** What [tcp_process] leaves besides the connection: the peer has reset it
    ([TF_RESET]), the connection is over ([TF_CLOSED]), or it goes on. *)
Inductive tproc := PrReset | PrClosed | PrGoes.

(** [tcp_pcb_purge] drops the queue, and the data that was refused ([tcp_input] below). *)
Definition to_time_wait (p : trcv) : trcv := rc_set_state TIME_WAIT (rc_set_ooseq [] p).

(** The switch over the state in [tcp_process], from ESTABLISHED on; [all_acked] tells
    that the segment has an acknowledgement of everything that was sent, and that
    nothing is left to be sent. *)
Definition tcp_process_state (mem : bool) (ack : ack_result) (all_acked : bool) (tcplen : Z) (inseg : tseg) (p : trcv) :
    option (tproc * trcv * tres) :=
  match tcp_receive_data mem ack tcplen inseg p with
  | None => None
  | Some (p1, r) =>
      let st := rc_state p in
      if (st =? ESTABLISHED) || (st =? CLOSE_WAIT) then
        Some (PrGoes, if got_fin r then rc_set_state CLOSE_WAIT (tcp_ack_now p1) else p1, r)
      else if st =? FIN_WAIT_1 then
        if got_fin r then
          if all_acked then Some (PrGoes, to_time_wait (tcp_ack_now p1), r)
          else Some (PrGoes, rc_set_state CLOSING (tcp_ack_now p1), r)
        else Some (PrGoes, if all_acked then rc_set_state FIN_WAIT_2 p1 else p1, r)
      else if st =? FIN_WAIT_2 then
        Some (PrGoes, if got_fin r then to_time_wait (tcp_ack_now p1) else p1, r)
      else if st =? CLOSING then Some (PrGoes, if all_acked then to_time_wait p1 else p1, r)
      else if st =? LAST_ACK then Some (if all_acked then PrClosed else PrGoes, p1, r)
      else Some (PrGoes, p, no_data)
  end.

Definition tcp_process (mem : bool) (ack : ack_result) (all_acked : bool) (tcplen : Z) (inseg : tseg) (p : trcv) :
    option (tproc * trcv * tres) :=
  if has_flag (sg_flags inseg) TCP_RST then
    if sg_seqno inseg =? rcv_nxt p then
      Some (PrReset, rc_set_flags (Z.land (rc_flags p) (Z.lnot TF_ACK_DELAY)) p, no_data)
    else if TCP_SEQ_BETWEEN (sg_seqno inseg) (rcv_nxt p) (rcv_nxt p + rcv_wnd p) then
      Some (PrGoes, tcp_ack_now p, no_data)
    else Some (PrGoes, p, no_data)
  else if has_flag (sg_flags inseg) TCP_SYN then Some (PrGoes, tcp_ack_now p, no_data)
  else tcp_process_state mem ack all_acked tcplen inseg (tcp_parseopt (sg_opts inseg) p).

(** [tcp_close_shutdown_fin]: the sending side is closed; [fin_ok] tells whether a
    FIN could be queued. *)
Definition tcp_close_shutdown_fin (fin_ok : bool) (p : trcv) : trcv :=
  if fin_ok then
    if (rc_state p =? SYN_RCVD) || (rc_state p =? ESTABLISHED) then rc_set_state FIN_WAIT_1 p
    else if rc_state p =? CLOSE_WAIT then rc_set_state LAST_ACK p
    else p
  else p.

(** ** Handing data to the application *)

(** A connection with the data that the application did not want yet, and whether a
    FIN came behind it. *)
Record tin := mk_tin { ti_rcv : trcv; ti_refused : option (list Z * bool) }.

(** The calls of the application, with its answer for data. *)
Inductive tcallback := TcRecv (data : list Z) (ok : bool) | TcClosed | TcReset | TcEnded.

#[global] Instance tcallback_eq_dec : EqDecision tcallback.
Proof. solve_decision. Defined.

(** The window is corrected for the FIN, which the application does not count. *)
Definition fin_window (p : trcv) : trcv := if rcv_wnd p =? WND_MAX then p else rc_set_wnd (u16 (rcv_wnd p + 1)) p.

(** [tcp_process_refused_data]; [ok] is the answer of the application. *)
Definition tcp_process_refused_data (ok : bool) (t : tin) : tin * list tcallback :=
  match ti_refused t with
  | None => (t, [])
  | Some (data, f) =>
      if ok then
        if f then (mk_tin (fin_window (ti_rcv t)) None, [TcRecv data true; TcClosed])
        else (mk_tin (ti_rcv t) None, [TcRecv data true])
      else (t, [TcRecv data false])
  end.

(** New data and the end of the stream are handed over; data that is not wanted is
    kept, and the end waits for it. *)
Definition tcp_input_deliver (ok : bool) (p : trcv) (refused : option (list Z * bool)) (r : tres) : tin * list tcallback :=
  let '(refused, cbs) := match recv_data r with
    | [] => (refused, [])
    | data => (if ok then refused else Some (data, false), [TcRecv data ok])
    end in
  if got_fin r then
    match refused with
    | Some (data, _) => (mk_tin p (Some (data, true)), cbs)
    | None => (mk_tin (fin_window p) None, cbs ++ [TcClosed])
    end
  else (mk_tin p refused, cbs).

(** [tcp_timewait_input], but for the reset it may send and the time of the last FIN. *)
Definition tcp_timewait_input (tcplen : Z) (inseg : tseg) (p : trcv) : trcv :=
  if has_flag (sg_flags inseg) TCP_RST then p
  else if has_flag (sg_flags inseg) TCP_SYN && TCP_SEQ_BETWEEN (sg_seqno inseg) (rcv_nxt p) (rcv_nxt p + rcv_wnd p) then p
  else if 0 <? tcplen then tcp_ack_now p else p.

(** What [tcp_input] does for a connection, with the calls of the application in
    order; [ok1] and [ok2] are its answers for data kept and for new data.  The
    application never closes only its receiving side ([TF_RXCLOSED]). *)
Definition tcp_input (mem : bool) (ack : ack_result) (all_acked ok1 ok2 : bool) (inseg : tseg) (t : tin) :
    option (tin * list tcallback) :=
  let tcplen := sg_len inseg + (if has_flag (sg_flags inseg) (Z.lor TCP_FIN TCP_SYN) then 1 else 0) in
  if 0xffff <? tcplen then Some (t, [])
  else if rc_state (ti_rcv t) =? TIME_WAIT then
    Some (mk_tin (tcp_timewait_input tcplen inseg (ti_rcv t)) (ti_refused t), [])
  else
    let '(t, cb1) := tcp_process_refused_data ok1 t in
    if (match ti_refused t with Some _ => true | None => false end) && (0 <? tcplen) then
      Some (mk_tin (if rcv_ann_wnd (ti_rcv t) =? 0 then tcp_send_empty_ack ack (ti_rcv t) else ti_rcv t) (ti_refused t), cb1)
    else
      match tcp_process mem ack all_acked tcplen inseg (ti_rcv t) with
      | None => None
      | Some (PrReset, p, _) => Some (mk_tin p (ti_refused t), cb1 ++ [TcReset])
      | Some (PrClosed, p, _) => Some (mk_tin p (ti_refused t), cb1 ++ [TcEnded])
      | Some (PrGoes, p, r) =>
          let refused := if rc_state p =? TIME_WAIT then None else ti_refused t in
          let '(t', cb2) := tcp_input_deliver ok2 p refused r in Some (t', cb1 ++ cb2)
      end.
