(* ===== verification/TcpInProps.v ===== *)
(** * Receiving TCP segments: what is delivered

    A peer that keeps to the window it was told sends pieces of a stream [S], whose
    first byte has the sequence number [irs]: in any order, more than once, cut and
    overlapping in any way, and some never arrive.  A position is an offset in the
    stream; the queue of early segments is a sorted list of pieces that do not
    overlap. *)

From S2P Require Import Prelude CString TcpIn.

(** ** Sequence numbers *)

Lemma u32_add_l a k : u32 (u32 a + k) = u32 (a + k).
Proof. unfold u32. by rewrite Zplus_mod_idemp_l. Qed.
Lemma u32_add_r a k : u32 (k + u32 a) = u32 (k + a).
Proof. unfold u32. by rewrite Zplus_mod_idemp_r. Qed.
Lemma u32_sub_l a k : u32 (u32 a - k) = u32 (a - k).
Proof. unfold u32. by rewrite Zminus_mod_idemp_l. Qed.
Lemma u32_sub_r a k : u32 (k - u32 a) = u32 (k - a).
Proof. unfold u32. by rewrite Zminus_mod_idemp_r. Qed.
Lemma u32_u32 a : u32 (u32 a) = u32 a.
Proof. unfold u32. by rewrite Zmod_mod. Qed.

Lemma u16_u32_sub a b : u16 (u32 a - u32 b) = u16 (a - b).
Proof.
  unfold u16, u32. rewrite (Z.mod_eq a (2 ^ 32)), (Z.mod_eq b (2 ^ 32)) by lia.
  replace (a - 2 ^ 32 * (a / 2 ^ 32) - (b - 2 ^ 32 * (b / 2 ^ 32))) with (a - b + (2 ^ 16 * (b / 2 ^ 32 - a / 2 ^ 32)) * 2 ^ 16) by lia.
  by rewrite Z_mod_plus_full.
Qed.

(** Comparing sequence numbers is comparing positions that are near to each other. *)
Lemma seq_lt_near a b x y irs :
  u32 a = u32 (irs + x) → u32 b = u32 (irs + y) → - 2 ^ 31 < x - y < 2 ^ 31 → TCP_SEQ_LT a b = (x <? y).
Proof.
  intros Ha Hb Hd. unfold TCP_SEQ_LT. rewrite Ha, Hb, u32_sub_l, u32_sub_r. replace (irs + x - (irs + y)) with (x - y) by lia.
  unfold u32. destruct (Z.ltb_spec x y).
  - replace ((x - y) mod 2 ^ 32) with (x - y + 2 ^ 32) by (apply (Z.mod_unique _ _ (-1)); lia).
    apply Z.testbit_true; [lia|]. replace ((x - y + 2 ^ 32) / 2 ^ 31) with 1 by (apply (Z.div_unique _ _ _ (x - y + 2 ^ 31)); lia). done.
  - rewrite Z.mod_small by lia. apply Z.testbit_false; [lia|]. rewrite Z.div_small by lia. done.
Qed.

(** Flags. *)
Lemma has_flag_bit f k : 0 ≤ k → has_flag f (2 ^ k) = Z.testbit f k.
Proof.
  intros Hk. unfold has_flag. destruct (Z.testbit f k) eqn:Hb.
  - destruct (Z.eqb_spec (Z.land f (2 ^ k)) 0) as [H|]; [|done]. exfalso. assert (Z.testbit (Z.land f (2 ^ k)) k = true) as H'.
    { by rewrite Z.land_spec, Hb, Z.pow2_bits_true. }
    by rewrite H, Z.bits_0 in H'.
  - replace (Z.land f (2 ^ k)) with 0; [done|]. symmetry. apply Z.bits_inj'. intros n Hn. rewrite Z.land_spec, Z.bits_0.
    destruct (Z.eq_dec n k) as [->|Hne]; [by rewrite Hb|]. by rewrite Z.pow2_bits_false, andb_false_r by lia.
Qed.

Lemma fin_bit f : has_flag f TCP_FIN = Z.testbit f 0.
Proof. apply (has_flag_bit f 0). lia. Qed.
Lemma syn_bit f : has_flag f TCP_SYN = Z.testbit f 1.
Proof. apply (has_flag_bit f 1). lia. Qed.

Lemma fin_or_syn f : has_flag f (Z.lor TCP_FIN TCP_SYN) = has_flag f TCP_FIN || has_flag f TCP_SYN.
Proof.
  unfold has_flag. rewrite Z.land_lor_distr_r. destruct (Z.eqb_spec (Z.land f TCP_FIN) 0) as [H1|H1], (Z.eqb_spec (Z.land f TCP_SYN) 0) as [H2|H2].
  - by rewrite H1, H2.
  - rewrite H1. rewrite Z.lor_0_l. by destruct (Z.eqb_spec (Z.land f TCP_SYN) 0).
  - rewrite H2, Z.lor_0_r. by destruct (Z.eqb_spec (Z.land f TCP_FIN) 0).
  - destruct (Z.eqb_spec (Z.lor (Z.land f TCP_FIN) (Z.land f TCP_SYN)) 0) as [H|]; [|done]. by apply Z.lor_eq_0_iff in H as [? _].
Qed.

Lemma set_fin f : has_flag (Z.lor f TCP_FIN) TCP_FIN = true.
Proof. rewrite fin_bit, Z.lor_spec. apply orb_true_r. Qed.
Lemma set_fin_syn f : has_flag (Z.lor f TCP_FIN) TCP_SYN = has_flag f TCP_SYN.
Proof. rewrite !syn_bit, Z.lor_spec. apply orb_false_r. Qed.

(** ** Segments of a stream *)

Section stream.
Context (S : list Z) (irs : Z).

Definition fin (g : tseg) : bool := has_flag (sg_flags g) TCP_FIN.

(** [g] holds the bytes of the stream from [o] on; a FIN is at the end of the stream. *)
Definition seg_at (o : Z) (g : tseg) : Prop :=
  sg_seqno g = u32 (irs + o) ∧ 0 ≤ o ∧ sg_len g = Z.of_nat (length (sg_data g)) ∧
  sg_data g = take (Z.to_nat (sg_len g)) (drop (Z.to_nat o) S) ∧ o + sg_len g ≤ Z.of_nat (length S) ∧
  has_flag (sg_flags g) TCP_SYN = false ∧ (fin g = true → o + sg_len g = Z.of_nat (length S)) ∧ sg_len g < 2 ^ 16.

Lemma tcplen_fin o g : seg_at o g → TCP_TCPLEN g = sg_len g + (if fin g then 1 else 0).
Proof. intros (_ & _ & _ & _ & _ & Hs & _). unfold TCP_TCPLEN, fin. rewrite fin_or_syn, Hs, orb_false_r. done. Qed.

Lemma seg_at_len o g : seg_at o g → 0 ≤ sg_len g.
Proof. intros (_ & _ & -> & _). lia. Qed.

Lemma seg_at_trim o g n : seg_at o g → fin g = false → 0 ≤ n ≤ sg_len g → seg_at o (seg_trim n g) ∧
  sg_len (seg_trim n g) = n ∧ fin (seg_trim n g) = false.
Proof.
  intros (H1 & H2 & H3 & H4 & H5 & H6 & H7 & H8) Hf Hn. unfold seg_trim. rewrite u16_small by lia. cbn [sg_len sg_flags fin].
  split_and!; [|done|done]. split_and!; cbn; try done; try lia.
  - rewrite length_take. lia.
  - rewrite H4, take_take. f_equal. lia.
  - unfold fin in *. cbn. rewrite Hf. done.
Qed.

Lemma seg_at_set_fin o g : seg_at o g → o + sg_len g = Z.of_nat (length S) →
  let g' := sg_set_flags (Z.lor (sg_flags g) TCP_FIN) g in seg_at o g' ∧ fin g' = true.
Proof.
  intros (H1 & H2 & H3 & H4 & H5 & H6 & H7 & H8) He g'. unfold g', fin. cbn [sg_set_flags sg_flags]. rewrite set_fin. split; [|done].
  split_and!; cbn; try done. by rewrite set_fin_syn.
Qed.

(** ** The queue *)

(** Pieces between [lo] and [hi], sorted and apart; a FIN only at the end. *)
Fixpoint oos (lo hi : Z) (l : list (Z * tseg)) : Prop :=
  match l with
  | [] => True
  | (o, g) :: l' =>
      lo ≤ o ∧ seg_at o g ∧ 0 < TCP_TCPLEN g ∧ o + TCP_TCPLEN g ≤ hi ∧ (fin g = true → l' = []) ∧ oos (o + sg_len g) hi l'
  end.

Lemma oos_weaken lo lo' hi hi' l : lo' ≤ lo → hi ≤ hi' → oos lo hi l → oos lo' hi' l.
Proof.
  revert lo lo'. induction l as [|[o g] l IH]; intros lo lo' H1 H2; [done|]. intros (A1 & A2 & A3 & A4 & A5 & A6).
  split_and!; [lia|done|done|lia|done|]. by eapply IH.
Qed.

(** Moving the lower bound up to the first piece. *)
Lemma oos_head lo lo' hi l : match l with (o, _) :: _ => lo' ≤ o | [] => True end → oos lo hi l → oos lo' hi l.
Proof. destruct l as [|[o g] l]; [done|]. intros H (_ & A). by split. Qed.

Ltac near := rewrite <-?Z.add_sub_assoc, ?u32_add_l, ?u32_sub_l, ?u32_add_r, ?u32_u32; f_equal; lia.

(** Segments that are covered by [c] go, and leave their FIN. *)
Lemma oos_covered_spec lo hi o c l :
  seg_at o c → fin c = false → o + sg_len c ≤ hi → oos lo hi l → o ≤ lo → hi ≤ o + 2 ^ 20 →
  ∃ c' l', oos_covered (sg_seqno c) c l.*2 = (c', l'.*2) ∧ seg_at o c' ∧ sg_len c' = sg_len c ∧ sg_seqno c' = sg_seqno c ∧
    o + TCP_TCPLEN c' ≤ hi ∧ (fin c' = true → l' = []) ∧ oos lo hi l' ∧
    match l' with (o1, g) :: _ => o + sg_len c < o1 + sg_len g ∧ (l' = l ∨ o < o1) | [] => True end.
Proof.
  intros Hc Hf Hlen Hl Hlo Hhi. revert lo c Hc Hf Hlen Hl Hlo.
  induction l as [|[o1 g] l IH]; intros lo c Hc Hf Hlen Hl Hlo.
  - exists c, []. split_and!; try done. rewrite (tcplen_fin o c Hc), Hf. lia.
  - pose proof Hl as (L1 & L2 & L3 & L4 & L5 & L6). pose proof (seg_at_len _ _ Hc). pose proof (seg_at_len _ _ L2).
    pose proof (tcplen_fin _ _ L2) as Ht. cbn [fmap list_fmap snd oos_covered]. unfold TCP_SEQ_GEQ, TCP_SEQ_LEQ.
    rewrite (seq_lt_near _ _ (o + sg_len c) (o1 + sg_len g) irs);
      [|rewrite (proj1 Hc); near|rewrite (proj1 L2); near|destruct (fin g); lia].
    destruct (Z.ltb_spec (o + sg_len c) (o1 + sg_len g)) as [Hlt|Hge]; simpl negb.
    + exists c, ((o1, g) :: l). split_and!; try done; [rewrite (tcplen_fin o c Hc), Hf; lia|by rewrite Hf|by left].
    + change (has_flag (sg_flags g) TCP_FIN) with (fin g). destruct (fin g) eqn:Hfg.
      * rewrite (L5 eq_refl). cbn [oos_covered fmap list_fmap]. assert (o1 + sg_len g = Z.of_nat (length S)) as He by (by apply L2).
        assert (o + sg_len c = Z.of_nat (length S)) as Hec by (pose proof Hc as (_ & _ & _ & _ & Hb & _); lia).
        destruct (seg_at_set_fin o c Hc Hec) as [Hc' Hf']. eexists _, []. split_and!; try done.
        rewrite (tcplen_fin _ _ Hc'), Hf'. cbn. lia.
      * destruct (IH (o1 + sg_len g) c Hc Hf Hlen L6 ltac:(lia)) as (c' & l' & E & H1 & H2 & H3 & H4 & H5 & H6 & H7).
        exists c', l'. split_and!; try done; [eapply oos_weaken; [..|exact H6]; lia|].
        destruct l' as [|[o2 g2] l']; [done|]. destruct H7 as [H7 _]. split; [done|]. right. destruct H6 as (? & _). lia.
Qed.

Lemma oos_insert_spec lo hi o c l :
  seg_at o c → 0 < TCP_TCPLEN c → o + TCP_TCPLEN c ≤ hi → oos o hi l → lo ≤ o → hi ≤ o + 2 ^ 20 →
  match l with (o1, g) :: _ => o < o1 ∨ sg_len g ≤ sg_len c | [] => True end →
  ∃ l', tcp_oos_insert_segment (sg_seqno c) c l.*2 = l'.*2 ∧ oos lo hi l'.
Proof.
  intros Hc Hp Hlen Hl Hlo Hhi Hhead. unfold tcp_oos_insert_segment. fold (fin c). pose proof (tcplen_fin _ _ Hc) as Ht.
  destruct (fin c) eqn:Hf; [by exists [(o, c)]|]. rewrite Z.add_0_r in Ht.
  destruct (oos_covered_spec o hi o c l Hc Hf ltac:(lia) Hl ltac:(lia) Hhi) as (c' & l' & -> & H1 & H2 & H3 & H4 & H5 & H6 & H7).
  pose proof (tcplen_fin _ _ H1) as Ht'. destruct l' as [|[o1 g] l'].
  { exists [(o, c')]. split; [done|]. split_and!; try done. destruct (fin c'); lia. }
  cbn [fmap list_fmap snd]. destruct (fin c') eqn:Hf'; [by discriminate (H5 eq_refl)|]. destruct H6 as (L1 & L2 & L3 & L4 & L5 & L6).
  pose proof (seg_at_len _ _ L2). pose proof (tcplen_fin _ _ L2) as Htg. destruct H7 as [H7 H8].
  assert (o < o1) as Hoo. { destruct H8 as [<-|]; [|done]. destruct Hhead as [|Hle]; [done|]. lia. }
  unfold TCP_SEQ_GT. rewrite (seq_lt_near _ _ o1 (o + sg_len c') irs);
    [|rewrite (proj1 L2); near|rewrite H2, (proj1 Hc); near|rewrite H2; destruct (fin g); lia].
  destruct (Z.ltb_spec o1 (o + sg_len c')) as [Hlt|Hge].
  - assert (seg_trim (sg_seqno g - sg_seqno c) c' = seg_trim (o1 - o) c') as ->.
    { unfold seg_trim. rewrite (proj1 L2), (proj1 Hc), u16_u32_sub. by replace (irs + o1 - (irs + o)) with (o1 - o) by lia. }
    destruct (seg_at_trim o c' (o1 - o) H1 Hf' ltac:(lia)) as (T1 & T2 & T3). pose proof (tcplen_fin _ _ T1) as T4. rewrite T3 in T4.
    exists ((o, seg_trim (o1 - o) c') :: (o1, g) :: l'). split; [done|]. split_and!; try done; try lia. all: try by rewrite T3. rewrite T2. by split_and!; try lia.
  - exists ((o, c') :: (o1, g) :: l'). split; [done|]. split_and!; try done; try lia. by rewrite Hf'.
Qed.

(** A piece that ends before [o] after it was trimmed, if that was needed. *)
Lemma trim_before lo hi o o1 g :
  seg_at o1 g → fin g = false → o1 < o → lo ≤ o1 → 0 < TCP_TCPLEN g → o1 + TCP_TCPLEN g ≤ hi → hi ≤ o1 + 2 ^ 20 → o ≤ hi →
  ∀ seqno l, seqno = u32 (irs + o) → oos o hi l → ∃ g',
    (if TCP_SEQ_GT (sg_seqno g + sg_len g) seqno then seg_trim (seqno - sg_seqno g) g else g) = g' ∧ oos lo hi ((o1, g') :: l).
Proof.
  intros Hg Hf Ho Hlo Hp Hle Hhi Hoh seqno l -> Hl. pose proof (seg_at_len _ _ Hg). pose proof (tcplen_fin _ _ Hg) as Ht. rewrite Hf, Z.add_0_r in Ht.
  unfold TCP_SEQ_GT. rewrite (seq_lt_near _ _ o (o1 + sg_len g) irs); [|near|rewrite (proj1 Hg); near|lia].
  eexists. split; [done|]. destruct (Z.ltb_spec o (o1 + sg_len g)).
  - assert (seg_trim (u32 (irs + o) - sg_seqno g) g = seg_trim (o - o1) g) as ->.
    { unfold seg_trim. rewrite (proj1 Hg), u16_u32_sub. by replace (irs + o - (irs + o1)) with (o - o1) by lia. }
    destruct (seg_at_trim o1 g (o - o1) Hg Hf ltac:(lia)) as (T1 & T2 & T3). pose proof (tcplen_fin _ _ T1) as T4. rewrite T3 in T4.
    split_and!; try done; try lia; [by rewrite T3|]. rewrite T2. by replace (o1 + (o - o1)) with o by lia.
  - split_and!; try done; [by rewrite Hf|]. eapply oos_head; [|exact Hl]. destruct l as [|[o2 g2] l]; [done|]. destruct Hl as (? & _). lia.
Qed.

Lemma opt_cons_snd (prev : option (Z * tseg)) l : opt_cons (snd <$> prev) l.*2 = (opt_cons prev l).*2.
Proof. by destruct prev. Qed.

Lemma u32_near x y : u32 (irs + x) = u32 (irs + y) → - 2 ^ 31 < x - y < 2 ^ 31 → x = y.
Proof.
  intros He Hd. pose proof (seq_lt_near (irs + x) (irs + y) x y irs eq_refl eq_refl Hd) as H1.
  pose proof (seq_lt_near (irs + x) (irs + y) x x irs eq_refl (eq_sym He) ltac:(lia)) as H2.
  pose proof (seq_lt_near (irs + y) (irs + x) y x irs eq_refl eq_refl ltac:(lia)) as H3.
  pose proof (seq_lt_near (irs + y) (irs + x) x x irs (eq_sym He) eq_refl ltac:(lia)) as H4.
  rewrite H1, Z.ltb_irrefl in H2. rewrite H3, Z.ltb_irrefl in H4. apply Z.ltb_ge in H2, H4. lia.
Qed.

(** What is in front of a queue stays there. *)
Lemma oos_behind lo hi prev l : oos lo hi (opt_cons prev l) → l ≠ [] →
  ∃ lo1, lo ≤ lo1 ∧ oos lo1 hi l ∧ (∀ op pv, prev = Some (op, pv) → fin pv = false ∧ lo ≤ op < lo1) ∧
    ∀ l', oos lo1 hi l' → oos lo hi (opt_cons prev l').
Proof.
  intros Hl Hne. destruct prev as [[op pv]|]; [|by exists lo]. destruct Hl as (L1 & L2 & L3 & L4 & L5 & L6).
  pose proof (seg_at_len _ _ L2). pose proof (tcplen_fin _ _ L2) as Ht.
  assert (fin pv = false) as Hf by (destruct (fin pv); [by specialize (L5 eq_refl)|done]). rewrite Hf in Ht.
  exists (op + sg_len pv). split_and!; [lia|done|intros ? ? [= <- <-]; split; [done|lia]|].
  intros l' Hl'. by split_and!; try done; rewrite Hf.
Qed.

Lemma oos_append_spec mem lo hi o c right o1 g :
  seg_at o c → 0 < TCP_TCPLEN c → o + TCP_TCPLEN c ≤ hi → hi ≤ o1 + 2 ^ 20 →
  TCP_SEQ_GT (TCP_TCPLEN c + sg_seqno c) right = false → oos lo hi [(o1, g)] → o1 < o →
  ∃ l', oos_append mem (sg_seqno c) (TCP_TCPLEN c) right c g = Some l'.*2 ∧ oos lo hi l'.
Proof.
  intros Hc Hp Hle Hhi Hr Hg Ho. unfold oos_append. fold (fin g). pose proof Hg as (G1 & G2 & G3 & G4 & _).
  destruct (fin g) eqn:Hf; [by exists [(o1, g)]|]. destruct mem; [|by exists [(o1, g)]]. rewrite Hr.
  destruct (trim_before lo hi o o1 g G2 Hf Ho G1 G3 G4 Hhi ltac:(lia) (sg_seqno c) [(o, c)] (proj1 Hc)) as (g' & -> & Hg').
  - split_and!; try done; lia.
  - by exists [(o1, g'); (o, c)].
Qed.

Lemma oos_loop_spec mem lo hi o c right prev l :
  seg_at o c → 0 < TCP_TCPLEN c → o + TCP_TCPLEN c ≤ hi → lo ≤ o → hi ≤ lo + 2 ^ 20 →
  TCP_SEQ_GT (TCP_TCPLEN c + sg_seqno c) right = false →
  oos lo hi (opt_cons prev l) → (∀ op pv, prev = Some (op, pv) → op < o) →
  ∃ l', oos_loop mem (sg_seqno c) (TCP_TCPLEN c) right c (snd <$> prev) l.*2 = Some l'.*2 ∧ oos lo hi l'.
Proof.
  intros Hc Hp Hle Hlo Hhi Hr. revert lo prev Hlo Hhi. induction l as [|[o1 g] rest IH]; intros lo prev Hlo Hhi Hl Hprev.
  { exists (opt_cons prev []). split; [|done]. cbn. f_equal. exact (opt_cons_snd prev []). }
  assert ((o1, g) :: rest ≠ []) as Hne by done. destruct (oos_behind _ _ _ _ Hl Hne) as (lo1 & B1 & B2 & B3 & B4).
  pose proof B2 as (L1 & L2 & L3 & L4 & L5 & L6). pose proof (seg_at_len _ _ L2). pose proof (tcplen_fin _ _ L2) as Ht.
  assert (same : ∃ l', Some (opt_cons (snd <$> prev) ((o1, g) :: rest).*2) = Some l'.*2 ∧ oos lo hi l').
  { exists (opt_cons prev ((o1, g) :: rest)). by rewrite opt_cons_snd. }
  cbn [fmap list_fmap snd oos_loop]. destruct (Z.eqb_spec (sg_seqno c) (sg_seqno g)) as [He|Hne'].
  { assert (o = o1) as <- by (rewrite (proj1 Hc), (proj1 L2) in He; apply u32_near in He; lia).
    destruct rest as [|[o2 g2] rest]; [exact same|]. cbn [list_fmap].
    destruct (Z.ltb_spec (sg_len g) (sg_len c)); [|exact same]. destruct mem; [|exact same]. cbn [andb].
    destruct (oos_insert_spec lo1 hi o c ((o, g) :: (o2, g2) :: rest) Hc Hp Hle) as (l' & E & Hl'); [by eapply oos_head; [|exact B2]|lia|lia|right; lia|].
    exists (opt_cons prev l'). split; [|by apply B4]. by rewrite <-opt_cons_snd, <-E. }
  assert (match prev with None => o <? o1 | Some _ => o <? o1 end = true → mem = true →
    ∃ l', tcp_oos_insert_segment (sg_seqno c) c (g :: rest.*2) = l'.*2 ∧ oos o hi l') as Hins.
  { intros Hlt _. assert (o < o1) by (by destruct prev; apply Z.ltb_lt).
    apply (oos_insert_spec o hi o c ((o1, g) :: rest) Hc Hp Hle); [eapply oos_head; [|exact B2]; lia|lia|lia|by left]. }
  assert (match snd <$> prev with
    | Some pv => TCP_SEQ_BETWEEN (sg_seqno c) (sg_seqno pv + 1) (sg_seqno g - 1)
    | None => TCP_SEQ_LT (sg_seqno c) (sg_seqno g) end = (o <? o1)) as ->.
  { destruct prev as [[op pv]|]; cbn [fmap option_fmap option_map snd].
    - specialize (Hprev op pv eq_refl). destruct (B3 op pv eq_refl) as [_ ?]. destruct Hl as (_ & P2 & _).
      unfold TCP_SEQ_BETWEEN, TCP_SEQ_GEQ, TCP_SEQ_LEQ.
      rewrite (seq_lt_near _ _ o (op + 1) irs); [|rewrite (proj1 Hc); near|rewrite (proj1 P2); near|lia].
      rewrite (seq_lt_near _ _ (o1 - 1) o irs); [|rewrite (proj1 L2); near|rewrite (proj1 Hc); near|lia].
      destruct (Z.ltb_spec o (op + 1)), (Z.ltb_spec (o1 - 1) o), (Z.ltb_spec o o1); try done; lia.
    - apply (seq_lt_near _ _ _ _ irs); [rewrite (proj1 Hc); near|rewrite (proj1 L2); near|lia]. }
  destruct (Z.ltb_spec o o1) as [Hlt|Hge].
  - destruct mem; [|exact same]. destruct (Hins ltac:(by destruct prev) eq_refl) as (l' & -> & Hl').
    destruct prev as [[op pv]|]; cbn [fmap option_fmap option_map snd opt_cons].
    + specialize (Hprev op pv eq_refl). destruct (B3 op pv eq_refl) as [Hf ?]. destruct Hl as (P1 & P2 & P3 & P4 & _).
      destruct (trim_before lo hi o op pv P2 Hf Hprev P1 P3 P4 ltac:(lia) ltac:(lia) (sg_seqno c) l' (proj1 Hc) Hl') as (pv' & -> & Hpv').
      by exists ((op, pv') :: l').
    + exists l'. split; [done|]. eapply oos_weaken; [..|exact Hl']; lia.
  - assert (o1 < o) as Hgt. { destruct (Z.eq_dec o o1) as [->|]; [|lia]. by rewrite (proj1 Hc), (proj1 L2) in Hne'. }
    destruct rest as [|x rest]; cbn [fmap list_fmap].
    + unfold TCP_SEQ_GT at 1. rewrite (seq_lt_near _ _ o1 o irs); [|rewrite (proj1 L2); near|rewrite (proj1 Hc); near|lia].
      rewrite (proj2 (Z.ltb_lt o1 o) Hgt). destruct (oos_append_spec mem lo1 hi o c right o1 g Hc Hp Hle ltac:(lia) Hr B2 Hgt) as (l' & -> & Hl').
      exists (opt_cons prev l'). rewrite <-opt_cons_snd. auto.
    + destruct (IH lo1 (Some (o1, g)) ltac:(lia) ltac:(lia) B2) as (l' & E & Hl'); [by intros ? ? [= <- <-]|].
      exists (opt_cons prev l'). split; [|by apply B4]. rewrite <-opt_cons_snd. cbn in E |- *. by rewrite E.
Qed.

(** ** The window *)

(** [N] bytes have been taken, and the peer was told that it may send up to [E]. *)
Definition rwnd (N E : Z) (p : trcv) : Prop :=
  rcv_nxt p = u32 (irs + N) ∧ 0 ≤ N ∧ rcv_ann_right_edge p = u32 (irs + E) ∧
  N ≤ E ≤ N + rcv_ann_wnd p ∧ rcv_ann_wnd p ≤ rcv_wnd p ≤ WND_MAX ∧ 0 ≤ rc_mss p < 2 ^ 16.

Lemma update_ann_spec N E p :
  rcv_nxt p = u32 (irs + N) → 0 ≤ N → rcv_ann_right_edge p = u32 (irs + E) → N ≤ E ≤ N + rcv_wnd p → rcv_wnd p ≤ WND_MAX →
  0 ≤ rc_mss p < 2 ^ 16 → ∃ k A, tcp_update_rcv_ann_wnd p = Some (k, rc_set_ann_wnd A p) ∧ rwnd N E (rc_set_ann_wnd A p).
Proof.
  intros Hn HN He HE Hw Hm. unfold tcp_update_rcv_ann_wnd, TCP_SEQ_GEQ, TCP_SEQ_LEQ, TCP_SEQ_GT. unfold WND_MAX in *.
  change (8 * 8191 / 2) with 32764.
  rewrite (seq_lt_near _ _ (N + rcv_wnd p) (E + Z.min 32764 (rc_mss p)) irs); [|rewrite Hn; near|rewrite He; near|lia].
  destruct (Z.ltb_spec (N + rcv_wnd p) (E + Z.min 32764 (rc_mss p))); simpl negb.
  - rewrite (seq_lt_near _ _ E N irs); [|rewrite He; near|rewrite Hn; near|lia]. rewrite (proj2 (Z.ltb_ge E N)) by lia.
    assert (u32 (rcv_ann_right_edge p - rcv_nxt p) = E - N) as ->.
    { rewrite Hn, He, u32_sub_l, u32_sub_r. rewrite <-(u32_small (E - N)) by lia. f_equal. lia. }
    unfold assert_that. rewrite (proj2 (Z.leb_le _ _)) by lia. exists 0, (E - N). split; [done|].
    unfold rwnd, WND_MAX. cbn. split_and!; try done; lia.
  - eexists _, (rcv_wnd p). split; [done|]. unfold rwnd, WND_MAX. cbn. split_and!; try done; lia.
Qed.

Lemma rcv_advance_spec N E p t :
  rwnd N E p → 0 ≤ t → N + t ≤ E → ∃ p', rcv_advance (u32 (irs + (N + t))) t p = Some p' ∧ rwnd (N + t) E p' ∧
    rcv_wnd p' = rcv_wnd p - t ∧ rc_state p' = rc_state p ∧ ooseq p' = ooseq p.
Proof.
  intros (H1 & H2 & H3 & H4 & H5 & H6) Ht HE. unfold rcv_advance. cbn [rcv_wnd rc_set_nxt]. unfold WND_MAX in *.
  rewrite (proj2 (Z.leb_le t (rcv_wnd p))) by lia. cbn [assert_that]. rewrite u16_small by lia.
  destruct (update_ann_spec (N + t) E (rc_set_wnd (rcv_wnd p - t) (rc_set_nxt (u32 (irs + (N + t))) p))) as (k & A & -> & Hr);
    cbn; unfold WND_MAX; try done; try lia. eexists. split; [done|]. done.
Qed.

(** ** Delivering *)

(** The bytes of the stream from [a] to [b]; the FIN behind the end is not one. *)
Definition slice (a b : Z) : list Z := take (Z.to_nat (b - a)) (drop (Z.to_nat a) S).

Lemma slice_app a b c : 0 ≤ a ≤ b → b ≤ c → slice a b ++ slice b c = slice a c.
Proof.
  intros H1 H2. unfold slice. replace (Z.to_nat b) with (Z.to_nat a + Z.to_nat (b - a))%nat by lia.
  rewrite <-drop_drop, take_take_drop. f_equal. lia.
Qed.

Lemma slice_seg o g : seg_at o g → sg_data g = slice o (o + TCP_TCPLEN g).
Proof.
  intros Hg. pose proof (tcplen_fin _ _ Hg) as Ht. destruct Hg as (_ & H2 & H3 & H4 & H5 & _ & H7 & _). unfold slice.
  rewrite H4. destruct (fin g).
  - rewrite (take_ge _ (Z.to_nat (sg_len g))), take_ge; [done|rewrite length_drop; lia|rewrite length_drop; specialize (H7 eq_refl); lia].
  - f_equal. lia.
Qed.

Notation len := (Z.of_nat (length S)).

Lemma seg_end o g : seg_at o g → o + TCP_TCPLEN g ≤ len + 1 ∧ (len <? o + TCP_TCPLEN g) = fin g ∧ o + sg_len g ≤ len.
Proof.
  intros Hg. pose proof (tcplen_fin _ _ Hg) as Ht. destruct Hg as (_ & H2 & H3 & H4 & H5 & _ & H7 & _).
  destruct (fin g); [specialize (H7 eq_refl); split_and!; [lia|apply Z.ltb_lt; lia|lia]|split_and!; [lia|apply Z.ltb_ge; lia|lia]].
Qed.

Lemma slice_nil a : slice a a = [].
Proof. unfold slice. by rewrite Z.sub_diag. Qed.

Lemma ooseq_dequeue_spec N E al p r :
  rwnd N E p → oos N E al → (len <? N) = got_fin r → ∃ N' al' p' r',
    ooseq_dequeue al.*2 p r = Some (p', r') ∧ (N ≤ N' ≤ E ∧ (N ≤ len + 1 → N' ≤ len + 1)) ∧ rwnd N' E p' ∧ ooseq p' = al'.*2 ∧ oos (N' + 1) E al' ∧
    recv_data r' = recv_data r ++ slice N N' ∧ (len <? N') = got_fin r' ∧ rcv_wnd p' = rcv_wnd p - (N' - N) ∧
    (rc_state p' = rc_state p ∨ (rc_state p = ESTABLISHED ∧ rc_state p' = CLOSE_WAIT ∧ got_fin r' = true)) ∧
    match al with (o, g) :: _ => o = N → N + TCP_TCPLEN g ≤ N' | [] => True end.
Proof.
  revert N p r. induction al as [|[o g] al IH]; intros N p r Hw Ho Hf.
  - pose proof Hw as (W1 & W2 & W3 & W4 & W5 & W6). exists N, [], (rc_set_ooseq [] p), r. rewrite slice_nil, app_nil_r. cbn.
    split_and!; first [done|lia|by left].
  - destruct Ho as (L1 & L2 & L3 & L4 & L5 & L6). pose proof Hw as (W1 & W2 & W3 & W4 & W5 & W6).
    pose proof (seg_end _ _ L2) as (E1 & E2 & E3). pose proof (seg_at_len _ _ L2).
    cbn [fmap list_fmap snd ooseq_dequeue]. destruct (Z.eqb_spec (sg_seqno g) (rcv_nxt p)) as [He|Hne].
    + assert (o = N) as -> by (rewrite (proj1 L2), W1 in He; apply u32_near in He; unfold WND_MAX in *; lia).
      assert (u32 (rcv_nxt p + TCP_TCPLEN g) = u32 (irs + (N + TCP_TCPLEN g))) as -> by (rewrite W1; near).
      destruct (rcv_advance_spec N E p (TCP_TCPLEN g) Hw ltac:(lia) L4) as (p1 & -> & P1 & P2 & P3 & P4).
      assert (slice N (N + TCP_TCPLEN g) = sg_data g) as Hs by (by rewrite <-slice_seg).
      fold (fin g). destruct (fin g) eqn:Hfg.
      * rewrite (L5 eq_refl) in *. cbn [fmap list_fmap ooseq_dequeue].
        set (p2 := if rc_state p1 =? ESTABLISHED then rc_set_state CLOSE_WAIT p1 else p1).
        assert (rwnd (N + TCP_TCPLEN g) E p2 ∧ rcv_wnd p2 = rcv_wnd p1) as [Hw2 Hww] by (unfold p2; by destruct (rc_state p1 =? ESTABLISHED)).
        exists (N + TCP_TCPLEN g), [], (rc_set_ooseq [] p2), (mk_res (recv_data r ++ sg_data g) true). cbn [recv_data got_fin ooseq rc_set_ooseq].
        split_and!; try done; try lia; [by rewrite Hs|cbn; lia|]. cbn. unfold p2. rewrite P3.
        destruct (Z.eqb_spec (rc_state p) ESTABLISHED) as [Hst|]; [right; by split_and!|left; congruence].
      * destruct (IH (N + TCP_TCPLEN g) p1 (mk_res (recv_data r ++ sg_data g) (got_fin r)) P1) as
          (N' & al' & p' & r' & -> & Q1 & Q2 & Q3 & Q4 & Q5 & Q6 & Q7 & Q8 & Q9).
        { pose proof (tcplen_fin _ _ L2) as Ht. rewrite Hfg, Z.add_0_r in Ht. by rewrite Ht. }
        { rewrite E2. cbn. rewrite <-Hf. symmetry. apply Z.ltb_ge. lia. }
        exists N', al', p', r'. split_and!; try done; try lia.
        { rewrite Q5. cbn [recv_data]. rewrite <-app_assoc, <-Hs, slice_app by lia. done. }
        { destruct Q8 as [Q8|Q8]; [left; congruence|right; by rewrite P3 in Q8]. }
    + assert (o ≠ N) by (intros ->; by rewrite (proj1 L2), W1 in Hne).
      exists N, ((o, g) :: al), (rc_set_ooseq (g :: al.*2) p), r. rewrite slice_nil, app_nil_r. cbn.
      split_and!; first [done|lia|by left].
Qed.

(** ** The next segment in sequence *)

Lemma inseg_covered_eq lo hi o c l :
  seg_at o c → fin c = false → oos lo hi l →
  inseg_covered (sg_len c) c l.*2 =
    let '(c', l') := oos_covered (sg_seqno c) c l.*2 in (u16 (TCP_TCPLEN c'), c', l').
Proof.
  intros Hc Hf. revert lo. induction l as [|[o1 g] l IH]; intros lo Hl.
  - cbn. rewrite (tcplen_fin _ _ Hc), Hf, Z.add_0_r, u16_small; [done|]. pose proof (seg_at_len _ _ Hc). destruct Hc as (_ & _ & _ & _ & _ & _ & _ & ?). lia.
  - destruct Hl as (L1 & L2 & L3 & L4 & L5 & L6). cbn [fmap list_fmap snd inseg_covered oos_covered].
    destruct (TCP_SEQ_GEQ _ _); [|].
    + replace (has_flag (sg_flags c) TCP_SYN) with false by (symmetry; apply Hc). rewrite andb_true_r. fold (fin g).
      destruct (fin g); [by rewrite (L5 eq_refl)|]. by eapply IH.
    + rewrite (tcplen_fin _ _ Hc), Hf, Z.add_0_r, u16_small; [done|]. pose proof (seg_at_len _ _ Hc). destruct Hc as (_ & _ & _ & _ & _ & _ & _ & ?). lia.
Qed.

Lemma inseg_ooseq_spec N E c al :
  seg_at N c → 0 < TCP_TCPLEN c → N + TCP_TCPLEN c ≤ E → oos (N + 1) E al → E ≤ N + WND_MAX →
  ∃ c' al', inseg_ooseq (TCP_TCPLEN c) c al.*2 = Some (TCP_TCPLEN c', c', al'.*2) ∧ seg_at N c' ∧ 0 < TCP_TCPLEN c' ∧
    N + TCP_TCPLEN c' ≤ E ∧ oos (N + TCP_TCPLEN c') E al' ∧
    (TCP_TCPLEN c ≤ TCP_TCPLEN c' ∨
     match al' with (o, g) :: _ => o = N + TCP_TCPLEN c' ∧ N + TCP_TCPLEN c ≤ o + TCP_TCPLEN g | [] => False end).
Proof.
  intros Hc Hp Hle Hl HE. unfold WND_MAX in HE. unfold inseg_ooseq. destruct al as [|x al].
  { exists c, []. split_and!; try done. by left. }
  set (l := x :: al) in *. cbn [fmap list_fmap]. fold (fin c). destruct (fin c) eqn:Hf.
  { exists c, []. split_and!; try done. by left. }
  pose proof (tcplen_fin _ _ Hc) as Ht. rewrite Hf, Z.add_0_r in Ht. rewrite Ht.
  change (x.2 :: al.*2) with (l.*2). rewrite (inseg_covered_eq (N + 1) E N c l Hc Hf Hl).
  destruct (oos_covered_spec (N + 1) E N c l Hc Hf ltac:(lia) Hl ltac:(lia) ltac:(lia)) as (c' & l' & -> & H1 & H2 & H3 & H4 & H5 & H6 & H7).
  pose proof (tcplen_fin _ _ H1) as Ht'. pose proof (seg_at_len _ _ H1). rewrite u16_small by (destruct (fin c'); lia).
  destruct l' as [|[o1 g] l']; cbn [fmap list_fmap snd].
  { exists c', []. split_and!; try done; [destruct (fin c'); lia|]. left. destruct (fin c'); lia. }
  destruct (fin c') eqn:Hf'; [by discriminate (H5 eq_refl)|]. destruct H6 as (L1 & L2 & L3 & L4 & L5 & L6). destruct H7 as [H7 _].
  pose proof (seg_at_len _ _ L2). pose proof (tcplen_fin _ _ L2) as Htg.
  unfold TCP_SEQ_GT. rewrite (seq_lt_near _ _ o1 (N + TCP_TCPLEN c') irs);
    [|rewrite (proj1 L2); near|rewrite (proj1 H1); near|destruct (fin g); lia].
  destruct (Z.ltb_spec o1 (N + TCP_TCPLEN c')) as [Hlt|Hge].
  - replace (has_flag (sg_flags c') TCP_SYN) with false by (symmetry; apply H1).
    assert (u16 (sg_seqno g - sg_seqno c') = o1 - N) as ->.
    { rewrite (proj1 L2), (proj1 H1), u16_u32_sub. replace (irs + o1 - (irs + N)) with (o1 - N) by lia. apply u16_small. lia. }
    destruct (seg_at_trim N c' (o1 - N) H1 Hf' ltac:(lia)) as (T1 & T2 & T3). pose proof (tcplen_fin _ _ T1) as T4. rewrite T3 in T4.
    rewrite (u16_small (TCP_TCPLEN _)) by lia. unfold assert_that.
    rewrite (proj2 (Z.eqb_eq _ _)); [|rewrite (proj1 T1), (proj1 L2); near].
    exists (seg_trim (o1 - N) c'), ((o1, g) :: l'). split_and!; try done; try lia. { by split_and!; try lia. } right. destruct (fin g); lia.
  - exists c', ((o1, g) :: l'). split_and!; try done; try lia.
Qed.

(** The state of the receiver after [N] bytes of the stream. *)
Definition rinv (N E : Z) (p : trcv) : Prop := rwnd N E p ∧ ∃ al, ooseq p = al.*2 ∧ oos (N + 1) E al.

(** What the application gets while the receiver goes from [N] to [N']. *)
Definition delivered (N N' : Z) (p p' : trcv) (r : tres) : Prop :=
  recv_data r = slice N N' ∧ N' ≤ len + 1 ∧ (len <? N') = got_fin r ∧ rcv_wnd p' = rcv_wnd p - (N' - N) ∧
  (rc_state p' = rc_state p ∨ (rc_state p = ESTABLISHED ∧ rc_state p' = CLOSE_WAIT ∧ got_fin r = true)).

Lemma receive_next_spec N E p c :
  rinv N E p → seg_at N c → 0 < TCP_TCPLEN c → N + TCP_TCPLEN c ≤ E →
  ∃ N' p' r, receive_next c p = Some (p', r) ∧ N + TCP_TCPLEN c ≤ N' ∧ rinv N' E p' ∧ delivered N N' p p' r.
Proof.
  intros [Hw (al & Hal & Hl)] Hc Hp Hle. pose proof Hw as (W1 & W2 & W3 & W4 & W5 & W6). unfold receive_next, inseg_window.
  unfold WND_MAX in W5. rewrite u16_small by lia. rewrite (proj2 (Z.ltb_ge _ _)) by lia. rewrite u16_small by lia.
  destruct (inseg_ooseq_spec N E c al Hc Hp Hle Hl ltac:(unfold WND_MAX; lia)) as (c' & al1 & E1 & H1 & H2 & H3 & H4 & H5).
  rewrite Hal, E1. assert (u32 (sg_seqno c' + TCP_TCPLEN c') = u32 (irs + (N + TCP_TCPLEN c'))) as -> by (rewrite (proj1 H1); near).
  destruct (rcv_advance_spec N E p (TCP_TCPLEN c') Hw ltac:(lia) H3) as (p1 & -> & P1 & P2 & P3 & P4). fold (fin c').
  destruct (ooseq_dequeue_spec (N + TCP_TCPLEN c') E al1 p1 (mk_res (sg_data c') (fin c')) P1 H4) as
    (N' & al' & p' & r' & -> & Q1 & Q2 & Q3 & Q4 & Q5 & Q6 & Q7 & Q8 & Q9); [apply (seg_end _ _ H1)|].
  assert (ooseq (tcp_ack p') = ooseq p' ∧ rcv_wnd (tcp_ack p') = rcv_wnd p' ∧ rc_state (tcp_ack p') = rc_state p' ∧
    rwnd N' E (tcp_ack p')) as (A1 & A2 & A3 & A4).
  { unfold tcp_ack. by destruct (has_flag _ _). }
  exists N', (tcp_ack p'), r'. split; [done|]. split; [|split].
  - destruct H5 as [|H5]; [lia|]. destruct al1 as [|[o g] al1]; [done|]. destruct H5 as [H5 H6]. specialize (Q9 H5). lia.
  - split; [done|]. exists al'. by rewrite A1.
  - pose proof (seg_end _ _ H1). split_and!; [|lia|done|lia|by rewrite A3, <-P3]. rewrite Q5. cbn [recv_data]. rewrite (slice_seg _ _ H1). apply slice_app; lia.
Qed.

(** ** Any segment *)

(** A segment of a peer that keeps to the window it was told, and that is not older
    than a quarter of the sequence numbers. *)
Definition conform (N E : Z) (g : tseg) : Prop :=
  ∃ o, seg_at o g ∧ N - 2 ^ 30 ≤ o ∧ o + TCP_TCPLEN g ≤ E ∧ TCP_TCPLEN g < 2 ^ 16.

Lemma rwnd_flags N E p f : rwnd N E p → rwnd N E (rc_set_flags f p).
Proof. done. Qed.

Lemma rinv_mss N E p m : rinv N E p → 0 ≤ m < 2 ^ 16 → rinv N E (rc_set_mss m p).
Proof. intros [(W1 & W2 & W3 & W4 & W5 & W6) Ho] Hm. done. Qed.

Lemma rinv_ack_now N E p : rinv N E p → rinv N E (tcp_ack_now p).
Proof. done. Qed.

Lemma rinv_send_ack N E p ack : rinv N E p → ∃ E', E ≤ E' ∧ rinv N E' (tcp_send_empty_ack ack p) ∧
  rcv_wnd (tcp_send_empty_ack ack p) = rcv_wnd p ∧ rc_state (tcp_send_empty_ack ack p) = rc_state p.
Proof.
  intros Hi. pose proof Hi as [(W1 & W2 & W3 & W4 & W5 & W6) (al & Hal & Hl)]. destruct ack; [by exists E|..].
  all: exists (N + rcv_ann_wnd p); split; [lia|]; split; [|done]; split; [|exists al; split; [done|eapply oos_weaken; [..|exact Hl]; lia]].
  all: split_and!; try done; cbn; try lia; rewrite W1; near.
Qed.

Lemma rinv_set_ooseq N E p al : rinv N E p → oos (N + 1) E al → rinv N E (rc_set_ooseq al.*2 p).
Proof. intros [Hw _] Hl. split; [done|]. by exists al. Qed.

(** Nothing is taken. *)
Lemma delivered_none N p p' : N ≤ len → rcv_wnd p' = rcv_wnd p → rc_state p' = rc_state p → delivered N N p p' no_data.
Proof.
  intros Hn Hw Hs. split_and!; [by rewrite slice_nil|lia|cbn; apply Z.ltb_ge; lia|lia|by left].
Qed.

Lemma trim_front_spec N E p o c :
  rinv N E p → seg_at o c → o < N < o + TCP_TCPLEN c → TCP_TCPLEN c < 2 ^ 16 → ∃ c',
    trim_front (TCP_TCPLEN c) c p = Some (c', p) ∧ seg_at N c' ∧ N + TCP_TCPLEN c' = o + TCP_TCPLEN c.
Proof.
  intros [(W1 & W2 & _) _] Hc Ho Hl. pose proof (tcplen_fin _ _ Hc) as Ht. pose proof (seg_at_len _ _ Hc).
  pose proof Hc as (H1 & H2 & H3 & H4 & H5 & H6 & H7 & H8). unfold trim_front, TCP_SEQ_BETWEEN, TCP_SEQ_GEQ, TCP_SEQ_LEQ.
  rewrite (seq_lt_near _ _ N (o + 1) irs); [|rewrite W1; near|rewrite H1; near|lia].
  rewrite (seq_lt_near _ _ (o + TCP_TCPLEN c - 1) N irs); [|rewrite H1; near|rewrite W1; near|lia].
  rewrite (proj2 (Z.ltb_ge N (o + 1))), (proj2 (Z.ltb_ge (o + TCP_TCPLEN c - 1) N)) by lia. cbn [negb andb].
  assert (u32 (rcv_nxt p - sg_seqno c) = N - o) as ->.
  { rewrite W1, H1, u32_sub_l, u32_sub_r. rewrite <-(u32_small (N - o)) by lia. f_equal. lia. }
  assert (N - o ≤ sg_len c) by (destruct (fin c); lia).
  rewrite (u16_small (N - o)) by lia. rewrite (proj2 (Z.ltb_lt (N - o) 65535)), (proj2 (Z.leb_le (N - o) _)) by lia. cbn [andb assert_that].
  rewrite u16_small by lia. eexists. split; [done|].
  assert (seg_at N (mk_tseg (rcv_nxt p) (sg_len c - (N - o)) (sg_flags c) (drop (Z.to_nat (N - o)) (sg_data c)) (sg_opts c))) as Hs.
  { split_and!; cbn; try done; try lia.
    - rewrite length_drop. lia.
    - rewrite H4 at 1. rewrite skipn_firstn_comm, drop_drop. f_equal; [lia|f_equal; lia].
    - unfold fin in *. cbn. intros Hf. specialize (H7 Hf). lia. }
  split; [exact Hs|]. rewrite (tcplen_fin _ _ Hs), Ht. unfold fin. cbn. lia.
Qed.

Lemma tcp_receive_data_spec mem ack N E p c :
  rinv N E p → rc_state p < CLOSE_WAIT → N ≤ len → conform N E c →
  ∃ N' E' p' r, tcp_receive_data mem ack (TCP_TCPLEN c) c p = Some (p', r) ∧ N ≤ N' ∧ E ≤ E' ∧ rinv N' E' p' ∧ delivered N N' p p' r ∧
    ∀ o, seg_at o c → N - 2 ^ 30 ≤ o ≤ N → o + TCP_TCPLEN c ≤ N'.
Proof.
  intros Hi Hst HN (o & Hc & Ho & HE & Hl). pose proof (tcplen_fin _ _ Hc) as Ht. pose proof (seg_at_len _ _ Hc) as Hlen.
  pose proof Hi as [(W1 & W2 & W3 & W4 & W5 & W6) (al & Hal & Hoos)]. unfold WND_MAX in W5.
  assert (0 ≤ TCP_TCPLEN c) as Htp by (destruct (fin c); lia).
  assert (∀ o', seg_at o' c → N - 2 ^ 30 ≤ o' ≤ N → o' = o) as Huniq.
  { intros o' H' Hb'. pose proof (proj1 Hc) as A. rewrite (proj1 H') in A. apply u32_near in A; [done|lia]. }
  unfold tcp_receive_data. rewrite (proj2 (Z.ltb_lt _ _) Hst), andb_true_r.
  destruct (Z.ltb_spec 0 (TCP_TCPLEN c)) as [Hp|Hp].
  2: { destruct (negb _); (eexists N, E, _, _; split; [done|]; split_and!; try done; [by apply delivered_none|]);
       intros o' H' Hb'; lia. }
  assert (∀ o', N ≤ o' ≤ E → TCP_SEQ_BETWEEN (u32 (irs + o')) (rcv_nxt p) (rcv_nxt p + rcv_wnd p - 1) = (o' <=? N + rcv_wnd p - 1)) as Hbt.
  { intros o' Hb'. unfold TCP_SEQ_BETWEEN, TCP_SEQ_GEQ, TCP_SEQ_LEQ.
    rewrite (seq_lt_near _ _ o' N irs); [|near|rewrite W1; near|lia].
    rewrite (seq_lt_near _ _ (N + rcv_wnd p - 1) o' irs); [|rewrite W1; near|near|lia].
    rewrite (proj2 (Z.ltb_ge o' N)) by lia. destruct (Z.ltb_spec (N + rcv_wnd p - 1) o'), (Z.leb_spec o' (N + rcv_wnd p - 1)); simpl; try done; lia. }
  destruct (Z.ltb_spec o N) as [HoN|HoN]; [destruct (Z.ltb_spec N (o + TCP_TCPLEN c)) as [Hin|Hold]|].
  - destruct (trim_front_spec N E p o c Hi Hc ltac:(lia) Hl) as (c' & -> & Hc' & Hend). rewrite (proj1 Hc'), Hbt by lia.
    rewrite (proj2 (Z.leb_le N (N + rcv_wnd p - 1))) by lia. rewrite W1, Z.eqb_refl.
    destruct (receive_next_spec N E p c' Hi Hc' ltac:(lia) ltac:(lia)) as (N' & p' & r & -> & R1 & R2 & R3).
    exists N', E, p', r. split_and!; try done; try lia. intros o' H' Hb'. rewrite (Huniq o' H' Hb'). lia.
  - assert (TCP_SEQ_LT (sg_seqno c) (rcv_nxt p) = true) as Hlt.
    { rewrite (seq_lt_near _ _ o N irs); [by apply Z.ltb_lt|rewrite (proj1 Hc); near|rewrite W1; near|lia]. }
    assert (trim_front (TCP_TCPLEN c) c p = Some (c, tcp_ack_now p)) as ->.
    { unfold trim_front, TCP_SEQ_BETWEEN, TCP_SEQ_GEQ, TCP_SEQ_LEQ. rewrite Hlt.
      rewrite (seq_lt_near (sg_seqno c + TCP_TCPLEN c - 1) _ (o + TCP_TCPLEN c - 1) N irs); [|rewrite (proj1 Hc); near|rewrite W1; near|lia].
      rewrite (proj2 (Z.ltb_lt (o + TCP_TCPLEN c - 1) N)) by lia. by rewrite andb_false_r. }
    unfold TCP_SEQ_BETWEEN, TCP_SEQ_GEQ, TCP_SEQ_LEQ. cbn [rcv_nxt tcp_ack_now rc_set_flags]. rewrite Hlt. cbn [negb andb].
    destruct (rinv_send_ack N E _ ack (rinv_ack_now N E p Hi)) as (E' & H1 & H2 & H3 & H4).
    exists N, E'. eexists _, _. split; [done|]. split_and!; try done; try lia; [by apply delivered_none|].
    intros o' H' Hb'. rewrite (Huniq o' H' Hb'). lia.
  - assert (TCP_SEQ_LT (sg_seqno c) (rcv_nxt p) = false) as Hlt.
    { rewrite (seq_lt_near _ _ o N irs); [by apply Z.ltb_ge|rewrite (proj1 Hc); near|rewrite W1; near|lia]. }
    assert (trim_front (TCP_TCPLEN c) c p = Some (c, p)) as ->.
    { unfold trim_front, TCP_SEQ_BETWEEN, TCP_SEQ_GEQ, TCP_SEQ_LEQ. rewrite Hlt.
      rewrite (seq_lt_near _ _ N (o + 1) irs); [|rewrite W1; near|rewrite (proj1 Hc); near|lia].
      by rewrite (proj2 (Z.ltb_lt N (o + 1))) by lia. }
    rewrite (proj1 Hc), Hbt by lia. rewrite (proj2 (Z.leb_le o (N + rcv_wnd p - 1))) by lia.
    destruct (Z.eqb_spec (rcv_nxt p) (u32 (irs + o))) as [He|Hne].
    + rewrite W1 in He. apply u32_near in He; [subst o|lia].
      destruct (receive_next_spec N E p c Hi Hc Hp HE) as (N' & p' & r & -> & R1 & R2 & R3).
      exists N', E, p', r. split_and!; try done; lia.
    + assert (N < o) by (destruct (Z.eq_dec N o) as [->|]; [by rewrite W1 in Hne|lia]).
      assert (∃ al', match ooseq p with
        | [] => Some (tcp_send_empty_ack ack (rc_set_ooseq (if mem then [c] else []) p), no_data)
        | _ => match oos_loop mem (u32 (irs + o)) (TCP_TCPLEN c) (rcv_nxt p + rcv_wnd p) c None (ooseq p) with
          | None => None | Some l => Some (tcp_send_empty_ack ack (rc_set_ooseq l p), no_data) end
        end = Some (tcp_send_empty_ack ack (rc_set_ooseq al'.*2 p), no_data) ∧ oos (N + 1) E al') as (al' & -> & Hal').
      { rewrite Hal. destruct al as [|x al].
        - exists (if mem then [(o, c)] else []). split; [by destruct mem|]. destruct mem; [|done]. split_and!; try done; lia.
        - destruct (oos_loop_spec mem (N + 1) E o c (rcv_nxt p + rcv_wnd p) None (x :: al) Hc Hp HE) as (l' & El & Hl'); try done; try lia.
          { unfold TCP_SEQ_GT. rewrite (seq_lt_near _ _ (N + rcv_wnd p) (o + TCP_TCPLEN c) irs);
              [apply Z.ltb_ge; lia|rewrite W1; near|rewrite (proj1 Hc); near|lia]. }
          rewrite (proj1 Hc) in El. cbn in El |- *. exists l'. by rewrite El. }
      destruct (rinv_send_ack N E _ ack (rinv_set_ooseq N E p al' Hi Hal')) as (E' & H1 & H2 & H3 & H4).
      exists N, E'. eexists _, _. split; [done|]. split_and!; try done; try lia; [by apply delivered_none|].
      intros o' H' Hb'. pose proof (Huniq o' H' Hb'). lia.
Qed.
End stream.
