(* ===== verification/TcpInRun.v ===== *)
(** * Receiving TCP segments: the whole connection

    Segments of a peer in any order, the answers of the application, the
    acknowledgements and what the application reads, as one run: the application gets
    the stream. *)

From S2P Require Import Prelude CString TcpIn TcpInProps.

Section run.
Context (S : list Z) (irs : Z).

Notation len := (Z.of_nat (length S)).
Notation slice := (slice S).
Notation rinv := (rinv S irs).
Notation rwnd := (rwnd irs).
Notation conform := (conform S irs).
Notation seg_at := (seg_at S irs).

(** Data that was refused, and a FIN behind it. *)
Definition kept (t : tin) : list Z := match ti_refused t with Some (data, _) => data | None => [] end.
Definition fin_kept (t : tin) : Z := match ti_refused t with Some (_, true) => 1 | _ => 0 end.

Definition taken (c : tcallback) : list Z := match c with TcRecv data true => data | _ => [] end.
Definition accepted (cs : list tcallback) : list Z := concat (taken <$> cs).
Definition closes (cs : list tcallback) : nat := length (filter (λ c, c = TcClosed) cs).

Lemma accepted_app cs cs' : accepted (cs ++ cs') = accepted cs ++ accepted cs'.
Proof. unfold accepted. by rewrite fmap_app, concat_app. Qed.
Lemma closes_app cs cs' : closes (cs ++ cs') = (closes cs + closes cs')%nat.
Proof. unfold closes. by rewrite filter_app, length_app. Qed.

(** The end of the stream was announced to the application. *)
Definition finished (N : Z) (t : tin) : bool := (len <? N) && (match ti_refused t with None => true | Some _ => false end).

(** The bytes of the stream among [N] positions. *)
Definition data_of (N : Z) : Z := Z.min N len.

Definition tinv (N E : Z) (t : tin) : Prop :=
  rinv N E (ti_rcv t) ∧ ESTABLISHED ≤ rc_state (ti_rcv t) ≤ TIME_WAIT ∧
  (rc_state (ti_rcv t) < CLOSE_WAIT ∧ N ≤ len ∨ CLOSE_WAIT ≤ rc_state (ti_rcv t) ∧ N = len + 1) ∧
  rcv_wnd (ti_rcv t) + fin_kept t ≤ WND_MAX ∧
  match ti_refused t with Some (data, f) => data ≠ [] ∧ (len <? N) = f | None => True end.

(** What may arrive: a segment of the stream, a reset, or a SYN. *)
Definition arrives (N E : Z) (g : tseg) : Prop :=
  has_flag (sg_flags g) TCP_RST = true ∨ has_flag (sg_flags g) TCP_SYN = true ∨ conform N E g.

(** A step from [N] to [N']: what the application takes, and the window. *)
Definition moved (N N' : Z) (t t' : tin) (cs : list tcallback) : Prop :=
  accepted cs ++ kept t' = kept t ++ slice N N' ∧
  rcv_wnd (ti_rcv t') + fin_kept t' + (data_of N' - data_of N) = rcv_wnd (ti_rcv t) + fin_kept t ∧
  (closes cs + (if finished N t then 1 else 0) = if finished N' t' then 1 else 0)%nat.

Lemma length_slice a b : 0 ≤ a ≤ b → Z.of_nat (length (slice a b)) = data_of b - data_of a.
Proof. intros H. unfold slice, data_of. rewrite length_take, length_drop. lia. Qed.

Lemma slice_len_end N : N = len + 1 → slice (len) N = [].
Proof. intros ->. unfold slice. rewrite drop_ge by lia. by rewrite take_nil. Qed.

Lemma moved_none N t t' : rcv_wnd (ti_rcv t') = rcv_wnd (ti_rcv t) → ti_refused t' = ti_refused t → moved N N t t' [].
Proof.
  intros H1 H2. unfold moved, kept, fin_kept, finished. rewrite H1, H2, slice_nil, app_nil_r. split_and!; try done. lia.
Qed.

Lemma moved_trans N N1 N2 t t1 t2 cs cs' : 0 ≤ N ≤ N1 → N1 ≤ N2 →
  moved N N1 t t1 cs → moved N1 N2 t1 t2 cs' → moved N N2 t t2 (cs ++ cs').
Proof.
  intros H1 H2 (A1 & A2 & A3) (B1 & B2 & B3). split_and!.
  - rewrite accepted_app, <-app_assoc, B1, app_assoc, A1, <-app_assoc. f_equal. by apply slice_app.
  - lia.
  - rewrite closes_app. lia.
Qed.

(** Data that was kept is offered again. *)
Lemma refused_spec N E t ok : tinv N E t → ∃ t' cs, tcp_process_refused_data ok t = (t', cs) ∧ tinv N E t' ∧ moved N N t t' cs ∧
  rc_state (ti_rcv t') = rc_state (ti_rcv t) ∧ (ok = true → ti_refused t' = None) ∧
  (ti_refused t' = None ∨ t' = t).
Proof.
  intros Hi. pose proof Hi as (H1 & H2 & H3 & H4 & H5). unfold tcp_process_refused_data.
  destruct t as [p [[data f]|]]; cbn [ti_refused ti_rcv] in *.
  2: { eexists _, _. split; [done|]. split_and!; try done; [by apply moved_none|by left]. }
  destruct H5 as [H5 H6]. destruct ok.
  2: { eexists _, _. split; [done|]. split_and!; try done; [|by right].
       unfold moved. cbn. rewrite slice_nil, app_nil_r. split_and!; try done. lia. }
  destruct f.
  - assert (fin_window p = rc_set_wnd (rcv_wnd p + 1) p) as ->.
    { unfold fin_window. cbn [fin_kept ti_refused] in H4. pose proof H1 as [(_ & _ & _ & W4 & W5 & _) _].
      destruct (Z.eqb_spec (rcv_wnd p) WND_MAX); [lia|]. rewrite u16_small; [done|]. unfold WND_MAX in *. lia. }
    cbn [fin_kept ti_refused] in H4. eexists _, _. split; [done|]. split; [|split; [|by split_and!; try left]].
    + split_and!; try done; cbn; try lia. destruct H1 as [(W1 & W2 & W3 & W4 & W5 & W6) Ho]. split; [|done].
      split_and!; try done; cbn in *; lia.
    + unfold moved, finished, fin_kept, kept. cbn. rewrite slice_nil, H6, !app_nil_r. cbn. split_and!; try done; lia.
  - cbn [fin_kept ti_refused] in H4. eexists _, _. split; [done|]. split; [|split; [|by split_and!; try left]].
    + split_and!; try done; cbn; lia.
    + unfold moved, finished, fin_kept, kept. cbn. rewrite slice_nil, H6, !app_nil_r. cbn. split_and!; try done; lia.
Qed.

(** The state and the position go together. *)
Definition st_ok (N : Z) (p : trcv) : Prop :=
  ESTABLISHED ≤ rc_state p ≤ TIME_WAIT ∧ (rc_state p < CLOSE_WAIT ∧ N ≤ len ∨ CLOSE_WAIT ≤ rc_state p ∧ N = len + 1).

Lemma receive_data_none mem ack tcplen g p : CLOSE_WAIT ≤ rc_state p ∨ tcplen ≤ 0 →
  ∃ f, tcp_receive_data mem ack tcplen g p = Some (rc_set_flags f p, no_data).
Proof.
  intros H. unfold tcp_receive_data. assert ((0 <? tcplen) && (rc_state p <? CLOSE_WAIT) = false) as -> by lia.
  destruct (negb _); [by eexists|].
  exists (rc_flags p). by destruct p.
Qed.

Lemma rinv_time_wait N E p : rinv N E p → rinv N E (to_time_wait p).
Proof. intros [Hw _]. split; [done|]. by exists []. Qed.

Lemma process_receives mem ack N E p c :
  rinv N E p → st_ok N p → conform N E c →
  ∃ N' E' p' r, tcp_receive_data mem ack (TCP_TCPLEN c) c p = Some (p', r) ∧ N ≤ N' ∧ E ≤ E' ∧ rinv N' E' p' ∧
    recv_data r = slice N N' ∧ N' ≤ len + 1 ∧ got_fin r = (N <=? len) && (len <? N') ∧ rcv_wnd p' = rcv_wnd p - (N' - N) ∧
    (rc_state p' = rc_state p ∨ (rc_state p = ESTABLISHED ∧ rc_state p' = CLOSE_WAIT ∧ got_fin r = true)) ∧
    (TCP_TCPLEN c ≤ 0 → N' = N) ∧ ∀ o, seg_at o c → N - 2 ^ 30 ≤ o ≤ N → o + TCP_TCPLEN c ≤ N'.
Proof.
  intros Hi [Hs1 [[Hs2 HN]|[Hs2 HN]]] Hc.
  - destruct (tcp_receive_data_spec S irs mem ack N E p c Hi Hs2 HN Hc) as (N' & E' & p' & r & Heq & H1 & H2 & H3 & (H4 & H5 & H6 & H7 & H8) & H9).
    exists N', E', p', r. rewrite (proj2 (Z.leb_le _ _) HN). split_and!; try done. intros H0.
    destruct (receive_data_none mem ack (TCP_TCPLEN c) c p (or_intror H0)) as [f Hf]. rewrite Hf in Heq. injection Heq as <- <-. cbn in H7. lia.
  - destruct (receive_data_none mem ack (TCP_TCPLEN c) c p (or_introl Hs2)) as [f ->]. exists N, E. eexists _, _. split; [done|].
    rewrite (proj2 (Z.leb_gt N len)), slice_nil by lia. cbn. split_and!; try done; try lia.
    intros o Ho _. pose proof (seg_end _ _ _ _ Ho). lia.
Qed.

(** Whatever the options are, the segment size stays within its bounds. *)
Lemma parseopt_bounds n opts mss : 0 ≤ mss < 2 ^ 16 → 0 ≤ parseopt_loop n opts mss < 2 ^ 16.
Proof.
  revert opts mss. induction n as [|n IH]; intros opts mss Hm; [done|]. destruct opts as [|opt rest]; [done|]. cbn [parseopt_loop].
  destruct (opt =? 0); [done|]. destruct (opt =? 1); [by apply IH|]. destruct (opt =? 2).
  - destruct rest as [|l [|hi [|lo rest]]]; try done. destruct (l =? 4); [|done]. apply IH. set (new := u16 _).
    assert (0 ≤ new < 2 ^ 16) by (apply Z.mod_pos_bound; lia). destruct (_ || _); lia.
  - destruct rest as [|data rest]; [done|]. destruct (data <? 2); [done|]. by apply IH.
Qed.

(** A segment of the stream is processed, and no assertion fails. *)
Lemma process_state_spec mem ack aa N E p g :
  rinv N E p → st_ok N p → rc_state p ≠ TIME_WAIT → conform N E g →
  ∃ N' E' pr p' r, tcp_process_state mem ack aa (TCP_TCPLEN g) g p = Some (pr, p', r) ∧ N ≤ N' ∧ E ≤ E' ∧ rinv N' E' p' ∧
    st_ok N' p' ∧ recv_data r = slice N N' ∧ got_fin r = (N <=? len) && (len <? N') ∧ rcv_wnd p' = rcv_wnd p - (N' - N) ∧
    (pr ≠ PrGoes ∨ TCP_TCPLEN g ≤ 0 → N' = N) ∧ ∀ o, seg_at o g → N - 2 ^ 30 ≤ o ≤ N → o + TCP_TCPLEN g ≤ N'.
Proof.
  intros Hi Hst Htw Hg. unfold tcp_process_state.
  destruct (process_receives mem ack N E p g Hi Hst Hg) as (N' & E' & p' & r & -> & H1 & H2 & H3 & H4 & H5 & H6 & H7 & H8 & H0 & H9).
  destruct Hst as [Hs1 Hs2].
  assert (∀ p2, rinv N' E' p2 → st_ok N' p2 → rcv_wnd p2 = rcv_wnd p' → ∀ pr, (pr ≠ PrGoes → N' = N) →
    ∃ N'0 E'0 pr' p'0 r0, Some (pr, p2, r) = Some (pr', p'0, r0) ∧ N ≤ N'0 ∧ E ≤ E'0 ∧ rinv N'0 E'0 p'0 ∧
    st_ok N'0 p'0 ∧ recv_data r0 = slice N N'0 ∧ got_fin r0 = (N <=? len) && (len <? N'0) ∧ rcv_wnd p'0 = rcv_wnd p - (N'0 - N) ∧
    (pr' ≠ PrGoes ∨ TCP_TCPLEN g ≤ 0 → N'0 = N) ∧ ∀ o, seg_at o g → N - 2 ^ 30 ≤ o ≤ N → o + TCP_TCPLEN g ≤ N'0) as K.
  { intros p2 K1 K2 K3 pr K4. exists N', E'. eexists _, _, _. split; [done|]. split_and!; try done; [congruence|tauto]. }
  unfold ESTABLISHED, CLOSE_WAIT, FIN_WAIT_1, FIN_WAIT_2, CLOSING, LAST_ACK, TIME_WAIT in *.
  assert (got_fin r = true ∧ N ≤ len ∧ N' = len + 1 ∨ got_fin r = false ∧ (N ≤ len → N' ≤ len) ∧ (len < N → N' = N)) as [(Hf & F1 & F2)|(Hf & F1 & F2)].
  { rewrite H6. destruct (Z.leb_spec N len), (Z.ltb_spec len N'); simpl; [left|right..]; split_and!; try done; lia. }
  all: assert (rc_state p' = rc_state p ∨ rc_state p' = 7 ∧ rc_state p = 4 ∧ N' = len + 1) as Hst' by (rewrite Hf in H8; naive_solver lia).
  all: rewrite Hf; repeat case_match; try (exfalso; lia); apply K; try done; try by apply rinv_time_wait.
  all: unfold st_ok, to_time_wait, ESTABLISHED, CLOSE_WAIT, TIME_WAIT; cbn; lia.
Qed.

(** The same for every segment that may arrive; resets and SYNs take nothing. *)
Lemma tcp_process_spec mem ack aa N E p g :
  rinv N E p → st_ok N p → rc_state p ≠ TIME_WAIT → arrives N E g →
  ∃ N' E' pr p' r, tcp_process mem ack aa (TCP_TCPLEN g) g p = Some (pr, p', r) ∧ N ≤ N' ∧ E ≤ E' ∧ rinv N' E' p' ∧
    st_ok N' p' ∧ recv_data r = slice N N' ∧ got_fin r = (N <=? len) && (len <? N') ∧ rcv_wnd p' = rcv_wnd p - (N' - N) ∧
    (pr ≠ PrGoes ∨ TCP_TCPLEN g ≤ 0 → N' = N) ∧
    (has_flag (sg_flags g) TCP_RST = false → ∀ o, seg_at o g → N - 2 ^ 30 ≤ o ≤ N → o + TCP_TCPLEN g ≤ N').
Proof.
  intros Hi Hst Htw Hg.
  assert (∀ f pr (P : Prop), P → ∃ N' E' pr' p' r, Some (pr, rc_set_flags f p, no_data) = Some (pr', p', r) ∧ N ≤ N' ∧ E ≤ E' ∧ rinv N' E' p' ∧
    st_ok N' p' ∧ recv_data r = slice N N' ∧ got_fin r = (N <=? len) && (len <? N') ∧ rcv_wnd p' = rcv_wnd p - (N' - N) ∧
    (pr' ≠ PrGoes ∨ TCP_TCPLEN g ≤ 0 → N' = N) ∧ P) as Hnone.
  { intros f pr P HP. exists N, E. eexists _, _, _. split; [done|]. rewrite slice_nil. split_and!; try done; try (cbn; lia). }
  unfold tcp_process. destruct (has_flag (sg_flags g) TCP_RST) eqn:Hr.
  { assert (rc_set_flags (rc_flags p) p = p) as Hp by by destruct p.
    destruct (sg_seqno g =? rcv_nxt p); [|destruct (TCP_SEQ_BETWEEN _ _ _)].
    - edestruct Hnone as (N' & E' & pr' & p' & r & H & ?); [exact I|]. exists N', E', pr', p', r. naive_solver.
    - edestruct Hnone as (N' & E' & pr' & p' & r & H & ?); [exact I|]. exists N', E', pr', p', r. naive_solver.
    - edestruct (Hnone (rc_flags p) PrGoes) as (N' & E' & pr' & p' & r & H & ?); [exact I|]. rewrite Hp in H. exists N', E', pr', p', r. naive_solver. }
  destruct (has_flag (sg_flags g) TCP_SYN) eqn:Hs.
  { edestruct Hnone as (N' & E' & pr' & p' & r & H & ?); [exact I|]. exists N', E', pr', p', r. split; [exact H|]. split_and!; try naive_solver.
    intros _ o Ho. by destruct Ho as (_ & _ & _ & _ & _ & Ho & _); rewrite Ho in Hs. }
  destruct Hg as [Hg|[Hg|Hg]]; [congruence..|].
  destruct (process_state_spec mem ack aa N E (tcp_parseopt (sg_opts g) p) g) as (N' & E' & pr & p' & r & -> & Hrest); try done.
  - apply rinv_mss; [done|]. apply parseopt_bounds. apply Hi.
  - exists N', E', pr, p', r. split; [done|]. naive_solver.
Qed.

(** ** A segment comes in *)

Lemma tinv_intro N E t : rinv N E (ti_rcv t) → st_ok N (ti_rcv t) → rcv_wnd (ti_rcv t) + fin_kept t ≤ WND_MAX →
  match ti_refused t with Some (data, f) => data ≠ [] ∧ (len <? N) = f | None => True end → tinv N E t.
Proof. intros H1 [[H2 H2'] H3] H4 H5. by split_and!. Qed.

(** New data and a FIN are handed over. *)
Lemma hand_over_spec N E N' E' p t p' r ok :
  tinv N E (mk_tin p t) → N ≤ N' → rinv N' E' p' → st_ok N' p' → recv_data r = slice N N' →
  got_fin r = (N <=? len) && (len <? N') → rcv_wnd p' = rcv_wnd p - (N' - N) → (t = None ∨ N' = N) →
  ∃ t' cs, tcp_input_deliver ok p' t r = (t', cs) ∧ tinv N' E' t' ∧ moved N N' (mk_tin p t) t' cs.
Proof.
  intros Ht HN Hi Hs Hd Hf Hw Hor. unfold tcp_input_deliver. pose proof Ht as (I1 & I2 & I3 & I4 & I5).
  pose proof I1 as [(_ & I6 & _ & I7 & I8 & _) _]. pose proof Hi as [(_ & _ & _ & J7 & J8 & _) _]. pose proof Hs as [J1 J2].
  unfold WND_MAX in *. cbn [ti_rcv ti_refused fin_kept] in *.
  destruct (Z.eq_dec N' N) as [->|Hne].
  { rewrite Hd, slice_nil. assert (got_fin r = false) as -> by (rewrite Hf; lia). eexists _, _. split; [done|].
    split; [by apply tinv_intro; cbn; rewrite ?Hw, ?Z.sub_diag, ?Z.sub_0_r|]. apply moved_none; cbn; [lia|done]. }
  destruct Hor as [->|]; [|done]. cbn [fin_kept ti_refused] in I4. assert (N ≤ len) as HNl by lia. clear I5.
  pose proof (length_slice N N' ltac:(lia)) as Hsl. unfold data_of in Hsl.
  rewrite (proj2 (Z.leb_le _ _) HNl), andb_true_l in Hf. destruct (Z.ltb_spec len N') as [Hlt|Hge]; rewrite Hf.
  - assert (N' = len + 1) as -> by lia.
    assert (fin_window p' = rc_set_wnd (rcv_wnd p' + 1) p') as Hfw.
    { unfold fin_window, WND_MAX. destruct (Z.eqb_spec (rcv_wnd p') (8 * 8191)); [lia|]. rewrite u16_small; [done|]. lia. }
    assert (∀ cs, accepted cs = slice N (len + 1) → closes cs = 0%nat →
      tinv (len + 1) E' (mk_tin (fin_window p') None) ∧ moved N (len + 1) (mk_tin p None) (mk_tin (fin_window p') None) (cs ++ [TcClosed])) as K.
    { intros cs Ha Hc. rewrite Hfw. split.
      - apply tinv_intro; cbn; try done; [|unfold WND_MAX; lia]. destruct Hi as [(W1 & W2 & W3 & W4 & W5 & W6) Ho]. split; [|done].
        unfold WND_MAX in *. split_and!; try done; cbn; unfold WND_MAX; lia.
      - unfold moved, finished, data_of, kept, fin_kept. cbn. rewrite accepted_app, closes_app, Ha, Hc, !app_nil_r.
        rewrite (proj2 (Z.ltb_ge len N) HNl), (proj2 (Z.ltb_lt len (len + 1))) by lia. split_and!; try done; lia. }
    destruct (recv_data r) as [|x d] eqn:Hrd.
    + eexists _, _. split; [done|]. apply (K []); done.
    + destruct ok.
      * eexists _, _. split; [done|]. apply (K [TcRecv (x :: d) true]); [|done]. cbn. by rewrite app_nil_r.
      * eexists _, _. split; [done|]. split.
        { apply tinv_intro; cbn; try done; [unfold WND_MAX; lia|]. split; [done|]. apply Z.ltb_lt. lia. }
        unfold moved, finished, data_of, kept, fin_kept. cbn. rewrite Hd. rewrite !andb_false_r.
        rewrite (proj2 (Z.ltb_ge len N) HNl). cbn. split_and!; try done; lia.
  - destruct (recv_data r) as [|x d] eqn:Hrd; [rewrite <-Hd in Hsl; cbn in Hsl; lia|]. exists (mk_tin p' (if ok then None else Some (x :: d, false))), [TcRecv (x :: d) ok]. split; [done|].
    split; destruct ok; unfold moved, finished, data_of, kept, fin_kept; try apply tinv_intro; cbn; try done; try (unfold WND_MAX; lia).
    + split; [done|]. apply Z.ltb_ge. lia.
    + rewrite (proj2 (Z.ltb_ge len N) HNl), (proj2 (Z.ltb_ge len N') Hge), !app_nil_r, <-Hd. split_and!; try done; lia.
    + rewrite (proj2 (Z.ltb_ge len N) HNl), (proj2 (Z.ltb_ge len N') Hge), <-Hd. split_and!; try done; lia.
Qed.

Lemma moved_event N t t' c : moved N N t t' [] → taken c = [] → c ≠ TcClosed → moved N N t t' [c].
Proof.
  intros (H1 & H2 & H3) Hc Hn. unfold moved. split_and!; [by rewrite <-H1; cbn; rewrite Hc|done|].
  rewrite <-H3. unfold closes. cbn. by rewrite decide_False.
Qed.

Lemma timewait_flags tcplen g p : ∃ f, tcp_timewait_input tcplen g p = rc_set_flags f p.
Proof.
  unfold tcp_timewait_input. assert (rc_set_flags (rc_flags p) p = p) as <- by by destruct p.
  repeat case_match; by eexists.
Qed.

(** The connection enters TIME_WAIT while data is refused: the data is dropped. *)
Definition lost (N N' : Z) (t t' : tin) (cs : list tcallback) : Prop :=
  ti_refused t ≠ None ∧ N' = N ∧ rc_state (ti_rcv t') = TIME_WAIT ∧ ti_refused t' = None ∧
  rcv_wnd (ti_rcv t') = rcv_wnd (ti_rcv t) ∧ accepted cs = [] ∧ closes cs = 0%nat.

(** Every segment that may arrive is taken in, and what the application gets is the
    next part of the stream; a segment that starts at or before the next byte is
    taken whole, unless the application still refuses data. *)
Lemma tcp_input_spec mem ack aa ok1 ok2 N E t g :
  tinv N E t → arrives N E g →
  ∃ N' E' t' cs, tcp_input mem ack aa ok1 ok2 g t = Some (t', cs) ∧ N ≤ N' ∧ E ≤ E' ∧ tinv N' E' t' ∧
    (moved N N' t t' cs ∨ lost N N' t t' cs ∧ ok1 = false) ∧
    (has_flag (sg_flags g) TCP_RST = false → ti_refused t = None ∨ ok1 = true → conform N E g →
     ∀ o, seg_at o g → N - 2 ^ 30 ≤ o ≤ N → o + TCP_TCPLEN g ≤ N').
Proof.
  intros Ht Hg. unfold tcp_input. fold (TCP_TCPLEN g). pose proof (proj1 (proj1 Ht)) as (_ & HN & _).
  destruct (Z.ltb_spec 65535 (TCP_TCPLEN g)) as [Hbig|Hsm].
  { exists N, E, t, []. split; [done|]. split_and!; try done; [left; by apply moved_none|]. intros _ _ (? & _ & _ & _ & ?). lia. }
  destruct (Z.eqb_spec (rc_state (ti_rcv t)) TIME_WAIT) as [Htw|Htw].
  { destruct (timewait_flags (TCP_TCPLEN g) g (ti_rcv t)) as [f ->].
    exists N, E. eexists _, _. split; [done|]. split_and!; try done; [left; by apply moved_none|].
    intros _ _ _ o Ho _. pose proof (seg_end _ _ _ _ Ho). destruct Ht as (_ & _ & I3 & _). unfold CLOSE_WAIT, TIME_WAIT in *. lia. }
  destruct (refused_spec N E t ok1 Ht) as (t1 & cb1 & -> & Ht1 & Hm1 & Hst1 & Hok & Hor).
  destruct ((match ti_refused t1 with Some _ => true | None => false end) && (0 <? TCP_TCPLEN g)) eqn:Hdrop.
  { destruct (ti_refused t1) as [d|] eqn:Hr1; [|done].
    assert (∃ E' p', (if rcv_ann_wnd (ti_rcv t1) =? 0 then tcp_send_empty_ack ack (ti_rcv t1) else ti_rcv t1) = p' ∧ E ≤ E' ∧
      rinv N E' p' ∧ rcv_wnd p' = rcv_wnd (ti_rcv t1) ∧ rc_state p' = rc_state (ti_rcv t1)) as (E' & p' & -> & HE & Hp & Hw & Hs).
    { destruct (rcv_ann_wnd _ =? 0); [|by exists E, (ti_rcv t1); split_and!; try done; apply Ht1].
      destruct (rinv_send_ack S irs N E _ ack (proj1 Ht1)) as (E' & H1 & H2 & H3 & H4). by eexists E', _. }
    exists N, E'. eexists _, _. split; [done|]. split_and!; try done.
    - destruct Ht1 as (_ & I2 & I3 & I4 & I5). unfold fin_kept in I4. rewrite Hr1 in I4, I5. apply tinv_intro; cbn; try done; [|lia].
      by split; rewrite Hs.
    - left. rewrite <-(app_nil_r cb1). eapply moved_trans; [..|exact Hm1|]; try lia. by apply moved_none.
    - intros _ Hc. exfalso. destruct Hc as [Hc|Hc]; [|specialize (Hok Hc); congruence]. destruct Hor as [Hor|Hor]; congruence. }
  destruct (tcp_process_spec mem ack aa N E (ti_rcv t1) g (proj1 Ht1)) as
    (N' & E' & pr & p' & r & -> & H1 & H2 & H3 & H4 & H5 & H6 & H7 & H8 & H9); [split; apply Ht1|by rewrite Hst1|done|].
  assert (∀ c, pr ≠ PrGoes → taken c = [] → c ≠ TcClosed → tinv N' E' (mk_tin p' (ti_refused t1)) ∧ moved N N' t (mk_tin p' (ti_refused t1)) (cb1 ++ [c])) as Hend.
  { intros c Hpr Hc1 Hc2. rewrite (H8 (or_introl Hpr)) in *. assert (rcv_wnd p' = rcv_wnd (ti_rcv t1)) as Hw by lia. split.
    - destruct Ht1 as (_ & I2 & I3 & I4 & I5). unfold fin_kept in I4. apply tinv_intro; cbn; try done. unfold fin_kept. cbn. lia.
    - eapply moved_trans; [..|exact Hm1|]; try lia. apply moved_event; [|done..]. by apply moved_none. }
  destruct pr.
  - exists N', E'. eexists _, _. split; [done|]. split_and!; try done; [by apply (Hend TcReset)|left; by apply (Hend TcReset)|auto].
  - exists N', E'. eexists _, _. split; [done|]. split_and!; try done; [by apply (Hend TcEnded)|left; by apply (Hend TcEnded)|auto].
  - destruct t1 as [p1 re1]. cbn [ti_rcv ti_refused] in *.
    assert (re1 = None ∨ N' = N) as Hre.
    { destruct re1 as [d|]; [right|by left]. apply H8. right. by destruct (Z.ltb_spec 0 (TCP_TCPLEN g)). }
    destruct (decide (re1 ≠ None ∧ rc_state p' = TIME_WAIT)) as [[Hn Htw']|Hno].
    + destruct Hre as [Hre| ->]; [done|]. rewrite (proj2 (Z.eqb_eq _ _) Htw'). unfold tcp_input_deliver.
      rewrite H5, slice_nil. assert (got_fin r = false) as -> by (rewrite H6; lia). exists N, E'. eexists _, _. split; [done|].
      assert (t = mk_tin p1 re1) as -> by (destruct Hor as [Hor|Hor]; [done|by rewrite Hor]).
      destruct Hm1 as (M1 & _ & M3). rewrite slice_nil, app_nil_r in M1. rewrite app_nil_r.
      assert (accepted cb1 = []) as Ha. { apply (f_equal length) in M1. rewrite length_app in M1. destruct (accepted cb1); [done|simpl in M1; lia]. }
      split_and!; try done; [|right; split; [split_and!; try done; cbn; lia|by destruct ok1; [rewrite Hok in Hn|]]|].
      * apply tinv_intro; try done. cbn. destruct H3 as [(_ & _ & _ & _ & W5 & _) _]. lia.
      * intros Hr' Hc _ o Ho Hb. by apply H9.
    + assert ((if rc_state p' =? TIME_WAIT then None else re1) = re1) as ->.
      { destruct (Z.eqb_spec (rc_state p') TIME_WAIT); [|done]. destruct re1; [|done]. exfalso. by apply Hno. }
      destruct (hand_over_spec N E N' E' p1 re1 p' r ok2 Ht1 H1 H3 H4 H5 H6 H7 Hre) as (t' & cs & -> & Ht' & Hm').
      exists N', E', t', (cb1 ++ cs). split; [done|]. split_and!; try done; [|auto]. left. eapply moved_trans; [..|exact Hm1|exact Hm']; lia.
Qed.

(** ** What the application does *)

(** The application has read [n] bytes: the window opens by as many. *)
Lemma tcp_recved_spec N E t n : tinv N E t → 0 ≤ n → rcv_wnd (ti_rcv t) + fin_kept t + n ≤ WND_MAX →
  ∃ b p', tcp_recved n (ti_rcv t) = Some (b, p') ∧ tinv N E (mk_tin p' (ti_refused t)) ∧
    rcv_wnd p' = rcv_wnd (ti_rcv t) + n ∧ rc_state p' = rc_state (ti_rcv t).
Proof.
  intros (H1 & H2 & H3 & H4 & H5) Hn Hw. pose proof H1 as [(W1 & W2 & W3 & W4 & W5 & W6) Ho]. unfold tcp_recved.
  assert (0 ≤ fin_kept t) by (unfold fin_kept; repeat case_match; lia). unfold WND_MAX in *.
  rewrite u16_small by lia. assert ((8 * 8191 <? rcv_wnd (ti_rcv t) + n) || (rcv_wnd (ti_rcv t) + n <? rcv_wnd (ti_rcv t)) = false) as -> by lia.
  destruct (update_ann_spec irs N E (rc_set_wnd (rcv_wnd (ti_rcv t) + n) (ti_rcv t))) as (k & A & -> & HA);
    [cbn; unfold WND_MAX; first [done|lia]..|].
  assert (∀ f, tinv N E (mk_tin (rc_set_flags f (rc_set_ann_wnd A (rc_set_wnd (rcv_wnd (ti_rcv t) + n) (ti_rcv t)))) (ti_refused t))) as K.
  { intros f. apply tinv_intro; cbn; try done. unfold WND_MAX, fin_kept in *. cbn. lia. }
  destruct (_ <=? k); (eexists _, _; split; [done|]; split; [|done]); [apply K|apply (K (rc_flags (ti_rcv t)))].
Qed.

Lemma send_ack_spec N E t ack : tinv N E t → ∃ E', E ≤ E' ∧ tinv N E' (mk_tin (tcp_send_empty_ack ack (ti_rcv t)) (ti_refused t)) ∧
  moved N N t (mk_tin (tcp_send_empty_ack ack (ti_rcv t)) (ti_refused t)) [].
Proof.
  intros (H1 & H2 & H3 & H4 & H5). destruct (rinv_send_ack S irs N E _ ack H1) as (E' & A1 & A2 & A3 & A4). exists E'.
  split; [done|]. split; [|by apply moved_none]. apply tinv_intro; cbn; try done; [by split; rewrite A4|].
  unfold fin_kept in *. cbn. lia.
Qed.

Lemma shutdown_spec N E t ok : tinv N E t → tinv N E (mk_tin (tcp_close_shutdown_fin ok (ti_rcv t)) (ti_refused t)) ∧
  moved N N t (mk_tin (tcp_close_shutdown_fin ok (ti_rcv t)) (ti_refused t)) [].
Proof.
  intros (H1 & H2 & H3 & H4 & H5). unfold ESTABLISHED, CLOSE_WAIT, TIME_WAIT in *.
  assert (∃ s, tcp_close_shutdown_fin ok (ti_rcv t) = rc_set_state s (ti_rcv t) ∧ 4 ≤ s ≤ 10 ∧ (s < 7 ↔ rc_state (ti_rcv t) < 7)) as (s & -> & Hs1 & Hs2).
  { unfold tcp_close_shutdown_fin, ESTABLISHED, CLOSE_WAIT, SYN_RCVD, FIN_WAIT_1, LAST_ACK.
    assert (rc_set_state (rc_state (ti_rcv t)) (ti_rcv t) = ti_rcv t) as He by by destruct (ti_rcv t).
    clear H5. repeat case_match; [exists 5|exists 9|exists (rc_state (ti_rcv t))..]; split_and!; try done; lia. }
  split; [|by apply moved_none]. apply tinv_intro; try done. unfold st_ok, ESTABLISHED, CLOSE_WAIT, TIME_WAIT. cbn. lia.
Qed.
End run.
