(* ===== verification/TcpStream.v ===== *)
(** * Receiving TCP segments: connections

    A connection from its handshake on: segments of the peer in any order, timers,
    acknowledgements, and an application that takes or refuses data and reads what it
    took. *)

From S2P Require Import Prelude CString TcpIn TcpInProps TcpInRun.

(** A connection after its handshake, with the first sequence number of the peer. *)
Definition tcp_fresh (irs mss : Z) : tin :=
  mk_tin (mk_rcv ESTABLISHED 0 mss (u32 irs) WND_MAX WND_MAX (u32 (irs + WND_MAX)) []) None.

(** Where the stream is after a step, and up to where the peer may send. *)
Definition tcp_pos (N : Z) (t t' : tin) : Z := N + u32 (rcv_nxt (ti_rcv t') - rcv_nxt (ti_rcv t)).
Definition tcp_edge (N : Z) (t : tin) : Z := N + u32 (rcv_ann_right_edge (ti_rcv t) - rcv_nxt (ti_rcv t)).

(** lwIP has not given the connection up. *)
Definition conn_open (log : list tcallback) : Prop := TcReset ∉ log ∧ TcEnded ∉ log.

Section stream.
Context (S : list Z) (irs mss : Z).

Notation len := (Z.of_nat (length S)).
Notation slice := (slice S).
Notation tinv := (tinv S irs).
Notation moved := (moved S).

(** [N] positions of the stream are taken, [log] are the calls of the application so
    far, which has read [R] bytes. *)
Inductive tcp_conn : Z → tin → list tcallback → Z → Prop :=
  | conn_start : tcp_conn 0 (tcp_fresh irs mss) [] 0
  | conn_seg N t log R mem ack aa ok1 ok2 g t' cs :
      tcp_conn N t log R → conn_open log → arrives S irs N (tcp_edge N t) g →
      tcp_input mem ack aa ok1 ok2 g t = Some (t', cs) → tcp_conn (tcp_pos N t t') t' (log ++ cs) R
  | conn_timer N t log R ok t' cs :
      tcp_conn N t log R → rc_state (ti_rcv t) ≠ TIME_WAIT → tcp_process_refused_data ok t = (t', cs) → tcp_conn N t' (log ++ cs) R
  | conn_read N t log R n b p' :
      tcp_conn N t log R → 0 ≤ n → R + n ≤ Z.of_nat (length (accepted log)) → tcp_recved n (ti_rcv t) = Some (b, p') →
      tcp_conn N (mk_tin p' (ti_refused t)) log (R + n)
  | conn_ack N t log R ack :
      tcp_conn N t log R → tcp_conn N (mk_tin (tcp_send_empty_ack ack (ti_rcv t)) (ti_refused t)) log R
  | conn_shut N t log R ok :
      tcp_conn N t log R → tcp_conn N (mk_tin (tcp_close_shutdown_fin ok (ti_rcv t)) (ti_refused t)) log R.

Definition conn_inv (N : Z) (t : tin) (log : list tcallback) (R : Z) : Prop :=
  tinv N (tcp_edge N t) t ∧ accepted log ++ kept t = slice 0 N ∧
  rcv_wnd (ti_rcv t) + fin_kept t + data_of S N - R = WND_MAX ∧
  closes log = (if finished S N t then 1 else 0)%nat ∧ 0 ≤ R ≤ Z.of_nat (length (accepted log)).

(** The position and the edge can be read off the sequence numbers. *)
Lemma edge_eq N E t : tinv N E t → tcp_edge N t = E.
Proof.
  intros [[(W1 & W2 & W3 & W4 & W5 & _) _] _]. unfold tcp_edge. rewrite W1, W3, u32_sub_l, u32_sub_r.
  replace (irs + E - (irs + N)) with (E - N) by lia. rewrite u32_small by (unfold WND_MAX in *; lia). lia.
Qed.

Lemma pos_eq N E N' E' t t' cs : tinv N E t → tinv N' E' t' → N ≤ N' → moved N N' t t' cs → tcp_pos N t t' = N'.
Proof.
  intros ([(W1 & W2 & _ & W4 & W5 & _) _] & _ & W7 & W8 & _) ([(V1 & V2 & _ & V4 & V5 & _) _] & _ & V7 & V8 & _) HN (_ & Hm & _).
  unfold tcp_pos. rewrite W1, V1, u32_sub_l, u32_sub_r. replace (irs + N' - (irs + N)) with (N' - N) by lia.
  assert (0 ≤ fin_kept t') by (unfold fin_kept; repeat case_match; lia). unfold data_of, WND_MAX in *.
  rewrite u32_small by lia. lia.
Qed.

(** A step that takes a part of the stream keeps the invariant. *)
Lemma conn_inv_moved N t log R N' E' t' cs :
  conn_inv N t log R → N ≤ N' → tinv N' E' t' → moved N N' t t' cs → conn_inv N' t' (log ++ cs) R ∧ tcp_pos N t t' = N'.
Proof.
  intros (I1 & I2 & I3 & I4 & I5) HN Ht (M1 & M2 & M3). pose proof (proj1 (proj1 I1)) as (_ & HN0 & _).
  split; [|by eapply pos_eq]. split_and!.
  - by rewrite (edge_eq N' E' t' Ht).
  - rewrite accepted_app, <-app_assoc, M1, app_assoc, I2. apply slice_app; lia.
  - lia.
  - rewrite closes_app, I4. lia.
  - lia.
  - rewrite accepted_app, length_app. lia.
Qed.

Lemma conn_inv_same N t log R E' t' : conn_inv N t log R → tinv N E' t' → moved N N t t' [] → conn_inv N t' log R.
Proof. intros Hi Ht Hm. rewrite <-(app_nil_r log). by apply (conn_inv_moved N t log R N E' t' []). Qed.

Lemma conn_room N t log R n : conn_inv N t log R → R + n ≤ Z.of_nat (length (accepted log)) →
  rcv_wnd (ti_rcv t) + fin_kept t + n ≤ WND_MAX.
Proof.
  intros (I1 & I2 & I3 & _) Hn. pose proof (proj1 (proj1 I1)) as (_ & HN0 & _).
  apply (f_equal (λ l, Z.of_nat (length l))) in I2. rewrite length_app, length_slice in I2 by lia. unfold data_of in *. lia.
Qed.

Lemma conn_inv_read N t log R n b p' :
  conn_inv N t log R → 0 ≤ n → R + n ≤ Z.of_nat (length (accepted log)) → tcp_recved n (ti_rcv t) = Some (b, p') →
  conn_inv N (mk_tin p' (ti_refused t)) log (R + n).
Proof.
  intros Hi Hn Hr He. pose proof (conn_room _ _ _ _ _ Hi Hr) as Hw. destruct Hi as (I1 & I2 & I3 & I4 & I5).
  destruct (tcp_recved_spec S irs N _ t n I1 Hn Hw) as (b' & q & Heq & Ht & Hwnd & _). rewrite Heq in He. injection He as <- <-.
  split_and!; try done; [by rewrite (edge_eq _ _ _ Ht)|cbn [ti_rcv]; unfold fin_kept in *; cbn [ti_refused]; lia|lia].
Qed.

Lemma conn_inv_start : 0 ≤ mss < 2 ^ 16 → conn_inv 0 (tcp_fresh irs mss) [] 0.
Proof.
  intros Hm. assert (tinv 0 WND_MAX (tcp_fresh irs mss)) as Ht.
  { apply tinv_intro; cbn; try done; [|unfold st_ok, ESTABLISHED, CLOSE_WAIT, TIME_WAIT; cbn; unfold ESTABLISHED; lia]. split; [|by exists []]. unfold WND_MAX.
    split_and!; cbn; try done; try lia; f_equal; lia. }
  split_and!; try done; [by rewrite (edge_eq _ _ _ Ht)|..].
  - cbn. unfold data_of. lia.
  - unfold finished. rewrite (proj2 (Z.ltb_ge len 0)) by lia. done.
Qed.

(** Data that was refused has been dropped: the application has only a part. *)
Definition conn_lost (N : Z) (t : tin) (log : list tcallback) (R : Z) : Prop :=
  tinv N (tcp_edge N t) t ∧ rc_state (ti_rcv t) = TIME_WAIT ∧ ti_refused t = None ∧
  accepted log `prefix_of` slice 0 N ∧ rcv_wnd (ti_rcv t) + data_of S N - R ≤ WND_MAX ∧
  closes log = 0%nat ∧ 0 ≤ R ≤ Z.of_nat (length (accepted log)).

Lemma conn_inv_lost N t log R N' E' t' cs :
  conn_inv N t log R → tinv N' E' t' → lost N N' t t' cs → conn_lost N' t' (log ++ cs) R ∧ tcp_pos N t t' = N'.
Proof.
  intros (I1 & I2 & I3 & I4 & I5) Ht (L1 & -> & L3 & L4 & L5 & L6 & L7). unfold conn_lost.
  rewrite (edge_eq _ _ _ Ht), accepted_app, closes_app, L6, L7, I4, L5, app_nil_r, <-I2.
  assert (0 ≤ fin_kept t) by (unfold fin_kept; repeat case_match; lia). split.
  - split_and!; try done; try lia; [by apply prefix_app_r|]. unfold finished. destruct (ti_refused t); [|done]. by rewrite andb_false_r.
  - unfold tcp_pos. rewrite (proj1 (proj1 (proj1 Ht))), (proj1 (proj1 (proj1 I1))), Z.sub_diag. apply Z.add_0_r.
Qed.

Lemma conn_lost_room N t log R n : conn_lost N t log R → R + n ≤ Z.of_nat (length (accepted log)) →
  rcv_wnd (ti_rcv t) + fin_kept t + n ≤ WND_MAX.
Proof.
  intros (I1 & _ & I3 & I4 & I5 & _) Hn. pose proof (proj1 (proj1 I1)) as (_ & HN0 & _). apply prefix_length in I4.
  apply inj_le in I4. rewrite length_slice in I4 by lia. unfold data_of, fin_kept in *. rewrite I3. lia.
Qed.

(** Nothing happens to the connection any more but acknowledgements. *)
Lemma conn_lost_same N t log R p' E' :
  conn_lost N t log R → tinv N E' (mk_tin p' (ti_refused t)) → rc_state p' = TIME_WAIT → rcv_wnd p' = rcv_wnd (ti_rcv t) →
  conn_lost N (mk_tin p' (ti_refused t)) log R.
Proof.
  intros (I1 & I2 & I3 & I4 & I5 & I6 & I7 & I8) Ht Hs Hw. unfold conn_lost. rewrite (edge_eq _ _ _ Ht). cbn. rewrite Hw. by split_and!.
Qed.

Lemma conn_lost_seg N t log R mem ack aa ok1 ok2 g t' cs :
  conn_lost N t log R → tcp_input mem ack aa ok1 ok2 g t = Some (t', cs) → conn_lost (tcp_pos N t t') t' (log ++ cs) R.
Proof.
  intros Hl He. pose proof Hl as (I1 & I2 & I3 & _).
  assert (cs = [] ∧ ∃ f, t' = mk_tin (rc_set_flags f (ti_rcv t)) (ti_refused t)) as (-> & f & ->).
  { unfold tcp_input in He. destruct (65535 <? _); [injection He as <- <-; split; [done|]; exists (rc_flags (ti_rcv t)); by destruct t as [[] ?]|].
    rewrite (proj2 (Z.eqb_eq _ _) I2) in He. destruct (timewait_flags (TCP_TCPLEN g) g (ti_rcv t)) as [f Hf]. fold (TCP_TCPLEN g) in He.
    rewrite Hf in He. injection He as <- <-. split; [done|]. by exists f. }
  unfold tcp_pos. cbn. rewrite Z.sub_diag, app_nil_r. change (u32 0) with 0. rewrite Z.add_0_r. by apply (conn_lost_same _ _ _ _ _ (tcp_edge N t)).
Qed.

Lemma conn_inv_run N t log R : 0 ≤ mss < 2 ^ 16 → tcp_conn N t log R →
  conn_inv N t log R ∨ conn_lost N t log R.
Proof.
  intros Hm. induction 1 as [|N t log R mem ack aa ok1 ok2 g t' cs _ IH _ Hg He|N t log R ok t' cs _ IH Hs He|
    N t log R n b p' _ IH Hn Hr He|N t log R ack _ IH|N t log R ok _ IH].
  - left. by apply conn_inv_start.
  - destruct IH as [IH|IH]; [|right; by eapply conn_lost_seg].
    destruct (tcp_input_spec S irs mem ack aa ok1 ok2 N _ t g (proj1 IH) Hg) as (N' & E' & t1 & cs1 & He' & HN & _ & Ht & Hmv & _).
    rewrite He in He'. injection He' as <- <-. destruct Hmv as [Hmv|[Hmv _]].
    + left. by destruct (conn_inv_moved _ _ _ _ _ _ _ _ IH HN Ht Hmv) as [? ->].
    + right. by destruct (conn_inv_lost _ _ _ _ _ _ _ _ IH Ht Hmv) as [? ->].
  - destruct IH as [IH|IH]; [left|by destruct IH as (_ & ? & _)]. destruct (refused_spec S irs N _ t ok (proj1 IH)) as (t1 & cs1 & He' & Ht & Hmv & _).
    rewrite He in He'. injection He' as <- <-. by apply (conn_inv_moved _ _ _ _ _ _ _ _ IH (Z.le_refl N) Ht Hmv).
  - destruct IH as [IH|IH]; [left; by eapply conn_inv_read|right]. pose proof (conn_lost_room _ _ _ _ _ IH Hr) as Hw.
    pose proof IH as (I1 & I2 & I3 & I4 & I5 & I6 & I7).
    destruct (tcp_recved_spec S irs N _ t n I1 Hn Hw) as (b' & q & Heq & Ht & Hwnd & Hst). rewrite Heq in He. injection He as <- <-.
    unfold conn_lost. rewrite (edge_eq _ _ _ Ht). cbn. rewrite Hst. split_and!; try done; lia.
  - destruct IH as [IH|IH].
    + left. destruct (send_ack_spec S irs N _ t ack (proj1 IH)) as (E' & _ & Ht & Hmv). by eapply conn_inv_same.
    + right. destruct (send_ack_spec S irs N _ t ack (proj1 IH)) as (E' & _ & Ht & Hmv).
      eapply conn_lost_same; [done|exact Ht|by destruct ack; apply IH|by destruct ack].
  - destruct IH as [IH|IH].
    + left. destruct (shutdown_spec S irs N _ t ok (proj1 IH)) as (Ht & Hmv). by eapply conn_inv_same.
    + right. destruct (shutdown_spec S irs N _ t ok (proj1 IH)) as (Ht & Hmv). pose proof IH as (_ & I2 & _).
      assert (tcp_close_shutdown_fin ok (ti_rcv t) = ti_rcv t) as Hsame by (unfold tcp_close_shutdown_fin; rewrite I2; by destruct ok).
      rewrite Hsame in *. by eapply conn_lost_same.
Qed.

(** What the application has when the whole stream is taken. *)
Lemma slice_all N : len ≤ N → slice 0 N = S.
Proof. intros H. unfold slice. rewrite Z.sub_0_r, drop_0. apply take_ge. lia. Qed.

Lemma slice_prefix N : slice 0 N `prefix_of` S.
Proof. exists (drop (Z.to_nat N) S). unfold slice. rewrite Z.sub_0_r, drop_0. by rewrite take_drop. Qed.

Lemma closes_elem log : (0 < closes log)%nat ↔ TcClosed ∈ log.
Proof.
  unfold closes. split.
  - intros H. destruct (filter (λ c, c = TcClosed) log) as [|c l] eqn:Hf; [simpl in H; lia|].
    assert (c ∈ filter (λ c, c = TcClosed) log) as [-> Hc]%list_elem_of_filter by (rewrite Hf; left). done.
  - intros H. assert (TcClosed ∈ filter (λ c, c = TcClosed) log) as Hc by by apply list_elem_of_filter.
    destruct (filter _ log); [by apply not_elem_of_nil in Hc|simpl; lia].
Qed.

(** C6: the application gets the stream of the peer, the bytes in order and each of
    them once, whatever the order in which the segments arrive, however they are cut,
    repeated or lost, and whatever data the application refuses for a while; the end of
    the stream is announced once, and only after all of its bytes.  Until the connection
    waits in TIME_WAIT the end is announced as soon as it has arrived and no data is
    refused, and the window is what the application has not read.  No assertion fails:
    every segment of the stream inside the window that was announced is taken in, a
    segment that starts at or before the next byte is taken whole unless the application
    still refuses data, and all that the application takes can be read. *)
Theorem tcp_delivers_stream N t log R :
  0 ≤ mss < 2 ^ 16 → tcp_conn N t log R →
  (accepted log ++ kept t) `prefix_of` S ∧
  (closes log ≤ 1)%nat ∧ (TcClosed ∈ log → accepted log = S) ∧
  (rc_state (ti_rcv t) ≠ TIME_WAIT →
    (len < N → ti_refused t = None → TcClosed ∈ log) ∧
    rcv_wnd (ti_rcv t) = WND_MAX - fin_kept t - (Z.of_nat (length (accepted log ++ kept t)) - R)) ∧
  (∀ mem ack aa ok1 ok2 g, arrives S irs N (tcp_edge N t) g → ∃ t' cs, tcp_input mem ack aa ok1 ok2 g t = Some (t', cs) ∧
    (rc_state (ti_rcv t) ≠ TIME_WAIT → conform S irs N (tcp_edge N t) g → has_flag (sg_flags g) TCP_RST = false → ok1 = true →
     ∀ o, seg_at S irs o g → N - 2 ^ 30 ≤ o ≤ N →
     accepted (log ++ cs) ++ kept t' = slice 0 (tcp_pos N t t') ∧ o + TCP_TCPLEN g ≤ tcp_pos N t t')) ∧
  (∀ n, 0 ≤ n → R + n ≤ Z.of_nat (length (accepted log)) → is_Some (tcp_recved n (ti_rcv t))).
Proof.
  intros Hm Hc. destruct (conn_inv_run N t log R Hm Hc) as [Hi|Hi].
  - pose proof Hi as (I1 & I2 & I3 & I4 & I5). pose proof (proj1 (proj1 I1)) as (_ & HN0 & _).
    assert (closes log ≤ 1)%nat as Hcl by (rewrite I4; destruct (finished S N t); lia). split_and!; try done.
    + rewrite I2. apply slice_prefix.
    + intros Hin%closes_elem. rewrite I4 in Hin. unfold finished in Hin. destruct (Z.ltb_spec len N) as [Hl|]; [|simpl in Hin; lia].
      unfold kept in I2. destruct (ti_refused t); [simpl in Hin; lia|]. rewrite app_nil_r in I2. rewrite I2. apply slice_all. lia.
    + intros _. split; [|rewrite I2, length_slice by lia; unfold data_of in *; lia].
      intros Hl Hr. apply closes_elem. rewrite I4. unfold finished. rewrite Hr, (proj2 (Z.ltb_lt _ _) Hl). simpl. lia.
    + intros mem ack aa ok1 ok2 g Hg.
      destruct (tcp_input_spec S irs mem ack aa ok1 ok2 N _ t g I1 Hg) as (N' & E' & t' & cs & -> & HN & _ & Ht & Hmv & Hp).
      exists t', cs. split; [done|]. intros _ Hcf Hr -> o Ho Hb. destruct Hmv as [Hmv|[_ ?]]; [|done].
      destruct (conn_inv_moved _ _ _ _ _ _ _ _ Hi HN Ht Hmv) as [(_ & J2 & _) ->]. split; [done|]. by apply Hp; try right.
    + intros n Hn Hr. destruct (tcp_recved_spec S irs N _ t n I1 Hn (conn_room _ _ _ _ _ Hi Hr)) as (b & p' & -> & _). done.
  - pose proof Hi as (I1 & I2 & I3 & I4 & I5 & I6 & I7). split_and!; try done; [|lia|..].
    + unfold kept. rewrite I3, app_nil_r. etrans; [done|]. apply slice_prefix.
    + intros Hin%closes_elem. lia.
    + intros mem ack aa ok1 ok2 g Hg. destruct (tcp_input_spec S irs mem ack aa ok1 ok2 N _ t g I1 Hg) as (N' & E' & t' & cs & -> & _).
      by exists t', cs.
    + intros n Hn Hr. destruct (tcp_recved_spec S irs N _ t n I1 Hn (conn_lost_room _ _ _ _ _ Hi Hr)) as (b & p' & -> & _). done.
Qed.
End stream.

(** ** An example *)

(** Five bytes in two segments, the last one with the FIN first; the sequence numbers
    wrap around, and the application refuses the data at first. *)
Definition ex_stream : list Z := [1; 2; 3; 4; 5].
Definition ex_irs : Z := 2 ^ 32 - 3.
Definition ex_seg (o n f : Z) : tseg := mk_tseg (u32 (ex_irs + o)) n f (take (Z.to_nat n) (drop (Z.to_nat o) ex_stream)) [1; 1].

Definition ex_step (ok2 : bool) (g : tseg) (t : tin) : tin :=
  match tcp_input true AckSent false true ok2 g t with Some (t', _) => t' | None => t end.

Definition ex_conn : tin :=
  ex_step false (ex_seg 0 3 TCP_ACK) (ex_step true (ex_seg 3 2 (Z.lor TCP_ACK TCP_FIN)) (tcp_fresh ex_irs 1460)).

Lemma ex_arrives N E o n f :
  seg_at ex_stream ex_irs o (ex_seg o n f) → N - 2 ^ 30 ≤ o → o + TCP_TCPLEN (ex_seg o n f) ≤ E → TCP_TCPLEN (ex_seg o n f) < 2 ^ 16 →
  arrives ex_stream ex_irs N E (ex_seg o n f).
Proof. intros. right. right. by exists o. Qed.

Lemma tcp_delivers_stream_witness :
  ∃ t, tcp_process_refused_data true ex_conn = (t, [TcRecv ex_stream true; TcClosed]) ∧
    (TcClosed ∈ [TcRecv ex_stream false; TcRecv ex_stream true; TcClosed] →
     accepted [TcRecv ex_stream false; TcRecv ex_stream true; TcClosed] = ex_stream) ∧
    rcv_wnd (ti_rcv t) = WND_MAX - 5.
Proof.
  exists (tcp_process_refused_data true ex_conn).1. split; [vm_compute; reflexivity|].
  edestruct (tcp_delivers_stream ex_stream ex_irs 1460 6 (tcp_process_refused_data true ex_conn).1 [TcRecv ex_stream false; TcRecv ex_stream true; TcClosed] 0) as (_ & _ & H & Hw & _).
  - lia.
  - apply (conn_timer ex_stream ex_irs 1460 6 ex_conn [TcRecv ex_stream false] 0 true _ [TcRecv ex_stream true; TcClosed]); [|vm_compute; congruence|vm_compute; reflexivity].
    apply (conn_seg ex_stream ex_irs 1460 0 (ex_step true (ex_seg 3 2 (Z.lor TCP_ACK TCP_FIN)) (tcp_fresh ex_irs 1460)) [] 0
      true AckSent false true false (ex_seg 0 3 TCP_ACK) ex_conn [TcRecv ex_stream false]);
      [|by split; apply not_elem_of_nil| |vm_compute; reflexivity].
    + apply (conn_seg ex_stream ex_irs 1460 0 (tcp_fresh ex_irs 1460) [] 0
        true AckSent false true true (ex_seg 3 2 (Z.lor TCP_ACK TCP_FIN))
        (ex_step true (ex_seg 3 2 (Z.lor TCP_ACK TCP_FIN)) (tcp_fresh ex_irs 1460)) []);
        [apply conn_start|by split; apply not_elem_of_nil| |vm_compute; reflexivity].
      apply ex_arrives; [|vm_compute; congruence..]. split_and!; vm_compute; try reflexivity; try discriminate.
    + apply ex_arrives; [|vm_compute; congruence..]. split_and!; vm_compute; try reflexivity; try discriminate.
  - split; [exact H|]. destruct Hw as [_ Hw]; [vm_compute; congruence|]. rewrite Hw. vm_compute. reflexivity.
Defined.

(** ** A peer that overruns the window *)

(** A connection with a window of four bytes. *)
Definition ex_narrow : tin := mk_tin (mk_rcv ESTABLISHED 0 1460 100 4 4 104 []) None.

(** A segment out of sequence is not cut to the window when the queue is empty; with
    the bytes before it the queue holds more than the window, and the assertion
    "ooseq tcplen > rcv_wnd" ends the process. *)
Lemma ooseq_overrun_asserts :
  ∃ t, tcp_input true AckSent false true true (mk_tseg 102 4 TCP_ACK [3; 4; 5; 6] []) ex_narrow = Some (t, []) ∧
    tcp_input true AckSent false true true (mk_tseg 100 2 TCP_ACK [1; 2] []) t = None.
Proof. eexists. split; [vm_compute; reflexivity|]. vm_compute. reflexivity. Qed.

(** The same segment in a queue that is not empty is cut. *)
Lemma ooseq_overrun_cut :
  ∃ t t', tcp_input true AckSent false true true (mk_tseg 101 1 TCP_ACK [2] []) ex_narrow = Some (t, []) ∧
    tcp_input true AckSent false true true (mk_tseg 102 4 TCP_ACK [3; 4; 5; 6] []) t = Some (t', []) ∧
    snd <$> tcp_input true AckSent false true true (mk_tseg 100 1 TCP_ACK [1] []) t' = Some [TcRecv [1; 2; 3; 4] true].
Proof. eexists _, _. split; [vm_compute; reflexivity|]. split; [vm_compute; reflexivity|]. vm_compute. reflexivity. Qed.

(** ** Data that is refused at the end *)

(** A connection whose sending side is closed; the peer closes too while data is
    refused, and acknowledges the FIN: the data and the end of the stream are dropped
    with the move to TIME_WAIT, although the data was acknowledged. *)
Lemma time_wait_drops_refused :
  ∃ t t', tcp_input true AckSent false true false (mk_tseg 100 2 (Z.lor TCP_ACK TCP_FIN) [1; 2] [])
      (mk_tin (mk_rcv FIN_WAIT_1 0 1460 100 4 4 104 []) None) = Some (t, [TcRecv [1; 2] false]) ∧
    tcp_input true AckSent true false false (mk_tseg 103 0 TCP_ACK [] []) t = Some (t', [TcRecv [1; 2] false]) ∧
    ti_refused t' = None ∧ rc_state (ti_rcv t') = TIME_WAIT.
Proof. eexists _, _. split; [vm_compute; reflexivity|]. split; [vm_compute; reflexivity|]. vm_compute. done. Qed.
