(* ===== verification/TcpSession.v ===== *)
(** * A TCP session on the receiving side of lwIP

    The connection of [TcpIn] and the session of [SessionTCP] as one system: lwIP calls
    the handlers of the session, and the session opens the window of lwIP for what it
    has written to the socket. *)

From S2P Require Import Prelude CString RingBuffer SessionTCP SessionTCPProps TcpIn TcpInProps TcpInRun TcpStream.

(** The calls of lwIP are those of the session: [tcp_recv_handler] with a chain of
    buffers or with NULL, and [tcp_err_handler]; the answer for data is the handler's. *)
Inductive answers : list tcallback → HevSocks5SessionTCP → list tcp_event → HevSocks5SessionTCP → Prop :=
  | ans_nil self : answers [] self [] self
  | ans_recv p cs self es self' :
      answers cs (tcp_event_do (EvCb (CbRecv p)) self) es self' →
      answers (TcRecv (mjoin p) (tcp_recv_handler (Some p) self).1 :: cs) self (EvCb (CbRecv p) :: es) self'
  | ans_closed cs self es self' :
      answers cs (tcp_event_do (EvCb CbEof) self) es self' → answers (TcClosed :: cs) self (EvCb CbEof :: es) self'
  | ans_err c cs self es self' :
      c = TcReset ∨ c = TcEnded →
      answers cs (tcp_event_do (EvCb CbErr) self) es self' → answers (c :: cs) self (EvCb CbErr :: es) self'.

(** [tcp_recved] of lwIP, which [tcp_splice_f] calls after it has written [s] bytes. *)
Definition f_recved (s : Z) (self : HevSocks5SessionTCP) (t : tin) : option tin :=
  match st_queue self, st_pcb self with
  | _ :: _, Some _ =>
      if s <=? 0 then Some t
      else match TcpIn.tcp_recved (u16 s) (ti_rcv t) with
        | Some (_, p) => Some (mk_tin p (ti_refused t))
        | None => None
        end
  | _, _ => Some t
  end.

(** What [tcp_input] tells an application that refuses nothing yet. *)
Lemma deliver_shape ok p r t' cs : tcp_input_deliver ok p None r = (t', cs) →
  ∃ c : bool, cs = (match recv_data r with [] => [] | d => [TcRecv d ok] end) ++ (if c then [TcClosed] else []) ∧
    (recv_data r = [] ∨ ok = true → ti_refused t' = None) ∧ accepted cs ++ kept t' = recv_data r.
Proof.
  unfold tcp_input_deliver. intros H. destruct (recv_data r) as [|x d] eqn:Hd, ok, (got_fin r);
    injection H as <- <-; (exists true + exists false); split_and!; try done; try (cbn; by rewrite ?app_nil_r); intros [|]; done.
Qed.

Lemma input_shape mem ack aa ok1 ok2 g t t' cs : ti_refused t = None → tcp_input mem ack aa ok1 ok2 g t = Some (t', cs) →
  (∃ c, (c = TcReset ∨ c = TcEnded) ∧ cs = [c]) ∨
  ∃ d (c : bool), cs = (match d with [] => [] | d => [TcRecv d ok2] end) ++ (if c then [TcClosed] else []) ∧
    (d = [] ∨ ok2 = true → ti_refused t' = None) ∧ accepted cs ++ kept t' = d.
Proof.
  intros Hr. unfold tcp_input, tcp_process_refused_data. rewrite Hr. cbn [andb].
  destruct (65535 <? _).
  { intros [= <- <-]. right. exists [], false. unfold kept. rewrite Hr. done. }
  destruct (rc_state (ti_rcv t) =? TIME_WAIT).
  { intros [= <- <-]. right. exists [], false. done. }
  cbn. rewrite Hr. cbn [andb]. destruct (tcp_process _ _ _ _ _ _) as [[[[] p] r]|]; [..|done]; intros H.
  - injection H as <- <-. left. eauto.
  - injection H as <- <-. left. eauto.
  - assert ((if rc_state p =? TIME_WAIT then None else None : option (list Z * bool)) = None) as Hn by by destruct (rc_state p =? TIME_WAIT).
    rewrite Hn in H. destruct (tcp_input_deliver ok2 p None r) as [t1 cs1] eqn:Hd. injection H as <- <-.
    destruct (deliver_shape _ _ _ _ _ Hd) as (c & H1 & H2 & H3). right. exists (recv_data r), c. split_and!; try done. by destruct (recv_data r).
Qed.

Section session.
Context (S : list Z) (irs mss size : Z) (memory : list Z) (self0 : HevSocks5SessionTCP).

Notation len := (Z.of_nat (length S)).
Notation start := (tcp_splice_init size memory self0).

(** The system: a segment with its calls, a round of one direction, acknowledgements,
    errors and the end of sending. *)
Inductive joint : Z → tin → HevSocks5SessionTCP → list tcp_event → Prop :=
  | joint_start : joint 0 (tcp_fresh irs mss) start []
  | joint_seg N t self es mem ack aa ok1 ok2 g t' cs es' self' :
      joint N t self es → st_pcb self ≠ None → arrives S irs N (tcp_edge N t) g →
      tcp_input mem ack aa ok1 ok2 g t = Some (t', cs) → answers cs self es' self' →
      joint (tcp_pos N t t') t' self' (es ++ es')
  | joint_f N t self es s again t' :
      joint N t self es → ev_ok (EvF s again) self → f_recved s self t = Some t' →
      joint N t' (tcp_event_do (EvF s again) self) (es ++ [EvF s again])
  | joint_b N t self es r again bs ook :
      joint N t self es → ev_ok (EvB r again bs ook) self →
      joint N t (tcp_event_do (EvB r again bs ook) self) (es ++ [EvB r again bs ook])
  | joint_sent N t self es n :
      joint N t self es → ev_ok (EvCb (CbSent n)) self →
      joint N t (tcp_event_do (EvCb (CbSent n)) self) (es ++ [EvCb (CbSent n)])
  | joint_err N t self es :
      joint N t self es → joint N t (tcp_event_do (EvCb CbErr) self) (es ++ [EvCb CbErr])
  | joint_ack N t self es ack :
      joint N t self es → joint N (mk_tin (tcp_send_empty_ack ack (ti_rcv t)) (ti_refused t)) self es
  | joint_shut N t self es ok :
      joint N t self es → joint N (mk_tin (tcp_close_shutdown_fin ok (ti_rcv t)) (ti_refused t)) self es.

(** While lwIP has the connection, it has given the session all it has taken, and the
    session has opened the window for what it has written. *)
Definition linked (N : Z) (t : tin) (self : HevSocks5SessionTCP) (es : list tcp_event) : Prop :=
  st_pcb self ≠ None → ti_refused t = None ∧
    ∃ log, accepted log = received es ∧ conn_inv S irs N t log (Z.of_nat (length (st_out self))).

Definition jinv (N : Z) (t : tin) (self : HevSocks5SessionTCP) (es : list tcp_event) : Prop :=
  tcp_run start es self ∧ received es `prefix_of` S ∧ (st_pcb_eof self = true → received es = S) ∧
  (st_shut_wr self = true → st_pcb_eof self = true ∧ st_queue self = []) ∧ linked N t self es.

(** [EvB], [CbSent] and [CbErr] do not concern what is received. *)
Lemma b_frame r again bs ook self : let self' := tcp_event_do (EvB r again bs ook) self in
  st_queue self' = st_queue self ∧ st_out self' = st_out self ∧ st_pcb_eof self' = st_pcb_eof self ∧
  st_shut_wr self' = st_shut_wr self ∧ (st_pcb self' = None ↔ st_pcb self = None).
Proof.
  cbn zeta. cbn [tcp_event_do]. destruct (splice_b_unfold r again bs true ook self) as (res & _ & ->). cbn zeta.
  change (st_pcb (fetch r bs self)) with (st_pcb self). destruct (st_pcb self) as [pc|] eqn:Hp.
  2: { cbn. by rewrite Hp. }
  destruct (hev_ring_buffer_reading _); [destruct (res <? 0)|destruct (tcp_write_all _ _ _) as [[err s] pcb]]; cbn; rewrite ?Hp; by split_and!.
Qed.

Context (Hstart : tcp_start self0) (Hsize : 0 < size ≤ TCP_SND_BUF) (Hmem : Z.of_nat (length memory) = size).
Context (Hmss : 0 ≤ mss < 2 ^ 16) (Hopen : st_pcb_eof self0 = false ∧ st_shut_wr self0 = false).

Lemma jinv_inv N t self es : jinv N t self es → ∃ sent ready, stcp_inv es sent ready self.
Proof. intros [H _]. by apply (inv_run self0 es self size memory). Qed.

Lemma jinv_start : jinv 0 (tcp_fresh irs mss) start [].
Proof.
  destruct Hopen as [He Hs]. destruct Hstart as (_ & _ & Ho). split_and!; try done.
  - constructor.
  - apply prefix_nil.
  - cbn. by rewrite He.
  - cbn. by rewrite Hs.
  - intros _. split; [done|]. exists []. split; [done|]. cbn. rewrite Ho. by apply conn_inv_start.
Qed.

Lemma jinv_frame N t self es e :
  jinv N t self es → ev_ok e self → ev_received e = [] →
  let self' := tcp_event_do e self in
  st_queue self' = st_queue self → st_out self' = st_out self → st_pcb_eof self' = st_pcb_eof self →
  st_shut_wr self' = st_shut_wr self → (st_pcb self = None → st_pcb self' = None) → jinv N t self' (es ++ [e]).
Proof.
  intros (J1 & J2 & J3 & J4 & J5) Hok Hr self' Hq Ho He Hs Hp. unfold jinv, linked. rewrite received_snoc, Hr, app_nil_r, Hq, Ho, He, Hs.
  split_and!; try done; [by constructor|]. intros Hne. apply J5. auto.
Qed.

(** lwIP accounts for what the session has. *)
Lemma linked_bytes N t self es sent ready : stcp_inv es sent ready self → linked N t self es → st_pcb self ≠ None →
  received es = slice S 0 N ∧ Z.of_nat (length (received es)) = data_of S N ∧
  rcv_wnd (ti_rcv t) = TCP_WND - Z.of_nat (length (mjoin (st_queue self))).
Proof.
  intros Hi Hl Hp. destruct (Hl Hp) as (Hr & log & Ha & I1 & I2 & I3 & _). unfold kept in I2. unfold fin_kept in I3. rewrite Hr in I2, I3.
  rewrite app_nil_r, Ha in I2. pose proof (proj1 (proj1 I1)) as (_ & HN & _). destruct Hi as (Hrx & _).
  assert (Z.of_nat (length (received es)) = data_of S N) as Hlen by (rewrite I2, length_slice by lia; unfold data_of; lia).
  split_and!; try done. rewrite <-Hrx, length_app in Hlen. change TCP_WND with WND_MAX. lia.
Qed.

Lemma jinv_f N t self es s again t' :
  jinv N t self es → ev_ok (EvF s again) self → f_recved s self t = Some t' →
  jinv N t' (tcp_event_do (EvF s again) self) (es ++ [EvF s again]).
Proof.
  intros Hj Hok Hf. destruct (jinv_inv _ _ _ _ Hj) as (sent & ready & Hinv). pose proof Hj as (J1 & J2 & J3 & J4 & J5).
  pose proof Hinv as (Hrx & Hw & _). assert (tcp_run start (es ++ [EvF s again]) (tcp_event_do (EvF s again) self)) as Hrun by by constructor.
  unfold jinv, linked. rewrite received_snoc, app_nil_r. cbn [tcp_event_do] in *. unfold tcp_splice_f, f_recved in *.
  cbn [ev_ok] in Hok. pose proof (length_join_take (st_queue self) 64) as Hjt.
  destruct (st_queue self) as [|c q] eqn:Hq.
  { injection Hf as <-. destruct (st_pcb_eof self) eqn:He; cbn; rewrite ?Hq, ?He; split_and!; try done; auto. }
  rewrite <-Hq in *. destruct (Z.leb_spec s 0).
  { assert (t' = t) as -> by (destruct (st_pcb self); congruence). cbn. split_and!; try done; by rewrite Hq. }
  cbn. assert (st_shut_wr self = false) as Hsh.
  { destruct (st_shut_wr self) eqn:Hs; [|done]. destruct (J4 eq_refl) as [_ Hn]. by rewrite Hq in Hn. }
  split_and!; try done; [by rewrite Hsh..|]. intros Hp. destruct (st_pcb self) as [pc|] eqn:Hpc; [|done].
  destruct (J5 ltac:(by rewrite Hpc)) as (Hr & log & Ha & Hc). destruct (TcpIn.tcp_recved (u16 s) (ti_rcv t)) as [[b p']|] eqn:Hrv; [|done].
  injection Hf as <-. split; [done|]. exists log. split; [done|].
  assert (u16 s = s) as Hu by (apply u16_small; unfold TCP_WND, TCP_MSS in Hw; lia). rewrite Hu in Hrv.
  replace (Z.of_nat (length (st_out self ++ _))) with (Z.of_nat (length (st_out self)) + s).
  - eapply conn_inv_read; [done|lia| |done]. rewrite Ha, <-Hrx, length_app. lia.
  - rewrite length_app, length_take. lia.
Qed.

(** A call with data is within what the session can take. *)
Lemma recv_ok N t self es N' t' log d p :
  jinv N t self es → st_pcb self ≠ None → received es = slice S 0 N → 0 ≤ N ≤ N' → d = slice S N N' → mjoin p = d →
  conn_inv S irs N' t' log (Z.of_nat (length (st_out self))) → ev_ok (EvCb (CbRecv p)) self.
Proof.
  intros Hj Hp Hrec HN -> Hd (I1 & _ & I3 & _). destruct (jinv_inv _ _ _ _ Hj) as (sent & ready & Hrx & _ & _ & _ & _ & _ & Hpcb).
  destruct (st_pcb self) as [pc|] eqn:Hpc; [|done]. exists pc. split; [done|]. destruct Hpcb as (_ & _ & _ & _ & ->).
  pose proof (proj1 (proj1 I1)) as (_ & _ & _ & W4 & W5 & _). assert (0 ≤ fin_kept t') by (unfold fin_kept; repeat case_match; lia).
  rewrite join_app, app_assoc, Hrx, Hd, Hrec, slice_app, length_slice by lia. change TCP_WND with WND_MAX. unfold data_of in *. lia.
Qed.

(** The data of a segment, if there is any, and then its FIN. *)
Lemma answers_recv d ok cs self es' self' :
  answers ((match d with [] => [] | d => [TcRecv d ok] end) ++ cs) self es' self' →
  d = [] ∧ answers cs self es' self' ∨
  ∃ p es2, d ≠ [] ∧ mjoin p = d ∧ ok = (tcp_recv_handler (Some p) self).1 ∧ es' = EvCb (CbRecv p) :: es2 ∧
    answers cs (tcp_event_do (EvCb (CbRecv p)) self) es2 self'.
Proof.
  destruct d as [|x d]; [by left|]. intros H. right. inversion H as [|p cs' self1 es2 self2 Ha Hd| |c cs' self1 es2 self2 Hc Ha]; subst.
  - exists p, es2. split_and!; try done. by rewrite Hd.
  - by destruct Hc.
Qed.

Lemma answers_fin (c : bool) self es' self' : answers (if c then [TcClosed] else []) self es' self' →
  es' = (if c then [EvCb CbEof] else []) ∧ self' = (if c then st_set_eof self else self).
Proof.
  destruct c; intros H; inversion H; subst; [|naive_solver|done]. match goal with H : answers [] _ _ _ |- _ => inversion H end. done.
Qed.

(** The FIN of a segment after its data. *)
Lemma jinv_fin N' t' (c : bool) self1 es1 :
  tcp_run start es1 self1 → received es1 = slice S 0 N' → st_pcb self1 ≠ None → (c = true → len < N') →
  (st_pcb_eof self1 = true → received es1 = S) → (st_shut_wr self1 = true → st_pcb_eof self1 = true ∧ st_queue self1 = []) →
  linked N' t' self1 es1 → jinv N' t' (if c then st_set_eof self1 else self1) (es1 ++ if c then [EvCb CbEof] else []).
Proof.
  intros Hrun Hrec Hp Hc He Hs Hl.
  assert (received es1 `prefix_of` S) as Hpre.
  { rewrite Hrec. apply slice_prefix. }
  destruct c; [|by rewrite app_nil_r]. unfold jinv, linked. rewrite received_snoc, app_nil_r. cbn. split_and!; try done.
  - by apply (run_snoc _ _ _ (EvCb CbEof)).
  - intros _. rewrite Hrec. apply slice_all. specialize (Hc eq_refl). lia.
  - intros Hs'. split; [done|]. by apply Hs.
Qed.

Lemma jinv_seg N t self es mem ack aa ok1 ok2 g t' cs es' self' :
  jinv N t self es → st_pcb self ≠ None → arrives S irs N (tcp_edge N t) g →
  tcp_input mem ack aa ok1 ok2 g t = Some (t', cs) → answers cs self es' self' →
  jinv (tcp_pos N t t') t' self' (es ++ es').
Proof.
  intros Hj Hp Hg Hin Hans. pose proof Hj as (J1 & J2 & J3 & J4 & J5). destruct (J5 Hp) as (Hr & log & Ha & Hc).
  destruct (jinv_inv _ _ _ _ Hj) as (sent & ready & Hinv). destruct (linked_bytes _ _ _ _ _ _ Hinv J5 Hp) as (Hrec & _ & _).
  pose proof (proj1 (proj1 (proj1 Hc))) as (_ & HN0 & _).
  destruct (tcp_input_spec S irs mem ack aa ok1 ok2 N _ t g (proj1 Hc) Hg) as (N' & E' & t1 & cs1 & He' & HN & _ & Ht & Hmv & _).
  rewrite Hin in He'. injection He' as <- <-. destruct Hmv as [Hmv|[[Hl _] _]]; [|done].
  destruct (conn_inv_moved _ _ _ _ _ _ _ _ _ _ Hc HN Ht Hmv) as [Hc' ->].
  destruct (input_shape _ _ _ _ _ _ _ _ _ Hr Hin) as [(c & Hce & ->)|(d & c & Hcs & Hok & Hd)].
  { inversion Hans; subst; [naive_solver..|]. match goal with H : answers [] _ _ _ |- _ => inversion H end. subst.
    unfold jinv, linked. rewrite received_snoc, app_nil_r. cbn. split_and!; try done. by apply (run_snoc _ _ _ (EvCb CbErr)). }
  assert (d = slice S N N') as Hds by (rewrite <-Hd, (proj1 Hmv); unfold kept; by rewrite Hr).
  assert (accepted cs ++ kept t' = slice S N N') as Hacc by congruence.
  assert (c = true → len < N') as Hcl.
  { intros ->. destruct Hmv as (_ & _ & Hm). rewrite Hcs, closes_app in Hm. unfold finished in Hm. change (closes [TcClosed]) with 1%nat in Hm.
    destruct (Z.ltb_spec len N'); [done|]. cbn [andb] in Hm. lia. }
  rewrite Hcs in Hans. destruct (answers_recv _ _ _ _ _ _ Hans) as [[Hdn Hf]|(p & es2 & Hdn & Hpd & Hokp & -> & Hf)].
  - destruct (answers_fin _ _ _ _ Hf) as [-> ->]. specialize (Hok (or_introl Hdn)).
    assert (received es = slice S 0 N') as Hrec' by (rewrite <-(slice_app S 0 N N'), <-Hrec, <-Hds, Hdn, app_nil_r by lia; done).
    apply jinv_fin; try done. intros _. split; [done|]. exists (log ++ cs). split; [|done].
    rewrite accepted_app, Ha. unfold kept in Hacc. rewrite Hok, app_nil_r in Hacc. by rewrite Hacc, <-Hds, Hdn, app_nil_r.
  - destruct (answers_fin _ _ _ _ Hf) as [-> ->].
    pose proof (recv_ok _ _ _ _ _ _ _ _ _ Hj Hp Hrec (conj HN0 HN) Hds Hpd Hc') as Hev.
    destruct (inv_recv _ _ _ _ _ Hinv Hev) as [_ Hh]. specialize (Hok (or_intror (eq_trans Hokp Hh))).
    assert (received (es ++ [EvCb (CbRecv p)]) = slice S 0 N') as Hrec'
      by (rewrite received_snoc; cbn [ev_received]; rewrite Hpd, Hrec, Hds; apply slice_app; lia).
    assert (tcp_event_do (EvCb (CbRecv p)) self = st_set_queue (st_queue self ++ p) self) as Hdo.
    { cbn in Hh |- *. unfold tcp_recv_handler in *. destruct (st_queue self); [done|]. by destruct (TCP_WND <? _). }
    assert (st_pcb_eof self = false) as Heof.
    { destruct (st_pcb_eof self) eqn:Heo; [|done]. specialize (J3 eq_refl). exfalso. apply Hdn.
      destruct (slice_prefix S N') as [k Hk].
      rewrite <-Hrec', received_snoc, J3, <-app_assoc in Hk. cbn [ev_received] in Hk. rewrite Hpd in Hk.
      apply (f_equal length) in Hk. rewrite !length_app in Hk. destruct d; [done|simpl in Hk; lia]. }
    rewrite Hdo in *. replace (es ++ EvCb (CbRecv p) :: (if c then [EvCb CbEof] else [])) with
      ((es ++ [EvCb (CbRecv p)]) ++ (if c then [EvCb CbEof] else [])) by by rewrite <-app_assoc.
    apply jinv_fin; try done; cbn.
    + rewrite <-Hdo. by constructor.
    + by rewrite Heof.
    + intros Hs. destruct (J4 Hs). congruence.
    + intros _. split; [done|]. exists (log ++ cs). split; [|done].
      rewrite accepted_app, Ha, received_snoc. cbn [ev_received]. f_equal. unfold kept in Hacc. rewrite Hok, app_nil_r in Hacc. congruence.
Qed.

Lemma jinv_run N t self es : joint N t self es → jinv N t self es.
Proof.
  induction 1 as [| | | N t self es r again bs ook _ IH Hok|N t self es n _ IH Hok|N t self es _ IH|N t self es ack _ IH|N t self es ok _ IH].
  - apply jinv_start.
  - by eapply jinv_seg.
  - by eapply jinv_f.
  - destruct (b_frame r again bs ook self) as (B1 & B2 & B3 & B4 & B5). apply jinv_frame; try done. apply B5.
  - apply jinv_frame; try done. cbn. by intros ->.
  - by apply jinv_frame.
  - destruct IH as (J1 & J2 & J3 & J4 & J5). split_and!; try done. intros Hp. destruct (J5 Hp) as (Hr & log & Ha & Hc). split; [done|].
    exists log. split; [done|]. destruct (send_ack_spec S irs N _ t ack (proj1 Hc)) as (E' & _ & Ht & Hmv). by eapply conn_inv_same.
  - destruct IH as (J1 & J2 & J3 & J4 & J5). split_and!; try done. intros Hp. destruct (J5 Hp) as (Hr & log & Ha & Hc). split; [done|].
    exists log. split; [done|]. destruct (shutdown_spec S irs N _ t ok (proj1 Hc)) as (Ht & Hmv). by eapply conn_inv_same.
Qed.

End session.

(** ** An example *)

(** The two segments of [TcpStream] in the wrong order, then a round that writes all. *)
Definition ex_joined : HevSocks5SessionTCP :=
  tcp_event_do (EvCb CbEof) (tcp_event_do (EvCb (CbRecv [[1; 2; 3]; [4; 5]])) (tcp_splice_init 8 (replicate 8 0) ex_session)).

Definition ex_received : tin :=
  ex_step true (ex_seg 0 3 TCP_ACK) (ex_step true (ex_seg 3 2 (Z.lor TCP_ACK TCP_FIN)) (tcp_fresh ex_irs 1460)).


(** ** A session that lwIP forgets *)

(** The session has closed its sending side, the peer acknowledges that and closes: the
    connection waits in TIME_WAIT while the session still has data to write and keeps
    its pointer.  At the end of that wait, or for want of memory for a new connection,
    lwIP releases the connection without a call of [tcp_err_handler]. *)
Lemma time_wait_in_use :
  ∃ N t self es, joint ex_stream ex_irs 1460 8 (replicate 8 0) ex_session N t self es ∧
    rc_state (ti_rcv t) = TIME_WAIT ∧ st_pcb self ≠ None ∧ st_queue self ≠ [].
Proof.
  set (t0 := mk_tin (tcp_close_shutdown_fin true (ti_rcv (tcp_fresh ex_irs 1460))) None).
  set (g := ex_seg 0 5 (Z.lor TCP_ACK TCP_FIN)).
  set (t1 := match tcp_input true AckSent true true true g t0 with Some (t, _) => t | None => t0 end).
  exists (tcp_pos 0 t0 t1), t1. eexists _, _. split; [|split; [vm_compute; reflexivity|]].
  - eapply (joint_seg ex_stream ex_irs 1460 8 (replicate 8 0) ex_session 0 t0 _ [] true AckSent true true true g t1 [TcRecv ex_stream true; TcClosed]).
    + apply (joint_shut ex_stream ex_irs 1460 8 (replicate 8 0) ex_session 0 (tcp_fresh ex_irs 1460)), joint_start.
    + done.
    + apply ex_arrives; [|vm_compute; congruence..]. split_and!; vm_compute; try reflexivity; discriminate.
    + vm_compute. reflexivity.
    + eapply (ans_recv [ex_stream] [TcClosed] (tcp_splice_init 8 (replicate 8 0) ex_session) [EvCb CbEof]). apply ans_closed, ans_nil.
  - done.
Qed.
