(* ===== verification/TcpOut.v ===== *)
(** * Sending TCP segments

    The queues of segments that are not sent and not acknowledged of a connection of
    lwIP: [tcp_write] without copying, [tcp_send_fin], [tcp_output], the
    retransmissions and the split of a segment (third-part/lwip/src/core/tcp_out.c), the
    acknowledgement half of [tcp_receive] (core/tcp_in.c), and what the slow timer sends
    (core/tcp.c).

    The state of [struct tcp_pcb] is in parts: the queues, the window of the peer,
    congestion control, the measurement of round trips, and the persist timer.  Segments
    are those of [TcpIn]; a segment to be sent also has the lengths of its packet buffers,
    of which the first one holds the headers.  Nothing is copied, so that
    [unsent_oversize] is zero.  A failed assertion ends the process: it is [None].  No
    segment of the queues has an RST. *)

From S2P Require Import Prelude CString TcpIn.

Definition TCP_PSH : Z := 0x08.
Definition TF_INFR : Z := 0x04.
Definition TF_FIN : Z := 0x20.
Definition TF_NODELAY : Z := 0x40.
Definition TF_NAGLEMEMERR : Z := 0x80.
Definition TF_RTO : Z := 0x800.
Definition SYN_SENT : Z := 2.

(** [TCP_SND_BUF] and [TCP_SND_QUEUELEN]. *)
Definition SND_BUF : Z := 8 * 8191.
Definition SND_QUEUELEN : Z := 1024.

Definition s16 (x : Z) : Z := (x + 2 ^ 15) mod 2 ^ 16 - 2 ^ 15.

(** ** Data *)

Record oseg := mk_oseg { os_seg : tseg; os_bufs : list Z }.

Definition os_clen (g : oseg) : Z := Z.of_nat (length (os_bufs g)).
Definition os_set_flags (f : Z) (g : oseg) : oseg := mk_oseg (sg_set_flags f (os_seg g)) (os_bufs g).
(** [TCPH_SET_FLAG] adds flags. *)
Definition os_add_flags (f : Z) (g : oseg) : oseg := os_set_flags (Z.lor (sg_flags (os_seg g)) f) g.

Record squeue := mk_squeue {
  unsent : list oseg;
  unacked : list oseg;
  lastack : Z;
  snd_nxt : Z;
  snd_lbb : Z;
  snd_buf : Z;
  snd_queuelen : Z;
}.

Record swindow := mk_swindow { snd_wnd : Z; snd_wnd_max : Z; snd_wl1 : Z; snd_wl2 : Z }.
Record scong := mk_scong { cwnd : Z; ssthresh : Z; bytes_acked : Z; dupacks : Z }.
Record srtt := mk_srtt { rtime : Z; nrtx : Z; rto : Z; rt_sa : Z; rt_sv : Z; rttest : Z; rtseq : Z; rto_end : Z }.

(** The timer that probes the window of the peer. *)
Record spersist := mk_persist { persist_cnt : Z; persist_backoff : Z; persist_probe : Z }.

Record tsnd := mk_snd {
  so_state : Z;
  so_flags : Z;
  so_mss : Z;
  so_q : squeue;
  so_w : swindow;
  so_c : scong;
  so_r : srtt;
  so_p : spersist;
}.

Definition so_set_state (x : Z) (s : tsnd) : tsnd := mk_snd x (so_flags s) (so_mss s) (so_q s) (so_w s) (so_c s) (so_r s) (so_p s).
Definition so_set_flags (x : Z) (s : tsnd) : tsnd := mk_snd (so_state s) x (so_mss s) (so_q s) (so_w s) (so_c s) (so_r s) (so_p s).
Definition so_set_q (x : squeue) (s : tsnd) : tsnd := mk_snd (so_state s) (so_flags s) (so_mss s) x (so_w s) (so_c s) (so_r s) (so_p s).
Definition so_set_w (x : swindow) (s : tsnd) : tsnd := mk_snd (so_state s) (so_flags s) (so_mss s) (so_q s) x (so_c s) (so_r s) (so_p s).
Definition so_set_c (x : scong) (s : tsnd) : tsnd := mk_snd (so_state s) (so_flags s) (so_mss s) (so_q s) (so_w s) x (so_r s) (so_p s).
Definition so_set_r (x : srtt) (s : tsnd) : tsnd := mk_snd (so_state s) (so_flags s) (so_mss s) (so_q s) (so_w s) (so_c s) x (so_p s).
Definition so_set_p (x : spersist) (s : tsnd) : tsnd := mk_snd (so_state s) (so_flags s) (so_mss s) (so_q s) (so_w s) (so_c s) (so_r s) x.

Definition so_add_flag (f : Z) (s : tsnd) : tsnd := so_set_flags (Z.lor (so_flags s) f) s.
Definition so_clear_flag (f : Z) (s : tsnd) : tsnd := so_set_flags (Z.land (so_flags s) (Z.lnot f)) s.

Definition q_set_unsent (x : list oseg) (q : squeue) : squeue :=
  mk_squeue x (unacked q) (lastack q) (snd_nxt q) (snd_lbb q) (snd_buf q) (snd_queuelen q).
Definition q_set_unacked (x : list oseg) (q : squeue) : squeue :=
  mk_squeue (unsent q) x (lastack q) (snd_nxt q) (snd_lbb q) (snd_buf q) (snd_queuelen q).
Definition q_set_nxt (x : Z) (q : squeue) : squeue :=
  mk_squeue (unsent q) (unacked q) (lastack q) x (snd_lbb q) (snd_buf q) (snd_queuelen q).

(** The last segment of a queue, and those before it. *)
Fixpoint unsnoc {A} (l : list A) : option (list A * A) :=
  match l with
  | [] => None
  | [x] => Some ([], x)
  | x :: l => match unsnoc l with Some (l, y) => Some (x :: l, y) | None => None end
  end.

(** ** Queueing data *)

(** [tcp_create_segment] with a packet of the buffers [bufs]. *)
Definition tcp_create_segment (data : list Z) (bufs : list Z) (hdrflags seqno : Z) : oseg :=
  mk_oseg (mk_tseg (u32 seqno) (Z.of_nat (length data)) hdrflags data []) bufs.

Inductive write_check := WrOk | WrConn | WrMem.

Definition tcp_write_checks (len : Z) (s : tsnd) : option write_check :=
  let q := so_q s in
  if negb (so_state s =? ESTABLISHED) && negb (so_state s =? CLOSE_WAIT) && negb (so_state s =? SYN_SENT) &&
     negb (so_state s =? SYN_RCVD) then Some WrConn
  else if len =? 0 then Some WrOk
  else if snd_buf q <? len then Some WrMem
  else if Z.min SND_QUEUELEN (0xffff - 3 + 1) <=? snd_queuelen q then Some WrMem
  else
    assert_that (Bool.eqb (negb (snd_queuelen q =? 0)) (match unacked q, unsent q with [], [] => false | _, _ => true end)) (Some WrOk).

(** Segments are not larger than half of the largest window of the peer. *)
Definition mss_local (s : tsnd) : Z :=
  let m := Z.min (so_mss s) (snd_wnd_max (so_w s) / 2) in if m =? 0 then so_mss s else m.

(** Phase 2 of [tcp_write]: [k] bytes go to the last segment; [adjacent] tells that they
    follow its last buffer in memory, which becomes longer then. *)
Fixpoint bufs_extend (k : Z) (bufs : list Z) : list Z :=
  match bufs with
  | [] => []
  | [b] => [b + k]
  | b :: bufs => b :: bufs_extend k bufs
  end.

Definition seg_concat (adjacent : bool) (data : list Z) (g : oseg) : oseg :=
  let k := Z.of_nat (length data) in
  let t := os_seg g in
  mk_oseg (mk_tseg (sg_seqno t) (u16 (sg_len t + k)) (sg_flags t) (sg_data t ++ data) (sg_opts t))
    (if adjacent then bufs_extend k (os_bufs g) else os_bufs g ++ [k]).

(** Phase 3: new segments, each of a buffer for the headers and one for the data; none
    when the queue becomes too long.  [n] bounds the number of segments. *)
Fixpoint write_segs (n : nat) (max_len seqno queuelen : Z) (data : list Z) : option (list oseg * Z) :=
  match n, data with
  | S n, _ :: _ =>
      let seglen := Z.min (Z.of_nat (length data)) max_len in
      let queuelen := u16 (queuelen + 2) in
      if Z.min SND_QUEUELEN (0xffff - 3) <? queuelen then None
      else
        let seg := tcp_create_segment (take (Z.to_nat seglen) data) [0; seglen] 0 seqno in
        match write_segs n max_len (seqno + seglen) queuelen (drop (Z.to_nat seglen) data) with
        | Some (queue, queuelen) => Some (seg :: queue, queuelen)
        | None => None
        end
  | _, _ => Some ([], queuelen)
  end.

(** The PSH flag of the last segment that was changed. *)
Definition set_last_psh (l : list oseg) : list oseg :=
  match unsnoc l with Some (l, g) => l ++ [os_add_flags TCP_PSH g] | None => [] end.

(** The end of [tcp_write]: [k] bytes are in the segment [last], the last one that was not
    sent, if any; new segments get the others. *)
Definition write_commit (mem adjacent : bool) (data : list Z) (k : Z) (front last : list oseg) (s : tsnd) : option (bool * tsnd) :=
  let len := Z.of_nat (length data) in
  let q := so_q s in
  let queuelen := if (0 <? k) && negb adjacent then u16 (snd_queuelen q + 1) else snd_queuelen q in
  match
    (if mem || (adjacent || (k <=? 0)) && (len <=? k)
     then write_segs (length data) (mss_local s) (snd_lbb q + k) queuelen (drop (Z.to_nat k) data)
     else None)
  with
  | None =>
      assert_that ((snd_queuelen q =? 0) || (match unacked q, unsent q with [], [] => false | _, _ => true end))
        (Some (false, so_add_flag TF_NAGLEMEMERR s))
  | Some (queue, queuelen) =>
      let l := front ++ last ++ queue in
      assert_that ((queuelen =? 0) || (match unacked q, l with [], [] => false | _, _ => true end))
        (let l := if (0 <? k) || (match queue with [] => false | _ => true end) then set_last_psh l else l in
         Some (true, so_set_q (mk_squeue l (unacked q) (lastack q) (snd_nxt q) (u32 (snd_lbb q + len)) (snd_buf q - len) queuelen) s))
  end.

(** [tcp_write] without flags; [mem] tells whether there is memory for everything that
    has to be allocated. *)
Definition tcp_write (mem adjacent : bool) (data : list Z) (s : tsnd) : option (bool * tsnd) :=
  let len := Z.of_nat (length data) in
  match tcp_write_checks len s with
  | None => None
  | Some WrConn => Some (false, s)
  | Some WrMem => Some (false, so_add_flag TF_NAGLEMEMERR s)
  | Some WrOk =>
      match unsnoc (unsent (so_q s)) with
      | None => write_commit mem adjacent data 0 [] [] s
      | Some (front, last_unsent) =>
          let llen := sg_len (os_seg last_unsent) in
          assert_that (llen <=? mss_local s)
            (let space := mss_local s - llen in
             if (0 <? len) && (0 <? space) && (0 <? llen) then
               let k := Z.min space len in
               write_commit mem adjacent data k front [seg_concat adjacent (take (Z.to_nat k) data) last_unsent] s
             else write_commit mem adjacent data 0 front [last_unsent] s)
      end
  end.

(** [tcp_enqueue_flags] for a FIN. *)
Definition tcp_enqueue_fin (mem : bool) (s : tsnd) : bool * tsnd :=
  if mem then
    let q := so_q s in
    let seg := tcp_create_segment [] [0] TCP_FIN (snd_lbb q) in
    (true, so_add_flag TF_FIN (so_set_q (mk_squeue (unsent q ++ [seg]) (unacked q) (lastack q) (snd_nxt q) (u32 (snd_lbb q + 1))
             (snd_buf q) (u16 (snd_queuelen q + 1))) s))
  else (false, so_add_flag TF_NAGLEMEMERR s).

Definition tcp_send_fin (mem : bool) (s : tsnd) : bool * tsnd :=
  match unsnoc (unsent (so_q s)) with
  | Some (front, last_unsent) =>
      if negb (has_flag (sg_flags (os_seg last_unsent)) (Z.lor TCP_SYN (Z.lor TCP_FIN TCP_RST))) then
        (true, so_add_flag TF_FIN (so_set_q (q_set_unsent (front ++ [os_add_flags TCP_FIN last_unsent]) (so_q s)) s))
      else tcp_enqueue_fin mem s
  | None => tcp_enqueue_fin mem s
  end.

(** The switch of [tcp_close_shutdown_fin], which calls [tcp_output] behind it. *)
Definition tcp_shutdown_fin (mem : bool) (s : tsnd) : bool * tsnd :=
  if (so_state s =? ESTABLISHED) || (so_state s =? SYN_RCVD) then
    let '(ok, s) := tcp_send_fin mem s in (ok, if ok then so_set_state FIN_WAIT_1 s else s)
  else if so_state s =? CLOSE_WAIT then
    let '(ok, s) := tcp_send_fin mem s in (ok, if ok then so_set_state LAST_ACK s else s)
  else (true, s).

(** ** Splitting the first segment *)

(** [pbuf_realloc]: the lengths of the buffers that hold the first [n] bytes. *)
Fixpoint bufs_trim (n : Z) (bufs : list Z) : list Z :=
  match bufs with
  | [] => []
  | b :: bufs => if b <? n then b :: bufs_trim (n - b) bufs else [n]
  end.

Definition tcp_split_unsent_seg (mem : bool) (split : Z) (s : tsnd) : option (bool * tsnd) :=
  let q := so_q s in
  match unsent q with
  | [] => Some (false, s)
  | useg :: rest =>
      let t := os_seg useg in
      if split =? 0 then None
      else if sg_len t <=? split then Some (true, s)
      else
        assert_that ((split <=? so_mss s) && (0 <? sg_len t))
          (if mem then
             let remainder := sg_len t - split in
             let flags := sg_flags t in
             let psh := if has_flag flags TCP_PSH then TCP_PSH else 0 in
             let fin := if has_flag flags TCP_FIN then TCP_FIN else 0 in
             let split_flags := Z.land flags (Z.lnot (Z.lor psh fin)) in
             let seg := tcp_create_segment (drop (Z.to_nat split) (sg_data t)) [remainder] (Z.lor psh fin) (sg_seqno t + split) in
             let useg' := os_add_flags split_flags (mk_oseg (seg_trim split t) (bufs_trim split (os_bufs useg))) in
             let queuelen := u16 (u16 (u16 (snd_queuelen q - os_clen useg) + os_clen useg') + os_clen seg) in
             Some (true, so_set_q (mk_squeue (useg' :: seg :: rest) (unacked q) (lastack q) (snd_nxt q) (snd_lbb q) (snd_buf q) queuelen) s)
           else Some (false, s))
  end.

(** ** Sending *)

(** What becomes of a packet that is given to IP: it is sent, it is still used by the
    device and not sent again, or it cannot be sent. *)
Inductive tx_result := TxSent | TxBusy | TxErr.

(** The condition of Nagle's algorithm. *)
Definition tcp_do_output_nagle (s : tsnd) : bool :=
  let q := so_q s in
  (match unacked q with [] => true | _ => false end) ||
  has_flag (so_flags s) (Z.lor TF_NODELAY TF_INFR) ||
  (match unsent q with [] => false | [g] => so_mss s <=? sg_len (os_seg g) | _ => true end) ||
  (snd_buf q =? 0) || (SND_QUEUELEN <=? snd_queuelen q).

(** A segment in order of sequence numbers. *)
Fixpoint insert_sorted (seg : oseg) (l : list oseg) : list oseg :=
  match l with
  | g :: rest => if TCP_SEQ_LT (sg_seqno (os_seg g)) (sg_seqno (os_seg seg)) then g :: insert_sorted seg rest else seg :: l
  | [] => [seg]
  end.

(** The place of a segment that was sent. *)
Definition put_unacked (seg : oseg) (l : list oseg) : list oseg :=
  match unsnoc l with
  | None => [seg]
  | Some (_, useg) => if TCP_SEQ_LT (sg_seqno (os_seg seg)) (sg_seqno (os_seg useg)) then insert_sorted seg l else l ++ [seg]
  end.

(** [tcp_output_segment] starts the timer and the measurement. *)
Definition start_timers (ticks seqno : Z) (r : srtt) : srtt :=
  let rtime := if rtime r <? 0 then 0 else rtime r in
  if rttest r =? 0 then mk_srtt rtime (nrtx r) (rto r) (rt_sa r) (rt_sv r) ticks seqno (rto_end r)
  else mk_srtt rtime (nrtx r) (rto r) (rt_sa r) (rt_sv r) (rttest r) (rtseq r) (rto_end r).

(** [seg->tcphdr->seqno - pcb->lastack + seg->len]. *)
Definition seg_reach (g : oseg) (q : squeue) : Z := u32 (sg_seqno (os_seg g) - lastack q + sg_len (os_seg g)).

Definition max_seq (a b : Z) : Z := if TCP_SEQ_LT a b then b else a.

(** The loop of [tcp_output] over the unsent segments; the result has the segments that
    went out, and whether none failed. *)
Fixpoint output_loop (ticks wnd : Z) (tx : list tx_result) (l : list oseg) (s : tsnd) : bool * tsnd * list tseg :=
  match l with
  | [] => (true, s, [])
  | seg :: rest =>
      if (wnd <? seg_reach seg (so_q s)) || (negb (tcp_do_output_nagle s) && negb (has_flag (so_flags s) (Z.lor TF_NAGLEMEMERR TF_FIN)))
      then (true, s, [])
      else
        let seg := if so_state s =? SYN_SENT then seg else os_add_flags TCP_ACK seg in
        let res := match tx with r :: _ => r | [] => TxErr end in
        let s := match res with TxBusy => s | _ => so_set_r (start_timers ticks (sg_seqno (os_seg seg)) (so_r s)) s end in
        match res with
        | TxErr => (false, so_add_flag TF_NAGLEMEMERR (so_set_q (q_set_unsent (seg :: rest) (so_q s)) s), [])
        | _ =>
            let q := so_q s in
            let nxt := max_seq (snd_nxt q) (u32 (sg_seqno (os_seg seg) + TCP_TCPLEN (os_seg seg))) in
            let una := if 0 <? TCP_TCPLEN (os_seg seg) then put_unacked seg (unacked q) else unacked q in
            let s := so_set_q (mk_squeue rest una (lastack q) nxt (snd_lbb q) (snd_buf q) (snd_queuelen q)) s in
            let '(ok, s, out) := output_loop ticks wnd (tail tx) rest s in
            (ok, s, match res with TxSent => os_seg seg :: out | _ => out end)
        end
  end.

(** [tcp_output]; [input] tells that the connection is being processed by [tcp_input],
    [ack] whether an acknowledgement is due and can be sent, alone when no data goes out,
    and [route] that there is a way to the peer. *)
Definition tcp_output (ticks : Z) (input : bool) (ack : option bool) (route : bool) (tx : list tx_result) (s : tsnd) : bool * tsnd * list tseg :=
  if input then (true, s, [])
  else
    let w := snd_wnd (so_w s) in
    let wnd := Z.min w (cwnd (so_c s)) in
    let done_ (s : tsnd) : bool * tsnd * list tseg :=
      match ack with Some ok => (ok, s, []) | None => (true, so_clear_flag TF_NAGLEMEMERR s, []) end in
    match unsent (so_q s) with
    | [] => done_ s
    | seg :: _ =>
        if negb route then (false, s, [])
        else if wnd <? seg_reach seg (so_q s) then
          done_ (if (wnd =? w) && (match unacked (so_q s) with [] => true | _ => false end) && (persist_backoff (so_p s) =? 0)
                 then so_set_p (mk_persist 0 1 0) s else s)
        else
          let s := so_set_p (mk_persist (persist_cnt (so_p s)) 0 (persist_probe (so_p s))) s in
          let '(ok, s, out) := output_loop ticks wnd tx (unsent (so_q s)) s in
          (ok, if ok then so_clear_flag TF_NAGLEMEMERR s else s, out)
    end.

(** [tcp_zero_window_probe]: one byte of the first unsent segment, or its FIN. *)
Definition tcp_zero_window_probe (mem : bool) (tx : tx_result) (s : tsnd) : bool * tsnd * list tseg :=
  match unsent (so_q s) with
  | [] => (true, s, [])
  | seg :: _ =>
      let p := so_p s in
      let probe := if persist_probe p <? 0xff then persist_probe p + 1 else persist_probe p in
      let s := so_set_p (mk_persist (persist_cnt p) (persist_backoff p) probe) s in
      if mem then
        let t := os_seg seg in
        let is_fin := has_flag (sg_flags t) TCP_FIN && (sg_len t =? 0) in
        let probe :=
          if is_fin then mk_tseg (sg_seqno t) 0 (Z.lor TCP_ACK TCP_FIN) [] []
          else mk_tseg (sg_seqno t) 1 TCP_ACK (take 1 (sg_data t)) [] in
        let s := so_set_q (q_set_nxt (max_seq (snd_nxt (so_q s)) (u32 (sg_seqno t + 1))) (so_q s)) s in
        match tx with TxErr => (false, s, []) | _ => (true, s, [probe]) end
      else (false, s, [])
  end.

(** ** Sending again *)

Definition no_rtt (r : srtt) : srtt := mk_srtt (rtime r) (nrtx r) (rto r) (rt_sa r) (rt_sv r) 0 (rtseq r) (rto_end r).
Definition inc_nrtx (r : srtt) : srtt :=
  mk_srtt (rtime r) (if nrtx r <? 0xff then nrtx r + 1 else nrtx r) (rto r) (rt_sa r) (rt_sv r) (rttest r) (rtseq r) (rto_end r).

(** [tcp_rexmit_rto_prepare]; [busy] tells that the device still uses one of them. *)
Definition tcp_rexmit_rto_prepare (busy : bool) (s : tsnd) : bool * tsnd :=
  let q := so_q s in
  match unsnoc (unacked q) with
  | None => (false, s)
  | Some (_, seg) =>
      if busy then (false, s)
      else
        let r := so_r s in
        let end_ := u32 (sg_seqno (os_seg seg) + TCP_TCPLEN (os_seg seg)) in
        (true, so_set_r (mk_srtt (rtime r) (nrtx r) (rto r) (rt_sa r) (rt_sv r) 0 (rtseq r) end_)
                 (so_add_flag TF_RTO (so_set_q (q_set_unacked [] (q_set_unsent (unacked q ++ unsent q) q)) s)))
  end.

(** [tcp_rexmit_rto_commit]. *)
Definition tcp_rexmit_rto_commit (ticks : Z) (ack : option bool) (route : bool) (tx : list tx_result) (s : tsnd) : tsnd * list tseg :=
  let '(_, s, out) := tcp_output ticks false ack route tx (so_set_r (inc_nrtx (so_r s)) s) in (s, out).

(** [tcp_rexmit]: the first segment that is not acknowledged goes back. *)
Definition tcp_rexmit (busy : bool) (s : tsnd) : bool * tsnd :=
  let q := so_q s in
  match unacked q with
  | [] => (false, s)
  | seg :: rest =>
      if busy then (false, s)
      else (true, so_set_r (no_rtt (inc_nrtx (so_r s))) (so_set_q (q_set_unacked rest (q_set_unsent (insert_sorted seg (unsent q)) q)) s))
  end.

Definition tcp_rexmit_fast (busy : bool) (s : tsnd) : tsnd :=
  match unacked (so_q s) with
  | [] => s
  | _ =>
      if has_flag (so_flags s) TF_INFR then s
      else
        let '(ok, s) := tcp_rexmit busy s in
        if ok then
          let c := so_c s in
          let ss := Z.min (cwnd c) (snd_wnd (so_w s)) / 2 in
          let ss := if ss <? 2 * so_mss s then u16 (2 * so_mss s) else ss in
          let r := so_r s in
          so_set_r (mk_srtt 0 (nrtx r) (rto r) (rt_sa r) (rt_sv r) (rttest r) (rtseq r) (rto_end r))
            (so_add_flag TF_INFR (so_set_c (mk_scong (u16 (ss + 3 * so_mss s)) ss (bytes_acked c) (dupacks c)) s))
        else s
  end.

(** ** Acknowledgements *)

(** [tcp_free_acked_segments]: what is left of [l], the length of the queues and the
    bytes that are acknowledged; [other] is the other queue. *)
Fixpoint tcp_free_acked_segments (ackno : Z) (l other : list oseg) (queuelen recv_acked : Z) : option (list oseg * Z * Z) :=
  match l with
  | g :: rest =>
      if TCP_SEQ_LEQ (sg_seqno (os_seg g) + TCP_TCPLEN (os_seg g)) ackno then
        assert_that (os_clen g <=? queuelen)
          (let queuelen := u16 (queuelen - os_clen g) in
           assert_that ((queuelen =? 0) || (match rest, other with [], [] => false | _, _ => true end))
             (tcp_free_acked_segments ackno rest other queuelen (u16 (recv_acked + sg_len (os_seg g)))))
      else Some (l, queuelen, recv_acked)
  | [] => Some ([], queuelen, recv_acked)
  end.

Definition TCP_WND_INC (wnd inc : Z) : Z := if wnd <=? u16 (wnd + inc) then u16 (wnd + inc) else 0xffff.

(** The window of the peer. *)
Definition update_window (seqno ackno wnd : Z) (w : swindow) : swindow :=
  if TCP_SEQ_LT (snd_wl1 w) seqno || ((snd_wl1 w =? seqno) && TCP_SEQ_LT (snd_wl2 w) ackno) ||
     ((snd_wl2 w =? ackno) && (snd_wnd w <? wnd))
  then mk_swindow wnd (Z.max (snd_wnd_max w) wnd) seqno ackno
  else w.

(** Congestion control for [acked] new bytes. *)
Definition cong_acked (flags mss acked : Z) (c : scong) : scong :=
  if cwnd c <? ssthresh c then
    let num_seg := if has_flag flags TF_RTO then 1 else 2 in
    let increase := Z.min acked (u16 (num_seg * mss)) in
    mk_scong (TCP_WND_INC (cwnd c) increase) (ssthresh c) (bytes_acked c) (dupacks c)
  else
    let ba := TCP_WND_INC (bytes_acked c) acked in
    if cwnd c <=? ba then mk_scong (TCP_WND_INC (cwnd c) mss) (ssthresh c) (u16 (ba - cwnd c)) (dupacks c)
    else mk_scong (cwnd c) (ssthresh c) ba (dupacks c).

(** The retransmission of all data in flight is over. *)
Definition rto_done (rto_end : Z) (una uns : list oseg) : bool :=
  match una, uns with
  | [], [] => true
  | [], g :: _ => TCP_SEQ_LEQ rto_end (sg_seqno (os_seg g))
  | g :: _, _ => TCP_SEQ_LEQ rto_end (sg_seqno (os_seg g))
  end.

(** An acknowledgement of new data; the bytes that were acknowledged and the state. *)
Definition ack_new (ackno : Z) (s : tsnd) : option (Z * tsnd) :=
  let infr := has_flag (so_flags s) TF_INFR in
  let c := so_c s in
  let c := mk_scong (if infr then ssthresh c else cwnd c) (ssthresh c) (if infr then 0 else bytes_acked c) 0 in
  let s := if infr then so_clear_flag TF_INFR s else s in
  let q := so_q s in
  let acked := u16 (ackno - lastack q) in
  let c := if ESTABLISHED <=? so_state s then cong_acked (so_flags s) (so_mss s) acked c else c in
  match tcp_free_acked_segments ackno (unacked q) (unsent q) (snd_queuelen q) 0 with
  | None => None
  | Some (una, queuelen, recv_acked) =>
      match tcp_free_acked_segments ackno (unsent q) una queuelen recv_acked with
      | None => None
      | Some (uns, queuelen, recv_acked) =>
          let r := so_r s in
          let r := mk_srtt (match una with [] => -1 | _ => 0 end) 0 (s16 (Z.shiftr (rt_sa r) 3 + rt_sv r)) (rt_sa r) (rt_sv r)
                     (rttest r) (rtseq r) (rto_end r) in
          let q := mk_squeue uns una ackno (snd_nxt q) (snd_lbb q) (u16 (snd_buf q + recv_acked)) queuelen in
          let s := so_set_r r (so_set_c c (so_set_q q s)) in
          let s := if has_flag (so_flags s) TF_RTO && rto_done (rto_end r) una uns then so_clear_flag TF_RTO s else s in
          Some (recv_acked, s)
      end
  end.

(** A duplicate acknowledgement. *)
Definition ack_dup (busy : bool) (s : tsnd) : tsnd :=
  let c := so_c s in
  let d := if dupacks c <? u8 (dupacks c + 1) then dupacks c + 1 else dupacks c in
  let cw := if 3 <? d then TCP_WND_INC (cwnd c) (so_mss s) else cwnd c in
  let s := so_set_c (mk_scong cw (ssthresh c) (bytes_acked c) d) s in
  if 3 <=? d then tcp_rexmit_fast busy s else s.

(** The estimate of the round trip time. *)
Definition rtt_estimate (ticks ackno : Z) (r : srtt) : srtt :=
  if negb (rttest r =? 0) && TCP_SEQ_LT (rtseq r) ackno then
    let m := s16 (ticks - rttest r) in
    let m := s16 (m - Z.shiftr (rt_sa r) 3) in
    let sa := s16 (rt_sa r + m) in
    let m := if m <? 0 then s16 (- m) else m in
    let m := s16 (m - Z.shiftr (rt_sv r) 2) in
    let sv := s16 (rt_sv r + m) in
    mk_srtt (rtime r) (nrtx r) (s16 (Z.shiftr sa 3 + sv)) sa sv 0 (rtseq r) (rto_end r)
  else r.

(** The first half of [tcp_receive], for a segment with an acknowledgement: the bytes that
    are acknowledged ([recv_acked]) and whether an empty acknowledgement is sent. *)
Definition tcp_receive_ack (ticks : Z) (busy : bool) (tcplen seqno ackno wnd : Z) (s : tsnd) : option (Z * bool * tsnd) :=
  let w := so_w s in
  let right_wnd_edge := u32 (snd_wnd w + snd_wl2 w) in
  let w := update_window seqno ackno wnd w in
  let s := so_set_w w s in
  let q := so_q s in
  match
    (if TCP_SEQ_LEQ ackno (lastack q) then
       let dup := (tcplen =? 0) && (u32 (snd_wl2 w + snd_wnd w) =? right_wnd_edge) && (0 <=? rtime (so_r s)) && (lastack q =? ackno) in
       Some (0, false, if dup then ack_dup busy s else s)
     else if TCP_SEQ_BETWEEN ackno (lastack q + 1) (snd_nxt q) then
       match ack_new ackno s with
       | None => None
       | Some (acked, s) => Some (acked, false, s)
       end
     else Some (0, true, s))
  with
  | None => None
  | Some (acked, empty_ack, s) => Some (acked, empty_ack, so_set_r (rtt_estimate ticks ackno (so_r s)) s)
  end.

(** The same with what [tcp_process] does before. *)
Definition tcp_process_ack (ticks : Z) (busy : bool) (tcplen seqno ackno wnd : Z) (s : tsnd) : option (Z * bool * tsnd) :=
  tcp_receive_ack ticks busy tcplen seqno ackno wnd (so_set_p (mk_persist (persist_cnt (so_p s)) (persist_backoff (so_p s)) 0) s).

(** ** The slow timer *)

Definition TCP_MAXRTX : Z := 12.
Definition TCP_SYNMAXRTX : Z := 6.
Definition tcp_backoff : list Z := [1; 2; 3; 4; 5; 6; 7; 7; 7; 7; 7; 7; 7].
Definition tcp_persist_backoff : list Z := [3; 6; 12; 24; 48; 96; 120].

Inductive slow_result := SlowRemove | SlowGoes (s : tsnd) (out : list tseg).

(** The persist timer has run out: a probe, or the first segment is split. *)
Definition persist_fire (mem : bool) (ticks : Z) (ack : option bool) (route : bool) (tx : list tx_result) (s : tsnd) :
    option (bool * tsnd * list tseg) :=
  if snd_wnd (so_w s) =? 0 then
    Some (tcp_zero_window_probe mem (if route then match tx with r :: _ => r | [] => TxErr end else TxErr) s)
  else
    match tcp_split_unsent_seg mem (snd_wnd (so_w s)) s with
    | None => None
    | Some (false, s) => Some (true, s, [])
    | Some (true, s) => let '(ok, s, out) := tcp_output ticks false ack route tx s in Some (negb ok, s, out)
    end.

Definition slowtmr_persist (mem : bool) (ticks : Z) (ack : option bool) (route : bool) (tx : list tx_result) (s : tsnd) : option slow_result :=
  assert_that (match unacked (so_q s) with [] => true | _ => false end)
    (assert_that (match unsent (so_q s) with [] => false | _ => true end)
      (let p := so_p s in
       if TCP_MAXRTX <=? persist_probe p then Some SlowRemove
       else
         let backoff_cnt := nth (Z.to_nat (persist_backoff p - 1)) tcp_persist_backoff 0 in
         let cnt := if persist_cnt p <? backoff_cnt then persist_cnt p + 1 else persist_cnt p in
         let s := so_set_p (mk_persist cnt (persist_backoff p) (persist_probe p)) s in
         if backoff_cnt <=? cnt then
           match persist_fire mem ticks ack route tx s with
           | None => None
           | Some (next_slot, s, out) =>
               let p := so_p s in
               Some (SlowGoes (if next_slot
                               then so_set_p (mk_persist 0 (if persist_backoff p <? 7 then persist_backoff p + 1 else persist_backoff p) (persist_probe p)) s
                               else s) out)
           end
         else Some (SlowGoes s []))).

(** The retransmission timer has run out: it gets longer, and the windows are reduced. *)
Definition rto_reduce (s : tsnd) : tsnd :=
  let r := so_r s in
  let calc := Z.shiftl (Z.shiftr (rt_sa r) 3 + rt_sv r) (nth (Z.to_nat (Z.min (nrtx r) 12)) tcp_backoff 0) in
  let rto := if so_state s =? SYN_SENT then rto r else s16 (Z.min calc 0x7fff) in
  let c := so_c s in
  let eff_wnd := Z.min (cwnd c) (snd_wnd (so_w s)) in
  let ss := Z.shiftr eff_wnd 1 in
  let ss := if ss <? u16 (Z.shiftl (so_mss s) 1) then u16 (Z.shiftl (so_mss s) 1) else ss in
  so_set_r (mk_srtt 0 (nrtx r) rto (rt_sa r) (rt_sv r) (rttest r) (rtseq r) (rto_end r))
    (so_set_c (mk_scong (so_mss s) ss 0 (dupacks c)) s).

Definition slowtmr_rexmit (busy : bool) (ticks : Z) (ack : option bool) (route : bool) (tx : list tx_result) (s : tsnd) : slow_result :=
  let r := so_r s in
  let rtime := if (0 <=? rtime r) && (rtime r <? 0x7fff) then rtime r + 1 else rtime r in
  let s := so_set_r (mk_srtt rtime (nrtx r) (rto r) (rt_sa r) (rt_sv r) (rttest r) (rtseq r) (rto_end r)) s in
  if rto r <=? rtime then
    let '(ok, s) := tcp_rexmit_rto_prepare busy s in
    if ok || (match unacked (so_q s), unsent (so_q s) with [], _ :: _ => true | _, _ => false end) then
      let '(s, out) := tcp_rexmit_rto_commit ticks ack route tx (rto_reduce s) in SlowGoes s out
    else SlowGoes s []
  else SlowGoes s [].

(** What [tcp_slowtmr] sends for a connection, or that it gives up. *)
Definition tcp_slowtmr_send (mem busy : bool) (ticks : Z) (ack : option bool) (route : bool) (tx : list tx_result) (s : tsnd) : option slow_result :=
  if (so_state s =? SYN_SENT) && (TCP_SYNMAXRTX <=? nrtx (so_r s)) then Some SlowRemove
  else if TCP_MAXRTX <=? nrtx (so_r s) then Some SlowRemove
  else if 0 <? persist_backoff (so_p s) then slowtmr_persist mem ticks ack route tx s
  else Some (slowtmr_rexmit busy ticks ack route tx s).
