(* ===== verification/TcpOutProps.v ===== *)
(** * Sending TCP segments: the queues

    The two queues of a connection hold the part of the stream that is not acknowledged,
    cut into segments that follow each other; a segment is in one of the two queues. *)

From S2P Require Import Prelude CString TcpIn TcpInProps TcpOut.

(** ** Lists *)

Lemma unsnoc_app {A} (l : list A) x : unsnoc (l ++ [x]) = Some (l, x).
Proof. induction l as [|y l IH]; [done|]. cbn [app unsnoc]. rewrite IH. by destruct l. Qed.

Lemma unsnoc_Some {A} (l l' : list A) x : unsnoc l = Some (l', x) → l = l' ++ [x].
Proof. destruct l as [|y l _] using rev_ind; [done|]. rewrite unsnoc_app. by intros [= -> ->]. Qed.

Lemma unsnoc_None {A} (l : list A) : unsnoc l = None → l = [].
Proof. destruct l as [|y l _] using rev_ind; [done|]. by rewrite unsnoc_app. Qed.

(** ** Flags that do not matter for the length *)

Lemma add_flag_bits f x k : Z.testbit x k = false → Z.testbit (Z.lor f x) k = Z.testbit f k.
Proof. intros H. by rewrite Z.lor_spec, H, orb_false_r. Qed.

(** Equal positions of sequence numbers. *)
Ltac near := rewrite <-?Z.add_sub_assoc, ?u32_add_l, ?u32_sub_l, ?u32_add_r, ?u32_u32; f_equal; lia.

Section out.
Context (iss : Z).

(** [ACK] and [PSH]. *)
Definition neutral (f : Z) : Prop := Z.testbit f 0 = false ∧ Z.testbit f 1 = false.

Lemma seg_at_flags W o g f : neutral f → seg_at W iss o (os_seg g) →
  seg_at W iss o (os_seg (os_add_flags f g)) ∧ TCP_TCPLEN (os_seg (os_add_flags f g)) = TCP_TCPLEN (os_seg g) ∧
  fin (os_seg (os_add_flags f g)) = fin (os_seg g).
Proof.
  intros [F0 F1] (H1 & H2 & H3 & H4 & H5 & H6 & H7 & H8).
  assert (fin (os_seg (os_add_flags f g)) = fin (os_seg g)) as Hf by (unfold fin; cbn; rewrite !fin_bit; by apply add_flag_bits).
  assert (seg_at W iss o (os_seg (os_add_flags f g))) as Hs.
  { split_and!; cbn; try done; [rewrite syn_bit, add_flag_bits, <-syn_bit by done; done|by rewrite <-Hf in H7]. }
  split_and!; [done| |done]. rewrite (tcplen_fin _ _ _ _ Hs), Hf. by rewrite (tcplen_fin W iss o (os_seg g)) by (by split_and!).
Qed.

(** A longer stream has the same segments, but for the end. *)
Lemma seg_at_more W W' o g : seg_at W iss o g → fin g = false → seg_at (W ++ W') iss o g.
Proof.
  intros (H1 & H2 & H3 & H4 & H5 & H6 & H7 & H8) Hf. split_and!; try done; rewrite ?length_app; try lia.
  - rewrite drop_app_le by lia. rewrite take_app_le; [done|]. rewrite length_drop. lia.
  - by rewrite Hf.
Qed.

(** ** The segments of both queues *)

(** Segments one after the other, with a mark for those that were sent. *)
Fixpoint chain (W : list Z) (lo : Z) (al : list (bool * oseg)) (hi : Z) : Prop :=
  match al with
  | [] => lo = hi
  | (_, g) :: al => seg_at W iss lo (os_seg g) ∧ 0 < TCP_TCPLEN (os_seg g) ∧ chain W (lo + TCP_TCPLEN (os_seg g)) al hi
  end.

Definition una (al : list (bool * oseg)) : list oseg := (filter (λ x, x.1 = true) al).*2.
Definition uns (al : list (bool * oseg)) : list oseg := (filter (λ x, x.1 = false) al).*2.

Lemma una_app a b : una (a ++ b) = una a ++ una b.
Proof. unfold una. by rewrite filter_app, fmap_app. Qed.
Lemma uns_app a b : uns (a ++ b) = uns a ++ uns b.
Proof. unfold uns. by rewrite filter_app, fmap_app. Qed.
Lemma una_cons b g al : una ((b, g) :: al) = (if b then [g] else []) ++ una al.
Proof. unfold una. by destruct b. Qed.
Lemma uns_cons b g al : uns ((b, g) :: al) = (if b then [] else [g]) ++ uns al.
Proof. unfold uns. by destruct b. Qed.

Lemma segs_app W lo a b hi : chain W lo (a ++ b) hi ↔ ∃ m, chain W lo a m ∧ chain W m b hi.
Proof.
  revert lo. induction a as [|[x g] a IH]; intros lo; cbn.
  - split; [by exists lo|by intros (m & -> & H)].
  - rewrite IH. naive_solver.
Qed.

Lemma chain_le W lo al hi : chain W lo al hi → lo ≤ hi ∧ (al = [] ∨ lo < hi).
Proof.
  revert lo. induction al as [|[b g] al IH]; intros lo; cbn; [intros ->; split; [lia|by left]|].
  intros (H1 & H2 & H3). destruct (IH _ H3). split; [lia|right; lia].
Qed.

(** The bytes among [x] positions. *)
Definition bytes (W : list Z) (x : Z) : Z := Z.min x (Z.of_nat (length W)).

Definition lens (al : list (bool * oseg)) : Z := foldr (λ x n, sg_len (os_seg x.2) + n) 0 al.
Definition clens (l : list oseg) : Z := foldr (λ g n, os_clen g + n) 0 l.

Lemma lens_cons b g al : lens ((b, g) :: al) = sg_len (os_seg g) + lens al.
Proof. done. Qed.

Lemma chain_lens W lo al hi : chain W lo al hi → lens al = bytes W hi - bytes W lo.
Proof.
  revert lo. induction al as [|[b g] al IH]; intros lo; [cbn; intros ->; lia|]. rewrite lens_cons. cbn [chain]. intros (H1 & H2 & H3). rewrite (IH _ H3).
  pose proof (tcplen_fin _ _ _ _ H1) as Ht. destruct H1 as (_ & A2 & A3 & _ & A5 & _ & A7 & _). unfold bytes.
  destruct (fin (os_seg g)); [specialize (A7 eq_refl)|]; lia.
Qed.

Lemma chain_end W lo al hi : chain W lo al hi → al ≠ [] → 0 ≤ lo ∧ hi ≤ Z.of_nat (length W) + 1.
Proof.
  revert lo. induction al as [|[b g] al IH]; intros lo; cbn; [done|]. intros (H1 & H2 & H3) _.
  pose proof (seg_end _ _ _ _ H1). split; [apply H1|]. destruct al as [|x al]; [cbn in H3; lia|]. by apply (IH _ H3).
Qed.

(** A chain that ends with the data has no FIN. *)
Lemma chain_more W W' lo al hi : chain W lo al hi → hi ≤ Z.of_nat (length W) → chain (W ++ W') lo al hi ∧ Forall (λ x, fin (os_seg x.2) = false) al.
Proof.
  revert lo. induction al as [|[b g] al IH]; intros lo; cbn; [done|]. intros (H1 & H2 & H3) Hh.
  pose proof (chain_le _ _ _ _ H3) as [Hle _]. pose proof (seg_end _ _ _ _ H1) as (_ & Hf & _).
  assert (fin (os_seg g) = false) as Hfin by (rewrite <-Hf; lia). destruct (IH _ H3 Hh). split; [|by constructor].
  split_and!; try done. by apply seg_at_more.
Qed.

(** The marks do not matter. *)
Lemma chain_marks W lo al al' hi : al.*2 = al'.*2 → chain W lo al hi → chain W lo al' hi.
Proof.
  revert lo al'. induction al as [|[b g] al IH]; intros lo [|[b' g'] al'] Heq; try done. cbn in Heq. injection Heq as <- Heq.
  cbn. intros (H1 & H2 & H3). split_and!; try done. by eapply IH.
Qed.

(** Where the segments of a chain are. *)
Lemma chain_elem W lo al hi : chain W lo al hi →
  Forall (λ x, ∃ o, seg_at W iss o (os_seg x.2) ∧ lo ≤ o ∧ 0 < TCP_TCPLEN (os_seg x.2) ∧ o + TCP_TCPLEN (os_seg x.2) ≤ hi) al.
Proof.
  revert lo. induction al as [|[b g] al IH]; intros lo; cbn; [done|]. intros (H1 & H2 & H3).
  pose proof (chain_le _ _ _ _ H3) as [Hle _]. constructor; [by exists lo; split_and!; try lia|].
  eapply Forall_impl; [exact (IH _ H3)|]. intros [b' g'] (o & A1 & A2 & A3 & A4). exists o. split_and!; try done; lia.
Qed.

Lemma elem_una al g : g ∈ una al ↔ (true, g) ∈ al.
Proof. unfold una. rewrite list_elem_of_fmap. setoid_rewrite list_elem_of_filter. split; [intros ([b g'] & -> & <- & H); done|]. intros H. by exists (true, g). Qed.
Lemma elem_uns al g : g ∈ uns al ↔ (false, g) ∈ al.
Proof. unfold uns. rewrite list_elem_of_fmap. setoid_rewrite list_elem_of_filter. split; [intros ([b g'] & -> & <- & H); done|]. intros H. by exists (false, g). Qed.

(** ** Finding a segment in the chain *)

Lemma uns_first al g rest : uns al = g :: rest → ∃ l1 l2, al = l1 ++ (false, g) :: l2 ∧ uns l1 = [] ∧ uns l2 = rest.
Proof.
  induction al as [|[b h] al IH]; [done|]. rewrite uns_cons. destruct b; cbn [app].
  - intros (l1 & l2 & -> & H1 & H2)%IH. exists ((true, h) :: l1), l2. by rewrite uns_cons.
  - intros [= -> <-]. by exists [], al.
Qed.

Lemma una_first al g rest : una al = g :: rest → ∃ l1 l2, al = l1 ++ (true, g) :: l2 ∧ una l1 = [] ∧ una l2 = rest.
Proof.
  induction al as [|[b h] al IH]; [done|]. rewrite una_cons. destruct b; cbn [app].
  - intros [= -> <-]. by exists [], al.
  - intros (l1 & l2 & -> & H1 & H2)%IH. exists ((false, h) :: l1), l2. by rewrite una_cons.
Qed.

Lemma uns_last al g front : uns al = front ++ [g] → ∃ l1 l2, al = l1 ++ (false, g) :: l2 ∧ uns l1 = front ∧ uns l2 = [].
Proof.
  induction al as [|[b h] al IH] using rev_ind; [by destruct front|]. rewrite uns_app, uns_cons. destruct b.
  - cbn. rewrite app_nil_r. intros (l1 & l2 & -> & H1 & H2)%IH. exists l1, (l2 ++ [(true, h)]). rewrite <-app_assoc. split_and!; try done.
    rewrite uns_app, H2. done.
  - cbn. intros [<- [= ->]]%app_inj_tail. by exists al, [].
Qed.

Definition seq_before (h g : oseg) : Prop :=
  TCP_SEQ_LT (sg_seqno (os_seg h)) (sg_seqno (os_seg g)) = true ∧ TCP_SEQ_LT (sg_seqno (os_seg g)) (sg_seqno (os_seg h)) = false.

Lemma seq_before_near W W' o o' h g : seg_at W iss o (os_seg h) → seg_at W' iss o' (os_seg g) → o < o' < o + 2 ^ 31 → seq_before h g.
Proof.
  intros H1 H2 Ho. unfold seq_before. rewrite (seq_lt_near _ _ o o' iss); [|rewrite (proj1 H1); near|rewrite (proj1 H2); near|lia].
  rewrite (seq_lt_near _ _ o' o iss); [|rewrite (proj1 H2); near|rewrite (proj1 H1); near|lia]. split; [apply Z.ltb_lt|apply Z.ltb_ge]; lia.
Qed.

(** Sequence numbers are in the order of the chain. *)
Lemma chain_order W lo l1 b g l2 hi : chain W lo (l1 ++ (b, g) :: l2) hi → hi - lo ≤ 2 ^ 20 →
  Forall (λ x, seq_before x.2 g) l1 ∧ Forall (λ x, seq_before g x.2) l2.
Proof.
  intros (m & H1 & H2 & H3 & H4)%segs_app Hd. pose proof (chain_le _ _ _ _ H1) as [L1 _]. pose proof (chain_le _ _ _ _ H4) as [L2 _].
  split; (eapply Forall_impl; [eapply chain_elem; done|]); intros [b' h] (o & A1 & A2 & A3 & A4); cbn [snd] in *;
    (eapply seq_before_near; [done..|lia]).
Qed.

Lemma insert_sorted_spec g a b :
  Forall (λ h, seq_before h g) a → Forall (λ h, seq_before g h) b → insert_sorted g (a ++ b) = a ++ g :: b.
Proof.
  intros Ha Hb. induction Ha as [|h a [Hh _] Ha IH]; cbn [app insert_sorted].
  - destruct b as [|h b]; [done|]. cbn [insert_sorted]. inversion_clear Hb as [|? ? [_ Hh] _]. by rewrite Hh.
  - by rewrite Hh, IH.
Qed.

Lemma Forall_una (P : oseg → Prop) al : Forall (λ x, P x.2) al → Forall P (una al).
Proof. intros H. apply Forall_forall. intros g Hg%elem_una. rewrite Forall_forall in H. by apply (H (true, g)). Qed.
Lemma Forall_uns (P : oseg → Prop) al : Forall (λ x, P x.2) al → Forall P (uns al).
Proof. intros H. apply Forall_forall. intros g Hg%elem_uns. rewrite Forall_forall in H. by apply (H (false, g)). Qed.

(** The places of a segment in both queues. *)
Lemma chain_order_una W lo l1 b g l2 hi : chain W lo (l1 ++ (b, g) :: l2) hi → hi - lo ≤ 2 ^ 20 →
  Forall (λ h, seq_before h g) (una l1) ∧ Forall (λ h, seq_before g h) (una l2) ∧
  Forall (λ h, seq_before h g) (uns l1) ∧ Forall (λ h, seq_before g h) (uns l2).
Proof.
  intros Hc Hd. destruct (chain_order _ _ _ _ _ _ _ Hc Hd) as [H1 H2]. split_and!.
  - by apply (Forall_una (λ h, seq_before h g)).
  - by apply (Forall_una (λ h, seq_before g h)).
  - by apply (Forall_uns (λ h, seq_before h g)).
  - by apply (Forall_uns (λ h, seq_before g h)).
Qed.

Lemma put_unacked_spec g a b :
  Forall (λ h, seq_before h g) a → Forall (λ h, seq_before g h) b → put_unacked g (a ++ b) = a ++ g :: b.
Proof.
  intros Ha Hb. unfold put_unacked. destruct b as [|h r _] using rev_ind.
  - rewrite app_nil_r. destruct a as [|h r _] using rev_ind; [done|]. rewrite unsnoc_app.
    apply Forall_app in Ha as [_ Ha]. inversion_clear Ha as [|? ? [_ Hh] _]. by rewrite Hh.
  - rewrite app_assoc, unsnoc_app. pose proof Hb as [_ Hb']%Forall_app. inversion_clear Hb' as [|? ? [Hh _] _].
    rewrite Hh, <-app_assoc. by apply insert_sorted_spec.
Qed.

(** ** The invariant *)

(** The end of the stream, with its FIN. *)
Definition upto (W : list Z) (F : bool) : Z := Z.of_nat (length W) + (if F then 1 else 0).

(** Segments that were sent end at or before [n]. *)
Fixpoint sent_upto (lo : Z) (al : list (bool * oseg)) (n : Z) : Prop :=
  match al with
  | [] => True
  | (b, g) :: al => (b = true → lo + TCP_TCPLEN (os_seg g) ≤ n) ∧ sent_upto (lo + TCP_TCPLEN (os_seg g)) al n
  end.

(** [W] was written, a FIN behind it if [F]; the peer has acknowledged all before [a] and
    was given all before [n], the segments start at [A]. *)
Definition squeues (W : list Z) (F : bool) (A a n : Z) (al : list (bool * oseg)) (ml : Z) (q : squeue) : Prop :=
  chain W A al (upto W F) ∧ 0 ≤ A ≤ a ∧ a ≤ n ≤ upto W F ∧
  match al with (_, g) :: _ => a < A + TCP_TCPLEN (os_seg g) | [] => True end ∧ sent_upto A al n ∧
  unsent q = uns al ∧ unacked q = una al ∧ lastack q = u32 (iss + a) ∧ snd_nxt q = u32 (iss + n) ∧
  (F = false → snd_lbb q = u32 (iss + Z.of_nat (length W))) ∧
  snd_buf q = SND_BUF - (Z.of_nat (length W) - bytes W A) ∧ 0 ≤ snd_buf q ∧
  snd_queuelen q = clens al.*2 ∧ clens al.*2 < 2 ^ 16 ∧
  Forall (λ g, os_bufs g ≠ [] ∧ sg_len (os_seg g) ≤ ml) al.*2.

(** The peer allows segments of at least one byte. *)
Definition sparams (F : bool) (s : tsnd) : Prop :=
  1 ≤ so_mss s < 2 ^ 16 ∧ 2 ≤ snd_wnd_max (so_w s) ∧ 0 ≤ snd_wnd (so_w s) < 2 ^ 16 ∧
  (F = true → so_state s ≠ ESTABLISHED ∧ so_state s ≠ CLOSE_WAIT ∧ so_state s ≠ SYN_SENT ∧ so_state s ≠ SYN_RCVD).

Definition sinv (W : list Z) (F : bool) (T a : Z) (s : tsnd) : Prop :=
  sparams F s ∧ ∃ A n al, squeues W F A a n al (mss_local s) (so_q s) ∧ T = bytes W A.

(** What was sent is in front of what was not. *)
Definition in_order (q : squeue) : Prop :=
  match unsnoc (unacked q), unsent q with Some (_, g), h :: _ => TCP_SEQ_LT (sg_seqno (os_seg g)) (sg_seqno (os_seg h)) = true | _, _ => True end.

Lemma mss_local_pos F s : sparams F s → 1 ≤ mss_local s < 2 ^ 16.
Proof.
  intros (H1 & H2 & _). unfold mss_local. assert (1 ≤ snd_wnd_max (so_w s) / 2) by (apply Z.div_le_lower_bound; lia).
  destruct (Z.eqb_spec (Z.min (so_mss s) (snd_wnd_max (so_w s) / 2)) 0); lia.
Qed.

(** Positions of one connection are near to each other. *)
Lemma squeues_near W F A a n al ml q : squeues W F A a n al ml q → upto W F - A ≤ 2 ^ 17 ∧ n - a ≤ 2 ^ 17.
Proof.
  intros (H1 & H2 & H3 & _ & _ & _ & _ & _ & _ & _ & H11 & H12 & _). unfold upto, bytes, SND_BUF in *. destruct F; lia.
Qed.

Lemma clens_app l l' : clens (l ++ l') = clens l + clens l'.
Proof. induction l as [|g l IH]; [done|]. cbn [app]. unfold clens in *. cbn [foldr]. lia. Qed.
Lemma clens_nonneg l : 0 ≤ clens l.
Proof. induction l as [|g l IH]; [done|]. unfold clens, os_clen in *. cbn [foldr]. lia. Qed.
Lemma clens_cons g l : clens (g :: l) = os_clen g + clens l.
Proof. done. Qed.

Lemma clens_split al : clens al.*2 = clens (una al) + clens (uns al).
Proof.
  induction al as [|[b g] al IH]; [done|]. cbn [fmap list_fmap snd]. rewrite clens_cons, una_cons, uns_cons, IH.
  destruct b; cbn [app]; rewrite ?clens_cons; lia.
Qed.

Lemma clens_zero l : Forall (λ g, os_bufs g ≠ []) l → clens l = 0 → l = [].
Proof.
  intros Hl. destruct Hl as [|g l Hg _]; [done|]. rewrite clens_cons. pose proof (clens_nonneg l). unfold os_clen.
  destruct (os_bufs g); [done|]. cbn. lia.
Qed.

Lemma sent_upto_app lo a b n W m : chain W lo a m → sent_upto lo (a ++ b) n ↔ sent_upto lo a n ∧ sent_upto m b n.
Proof.
  revert lo. induction a as [|[x g] a IH]; intros lo; cbn [chain app sent_upto]; [intros ->; tauto|].
  intros (_ & _ & Hc). rewrite (IH _ Hc). tauto.
Qed.

Lemma sent_upto_mono lo al n n' : n ≤ n' → sent_upto lo al n → sent_upto lo al n'.
Proof. intros Hn. revert lo. induction al as [|[b g] al IH]; intros lo; [done|]. cbn [sent_upto]. intros [H1 H2]. split; [intros Hb; specialize (H1 Hb); lia|auto]. Qed.
End out.
