(* ===== verification/TcpOutAck.v ===== *)
(** * Sending TCP segments: acknowledgements

    An acknowledgement takes whole segments from the front of both queues; a duplicate
    one moves the first segment back to those that are not sent. *)

From S2P Require Import Prelude CString TcpIn TcpInProps TcpOut TcpOutProps.

Section ack.
Context (iss : Z).

(** The invariant does not depend on timers, flags and congestion control. *)
Lemma sinv_frame W F T a s s' : so_q s' = so_q s → so_mss s' = so_mss s → so_w s' = so_w s → so_state s' = so_state s →
  sinv iss W F T a s → sinv iss W F T a s'.
Proof. unfold sinv, sparams, mss_local. by intros -> -> -> ->. Qed.

Lemma sparams_q F q s : sparams F s → sparams F (so_set_q q s).
Proof. done. Qed.

Lemma Forall_weaken_ml ml ml' (l : list oseg) : ml ≤ ml' → Forall (λ g, os_bufs g ≠ [] ∧ sg_len (os_seg g) ≤ ml) l →
  Forall (λ g, os_bufs g ≠ [] ∧ sg_len (os_seg g) ≤ ml') l.
Proof. intros H Hl. eapply Forall_impl; [exact Hl|]. intros g [? ?]. split; [done|lia]. Qed.

(** A larger window of the peer allows larger segments. *)
Lemma sinv_window W F T a s w :
  sinv iss W F T a s → snd_wnd_max (so_w s) ≤ snd_wnd_max w → 0 ≤ snd_wnd w < 2 ^ 16 → sinv iss W F T a (so_set_w w s).
Proof.
  intros [(P1 & P2 & P3 & P4) (A & n & al & H & ->)] Hm Hw. split; [split_and!; try done; cbn; lia|]. exists A, n, al. split; [|done].
  destruct H as (C1 & C2 & C3 & C4 & C5 & C6 & C7 & C8 & C9 & C10 & C11 & C12 & C13 & C14 & C15). split_and!; try done; try lia.
  eapply Forall_weaken_ml; [|exact C15]. unfold mss_local. cbn.
  assert (1 ≤ snd_wnd_max (so_w s) / 2) by (apply Z.div_le_lower_bound; lia).
  assert (snd_wnd_max (so_w s) / 2 ≤ snd_wnd_max w / 2) by (apply Z.div_le_mono; lia).
  repeat case_match; lia.
Qed.

Lemma update_window_spec W F T a s seqno ackno wnd :
  sinv iss W F T a s → 0 ≤ wnd < 2 ^ 16 → sinv iss W F T a (so_set_w (update_window seqno ackno wnd (so_w s)) s).
Proof. intros H Hw. apply sinv_window; [done|..]; unfold update_window; case_match; cbn; try lia. destruct H as [(_ & _ & ? & _) _]. done. Qed.

(** ** Going back *)

(** The first segment that was sent is not sent any more. *)
Lemma sent_upto_unmark lo l1 g l2 n W m : chain iss W lo l1 m → sent_upto lo (l1 ++ (true, g) :: l2) n → sent_upto lo (l1 ++ (false, g) :: l2) n.
Proof. intros Hc. rewrite !(sent_upto_app iss _ _ _ _ _ _ Hc). cbn [sent_upto]. naive_solver. Qed.

Lemma unmark_fst {A} (l1 l2 : list (bool * A)) g b : (l1 ++ (b, g) :: l2).*2 = l1.*2 ++ g :: l2.*2.
Proof. by rewrite fmap_app. Qed.

Lemma head_marks W A a l1 b g l2 hi : chain iss W A (l1 ++ (b, g) :: l2) hi →
  match l1 ++ (b, g) :: l2 with (_, h) :: _ => a < A + TCP_TCPLEN (os_seg h) | [] => True end →
  ∀ b', match l1 ++ (b', g) :: l2 with (_, h) :: _ => a < A + TCP_TCPLEN (os_seg h) | [] => True end.
Proof. intros _ H b'. by destruct l1 as [|[b0 h] l1]. Qed.

Lemma tcp_rexmit_inv W F T a busy s : sinv iss W F T a s → sinv iss W F T a (tcp_rexmit busy s).2.
Proof.
  intros H. unfold tcp_rexmit. destruct (unacked (so_q s)) as [|g rest] eqn:Hu; [done|]. destruct busy; [done|].
  set (q := q_set_unacked _ _). apply (sinv_frame W F T a (so_set_q q s)); [done..|].
  destruct H as [P (A & n & al & H & ->)]. split; [done|].
  pose proof (squeues_near _ _ _ _ _ _ _ _ _ H) as [Hn _].
  destruct H as (C1 & C2 & C3 & C4 & C5 & C6 & C7 & C8 & C9 & C10 & C11 & C12 & C13 & C14 & C15).
  rewrite C7 in Hu. destruct (una_first _ _ _ Hu) as (l1 & l2 & -> & U1 & U2).
  exists A, n, (l1 ++ (false, g) :: l2). split; [|done]. rewrite !unmark_fst in *.
  destruct (chain_order_una _ _ _ _ _ _ _ _ C1 ltac:(lia)) as (_ & _ & O3 & O4).
  pose proof C1 as (m & K1 & K2)%segs_app.
  split_and!; try done; try lia; cbn.
  - eapply chain_marks; [|exact C1]. by rewrite !unmark_fst.
  - by eapply head_marks.
  - by eapply sent_upto_unmark.
  - rewrite C6, uns_app, uns_cons. cbn [app]. rewrite uns_app, uns_cons. by apply insert_sorted_spec.
  - by rewrite una_app, una_cons, U1, U2.
  - by rewrite unmark_fst.
  - by rewrite unmark_fst.
  - by rewrite unmark_fst.
Qed.

Lemma ack_dup_inv W F T a busy s : sinv iss W F T a s → sinv iss W F T a (ack_dup busy s).
Proof.
  intros H. unfold ack_dup. case_match; [|by eapply sinv_frame; [..|exact H]]. set (s' := so_set_c _ s).
  assert (sinv iss W F T a s') as H' by (by eapply sinv_frame; [..|exact H]). unfold tcp_rexmit_fast.
  destruct (unacked (so_q s')); [done|]. destruct (has_flag (so_flags s') TF_INFR); [done|]. pose proof (tcp_rexmit_inv W F T a busy s' H') as Hr.
  destruct (tcp_rexmit busy s') as [[] s'']; [|done]. by eapply sinv_frame; [..|exact Hr].
Qed.

(** ** Taking segments *)

Definition acked (ackno : Z) (g : oseg) : bool := TCP_SEQ_LEQ (sg_seqno (os_seg g) + TCP_TCPLEN (os_seg g)) ackno.
Definition slens (l : list oseg) : Z := foldr (λ g n, sg_len (os_seg g) + n) 0 l.

Lemma slens_cons g l : slens (g :: l) = sg_len (os_seg g) + slens l.
Proof. done. Qed.

Lemma slens_split al : lens al = slens (una al) + slens (uns al).
Proof.
  induction al as [|[b g] al IH]; [done|]. rewrite lens_cons, una_cons, uns_cons, IH. destruct b; cbn [app]; rewrite ?slens_cons; lia.
Qed.

Lemma free_acked_spec ackno l1 l2 other q r :
  Forall (λ g, acked ackno g = true) l1 → Forall (λ g, acked ackno g = false) l2 → Forall (λ g, 0 ≤ sg_len (os_seg g)) l1 →
  q = clens (l1 ++ l2) + clens other → q < 2 ^ 16 → 0 ≤ r → r + slens l1 < 2 ^ 16 →
  tcp_free_acked_segments ackno (l1 ++ l2) other q r = Some (l2, q - clens l1, r + slens l1).
Proof.
  intros H1 H2 H3 Hq Hlt. revert q r Hq Hlt. induction H1 as [|g l1 Hg H1 IH]; intros q r Hq Hlt Hr Hs.
  - cbn [app slens clens foldr]. rewrite Z.sub_0_r, Z.add_0_r. destruct l2 as [|g l2]; [done|]. cbn [tcp_free_acked_segments].
    inversion_clear H2 as [|? ? Hg _]. unfold acked in Hg. by rewrite Hg.
  - inversion_clear H3 as [|? ? Hn H3']. cbn [app tcp_free_acked_segments]. unfold acked in Hg. rewrite Hg.
    assert (0 ≤ slens l1) as Hs1. { clear -H3'. induction H3'; [done|]. rewrite slens_cons. lia. }
    rewrite slens_cons in Hs. cbn [app] in Hq. rewrite clens_cons in Hq. pose proof (clens_nonneg (l1 ++ l2)) as Hc1. pose proof (clens_nonneg other) as Hc2.
    assert (0 ≤ os_clen g) as Hgl by (unfold os_clen; lia). rewrite (proj2 (Z.leb_le _ _)) by lia. cbn [assert_that].
    rewrite !u16_small by lia. replace (_ || _) with true.
    + cbn [assert_that]. rewrite IH by lia || done. rewrite clens_cons, slens_cons. apply (f_equal Some), f_equal2; [apply f_equal2; [done|lia]|lia].
    + symmetry. destruct (Z.eqb_spec (q - os_clen g) 0) as [|Hne]; [done|]. cbn [orb]. destruct (l1 ++ l2), other; try done.
      exfalso. apply Hne. unfold clens in *. cbn [foldr] in *. lia.
Qed.

(** The chain at an acknowledgement. *)
Lemma chain_cut W lo al hi a : chain iss W lo al hi → ∃ l1 l2 m, al = l1 ++ l2 ∧ chain iss W lo l1 m ∧ chain iss W m l2 hi ∧
  (l1 = [] ∨ m ≤ a) ∧ match l2 with (_, g) :: _ => a < m + TCP_TCPLEN (os_seg g) | [] => True end.
Proof.
  revert lo. induction al as [|[b g] al IH]; intros lo.
  - cbn. intros ->. exists [], [], hi. by split_and!; try left.
  - cbn [chain]. intros (H1 & H2 & H3). destruct (Z.lt_ge_cases a (lo + TCP_TCPLEN (os_seg g))) as [Hlt|Hge].
    + exists [], ((b, g) :: al), lo. by split_and!; try left.
    + destruct (IH _ H3) as (l1 & l2 & m & -> & K1 & K2 & K3 & K4). exists ((b, g) :: l1), l2, m. split_and!; try done.
      right. destruct K3 as [->|]; [cbn in K1; lia|done].
Qed.

Lemma acked_at W o g a : seg_at W iss o (os_seg g) → - 2 ^ 20 ≤ o - a ≤ 2 ^ 20 → 
  acked (u32 (iss + a)) g = (o + TCP_TCPLEN (os_seg g) <=? a).
Proof.
  intros H Hd. pose proof (seg_at_len _ _ _ _ H) as Hl. pose proof (tcplen_fin _ _ _ _ H) as Ht. destruct H as (H1 & _ & _ & _ & _ & _ & _ & H8).
  unfold acked, TCP_SEQ_LEQ. rewrite H1, (seq_lt_near _ _ a (o + TCP_TCPLEN (os_seg g)) iss); [|near|near|destruct (fin _); lia].
  by rewrite Z.leb_antisym.
Qed.

Lemma seq_lt_u32 x y : TCP_SEQ_LT x y = (2 ^ 31 <=? u32 (x - y)).
Proof.
  unfold TCP_SEQ_LT. rewrite u32_sub_l, u32_sub_r. pose proof (Z.mod_pos_bound (x - y) (2 ^ 32) ltac:(lia)) as Hb. fold (u32 (x - y)) in Hb.
  rewrite Z.testbit_odd, Z.shiftr_div_pow2 by lia. destruct (Z.leb_spec (2 ^ 31) (u32 (x - y))).
  - by replace (u32 (x - y) / 2 ^ 31) with 1 by (apply (Z.div_unique _ _ _ (u32 (x - y) - 2 ^ 31)); lia).
  - by rewrite Z.div_small by lia.
Qed.

(** An acknowledgement of something that was sent. *)
Lemma ack_between a n ackno : 0 ≤ ackno < 2 ^ 32 → 0 ≤ n - a ≤ 2 ^ 20 →
  TCP_SEQ_BETWEEN ackno (u32 (iss + a) + 1) (u32 (iss + n)) = true → ∃ a', a < a' ≤ n ∧ ackno = u32 (iss + a').
Proof.
  intros Ha Hn. unfold TCP_SEQ_BETWEEN, TCP_SEQ_GEQ, TCP_SEQ_LEQ. rewrite !seq_lt_u32.
  set (d := u32 (ackno - (iss + a))).
  assert (0 ≤ d < 2 ^ 32) as Hd by (apply Z.mod_pos_bound; lia).
  assert (ackno = u32 (iss + (a + d))) as Hack.
  { unfold d. rewrite Z.add_assoc, u32_add_r. rewrite <-(u32_small ackno) at 1 by done. f_equal. lia. }
  replace (u32 (ackno - (u32 (iss + a) + 1))) with (u32 (d - 1)).
  2:{ rewrite Hack, u32_sub_l, Z.sub_add_distr, <-(u32_sub_l (_ - u32 _)), u32_sub_r, u32_sub_l. f_equal. lia. }
  replace (u32 (u32 (iss + n) - ackno)) with (u32 (n - a - d)) by (rewrite Hack, u32_sub_l, u32_sub_r; f_equal; lia).
  intros [H1%negb_true_iff%Z.leb_gt H2%negb_true_iff%Z.leb_gt]%andb_true_iff. exists (a + d). split; [|done].
  unfold u32 in H1, H2. destruct (Z.eq_dec d 0) as [H0|H0].
  { rewrite H0 in H1. change ((0 - 1) mod 2 ^ 32) with (2 ^ 32 - 1) in H1. lia. }
  rewrite Z.mod_small in H1 by lia. split; [lia|]. destruct (Z.le_gt_cases d (n - a)) as [|Hgt]; [lia|].
  replace ((n - a - d) mod 2 ^ 32) with (n - a - d + 2 ^ 32) in H2 by (apply (Z.mod_unique _ _ (-1)); lia). lia.
Qed.

Lemma chain_seg_len W lo al hi : chain iss W lo al hi → Forall (λ x, 0 ≤ sg_len (os_seg x.2)) al.
Proof. intros H%chain_elem. eapply Forall_impl; [exact H|]. intros x (o & Hs & _). by eapply seg_at_len. Qed.

(** The segments before and behind the acknowledgement. *)
Lemma chain_acked W A l1 m l2 hi a :
  chain iss W A l1 m → chain iss W m l2 hi → - 2 ^ 19 ≤ A - a → hi - A ≤ 2 ^ 19 → A ≤ a → (l1 = [] ∨ m ≤ a) →
  match l2 with (_, g) :: _ => a < m + TCP_TCPLEN (os_seg g) | [] => True end →
  Forall (λ x, acked (u32 (iss + a)) x.2 = true) l1 ∧ Forall (λ x, acked (u32 (iss + a)) x.2 = false) l2.
Proof.
  intros H1 H2 Hd Hhi HA Hm Hf. pose proof (chain_le _ _ _ _ _ H1) as [L1 _]. pose proof (chain_le _ _ _ _ _ H2) as [L2 _]. split.
  - eapply Forall_impl; [eapply chain_elem, H1|]. intros x (o & B1 & B2 & B3 & B4). rewrite (acked_at W o) by (done || lia).
    apply Z.leb_le. destruct Hm as [->|]; [|lia]. cbn in H1. lia.
  - destruct l2 as [|[b g] l2]; [done|]. cbn [chain] in H2. destruct H2 as (K1 & K2 & K3). constructor.
    + cbn [snd]. rewrite (acked_at W m) by (done || lia). apply Z.leb_gt. lia.
    + eapply Forall_impl; [eapply chain_elem, K3|]. intros x (o & B1 & B2 & B3 & B4). rewrite (acked_at W o) by (done || lia).
      apply Z.leb_gt. lia.
Qed.

(** Both queues together. *)
Lemma free_both ackno l1 l2 q :
  Forall (λ x, acked ackno x.2 = true) l1 → Forall (λ x, acked ackno x.2 = false) l2 → Forall (λ x, 0 ≤ sg_len (os_seg x.2)) l1 →
  q = clens (l1 ++ l2).*2 → q < 2 ^ 16 → lens l1 < 2 ^ 16 →
  ∃ q1 r1, tcp_free_acked_segments ackno (una (l1 ++ l2)) (uns (l1 ++ l2)) q 0 = Some (una l2, q1, r1) ∧
    tcp_free_acked_segments ackno (uns (l1 ++ l2)) (una l2) q1 r1 = Some (uns l2, clens l2.*2, lens l1).
Proof.
  intros H1 H2 H3 Hq Hlt Hl. rewrite clens_split in Hq. rewrite una_app, uns_app, clens_app, clens_app in Hq. rewrite slens_split in Hl.
  assert (∀ l : list oseg, Forall (λ g, 0 ≤ sg_len (os_seg g)) l → 0 ≤ slens l) as Hs.
  { intros l Hl'. induction Hl'; [done|]. rewrite slens_cons. lia. }
  assert (Forall (λ g, 0 ≤ sg_len (os_seg g)) (una l1)) as G1 by (by apply (Forall_una (λ g, 0 ≤ sg_len (os_seg g)))).
  assert (Forall (λ g, 0 ≤ sg_len (os_seg g)) (uns l1)) as G2 by (by apply (Forall_uns (λ g, 0 ≤ sg_len (os_seg g)))).
  pose proof (Hs _ G1). pose proof (Hs _ G2). exists (q - clens (una l1)), (slens (una l1)). rewrite una_app, uns_app. split.
  - rewrite free_acked_spec; try done; try lia; [by apply (Forall_una (λ g, acked ackno g = true))|
      by apply (Forall_una (λ g, acked ackno g = false))|rewrite !clens_app; lia].
  - pose proof (clens_nonneg (una l1)). rewrite free_acked_spec; try done; try lia; [|by apply (Forall_uns (λ g, acked ackno g = true))|
      by apply (Forall_uns (λ g, acked ackno g = false))|rewrite clens_app; lia].
    rewrite clens_split, slens_split. apply (f_equal Some), f_equal2; [apply f_equal2; [done|lia]|done].
Qed.

Lemma ack_new_inv W F T a s ackno :
  sinv iss W F T a s → 0 ≤ ackno < 2 ^ 32 → TCP_SEQ_BETWEEN ackno (lastack (so_q s) + 1) (snd_nxt (so_q s)) = true →
  ∃ a' r s', ack_new ackno s = Some (r, s') ∧ sinv iss W F (T + r) a' s' ∧ a < a' ≤ upto W F ∧ 0 ≤ r ∧ ackno = u32 (iss + a').
Proof.
  intros [P (A & n & al & H & ->)] Hack. pose proof (squeues_near _ _ _ _ _ _ _ _ _ H) as [N1 N2].
  destruct H as (C1 & C2 & C3 & C4 & C5 & C6 & C7 & C8 & C9 & C10 & C11 & C12 & C13 & C14 & C15).
  rewrite C8, C9. intros (a' & Ha' & ->)%(ack_between a n); [|done|lia].
  destruct (chain_cut W A al _ a' C1) as (l1 & l2 & m & -> & K1 & K2 & K3 & K4).
  pose proof (chain_le _ _ _ _ _ K1) as [L1 _]. pose proof (chain_le _ _ _ _ _ K2) as [L2 _].
  destruct (chain_acked W A l1 m l2 (upto W F) a' K1 K2) as [G1 G2]; [unfold upto in *; destruct F; lia|lia|lia|done|done|].
  assert (m ≤ a') as Hm by (destruct K3 as [->|]; [cbn in K1; lia|done]). pose proof (chain_lens _ _ _ _ _ K1) as Hlens.
  assert (0 ≤ bytes W m - bytes W A ≤ SND_BUF - snd_buf (so_q s)) as Hb.
  { rewrite C11. unfold bytes, upto in *. destruct F; lia. }
  destruct (free_both (u32 (iss + a')) l1 l2 (snd_queuelen (so_q s)) G1 G2 (chain_seg_len _ _ _ _ K1) C13) as (q1 & r1 & E1 & E2);
    [lia|rewrite Hlens; unfold SND_BUF in *; lia|].
  unfold ack_new. set (s0 := if has_flag _ TF_INFR then _ else s).
  assert (so_q s0 = so_q s ∧ so_mss s0 = so_mss s ∧ so_w s0 = so_w s ∧ so_state s0 = so_state s) as (Q1 & Q2 & Q3 & Q4).
  { unfold s0. by destruct (has_flag _ TF_INFR). }
  rewrite Q1, C7, C6, E1, E2. eexists a', (lens l1), _. split; [done|]. split_and!; [|lia|lia|lia|done].
  set (q := mk_squeue _ _ _ _ _ _ _). apply (sinv_frame W F _ _ (so_set_q q s)); [by repeat case_match..|].
  split; [done|]. exists m, n, l2. split; [|lia]. split_and!; try done; try lia; cbn.
  - by apply (sent_upto_app iss _ _ _ _ _ _ K1) in C5 as [_ ?].
  - rewrite u16_small by (unfold SND_BUF in *; lia). lia.
  - rewrite u16_small by (unfold SND_BUF in *; lia). lia.
  - rewrite fmap_app, clens_app in C14. pose proof (clens_nonneg l1.*2). lia.
  - rewrite fmap_app in C15. by apply Forall_app in C15 as [_ ?].
Qed.

Lemma receive_ack_inv W F T a s ticks busy tcplen seqno ackno wnd :
  sinv iss W F T a s → 0 ≤ ackno < 2 ^ 32 → 0 ≤ wnd < 2 ^ 16 →
  ∃ r e s' a', tcp_receive_ack ticks busy tcplen seqno ackno wnd s = Some (r, e, s') ∧ sinv iss W F (T + r) a' s' ∧ a ≤ a' ∧ 0 ≤ r.
Proof.
  intros H Hack Hwnd. unfold tcp_receive_ack. apply (update_window_spec _ _ _ _ _ seqno ackno wnd) in H; [|done]. set (s1 := so_set_w _ s) in *.
  destruct (TCP_SEQ_LEQ ackno (lastack (so_q s1))).
  - eexists 0, false, _, a. split; [done|]. rewrite Z.add_0_r. split_and!; try lia.
    eapply sinv_frame; [done..|]. case_match; [by apply ack_dup_inv|done].
  - destruct (TCP_SEQ_BETWEEN ackno (lastack (so_q s1) + 1) (snd_nxt (so_q s1))) eqn:Hb.
    + destruct (ack_new_inv _ _ _ _ _ _ H Hack Hb) as (a' & r & s' & -> & H' & ? & ? & _). eexists r, false, _, a'. split; [done|].
      split_and!; try lia. by eapply sinv_frame; [..|exact H'].
    + eexists 0, true, _, a. split; [done|]. rewrite Z.add_0_r. split_and!; try lia. by eapply sinv_frame; [..|exact H].
Qed.
End ack.
