(* ===== verification/TcpOutWrite.v ===== *)
(** * Sending TCP segments: writing

    [tcp_write] puts the data behind the stream and [tcp_send_fin] ends it, provided that
    the last segment of the connection is not sent when there are segments to be sent. *)

From S2P Require Import Prelude CString TcpIn TcpInProps TcpOut TcpOutProps TcpOutAck.

Section write.
Context (iss : Z).

Notation mark := (fmap (pair false)).

Lemma uns_mark (y : list oseg) : uns (mark y) = y.
Proof. induction y as [|g y IH]; [done|]. cbn [fmap list_fmap]. rewrite uns_cons. f_equal/=. done. Qed.
Lemma una_mark (y : list oseg) : una (mark y) = [].
Proof. induction y as [|g y IH]; [done|]. cbn [fmap list_fmap]. by rewrite una_cons. Qed.
Lemma snd_mark (y : list oseg) : (mark y : list (bool * oseg)).*2 = y.
Proof. rewrite <-list_fmap_compose. apply list_fmap_id. Qed.
Lemma sent_upto_mark lo (y : list oseg) n : sent_upto lo (mark y) n.
Proof. revert lo. induction y as [|g y IH]; intros lo; cbn [fmap list_fmap sent_upto]; [done|]. split; [done|auto]. Qed.

(** The last segment of the connection can take more data. *)
Definition appendable (q : squeue) : Prop :=
  match unsnoc (unacked q), unsnoc (unsent q) with
  | Some (_, g), Some (_, h) => TCP_SEQ_LT (sg_seqno (os_seg g)) (sg_seqno (os_seg h)) = true
  | _, _ => True
  end.

Lemma appendable_last W F A a n al ml q : squeues iss W F A a n al ml q → appendable q →
  unsent q = [] ∨ ∃ l g, al = l ++ [(false, g)] ∧ unsent q = uns l ++ [g].
Proof.
  intros H Ha. pose proof (squeues_near _ _ _ _ _ _ _ _ _ H) as [N1 _].
  destruct H as (C1 & _ & _ & _ & _ & C6 & C7 & _). unfold appendable in Ha. rewrite C6, C7 in *.
  destruct al as [|[[] g] l _] using rev_ind; [by left| |right; exists l, g; split; [done|by rewrite uns_app]].
  left. rewrite una_app, uns_app in *. change (una [(true, g)]) with [g] in *. change (uns [(true, g)]) with (@nil oseg) in *.
  rewrite app_nil_r in *. rewrite unsnoc_app in Ha.
  destruct (uns l) as [|h r _] eqn:Hu using rev_ind; [done|]. rewrite unsnoc_app in Ha.
  destruct (chain_order iss W A l true g [] _ C1 ltac:(lia)) as [O1 _]. rewrite Forall_forall in O1.
  destruct (O1 (false, h)) as [_ Hf]; [apply elem_uns; rewrite Hu; set_solver|]. cbn [snd] in Hf. congruence.
Qed.

(** ** New segments *)

Definition good (ml : Z) (g : oseg) : Prop := os_bufs g ≠ [] ∧ sg_len (os_seg g) ≤ ml.

Lemma create_at V p d seqno : u32 seqno = u32 (iss + p) → 0 ≤ p → d = take (length d) (drop (Z.to_nat p) V) → p + Z.of_nat (length d) ≤ Z.of_nat (length V) →
  Z.of_nat (length d) < 2 ^ 16 → ∀ bufs, let g := tcp_create_segment d bufs 0 seqno in
  seg_at V iss p (os_seg g) ∧ TCP_TCPLEN (os_seg g) = Z.of_nat (length d).
Proof.
  intros Hs Hp Hd Hl Hlt bufs g. assert (seg_at V iss p (os_seg g)) as Hg; [|split; [done|]].
  - split_and!; cbn; try done; try lia. by rewrite Nat2Z.id.
  - rewrite (tcplen_fin _ _ _ _ Hg). unfold g, fin, tcp_create_segment. cbn [os_seg sg_len sg_flags]. rewrite fin_bit. cbn. lia.
Qed.

Lemma write_segs_spec V n ml seqno queuelen p data l q :
  1 ≤ ml < 2 ^ 16 → (length data ≤ n)%nat → 0 ≤ p → p + Z.of_nat (length data) = Z.of_nat (length V) → drop (Z.to_nat p) V = data →
  u32 seqno = u32 (iss + p) → 0 ≤ queuelen ≤ SND_QUEUELEN ∨ data = [] →
  write_segs n ml seqno queuelen data = Some (l, q) →
  chain iss V p (mark l) (Z.of_nat (length V)) ∧ q = queuelen + clens l ∧ (l = [] ∧ data = [] ∨ l ≠ [] ∧ q ≤ SND_QUEUELEN) ∧ Forall (good ml) l.
Proof.
  intros Hml. revert seqno queuelen p data l q. induction n as [|n IH]; intros seqno queuelen p data l q Hn Hp Hlen Hd Hs Hq.
  { destruct data; [|cbn in Hn; lia]. intros [= <- <-]. cbn in Hlen. split_and!; [cbn; lia|rewrite Z.add_0_r; done|by left|done]. }
  destruct data as [|x data0] eqn:Hdata. { intros [= <- <-]. cbn in Hlen. split_and!; [cbn; lia|rewrite Z.add_0_r; done|by left|done]. }
  rewrite <-Hdata in *. destruct Hq as [Hq|]; [|congruence]. assert (0 < Z.of_nat (length data)) as Hpos by (rewrite Hdata; cbn; lia).
  cbn [write_segs]. rewrite Hdata at 1. cbn match. set (k := Z.min _ ml). rewrite u16_small by (unfold SND_QUEUELEN in *; lia).
  unfold SND_QUEUELEN in *. destruct (Z.ltb_spec (Z.min 1024 (65535 - 3)) (queuelen + 2)) as [|Hle]; [done|].
  destruct (write_segs n ml _ _ _) as [[l' q']|] eqn:E; [|done]. intros [= <- <-].
  assert (length (take (Z.to_nat k) data) = Z.to_nat k) as Hk by (rewrite length_take; lia).
  destruct (create_at V p (take (Z.to_nat k) data) seqno Hs Hp) with (bufs := [0; k]) as [G1 G2]; [by rewrite Hk, Hd|lia|lia|].
  destruct (IH (seqno + k) (queuelen + 2) (p + k) (drop (Z.to_nat k) data) _ _ ltac:(rewrite length_drop; lia) ltac:(lia) ltac:(rewrite length_drop; lia)
    ltac:(rewrite <-Hd, drop_drop; f_equal; lia) ltac:(rewrite <-u32_add_l, Hs, u32_add_l; f_equal; lia) ltac:(lia) E) as (I1 & I2 & I3 & I4).
  rewrite Hk in G2. split_and!.
  - cbn [fmap list_fmap chain]. split_and!; [done|lia|]. rewrite G2. by replace (Z.of_nat (Z.to_nat k)) with k by lia.
  - rewrite clens_cons. change (os_clen (tcp_create_segment _ [0; k] 0 seqno)) with 2. lia.
  - right. split; [done|]. destruct I3 as [[-> _]|]; [|lia]. rewrite I2, Z.add_0_r. lia.
  - constructor; [|done]. split; [done|]. cbn. lia.
Qed.

(** More data for the last segment. *)
Lemma seg_concat_at W d o g adjacent : seg_at W iss o (os_seg g) → fin (os_seg g) = false → o + sg_len (os_seg g) = Z.of_nat (length W) →
  sg_len (os_seg g) + Z.of_nat (length d) < 2 ^ 16 →
  let g' := seg_concat adjacent d g in
  seg_at (W ++ d) iss o (os_seg g') ∧ TCP_TCPLEN (os_seg g') = sg_len (os_seg g) + Z.of_nat (length d) ∧
  sg_len (os_seg g') = sg_len (os_seg g) + Z.of_nat (length d).
Proof.
  intros (H1 & H2 & H3 & H4 & H5 & H6 & H7 & H8) Hf He Hd g'.
  assert (sg_len (os_seg g') = sg_len (os_seg g) + Z.of_nat (length d)) as Hl by (cbn; apply u16_small; lia).
  assert (seg_at (W ++ d) iss o (os_seg g')) as Hg; [|split_and!; [done| |done]].
  - split_and!; rewrite ?Hl; try done; rewrite ?length_app; try lia.
    + cbn. rewrite length_app. lia.
    + cbn [g' seg_concat os_seg sg_data]. rewrite drop_app_le by lia. rewrite take_ge; [|rewrite length_app, length_drop; lia].
      rewrite H4 at 1. rewrite take_ge; [done|]. rewrite length_drop. lia.
  - rewrite (tcplen_fin _ _ _ _ Hg), Hl. change (fin (os_seg g')) with (fin (os_seg g)). rewrite Hf. lia.
Qed.

Lemma bufs_extend_length k bufs : length (bufs_extend k bufs) = length bufs.
Proof. induction bufs as [|b bufs IH]; [done|]. destruct bufs; [done|]. cbn [bufs_extend length] in *. by rewrite IH. Qed.

(** ** The flag of the last segment *)

Lemma set_last_psh_app x y : y ≠ [] → set_last_psh (x ++ y) = x ++ set_last_psh y.
Proof. intros Hy. destruct y as [|g y _] using rev_ind; [done|]. unfold set_last_psh. by rewrite app_assoc, !unsnoc_app, app_assoc. Qed.

Lemma chain_flags W lo l b g f hi : neutral f → chain iss W lo (l ++ [(b, g)]) hi → chain iss W lo (l ++ [(b, os_add_flags f g)]) hi.
Proof.
  intros Hf. rewrite !segs_app. intros (m & H1 & H2 & H3 & H4). exists m. split; [done|]. cbn [chain] in *.
  destruct (seg_at_flags iss W m g f Hf H2) as (? & -> & _). done.
Qed.

Lemma set_last_psh_spec W lo ml hi y : chain iss W lo (mark y) hi → Forall (good ml) y →
  chain iss W lo (mark (set_last_psh y)) hi ∧ Forall (good ml) (set_last_psh y) ∧ clens (set_last_psh y) = clens y ∧
  ∀ a, match y with g :: _ => a < lo + TCP_TCPLEN (os_seg g) | [] => True end →
    match set_last_psh y with g :: _ => a < lo + TCP_TCPLEN (os_seg g) | [] => True end.
Proof.
  intros Hc Hg. destruct y as [|g y _] using rev_ind; [done|]. unfold set_last_psh. rewrite unsnoc_app, !fmap_app in *. cbn [fmap list_fmap] in *.
  rewrite !clens_app. apply Forall_app in Hg as [G1 G2]. inversion_clear G2 as [|? ? G3 _]. split_and!.
  - by apply chain_flags.
  - apply Forall_app. split; [done|]. by constructor.
  - done.
  - intros a. destruct y as [|g' y]; [|done]. cbn [app fmap list_fmap chain] in *. destruct Hc as (H1 & _).
    by destruct (seg_at_flags iss W lo g TCP_PSH ltac:(done) H1) as (_ & -> & _).
Qed.

(** ** A longer stream *)

Lemma chain_fun W lo al m m' : chain iss W lo al m → chain iss W lo al m' → m = m'.
Proof. revert lo. induction al as [|[b g] al IH]; cbn [chain]; intros lo; [congruence|]. intros (_ & _ & ?) (_ & _ & ?). eauto. Qed.

Lemma una_none al : uns al = al.*2 → una al = [].
Proof.
  induction al as [|[[] g] al IH]; [done| |rewrite uns_cons, una_cons; intros [= Hu]; by rewrite IH].
  rewrite uns_cons. intros Hu%(f_equal length). cbn in Hu. unfold uns in Hu. rewrite !length_fmap in Hu.
  pose proof (length_filter (λ x : bool * oseg, x.1 = false) al). lia.
Qed.

Lemma squeues_extend W A a n l0 l1 y ml q d m lbb queuelen :
  squeues iss W false A a n (l0 ++ l1) ml q → uns l1 = l1.*2 → chain iss W A l0 m →
  chain iss (W ++ d) m (mark y) (Z.of_nat (length (W ++ d))) → Forall (good ml) y →
  (l0 = [] → match y with g :: _ => a < m + TCP_TCPLEN (os_seg g) | [] => True end) →
  u32 lbb = u32 (iss + Z.of_nat (length (W ++ d))) → Z.of_nat (length d) ≤ snd_buf q → queuelen = snd_queuelen q - clens l1.*2 + clens y → queuelen < 2 ^ 16 →
  squeues iss (W ++ d) false A a n (l0 ++ mark y) ml
    (mk_squeue (uns l0 ++ y) (unacked q) (lastack q) (snd_nxt q) (u32 lbb) (snd_buf q - Z.of_nat (length d)) queuelen).
Proof.
  intros (C1 & C2 & C3 & C4 & C5 & C6 & C7 & C8 & C9 & C10 & C11 & C12 & C13 & C14 & C15) Hu Hm Hy Hg Hf Hlbb Hd Hq Hlt.
  rewrite fmap_app, clens_app in *. apply Forall_app in C15 as [G0 _].
  pose proof C1 as (m' & K1 & K2)%segs_app. pose proof (chain_le _ _ _ _ _ K2) as [L2 _]. pose proof (chain_le _ _ _ _ _ Hy) as [Ly _].
  assert (m' = m) as -> by (by eapply chain_fun).
  unfold upto in *. rewrite Z.add_0_r in *. destruct (chain_more iss W d A l0 m Hm L2) as [K0 _].
  apply (sent_upto_app iss _ _ _ _ _ _ Hm) in C5 as [S0 _].
  pose proof (una_none _ Hu) as Hun.
  split_and!; try done; try lia; cbn [unsent unacked lastack snd_nxt snd_lbb snd_buf snd_queuelen]; rewrite ?fmap_app, ?snd_mark, ?clens_app.
  - apply segs_app. exists m. unfold upto. rewrite Z.add_0_r. done.
  - unfold upto. rewrite length_app. lia.
  - destruct l0 as [|[b g] l0]; [|done]. cbn in Hm. subst m. specialize (Hf eq_refl). by destruct y.
  - apply (sent_upto_app iss _ _ _ _ _ _ Hm). split; [done|apply sent_upto_mark].
  - by rewrite uns_app, uns_mark.
  - rewrite una_app, una_mark. rewrite una_app, Hun in C7. done.
  - rewrite C11, length_app. unfold bytes in *. rewrite length_app. pose proof (chain_le _ _ _ _ _ Hm). lia.
  - lia.
  - rewrite Hq. lia.
  - rewrite Hq in Hlt. lia.
  - apply Forall_app. done.
Qed.

Lemma commit_inv W A a n l0 l1 ml q m data k y0 q0 queue queuelen (psh : bool) :
  squeues iss W false A a n (l0 ++ l1) ml q → uns l1 = l1.*2 → chain iss W A l0 m → 1 ≤ ml < 2 ^ 16 →
  0 ≤ k ≤ Z.of_nat (length data) → Z.of_nat (length data) ≤ snd_buf q →
  chain iss (W ++ take (Z.to_nat k) data) m (mark y0) (Z.of_nat (length W) + k) → Forall (good ml) y0 →
  (l0 = [] → match y0 with g :: _ => a < m + TCP_TCPLEN (os_seg g) | [] => a ≤ m end) →
  q0 = snd_queuelen q - clens l1.*2 + clens y0 → q0 < 2 ^ 16 → 0 ≤ q0 ≤ SND_QUEUELEN ∨ drop (Z.to_nat k) data = [] →
  write_segs (length data) ml (snd_lbb q + k) q0 (drop (Z.to_nat k) data) = Some (queue, queuelen) →
  (psh = true → y0 ++ queue ≠ []) →
  ∃ al, squeues iss (W ++ data) false A a n al ml
    (mk_squeue (if psh then set_last_psh (uns l0 ++ y0 ++ queue) else uns l0 ++ y0 ++ queue) (unacked q) (lastack q) (snd_nxt q)
      (u32 (snd_lbb q + Z.of_nat (length data))) (snd_buf q - Z.of_nat (length data)) queuelen).
Proof.
  intros H Hu Hm Hml Hk Hbuf Hy0 Hg0 Hhead Hq0 Hq0lt Hq0b Hw Hpsh. pose proof H as (_ & _ & _ & _ & _ & _ & _ & _ & _ & C10 & _). specialize (C10 eq_refl).
  assert (u32 (snd_lbb q + k) = u32 (iss + (Z.of_nat (length W) + k))) as Hseq by (rewrite C10; near).
  destruct (write_segs_spec (W ++ data) (length data) ml (snd_lbb q + k) q0 (Z.of_nat (length W) + k) (drop (Z.to_nat k) data) queue queuelen)
    as (K1 & K2 & K3 & K4); try done; [rewrite length_drop; lia|lia|rewrite length_app, length_drop; lia| |].
  { rewrite drop_app_ge by lia. f_equal. lia. }
  destruct (chain_more iss (W ++ take (Z.to_nat k) data) (drop (Z.to_nat k) data) m (mark y0) _ Hy0) as [Hy0' _].
  { rewrite length_app, length_take. lia. }
  rewrite <-app_assoc, take_drop in Hy0'.
  assert (chain iss (W ++ data) m (mark (y0 ++ queue)) (Z.of_nat (length (W ++ data)))) as Hy.
  { rewrite fmap_app. apply segs_app. eauto. }
  assert (Forall (good ml) (y0 ++ queue)) as Hg by (by apply Forall_app).
  assert (l0 = [] → match y0 ++ queue with g :: _ => a < m + TCP_TCPLEN (os_seg g) | [] => True end) as Hh.
  { intros ->. specialize (Hhead eq_refl). destruct y0 as [|g y0]; [|done]. cbn [app]. destruct queue as [|g queue]; [done|].
    cbn [app fmap list_fmap chain] in Hy. lia. }
  assert (queuelen < 2 ^ 16) as Hlt. { destruct K3 as [[-> _]|[_ ?]]; [rewrite K2, Z.add_0_r; lia|unfold SND_QUEUELEN in *; lia]. }
  exists (l0 ++ mark (if psh then set_last_psh (y0 ++ queue) else y0 ++ queue)). destruct psh.
  - rewrite (set_last_psh_app (uns l0) (y0 ++ queue)) by (by apply Hpsh). destruct (set_last_psh_spec _ _ _ _ _ Hy Hg) as (P1 & P2 & P3 & P4).
    eapply (squeues_extend W A a n l0 l1); try done; [by intros Hl0; apply P4, Hh|rewrite C10, length_app; near|rewrite P3, clens_app; lia].
  - eapply (squeues_extend W A a n l0 l1); try done; [rewrite C10, length_app; near|rewrite clens_app; lia].
Qed.

(** ** Writing *)

Lemma queues_empty W F A a n al ml q : squeues iss W F A a n al ml q →
  Bool.eqb (negb (snd_queuelen q =? 0)) (match unacked q, unsent q with [], [] => false | _, _ => true end) = true.
Proof.
  intros (_ & _ & _ & _ & _ & C6 & C7 & _ & _ & _ & _ & _ & C13 & _ & C15). rewrite C13, C6, C7.
  assert (Forall (λ g, os_bufs g ≠ []) al.*2) as Hb by (eapply Forall_impl; [exact C15|]; by intros ? []).
  destruct (Z.eqb_spec (clens al.*2) 0) as [H0|H0].
  - apply (clens_zero _ Hb) in H0. by destruct al.
  - rewrite clens_split in H0. by destruct (una al), (uns al).
Qed.

Lemma queuelen_zero W F A a n al ml q : squeues iss W F A a n al ml q →
  (snd_queuelen q =? 0) || (match unacked q, unsent q with [], [] => false | _, _ => true end) = true.
Proof. intros H%queues_empty. destruct (snd_queuelen q =? 0); [done|]. by destruct (match unacked q with [] => _ | _ => _ end). Qed.

Lemma write_checks_inv W F T a s len : sinv iss W F T a s → ∃ c, tcp_write_checks len s = Some c ∧
  (c = WrOk → F = false ∧ (len = 0 ∨ len ≤ snd_buf (so_q s) ∧ snd_queuelen (so_q s) < SND_QUEUELEN)).
Proof.
  intros [(_ & _ & _ & P4) (A & n & al & H & _)]. unfold tcp_write_checks.
  destruct (_ && _) eqn:Hst; [by eexists|].
  assert (F = false) as HF.
  { destruct F; [|done]. destruct (P4 eq_refl) as (?&?&?&?). exfalso. revert Hst. rewrite !(proj2 (Z.eqb_neq _ _)) by done. done. }
  destruct (Z.eqb_spec len 0); [eexists; split; [done|auto]|]. destruct (Z.ltb_spec (snd_buf (so_q s)) len); [by eexists|].
  destruct (Z.leb_spec (Z.min SND_QUEUELEN (65535 - 3 + 1)) (snd_queuelen (so_q s))); [by eexists|].
  rewrite (queues_empty _ _ _ _ _ _ _ _ H). eexists; split; [done|]. intros _. split; [done|right]. unfold SND_QUEUELEN in *. lia.
Qed.

Lemma write_commit_inv W T a s mem adjacent data l0 l1 y0 k m A n :
  sparams false s → T = bytes W A → squeues iss W false A a n (l0 ++ l1) (mss_local s) (so_q s) →
  Z.of_nat (length data) = 0 ∨ Z.of_nat (length data) ≤ snd_buf (so_q s) ∧ snd_queuelen (so_q s) < SND_QUEUELEN →
  uns l1 = l1.*2 → chain iss W A l0 m → 0 ≤ k ≤ Z.of_nat (length data) → (0 < k → y0 ≠ []) →
  chain iss (W ++ take (Z.to_nat k) data) m (mark y0) (Z.of_nat (length W) + k) → Forall (good (mss_local s)) y0 →
  (l0 = [] → match y0 with g :: _ => a < m + TCP_TCPLEN (os_seg g) | [] => a ≤ m end) →
  clens y0 = clens l1.*2 + (if (0 <? k) && negb adjacent then 1 else 0) →
  ∃ ok s', write_commit mem adjacent data k (uns l0) y0 s = Some (ok, s') ∧ sinv iss (if ok then W ++ data else W) false T a s'.
Proof.
  intros P -> H Hlen Hu Hm Hk Hky Hy0 Hg0 Hhead Hcl. unfold write_commit. set (q0 := if _ && negb adjacent then _ else _).
  pose proof (mss_local_pos _ _ P) as Hml. assert (0 ≤ snd_buf (so_q s)) as Hbuf by apply H.
  assert (A ≤ Z.of_nat (length W)) as HA by (destruct H as (_ & ? & ? & _); unfold upto in *; lia).
  assert (q0 = snd_queuelen (so_q s) - clens l1.*2 + clens y0 ∧ q0 < 2 ^ 16 ∧ (0 ≤ q0 ≤ SND_QUEUELEN ∨ drop (Z.to_nat k) data = [])) as (Q1 & Q2 & Q3).
  { assert (0 ≤ snd_queuelen (so_q s) < 2 ^ 16) as Hq.
    { destruct H as (_ & _ & _ & _ & _ & _ & _ & _ & _ & _ & _ & _ & C13 & C14 & _). rewrite C13. split; [apply clens_nonneg|done]. }
    rewrite Hcl. unfold q0. destruct Hlen as [Hlen|[_ Hlen]].
    - assert (k = 0) as -> by lia. cbn. split_and!; try lia. right. apply length_zero_iff_nil. rewrite length_drop. lia.
    - destruct (_ && _); [rewrite u16_small by (unfold SND_QUEUELEN in *; lia)|]; unfold SND_QUEUELEN in *; lia. }
  destruct (if mem || _ then _ else _) as [[queue queuelen]|] eqn:E.
  2:{ rewrite (queuelen_zero _ _ _ _ _ _ _ _ H). eexists _, _. split; [done|].
      eapply sinv_frame; [..|split; [exact P|by exists A, n, (l0 ++ l1)]]; done. }
  destruct (mem || _) in E; [|done].
  destruct (commit_inv W A a n l0 l1 (mss_local s) (so_q s) m data k y0 q0 queue queuelen
    ((0 <? k) || (match queue with [] => false | _ => true end))) as [al' Hal']; try done; [lia| |].
  { intros Hor. destruct (Z.ltb_spec 0 k) as [Hk0|_]; [specialize (Hky Hk0); by destruct y0|]. by destruct y0, queue. }
  pose proof (queuelen_zero _ _ _ _ _ _ _ _ Hal') as Hz. cbn [snd_queuelen unacked unsent] in Hz.
  replace (_ || match unacked (so_q s) with [] => _ | _ => _ end) with true.
  2:{ symmetry. destruct (queuelen =? 0); [done|]. cbn [orb] in *. destruct (unacked (so_q s)); [|done]. destruct (uns l0 ++ y0 ++ queue); [|done].
      by destruct (_ || _) in Hz. }
  eexists true, _. split; [done|]. split; [done|]. exists A, n, al'. split; [exact Hal'|]. unfold bytes. rewrite length_app. lia.
Qed.

Lemma tcp_write_inv W F T a s mem adjacent data : sinv iss W F T a s → appendable (so_q s) →
  ∃ ok s', tcp_write mem adjacent data s = Some (ok, s') ∧ sinv iss (if ok then W ++ data else W) F T a s' ∧ (ok = true → F = false).
Proof.
  intros Hinv Happ. unfold tcp_write. destruct (write_checks_inv _ _ _ _ _ (Z.of_nat (length data)) Hinv) as (c & -> & Hc).
  destruct c; [|by eexists _, _|eexists _, _; split; [done|split; [by eapply sinv_frame; [..|exact Hinv]|done]]].
  destruct (Hc eq_refl) as [-> Hlen]. clear Hc. destruct Hinv as [P (A & n & al & H & HT)].
  assert (∀ r : option (bool * tsnd), (∃ ok s', r = Some (ok, s') ∧ sinv iss (if ok then W ++ data else W) false T a s') →
    ∃ ok s', r = Some (ok, s') ∧ sinv iss (if ok then W ++ data else W) false T a s' ∧ (ok = true → false = false)) as Hr.
  { intros r (ok & s' & H1 & H2). eauto. }
  pose proof (mss_local_pos _ _ P) as Hml. pose proof H as (C1 & C2 & C3 & C4 & _ & C6 & _). unfold upto in *. rewrite Z.add_0_r in *.
  destruct (appendable_last _ _ _ _ _ _ _ _ H Happ) as [Hu|(l & g & -> & Hu)]; rewrite Hu.
  - cbn [unsnoc]. apply Hr. rewrite C6 in Hu. pose proof (write_commit_inv W T a s mem adjacent data al [] [] 0 (Z.of_nat (length W)) A n) as K.
    rewrite Hu in K. apply K; rewrite ?app_nil_r; try done; try lia. cbn. lia.
  - rewrite unsnoc_app. pose proof C1 as (m & K1 & K2 & K3 & K4)%segs_app. cbn [chain] in K4.
    assert (good (mss_local s) g) as Hg.
    { destruct H as (_ & _ & _ & _ & _ & _ & _ & _ & _ & _ & _ & _ & _ & _ & C15). rewrite fmap_app in C15.
      apply Forall_app in C15 as [_ C15]. by inversion_clear C15. }
    destruct Hg as [Hg1 Hg2]. rewrite (proj2 (Z.leb_le _ _)) by done. cbn [assert_that].
    pose proof (seg_end _ _ _ _ K2) as (_ & Hf & _). assert (fin (os_seg g) = false) as Hfin by (rewrite <-Hf; lia). clear Hf.
    pose proof (tcplen_fin _ _ _ _ K2) as Ht. rewrite Hfin, Z.add_0_r in Ht.
    destruct (_ && _) eqn:Hb; apply Hr.
    + apply andb_true_iff in Hb as [[B1%Z.ltb_lt B2%Z.ltb_lt]%andb_true_iff B3%Z.ltb_lt]. set (k := Z.min _ _).
      assert (length (take (Z.to_nat k) data) = Z.to_nat k) as Hk by (rewrite length_take; lia).
      destruct (seg_concat_at W (take (Z.to_nat k) data) m g adjacent K2 Hfin ltac:(lia) ltac:(lia)) as (S1 & S2 & S3). rewrite Hk in S2, S3.
      apply (write_commit_inv W T a s mem adjacent data l [(false, g)] _ k m A n); try done; try lia.
      * cbn [fmap list_fmap chain]. split_and!; [done|lia|lia].
      * constructor; [|done]. split; [|lia]. cbn. destruct adjacent; [|by destruct (os_bufs g)].
        intros Hnil%(f_equal length). rewrite bufs_extend_length in Hnil. by destruct (os_bufs g).
      * rewrite (proj2 (Z.ltb_lt 0 k)) by lia. cbn [fmap list_fmap snd]. rewrite !clens_cons. unfold os_clen. cbn [seg_concat os_bufs].
        destruct adjacent; cbn [negb andb]; [rewrite bufs_extend_length|rewrite length_app]; cbn; lia.
    + apply (write_commit_inv W T a s mem adjacent data l [(false, g)] _ 0 m A n); try done; try lia.
      * rewrite take_0, app_nil_r, Z.add_0_r. cbn [fmap list_fmap chain]. done.
      * by constructor.
      * intros ->. cbn in K1. subst m. done.
      * cbn. lia.
Qed.

(** ** The end of the stream *)

Lemma squeues_fin W A a n al ml q l0 l1 y queuelen m :
  squeues iss W false A a n al ml q → al = l0 ++ l1 → uns l1 = l1.*2 → chain iss W A l0 m →
  chain iss W m (mark y) (Z.of_nat (length W) + 1) → Forall (good ml) y →
  (l0 = [] → match y with g :: _ => a < m + TCP_TCPLEN (os_seg g) | [] => True end) →
  queuelen = snd_queuelen q - clens l1.*2 + clens y → queuelen < 2 ^ 16 → ∀ lbb,
  squeues iss W true A a n (l0 ++ mark y) ml (mk_squeue (uns l0 ++ y) (unacked q) (lastack q) (snd_nxt q) lbb (snd_buf q) queuelen).
Proof.
  intros (C1 & C2 & C3 & C4 & C5 & C6 & C7 & C8 & C9 & C10 & C11 & C12 & C13 & C14 & C15) -> Hu Hm Hy Hg Hf Hq Hlt lbb.
  rewrite fmap_app, clens_app in *. apply Forall_app in C15 as [G0 _]. apply (sent_upto_app iss _ _ _ _ _ _ Hm) in C5 as [S0 _].
  unfold upto in *. split_and!; try done; try lia; cbn [unsent unacked lastack snd_nxt snd_lbb snd_buf snd_queuelen]; rewrite ?fmap_app, ?snd_mark, ?clens_app.
  - apply segs_app. exists m. done.
  - unfold upto. lia.
  - destruct l0 as [|[b g] l0]; [|done]. cbn in Hm. subst m. specialize (Hf eq_refl). by destruct y.
  - apply (sent_upto_app iss _ _ _ _ _ _ Hm). split; [done|apply sent_upto_mark].
  - by rewrite uns_app, uns_mark.
  - rewrite una_app, una_mark. by rewrite una_app, (una_none l1 Hu) in C7.
  - rewrite Hq. lia.
  - rewrite Hq in Hlt. lia.
  - apply Forall_app. done.
Qed.

(** The count of packet buffers does not overflow. *)
Definition room (q : squeue) : Prop := snd_queuelen q < 2 ^ 16 - 1.

Lemma fin_seg_at W bufs seqno : u32 seqno = u32 (iss + Z.of_nat (length W)) →
  let g := tcp_create_segment [] bufs TCP_FIN seqno in seg_at W iss (Z.of_nat (length W)) (os_seg g) ∧ TCP_TCPLEN (os_seg g) = 1.
Proof. intros Hs g. split; [|done]. split_and!; cbn; try done; try lia. Qed.

Lemma enqueue_fin_inv W A a n al s : squeues iss W false A a n al (mss_local s) (so_q s) → room (so_q s) → 0 ≤ mss_local s →
  ∃ al', squeues iss W true A a n al' (mss_local s) (so_q (tcp_enqueue_fin true s).2).
Proof.
  intros H Hroom Hml. pose proof H as (C1 & C2 & C3 & _ & _ & C6 & _ & _ & _ & C10 & _ & _ & C13 & _). unfold upto in *. rewrite Z.add_0_r in *.
  assert (u32 (snd_lbb (so_q s)) = u32 (iss + Z.of_nat (length W))) as Hlbb by (rewrite C10 by done; apply u32_u32).
  destruct (fin_seg_at W [0] _ Hlbb) as [G1 G2]. exists (al ++ mark [tcp_create_segment [] [0] TCP_FIN (snd_lbb (so_q s))]).
  cbn [tcp_enqueue_fin snd so_q so_add_flag so_set_flags so_set_q]. rewrite C6.
  unfold room in Hroom. pose proof (clens_nonneg al.*2). rewrite u16_small by lia.
  eapply (squeues_fin W A a n al _ _ al []); try done; rewrite ?app_nil_r; try done; try lia.
  - by constructor.
  - unfold clens, os_clen. cbn. lia.
Qed.

Lemma add_fin_inv W A a n l g s : squeues iss W false A a n (l ++ [(false, g)]) (mss_local s) (so_q s) →
  squeues iss W true A a n (l ++ mark [os_add_flags TCP_FIN g]) (mss_local s) (q_set_unsent (uns l ++ [os_add_flags TCP_FIN g]) (so_q s)).
Proof.
  intros H. pose proof H as (C1 & C2 & C3 & C4 & _ & C6 & _ & _ & _ & C10 & _ & _ & C13 & C14 & C15). unfold upto in *. rewrite Z.add_0_r in *.
  pose proof C1 as (m & K1 & K2 & K3 & K4)%segs_app. cbn [chain] in K4. rewrite fmap_app in C15. apply Forall_app in C15 as [_ C15].
  inversion_clear C15 as [|? ? [G1 G2] _]. cbn [snd] in G1, G2.
  pose proof (seg_end _ _ _ _ K2) as (_ & Hf & _). assert (fin (os_seg g) = false) as Hfin by (rewrite <-Hf; lia). clear Hf.
  pose proof (tcplen_fin _ _ _ _ K2) as Ht. rewrite Hfin, Z.add_0_r in Ht.
  destruct (seg_at_set_fin W iss m (os_seg g) K2 ltac:(lia)) as [S1 S2]. change (sg_set_flags _ _) with (os_seg (os_add_flags TCP_FIN g)) in S1, S2.
  pose proof (tcplen_fin _ _ _ _ S1) as St. rewrite S2 in St. change (sg_len (os_seg (os_add_flags TCP_FIN g))) with (sg_len (os_seg g)) in St.
  apply (squeues_fin W A a n (l ++ [(false, g)]) _ _ l [(false, g)]  _ _ m); try done.
  - cbn [fmap list_fmap chain]. split_and!; [done|lia|lia].
  - by constructor.
  - intros ->. lia.
  - cbn [fmap list_fmap snd]. rewrite !clens_cons. unfold os_clen. cbn. lia.
  - rewrite C13. done.
Qed.

(** [tcp_send_fin]; the state of the connection is set by the caller. *)
Lemma send_fin_inv W A a n al s mem : squeues iss W false A a n al (mss_local s) (so_q s) → appendable (so_q s) → room (so_q s) → 0 ≤ mss_local s →
  let '(ok, s') := tcp_send_fin mem s in
  so_mss s' = so_mss s ∧ so_w s' = so_w s ∧ so_state s' = so_state s ∧
  ∃ al', squeues iss W ok A a n al' (mss_local s) (so_q s').
Proof.
  intros H Happ Hroom Hml. assert (let '(ok, s') := tcp_enqueue_fin mem s in so_mss s' = so_mss s ∧ so_w s' = so_w s ∧ so_state s' = so_state s ∧
    ∃ al', squeues iss W ok A a n al' (mss_local s) (so_q s')) as He.
  { destruct mem; [|by split_and!; try done; exists al]. pose proof (enqueue_fin_inv _ _ _ _ _ _ H Hroom Hml) as K. done. }
  unfold tcp_send_fin. destruct (appendable_last _ _ _ _ _ _ _ _ H Happ) as [Hu|(l & g & -> & Hu)]; rewrite Hu; [done|].
  rewrite unsnoc_app. destruct (negb _); [|done]. split_and!; try done. eexists. by apply add_fin_inv.
Qed.

(** The application has not ended the stream. *)
Definition open_state (st : Z) : bool := (st =? ESTABLISHED) || (st =? SYN_RCVD) || (st =? CLOSE_WAIT).

Lemma open_not_fin F s : sparams F s → open_state (so_state s) = true → F = false.
Proof.
  intros (_ & _ & _ & P4) Ho. destruct F; [|done]. destruct (P4 eq_refl) as (? & ? & ? & ?).
  unfold open_state in Ho. by rewrite !(proj2 (Z.eqb_neq _ _)) in Ho.
Qed.

Lemma shutdown_inv W F T a s mem : sinv iss W F T a s → appendable (so_q s) → room (so_q s) →
  let '(ok, s') := tcp_shutdown_fin mem s in sinv iss W (F || ok && open_state (so_state s)) T a s'.
Proof.
  intros Hinv Happ Hroom. pose proof Hinv as [P (A & n & al & H & HT)]. pose proof (mss_local_pos _ _ P) as Hml.
  assert (∀ st, st = FIN_WAIT_1 ∨ st = LAST_ACK → open_state (so_state s) = true →
    let '(ok, s') := tcp_send_fin mem s in sinv iss W (F || ok && true) T a (if ok then so_set_state st s' else s')) as Hsend.
  { intros st Hst Ho. pose proof (open_not_fin _ _ P Ho) as ->. pose proof (send_fin_inv W A a n al s mem H Happ Hroom ltac:(lia)) as K.
    destruct (tcp_send_fin mem s) as [ok s']. rewrite andb_true_r. cbn [orb].
    destruct K as (Q1 & Q2 & Q3 & al' & K). destruct P as (P1 & P2 & P3 & P4).
    assert (sparams ok (if ok then so_set_state st s' else s')) as P'.
    { unfold sparams. destruct ok; cbn [so_mss so_w so_state so_set_state]; rewrite Q1, Q2; split_and!; try done; try lia.
      intros _. by destruct Hst as [-> | ->]. }
    split; [done|]. exists A, n, al'. split; [|done]. unfold mss_local in *. destruct ok; cbn [so_mss so_w so_q so_set_state]; by rewrite Q1, Q2. }
  unfold tcp_shutdown_fin, open_state in *.
  destruct ((so_state s =? ESTABLISHED) || (so_state s =? SYN_RCVD)) eqn:E1; cbn [orb] in *; [|destruct (so_state s =? CLOSE_WAIT) eqn:E2; [|by rewrite andb_false_r, orb_false_r]].
  - specialize (Hsend FIN_WAIT_1 ltac:(by left) eq_refl). by destruct (tcp_send_fin mem s) as [ok s'].
  - specialize (Hsend LAST_ACK ltac:(by right) eq_refl). by destruct (tcp_send_fin mem s) as [ok s'].
Qed.
End write.
