(* ===== verification/TcpOutSend.v ===== *)
(** * Sending TCP segments: output

    [tcp_output] moves segments from one queue to the other and puts pieces of the stream
    on the wire that are within the window of the peer; retransmission moves them back, and
    a segment can be split. *)

From S2P Require Import Prelude CString TcpIn TcpInProps TcpOut TcpOutProps TcpOutAck TcpOutWrite.

Section send.
Context (iss : Z).

(** A piece of the stream. *)
Definition on_stream (W : list Z) (F : bool) (t : tseg) : Prop := (∃ o, seg_at W iss o t) ∧ (fin t = true → F = true).

(** It is behind [a] and in the window of [wnd] bytes there. *)
Definition in_window (a wnd : Z) (W : list Z) (t : tseg) : Prop := ∃ o, seg_at W iss o t ∧ a ≤ o + sg_len t ≤ a + wnd.

Lemma chain_fin W F lo al o g : chain iss W lo al (upto W F) → o + TCP_TCPLEN (os_seg g) ≤ upto W F → seg_at W iss o (os_seg g) →
  fin (os_seg g) = true → F = true.
Proof.
  intros _ Ho Hs Hf. pose proof (tcplen_fin _ _ _ _ Hs) as Ht. rewrite Hf in Ht. destruct Hs as (_ & _ & _ & _ & _ & _ & H7 & _). specialize (H7 Hf).
  unfold upto in Ho. destruct F; [done|lia].
Qed.

(** ** One segment changes its flags and its queue *)

Lemma squeues_replace W F A a n l1 g l2 ml q b' f n' q' m :
  squeues iss W F A a n (l1 ++ (false, g) :: l2) ml q → neutral f → chain iss W A l1 m → n ≤ n' ≤ upto W F →
  (b' = true → m + TCP_TCPLEN (os_seg g) ≤ n') → let g' := os_add_flags f g in
  unsent q' = uns (l1 ++ (b', g') :: l2) → unacked q' = una (l1 ++ (b', g') :: l2) → lastack q' = lastack q → snd_nxt q' = u32 (iss + n') →
  snd_lbb q' = snd_lbb q → snd_buf q' = snd_buf q → snd_queuelen q' = snd_queuelen q →
  squeues iss W F A a n' (l1 ++ (b', g') :: l2) ml q'.
Proof.
  intros (C1 & C2 & C3 & C4 & C5 & C6 & C7 & C8 & C9 & C10 & C11 & C12 & C13 & C14 & C15) Hf Hm Hn Hb g' E1 E2 E3 E4 E5 E6 E7.
  pose proof C1 as (m' & K1 & K2 & K3 & K4)%segs_app. assert (m' = m) as -> by (by eapply chain_fun).
  destruct (seg_at_flags iss W m g f Hf K2) as (S1 & S2 & S3). fold g' in S1, S2, S3.
  apply (sent_upto_app iss _ _ _ _ _ _ Hm) in C5 as [S0 [_ S4]]. rewrite unmark_fst in *.
  rewrite clens_app, clens_cons in *. apply Forall_app in C15 as [G1 G2]. inversion_clear G2 as [|? ? G3 G4].
  split_and!; try done; try lia; try congruence; rewrite ?unmark_fst, ?clens_app, ?clens_cons.
  - apply segs_app. exists m. split; [done|]. cbn [chain]. by rewrite S2.
  - destruct l1 as [|[b0 g0] l1]; [|done]. cbn [app] in *. by rewrite S2.
  - apply (sent_upto_app iss _ _ _ _ _ _ Hm). cbn [sent_upto]. rewrite S2. split_and!; [|done|]; (eapply sent_upto_mono; [apply Hn|done]).
  - rewrite E5. done.
  - rewrite E7. done.
  - done.
  - apply Forall_app. split; [done|]. by constructor.
Qed.

(** The first segment to be sent. *)
Lemma first_unsent W F A a n al ml q g rest : squeues iss W F A a n al ml q → unsent q = g :: rest →
  ∃ l1 l2 o, al = l1 ++ (false, g) :: l2 ∧ uns l1 = [] ∧ uns l2 = rest ∧ chain iss W A l1 o ∧ seg_at W iss o (os_seg g) ∧
    0 < TCP_TCPLEN (os_seg g) ∧ A ≤ o ∧ o + TCP_TCPLEN (os_seg g) ≤ upto W F ∧ a < o + TCP_TCPLEN (os_seg g) ∧ good ml g.
Proof.
  intros (C1 & C2 & C3 & C4 & C5 & C6 & _ & _ & _ & _ & _ & _ & _ & _ & C15) Hu. rewrite C6 in Hu.
  destruct (uns_first _ _ _ Hu) as (l1 & l2 & -> & U1 & U2). pose proof C1 as (o & K1 & K2 & K3 & K4)%segs_app.
  pose proof (chain_le _ _ _ _ _ K1) as [L1 _]. pose proof (chain_le _ _ _ _ _ K4) as [L2 _]. rewrite unmark_fst in C15.
  apply Forall_app in C15 as [_ G]. inversion_clear G. exists l1, l2, o. split_and!; try done.
  destruct l1 as [|[b h] l1]; [cbn in K1; subst o; done|]. cbn [app chain] in *. destruct K1 as (_ & _ & K1). apply chain_le in K1 as [? _]. lia.
Qed.

(** The distance from the acknowledgement. *)
Lemma seg_reach_spec W F A a n al ml q g o :
  squeues iss W F A a n al ml q → seg_at W iss o (os_seg g) → A ≤ o → o + TCP_TCPLEN (os_seg g) ≤ upto W F → a < o + TCP_TCPLEN (os_seg g) →
  seg_reach g q = o + sg_len (os_seg g) - a.
Proof.
  intros H Hs H1 H2 H3. pose proof (squeues_near _ _ _ _ _ _ _ _ _ H) as [N1 N2]. destruct H as (_ & C2 & C3 & _ & _ & _ & _ & C8 & _).
  pose proof (tcplen_fin _ _ _ _ Hs) as Ht. pose proof (seg_at_len _ _ _ _ Hs) as Hl. unfold seg_reach. rewrite (proj1 Hs), C8.
  rewrite <-u32_add_l, u32_sub_l, u32_sub_r, u32_add_l.
  replace (iss + o - (iss + a) + sg_len (os_seg g)) with (o + sg_len (os_seg g) - a) by lia. apply u32_small. destruct (fin _); lia.
Qed.

Lemma max_seq_spec x y : - 2 ^ 31 < x - y < 2 ^ 31 → max_seq (u32 (iss + x)) (u32 (iss + y)) = u32 (iss + Z.max x y).
Proof. intros H. unfold max_seq. rewrite (seq_lt_near _ _ x y iss) by (near || lia). destruct (Z.ltb_spec x y); do 2 f_equal; lia. Qed.

(** It is sent. *)
Lemma squeues_sent W F A a n al ml q g rest f :
  squeues iss W F A a n al ml q → unsent q = g :: rest → neutral f → let g' := os_add_flags f g in
  ∃ n' al', squeues iss W F A a n' al' ml (mk_squeue rest (put_unacked g' (unacked q)) (lastack q)
    (max_seq (snd_nxt q) (u32 (sg_seqno (os_seg g') + TCP_TCPLEN (os_seg g')))) (snd_lbb q) (snd_buf q) (snd_queuelen q)).
Proof.
  intros H Hu Hf g'. pose proof (squeues_near _ _ _ _ _ _ _ _ _ H) as [N1 N2].
  destruct (first_unsent _ _ _ _ _ _ _ _ _ _ H Hu) as (l1 & l2 & o & -> & U1 & U2 & K1 & K2 & K3 & K4 & K5 & _).
  pose proof H as (C1 & C2 & C3 & _ & _ & _ & C7 & _ & C9 & _). destruct (seg_at_flags iss W o g f Hf K2) as (S1 & S2 & S3). fold g' in S1, S2, S3.
  destruct (chain_order_una _ _ _ _ _ _ _ _ C1 ltac:(lia)) as (O1 & O2 & _ & _).
  exists (Z.max n (o + TCP_TCPLEN (os_seg g))), (l1 ++ (true, g') :: l2).
  apply (squeues_replace W F A a n l1 g l2 ml q true f _ _ o); try done; try lia; cbn [unsent unacked snd_nxt].
  - by rewrite uns_app, uns_cons, U1, U2.
  - rewrite C7, !una_app, !una_cons. by apply put_unacked_spec.
  - rewrite S2, (proj1 S1), u32_add_l, <-Z.add_assoc, C9. apply max_seq_spec. lia.
Qed.

(** It cannot be sent, and keeps its flags. *)
Lemma squeues_flag W F A a n al ml q g rest f :
  squeues iss W F A a n al ml q → unsent q = g :: rest → neutral f →
  ∃ al', squeues iss W F A a n al' ml (q_set_unsent (os_add_flags f g :: rest) q).
Proof.
  intros H Hu Hf. destruct (first_unsent _ _ _ _ _ _ _ _ _ _ H Hu) as (l1 & l2 & o & -> & U1 & U2 & K1 & K2 & K3 & K4 & K5 & _).
  pose proof H as (_ & _ & C3 & _ & _ & _ & C7 & _ & C9 & _). exists (l1 ++ (false, os_add_flags f g) :: l2).
  apply (squeues_replace W F A a n l1 g l2 ml q false f n _ o); try done; try lia; cbn [unsent unacked snd_nxt q_set_unsent].
  - by rewrite uns_app, uns_cons, U1, U2.
  - by rewrite C7, !una_app, !una_cons.
Qed.

(** ** Output *)

Lemma add_no_flags g : os_add_flags 0 g = g.
Proof. destruct g as [[] ?]. unfold os_add_flags, os_set_flags, sg_set_flags. cbn. by rewrite Z.lor_0_r. Qed.

Definition wired (W : list Z) (F : bool) (a wnd : Z) (t : tseg) : Prop := on_stream W F t ∧ in_window a wnd W t.

Lemma output_loop_inv W F T a ticks wnd tx l s : sinv iss W F T a s → l = unsent (so_q s) →
  let '(ok, s', out) := output_loop ticks wnd tx l s in
  sinv iss W F T a s' ∧ Forall (wired W F a wnd) out.
Proof.
  revert tx s. induction l as [|g rest IH]; intros tx s Hinv Hl; [done|]. cbn [output_loop]. symmetry in Hl.
  destruct (_ || _) eqn:Hb; [done|]. apply orb_false_iff in Hb as [Hb%Z.ltb_ge _]. set (g' := if so_state s =? SYN_SENT then g else _).
  assert (∃ f, neutral f ∧ g' = os_add_flags f g) as (f & Hf & Hg').
  { unfold g'. destruct (_ =? _); [exists 0|by exists TCP_ACK]. split; [done|]. by rewrite add_no_flags. }
  set (res := match tx with r :: _ => r | [] => TxErr end). set (s1 := match res with TxBusy => s | _ => _ end).
  assert (so_q s1 = so_q s) as Q1 by (by unfold s1; destruct res).
  assert (sinv iss W F T a s1) as Hinv1 by (eapply sinv_frame; [..|exact Hinv]; by unfold s1; destruct res).
  clearbody s1 g'. rewrite <-Q1 in Hl, Hb. clear Hinv Q1 s. rename s1 into s, Hinv1 into Hinv. pose proof Hinv as [P (A & n & al & H & HT)].
  destruct (first_unsent _ _ _ _ _ _ _ _ _ _ H Hl) as (l1 & l2 & o & -> & U1 & U2 & K1 & K2 & K3 & K4 & K5 & K6 & _).
  destruct (seg_at_flags iss W o g f Hf K2) as (S1 & S2 & S3). rewrite <-Hg' in S1, S2, S3.
  rewrite (seg_reach_spec _ _ _ _ _ _ _ _ _ o H) in Hb by done.
  assert (wired W F a wnd (os_seg g')) as Hwire.
  { split; [split; [eauto|]|].
    - intros Hfin. eapply (chain_fin W F A _ o g'); [apply H|by rewrite S2|done|done].
    - exists o. split; [done|]. pose proof (tcplen_fin _ _ _ _ K2) as Ht. rewrite Hg'. cbn. destruct (fin (os_seg g)); lia. }
  assert (res = TxErr ∨ res ≠ TxErr) as [->|Hres] by (destruct res; auto; by right).
  { cbn iota. split; [|done]. destruct (squeues_flag _ _ _ _ _ _ _ _ _ _ f H Hl Hf) as [al' Hal'].
    apply (sinv_frame iss W F T a (so_set_q (q_set_unsent (g' :: rest) (so_q s)) s)); [done..|]. split; [done|]. exists A, n, al'. by rewrite Hg'. }
  destruct (squeues_sent _ _ _ _ _ _ _ _ _ _ f H Hl Hf) as (n' & al' & Hal'). rewrite <-Hg' in Hal'.
  rewrite (proj2 (Z.ltb_lt _ _)) by (rewrite S2; done). set (s2 := so_set_q _ s).
  specialize (IH (tail tx) s2). destruct (output_loop ticks wnd (tail tx) rest s2) as [[ok s3] out].
  destruct IH as [I1 I2]; [split; [done|by exists A, n', al']|done|]. destruct res; [|done..]. split; [done|by constructor].
Qed.

Lemma wired_mono W F a e e' t : e ≤ e' → wired W F a e t → wired W F a e' t.
Proof. intros He [H1 (o & H2 & H3)]. split; [done|]. exists o. split; [done|lia]. Qed.

Lemma tcp_output_inv W F T a s ticks input ack route tx : sinv iss W F T a s →
  let '(ok, s', out) := tcp_output ticks input ack route tx s in
  sinv iss W F T a s' ∧ Forall (wired W F a (snd_wnd (so_w s))) out.
Proof.
  intros H. unfold tcp_output. destruct input; [done|].
  assert (∀ s', so_q s' = so_q s → so_mss s' = so_mss s → so_w s' = so_w s → so_state s' = so_state s →
    let '(ok, s'', out) := match ack with Some ok => (ok, s', []) | None => (true, so_clear_flag TF_NAGLEMEMERR s', []) end in
    sinv iss W F T a s'' ∧ Forall (wired W F a (snd_wnd (so_w s))) out) as Hdone.
  { intros s' ? ? ? ?. destruct ack; (split; [|done]); by eapply sinv_frame; [..|exact H]. }
  destruct (unsent (so_q s)) as [|g rest] eqn:Hu; [by apply Hdone|]. destruct (negb route); [done|].
  destruct (_ <? _); [apply Hdone; by destruct (_ && _)|]. set (s1 := so_set_p _ s).
  set (wnd := Z.min _ _). pose proof (output_loop_inv W F T a ticks wnd tx (unsent (so_q s1)) s1) as K.
  destruct (output_loop ticks wnd tx _ s1) as [[ok s'] out]. destruct K as [K1 K2]; [by eapply sinv_frame; [..|exact H]|done|]. split.
  - destruct ok; [|done]. by eapply sinv_frame; [..|exact K1].
  - eapply Forall_impl; [exact K2|]. intros t. apply wired_mono. lia.
Qed.

(** ** The retransmission timer *)

(** What was sent is in front of what was not. *)
Lemma in_order_queue W F A a n al ml q : squeues iss W F A a n al ml q → in_order q → al.*2 = unacked q ++ unsent q.
Proof.
  intros H Ho. pose proof (squeues_near _ _ _ _ _ _ _ _ _ H) as [N1 _]. destruct H as (C1 & _ & _ & _ & _ & C6 & C7 & _).
  unfold in_order in Ho. rewrite C6, C7 in *.
  assert (∀ l, una l = [] → l.*2 = uns l) as Hnone.
  { clear. induction l as [|[[] g] l IH]; [done..|]. rewrite una_cons, uns_cons. cbn. intros H. by rewrite IH. }
  assert (∀ l, uns l = [] → l.*2 = una l) as Hall.
  { clear. induction l as [|[[] g] l IH]; [done| |done]. rewrite una_cons, uns_cons. cbn. intros H. by rewrite IH. }
  destruct (uns al) as [|h rest] eqn:Hu; [by rewrite app_nil_r, Hall|].
  destruct (uns_first _ _ _ Hu) as (l1 & l2 & -> & U1 & U2). destruct (chain_order iss W A l1 false h l2 _ C1 ltac:(lia)) as [_ O2].
  assert (una l2 = []) as Hl2.
  { destruct (una l2) as [|g r _] eqn:Hn using rev_ind; [done|]. exfalso. rewrite una_app, una_cons, Hn in Ho. cbn [app] in Ho.
    rewrite app_assoc, unsnoc_app in Ho. rewrite Forall_forall in O2. destruct (O2 (true, g)) as [_ Hf]; [apply elem_una; rewrite Hn; set_solver|].
    cbn [snd] in Hf. congruence. }
  rewrite unmark_fst, una_app, una_cons, Hl2, (Hall l1 U1), (Hnone l2 Hl2), U2. cbn [app]. by rewrite app_nil_r.
Qed.

Lemma rto_prepare_inv W F T a s busy : sinv iss W F T a s → in_order (so_q s) → sinv iss W F T a (tcp_rexmit_rto_prepare busy s).2.
Proof.
  intros H Ho. unfold tcp_rexmit_rto_prepare. destruct (unsnoc _) as [[? ?]|]; [|done]. destruct busy; [done|]. cbn [snd].
  apply (sinv_frame iss W F T a (so_set_q (q_set_unacked [] (q_set_unsent (unacked (so_q s) ++ unsent (so_q s)) (so_q s))) s)); [done..|].
  destruct H as [P (A & n & al & H & HT)]. split; [done|]. exists A, n, (pair false <$> al.*2). split; [|done].
  pose proof (in_order_queue _ _ _ _ _ _ _ _ H Ho) as Hq.
  destruct H as (C1 & C2 & C3 & C4 & C5 & C6 & C7 & C8 & C9 & C10 & C11 & C12 & C13 & C14 & C15).
  split_and!; try done; try lia; cbn [unsent unacked q_set_unacked q_set_unsent so_q so_set_q]; rewrite ?snd_mark, ?uns_mark, ?una_mark; try done.
  - eapply chain_marks; [|exact C1]. by rewrite snd_mark.
  - by destruct al as [|[b g] al].
  - apply sent_upto_mark.
Qed.

Lemma slowtmr_rexmit_inv W F T a s ticks busy ack route tx : sinv iss W F T a s → in_order (so_q s) →
  ∃ s' out, slowtmr_rexmit busy ticks ack route tx s = SlowGoes s' out ∧ sinv iss W F T a s' ∧ Forall (wired W F a (snd_wnd (so_w s))) out.
Proof.
  intros H Ho. unfold slowtmr_rexmit. set (rt := if _ && (rtime (so_r s) <? 32767) then rtime (so_r s) + 1 else _). set (s0 := so_set_r _ s). assert (sinv iss W F T a s0) as H0 by (by eapply sinv_frame; [..|exact H]).
  destruct (rto (so_r s) <=? rt); [|eexists _, _; split_and!; [reflexivity|done|done]]. pose proof (rto_prepare_inv _ _ _ _ s0 busy H0 Ho) as H1.
  assert (so_w (tcp_rexmit_rto_prepare busy s0).2 = so_w s) as Hw by (unfold tcp_rexmit_rto_prepare; by repeat case_match).
  destruct (tcp_rexmit_rto_prepare busy s0) as [ok s1]. cbn [snd] in *. destruct (ok || _); [|eexists _, _; split_and!; [reflexivity|done|done]].
  unfold tcp_rexmit_rto_commit. set (s2 := so_set_r _ (rto_reduce s1)). rewrite <-Hw.
  pose proof (tcp_output_inv W F T a s2 ticks false ack route tx) as K. destruct (tcp_output ticks false ack route tx s2) as [[ok' s3] out].
  eexists _, _. split; [done|]. apply K. by eapply sinv_frame; [..|exact H1].
Qed.

(** ** Splitting *)

Lemma bufs_trim_length n bufs : bufs ≠ [] → (1 ≤ length (bufs_trim n bufs) ≤ length bufs)%nat.
Proof.
  revert n. induction bufs as [|b bufs IH]; intros n H; [done|]. cbn [bufs_trim]. destruct (b <? n); cbn [length]; [|lia].
  destruct bufs as [|c bufs]; [cbn; lia|]. pose proof (IH (n - b) ltac:(done)). lia.
Qed.

(** The parts of a segment without FIN. *)
Definition split_flags (flags : Z) : Z :=
  let psh := if has_flag flags TCP_PSH then TCP_PSH else 0 in
  let fin := if has_flag flags TCP_FIN then TCP_FIN else 0 in Z.land flags (Z.lnot (Z.lor psh fin)).

Definition split_head (split : Z) (g : oseg) : oseg :=
  os_add_flags (split_flags (sg_flags (os_seg g))) (mk_oseg (seg_trim split (os_seg g)) (bufs_trim split (os_bufs g))).

Definition split_tail (split : Z) (g : oseg) : oseg :=
  let flags := sg_flags (os_seg g) in
  tcp_create_segment (drop (Z.to_nat split) (sg_data (os_seg g))) [sg_len (os_seg g) - split]
    (Z.lor (if has_flag flags TCP_PSH then TCP_PSH else 0) (if has_flag flags TCP_FIN then TCP_FIN else 0)) (sg_seqno (os_seg g) + split).

Lemma split_head_at W o g split : seg_at W iss o (os_seg g) → fin (os_seg g) = false → 0 < split < sg_len (os_seg g) →
  seg_at W iss o (os_seg (split_head split g)) ∧ TCP_TCPLEN (os_seg (split_head split g)) = split ∧ sg_len (os_seg (split_head split g)) = split.
Proof.
  intros H Hf Hs. destruct (seg_at_trim W iss o (os_seg g) split H Hf ltac:(lia)) as (T1 & T2 & T3). set (h := mk_oseg (seg_trim split (os_seg g)) (bufs_trim split (os_bufs g))).
  assert (neutral (split_flags (sg_flags (os_seg g)))) as Hn.
  { unfold fin in Hf. destruct H as (_ & _ & _ & _ & _ & Hy & _). rewrite fin_bit in Hf. rewrite syn_bit in Hy.
    unfold neutral, split_flags. by rewrite !Z.land_spec, Hf, Hy. }
  destruct (seg_at_flags iss W o h _ Hn T1) as (S1 & S2 & _). unfold split_head. fold h. split_and!; [done| |done].
  rewrite S2. change (os_seg h) with (seg_trim split (os_seg g)). rewrite (tcplen_fin _ _ _ _ T1), T2, T3. lia.
Qed.

Lemma split_tail_at W o g split : seg_at W iss o (os_seg g) → fin (os_seg g) = false → 0 < split < sg_len (os_seg g) →
  seg_at W iss (o + split) (os_seg (split_tail split g)) ∧ TCP_TCPLEN (os_seg (split_tail split g)) = sg_len (os_seg g) - split ∧
  sg_len (os_seg (split_tail split g)) = sg_len (os_seg g) - split.
Proof.
  intros (H1 & H2 & H3 & H4 & H5 & H6 & H7 & H8) Hf Hs.
  assert (sg_len (os_seg (split_tail split g)) = sg_len (os_seg g) - split) as Hl by (cbn; rewrite length_drop; lia).
  unfold fin in Hf. assert (fin (os_seg (split_tail split g)) = false) as Hf'.
  { unfold fin, split_tail. cbn [os_seg tcp_create_segment sg_flags]. rewrite Hf. by destruct (has_flag _ TCP_PSH). }
  assert (seg_at W iss (o + split) (os_seg (split_tail split g))) as Hg; [|split_and!; [done|rewrite (tcplen_fin _ _ _ _ Hg), Hf'; lia|done]].
  split_and!; rewrite ?Hl; try lia.
  - cbn. rewrite H1. near.
  - cbn. rewrite length_drop. lia.
  - cbn [split_tail tcp_create_segment os_seg sg_data]. rewrite H4 at 1. rewrite skipn_firstn_comm, drop_drop. f_equal; [lia|f_equal; lia].
  - unfold split_tail. cbn [os_seg tcp_create_segment sg_flags]. rewrite Hf. by destruct (has_flag _ TCP_PSH).
  - by rewrite Hf'.
Qed.

Lemma squeues_split W F A a n l1 g l2 ml q split m queuelen :
  squeues iss W F A a n (l1 ++ (false, g) :: l2) ml q → chain iss W A l1 m → fin (os_seg g) = false → 0 < split < sg_len (os_seg g) →
  (l1 = [] → a < m + split) → queuelen = snd_queuelen q - os_clen g + os_clen (split_head split g) + 1 → queuelen < 2 ^ 16 → uns l1 = [] →
  squeues iss W F A a n (l1 ++ (false, split_head split g) :: (false, split_tail split g) :: l2) ml
    (mk_squeue (split_head split g :: split_tail split g :: uns l2) (unacked q) (lastack q) (snd_nxt q) (snd_lbb q) (snd_buf q) queuelen).
Proof.
  intros (C1 & C2 & C3 & C4 & C5 & C6 & C7 & C8 & C9 & C10 & C11 & C12 & C13 & C14 & C15) Hm Hf Hs Ha Hq Hlt Hu.
  pose proof C1 as (m' & K1 & K2 & K3 & K4)%segs_app. assert (m' = m) as -> by (by eapply chain_fun).
  destruct (split_head_at W m g split K2 Hf Hs) as (S1 & S2 & S3). destruct (split_tail_at W m g split K2 Hf Hs) as (T1 & T2 & T3).
  pose proof (tcplen_fin _ _ _ _ K2) as Ht. rewrite Hf, Z.add_0_r in Ht.
  apply (sent_upto_app iss _ _ _ _ _ _ Hm) in C5 as [S0 [_ S4]]. rewrite unmark_fst in *.
  rewrite clens_app, clens_cons in *. apply Forall_app in C15 as [G1 G2]. inversion_clear G2 as [|? ? [G3 G5] G4].
  assert (os_clen (split_tail split g) = 1) as Hone by done.
  split_and!; try done; try lia; cbn [unsent unacked]; rewrite ?unmark_fst; cbn [fmap list_fmap snd]; rewrite ?clens_app, ?clens_cons.
  - apply segs_app. exists m. split; [done|]. cbn [chain]. rewrite S2, T2. split_and!; try done; try lia.
    replace (m + split + (sg_len (os_seg g) - split)) with (m + TCP_TCPLEN (os_seg g)) by lia. done.
  - destruct l1 as [|[b0 g0] l1]; [|done]. cbn [app]. cbn in Hm. subst m. rewrite S2. auto.
  - apply (sent_upto_app iss _ _ _ _ _ _ Hm). cbn [sent_upto]. rewrite S2, T2. split_and!; try done.
    replace (m + split + (sg_len (os_seg g) - split)) with (m + TCP_TCPLEN (os_seg g)) by lia. done.
  - by rewrite uns_app, Hu, !uns_cons.
  - by rewrite C7, !una_app, !una_cons.
  - cbn [snd_queuelen]. rewrite Hq, C13, Hone. cbn [fmap list_fmap snd]. rewrite ?clens_cons, ?Hone. lia.
  - rewrite Hq, C13 in Hlt. rewrite Hone. lia.
  - apply Forall_app. split; [done|]. constructor; [|constructor; [|done]]; (split; [|lia]); [|done].
    cbn. intros Hnil. pose proof (bufs_trim_length split (os_bufs g) G3). rewrite Hnil in *. cbn in *. lia.
Qed.

Lemma u16_count x y z : 0 ≤ x - y → 0 ≤ z → x - y + z + 1 < 2 ^ 16 → u16 (u16 (u16 (x - y) + z) + 1) = x - y + z + 1.
Proof. intros. rewrite (u16_small (x - y)), (u16_small (x - y + z)), u16_small by lia. done. Qed.

(** The first segment is not the end of the stream, and its first part is not acknowledged. *)
Definition splittable (split : Z) (q : squeue) : Prop :=
  match unsent q with
  | g :: _ => fin (os_seg g) = false ∧ TCP_SEQ_LT (lastack q) (sg_seqno (os_seg g) + split) = true
  | [] => True
  end.

Lemma split_inv W F T a s mem split : sinv iss W F T a s → splittable split (so_q s) → room (so_q s) → 0 < split < 2 ^ 16 →
  ∃ ok s', tcp_split_unsent_seg mem split s = Some (ok, s') ∧ sinv iss W F T a s'.
Proof.
  intros Hinv Hsp Hroom Hs. unfold tcp_split_unsent_seg. pose proof Hinv as [P (A & n & al & H & HT)]. pose proof (mss_local_pos _ _ P) as Hml.
  unfold splittable in Hsp. destruct (unsent (so_q s)) as [|g rest] eqn:Hu; [by eexists _, _|]. destruct Hsp as [Hf Hack].
  rewrite (proj2 (Z.eqb_neq split 0)) by lia. destruct (Z.leb_spec (sg_len (os_seg g)) split); [by eexists _, _|].
  pose proof (squeues_near _ _ _ _ _ _ _ _ _ H) as [N1 N2].
  destruct (first_unsent _ _ _ _ _ _ _ _ _ _ H Hu) as (l1 & l2 & o & -> & U1 & U2 & K1 & K2 & K3 & K4 & K5 & K6 & G1 & G2).
  assert (mss_local s ≤ so_mss s). { unfold mss_local. repeat case_match; lia. }
  rewrite (proj2 (Z.leb_le _ _)), (proj2 (Z.ltb_lt _ _)) by lia. cbn [andb assert_that]. destruct mem; [|by eexists _, _].
  eexists _, _. split; [done|]. split; [done|]. eexists A, n, _. split; [|exact HT]. cbn [so_q so_set_q]. rewrite <-U2.
  pose proof H as (_ & C2 & C3 & _ & _ & _ & _ & C8 & _ & _ & _ & _ & C13 & C14 & _). rewrite unmark_fst, clens_app, clens_cons in C13.
  pose proof (bufs_trim_length split (os_bufs g) G1). pose proof (clens_nonneg l1.*2). pose proof (clens_nonneg l2.*2).
  assert (os_clen (split_head split g) = Z.of_nat (length (bufs_trim split (os_bufs g)))) as Hc by done.
  unfold room in Hroom. assert (os_clen g = Z.of_nat (length (os_bufs g))) as Hc' by done.
  apply (squeues_split W F A a n l1 g l2 _ _ split o); try done; try lia.
  - intros ->. cbn in K1. subst o. rewrite (seq_lt_near _ _ a (A + split) iss) in Hack; [by apply Z.ltb_lt in Hack|rewrite C8; near|rewrite (proj1 K2); near|lia].
  - apply u16_count; lia.
  - apply Z.mod_pos_bound. lia.
Qed.

(** ** Probing *)

Lemma probe_inv W F T a s mem tx : sinv iss W F T a s →
  let '(ok, s', out) := tcp_zero_window_probe mem tx s in sinv iss W F T a s' ∧ Forall (λ t, on_stream W F t ∧ sg_len t ≤ 1) out.
Proof.
  intros Hinv. unfold tcp_zero_window_probe. pose proof Hinv as [P (A & n & al & H & HT)].
  destruct (unsent (so_q s)) as [|g rest] eqn:Hu; [done|]. destruct mem; [|split; [by eapply sinv_frame; [..|exact Hinv]|done]]. pose proof (squeues_near _ _ _ _ _ _ _ _ _ H) as [N1 N2].
  destruct (first_unsent _ _ _ _ _ _ _ _ _ _ H Hu) as (l1 & l2 & o & -> & U1 & U2 & K1 & K2 & K3 & K4 & K5 & K6 & _).
  pose proof H as (C1 & C2 & C3 & C4 & C5 & C6 & C7 & C8 & C9 & C10 & C11 & C12 & C13 & C14 & C15).
  set (s' := so_set_q _ _). assert (sinv iss W F T a s') as Hs'.
  { split; [done|]. exists A, (Z.max n (o + 1)), (l1 ++ (false, g) :: l2). split; [|done]. split_and!; try done; try lia.
    - eapply sent_upto_mono; [|done]. lia.
    - cbn [s' so_q so_set_q so_set_p snd_nxt q_set_nxt]. rewrite C9, (proj1 K2), u32_add_l, <-Z.add_assoc. apply max_seq_spec. lia. }
  set (probe := if has_flag _ TCP_FIN && _ then _ else _). assert (on_stream W F probe ∧ sg_len probe ≤ 1) as Hp.
  { split; [|unfold probe; destruct (_ && _); done]. pose proof (tcplen_fin _ _ _ _ K2) as Ht. pose proof (seg_at_len _ _ _ _ K2) as Hl. pose proof K2 as (B1 & B2 & B3 & B4 & B5 & B6 & B7 & B8).
    unfold probe. fold (fin (os_seg g)). destruct (fin (os_seg g)) eqn:Hf; cbn [andb]; [destruct (Z.eqb_spec (sg_len (os_seg g)) 0) as [E|E]|].
    - split; [|intros _; by eapply (chain_fin W F A _ o g)]. exists o. split_and!; cbn; try done; try lia.
    - split; [|done]. exists o. assert (0 < sg_len (os_seg g)) as Hpos by lia. split_and!; cbn; try done; try lia.
      + rewrite length_take. lia.
      + rewrite B4, take_take. f_equal. lia.
    - split; [|done]. exists o. assert (0 < sg_len (os_seg g)) as Hpos by lia. split_and!; cbn; try done; try lia.
      + rewrite length_take. lia.
      + rewrite B4, take_take. f_equal. lia. }
  clearbody s' probe. destruct tx; split; try done; by constructor.
Qed.

(** ** The slow timer *)

(** A segment within the window of the peer, or a probe of a window that is closed. *)
Definition allowed (W : list Z) (F : bool) (a wnd : Z) (t : tseg) : Prop :=
  on_stream W F t ∧ (in_window a wnd W t ∨ wnd = 0 ∧ sg_len t ≤ 1).

Lemma wired_allowed W F a wnd l : Forall (wired W F a wnd) l → Forall (allowed W F a wnd) l.
Proof. intros H. eapply Forall_impl; [exact H|]. intros t [H1 H2]. split; [done|by left]. Qed.

(** The timer does not run without data, and the first segment can be split. *)
Definition persist_ok (s : tsnd) : Prop :=
  0 < persist_backoff (so_p s) → unacked (so_q s) = [] ∧ unsent (so_q s) ≠ [] ∧
    (snd_wnd (so_w s) ≠ 0 → splittable (snd_wnd (so_w s)) (so_q s) ∧ room (so_q s)).

Lemma persist_fire_inv W F T a s mem ticks ack route tx : sinv iss W F T a s →
  (snd_wnd (so_w s) ≠ 0 → splittable (snd_wnd (so_w s)) (so_q s) ∧ room (so_q s)) →
  ∃ b s' out, persist_fire mem ticks ack route tx s = Some (b, s', out) ∧ sinv iss W F T a s' ∧ Forall (allowed W F a (snd_wnd (so_w s))) out.
Proof.
  intros H Hs. unfold persist_fire. destruct (Z.eqb_spec (snd_wnd (so_w s)) 0) as [E|E].
  - set (r := if route then _ else _). pose proof (probe_inv W F T a s mem r H) as K. destruct (tcp_zero_window_probe mem r s) as [[b s'] out].
    destruct K as [K1 K2]. exists b, s', out. split_and!; try done. eapply Forall_impl; [exact K2|]. intros t [H1 H2]. split; [done|by right].
  - destruct (Hs E) as [Hsp Hroom]. assert (0 ≤ snd_wnd (so_w s) < 2 ^ 16) by apply H.
    destruct (split_inv W F T a s mem (snd_wnd (so_w s)) H Hsp Hroom ltac:(lia)) as (ok & s1 & E1 & H1). rewrite E1.
    assert (so_w s1 = so_w s) as Hw by (revert E1; clear; unfold tcp_split_unsent_seg, assert_that; intros E1; by repeat case_match; simplify_eq).
    destruct ok; [|by eexists _, _, _]. pose proof (tcp_output_inv W F T a s1 ticks false ack route tx H1) as K.
    destruct (tcp_output ticks false ack route tx s1) as [[ok' s2] out]. rewrite Hw in K. eexists _, _, _. split; [done|].
    destruct K. split; [done|by apply wired_allowed].
Qed.

Lemma slowtmr_inv W F T a s mem busy ticks ack route tx : sinv iss W F T a s → in_order (so_q s) → persist_ok s →
  ∃ r, tcp_slowtmr_send mem busy ticks ack route tx s = Some r ∧
    match r with
    | SlowRemove => True
    | SlowGoes s' out => sinv iss W F T a s' ∧ Forall (allowed W F a (snd_wnd (so_w s))) out
    end.
Proof.
  intros H Ho Hp. unfold tcp_slowtmr_send. destruct (_ && _); [by eexists|]. destruct (_ <=? _); [by eexists|].
  destruct (Z.ltb_spec 0 (persist_backoff (so_p s))) as [Hb|Hb].
  2:{ destruct (slowtmr_rexmit_inv W F T a s ticks busy ack route tx H Ho) as (s' & out & -> & K1 & K2). eexists. split; [done|].
      split; [done|by apply wired_allowed]. }
  destruct (Hp Hb) as (P1 & P2 & P3). unfold slowtmr_persist. rewrite P1. destruct (unsent (so_q s)) as [|g rest] eqn:Hu; [done|]. cbn [assert_that].
  destruct (_ <=? persist_probe _); [by eexists|]. set (s0 := so_set_p _ s).
  assert (sinv iss W F T a s0) as H0 by (by eapply sinv_frame; [..|exact H]). destruct (_ <=? _); [|by eexists].
  destruct (persist_fire_inv W F T a s0 mem ticks ack route tx H0 P3) as (b & s' & out & -> & K1 & K2). eexists. split; [done|]. cbn iota.
  split; [|done]. destruct b; [|done]. by eapply sinv_frame; [..|exact K1].
Qed.
End send.
