(* ===== verification/TcpOutRun.v ===== *)
(** * Sending TCP segments: the connection

    A connection of lwIP with the application, the peer and the timers: whatever they do,
    the segments on the wire are pieces of the stream that the application wrote, within
    the window of the peer, and every byte is reported as acknowledged at most once. *)

From S2P Require Import Prelude CString TcpIn TcpInProps TcpOut TcpOutProps TcpOutAck TcpOutWrite TcpOutSend.

Inductive sop :=
  | OpWrite (mem adjacent : bool) (data : list Z)
  | OpShutdown (mem : bool)
  | OpOutput (ticks : Z) (input : bool) (ack : option bool) (route : bool) (tx : list tx_result)
  | OpAck (ticks : Z) (busy : bool) (tcplen seqno ackno wnd : Z)
  | OpTimer (mem busy : bool) (ticks : Z) (ack : option bool) (route : bool) (tx : list tx_result)
  | OpState (st : Z).

(** What the application and the network see; a segment comes with the acknowledgement
    and the window at that time. *)
Inductive sevent :=
  | EvWritten (data : list Z)
  | EvEnded
  | EvAcked (n : Z)
  | EvWire (ack wnd : Z) (t : tseg).

Definition wire_of (s : tsnd) (out : list tseg) : list sevent := EvWire (lastack (so_q s)) (snd_wnd (so_w s)) <$> out.

(** One step; a connection that is given up has no state. *)
Definition exec (op : sop) (s : tsnd) : option (option tsnd * list sevent) :=
  match op with
  | OpWrite mem adjacent data =>
      match tcp_write mem adjacent data s with
      | None => None
      | Some (ok, s') => Some (Some s', if ok then [EvWritten data] else [])
      end
  | OpShutdown mem => let '(ok, s') := tcp_shutdown_fin mem s in Some (Some s', if ok && open_state (so_state s) then [EvEnded] else [])
  | OpOutput ticks input ack route tx => let '(_, s', out) := tcp_output ticks input ack route tx s in Some (Some s', wire_of s out)
  | OpAck ticks busy tcplen seqno ackno wnd =>
      match tcp_process_ack ticks busy tcplen seqno ackno wnd s with
      | None => None
      | Some (r, _, s') => Some (Some s', [EvAcked r])
      end
  | OpTimer mem busy ticks ack route tx =>
      match tcp_slowtmr_send mem busy ticks ack route tx s with
      | None => None
      | Some SlowRemove => Some (None, [])
      | Some (SlowGoes s' out) => Some (Some s', wire_of s out)
      end
  | OpState st => Some (Some (so_set_state st s), [])
  end.

Fixpoint run (ops : list sop) (s : tsnd) : option (option tsnd * list sevent) :=
  match ops with
  | [] => Some (Some s, [])
  | op :: ops =>
      match exec op s with
      | None => None
      | Some (None, evs) => Some (None, evs)
      | Some (Some s', evs) => match run ops s' with Some (r, evs') => Some (r, evs ++ evs') | None => None end
      end
  end.

(** States in which [tcp_write] takes data. *)
Definition writable (st : Z) : bool := (st =? ESTABLISHED) || (st =? CLOSE_WAIT) || (st =? SYN_SENT) || (st =? SYN_RCVD).

(** What a step needs; [TcpOutCases] has steps without it. *)
Definition op_ok (op : sop) (s : tsnd) : Prop :=
  match op with
  | OpWrite _ _ _ => appendable (so_q s)
  | OpShutdown _ => appendable (so_q s) ∧ room (so_q s)
  | OpOutput _ _ _ _ _ => True
  | OpAck _ _ _ _ ackno wnd => 0 ≤ ackno < 2 ^ 32 ∧ 0 ≤ wnd < 2 ^ 16
  | OpTimer _ _ _ _ _ _ => in_order (so_q s) ∧ persist_ok s
  | OpState st => writable st = true → writable (so_state s) = true
  end.

Fixpoint guarded (ops : list sop) (s : tsnd) : Prop :=
  match ops with
  | [] => True
  | op :: ops => op_ok op s ∧ match exec op s with Some (Some s', _) => guarded ops s' | _ => True end
  end.

(** ** What was seen *)

Definition ev_written (e : sevent) : list Z := match e with EvWritten data => data | _ => [] end.
Definition written (evs : list sevent) : list Z := concat (ev_written <$> evs).
Definition ended (evs : list sevent) : bool := existsb (λ e, match e with EvEnded => true | _ => false end) evs.
Definition ev_acked (e : sevent) : Z := match e with EvAcked n => n | _ => 0 end.
Definition acked_bytes (evs : list sevent) : Z := foldr (λ e n, ev_acked e + n) 0 evs.

(** A segment is a piece of the stream [W], and the FIN, if it has one, is the end that the
    application asked for. *)
Definition ev_sound (iss : Z) (W : list Z) (F : bool) (e : sevent) : Prop :=
  match e with
  | EvWire ack wnd t =>
      on_stream iss W F t ∧ (u32 (sg_seqno t - ack + sg_len t) ≤ wnd ∨ wnd = 0 ∧ sg_len t ≤ 1)
  | EvAcked n => 0 ≤ n
  | _ => True
  end.

Lemma written_app e1 e2 : written (e1 ++ e2) = written e1 ++ written e2.
Proof. unfold written. by rewrite fmap_app, concat_app. Qed.
Lemma acked_app e1 e2 : acked_bytes (e1 ++ e2) = acked_bytes e1 + acked_bytes e2.
Proof. induction e1 as [|e e1 IH]; [done|]. cbn [app]. unfold acked_bytes in *. cbn [foldr]. lia. Qed.
Lemma ended_app e1 e2 : ended (e1 ++ e2) = ended e1 || ended e2.
Proof. apply existsb_app. Qed.

Lemma written_wire s out : written (wire_of s out) = [].
Proof. induction out as [|t out IH]; [done|]. unfold written, wire_of in *. cbn. done. Qed.
Lemma acked_wire s out : acked_bytes (wire_of s out) = 0.
Proof. induction out as [|t out IH]; [done|]. unfold acked_bytes, wire_of in *. cbn. done. Qed.
Lemma ended_wire s out : ended (wire_of s out) = false.
Proof. induction out as [|t out IH]; [done|]. unfold ended, wire_of in *. cbn. done. Qed.

Section run.
Context (iss : Z).

(** ** One step *)

Lemma allowed_sound W F T a s out : sinv iss W F T a s → Forall (allowed iss W F a (snd_wnd (so_w s))) out →
  Forall (ev_sound iss W F) (wire_of s out).
Proof.
  intros [P (A & n & al & H & _)] Ho. apply Forall_fmap. eapply Forall_impl; [exact Ho|]. intros t [H1 H2]. split; [done|].
  destruct H2 as [(o & Hs & Hw)|?]; [left|by right]. destruct H as (_ & _ & _ & _ & _ & _ & _ & -> & _).
  rewrite <-u32_add_l, (proj1 Hs), u32_sub_l, u32_sub_r, u32_add_l.
  replace (iss + o - (iss + a) + sg_len t) with (o + sg_len t - a) by lia. assert (0 ≤ snd_wnd (so_w s) < 2 ^ 16) by apply P.
  rewrite u32_small by lia. lia.
Qed.

(** A stream that goes on, or ends, keeps what was sent. *)
Lemma sound_more W F W' F' e : (F = true → W' = [] ∧ F' = true) → ev_sound iss W F e → ev_sound iss (W ++ W') F' e.
Proof.
  intros Hext. destruct e as [| | |ack wnd t]; try done. intros [[(o & Ho) Hf] Hw]. split; [|done]. destruct (fin t) eqn:Ht.
  - specialize (Hf eq_refl). destruct (Hext Hf) as [-> ->]. rewrite app_nil_r. split; [eauto|done].
  - split; [|by rewrite Ht]. exists o. by apply seg_at_more.
Qed.

Lemma writable_fin F s : sparams F s → writable (so_state s) = true → F = false.
Proof.
  intros (_ & _ & _ & P4) Hw. destruct F; [|done]. destruct (P4 eq_refl) as (? & ? & ? & ?).
  unfold writable in Hw. by rewrite !(proj2 (Z.eqb_neq _ _)) in Hw.
Qed.

Lemma state_inv W F T a s st : sinv iss W F T a s → (writable st = true → writable (so_state s) = true) → sinv iss W F T a (so_set_state st s).
Proof.
  intros [P H] Hst. split; [|done]. pose proof (writable_fin _ _ P) as Hf. destruct P as (P1 & P2 & P3 & P4). split_and!; cbn [so_mss so_w so_set_state]; try lia.
  intros ->. destruct (writable st) eqn:Hw; [by specialize (Hf (Hst eq_refl))|]. unfold writable in Hw. cbn.
  repeat (apply orb_false_iff in Hw as [Hw ?%Z.eqb_neq]). apply Z.eqb_neq in Hw. done.
Qed.

Lemma exec_inv W F T a s op : sinv iss W F T a s → op_ok op s →
  ∃ r evs, exec op s = Some (r, evs) ∧ (F = true → written evs = [] ∧ F || ended evs = true) ∧
    Forall (ev_sound iss (W ++ written evs) (F || ended evs)) evs ∧
    match r with Some s' => ∃ a', sinv iss (W ++ written evs) (F || ended evs) (T + acked_bytes evs) a' s' | None => evs = [] end.
Proof.
  intros H Hok. destruct op as [mem adjacent data|mem|ticks input ack route tx|ticks busy tcplen seqno ackno wnd|mem busy ticks ack route tx|st];
    cbn [exec op_ok] in *.
  - destruct (tcp_write_inv iss W F T a s mem adjacent data H Hok) as (ok & s' & -> & H' & HF). eexists _, _. split; [done|].
    destruct ok; unfold written, acked_bytes; cbn; rewrite ?app_nil_r, ?orb_false_r, ?Z.add_0_r.
    + rewrite (HF eq_refl) in *. split_and!; [done|by repeat constructor|]. by exists a.
    + split_and!; [done|done|]. by exists a.
  - destruct Hok as [H1 H2]. pose proof (shutdown_inv iss W F T a s mem H H1 H2) as K. destruct (tcp_shutdown_fin mem s) as [ok s'].
    eexists _, _. split; [done|]. destruct (ok && _); unfold written, acked_bytes; cbn; rewrite ?app_nil_r, ?Z.add_0_r.
    + rewrite orb_true_r in *. split_and!; [done|by repeat constructor|]. by exists a.
    + split_and!; [by intros ->|done|]. by exists a.
  - pose proof (tcp_output_inv iss W F T a s ticks input ack route tx H) as K. destruct (tcp_output ticks input ack route tx s) as [[b s'] out].
    destruct K as [K1 K2]. eexists _, _. split; [done|]. rewrite written_wire, acked_wire, ended_wire, app_nil_r, orb_false_r, Z.add_0_r.
    split_and!; [done| |by exists a]. eapply allowed_sound; [done|]. by apply wired_allowed.
  - destruct Hok as [H1 H2]. unfold tcp_process_ack. set (s0 := so_set_p _ s).
    destruct (receive_ack_inv iss W F T a s0 ticks busy tcplen seqno ackno wnd) as (r & e & s' & a' & -> & K1 & K2 & K3); [by eapply sinv_frame; [..|exact H]|done|done|].
    eexists _, _. split; [done|]. unfold written, acked_bytes; cbn; rewrite ?app_nil_r, ?orb_false_r, ?Z.add_0_r.
    split_and!; [done|by repeat constructor|by exists a'].
  - destruct Hok as [H1 H2]. destruct (slowtmr_inv iss W F T a s mem busy ticks ack route tx H H1 H2) as (r & -> & K). destruct r as [|s' out].
    { eexists _, _. split; [done|]. cbn. by rewrite orb_false_r. }
    destruct K as [K1 K2]. eexists _, _. split; [done|]. rewrite written_wire, acked_wire, ended_wire, app_nil_r, orb_false_r, Z.add_0_r.
    split_and!; [done| |by exists a]. by eapply allowed_sound.
  - eexists _, _. split; [done|]. unfold written, acked_bytes; cbn. rewrite ?app_nil_r, ?orb_false_r, ?Z.add_0_r. split_and!; [done..|].
    exists a. by apply state_inv.
Qed.

(** ** A run *)

Lemma run_inv W F T a s ops : sinv iss W F T a s → guarded ops s →
  ∃ r evs, run ops s = Some (r, evs) ∧ (F = true → written evs = [] ∧ F || ended evs = true) ∧
    Forall (ev_sound iss (W ++ written evs) (F || ended evs)) evs ∧
    match r with Some s' => ∃ a', sinv iss (W ++ written evs) (F || ended evs) (T + acked_bytes evs) a' s' | None => True end ∧
    0 ≤ acked_bytes evs ∧ T + acked_bytes evs ≤ Z.of_nat (length (W ++ written evs)).
Proof.
  revert W F T a s. induction ops as [|op ops IH]; intros W F T a s H Hg.
  { eexists _, _. split; [done|]. unfold written, acked_bytes. cbn. rewrite app_nil_r, orb_false_r, Z.add_0_r. split_and!; try done; [by exists a|].
    destruct H as [_ (A & n & al & H & ->)]. unfold bytes. lia. }
  destruct Hg as [Hok Hg]. destruct (exec_inv W F T a s op H Hok) as (r & evs & E & X1 & X2 & X3). cbn [run]. rewrite E in *.
  destruct r as [s'|].
  2:{ subst evs. eexists _, _. split; [done|]. split_and!; try done. rewrite Z.add_0_r. unfold written. cbn. rewrite app_nil_r.
      destruct H as [_ (A & n & al & H & ->)]. unfold bytes. lia. }
  destruct X3 as (a' & X3). destruct (IH _ _ _ _ _ X3 Hg) as (r' & evs' & -> & Y1 & Y2 & Y3 & Y4 & Y5). eexists _, _. split; [done|].
  assert (0 ≤ acked_bytes evs) as Hpos.
  { clear -X2. induction X2 as [|e l He Hl IH]; [done|]. unfold acked_bytes in *. cbn [foldr]. assert (0 ≤ ev_acked e); [|lia]. by destruct e. }
  rewrite written_app, ended_app, acked_app, app_assoc, orb_assoc, Z.add_assoc. split_and!; try done; try lia.
  - intros HF. destruct (X1 HF) as [-> X]. destruct (Y1 X) as [-> ?]. done.
  - apply Forall_app. split; [|done]. eapply Forall_impl; [exact X2|]. intros e. by apply sound_more.
Qed.

(** A connection that has sent no data; [iss] is the number of the first byte. *)
Definition starts (s : tsnd) : Prop :=
  so_q s = mk_squeue [] [] (u32 iss) (u32 iss) (u32 iss) SND_BUF 0 ∧
  1 ≤ so_mss s < 2 ^ 16 ∧ 2 ≤ snd_wnd_max (so_w s) ∧ 0 ≤ snd_wnd (so_w s) < 2 ^ 16.

Lemma starts_inv s : starts s → sinv iss [] false 0 0 s.
Proof.
  intros (H2 & H3 & H4 & H5). split; [by split_and!; try lia|]. exists 0, 0, []. split; [|done]. rewrite H2.
  split_and!; cbn; try done; by rewrite ?Z.add_0_r.
Qed.

Lemma sinv_empty W F T a s : sinv iss W F T a s → unsent (so_q s) = [] → unacked (so_q s) = [] → T = Z.of_nat (length W).
Proof.
  intros [_ (A & n & al & H & ->)] H1 H2. destruct H as (C1 & C2 & C3 & _ & _ & C6 & C7 & _). rewrite C6 in H1. rewrite C7 in H2.
  assert (al = []) as ->. { destruct al as [|[[] g] al]; [done|..]; rewrite ?una_cons, ?uns_cons in *; done. }
  cbn in C1. unfold bytes, upto in *. destruct F; lia.
Qed.
End run.


(** A connection whose first byte has the number 1000. *)
Definition conn (mss wnd wnd_max : Z) : tsnd :=
  mk_snd ESTABLISHED TF_NODELAY mss (mk_squeue [] [] 1000 1000 1000 SND_BUF 0) (mk_swindow wnd wnd_max 500 1000)
    (mk_scong 10000 20000 0 0) (mk_srtt (-1) 0 6 0 6 0 0 0) (mk_persist 0 0 0).

Definition Put (data : list Z) : sop := OpWrite true false data.
Definition Out (tx : list tx_result) : sop := OpOutput 1 false None true tx.
Definition Ack (ackno wnd : Z) : sop := OpAck 2 false 0 500 ackno wnd.
Definition Tick : sop := OpTimer true false 3 None true [TxSent; TxSent].

(** The window is too small, the segment is split, the window is closed and probed; the
    last segments are lost once. *)
Definition calm : list sop :=
  [Put [1; 2]; Put [3; 4]; Out [TxSent]; Tick; Tick; Tick; Ack 1003 0; Out []; Tick; Tick; Tick; Ack 1004 100;
   Put [5; 6]; OpShutdown true; Out [TxSent]; Tick; Tick; Tick; Tick; Tick; Tick; Ack 1007 100].

