(* ===== verification/TcpOutCases.v ===== *)
(** * Sending TCP segments: examples

    Runs of a connection outside the conditions of [TcpOutRun]: each of them is possible
    with a peer that sends the right segments, and shows what the condition is for. *)

From S2P Require Import Prelude CString TcpIn TcpInProps TcpOut TcpOutProps TcpOutAck TcpOutWrite TcpOutSend TcpOutRun.

Definition wires (evs : list sevent) : list (Z * list Z * bool) :=
  omap (λ e, match e with EvWire _ _ t => Some (sg_seqno t, sg_data t, fin t) | _ => None end) evs.

Definition seen (r : option (option tsnd * list sevent)) : option (list Z * list (Z * list Z * bool)) :=
  match r with Some (_, evs) => Some (written evs, wires evs) | None => None end.

(** After a fast retransmission that could not be sent, the first segment is alone among
    those to be sent; what is written then goes to its end, in front of data that was sent
    already. *)
Lemma fast_rexmit_corrupts :
  seen (run [Put [1; 2]; Out [TxSent]; Put [3; 4; 5; 6]; Out [TxSent]; Ack 1000 100; Ack 1000 100; Ack 1000 100; Out [TxErr]; Put [7; 8]; Out [TxSent]]
    (conn 4 100 100)) =
  Some ([1; 2; 3; 4; 5; 6; 7; 8], [(1000, [1; 2], false); (1002, [3; 4; 5; 6], false); (1000, [1; 2; 7; 8], false)]).
Proof. vm_compute. reflexivity. Qed.

(** A segment with a FIN that is split keeps it on its first part. *)
Lemma split_keeps_fin :
  seen (run [Put [1; 2; 3; 4]; OpShutdown true; Out [TxSent]; Tick; Tick; Tick] (conn 4 2 8)) = Some ([1; 2; 3; 4], [(1000, [1; 2], true)]).
Proof. vm_compute. reflexivity. Qed.

(** A probe that takes the last byte leaves the persist timer running without data. *)
Lemma persist_empty_asserts :
  let ops := [Put [9]; Out [TxSent]; Tick; Tick; Tick; Ack 1001 100; Out [TxSent]] in
  seen (run ops (conn 4 0 100)) = Some ([9], [(1000, [9], false)]) ∧ run (ops ++ [Tick]) (conn 4 0 100) = None.
Proof. vm_compute. split; reflexivity. Qed.

(** The first window of the peer is zero, and segments are too large when it opens. *)
Lemma zero_window_asserts :
  seen (run [Put [1; 2; 3; 4; 5; 6]; Ack 1000 4] (conn 8 0 0)) = Some ([1; 2; 3; 4; 5; 6], []) ∧
  run [Put [1; 2; 3; 4; 5; 6]; Ack 1000 4; Put [7]] (conn 8 0 0) = None.
Proof. vm_compute. split; reflexivity. Qed.

(** So they are when a segment of the established connection has another MSS option. *)
Lemma smaller_mss_asserts :
  match run [Put [1; 2; 3; 4; 5; 6]] (conn 8 100 100) with
  | Some (Some s, _) => tcp_write true false [7] (mk_snd (so_state s) (so_flags s) 4 (so_q s) (so_w s) (so_c s) (so_r s) (so_p s)) = None
  | _ => False
  end.
Proof. vm_compute. reflexivity. Qed.

(** A part of the first segment is acknowledged, and the segment is split there or before:
    the first part is never sent and never acknowledged, nor is anything behind it, however
    large the window becomes. *)
Lemma split_acked_stalls :
  seen (run ([Put [1; 2; 3; 4; 5; 6; 7; 8]; Out [TxSent]; Ack 1005 2] ++ replicate 40 Tick ++ [Ack 1005 1000; Out [TxSent; TxSent]] ++ replicate 40 Tick)
    (conn 8 16 16)) = Some ([1; 2; 3; 4; 5; 6; 7; 8], [(1000, [1; 2; 3; 4; 5; 6; 7; 8], false)]).
Proof. vm_compute. reflexivity. Qed.
