(* ===== verification/TcpSendSession.v ===== *)
(** * A TCP session on the sending side of lwIP

    The connection of [TcpOut] and the session of [SessionTCP] as one system: the session
    gives lwIP pointers to the bytes it has read from the socket, and lwIP tells it how
    many of them the peer has. *)

From S2P Require Import Prelude CString RingBuffer SessionTCP SessionTCPProps TcpIn TcpInProps TcpOut TcpOutProps TcpOutAck TcpOutWrite TcpOutSend TcpOutRun.

(** The parts of the ring buffer that are given to [tcp_write]. *)
Definition parts (self : HevSocks5SessionTCP) : list (list Z) :=
  (λ x, iov_gather (rdata (st_buffer self)) [x]) <$> hev_ring_buffer_reading (st_buffer self).

(** The reading of the socket has ended. *)
Definition fetch_ends (r : Z) (again : bool) (self : HevSocks5SessionTCP) : bool :=
  match hev_ring_buffer_writing (st_buffer self) with [] => false | _ => (r <=? 0) && negb ((r <? 0) && again) end.

(** The calls of lwIP in a round of [tcp_splice_b], but for [tcp_output]; [fl] has the
    answers of the allocator and the places of the parts. *)
Definition splice_calls (r : Z) (again : bool) (bs : list Z) (fl : list (bool * bool)) (mem : bool) (self : HevSocks5SessionTCP) : list sop :=
  match parts (fetch r bs self) with
  | [] => if fetch_ends r again self then [OpShutdown mem] else []
  | ps => zip_with (λ f d, OpWrite f.1 f.2 d) fl ps
  end.

Definition session_only (e : tcp_event) : Prop := match e with EvF _ _ | EvCb (CbRecv _) | EvCb CbEof => True | _ => False end.
Definition net_op (op : sop) : Prop := match op with OpOutput _ _ _ _ _ | OpTimer _ _ _ _ _ _ | OpState _ => True | _ => False end.
Definition ack_op (op : sop) : Prop := match op with OpAck _ _ _ _ _ _ => True | _ => False end.

(** The events of the session and those of the connection, in the order of the system. *)
Inductive sys_run (self0 : HevSocks5SessionTCP) (s0 : tsnd) : list tcp_event → list sevent → HevSocks5SessionTCP → tsnd → Prop :=
  | sys_nil : sys_run self0 s0 [] [] self0 s0
  | sys_session es evs self s e :
      sys_run self0 s0 es evs self s → session_only e → ev_ok e self → sys_run self0 s0 (es ++ [e]) evs (tcp_event_do e self) s
  | sys_round es evs self s r again bs ook fl mem s' evs' :
      sys_run self0 s0 es evs self s → ev_ok (EvB r again bs ook) self →
      guarded (splice_calls r again bs fl mem self) s → run (splice_calls r again bs fl mem self) s = Some (Some s', evs') →
      written evs' = concat (parts (fetch r bs self)) →
      sys_run self0 s0 (es ++ [EvB r again bs ook]) (evs ++ evs') (tcp_event_do (EvB r again bs ook) self) s'
  | sys_ack es evs self s op n s' :
      sys_run self0 s0 es evs self s → ack_op op → op_ok op s → exec op s = Some (Some s', [EvAcked n]) →
      sys_run self0 s0 (if 0 <? n then es ++ [EvCb (CbSent n)] else es) (evs ++ [EvAcked n])
        (if 0 <? n then tcp_event_do (EvCb (CbSent n)) self else self) s'
  | sys_net es evs self s op s' evs' :
      sys_run self0 s0 es evs self s → net_op op → op_ok op s → exec op s = Some (Some s', evs') →
      sys_run self0 s0 es (evs ++ evs') self s'.

(** ** The parts *)

Lemma concat_parts self : concat (parts self) = iov_gather (rdata (st_buffer self)) (hev_ring_buffer_reading (st_buffer self)).
Proof.
  unfold parts. induction (hev_ring_buffer_reading _) as [|x v IH]; [done|]. cbn [fmap list_fmap concat]. rewrite IH.
  unfold iov_gather. cbn. by rewrite app_nil_r.
Qed.

Lemma parts_fetched es sent self r again bs ook :
  stcp_inv es sent [] self → ev_ok (EvB r again bs ook) self → concat (parts (fetch r bs self)) = ev_fetched (EvB r again bs ook).
Proof.
  intros (_ & _ & _ & _ & Hrep & _ & _) Hok. destruct (ring_fetch _ _ _ _ _ Hrep Hok) as (Hrep1 & _ & _).
  rewrite concat_parts. destruct (ring_reading _ _ _ Hrep1) as [Hg _]. exact Hg.
Qed.

(** ** Runs without acknowledgements *)

Definition app_op (op : sop) : Prop := match op with OpWrite _ _ _ | OpShutdown _ => True | _ => False end.

Lemma exec_no_acks op s r evs : ¬ ack_op op → exec op s = Some (r, evs) → acked_bytes evs = 0.
Proof.
  intros Hop H. destruct op; cbn [exec] in H; try done.
  - destruct (tcp_write _ _ _ _) as [[[] ?]|]; by simplify_eq.
  - destruct (tcp_shutdown_fin _ _). destruct (_ && _) in H; by simplify_eq.
  - destruct (tcp_output _ _ _ _ _ _) as [[? ?] ?]. simplify_eq. apply acked_wire.
  - destruct (tcp_slowtmr_send _ _ _ _ _ _ _) as [[]|]; simplify_eq; [done|apply acked_wire].
  - by simplify_eq.
Qed.

Lemma run_no_acks ops s r evs : Forall app_op ops → run ops s = Some (r, evs) → acked_bytes evs = 0.
Proof.
  intros Hops. revert s r evs. induction Hops as [|op ops Hop Hops IH]; intros s r evs; cbn [run]; [by intros [= <- <-]|].
  destruct (exec op s) as [[[s1|] evs1]|] eqn:E; try done.
  - apply exec_no_acks in E; [|destruct op; cbn in *; tauto]. destruct (run ops s1) as [[r2 evs2]|] eqn:E2; [|done]. intros [= <- <-]. rewrite acked_app, E.
    by rewrite (IH _ _ _ E2).
  - apply exec_no_acks in E; [|destruct op; cbn in *; tauto]. by intros [= <- <-].
Qed.

Lemma splice_calls_app r again bs fl mem self : Forall app_op (splice_calls r again bs fl mem self).
Proof.
  unfold splice_calls. destruct (parts _) as [|p ps].
  - destruct (fetch_ends _ _ _); by repeat constructor.
  - generalize (p :: ps). clear. induction fl as [|f fl IH]; intros [|q qs]; try done. cbn. by constructor.
Qed.

(** ** The system *)

Section system.
Context (iss : Z).

Definition sys_inv (es : list tcp_event) (evs : list sevent) (self : HevSocks5SessionTCP) (s : tsnd) : Prop :=
  ∃ sent a, stcp_inv es sent [] self ∧ st_pcb self ≠ None ∧ sinv iss (fetched es) (ended evs) (Z.of_nat (SessionTCPProps.acked es)) a s ∧
    written evs = fetched es ∧ acked_bytes evs = Z.of_nat (SessionTCPProps.acked es) ∧ Forall (ev_sound iss (fetched es) (ended evs)) evs.

(** The session keeps its connection, and has nothing that lwIP does not have. *)
Lemma event_keeps es sent self e : stcp_inv es sent [] self → ev_ok e self → st_pcb self ≠ None → e ≠ EvCb CbErr →
  ∃ sent', stcp_inv (es ++ [e]) sent' [] (tcp_event_do e self) ∧ st_pcb (tcp_event_do e self) ≠ None.
Proof.
  intros H Hok Hp He. destruct (inv_event es sent [] self e H Hok) as (sent' & ready' & H').
  assert (st_pcb (tcp_event_do e self) ≠ None) as Hp'.
  { destruct e as [x again|r again bs ook|[p| |len|]]; cbn [tcp_event_do tcp_callback_do]; try done.
    - unfold tcp_splice_f. destruct (st_queue self); [by destruct (st_pcb_eof self)|]. case_match; [done|]. cbn. by destruct (st_pcb self).
    - destruct (splice_b_unfold r again bs true ook self) as (res & _ & ->). cbn zeta. change (st_pcb (fetch r bs self)) with (st_pcb self).
      destruct (st_pcb self) as [pc|] eqn:Hpc; [|done]. destruct (hev_ring_buffer_reading _).
      + destruct (res <? 0); cbn [snd]; [done|]. change (st_pcb (fetch r bs self)) with (st_pcb self). by rewrite Hpc.
      + destruct (tcp_write_all _ _ _) as [[? ?] ?]. done.
    - unfold tcp_recv_handler. destruct (st_queue self); [done|]. by destruct (_ <? _).
    - cbn. by destruct (st_pcb self). }
  exists sent'. destruct (st_pcb (tcp_event_do e self)) eqn:E; [|done]. split; [|done].
  pose proof H' as (_ & _ & _ & _ & _ & _ & Hpcb). rewrite E in Hpcb. by destruct Hpcb as (-> & _).
Qed.

Lemma sys_inv_run W F T a s r evs0 evs ops :
  sinv iss W F T a s → Forall (ev_sound iss W F) evs0 → guarded ops s → run ops s = Some (Some r, evs) →
  ∃ a', sinv iss (W ++ written evs) (F || ended evs) (T + acked_bytes evs) a' r ∧
    Forall (ev_sound iss (W ++ written evs) (F || ended evs)) (evs0 ++ evs) ∧ T + acked_bytes evs ≤ Z.of_nat (length (W ++ written evs)) ∧ 0 ≤ acked_bytes evs.
Proof.
  intros H He Hg Hr. destruct (run_inv iss W F T a s ops H Hg) as (r' & evs' & E & Y1 & Y2 & Y3 & Y4 & Y5).
  rewrite Hr in E. injection E as <- <-. destruct Y3 as (a' & Y3). exists a'. split_and!; try done. apply Forall_app. split; [|done].
  eapply Forall_impl; [exact He|]. intros e. by apply sound_more.
Qed.

Lemma run_one op s s' evs : exec op s = Some (Some s', evs) → run [op] s = Some (Some s', evs).
Proof. intros H. cbn [run]. by rewrite H, app_nil_r. Qed.

Lemma guarded_one op s : op_ok op s → guarded [op] s.
Proof. intros H. cbn. split; [done|]. by destruct (exec op s) as [[[]]|]. Qed.

Lemma sys_run_inv self s es evs self' s' size memory :
  tcp_start self → 0 < size ≤ TCP_SND_BUF → Z.of_nat (length memory) = size → starts iss s →
  sys_run (tcp_splice_init size memory self) s es evs self' s' → sys_inv es evs self' s'.
Proof.
  intros Hst Hsize Hmem Hs Hrun. induction Hrun as [|es evs self1 s1 e Hrun IH He Hok|es evs self1 s1 r again bs ook fl mem s2 evs2 Hrun IH Hok Hg Hr Hw|
    es evs self1 s1 op n s2 Hrun IH Hop Hok Hx|es evs self1 s1 op s2 evs2 Hrun IH Hop Hok Hx].
  - destruct (inv_run self [] _ size memory Hst Hsize Hmem (run_nil _)) as (sent & ready & Hinv).
    assert (st_pcb (tcp_splice_init size memory self) = Some (mk_pcb [] TCP_SND_BUF 0 false)) as Hp by apply Hst.
    pose proof Hinv as (_ & _ & _ & _ & _ & _ & Hpcb). rewrite Hp in Hpcb. destruct Hpcb as (-> & _).
    exists sent, 0. split_and!; try done; [by rewrite Hp|by apply starts_inv].
  - destruct IH as (sent & a & I1 & I2 & I3 & I4 & I5 & I6).
    assert (fetched (es ++ [e]) = fetched es ∧ SessionTCPProps.acked (es ++ [e]) = SessionTCPProps.acked es) as [Ef Ea].
    { rewrite fetched_snoc, acked_snoc. destruct e as [|r again bs ook|[]]; try done; cbn; by rewrite app_nil_r, Nat.add_0_r. }
    destruct (event_keeps es sent self1 e I1 Hok I2) as (sent' & K1 & K2); [by intros ->|]. exists sent', a. by rewrite Ef, Ea.
  - destruct IH as (sent & a & I1 & I2 & I3 & I4 & I5 & I6).
    destruct (event_keeps es sent self1 _ I1 Hok I2) as (sent' & K1 & K2); [done|].
    rewrite (parts_fetched es sent self1 r again bs ook I1 Hok) in Hw.
    pose proof (run_no_acks _ _ _ _ (splice_calls_app r again bs fl mem self1) Hr) as Hna.
    destruct (sys_inv_run _ _ _ _ _ _ _ _ _ I3 I6 Hg Hr) as (a' & X1 & X2 & _ & _). rewrite Hna, Z.add_0_r in *.
    exists sent', a'. rewrite fetched_snoc, acked_snoc, written_app, acked_app, ended_app, <-Hw, Hna, I4. cbn [ev_acked].
    rewrite Nat.add_0_r, Z.add_0_r. by split_and!.
  - destruct IH as (sent & a & I1 & I2 & I3 & I4 & I5 & I6).
    destruct (sys_inv_run _ _ _ _ _ _ _ _ _ I3 I6 (guarded_one _ _ Hok) (run_one _ _ _ _ Hx)) as (a' & X1 & X2 & X3 & X4).
    unfold written, acked_bytes in X1, X2, X3, X4. cbn in X1, X2, X3, X4. rewrite app_nil_r, orb_false_r, Z.add_0_r in *.
    unfold sys_inv. rewrite written_app, acked_app, ended_app, I4, I5. unfold written, acked_bytes. cbn. rewrite app_nil_r, orb_false_r, Z.add_0_r.
    destruct (Z.ltb_spec 0 n) as [Hn|Hn].
    + assert (ev_ok (EvCb (CbSent n)) self1) as Hsent.
      { destruct (st_pcb self1) as [pc|] eqn:Hp; [|done]. exists pc. split; [done|]. pose proof I1 as (_ & _ & Ha & Hd & _ & _ & Hpcb). rewrite Hp in Hpcb.
        rewrite (pcb_refs_total _ _ _ _ _ Hpcb). rewrite app_nil_r in Hd. rewrite <-Hd, length_drop. lia. }
      destruct (event_keeps es sent self1 _ I1 Hsent I2) as (sent' & K1 & K2); [done|]. exists sent', a'.
      rewrite fetched_snoc, acked_snoc. cbn [ev_fetched SessionTCPProps.ev_acked]. rewrite app_nil_r, Nat2Z.inj_add, Z2Nat.id by lia. by split_and!.
    + assert (n = 0) as -> by lia. rewrite Z.add_0_r in *. exists sent, a'. by split_and!.
  - destruct IH as (sent & a & I1 & I2 & I3 & I4 & I5 & I6).
    destruct (sys_inv_run _ _ _ _ _ _ _ _ _ I3 I6 (guarded_one _ _ Hok) (run_one _ _ _ _ Hx)) as (a' & X1 & X2 & X3 & X4).
    rewrite (exec_no_acks op s1 _ _ ltac:(destruct op; cbn in *; tauto) Hx) in *. rewrite Z.add_0_r in *.
    assert (written evs2 = []) as Hw.
    { clear -Hop Hx. destruct op; try done; cbn [exec] in Hx.
      - destruct (tcp_output _ _ _ _ _ _) as [[? ?] ?]. simplify_eq. apply written_wire.
      - destruct (tcp_slowtmr_send _ _ _ _ _ _ _) as [[]|]; simplify_eq. apply written_wire.
      - by simplify_eq. }
    exists sent, a'. rewrite written_app, acked_app, ended_app, Hw, app_nil_r in *.
    rewrite (exec_no_acks op s1 _ _ ltac:(destruct op; cbn in *; tauto) Hx), Z.add_0_r. by split_and!.
Qed.
End system.

(** The bytes of the segments that lwIP may still send. *)
Lemma queued_bytes iss W F T a s g : sinv iss W F T a s → g ∈ unsent (so_q s) ++ unacked (so_q s) →
  ∃ k, sg_data (os_seg g) = take (Z.to_nat (sg_len (os_seg g))) (drop k (drop (Z.to_nat T) W)).
Proof.
  intros [_ (A & n & al & H & ->)] Hg. destruct H as (C1 & C2 & C3 & _ & _ & C6 & C7 & _). rewrite C6, C7 in Hg.
  assert (∃ b, (b, g) ∈ al) as [b Hb] by (apply elem_of_app in Hg as [?%elem_uns|?%elem_una]; eauto).
  apply chain_elem in C1. rewrite Forall_forall in C1. destruct (C1 _ Hb) as (o & H1 & H2 & H3 & H4). cbn [snd] in *.
  destruct H1 as (_ & H1 & _ & H5 & _). exists (Z.to_nat (o - bytes W A)). rewrite drop_drop, H5 at 1. do 2 f_equal. unfold bytes. lia.
Qed.


