(* ===== verification/TcpOpen.v ===== *)
(** * Opening a TCP connection

    The passive side of the handshake of lwIP: [tcp_alloc] and [tcp_eff_send_mss_netif]
    (third-part/lwip/src/core/tcp.c), [tcp_listen_input] and the state SYN_RCVD of
    [tcp_process] (core/tcp_in.c), and the SYN of [tcp_enqueue_flags] (core/tcp_out.c).
    The connection that is opened is the one from which [TcpStream] and [TcpOutRun] start. *)

From S2P Require Import Prelude CString TcpIn TcpInProps TcpInRun TcpStream TcpOut TcpOutProps TcpOutAck TcpOutRun.

Definition INITIAL_MSS : Z := 536.

(** Both halves of [struct tcp_pcb]; the state and the segment size are in both. *)
Record tpcb := mk_tpcb { tp_rcv : trcv; tp_snd : tsnd }.

Definition so_set_mss (x : Z) (s : tsnd) : tsnd := mk_snd (so_state s) (so_flags s) x (so_q s) (so_w s) (so_c s) (so_r s) (so_p s).

(** The new [struct tcp_pcb] of [tcp_alloc], when there is memory for it. *)
Definition tcp_alloc : tpcb :=
  mk_tpcb (mk_rcv 0 0 INITIAL_MSS 0 WND_MAX WND_MAX 0 [])
    (mk_snd 0 0 INITIAL_MSS (mk_squeue [] [] 0 0 0 SND_BUF 0) (mk_swindow 0 0 0 0) (mk_scong 1 SND_BUF 0 0)
      (mk_srtt (-1) 0 6 0 6 0 0 0) (mk_persist 0 0 0)).

(** The segment size that the interface allows; [mtu] is zero when it is not known. *)
Definition tcp_eff_send_mss (mtu : Z) (v6 : bool) (sendmss : Z) : Z :=
  if mtu =? 0 then sendmss
  else
    let offset := if v6 then 60 else 40 in
    Z.min sendmss (if offset <? mtu then u16 (mtu - offset) else 0).

Definition tp_set_mss (m : Z) (p : tpcb) : tpcb := mk_tpcb (rc_set_mss m (tp_rcv p)) (so_set_mss m (tp_snd p)).

(** [tcp_parseopt] for both halves. *)
Definition tp_parseopt (opts : list Z) (p : tpcb) : tpcb := tp_set_mss (rc_mss (tcp_parseopt opts (tp_rcv p))) p.

(** [tcp_enqueue_flags] for a SYN with an acknowledgement. *)
Definition tcp_enqueue_syn (mem : bool) (s : tsnd) : bool * tsnd :=
  if mem then
    let q := so_q s in
    let seg := tcp_create_segment [] [0] (Z.lor TCP_SYN TCP_ACK) (snd_lbb q) in
    (true, so_set_q (mk_squeue (unsent q ++ [seg]) (unacked q) (lastack q) (snd_nxt q) (u32 (snd_lbb q + 1)) (snd_buf q) (u16 (snd_queuelen q + 1))) s)
  else (false, so_add_flag TF_NAGLEMEMERR s).

(** [tcp_output_segment] announces the window: when a segment was given to IP, whether it
    went out or not. *)
Definition announce (s : tsnd) (out : list tseg) (r : trcv) : trcv :=
  if (match out with [] => false | _ => true end) || has_flag (so_flags s) TF_NAGLEMEMERR
  then rc_set_right_edge (u32 (rcv_nxt r + rcv_ann_wnd r)) r else r.

(** [tcp_output] of a connection for which no acknowledgement is due. *)
Definition tp_output (ticks : Z) (input route : bool) (tx : list tx_result) (p : tpcb) : tpcb * list tseg :=
  let '(_, s, out) := tcp_output ticks input None route tx (tp_snd p) in (mk_tpcb (announce s out (tp_rcv p)) s, out).

Inductive listen_result := LiIgnored | LiReset | LiNoMem | LiAbandoned | LiOpen (p : tpcb) (out : list tseg).

(** [iss] is the result of [tcp_next_iss]. *)
Definition tcp_listen_input (pcb_mem seg_mem route : bool) (tx : list tx_result) (iss ticks mtu : Z) (v6 : bool) (wnd : Z) (inseg : tseg) : listen_result :=
  let seqno := sg_seqno inseg in
  if has_flag (sg_flags inseg) TCP_RST then LiIgnored
  else if has_flag (sg_flags inseg) TCP_ACK then LiReset
  else if has_flag (sg_flags inseg) TCP_SYN then
    if pcb_mem then
      let r := rc_set_right_edge (u32 (seqno + 1)) (rc_set_nxt (u32 (seqno + 1)) (rc_set_state SYN_RCVD (tp_rcv tcp_alloc))) in
      let q := mk_squeue [] [] iss iss iss SND_BUF 0 in
      let s := so_set_w (mk_swindow 0 0 (u32 (seqno - 1)) iss) (so_set_q q (so_set_state SYN_RCVD (tp_snd tcp_alloc))) in
      let p := tp_parseopt (sg_opts inseg) (mk_tpcb r s) in
      let p := mk_tpcb (tp_rcv p) (so_set_w (mk_swindow wnd wnd (u32 (seqno - 1)) iss) (tp_snd p)) in
      let p := tp_set_mss (tcp_eff_send_mss mtu v6 (rc_mss (tp_rcv p))) p in
      let '(ok, s) := tcp_enqueue_syn seg_mem (tp_snd p) in
      if ok then let '(p, out) := tp_output ticks false route tx (mk_tpcb (tp_rcv p) s) in LiOpen p out
      else LiAbandoned
    else LiNoMem
  else LiIgnored.

Inductive syn_result := SrReset | SrStays (p : tpcb) | SrRst (p : tpcb) | SrAborted | SrOpens (p : tpcb) (d : tres) (acked : Z).

Definition initial_cwnd (mss : Z) : Z := u16 (Z.min (4 * mss) (Z.max (2 * mss) 4380)).

(** [tcp_process] in SYN_RCVD; [accept] is the answer of the application, [SrRst] sends a
    reset. *)
Definition tcp_process_syn_rcvd (mem : bool) (ack : ack_result) (busy accept : bool) (ticks wnd ackno : Z) (inseg : tseg) (p : tpcb) : option syn_result :=
  let seqno := sg_seqno inseg in
  let tcplen := TCP_TCPLEN inseg in
  let r := tp_rcv p in
  if has_flag (sg_flags inseg) TCP_RST then
    if seqno =? rcv_nxt r then Some SrReset
    else if TCP_SEQ_BETWEEN seqno (rcv_nxt r) (rcv_nxt r + rcv_wnd r) then Some (SrStays (mk_tpcb (tcp_ack_now r) (tp_snd p)))
    else Some (SrStays p)
  else
    let s := tp_snd p in
    let s := so_set_p (mk_persist (persist_cnt (so_p s)) (persist_backoff (so_p s)) 0) s in
    let p := tp_parseopt (sg_opts inseg) (mk_tpcb r s) in
    let r := tp_rcv p in
    let s := tp_snd p in
    if has_flag (sg_flags inseg) TCP_SYN then
      Some (SrStays (if seqno =? u32 (rcv_nxt r - 1) then mk_tpcb r (tcp_rexmit busy s).2 else p))
    else if has_flag (sg_flags inseg) TCP_ACK then
      if TCP_SEQ_BETWEEN ackno (lastack (so_q s) + 1) (snd_nxt (so_q s)) then
        if accept then
          match tcp_receive_ack ticks busy tcplen seqno ackno wnd (so_set_state ESTABLISHED s) with
          | None => None
          | Some (acked, _, s) =>
              match tcp_receive_data mem ack tcplen inseg (rc_set_state ESTABLISHED r) with
              | None => None
              | Some (r, d) =>
                  let s := so_set_c (mk_scong (initial_cwnd (so_mss s)) (ssthresh (so_c s)) (bytes_acked (so_c s)) (dupacks (so_c s))) s in
                  let r := if got_fin d then rc_set_state CLOSE_WAIT (tcp_ack_now r) else r in
                  Some (SrOpens (mk_tpcb r (so_set_state (rc_state r) s)) d (if acked =? 0 then 0 else acked - 1))
              end
          end
        else Some SrAborted
      else Some (SrRst p)
    else Some (SrStays p).

(** ** A connection that is being opened *)

(** The device holds no packets back. *)
Definition not_busy (tx : list tx_result) : Prop := TxBusy ∉ tx.

(** A SYN with the number [irs] has come, and [out] was sent in answer. *)
Inductive opening (irs iss : Z) : tpcb → list tseg → Prop :=
  | opening_syn seg_mem route tx ticks mtu v6 wnd g p out :
      sg_seqno g = u32 irs → 2 ≤ wnd < 2 ^ 16 → mtu = 0 ∨ 60 < mtu < 2 ^ 16 → not_busy tx →
      tcp_listen_input true seg_mem route tx (u32 iss) ticks mtu v6 wnd g = LiOpen p out → opening irs iss p out
  | opening_seg p out mem ack busy accept ticks wnd ackno g p' :
      opening irs iss p out → has_flag (sg_flags g) TCP_RST = false →
      tcp_process_syn_rcvd mem ack busy accept ticks wnd ackno g p = Some (SrStays p') ∨
      tcp_process_syn_rcvd mem ack busy accept ticks wnd ackno g p = Some (SrRst p') → opening irs iss p' out
  | opening_output p out ticks input route tx p' out' :
      opening irs iss p out → not_busy tx → tp_output ticks input route tx p = (p', out') → opening irs iss p' (out ++ out')
  | opening_timer p out mem busy ticks route tx s' out' :
      opening irs iss p out → not_busy tx → tcp_slowtmr_send mem busy ticks None route tx (tp_snd p) = Some (SlowGoes s' out') →
      opening irs iss (mk_tpcb (announce s' out' (tp_rcv p)) s') (out ++ out').

Section opening.
Context (irs iss : Z).

(** The SYN with an acknowledgement. *)
Definition syn_seg (t : tseg) : Prop :=
  sg_seqno t = u32 iss ∧ sg_len t = 0 ∧ sg_data t = [] ∧ has_flag (sg_flags t) TCP_SYN = true ∧ has_flag (sg_flags t) TCP_FIN = false.

(** It is in one of the queues. *)
Definition syn_queue (sent : bool) (q : squeue) : Prop :=
  ∃ g, syn_seg (os_seg g) ∧ os_clen g = 1 ∧ (unsent q = [g] ∧ unacked q = [] ∨ sent = true ∧ unsent q = [] ∧ unacked q = [g]) ∧
    lastack q = u32 iss ∧ snd_nxt q = u32 (iss + if sent then 1 else 0) ∧ snd_lbb q = u32 (iss + 1) ∧ snd_buf q = SND_BUF ∧ snd_queuelen q = 1.

(** What the sending half needs besides; [m] is the segment size. *)
Definition syn_params (m : Z) (s : tsnd) : Prop :=
  so_state s = SYN_RCVD ∧ so_mss s = m ∧ 1 ≤ m ≤ 8191 ∧ 2 ≤ snd_wnd_max (so_w s) ∧ 0 ≤ snd_wnd (so_w s) < 2 ^ 16 ∧
  persist_backoff (so_p s) = 0 ∧ 0 ≤ cwnd (so_c s).

Definition syn_snd (sent : bool) (m : Z) (s : tsnd) : Prop := syn_params m s ∧ syn_queue sent (so_q s).

Definition syn_rcv (sent : bool) (m : Z) (r : trcv) : Prop :=
  ∃ e, r = mk_rcv SYN_RCVD 0 m (u32 (irs + 1)) WND_MAX WND_MAX e [] ∧ (sent = true → e = u32 (irs + 1 + WND_MAX)).

Definition opening_inv (sent : bool) (p : tpcb) : Prop := ∃ m, syn_rcv sent m (tp_rcv p) ∧ syn_snd sent m (tp_snd p).

Lemma syn_seg_flag g : syn_seg (os_seg g) → syn_seg (os_seg (os_add_flags TCP_ACK g)).
Proof.
  intros (H1 & H2 & H3 & H4 & H5). rewrite syn_bit in H4. rewrite fin_bit in H5. split_and!; try done; cbn [os_add_flags os_set_flags os_seg sg_set_flags sg_flags].
  - rewrite syn_bit, add_flag_bits by done. done.
  - rewrite fin_bit, add_flag_bits by done. done.
Qed.

Lemma syn_tcplen t : syn_seg t → TCP_TCPLEN t = 1.
Proof. intros (H1 & H2 & H3 & H4 & H5). unfold TCP_TCPLEN. by rewrite fin_or_syn, H2, H4, orb_true_r. Qed.

Lemma syn_reach g q : syn_seg (os_seg g) → lastack q = u32 iss → seg_reach g q = 0.
Proof. intros (H1 & H2 & _) Hl. unfold seg_reach. rewrite H1, H2, Hl, Z.sub_diag. done. Qed.

Lemma max_seq_iss a : (a = 0 ∨ a = 1) → max_seq (u32 (iss + a)) (u32 (iss + 1)) = u32 (iss + 1).
Proof.
  intros Ha. unfold max_seq. rewrite (seq_lt_near _ _ a 1 iss) by (near || lia). destruct (Z.ltb_spec a 1); [done|]. by replace a with 1 by lia.
Qed.

(** Output sends the SYN, if anything. *)
Lemma syn_output ticks input route tx sent m s : syn_snd sent m s → not_busy tx →
  let '(ok, s', out) := tcp_output ticks input None route tx s in
  Forall syn_seg out ∧ syn_snd (sent || negb (bool_decide (out = []))) m s'.
Proof.
  intros [P (g & G1 & G2 & G3 & Q1 & Q2 & Q3 & Q4 & Q5)] Htx. unfold tcp_output. destruct input.
  { rewrite bool_decide_true, orb_false_r by done. split; [done|]. split; [done|]. by exists g. }
  destruct P as (P1 & P2 & P3 & P4 & P5 & P6 & P7). destruct G3 as [[U1 U2]|(-> & U1 & U2)]; rewrite U1.
  2:{ split; [done|]. split; [done|]. exists g. split_and!; try done. right. done. }
  destruct (negb route).
  { rewrite bool_decide_true, orb_false_r by done. split; [done|]. split; [done|]. exists g. split_and!; try done. by left. }
  rewrite (syn_reach g (so_q s)) by done. rewrite (proj2 (Z.ltb_ge _ _)) by lia. cbn [so_q so_set_p]. rewrite U1. cbn [output_loop so_q so_set_p].
  rewrite (syn_reach g (so_q s)) by done. rewrite (proj2 (Z.ltb_ge _ _)) by lia. unfold tcp_do_output_nagle. cbn [so_q so_set_p]. rewrite U2. cbn [orb negb andb].
  cbn [so_state so_set_p]. rewrite P1. cbn [Z.eqb SYN_RCVD SYN_SENT Pos.eqb]. pose proof (syn_seg_flag g G1) as G1'. set (g' := os_add_flags TCP_ACK g) in *.
  assert (match tx with r :: _ => r | [] => TxErr end ≠ TxBusy) as Hr. { destruct tx as [|r tx]; [done|]. intros ->. apply Htx. left. }
  cbv zeta. destruct (match tx with r :: _ => r | [] => TxErr end); [|done|].
  - assert (put_unacked g' (unacked (so_q s)) = [g']) as Hput by (by rewrite U2).
    rewrite (syn_tcplen _ G1'). cbn [Z.ltb Z.compare]. cbn [output_loop]. split; [by constructor|]. rewrite orb_true_r.
    split; [done|]. exists g'. split_and!; try done.
    + right. split_and!; done.
    + cbn [snd_nxt so_q so_set_q so_set_r so_set_p so_clear_flag so_set_flags]. rewrite Q2, (proj1 G1'), u32_add_l. apply max_seq_iss. destruct sent; auto.
  - split; [done|]. rewrite bool_decide_true, orb_false_r by done. split; [done|]. exists g'. split_and!; try done. left. done.
Qed.

Lemma announce_rcv sent m s out r : syn_rcv sent m r → syn_rcv (sent || negb (bool_decide (out = []))) m (announce s out r).
Proof.
  intros (e & -> & He). unfold announce. destruct out as [|t out].
  - rewrite bool_decide_true, orb_false_r by done. cbn [orb]. destruct (has_flag _ _); [|by exists e].
    eexists. split; [done|]. intros _. cbn. near.
  - eexists. split; [done|]. intros _. cbn. near.
Qed.

Lemma syn_snd_frame sent m s s' : so_q s' = so_q s → so_state s' = so_state s → so_mss s' = so_mss s → so_w s' = so_w s →
  persist_backoff (so_p s') = persist_backoff (so_p s) → 0 ≤ cwnd (so_c s') → syn_snd sent m s → syn_snd sent m s'.
Proof.
  intros E1 E2 E3 E4 E5 E6 [(P1 & P2 & P3 & P4 & P5 & P6 & P7) Q]. unfold syn_snd, syn_params. rewrite E1, E2, E3, E4, E5. split_and!; try done; lia.
Qed.

(** The SYN goes back to be sent again. *)
Lemma syn_rexmit busy sent m s : syn_snd sent m s → syn_snd sent m (tcp_rexmit busy s).2.
Proof.
  intros H. unfold tcp_rexmit. pose proof H as [P (g & G1 & G2 & G3 & Q)]. destruct G3 as [[U1 U2]|(-> & U1 & U2)]; rewrite U2; [done|].
  destruct busy; [done|]. cbn [snd]. split; [done|]. exists g. split_and!; try done; [|apply Q..]. left. cbn. by rewrite U1.
Qed.

Lemma syn_rto_prepare busy sent m s : syn_snd sent m s → syn_snd sent m (tcp_rexmit_rto_prepare busy s).2.
Proof.
  intros H. unfold tcp_rexmit_rto_prepare. pose proof H as [P (g & G1 & G2 & G3 & Q)]. destruct G3 as [[U1 U2]|(-> & U1 & U2)]; rewrite U2; [done|].
  cbn [unsnoc]. destruct busy; [done|]. cbn [snd]. split; [done|]. exists g. split_and!; try done; [|apply Q..]. left. cbn. by rewrite U1.
Qed.

Lemma syn_timer mem busy ticks route tx sent m s s' out : syn_snd sent m s → not_busy tx →
  tcp_slowtmr_send mem busy ticks None route tx s = Some (SlowGoes s' out) →
  Forall syn_seg out ∧ syn_snd (sent || negb (bool_decide (out = []))) m s'.
Proof.
  intros H Htx. unfold tcp_slowtmr_send. destruct (_ && _); [done|]. destruct (_ <=? _); [done|].
  pose proof H as [(P1 & P2 & P3 & P4 & P5 & P6 & P7) _]. rewrite P6. cbn [Z.ltb Z.compare]. intros [= E]. revert E.
  unfold slowtmr_rexmit. set (rt := if _ && (rtime (so_r s) <? 32767) then rtime (so_r s) + 1 else _). set (s0 := so_set_r _ s).
  assert (syn_snd sent m s0) as H0 by (by eapply syn_snd_frame; [..|exact H]).
  assert (∀ s1, syn_snd sent m s1 → SlowGoes s1 [] = SlowGoes s' out → Forall syn_seg out ∧ syn_snd (sent || negb (bool_decide (out = []))) m s') as Hstay.
  { intros s1 H1 [= <- <-]. rewrite bool_decide_true, orb_false_r by done. done. }
  destruct (rto (so_r s) <=? rt); [|by apply Hstay]. pose proof (syn_rto_prepare busy sent m s0 H0) as H1.
  destruct (tcp_rexmit_rto_prepare busy s0) as [ok s1]. cbn [snd] in H1. destruct (ok || _); [|by apply Hstay].
  unfold tcp_rexmit_rto_commit. set (s2 := so_set_r _ (rto_reduce s1)).
  assert (syn_snd sent m s2) as H2. { eapply syn_snd_frame; [..|exact H1]; try done. cbn. destruct H1 as [(_ & -> & ? & _) _]. lia. }
  pose proof (syn_output ticks false route tx sent m s2 H2 Htx) as K. destruct (tcp_output ticks false None route tx s2) as [[ok' s3] out'].
  intros [= <- <-]. done.
Qed.

Lemma parseopt_mss n opts m : 1 ≤ m ≤ 8191 → 1 ≤ parseopt_loop n opts m ≤ 8191.
Proof.
  revert opts m. induction n as [|n IH]; intros opts m Hm; [done|]. destruct opts as [|opt rest]; [done|]. cbn [parseopt_loop].
  destruct (opt =? 0); [done|]. destruct (opt =? 1); [by apply IH|]. destruct (opt =? 2).
  - destruct rest as [|len [|hi [|lo rest]]]; try done. destruct (len =? 4); [|done]. apply IH.
    set (new := u16 _). assert (0 ≤ new < 2 ^ 16) by (apply Z.mod_pos_bound; lia).
    destruct (Z.ltb_spec 8191 new); [cbn; lia|]. destruct (Z.eqb_spec new 0); cbn; lia.
  - destruct rest as [|data rest]; [done|]. destruct (data <? 2); [done|]. by apply IH.
Qed.

(** Both halves get the same segment size. *)
Lemma opening_mss sent p m : opening_inv sent p → 1 ≤ m ≤ 8191 → opening_inv sent (tp_set_mss m p).
Proof.
  intros (m0 & (e & E & He) & (P1 & P2 & P3 & P4) & Q) Hm. exists m. split; [exists e; cbn; by rewrite E|]. split; [|done]. by repeat split; try apply Hm; try apply P4.
Qed.

Lemma opening_parseopt sent p opts : opening_inv sent p → opening_inv sent (tp_parseopt opts p).
Proof.
  intros H. apply opening_mss; [done|]. cbn. apply parseopt_mss. destruct H as (m & (e & -> & _) & (_ & _ & ? & _) & _). cbn. lia.
Qed.

Lemma eff_mss_bounds mtu v6 m : 1 ≤ m ≤ 8191 → mtu = 0 ∨ 60 < mtu < 2 ^ 16 → 1 ≤ tcp_eff_send_mss mtu v6 m ≤ 8191.
Proof.
  intros Hm Hmtu. unfold tcp_eff_send_mss. destruct (Z.eqb_spec mtu 0); [done|]. destruct v6; (rewrite (proj2 (Z.ltb_lt _ _)) by lia); rewrite u16_small by lia; lia.
Qed.

(** The state after [tcp_listen_input], but for [tcp_output]. *)
Lemma listen_inv seg_mem route tx ticks mtu v6 wnd g p out :
  sg_seqno g = u32 irs → 2 ≤ wnd < 2 ^ 16 → mtu = 0 ∨ 60 < mtu < 2 ^ 16 → not_busy tx →
  tcp_listen_input true seg_mem route tx (u32 iss) ticks mtu v6 wnd g = LiOpen p out →
  Forall syn_seg out ∧ opening_inv (negb (bool_decide (out = []))) p.
Proof.
  intros Hseq Hw Hmtu Htx. unfold tcp_listen_input. destruct (has_flag _ TCP_RST); [done|]. destruct (has_flag _ TCP_ACK); [done|].
  destruct (has_flag _ TCP_SYN); [|done]. cbv zeta. set (p0 := tp_set_mss _ _).
  destruct seg_mem; [|done]. cbn [tcp_enqueue_syn]. set (s1 := so_set_q _ (tp_snd p0)).
  set (m := tcp_eff_send_mss mtu v6 (parseopt_loop (length (sg_opts g)) (sg_opts g) INITIAL_MSS)).
  assert (1 ≤ m ≤ 8191) as Hm by (apply eff_mss_bounds; [by apply parseopt_mss|done]).
  assert (tp_rcv p0 = mk_rcv SYN_RCVD 0 m (u32 (irs + 1)) WND_MAX WND_MAX (u32 (irs + 1)) []) as Hr.
  { cbn. rewrite Hseq, u32_add_l. done. }
  assert (syn_snd false m s1) as Hs1.
  { split; [by repeat split; try apply Hm; cbn; lia|]. exists (tcp_create_segment [] [0] (Z.lor TCP_SYN TCP_ACK) (u32 iss)). split_and!; try done.
    - split_and!; try done. cbn. apply u32_u32.
    - by left.
    - cbn. by rewrite Z.add_0_r.
    - cbn. near. }
  unfold tp_output. pose proof (syn_output ticks false route tx false m s1 Hs1 Htx) as K. cbn [tp_snd].
  destruct (tcp_output ticks false None route tx s1) as [[ok s2] out']. destruct K as [K1 K2]. intros [= <- <-]. split; [done|]. cbn [orb] in K2.
  exists m. split; [|done]. apply (announce_rcv false). exists (u32 (irs + 1)). split; [exact Hr|done].
Qed.

Lemma opening_run p out : opening irs iss p out → Forall syn_seg out ∧ opening_inv (negb (bool_decide (out = []))) p.
Proof.
  assert (∀ o1 o2 : list tseg, negb (bool_decide (o1 ++ o2 = [])) = negb (bool_decide (o1 = [])) || negb (bool_decide (o2 = []))) as Happ.
  { intros [|] [|]; done. }
  induction 1 as [seg_mem route tx ticks mtu v6 wnd g p out H1 H2 H3 H4 H5|p out mem ack busy accept ticks wnd ackno g p' _ [I1 I2] H1 H2|
    p out ticks input route tx p' out' _ [I1 (m & I2 & I3)] H1 H2|p out mem busy ticks route tx s' out' _ [I1 (m & I2 & I3)] H1 H2].
  - by eapply listen_inv.
  - split; [done|]. unfold tcp_process_syn_rcvd in H2. rewrite H1 in H2. cbv zeta in H2. set (p0 := tp_parseopt _ _) in H2.
    assert (opening_inv (negb (bool_decide (out = []))) p0) as H0.
    { apply opening_parseopt. destruct I2 as (m & I3 & I4). exists m. split; [done|]. eapply syn_snd_frame; [..|exact I4]; try done. apply I4. }
    destruct (has_flag _ TCP_SYN).
    { destruct H2 as [[= <-]|[=]]. destruct (_ =? _); [|done]. destruct H0 as (m & I3 & I4). exists m. split; [done|]. by apply syn_rexmit. }
    destruct (has_flag _ TCP_ACK); [|by destruct H2 as [[= <-]|[=]]]. destruct (TCP_SEQ_BETWEEN _ _ _); [|by destruct H2 as [[=]|[= <-]]].
    destruct accept; [|by destruct H2]. destruct (tcp_receive_ack _ _ _ _ _ _ _) as [[[? ?] ?]|]; [|by destruct H2].
    destruct (tcp_receive_data _ _ _ _ _) as [[? ?]|]; by destruct H2.
  - unfold tp_output in H2. pose proof (syn_output ticks input route tx _ m (tp_snd p) I3 H1) as K.
    destruct (tcp_output ticks input None route tx (tp_snd p)) as [[ok s2] o]. injection H2 as <- <-. destruct K as [K1 K2].
    split; [by apply Forall_app|]. rewrite Happ. exists m. split; [by apply announce_rcv|done].
  - destruct (syn_timer _ _ _ _ _ _ _ _ _ _ I3 H1 H2) as [K1 K2]. split; [by apply Forall_app|]. rewrite Happ. exists m. split; [by apply announce_rcv|done].
Qed.

(** ** The acknowledgement of the SYN *)

Lemma syn_freed g other q : syn_seg (os_seg g) → os_clen g = 1 → q = 1 →
  tcp_free_acked_segments (u32 (iss + 1)) [g] other q 0 = Some ([], 0, 0).
Proof.
  intros G1 G2 ->. cbn [tcp_free_acked_segments]. rewrite (syn_tcplen _ G1), G2. destruct G1 as (-> & -> & _). unfold TCP_SEQ_LEQ.
  rewrite (seq_lt_near _ _ 1 1 iss) by (near || lia). done.
Qed.

Lemma ack_new_syn m s : syn_queue true (so_q s) → so_mss s = m → 1 ≤ m ≤ 8191 → 2 ≤ snd_wnd_max (so_w s) → 0 ≤ snd_wnd (so_w s) < 2 ^ 16 →
  ∃ s', ack_new (u32 (iss + 1)) s = Some (0, s') ∧ starts (iss + 1) s' ∧ so_w s' = so_w s ∧ so_mss s' = m.
Proof.
  intros (g & G1 & G2 & G3 & Q1 & Q2 & Q3 & Q4 & Q5) Hm Hb Hw1 Hw2. unfold ack_new. set (s0 := if has_flag _ TF_INFR then _ else s).
  assert (so_q s0 = so_q s ∧ so_mss s0 = so_mss s ∧ so_w s0 = so_w s) as (E1 & E2 & E3) by (unfold s0; by destruct (has_flag _ TF_INFR)).
  rewrite E1, Q2, Q3, Q4, Q5. destruct G3 as [[U1 U2]|(_ & U1 & U2)]; rewrite U1, U2.
  - change (tcp_free_acked_segments (u32 (iss + 1)) [] [g] 1 0) with (Some ([] : list oseg, 1, 0)). cbn iota. rewrite (syn_freed g [] 1 G1 G2 eq_refl). eexists. split; [done|].
    split_and!; [|by case_match|by case_match; cbn; rewrite E2]. split_and!; [by case_match|by case_match; cbn; rewrite ?E2, ?E3; lia..].
  - rewrite (syn_freed g [] 1 G1 G2 eq_refl). cbn [tcp_free_acked_segments]. eexists. split; [done|].
    split_and!; [|by case_match|by case_match; cbn; rewrite E2]. split_and!; [by case_match|by case_match; cbn; rewrite ?E2, ?E3; lia..].
Qed.

Lemma receive_ack_syn m s ticks busy tcplen seqno wnd : syn_snd true m s → 0 ≤ wnd < 2 ^ 16 →
  ∃ s', tcp_receive_ack ticks busy tcplen seqno (u32 (iss + 1)) wnd (so_set_state ESTABLISHED s) = Some (0, false, s') ∧ starts (iss + 1) s' ∧ so_mss s' = m.
Proof.
  intros [(P1 & P2 & P3 & P4 & P5 & P6 & P7) Q] Hw. unfold tcp_receive_ack. set (w := update_window _ _ _ _). set (s1 := so_set_w w _).
  assert (2 ≤ snd_wnd_max w ∧ 0 ≤ snd_wnd w < 2 ^ 16) as [W1 W2] by (unfold w, update_window; case_match; cbn; lia).
  destruct (ack_new_syn m s1 Q P2 P3 W1 W2) as (s' & E & S1 & S2 & S3). pose proof Q as (g & _ & _ & _ & Q1 & Q2 & _). change (so_q s1) with (so_q s).
  rewrite Q1, Q2. unfold TCP_SEQ_BETWEEN, TCP_SEQ_GEQ, TCP_SEQ_LEQ.
  rewrite (seq_lt_near (u32 iss) _ 0 1 iss) by (near || lia || (rewrite Z.add_0_r; apply u32_u32)). cbn [Z.ltb Z.compare negb].
  rewrite (seq_lt_near (u32 (iss + 1)) (u32 iss + 1) 1 1 iss) by (near || lia). rewrite (seq_lt_near (u32 (iss + 1)) (u32 (iss + 1)) 1 1 iss) by (near || lia).
  cbn [Z.ltb Z.compare Pos.compare Pos.compare_cont negb andb]. rewrite E. eexists. split; [done|]. split; [|done]. exact S1.
Qed.
End opening.

(** C8: a connection is opened as both directions need it.  However SYNs are repeated,
    segments are lost and timers run, what lwIP sends is the SYN with its own number and
    nothing else; once it is sent, the first acknowledgement that the application accepts
    opens the connection: data that comes with it is taken as by a connection that is
    established and has received nothing, nothing is reported as acknowledged, and the
    sending half starts with the byte behind the SYN. *)
Theorem tcp_opens irs iss p out mem ack aa busy ticks wnd g :
  opening irs iss p out →
  Forall (syn_seg iss) out ∧
  (out ≠ [] → has_flag (sg_flags g) TCP_RST = false → has_flag (sg_flags g) TCP_SYN = false → has_flag (sg_flags g) TCP_ACK = true → 0 ≤ wnd < 2 ^ 16 →
   match tcp_process mem ack aa (TCP_TCPLEN g) g (ti_rcv (tcp_fresh (irs + 1) (rc_mss (tp_rcv p)))) with
   | Some (_, r, d) => ∃ s, tcp_process_syn_rcvd mem ack busy true ticks wnd (u32 (iss + 1)) g p = Some (SrOpens (mk_tpcb r s) d 0) ∧ starts (iss + 1) s ∧
       so_state s = rc_state r
   | None => True
   end).
Proof.
  intros H%opening_run. destruct H as [H1 H2]. split; [done|]. intros Hout F1 F2 F3 Hw. rewrite bool_decide_false in H2 by done.
  unfold tcp_process, tcp_process_state, tcp_process_syn_rcvd. rewrite F1, F2, F3. cbv zeta. destruct H2 as (m & (e & E & He) & Hs). rewrite (He eq_refl) in E.
  set (s0 := so_set_p _ (tp_snd p)). set (p0 := tp_parseopt (sg_opts g) (mk_tpcb (tp_rcv p) s0)).
  assert (opening_inv irs iss true p0) as (m' & (e' & E' & _) & Hs').
  { apply opening_parseopt. exists m. split; [by eexists|]. eapply syn_snd_frame; [..|exact Hs]; try done. apply Hs. }
  assert (rc_set_state ESTABLISHED (tp_rcv p0) = tcp_parseopt (sg_opts g) (ti_rcv (tcp_fresh (irs + 1) (rc_mss (tp_rcv p))))) as Hr.
  { unfold p0, tp_parseopt, tp_set_mss, tcp_parseopt. cbn [tp_rcv]. rewrite E. done. }
  assert (lastack (so_q (tp_snd p0)) = u32 iss ∧ snd_nxt (so_q (tp_snd p0)) = u32 (iss + 1)) as [Q1 Q2] by (destruct Hs' as [_ (? & _ & _ & _ & -> & -> & _)]; done).
  rewrite Q1, Q2. unfold TCP_SEQ_BETWEEN, TCP_SEQ_GEQ, TCP_SEQ_LEQ.
  rewrite (seq_lt_near (u32 (iss + 1)) (u32 iss + 1) 1 1 iss) by (near || lia). rewrite (seq_lt_near (u32 (iss + 1)) (u32 (iss + 1)) 1 1 iss) by (near || lia).
  cbn [Z.ltb Z.compare Pos.compare Pos.compare_cont negb andb].
  destruct (receive_ack_syn iss m' (tp_snd p0) ticks busy (TCP_TCPLEN g) (sg_seqno g) wnd Hs' Hw) as (s' & -> & S1 & S2). rewrite Hr.
  destruct (tcp_receive_data _ _ _ _ _) as [[r d]|]; [|done]. cbn [tcp_parseopt rc_set_mss rc_state ti_rcv tcp_fresh]. cbn [Z.eqb orb].
  change (ESTABLISHED =? ESTABLISHED) with true. cbn [orb]. eexists. split; [done|]. split; [|done]. exact S1.
Qed.

(** A SYN with a segment size, and an acknowledgement with two bytes. *)
Definition ex_syn : tseg := mk_tseg 499 0 TCP_SYN [] [2; 4; 5; 180].
Definition ex_ack : tseg := mk_tseg 500 2 TCP_ACK [1; 2] [].

Lemma tcp_opens_witness :
  ∃ p out, opening 499 999 p out ∧ out ≠ [] ∧ Forall (syn_seg 999) out ∧
    ∃ r s d, tcp_process true AckSent false 2 ex_ack (ti_rcv (tcp_fresh 500 1460)) = Some (PrGoes, r, d) ∧ recv_data d = [1; 2] ∧
      tcp_process_syn_rcvd true AckSent false true 7 1000 1000 ex_ack p = Some (SrOpens (mk_tpcb r s) d 0) ∧ starts 1000 s.
Proof.
  eassert (tcp_listen_input true true true [TxSent] (u32 999) 5 8500 false 1000 ex_syn = LiOpen _ _) as E by (vm_compute; reflexivity).
  eassert (opening 499 999 _ _) as Ho.
  { eapply opening_syn; [..|exact E]; [reflexivity|vm_compute; split; discriminate || reflexivity|right; vm_compute; split; reflexivity|].
    unfold not_busy. intros [H|H]%elem_of_cons; [discriminate|by apply not_elem_of_nil in H]. }
  eexists _, _. split; [exact Ho|]. split; [discriminate|].
  destruct (tcp_opens 499 999 _ _ true AckSent false false 7 1000 ex_ack Ho) as [H1 H2]. split; [exact H1|].
  specialize (H2 ltac:(discriminate) eq_refl eq_refl eq_refl ltac:(vm_compute; split; discriminate || reflexivity)).
  assert (∃ r d, tcp_process true AckSent false 2 ex_ack (ti_rcv (tcp_fresh 500 1460)) = Some (PrGoes, r, d) ∧ recv_data d = [1; 2]) as (r & d & E1 & E2).
  { eexists _, _. split; vm_compute; reflexivity. }
  revert H2. match goal with |- match ?x with _ => _ end → _ => replace x with (tcp_process true AckSent false 2 ex_ack (ti_rcv (tcp_fresh 500 1460))) by (vm_compute; reflexivity) end.
  rewrite E1. intros (s & E3 & E4 & _). exists r, s, d. split; [reflexivity|]. split; [exact E2|]. split; [exact E3|exact E4].
Defined.
